(* ===== verification/_CoqProject ===== *)
-Q . S2P
Prelude.v
Unicode.v
Json.v
Js.v
Base64.v
Digest.v
Dates.v
Envelope.v
Certificates.v
Authority.v
AuthorityView.v
ProfileValue.v
Profile.v
Recovery.v
Records.v
Revocation.v
MeshStore.v
IdentityStore.v
Contact.v
Pairing.v
FrameCodec.v
ServiceLogin.v
Instance.v
Blob.v
BlobStream.v
Messaging.v
Calling.v
ReadBudget.v
ReplicaEngine.v
ReplicaProgress.v
Archive.v
ArchiveSize.v
ArchiveBuild.v
ArchiveTotal.v
ArchiveRead.v
ArchiveTrust.v
ArchiveBytes.v
ArchiveStore.v
Coverage.v
CoverageSet.v
ArchiveCrypto.v
ArchiveFrame.v
Preparation.v
Journal.v
JournalSpec.v
JournalSafe.v
JournalClaims.v
