(* ===== verification/Prelude.v ===== *)
(** * Mesh verification library

    A model of the TypeScript packages of Meta Mesh (under [src/packages/]), with
    the frame codec of its Rust core, and proofs about it.  Browsers of one identity hold device keys certified by the
    identity; they exchange signed records, replicate encrypted objects through
    stores that are not trusted, and keep their data in browser storage.  This
    file holds what all components share; each other file models one component or
    proves one group of theorems about it.

    ** How code is represented

    - Numbers are [Z], [N] or [nat], with the range checks of the code written
      out; the code checks [Number.isSafeInteger] where it adds, and clocks are
      milliseconds below [2^53].  JavaScript strings are lists of UTF-16 code
      units ([list N], [js] converts a literal), bytes are numbers below 256.
    - Data whose shape nothing guarantees is a JSON [value] (Json.v), read with
      the property access of Js.v.  Finite doubles that are not exact integers
      are not represented: the theorems are about data without them.
    - Code that throws returns a [result]; code with effects is in [M W], a
      function of a world [W] to a result and the next world: what was done
      before a throw stays done.  An [await] or a call to the host lets the host
      change the world.  [triple], [safe], [moves], [returns] and [runs] below state
      what such code does, and [step_triple] with the hints [triples] proves it along
      its binds.
    - Random bytes, times and fresh ids are arguments.  A clock or a guard that
      is asked several times is a function of the number of the question.
    - Cryptography, Unicode tables, URL parsing, Automerge and host adapters are
      classes ([Sha256], [Ed25519], [SeedKeys], [Wrapping], [Words], [Blake3],
      [Platform], [Links], [Calendar], [Collation], [TextPlatform], [Automerge],
      [HeaderJson], [ReplicaPorts]).  Their laws are documented behaviour: a signature made
      with a key verifies under it, decryption inverts encryption, a digest has 32
      bytes.  Nothing is assumed about collisions or forgeries; a theorem that
      depends on them has the collision as an alternative.  Every class has an
      executable instance, on which the witnesses run the model.

    ** Language and formats

    - Unicode.v: code points, UTF-8, the order of strings; the scalar order of
      [compareCanonicalKeys] is the order of UTF-8 bytes.
    - Json.v, Js.v: [JSON.stringify] and [JSON.parse], canonical JSON and the
      signature input of [mesh-identity/src/index.ts].  Canonical JSON parses
      back, and determines the value; a signature input determines domain
      and payload.
    - Base64.v, Digest.v, Dates.v: base64url with its round trip, digests and
      key ids, ISO time stamps.
    - Envelope.v: [signEnvelope], [verifyEnvelope].

    ** Identity ([packages/mesh-identity/src])

    - Certificates.v: certificate chains and the walks on them.  On every catalog the
      walks are exact for the relations of being certified, revoked or below.
    - Authority.v: [verifyIdentityDeviceAuthority] and decisions on it: the
      shape of a verified authority, who is blocked, that a device that may manage
      stays, and the bounds.  AuthorityView.v: views and their merge, which
      extends the history and never undoes a revocation.  Revocation.v: making a revocation
      and making views; a revocation blocks whom it names and drops no operation
      the revoking device has seen.
    - ProfileValue.v, Profile.v: [profileValidation.ts], [identityProfile.ts]:
      reading, filtering, merging and editing a profile history.  Conflicting edits
      are kept, an edit resolves them, and filtering is causally closed.
    - Recovery.v: [recovery.ts], [recoveryNormalization.ts] and the new profiles
      of [index.ts]: sealed seeds open to the same identity, and opening fails
      with one error per kind of envelope.
    - IdentityStore.v: [BrowserIdentityStore] over storage that fails, where a
      write that throws may have taken effect: a stored profile is not lost by a
      replacement on asynchronous storage, and installed profiles load.
    - ServiceLogin.v: [serviceLogin.ts], [serviceLoginClient.ts]: an approval is
      accepted, and only for its own origin and challenge.

    ** Records between people and devices

    - Records.v: what signed records of the next packages share.
    - Contact.v ([mesh-contact]), Messaging.v ([mesh-messaging]), Calling.v
      ([mesh-calling]): verified documents are authentic; call sessions as a
      state machine.
    - Pairing.v ([mesh-pairing]): invitations and their links, with round trips.
    - FrameCodec.v ([crates/meta-mesh-core/src/pairing.rs], [ingress.rs] and the
      WebAssembly wrapper [crates/meta-mesh/src/pairing.rs]): the codec of pairing
      frames with its budgets; a payload within its budget reads as what was
      framed.
    - Instance.v ([mesh-instance]): the leases of browser tabs as a transition
      system over exclusive locks, with mutual exclusion.

    ** Storage and transfer

    - MeshStore.v ([mesh-browser-store]): the memory store, and the scan of the
      IndexedDB store, equivalent to it.  [AtomicStore] is what users of a
      store rely on.
    - Blob.v, BlobStream.v ([mesh-blob]): the transfer of a blob, safe against any
      peer and interruption, and complete over the codec of FrameCodec.v if nothing
      fails; the streaming
      store, in which a published manifest always has its content.
    - ReadBudget.v ([mesh-transport/src/readBudget.ts]): accounting, limits,
      no lost wake-up.
    - ReplicaEngine.v, ReplicaProgress.v ([mesh-replication/src/replicaEngine.ts]):
      the engine refines an outbox protocol under any behaviour of its ports;
      with ports that answer, it makes progress.
    - Archive.v ([historyArchive.ts]), ArchiveStore.v ([historyArchiveStore.ts])
      and the theorems on them: ArchiveSize.v (sizes of pages), ArchiveBuild.v
      (what a build leaves), ArchiveTotal.v (builds return), ArchiveRead.v
      (queries), ArchiveTrust.v (stores that are not trusted), ArchiveBytes.v
      (byte streams).  [ImmutableStore] is the interface between the two;
      ArchiveStore.v implements it.
    - Coverage.v ([historyArchiveCoverage.ts]), CoverageSet.v
      ([historyArchiveCoverageSet.ts]): receipts of a storage service and the
      canonical tree over a set of objects.  What a set derives is exactly the
      root of its tree, and a receipt is about one set.
    - ArchiveCrypto.v ([historyArchiveCrypto.ts]): sealing and opening objects.
    - Preparation.v ([historyPreparationData.ts]), Journal.v
      ([historyPreparationJournal.ts]): the records of a history preparation and the
      journal that captures a source, stages sealed objects, freezes their set
      and has it covered.  JournalSpec.v is the protocol, an abstract journal with
      its steps, and how its records lie in the persistence; JournalSafe.v shows
      that the reads and conditional writes of the code see and make steps of it,
      while other writers make steps too ([JournalHost]); JournalClaims.v has the
      operations and what follows: refinement, one durable record per binding, and
      a receipt for exactly the objects of a covered journal.  ArchiveFrame.v
      says that the archive code a journal calls does nothing else to the world.

    ** Bounds and fuel

    The limits of the code (page bytes, 18 levels, 8 pages of 128, 32
    certificates, 256 revocations, 8 MiB blobs, frame sizes, leaves of 64 and
    branches of 8 up to 16 levels of coverage, 2^20 prepared objects, 8 attempts at
    staging) are those of the source.  Loops that are not structural have fuel: the length of the text
    for printers, parsers and string comparison, one more than the catalog for
    chain walks, the queue length for a release, the depth limit for the archive
    tree, 33 levels for the coverage tree, the number of bytes for chunking, one
    more than the number of objects for the pages of a journal scan.  That it is
    enough is proved: [chain_walks_terminate], the round trips of Json.v,
    Archive*.v and BlobStream.v, [coverage_set_exact], [scan_rounds], and
    [drive_ends] for the attempts at a lease.

    ** What modelling showed

    Each is a theorem on a concrete or general input:
    [conversation_self_admission], [contact_append_past_limit],
    [delegated_channel_rejected], [blob_name_cut_rejected],
    [ipv6_loopback_relay_rejected], [device_authority_bounds] (256 certificates
    are allowed, 32 can pass), [bootstrap_overwrites_unreadable] and
    [login_return_unchecked].

    ** Not modelled

    - The Rust crates, the frame codec apart, and what only calls them through generated bindings
      (workspace authority, peer store, resources, the browser runtime, gossip
      and replication frames, [DurableReplicaStore]): their decisions are
      not in the TypeScript sources.
    - Browser and network I/O: opening IndexedDB databases, popups and window
      messages, HTTP clients, Iroh and WebRTC streams, broadcast channels.
    - The clients of modelled parts that add no algorithm these theorems need:
      enrollment, device authorization, catalog access, profile recovery over the
      mesh, the address book ([mesh-directory]), and the portable locators and the
      remote store of the archive.
    - Sharing of one refresh in flight between callers of
      [refreshPresentation].
    - The Elixir package, the word list, and the site. *)
From stdpp Require Import base numbers list gmap strings sorting.
From Stdlib Require Import ZArith Lia.

(** ** Results of code that throws

    A call that returns gives [Ok]; a call that throws an [Error] gives
    [Throw] with the message of that error. *)
Inductive result (A : Type) : Type :=
| Ok (a : A)
| Throw (message : string).
Arguments Ok {A} a.
Arguments Throw {A} message.

#[export] Instance result_eq_dec `{EqDecision A} : EqDecision (result A).
Proof. solve_decision. Defined.

#[export] Instance Ok_inj {A} : Inj (=) (=) (@Ok A).
Proof. by intros a b [=]. Qed.

#[export] Instance result_ret : MRet result := @Ok.
#[export] Instance result_bind : MBind result :=
  fun A B f m => match m with Ok a => f a | Throw e => Throw e end.

(** [require b e] is the guard [if (!b) throw new Error(e)]. *)
Definition require (b : bool) (e : string) : result unit :=
  if b then Ok tt else Throw e.

Definition is_ok {A} (r : result A) : bool :=
  match r with Ok _ => true | Throw _ => false end.

Lemma bind_ok {A B} (m : result A) (f : A -> result B) b :
  m ≫= f = Ok b <-> exists a, m = Ok a /\ f a = Ok b.
Proof. destruct m; cbn; split; [eauto| |discriminate|]; by intros (? & [=] & ?); subst. Qed.

Lemma require_ok b e u : require b e = Ok u <-> b = true.
Proof. destruct b, u; cbn; naive_solver. Qed.

Lemma require_bind_ok {A} b e (k : unit -> result A) a :
  require b e ≫= k = Ok a <-> b = true /\ k tt = Ok a.
Proof. destruct b; cbn; split; [done|by intros [? ?]|done|by intros [? ?]]. Qed.

(** Effects: a computation over a world [W] that may throw.  What it did to
    the world before throwing stays done. *)
Definition M (W A : Type) : Type := W -> result A * W.

#[export] Instance M_ret W : MRet (M W) := fun A a w => (Ok a, w).
#[export] Instance M_bind W : MBind (M W) :=
  fun A B f m w =>
    match m w with
    | (Ok a, w') => f a w'
    | (Throw e, w') => (Throw e, w')
    end.

Definition throwM {W A} (e : string) : M W A := fun w => (Throw e, w).
Definition liftM {W A} (r : result A) : M W A := fun w => (r, w).
Definition getM {W} : M W W := fun w => (Ok w, w).
Definition modifyM {W} (f : W -> W) : M W unit := fun w => (Ok tt, f w).
Definition requireM {W} (b : bool) (e : string) : M W unit := liftM (require b e).

(** *** Reasoning about effects

    [safe le w0 m Q]: run in any world after [w0] in the order [le], the
    computation moves the world along [le] whatever its outcome, and if it
    returns [a] then [Q a] holds of the world it returns in. *)
Section Safe.
Context {W : Type} (le : W -> W -> Prop) `{!PreOrder le}.

Definition safe {A} (w0 : W) (m : M W A) (Q : A -> W -> Prop) : Prop :=
  forall w, le w0 w -> le w (m w).2 /\ forall a, (m w).1 = Ok a -> Q a (m w).2.

Lemma safe_ret {A} w0 (a : A) (Q : A -> W -> Prop) :
  (forall w, le w0 w -> Q a w) -> safe w0 (mret a) Q.
Proof. intros HQ w Hw. split; [done|]. intros ? [= <-]. by apply HQ. Qed.

Lemma safe_throw {A} w0 e (Q : A -> W -> Prop) : safe w0 (throwM e) Q.
Proof. by intros w Hw. Qed.

Lemma safe_lift {A} w0 (r : result A) : safe w0 (liftM r) (fun a _ => r = Ok a).
Proof. by intros w Hw. Qed.

Lemma safe_require w0 b e : safe w0 (requireM b e) (fun _ _ => b = true).
Proof. intros w Hw. split; [done|]. intros []. by destruct b. Qed.

Lemma safe_bind {A B} w0 (m : M W A) (f : A -> M W B) Q R :
  safe w0 m Q -> (forall a w, le w0 w -> Q a w -> safe w (f a) R) -> safe w0 (m ≫= f) R.
Proof.
  intros Hm Hf w Hw. destruct (Hm w Hw) as [Hs HQ].
  unfold mbind, M_bind. destruct (m w) as [[a|e] w1]; cbn in *; [|done].
  destruct (Hf a w1) with w1 as [Hs' HR]; [by etrans|auto|done|].
  split; [by etrans|done].
Qed.

Lemma safe_weaken {A} w0 (m : M W A) (Q R : A -> W -> Prop) :
  safe w0 m Q -> (forall a w, le w0 w -> Q a w -> R a w) -> safe w0 m R.
Proof.
  intros Hm HQR w Hw. destruct (Hm w Hw) as [Hs HQ]. split; [done|].
  intros a Ha. apply HQR; [by etrans|by apply HQ].
Qed.
End Safe.

(** [moves le m]: whatever its outcome, the computation moves the world along [le]. *)
Definition moves {W A} (le : W -> W -> Prop) (m : M W A) : Prop := forall w, le w (m w).2.

Section Moves.
Context {W : Type} (le : W -> W -> Prop) `{!PreOrder le}.

Lemma moves_ret {A} (a : A) : moves le (mret a).
Proof. by intros w. Qed.

Lemma moves_throw {A} e : moves le (throwM (A := A) e).
Proof. by intros w. Qed.

Lemma moves_lift {A} (r : result A) : moves le (liftM r).
Proof. by intros w. Qed.

Lemma moves_require b e : moves le (requireM b e).
Proof. by intros w. Qed.

Lemma moves_bind {A B} (m : M W A) (f : A -> M W B) :
  moves le m -> (forall a, moves le (f a)) -> moves le (m ≫= f).
Proof.
  intros Hm Hf w. specialize (Hm w). unfold mbind, M_bind. destruct (m w) as [[a|e] w1]; cbn in *; [|done]. etrans; [done|]. apply Hf.
Qed.

Lemma moves_safe {A} (m : M W A) w0 : moves le m -> safe le w0 m (fun _ _ => True).
Proof. intros Hm w _. split; [apply Hm|done]. Qed.
End Moves.

(** Goes through a computation; what its operations do is found in the context. *)
Ltac moves := repeat (cbv beta zeta; match goal with
  | |- moves _ (mbind _ _) => apply moves_bind; [exact _| |intros ?]
  | |- moves _ (mret _) => apply moves_ret; exact _
  | |- moves _ (throwM _) => apply moves_throw; exact _
  | |- moves _ (liftM _) => apply moves_lift; exact _
  | |- moves _ (requireM _ _) => apply moves_require; exact _
  | |- moves _ (match ?x with _ => _ end) => destruct x
  | H : _ |- moves _ _ => simple apply H
  end).

(** [returns m w Q]: from [w], [m] returns some [a] in some [w'] with [Q a w']. *)
Definition returns {W A} (m : M W A) (w : W) (Q : A -> W -> Prop) : Prop :=
  exists a w', m w = (Ok a, w') /\ Q a w'.

Lemma returns_ret {W A} (a : A) (w : W) (Q : A -> W -> Prop) : Q a w -> returns (mret a) w Q.
Proof. intros. by exists a, w. Qed.

Lemma returns_lift {W A} (r : result A) a (w : W) (Q : A -> W -> Prop) :
  r = Ok a -> Q a w -> returns (liftM r) w Q.
Proof. intros ->. by exists a, w. Qed.

Lemma returns_require {W} b e (w : W) (Q : unit -> W -> Prop) :
  b = true -> Q tt w -> returns (requireM b e) w Q.
Proof. intros ->. by exists tt, w. Qed.

Lemma returns_bind {W A B} (m : M W A) (f : A -> M W B) w Q :
  returns m w (fun a w' => returns (f a) w' Q) -> returns (m ≫= f) w Q.
Proof.
  intros (a & w' & Hm & b & w'' & Hf & HQ). exists b, w''. unfold mbind, M_bind. by rewrite Hm.
Qed.

Lemma returns_weaken {W A} (m : M W A) w (Q R : A -> W -> Prop) :
  returns m w Q -> (forall a w', Q a w' -> R a w') -> returns m w R.
Proof. intros (a & w' & ? & ?) ?. exists a, w'. auto. Qed.

(** [runs F m w Q]: from [w], [m] either returns some [a] in some [w'] with
    [Q a w'], or throws an error of [F]. *)
Definition runs {W A} (F : string -> Prop) (m : M W A) (w : W) (Q : A -> W -> Prop) : Prop :=
  match m w with (Ok a, w') => Q a w' | (Throw e, _) => F e end.

Lemma runs_ret {W A} F (a : A) (w : W) (Q : A -> W -> Prop) : Q a w -> runs F (mret a) w Q.
Proof. done. Qed.

Lemma runs_lift {W A} F (r : result A) a (w : W) (Q : A -> W -> Prop) :
  r = Ok a -> Q a w -> runs F (liftM r) w Q.
Proof. by intros ->. Qed.

Lemma runs_require {W} F b e (w : W) (Q : unit -> W -> Prop) :
  b = true -> Q tt w -> runs F (requireM b e) w Q.
Proof. by intros ->. Qed.

Lemma runs_bind {W A B} F (m : M W A) (f : A -> M W B) w Q :
  runs F m w (fun a w' => runs F (f a) w' Q) -> runs F (m ≫= f) w Q.
Proof. unfold runs, mbind, M_bind. by destruct (m w) as [[] ?]. Qed.

Lemma runs_weaken {W A} F (m : M W A) w (Q R : A -> W -> Prop) :
  runs F m w Q -> (forall a w', Q a w' -> R a w') -> runs F m w R.
Proof. unfold runs. destruct (m w) as [[] ?]; auto. Qed.

(** Both kinds of triple at once. *)
Lemma runs_safe {W A} (le : W -> W -> Prop) `{!PreOrder le} F (m : M W A) w Q R :
  runs F m w Q -> safe le w m R -> runs F m w (fun a w' => Q a w' /\ R a w' /\ le w w').
Proof.
  intros Hr Hs. destruct (Hs w ltac:(reflexivity)) as [Hle HR]. unfold runs in *.
  destruct (m w) as [[a|e] w']; [|done]. split_and!; [done|by apply HR|done].
Qed.

(** [triple P m Q E]: from a world with [P] a computation returns with [Q] or throws with [E]. *)
Definition triple {W A} (P : W -> Prop) (m : M W A) (Q : A -> W -> Prop) (E : W -> Prop) : Prop :=
  forall w, P w -> match m w with (Ok a, w') => Q a w' | (Throw _, w') => E w' end.

Lemma triple_bind {W A B} (P : W -> Prop) (m : M W A) (f : A -> M W B) Q R E :
  triple P m Q E -> (forall a, triple (Q a) (f a) R E) -> triple P (m ≫= f) R E.
Proof. intros Hm Hf w Hw. unfold mbind, M_bind. specialize (Hm w Hw). destruct (m w) as [[a|e] w']; [by apply Hf|done]. Qed.

Lemma triple_pre {W A} (P P' : W -> Prop) (m : M W A) Q E : triple P' m Q E -> (forall w, P w -> P' w) -> triple P m Q E.
Proof. intros Hm HP w Hw. by apply Hm, HP. Qed.

Lemma triple_post {W A} (P : W -> Prop) (m : M W A) (Q Q' : A -> W -> Prop) (E E' : W -> Prop) :
  triple P m Q E -> (forall a w, Q a w -> Q' a w) -> (forall w, E w -> E' w) -> triple P m Q' E'.
Proof. intros Hm HQ HE w Hw. specialize (Hm w Hw). destruct (m w) as [[a|e] w']; auto. Qed.

(** Running on from a computation that is known to return. *)
Lemma bind_then {W A B} (m : M W A) (f : A -> M W B) w w' a : m w = (Ok a, w') -> (m ≫= f) w = f a w'.
Proof. intros Hm. unfold mbind, M_bind. by rewrite Hm. Qed.

(** A fact of the precondition that does not depend on the world. *)
Lemma triple_fact {W A} (P : W -> Prop) (fact : Prop) (m : M W A) Q E :
  (fact -> triple P m Q E) -> triple (fun w => P w /\ fact) m Q E.
Proof. intros Hm w [Hw Hf]. by apply Hm. Qed.

(** The triples of the operations of a component, and one step over the
    operation that heads a computation. *)
Create HintDb triples.
Ltac step_triple := eapply triple_bind; [solve [eauto 3 with triples nocore]|intros ?].

Definition isOk {A} (r : result A) : bool := match r with Ok _ => true | Throw _ => false end.

(** ** JavaScript strings: sequences of UTF-16 code units *)
Abbreviation jsstring := (list N) (only parsing).

Definition js (s : string) : list N :=
  map Ascii.N_of_ascii (String.list_ascii_of_string s).

(** ** Numbers *)
Definition MAX_SAFE_INTEGER : Z := 9007199254740991.

(** [Number.isSafeInteger] of an integral number. *)
Definition isSafeInteger (z : Z) : bool :=
  (- MAX_SAFE_INTEGER <=? z)%Z && (z <=? MAX_SAFE_INTEGER)%Z.

(** [Number(b)] of a boolean. *)
Definition Number_of_bool (b : bool) : Z := if b then 1 else 0.

(** ** Tactics *)

(** Opens [bind]s, guards and pairs of a computation known to return [Ok]. *)
Ltac unbind :=
  repeat match goal with
  | H : mbind _ _ = Ok _ |- _ => apply bind_ok in H as (? & ? & ?)
  | H : require _ _ = Ok _ |- _ => apply require_ok in H
  | H : Ok _ = Ok _ |- _ => injection H as H
  | H : Throw _ = Ok _ |- _ => discriminate H
  end.

Ltac bool_to_prop :=
  repeat match goal with
  | H : _ && _ = true |- _ => apply andb_true_iff in H as [? ?]
  | H : _ || _ = false |- _ => apply orb_false_iff in H as [? ?]
  | H : negb _ = true |- _ => apply negb_true_iff in H
  | H : negb _ = false |- _ => apply negb_false_iff in H
  | H : Z.eqb _ _ = true |- _ => apply Z.eqb_eq in H
  | H : Z.leb _ _ = false |- _ => apply Z.leb_gt in H
  | H : Z.ltb _ _ = false |- _ => apply Z.ltb_ge in H
  | H : bool_decide _ = true |- _ => apply bool_decide_eq_true in H
  | H : bool_decide _ = false |- _ => apply bool_decide_eq_false in H
  end.

(** The guard of the conditional that heads the hypothesis to come did not fire. *)
Tactic Notation "guard_passed" "as" ident(H) :=
  match goal with |- (if ?b then Throw _ else _) = Ok _ -> _ => destruct b eqn:H; [done|] end.

(** ** Lists *)
Fixpoint sumZ (l : list Z) : Z :=
  match l with [] => 0 | x :: l' => x + sumZ l' end.

Lemma sumZ_app l k : sumZ (l ++ k) = (sumZ l + sumZ k)%Z.
Proof. induction l as [|x l IH]; cbn in *; lia. Qed.

Lemma sumZ_nonneg l : Forall (fun z => 0 <= z)%Z l -> (0 <= sumZ l)%Z.
Proof. induction 1; cbn in *; lia. Qed.

Lemma sumZ_ge_elem l z : Forall (fun z => 0 <= z)%Z l -> z ∈ l -> (z <= sumZ l)%Z.
Proof.
  induction 1 as [|x l Hx Hl IH]; [by inversion 1|].
  apply sumZ_nonneg in Hl. inversion 1; subst; cbn in *; [lia|].
  specialize (IH ltac:(done)). lia.
Qed.

(** Point-wise update and removal of one summand. *)
Lemma sumZ_map_ext {A} (f g : A -> Z) l :
  (forall x, x ∈ l -> f x = g x) -> sumZ (map f l) = sumZ (map g l).
Proof.
  induction l as [|a l IH]; intros H; cbn; [done|].
  rewrite H, IH by set_solver. done.
Qed.

Lemma sumZ_map_update {A} `{EqDecision A} (f g : A -> Z) (x : A) l :
  NoDup l -> x ∈ l -> (forall y, y ∈ l -> y <> x -> g y = f y) ->
  sumZ (map g l) = (sumZ (map f l) + (g x - f x))%Z.
Proof.
  induction 1 as [|a l Ha Hl IH]; [by inversion 1|].
  intros Hx Hg; cbn. destruct (decide (a = x)) as [->|Hne].
  - rewrite (sumZ_map_ext g f l); [lia|].
    intros y Hy. apply Hg; [set_solver|]. by intros ->.
  - rewrite IH by set_solver. rewrite (Hg a) by set_solver. lia.
Qed.

Lemma sumZ_map_remove {A} `{EqDecision A} (f : A -> Z) (x : A) l :
  NoDup l -> x ∈ l ->
  sumZ (map f (List.filter (fun y => negb (bool_decide (y = x))) l))
  = (sumZ (map f l) - f x)%Z.
Proof.
  induction 1 as [|a l Ha Hl IH]; [by inversion 1|].
  intros Hx; cbn. destruct (decide (a = x)) as [->|Hne].
  - rewrite bool_decide_eq_true_2 by done; cbn.
    enough (List.filter (fun y => negb (bool_decide (y = x))) l = l) as -> by lia.
    clear - Ha. induction l as [|b l IH]; cbn; [done|].
    rewrite bool_decide_eq_false_2 by set_solver. cbn. by rewrite IH by set_solver.
  - rewrite bool_decide_eq_false_2 by done; cbn. rewrite IH by set_solver. lia.
Qed.

Lemma elem_of_lfilter {A} (f : A -> bool) l x :
  x ∈ List.filter f l <-> x ∈ l /\ f x = true.
Proof. rewrite !list_elem_of_In. apply filter_In. Qed.

Lemma NoDup_lfilter {A} (f : A -> bool) (l : list A) : NoDup l -> NoDup (List.filter f l).
Proof.
  induction 1 as [|x l Hx Hl IH]; cbn; [constructor|].
  destruct (f x); [constructor|]; rewrite ?elem_of_lfilter; naive_solver.
Qed.

Lemma Forall_lfilter {A} (P : A -> Prop) (f : A -> bool) (l : list A) :
  Forall P l -> Forall P (List.filter f l).
Proof. rewrite !Forall_forall. intros H x [??]%elem_of_lfilter. auto. Qed.

Lemma length_lfilter_le {A} (f : A -> bool) (l : list A) :
  length (List.filter f l) <= length l.
Proof. induction l as [|x l IH]; cbn; [lia|]. destruct (f x); cbn; lia. Qed.

Lemma lfilter_app {A} (f : A -> bool) (l k : list A) :
  List.filter f (l ++ k) = List.filter f l ++ List.filter f k.
Proof. apply List.filter_app. Qed.

(** ** Sorting

    [Array.prototype.sort] is stable; [sortBy leb] is the stable sort that
    keeps [x] before [y] when [leb x y]. *)
Section SortBy.
Context {A : Type} (leb : A -> A -> bool).

Fixpoint insertBy (x : A) (l : list A) : list A :=
  match l with
  | [] => [x]
  | y :: l' => if leb x y then x :: l else y :: insertBy x l'
  end.

Fixpoint sortBy (l : list A) : list A :=
  match l with [] => [] | x :: l' => insertBy x (sortBy l') end.

Lemma insertBy_perm x l : insertBy x l ≡ₚ x :: l.
Proof.
  induction l as [|y l IH]; cbn; [done|]. destruct (leb x y); [done|]. rewrite IH. apply perm_swap.
Qed.

Lemma sortBy_perm l : sortBy l ≡ₚ l.
Proof. induction l as [|x l IH]; cbn; [done|]. by rewrite insertBy_perm, IH. Qed.

Lemma sortBy_id l : StronglySorted (fun a b => leb a b) l -> sortBy l = l.
Proof.
  induction 1 as [|x l Hl IH Hx]; cbn; [done|]. rewrite IH.
  destruct Hx as [|y l Hy]; cbn; [done|]. by destruct (leb x y).
Qed.

(** Without ties the sorted arrangement is unique. *)
Lemma sorted_unique l k :
  (forall x y, x ∈ l -> y ∈ l -> leb x y -> leb y x -> x = y) ->
  l ≡ₚ k -> StronglySorted (fun a b => leb a b) l -> StronglySorted (fun a b => leb a b) k -> l = k.
Proof.
  intros Hanti Hp Hl. revert k Hp. induction Hl as [|x l Hl IH Hx]; intros k Hp Hk.
  { by apply Permutation_nil_l in Hp. }
  destruct Hk as [|y k Hk Hy]; [by apply Permutation_nil_r in Hp|].
  assert (x = y) as ->.
  { assert (x ∈ y :: k) as H1 by (rewrite <- Hp; set_solver).
    assert (y ∈ x :: l) as H2 by (rewrite Hp; set_solver).
    apply elem_of_cons in H1 as [|H1]; [done|]. apply elem_of_cons in H2 as [|H2]; [done|].
    rewrite Forall_forall in Hx, Hy. apply Hanti; [set_solver..|by apply Hx|by apply Hy]. }
  f_equal. apply IH; [|by apply Permutation_cons_inv in Hp|done].
  intros a b Ha Hb. apply Hanti; set_solver.
Qed.
Hypothesis leb_total : forall x y, leb x y || leb y x.
Hypothesis leb_trans : forall x y z, leb x y -> leb y z -> leb x z.

Lemma insertBy_sorted x l :
  StronglySorted (fun a b => leb a b) l -> StronglySorted (fun a b => leb a b) (insertBy x l).
Proof.
  induction 1 as [|y l Hl IH Hy]; cbn; [by repeat constructor|].
  destruct (leb x y) eqn:Hxy.
  - constructor; [by constructor|]. constructor; [by rewrite Hxy|].
    eapply Forall_impl; [exact Hy|]. intros z Hz. eapply leb_trans; [|exact Hz]. by rewrite Hxy.
  - constructor; [done|]. rewrite insertBy_perm. constructor; [|done].
    specialize (leb_total x y). by rewrite Hxy in leb_total.
Qed.

Lemma sortBy_sorted l : StronglySorted (fun a b => leb a b) (sortBy l).
Proof. induction l as [|x l IH]; cbn; [constructor|]. by apply insertBy_sorted. Qed.

End SortBy.

Lemma insertBy_map {A B} (f : A -> B) (leb : A -> A -> bool) (leb' : B -> B -> bool) x l :
  (forall a b, leb' (f a) (f b) = leb a b) -> insertBy leb' (f x) (map f l) = map f (insertBy leb x l).
Proof. intros H. induction l as [|y l IH]; cbn; [done|]. rewrite H. destruct (leb x y); cbn; by rewrite ?IH. Qed.

Lemma sortBy_map {A B} (f : A -> B) (leb : A -> A -> bool) (leb' : B -> B -> bool) l :
  (forall a b, leb' (f a) (f b) = leb a b) -> sortBy leb' (map f l) = map f (sortBy leb l).
Proof. intros H. induction l as [|y l IH]; cbn; [done|]. by rewrite IH, (insertBy_map f leb). Qed.
