(* ===== verification/Unicode.v ===== *)
(** * Strings and their encodings

    JavaScript strings are lists of UTF-16 code units.  This file models what
    the packages use of the language on them: [codePointAt], the order of
    [Array.prototype.sort], [TextEncoder] and the fatal UTF-8 [TextDecoder],
    and the scalar order [compareCanonicalKeys] of
    [packages/mesh-identity/src/index.ts].  Bytes are numbers below 256. *)
From stdpp Require Import base numbers list sorting.
From Stdlib Require Import ZArith NArith Lia.
From S2P Require Import Prelude.
Local Open Scope N_scope.

(** ** Code points of a string *)
Definition isHigh (u : N) : bool := (0xD800 <=? u) && (u <=? 0xDBFF).
Definition isLow (u : N) : bool := (0xDC00 <=? u) && (u <=? 0xDFFF).
Definition isSurrogate (u : N) : bool := (0xD800 <=? u) && (u <=? 0xDFFF).
Definition pairPoint (u v : N) : N := (u - 0xD800) * 0x400 + (v - 0xDC00) + 0x10000.

Definition codePointAt (s : list N) (index : nat) : option N :=
  match s !! index with
  | None => None
  | Some u =>
      match s !! S index with
      | Some v => if isHigh u && isLow v then Some (pairPoint u v) else Some u
      | None => Some u
      end
  end.

(** The iteration of a string by code points. *)
Fixpoint codePoints (s : list N) : list N :=
  match s with
  | [] => []
  | u :: rest =>
      match rest with
      | v :: rest' =>
          if isHigh u && isLow v then pairPoint u v :: codePoints rest' else u :: codePoints rest
      | [] => [u]
      end
  end.

(** [String.fromCodePoint] *)
Definition fromPoint (c : N) : list N :=
  if c <? 0x10000 then [c]
  else [(c - 0x10000) / 0x400 + 0xD800; (c - 0x10000) mod 0x400 + 0xDC00].

(** Strings of code units, and those without lone surrogates. *)
Definition units (s : list N) : bool := forallb (fun u => u <? 0x10000) s.
Definition wellFormed (s : list N) : bool := forallb (fun c => negb (isSurrogate c)) (codePoints s).

Definition point (c : N) : bool := c <=? 0x10FFFF.
Definition scalar (c : N) : bool := point c && negb (isSurrogate c).

(** ** Order by UTF-16 code units: [<] on strings and the default [sort] *)
Fixpoint compareUnits (left right : list N) : comparison :=
  match left, right with
  | [], [] => Eq
  | [], _ => Lt
  | _, [] => Gt
  | u :: left', v :: right' =>
      match u ?= v with Eq => compareUnits left' right' | c => c end
  end.

Definition str_ltb (left right : list N) : bool :=
  match compareUnits left right with Lt => true | _ => false end.
Definition str_leb (left right : list N) : bool :=
  match compareUnits left right with Gt => false | _ => true end.

(** [String.prototype.startsWith] *)
Fixpoint startsWith (s prefix : list N) : bool :=
  match prefix, s with
  | [], _ => true
  | p :: prefix', c :: s' => (c =? p)%N && startsWith s' prefix'
  | _, [] => false
  end.

(** ** compareCanonicalKeys *)
Fixpoint compare_loop (fuel : nat) (left right : list N) (leftIndex rightIndex : nat) : Z :=
  match fuel with
  | O => 0
  | S fuel =>
      if (leftIndex <? length left)%nat && (rightIndex <? length right)%nat then
        let leftPoint := default 0 (codePointAt left leftIndex) in
        let rightPoint := default 0 (codePointAt right rightIndex) in
        if negb (leftPoint =? rightPoint) then (Z.of_N leftPoint - Z.of_N rightPoint)%Z
        else compare_loop fuel left right
               (leftIndex + (if 0xffff <? leftPoint then 2 else 1))
               (rightIndex + (if 0xffff <? rightPoint then 2 else 1))
      else ((if (leftIndex <? length left)%nat then 1 else 0) -
            (if (rightIndex <? length right)%nat then 1 else 0))%Z
  end.

(** Each round advances both indices, so the length of one string bounds the
    number of rounds ([compare_loop_points]). *)
Definition compareCanonicalKeys (left right : list N) : Z :=
  compare_loop (S (length left)) left right 0 0.

(** ** TextEncoder: UTF-8, with lone surrogates replaced *)
Definition utf8Point (c : N) : list N :=
  if c <? 0x80 then [c]
  else if c <? 0x800 then [0xC0 + c / 64; 0x80 + c mod 64]
  else if c <? 0x10000 then [0xE0 + c / 4096; 0x80 + (c / 64) mod 64; 0x80 + c mod 64]
  else [0xF0 + c / 262144; 0x80 + (c / 4096) mod 64; 0x80 + (c / 64) mod 64; 0x80 + c mod 64].

Definition replacement (c : N) : N := if isSurrogate c then 0xFFFD else c.

Definition encodePoints (points : list N) : list N := concat (map utf8Point points).

Definition TextEncoder_encode (s : list N) : list N :=
  encodePoints (map replacement (codePoints s)).

(** ** TextDecoder("utf-8", fatal) *)
Definition continuation (b : N) : bool := (0x80 <=? b) && (b <=? 0xBF).

Fixpoint decodePoints (bytes : list N) : option (list N) :=
  match bytes with
  | [] => Some []
  | b0 :: rest =>
      if b0 <? 0x80 then cons b0 <$> decodePoints rest
      else if (0xC2 <=? b0) && (b0 <=? 0xDF) then
        match rest with
        | b1 :: rest' =>
            if continuation b1
            then cons ((b0 - 0xC0) * 64 + (b1 - 0x80)) <$> decodePoints rest' else None
        | _ => None
        end
      else if (0xE0 <=? b0) && (b0 <=? 0xEF) then
        match rest with
        | b1 :: b2 :: rest' =>
            let c := (b0 - 0xE0) * 4096 + (b1 - 0x80) * 64 + (b2 - 0x80) in
            if continuation b1 && continuation b2 && (0x800 <=? c) && negb (isSurrogate c)
            then cons c <$> decodePoints rest' else None
        | _ => None
        end
      else if (0xF0 <=? b0) && (b0 <=? 0xF4) then
        match rest with
        | b1 :: b2 :: b3 :: rest' =>
            let c := (b0 - 0xF0) * 262144 + (b1 - 0x80) * 4096 + (b2 - 0x80) * 64 + (b3 - 0x80) in
            if continuation b1 && continuation b2 && continuation b3 &&
               (0x10000 <=? c) && (c <=? 0x10FFFF)
            then cons c <$> decodePoints rest' else None
        | _ => None
        end
      else None
  end.

(** A leading byte order mark is not part of the text. *)
Definition stripBom (points : list N) : list N :=
  match points with c :: rest => if c =? 0xFEFF then rest else points | [] => [] end.

Definition TextDecoder_decode (bytes : list N) : option (list N) :=
  points ← decodePoints bytes;
  Some (concat (map fromPoint (stripBom points))).

(** ** The loop compares code points *)

(** The reference order: lexicographic on code points. *)
Fixpoint comparePoints (left right : list N) : Z :=
  match left, right with
  | [], [] => 0
  | [], _ => -1
  | _, [] => 1
  | c :: left', d :: right' => if c =? d then comparePoints left' right' else Z.of_N c - Z.of_N d
  end.

Definition width (c : N) : nat := if 0xffff <? c then 2 else 1.

Lemma codePointAt_step s i :
  units s -> (i < length s)%nat ->
  exists c, codePointAt s i = Some c /\
    codePoints (drop i s) = c :: codePoints (drop (i + width c) s).
Proof.
  intros Hu Hi. destruct (lookup_lt_is_Some_2 s i Hi) as [u Hs].
  assert (u < 0x10000) as Hlt.
  { unfold units in Hu. rewrite Is_true_true, forallb_forall in Hu.
    apply N.ltb_lt, Hu, list_elem_of_In. by eapply list_elem_of_lookup_2. }
  unfold codePointAt. rewrite Hs. rewrite (drop_S s u i Hs).
  destruct (s !! S i) as [v|] eqn:Hv.
  - rewrite (drop_S s v (S i) Hv). cbn [codePoints].
    destruct (isHigh u && isLow v) eqn:Hp.
    + exists (pairPoint u v). split; [done|]. unfold width.
      assert ((0xffff <? pairPoint u v) = true) as -> by (apply N.ltb_lt; unfold pairPoint; lia).
      by replace (i + 2)%nat with (S (S i)) by lia.
    + exists u. split; [done|]. unfold width. assert ((0xffff <? u) = false) as -> by (apply N.ltb_ge; lia).
      replace (i + 1)%nat with (S i) by lia. by rewrite (drop_S s v (S i) Hv).
  - apply lookup_ge_None in Hv. rewrite (drop_ge s (S i)) by lia.
    exists u. split; [done|]. unfold width. assert ((0xffff <? u) = false) as -> by (apply N.ltb_ge; lia).
    by rewrite drop_ge by lia.
Qed.

Lemma compare_loop_points fuel left right i j :
  units left -> units right -> (length left - i < fuel)%nat ->
  compare_loop fuel left right i j
  = comparePoints (codePoints (drop i left)) (codePoints (drop j right)).
Proof.
  intros Hl Hr. revert i j. induction fuel as [|fuel IH]; intros i j Hf; [lia|].
  cbn [compare_loop].
  destruct (Nat.ltb_spec i (length left)) as [Hi|Hi], (Nat.ltb_spec j (length right)) as [Hj|Hj];
    cbn [andb].
  - destruct (codePointAt_step left i Hl Hi) as (c & -> & ->).
    destruct (codePointAt_step right j Hr Hj) as (d & -> & ->). cbn [from_option id comparePoints].
    destruct (N.eqb_spec c d) as [->|Hne]; cbn [negb]; [|done].
    unfold width. apply IH. destruct (_ <? d); lia.
  - destruct (codePointAt_step left i Hl Hi) as (c & _ & ->). by rewrite (drop_ge right) by lia.
  - destruct (codePointAt_step right j Hr Hj) as (c & _ & ->). by rewrite (drop_ge left) by lia.
  - by rewrite !drop_ge by lia.
Qed.

Lemma compareCanonicalKeys_points left right :
  units left -> units right ->
  compareCanonicalKeys left right = comparePoints (codePoints left) (codePoints right).
Proof. intros Hl Hr. apply (compare_loop_points _ left right 0 0); [done..|lia]. Qed.

(** ** UTF-8 preserves the order of scalar values *)
Lemma digits c :
  c / 4096 = c / 64 / 64 /\ c / 262144 = c / 64 / 64 / 64 /\
  c = 64 * (c / 64) + c mod 64 /\ c mod 64 < 64 /\
  c / 64 = 64 * (c / 64 / 64) + (c / 64) mod 64 /\ (c / 64) mod 64 < 64 /\
  c / 64 / 64 = 64 * (c / 64 / 64 / 64) + (c / 64 / 64) mod 64 /\ (c / 64 / 64) mod 64 < 64.
Proof.
  rewrite !N.Div0.div_div. split_and!; try done; try (apply N.mod_lt; lia);
    rewrite <- ?N.Div0.div_div; apply N.div_mod'.
Qed.

(** Names the base-64 digits of [c]. *)
Ltac name_digits c :=
  let H := fresh "Hd" in
  pose proof (digits c) as H;
  destruct H as (-> & -> & ? & ? & ? & ? & ? & ?);
  generalize dependent (c mod 64); intros;
  generalize dependent ((c / 64) mod 64); intros;
  generalize dependent ((c / 64 / 64) mod 64); intros;
  generalize dependent (c / 64 / 64 / 64); intros;
  generalize dependent (c / 64 / 64); intros;
  generalize dependent (c / 64); intros.

Lemma utf8Point_lt c d s t :
  point d -> c < d -> compareUnits (utf8Point c ++ s) (utf8Point d ++ t) = Lt.
Proof.
  unfold point. rewrite Is_true_true, N.leb_le. intros Hd Hlt. unfold utf8Point.
  name_digits c. name_digits d.
  destruct (N.ltb_spec c 0x80), (N.ltb_spec d 0x80); [|..];
  destruct (N.ltb_spec c 0x800), (N.ltb_spec d 0x800); try lia;
  destruct (N.ltb_spec c 0x10000), (N.ltb_spec d 0x10000); try lia;
  cbn [app compareUnits];
  repeat match goal with |- context [?x ?= ?y] => destruct (N.compare_spec x y) end; try done; lia.
Qed.

Lemma compareUnits_antisym a b : compareUnits b a = CompOpp (compareUnits a b).
Proof.
  revert b. induction a as [|x a IH]; intros [|y b]; cbn; try done.
  rewrite (N.compare_antisym x y). destruct (x ?= y); cbn; auto.
Qed.

Lemma compareUnits_app p a b : compareUnits (p ++ a) (p ++ b) = compareUnits a b.
Proof. induction p as [|x p IH]; cbn; [done|]. by rewrite N.compare_refl. Qed.

Lemma compareUnits_eq a b : compareUnits a b = Eq <-> a = b.
Proof.
  revert b. induction a as [|x a IH]; intros [|y b]; cbn; try done.
  destruct (N.compare_spec x y) as [->|H|H]; rewrite ?IH; split; intros E; try done; try congruence.
  all: injection E as -> _; lia.
Qed.

Lemma utf8Point_nonempty c : exists b l, utf8Point c = b :: l.
Proof. unfold utf8Point. repeat case_match; eauto. Qed.

Lemma encodePoints_compare a b :
  Forall point a -> Forall point b ->
  compareUnits (encodePoints a) (encodePoints b) = compareUnits a b.
Proof.
  intros Ha. revert b. induction Ha as [|c a Hc Ha IH]; intros b Hb.
  { destruct Hb as [|d b]; [done|]. unfold encodePoints; cbn.
    by destruct (utf8Point_nonempty d) as (x & l & ->). }
  destruct Hb as [|d b Hd Hb]; unfold encodePoints; cbn [map concat compareUnits].
  { by destruct (utf8Point_nonempty c) as (x & l & ->). }
  destruct (N.compare_spec c d) as [->|H|H].
  - rewrite compareUnits_app. by apply IH.
  - by apply utf8Point_lt.
  - rewrite compareUnits_antisym, utf8Point_lt; done.
Qed.

Lemma comparePoints_sign a b : (comparePoints a b ?= 0)%Z = compareUnits a b.
Proof.
  revert b. induction a as [|x a IH]; intros [|y b]; cbn; try done.
  destruct (N.eqb_spec x y) as [->|H]; [by rewrite N.compare_refl, IH|].
  destruct (N.compare_spec x y); [lia| |];
    [apply Z.compare_lt_iff|apply Z.compare_gt_iff]; lia.
Qed.

(** ** Code points of well-formed strings *)
Lemma codePoints_ind (P : list N -> Prop) :
  P [] ->
  (forall u v s, isHigh u && isLow v = true -> P s -> P (u :: v :: s)) ->
  (forall u s, codePoints (u :: s) = u :: codePoints s ->
    match s with v :: _ => isHigh u && isLow v = false | [] => True end -> P s -> P (u :: s)) ->
  forall s, P s.
Proof.
  intros H0 H2 H1 s. remember (length s) as n eqn:Hn. revert s Hn.
  induction n as [n IH] using (well_founded_induction lt_wf). intros s ->.
  destruct s as [|u [|v s]]; [done|apply H1; [done|done|done]|].
  destruct (isHigh u && isLow v) eqn:Hp.
  - apply H2; [done|]. apply (IH (length s)); cbn; [lia|done].
  - apply H1; [|done|apply (IH (length (v :: s))); cbn; [lia|done]].
    cbn. by rewrite Hp.
Qed.

Lemma units_cons u s : units (u :: s) <-> u < 0x10000 /\ units s.
Proof. unfold units. cbn. by rewrite andb_True, !Is_true_true, N.ltb_lt. Qed.

Lemma pair_bounds u v :
  isHigh u && isLow v = true ->
  0xD800 <= u <= 0xDBFF /\ 0xDC00 <= v <= 0xDFFF /\
  0x10000 <= pairPoint u v <= 0x10FFFF.
Proof.
  unfold isHigh, isLow, pairPoint. rewrite !andb_true_iff, !N.leb_le. intros [[??] [??]].
  split_and!; lia.
Qed.

Lemma codePoints_point s : units s -> Forall point (codePoints s).
Proof.
  induction s as [|u v s Hp IH|u s Heq Hm IH] using codePoints_ind; [done| |].
  - rewrite !units_cons. intros (_ & _ & Hs). cbn. rewrite Hp. constructor; [|by apply IH].
    apply pair_bounds in Hp. unfold point. rewrite Is_true_true, N.leb_le. lia.
  - rewrite units_cons. intros [Hu Hs]. rewrite Heq. constructor; [|by apply IH].
    unfold point. rewrite Is_true_true, N.leb_le. lia.
Qed.

Lemma fromPoint_pair u v :
  isHigh u && isLow v = true -> fromPoint (pairPoint u v) = [u; v].
Proof.
  intros Hp. apply pair_bounds in Hp as (Hu & Hv & Hb). unfold fromPoint.
  assert ((pairPoint u v <? 0x10000) = false) as -> by (apply N.ltb_ge; lia).
  unfold pairPoint. rewrite N.add_sub.
  rewrite N.div_add_l, N.div_small by lia.
  rewrite N.add_comm with (m := v - 0xDC00), N.Div0.mod_add, N.mod_small by lia.
  f_equal; [lia|]. f_equal. lia.
Qed.

(** Iterating a string by code points and putting them together gives it back. *)
Lemma fromPoint_codePoints s : units s -> concat (map fromPoint (codePoints s)) = s.
Proof.
  induction s as [|u v s Hp IH|u s Heq Hm IH] using codePoints_ind; [done| |].
  - rewrite !units_cons. intros (_ & _ & Hs). cbn. rewrite Hp. cbn.
    rewrite fromPoint_pair by done. cbn. by rewrite IH.
  - rewrite units_cons. intros [Hu Hs]. rewrite Heq. cbn. rewrite IH by done.
    unfold fromPoint. by assert ((u <? 0x10000) = true) as -> by by apply N.ltb_lt.
Qed.

Lemma codePoints_inj s t : units s -> units t -> codePoints s = codePoints t -> s = t.
Proof.
  intros Hs Ht H. rewrite <- (fromPoint_codePoints s Hs), <- (fromPoint_codePoints t Ht).
  by rewrite H.
Qed.

Lemma wellFormed_replacement s : wellFormed s -> map replacement (codePoints s) = codePoints s.
Proof.
  unfold wellFormed. rewrite Is_true_true, forallb_forall. intros H.
  rewrite <- (map_id (codePoints s)) at 2. apply map_ext_in. intros c Hc.
  apply H in Hc. unfold replacement. by destruct (isSurrogate c).
Qed.

(** ** Decoding *)
Ltac decide_ranges :=
  repeat match goal with
  | |- context [?a <? ?b] => destruct (N.ltb_spec a b); try lia
  | |- context [?a <=? ?b] => destruct (N.leb_spec a b); try lia
  end.

Lemma decodePoints_point c rest :
  scalar c -> decodePoints (utf8Point c ++ rest) = cons c <$> decodePoints rest.
Proof.
  unfold scalar, point. rewrite andb_True, !Is_true_true, N.leb_le, negb_true_iff. intros [Hc Hs].
  unfold utf8Point. name_digits c.
  destruct (N.ltb_spec c 0x80); [|destruct (N.ltb_spec c 0x800); [|destruct (N.ltb_spec c 0x10000)]];
    cbn [app decodePoints]; unfold continuation.
  - by decide_ranges.
  - decide_ranges. cbn [andb]. do 2 f_equal. lia.
  - match goal with |- context [negb (isSurrogate ?e)] => replace e with c by lia end.
    rewrite Hs. by decide_ranges.
  - match goal with |- context [0x10000 <=? ?e] => replace e with c by lia end.
    by decide_ranges.
Qed.

Lemma decodePoints_encode points :
  Forall scalar points -> decodePoints (encodePoints points) = Some points.
Proof.
  induction 1 as [|c l Hc Hl IH]; [done|]. unfold encodePoints in *. cbn [map concat].
  by rewrite decodePoints_point, IH.
Qed.

Lemma wellFormed_scalar s : units s -> wellFormed s -> Forall scalar (codePoints s).
Proof.
  intros Hu Hw. apply codePoints_point in Hu. unfold wellFormed in Hw.
  rewrite Is_true_true, forallb_forall in Hw. rewrite Forall_forall in *. intros c Hc.
  unfold scalar. apply andb_True. split; [by apply Hu|]. apply Is_true_true, Hw.
  by apply list_elem_of_In.
Qed.

(** Decoding what was encoded gives the text back, unless it starts with a
    byte order mark. *)
Lemma decode_encode s :
  units s -> wellFormed s -> head s <> Some 0xFEFF ->
  TextDecoder_decode (TextEncoder_encode s) = Some s.
Proof.
  intros Hu Hw Hh. unfold TextDecoder_decode, TextEncoder_encode.
  rewrite wellFormed_replacement by done.
  rewrite decodePoints_encode by by apply wellFormed_scalar. cbn.
  assert (stripBom (codePoints s) = codePoints s) as ->.
  { destruct s as [|u [|v s]]; [done|cbn..].
    - destruct (N.eqb_spec u 0xFEFF); naive_solver.
    - destruct (isHigh u && isLow v) eqn:Hp; cbn.
      + apply pair_bounds in Hp. by assert ((pairPoint u v =? 0xFEFF) = false) as -> by (apply N.eqb_neq; lia).
      + destruct (N.eqb_spec u 0xFEFF); naive_solver. }
  by rewrite fromPoint_codePoints.
Qed.

(** The encoding of well-formed texts is injective. *)
Lemma encode_inj s t :
  units s -> units t -> wellFormed s -> wellFormed t ->
  TextEncoder_encode s = TextEncoder_encode t -> s = t.
Proof.
  intros Hs Ht Hws Hwt. unfold TextEncoder_encode. rewrite !wellFormed_replacement by done.
  intros H. apply codePoints_inj; [done..|].
  apply (f_equal decodePoints) in H.
  rewrite !decodePoints_encode in H by by apply wellFormed_scalar. congruence.
Qed.

(** ** The order of strings *)
Lemma codePoints_length s : (length (codePoints s) <= length s)%nat.
Proof.
  induction s as [|u v s Hp IH|u s Heq Hm IH] using codePoints_ind; [done| |].
  - cbn [codePoints length]. rewrite Hp. cbn [length]. lia.
  - rewrite Heq. cbn [length]. lia.
Qed.

(** A code unit takes at most four bytes, and a printable one only bytes from 32 on. *)
Lemma TextEncoder_length s : (length (TextEncoder_encode s) <= 4 * length s)%nat.
Proof.
  unfold TextEncoder_encode, encodePoints. pose proof (codePoints_length s) as Hl.
  enough (forall points, length (concat (map utf8Point points)) <= 4 * length points)%nat as Hall.
  { specialize (Hall (map replacement (codePoints s))). rewrite length_map in Hall. lia. }
  induction points as [|c points IH]; [done|]. cbn [map concat length]. rewrite length_app.
  assert (length (utf8Point c) <= 4)%nat; [|lia]. unfold utf8Point. repeat case_match; cbn; lia.
Qed.

Lemma utf8Point_printable c : 32 <= c -> Forall (fun b => 32 <= b) (utf8Point c).
Proof. intros Hc. unfold utf8Point. repeat case_match; repeat (apply Forall_cons; split; [done || (etransitivity; [|apply N.le_add_r]; done)|]); by apply Forall_nil. Qed.

Lemma codePoints_printable s : Forall (fun u => 32 <= u) s -> Forall (fun c => 32 <= c) (codePoints s).
Proof.
  induction s as [|u v s Hp IH|u s Heq Hm IH] using codePoints_ind; [constructor| |].
  - intros [_ [_ Hs]%Forall_cons]%Forall_cons. cbn [codePoints]. rewrite Hp. constructor; [unfold pairPoint; lia|by apply IH].
  - intros [Hu Hs]%Forall_cons. rewrite Heq. constructor; [done|by apply IH].
Qed.

Lemma TextEncoder_printable s : Forall (fun u => 32 <= u) s -> Forall (fun b => 32 <= b) (TextEncoder_encode s).
Proof.
  intros Hs%codePoints_printable. unfold TextEncoder_encode, encodePoints.
  induction Hs as [|c points Hc _ IH]; cbn [map concat]; [constructor|]. apply Forall_app. split; [|done].
  apply utf8Point_printable. unfold replacement. case_match; lia.
Qed.

Lemma compareUnits_trans a b c :
  compareUnits a b <> Gt -> compareUnits b c <> Gt -> compareUnits a c <> Gt.
Proof.
  revert b c. induction a as [|x a IH]; intros [|y b] [|z c]; cbn; try done.
  destruct (N.compare_spec x y) as [->|H1|H1], (N.compare_spec y z) as [->|H2|H2]; try done.
  all: try apply IH.
  all: rewrite (proj2 (N.compare_lt_iff x z)) by lia; done.
Qed.

Lemma str_leb_total a b : str_leb a b || str_leb b a.
Proof. unfold str_leb. rewrite (compareUnits_antisym a b). by destruct (compareUnits a b). Qed.

Lemma str_leb_trans a b c : str_leb a b -> str_leb b c -> str_leb a c.
Proof.
  unfold str_leb. pose proof (compareUnits_trans a b c).
  destruct (compareUnits a b), (compareUnits b c), (compareUnits a c); naive_solver.
Qed.

Lemma str_leb_antisym a b : str_leb a b -> str_leb b a -> a = b.
Proof.
  unfold str_leb. rewrite (compareUnits_antisym a b). intros H1 H2. apply compareUnits_eq.
  by destruct (compareUnits a b).
Qed.

Lemma str_ltb_leb a b : str_ltb a b = negb (str_leb b a).
Proof. unfold str_ltb, str_leb. rewrite (compareUnits_antisym a b). by destruct (compareUnits a b). Qed.

Lemma str_ltb_irrefl a : str_ltb a a = false.
Proof. unfold str_ltb. by rewrite (proj2 (compareUnits_eq a a)). Qed.

Lemma startsWith_le k p : startsWith k p -> str_leb p k.
Proof.
  unfold str_leb. revert k. induction p as [|c p IH]; intros [|d k]; cbn [startsWith compareUnits]; try done.
  rewrite andb_True. intros [->%Is_true_true%N.eqb_eq Hp]. rewrite N.compare_refl. by apply IH.
Qed.

Lemma startsWith_self p : startsWith p p.
Proof. induction p as [|c p IH]; [done|]. cbn. by rewrite N.eqb_refl. Qed.

Lemma startsWith_between k f p : startsWith k p -> str_leb p f -> str_leb f k -> startsWith f p.
Proof.
  unfold str_leb. revert k f. induction p as [|c p IH]; intros [|d k] [|e f]; cbn [startsWith compareUnits]; try done.
  rewrite !andb_True. intros [->%Is_true_true%N.eqb_eq Hp].
  destruct (N.compare_spec c e) as [->|Hlt|Hlt]; [| |done].
  - rewrite N.compare_refl, N.eqb_refl. intros. split; [done|]. by eapply IH.
  - destruct (N.compare_spec e c); [lia|lia|done].
Qed.

Lemma str_ltb_trans a b c : str_ltb a b -> str_ltb b c -> str_ltb a c.
Proof.
  intros H1 H2. rewrite str_ltb_leb in *. apply negb_prop_intro. intros H3.
  apply negb_prop_elim in H1, H2. apply H2. pose proof (str_leb_total a b) as Ht.
  apply orb_prop_elim in Ht as [Ht|Ht]; [by eapply str_leb_trans|done].
Qed.

Lemma str_leb_refl a : str_leb a a.
Proof. unfold str_leb. by rewrite (proj2 (compareUnits_eq a a)). Qed.

Lemma str_ltb_le a b : str_ltb a b -> str_leb a b.
Proof. unfold str_ltb, str_leb. by destruct (compareUnits a b). Qed.

Lemma str_nlt_le a b : ~ str_ltb a b <-> str_leb b a.
Proof. rewrite str_ltb_leb. destruct (str_leb b a); naive_solver. Qed.

Lemma str_lt_not_le a b : str_ltb a b <-> ~ str_leb b a.
Proof. rewrite str_ltb_leb. destruct (str_leb b a); naive_solver. Qed.

Lemma str_leb_ltb_trans a b c : str_leb a b -> str_ltb b c -> str_ltb a c.
Proof. rewrite !str_lt_not_le. intros H1 H2 H3. apply H2. by eapply str_leb_trans. Qed.

Lemma str_ltb_leb_trans a b c : str_ltb a b -> str_leb b c -> str_ltb a c.
Proof. rewrite !str_lt_not_le. intros H1 H2 H3. apply H1. by eapply str_leb_trans. Qed.

(** ** Theorems *)

(** Canonical key order is the order of the UTF-8 bytes.  The signature
    code sorts object keys by Unicode scalar value so that it agrees with
    Rust, whose strings compare by their UTF-8 bytes: for strings without lone
    surrogates the sign of [compareCanonicalKeys] is the lexicographic
    comparison of the [TextEncoder] outputs. *)
Theorem canonical_order_is_utf8_order left right :
  units left -> units right -> wellFormed left -> wellFormed right ->
  (compareCanonicalKeys left right ?= 0)%Z
  = compareUnits (TextEncoder_encode left) (TextEncoder_encode right).
Proof.
  intros Hl Hr Wl Wr. rewrite compareCanonicalKeys_points, comparePoints_sign by done.
  unfold TextEncoder_encode. rewrite !wellFormed_replacement by done.
  by rewrite encodePoints_compare by by apply codePoints_point.
Qed.

(** U+E000 sorts before U+1F600 by scalar value and by UTF-8, and after it by
    UTF-16 code units. *)
Lemma canonical_order_is_utf8_order_witness :
  (compareCanonicalKeys [0xE000%N] [0xD83D%N; 0xDE00%N] ?= 0)%Z = Lt /\
  compareUnits [0xE000] [0xD83D; 0xDE00] = Gt.
Proof.
  split; [|reflexivity]. rewrite canonical_order_is_utf8_order by done. reflexivity.
Defined.
