(* ===== verification/Json.v ===== *)
(** * JSON: values, printing, parsing and the canonical form

    Models [canonicalizeJson], [canonicalizeSignatureJson], [captureJsonValue]
    and [signatureInput] of [packages/mesh-identity/src/index.ts], over a model
    of [JSON.stringify] on primitives and of [JSON.parse].

    Numbers are the integers JavaScript represents exactly, and the non-finite
    ones; other finite doubles are not modelled, and [JSON_parse] refuses a
    number token outside the modelled range.  Objects are lists of members in
    insertion order. *)
From stdpp Require Import base numbers list sorting strings sets.
From Stdlib Require Import ZArith NArith Lia.
From S2P Require Import Prelude Unicode.
Local Open Scope N_scope.

Inductive number := Int (z : Z) | NaN | Infinity (negative : bool).

Inductive value :=
| Null
| Undefined
| Bool (b : bool)
| Num (n : number)
| Str (s : list N)
| Arr (items : list value)
| Obj (members : list (list N * value)).

(** ** JSON.stringify of strings and numbers *)
Definition hexDigit (n : N) : N := if n <? 10 then 48 + n else 87 + n.
Definition escapeUnit (u : N) : list N :=
  [92; 117; hexDigit (u / 4096 mod 16); hexDigit (u / 256 mod 16); hexDigit (u / 16 mod 16);
   hexDigit (u mod 16)].

(** The escape of a code unit that is not printed as itself, outside pairs. *)
Definition escapeOf (u : N) : option (list N) :=
  if u =? 34 then Some [92; 34]
  else if u =? 92 then Some [92; 92]
  else if u =? 8 then Some [92; 98]
  else if u =? 9 then Some [92; 116]
  else if u =? 10 then Some [92; 110]
  else if u =? 12 then Some [92; 102]
  else if u =? 13 then Some [92; 114]
  else if u <? 32 then Some (escapeUnit u)
  else if isSurrogate u then Some (escapeUnit u)
  else None.

Fixpoint quoteBody (s : list N) : list N :=
  match s with
  | [] => []
  | u :: rest =>
      match rest with
      | v :: rest' =>
          if isHigh u && isLow v then u :: v :: quoteBody rest'
          else default [u] (escapeOf u) ++ quoteBody rest
      | [] => default [u] (escapeOf u)
      end
  end.

Definition quote (s : list N) : list N := [34] ++ quoteBody s ++ [34].

(** Decimal digits; a number below [2 ^ fuel] has at most [fuel] of them. *)
Fixpoint decimal (fuel : nat) (n : N) : list N :=
  match fuel with
  | O => []
  | S fuel => if n <? 10 then [48 + n] else decimal fuel (n / 10) ++ [48 + n mod 10]
  end.

Definition natText (n : N) : list N := decimal (S (N.to_nat (N.log2 n))) n.
Definition intText (z : Z) : list N :=
  if (z <? 0)%Z then 45 :: natText (Z.to_N (- z)) else natText (Z.to_N z).

(** ** canonicalizeJsonWithOrder *)
Section MapR.
Context {A B : Type} (f : A -> result B).
Fixpoint mapR (l : list A) : result (list B) :=
  match l with
  | [] => Ok []
  | x :: l' => match f x with
               | Throw e => Throw e
               | Ok y => match mapR l' with Throw e => Throw e | Ok ys => Ok (y :: ys) end
               end
  end.
End MapR.

(** [texts.join(",")]; an undefined element joins as the empty string. *)
Fixpoint joinTexts (sep : N) (texts : list (list N)) : list N :=
  match texts with
  | [] => []
  | t :: rest => match rest with [] => t | _ => t ++ sep :: joinTexts sep rest end
  end.

Section Canonical.
(** [leb a b]: the sort keeps [a] before [b]. *)
Variable leb : list N -> list N -> bool.

Fixpoint canonicalizeJsonWithOrder (v : value) : result (option (list N)) :=
  match v with
  | Null => Ok (Some (js "null"))
  | Undefined => Ok None
  | Bool b => Ok (Some (if b then js "true" else js "false"))
  | Num (NaN | Infinity _) => Throw "Non-finite number cannot be canonicalized"
  | Num (Int z) => Ok (Some (intText z))
  | Str s => Ok (Some (quote s))
  | Arr items =>
      match mapR canonicalizeJsonWithOrder items with
      | Throw e => Throw e
      | Ok texts => Ok (Some ([91] ++ joinTexts 44 (map (default []) texts) ++ [93]))
      end
  | Obj members =>
      match mapR (fun '(key, item) =>
                    match canonicalizeJsonWithOrder item with
                    | Throw e => Throw e | Ok text => Ok (key, text) end) members with
      | Throw e => Throw e
      | Ok texts =>
          Ok (Some ([123] ++
            joinTexts 44 (map (fun '(key, text) => quote key ++ [58] ++ default (js "undefined") text)
                            (sortBy (fun a b => leb a.1 b.1) texts))
            ++ [125]))
      end
  end.
End Canonical.

Definition canonicalizeJson : value -> result (option (list N)) := canonicalizeJsonWithOrder str_leb.

Definition canonicalizeSignatureJson : value -> result (option (list N)) :=
  canonicalizeJsonWithOrder (fun a b => (compareCanonicalKeys a b <=? 0)%Z).

(** ** JSON.stringify: members in their order, [undefined] members dropped *)
Fixpoint JSON_stringify (v : value) : option (list N) :=
  match v with
  | Undefined => None
  | Null | Num (NaN | Infinity _) => Some (js "null")
  | Bool b => Some (if b then js "true" else js "false")
  | Num (Int z) => Some (intText z)
  | Str s => Some (quote s)
  | Arr items =>
      Some ([91] ++ joinTexts 44 (map (fun item => default (js "null") (JSON_stringify item)) items) ++ [93])
  | Obj members =>
      Some ([123] ++
        joinTexts 44 (concat (map (fun '(key, item) =>
          match JSON_stringify item with Some text => [quote key ++ [58] ++ text] | None => [] end) members))
        ++ [125])
  end.

(** ** captureJsonValue, on values made of plain data *)
Fixpoint captureJsonValue (v : value) : result value :=
  match v with
  | Null | Str _ | Bool _ => Ok v
  | Num (NaN | Infinity _) => Throw "Non-finite number cannot be signed"
  | Num (Int _) => Ok v
  | Undefined => Throw "Envelope payload must contain only JSON values"
  | Arr items =>
      match mapR (fun item => match item with
                  | Undefined => Throw "Undefined array entries cannot be signed"
                  | _ => captureJsonValue item end) items with
      | Throw e => Throw e
      | Ok output => Ok (Arr output)
      end
  | Obj members =>
      match mapR (fun '(key, item) =>
                    match item with
                    | Undefined => Ok None
                    | _ => match captureJsonValue item with
                           | Throw e => Throw e | Ok c => Ok (Some (key, c)) end
                    end) members with
      | Throw e => Throw e
      | Ok output => Ok (Obj (omap id output))
      end
  end.

(** [object[key]] *)
Fixpoint member (key : list N) (members : list (list N * value)) : value :=
  match members with
  | [] => Undefined
  | (k, v) :: rest => if bool_decide (k = key) then v else member key rest
  end.

Definition captureEnvelopePayload (payload : value) : result value :=
  captured ← captureJsonValue payload;
  match captured with
  | Obj members =>
      match member (js "kind") members with
      | Str _ => Ok captured
      | _ => Throw "Envelope payload kind must be a string"
      end
  | _ => Throw "Envelope payload kind must be a string"
  end.

(** ** signatureInput *)
Definition signatureInput (payloadKind canonicalPayload domain : list N) : list N :=
  TextEncoder_encode (domain ++ js "/" ++ payloadKind ++ [0]) ++ TextEncoder_encode canonicalPayload.

(** ** JSON.parse *)
Definition whitespace (u : N) : bool := (u =? 32) || (u =? 9) || (u =? 10) || (u =? 13).

Fixpoint skipWhitespace (s : list N) : list N :=
  match s with
  | u :: rest => if whitespace u then skipWhitespace rest else s
  | [] => []
  end.

Definition hexValue (u : N) : option N :=
  if (48 <=? u) && (u <=? 57) then Some (u - 48)
  else if (97 <=? u) && (u <=? 102) then Some (u - 87)
  else if (65 <=? u) && (u <=? 70) then Some (u - 55)
  else None.

Definition simpleEscape (u : N) : option N :=
  if u =? 34 then Some 34 else if u =? 92 then Some 92 else if u =? 47 then Some 47
  else if u =? 98 then Some 8 else if u =? 102 then Some 12 else if u =? 110 then Some 10
  else if u =? 114 then Some 13 else if u =? 116 then Some 9 else None.

(** The text after the opening quote: the string and the text after the
    closing one. *)
Fixpoint parseString (s : list N) : option (list N * list N) :=
  match s with
  | [] => None
  | u :: rest =>
      if u =? 34 then Some ([], rest)
      else if u =? 92 then
        match rest with
        | e :: rest1 =>
            if e =? 117 then
              match rest1 with
              | a :: b :: c :: d :: rest2 =>
                  match hexValue a, hexValue b, hexValue c, hexValue d with
                  | Some a', Some b', Some c', Some d' =>
                      match parseString rest2 with
                      | Some (str, tail) => Some (a' * 4096 + b' * 256 + c' * 16 + d' :: str, tail)
                      | None => None
                      end
                  | _, _, _, _ => None
                  end
              | _ => None
              end
            else
              match simpleEscape e, parseString rest1 with
              | Some x, Some (str, tail) => Some (x :: str, tail)
              | _, _ => None
              end
        | [] => None
        end
      else if u <? 32 then None
      else match parseString rest with
           | Some (str, tail) => Some (u :: str, tail)
           | None => None
           end
  end.

Definition isDigit (u : N) : bool := (48 <=? u) && (u <=? 57).

(** The longest prefix of digits. *)
Fixpoint takeDigits (s : list N) : list N * list N :=
  match s with
  | u :: rest => if isDigit u then let '(ds, tail) := takeDigits rest in (u :: ds, tail) else ([], s)
  | [] => ([], [])
  end.

Definition digitsValue (ds : list N) : N := fold_left (fun acc u => acc * 10 + (u - 48)) ds 0.

(** A number token: no leading zeros, no fraction or exponent, exactly
    representable. *)
Definition parseNumber (s : list N) : option (Z * list N) :=
  let '(negative, s1) := match s with u :: rest => if u =? 45 then (true, rest) else (false, s) | [] => (false, s) end in
  let '(ds, tail) := takeDigits s1 in
  let plain := match tail with u :: _ => negb ((u =? 46) || (u =? 101) || (u =? 69)) | [] => true end in
  let leading := match ds with [] => false | d :: _ :: _ => negb (d =? 48) | [_] => true end in
  let z := Z.of_N (digitsValue ds) in
  if plain && leading && (z <=? MAX_SAFE_INTEGER)%Z
  then Some (if negative then (- z)%Z else z, tail) else None.

Fixpoint stripPrefix (p s : list N) : option (list N) :=
  match p, s with
  | [], _ => Some s
  | x :: p', y :: s' => if x =? y then stripPrefix p' s' else None
  | _, [] => None
  end.

(** Assignment of a property: a repeated key keeps its place and takes the new
    value. *)
Fixpoint setMember (key : list N) (v : value) (members : list (list N * value)) : list (list N * value) :=
  match members with
  | [] => [(key, v)]
  | (k, w) :: rest => if bool_decide (k = key) then (k, v) :: rest else (k, w) :: setMember key v rest
  end.

Fixpoint parseValue (fuel : nat) (s : list N) : option (value * list N) :=
  match fuel with
  | O => None
  | S fuel =>
      let s := skipWhitespace s in
      match s with
      | [] => None
      | u :: rest =>
          if u =? 34 then
            match parseString rest with Some (str, tail) => Some (Str str, tail) | None => None end
          else if u =? 91 then
            match skipWhitespace rest with
            | v :: tail => if v =? 93 then Some (Arr [], tail) else parseItems fuel [] rest
            | [] => None
            end
          else if u =? 123 then
            match skipWhitespace rest with
            | v :: tail => if v =? 125 then Some (Obj [], tail) else parseMembers fuel [] rest
            | [] => None
            end
          else if u =? 110 then
            match stripPrefix (js "ull") rest with Some tail => Some (Null, tail) | None => None end
          else if u =? 116 then
            match stripPrefix (js "rue") rest with Some tail => Some (Bool true, tail) | None => None end
          else if u =? 102 then
            match stripPrefix (js "alse") rest with Some tail => Some (Bool false, tail) | None => None end
          else match parseNumber s with Some (z, tail) => Some (Num (Int z), tail) | None => None end
      end
  end
with parseItems (fuel : nat) (done : list value) (s : list N) : option (value * list N) :=
  match fuel with
  | O => None
  | S fuel =>
      match parseValue fuel s with
      | None => None
      | Some (item, tail) =>
          match skipWhitespace tail with
          | u :: rest =>
              if u =? 44 then parseItems fuel (done ++ [item]) rest
              else if u =? 93 then Some (Arr (done ++ [item]), rest)
              else None
          | [] => None
          end
      end
  end
with parseMembers (fuel : nat) (done : list (list N * value)) (s : list N) : option (value * list N) :=
  match fuel with
  | O => None
  | S fuel =>
      match skipWhitespace s with
      | q :: rest =>
          if negb (q =? 34) then None else
          match parseString rest with
          | None => None
          | Some (key, tail) =>
              match skipWhitespace tail with
              | c :: rest1 =>
                  if negb (c =? 58) then None else
                  match parseValue fuel rest1 with
                  | None => None
                  | Some (item, tail1) =>
                      match skipWhitespace tail1 with
                      | u :: rest2 =>
                          if u =? 44 then parseMembers fuel (setMember key item done) rest2
                          else if u =? 125 then Some (Obj (setMember key item done), rest2)
                          else None
                      | [] => None
                      end
                  end
              | [] => None
              end
          end
      | [] => None
      end
  end.

Definition JSON_parse (s : list N) : option value :=
  match parseValue (2 * length s + 2) s with
  | Some (v, tail) => match skipWhitespace tail with [] => Some v | _ => None end
  | None => None
  end.

(** ** Strings are printed so that they parse back *)
Lemma hexValue_digit n : n < 16 -> hexValue (hexDigit n) = Some n.
Proof.
  intros Hn. unfold hexValue, hexDigit. destruct (N.ltb_spec n 10).
  - decide_ranges. cbn [andb]. f_equal. lia.
  - decide_ranges; cbn [andb]; f_equal; lia.
Qed.

Lemma hex_digits u :
  u < 0x10000 ->
  u / 4096 mod 16 * 4096 + u / 256 mod 16 * 256 + u / 16 mod 16 * 16 + u mod 16 = u.
Proof.
  intros Hu.
  assert (u / 256 = u / 16 / 16) as -> by by rewrite N.Div0.div_div.
  assert (u / 4096 = u / 16 / 16 / 16) as -> by by rewrite !N.Div0.div_div.
  pose proof (N.div_mod' u 16). pose proof (N.div_mod' (u / 16) 16).
  pose proof (N.div_mod' (u / 16 / 16) 16).
  rewrite (N.mod_small (u / 16 / 16 / 16)) by (rewrite !N.Div0.div_div; apply N.Div0.div_lt_upper_bound; lia).
  lia.
Qed.

Lemma parseString_escapeUnit u rest str tail :
  u < 0x10000 -> parseString rest = Some (str, tail) ->
  parseString (escapeUnit u ++ rest) = Some (u :: str, tail).
Proof.
  intros Hu Hr. unfold escapeUnit. cbn [app parseString N.eqb Pos.eqb].
  rewrite !hexValue_digit by (apply N.mod_lt; lia). rewrite Hr, hex_digits by done. done.
Qed.

(** One code unit outside a surrogate pair. *)
Lemma parseString_unit u rest str tail :
  u < 0x10000 -> parseString rest = Some (str, tail) ->
  parseString (default [u] (escapeOf u) ++ rest) = Some (u :: str, tail).
Proof.
  intros Hu Hr. unfold escapeOf.
  repeat match goal with
  | |- context [u =? ?c] => destruct (N.eqb_spec u c) as [->|?]; [cbn; by rewrite Hr|]
  end.
  destruct (N.ltb_spec u 32); [by apply parseString_escapeUnit|].
  destruct (isSurrogate u); [by apply parseString_escapeUnit|].
  cbn [default from_option id app parseString].
  assert ((u =? 34) = false) as -> by by apply N.eqb_neq.
  assert ((u =? 92) = false) as -> by by apply N.eqb_neq.
  assert ((u <? 32) = false) as -> by by apply N.ltb_ge.
  by rewrite Hr.
Qed.

Lemma quoteBody_unit u s :
  match s with v :: _ => isHigh u && isLow v = false | [] => True end ->
  quoteBody (u :: s) = default [u] (escapeOf u) ++ quoteBody s.
Proof. destruct s; cbn; [by rewrite app_nil_r|]. by intros ->. Qed.

Lemma parseString_quoteBody s rest :
  units s -> parseString (quoteBody s ++ 34 :: rest) = Some (s, rest).
Proof.
  induction s as [|u v s Hp IH|u s Heq Hm IH] using codePoints_ind; [done| |].
  - rewrite !units_cons. intros (_ & _ & Hs). cbn. rewrite Hp.
    apply pair_bounds in Hp as (Hu & Hv & _). cbn.
    assert ((u =? 34) = false) as -> by (apply N.eqb_neq; lia).
    assert ((u =? 92) = false) as -> by (apply N.eqb_neq; lia).
    assert ((u <? 32) = false) as -> by (apply N.ltb_ge; lia).
    assert ((v =? 34) = false) as -> by (apply N.eqb_neq; lia).
    assert ((v =? 92) = false) as -> by (apply N.eqb_neq; lia).
    assert ((v <? 32) = false) as -> by (apply N.ltb_ge; lia).
    by rewrite IH.
  - rewrite units_cons. intros [Hu Hs]. rewrite quoteBody_unit by done. rewrite <- app_assoc.
    apply parseString_unit; [done|]. by apply IH.
Qed.

(** ** Numbers *)
Lemma decimal_spec fuel n :
  n < 2 ^ N.of_nat fuel -> (0 < fuel)%nat ->
  Forall (fun u => isDigit u = true) (decimal fuel n) /\
  digitsValue (decimal fuel n) = n /\
  exists d ds, decimal fuel n = d :: ds /\ (d = 48 -> ds = []).
Proof.
  revert n. induction fuel as [|fuel IH]; intros n Hn Hf; [lia|]. cbn [decimal].
  destruct (N.ltb_spec n 10) as [Hlt|Hge].
  - unfold isDigit, digitsValue. cbn [fold_left]. split_and!.
    + constructor; [|done]. by decide_ranges.
    + lia.
    + eauto.
  - rewrite Nat2N.inj_succ, N.pow_succ_r' in Hn.
    destruct fuel as [|fuel]; [cbn in Hn; lia|].
    destruct (IH (n / 10)) as (H1 & H2 & d & ds & H3 & H4);
      [apply N.Div0.div_lt_upper_bound; lia|lia|].
    pose proof (N.mod_lt n 10 ltac:(lia)) as Hm. split_and!.
    + apply Forall_app. split; [done|]. constructor; [|done]. unfold isDigit. generalize dependent (n mod 10). intros. by decide_ranges.
    + unfold digitsValue in *. rewrite fold_left_app. cbn [fold_left]. rewrite H2.
      pose proof (N.div_mod' n 10) as Hdm. revert Hdm Hm Hge. clear.
      generalize (n / 10) (n mod 10). intros. lia.
    + rewrite H3. eexists d, _. split; [done|]. intros ->.
      rewrite H3, (H4 eq_refl) in H2. unfold digitsValue in H2. cbn in H2.
      pose proof (N.div_mod' n 10) as Hdm. rewrite <- H2 in Hdm. revert Hdm Hm Hge. clear.
      generalize (n mod 10). intros. lia.
Qed.

Lemma natText_spec n :
  Forall (fun u => isDigit u = true) (natText n) /\ digitsValue (natText n) = n /\
  exists d ds, natText n = d :: ds /\ (d = 48 -> ds = []).
Proof.
  apply decimal_spec; [|lia]. rewrite Nat2N.inj_succ, N2Nat.id.
  destruct (N.eq_dec n 0) as [->|Hn]; [done|]. apply N.log2_spec. lia.
Qed.

Lemma takeDigits_app ds rest :
  Forall (fun u => isDigit u = true) ds ->
  match rest with u :: _ => isDigit u = false | [] => True end ->
  takeDigits (ds ++ rest) = (ds, rest).
Proof.
  intros H Hr. induction H as [|u ds Hu _ IH]; cbn.
  - destruct rest as [|u rest]; cbn; [done|]. by rewrite Hr.
  - by rewrite Hu, IH.
Qed.

(** What may follow a value inside a JSON text. *)
Definition delimited (rest : list N) : Prop :=
  match rest with u :: _ => u = 44 \/ u = 93 \/ u = 125 | [] => True end.

Lemma parseNumber_intText z rest :
  (- MAX_SAFE_INTEGER <= z <= MAX_SAFE_INTEGER)%Z -> delimited rest ->
  parseNumber (intText z ++ rest) = Some (z, rest).
Proof.
  intros Hz Hr.
  assert (forall neg n, (Z.of_N n <= MAX_SAFE_INTEGER)%Z ->
    parseNumber ((if neg : bool then [45] else []) ++ natText n ++ rest)
    = Some (if neg then (- Z.of_N n)%Z else Z.of_N n, rest)) as Hnat.
  { intros neg n Hn. destruct (natText_spec n) as (H1 & H2 & d & ds & H3 & H4).
    assert (takeDigits (natText n ++ rest) = (natText n, rest)) as Ht.
    { apply takeDigits_app; [done|]. destruct rest as [|u rest]; [done|].
      destruct Hr as [-> | [-> | ->]]; done. }
    assert (match rest with u :: _ => negb ((u =? 46) || (u =? 101) || (u =? 69)) | [] => true end = true)
      as Hp by (destruct rest as [|u rest]; [done|]; by destruct Hr as [-> | [-> | ->]]).
    assert (match natText n with [] => false | d :: _ :: _ => negb (d =? 48) | [_] => true end = true) as Hl.
    { rewrite H3. destruct ds; [done|]. destruct (N.eqb_spec d 48) as [->|]; [by discriminate H4|done]. }
    assert ((Z.of_N (digitsValue (natText n)) <=? MAX_SAFE_INTEGER)%Z = true) as Hm by (rewrite H2; lia).
    unfold parseNumber. destruct neg; cbn [app].
    - change (45 =? 45) with true. cbv iota. rewrite Ht, Hp, Hl, Hm, H2. done.
    - assert (match natText n ++ rest with
        | u :: r => if u =? 45 then (true, r) else (false, natText n ++ rest)
        | [] => (false, natText n ++ rest) end = (false, natText n ++ rest)) as ->.
      { rewrite H3. cbn [app]. destruct (N.eqb_spec d 45) as [->|]; [|done].
        rewrite H3 in H1. by apply Forall_cons in H1 as [? _]. }
      rewrite Ht, Hp, Hl, Hm, H2. done. }
  unfold intText. destruct (Z.ltb_spec z 0).
  - change ((45 :: natText (Z.to_N (- z))) ++ rest) with ((if true then [45] else []) ++ natText (Z.to_N (- z)) ++ rest).
    rewrite (Hnat true), Z2N.id by lia. do 2 f_equal. lia.
  - pose proof (Hnat false (Z.to_N z) ltac:(lia)) as H0. cbn [app] in H0.
    by rewrite H0, Z2N.id by lia.
Qed.

(** ** Values *)
Section ValueInd.
Variable P : value -> Prop.
Hypothesis Hatom : forall v, match v with Arr _ | Obj _ => False | _ => True end -> P v.
Hypothesis Harr : forall items, Forall P items -> P (Arr items).
Hypothesis Hobj : forall members, Forall (fun kv => P kv.2) members -> P (Obj members).

Fixpoint value_ind' (v : value) : P v :=
  match v with
  | Null => Hatom Null I | Undefined => Hatom Undefined I | Bool b => Hatom (Bool b) I
  | Num n => Hatom (Num n) I | Str s => Hatom (Str s) I
  | Arr items => Harr items
      ((fix go (l : list value) : Forall P l :=
          match l with [] => Forall_nil_2 _ | x :: l' => Forall_cons_2 _ x l' (value_ind' x) (go l') end) items)
  | Obj members => Hobj members
      ((fix go (l : list (list N * value)) : Forall (fun kv => P kv.2) l :=
          match l with
          | [] => Forall_nil_2 _
          | kv :: l' => Forall_cons_2 _ kv l' (value_ind' kv.2) (go l')
          end) members)
  end.
End ValueInd.

(** JSON data: no [undefined], exact integers, strings of code units, and no
    repeated keys. *)
Fixpoint plain (v : value) : bool :=
  match v with
  | Null | Bool _ => true
  | Undefined | Num (NaN | Infinity _) => false
  | Num (Int z) => isSafeInteger z
  | Str s => units s
  | Arr items => forallb plain items
  | Obj members =>
      forallb (fun '(key, item) => units key && plain item) members &&
      bool_decide (NoDup (map fst members))
  end.

(** The value with the members of every object sorted. *)
Section Normal.
Variable leb : list N -> list N -> bool.
Fixpoint normal (v : value) : value :=
  match v with
  | Arr items => Arr (map normal items)
  | Obj members =>
      Obj (sortBy (fun a b => leb a.1 b.1) (map (fun '(key, item) => (key, normal item)) members))
  | _ => v
  end.

Lemma mapR_ok {A B} (f : A -> result B) l k :
  mapR f l = Ok k <-> Forall2 (fun x y => f x = Ok y) l k.
Proof.
  revert k. induction l as [|x l IH]; intros k; cbn.
  - split; [intros [= <-]; constructor|]. by inversion 1.
  - destruct (f x) as [y|e] eqn:Hx.
    + destruct (mapR f l) as [ys|e] eqn:Hl.
      * split; [intros [= <-]; constructor; [done|by apply IH]|].
        inversion 1 as [|? y' ? ys' ? Hys]; subst. apply IH in Hys. congruence.
      * split; [done|]. inversion 1 as [|? y' ? ys' ? Hys]; subst. apply IH in Hys. congruence.
    + split; [done|]. inversion 1; subst. congruence.
Qed.

(** [t] prints [v]: after any delimiter it parses back to [v], with fuel that
    the length of the text bounds. *)
Definition prints (t : list N) (v : value) : Prop :=
  (exists u t', t = u :: t' /\ negb (whitespace u) && negb (u =? 93) && negb (u =? 125) = true) /\
  forall fuel rest, (2 * length t + 1 <= fuel)%nat -> delimited rest ->
    parseValue fuel (t ++ rest) = Some (v, rest).

Lemma prints_items texts vs fuel acc rest :
  Forall2 prints texts vs -> texts <> [] ->
  (2 * length (joinTexts 44 texts) + 2 <= fuel)%nat ->
  parseItems fuel acc (joinTexts 44 texts ++ 93 :: rest) = Some (Arr (acc ++ vs), rest).
Proof.
  intros H. revert fuel acc. induction H as [|t v texts vs [Hhd Ht] Hts IH]; intros fuel acc Hne Hf; [done|].
  destruct fuel as [|fuel]; [lia|]. cbn [parseItems].
  destruct texts as [|t2 texts].
  - inversion Hts; subst. cbn [joinTexts] in *. rewrite Ht; [done|lia|cbn; tauto].
  - assert (joinTexts 44 (t :: t2 :: texts) = t ++ 44 :: joinTexts 44 (t2 :: texts)) as Hj by done.
    rewrite Hj in *. rewrite length_app in Hf. cbn [length] in Hf.
    rewrite <- app_assoc, Ht; [|lia|cbn; tauto]. cbn [app skipWhitespace whitespace].
    change (whitespace 44) with false. cbv iota. change (44 =? 44) with true. cbv iota.
    rewrite IH by (done || lia). by rewrite <- app_assoc.
Qed.

Lemma setMember_fresh key v (members : list (list N * value)) :
  key ∉ map fst members -> setMember key v members = members ++ [(key, v)].
Proof.
  induction members as [|[k w] members IH]; cbn; [done|]. intros Hn.
  rewrite bool_decide_eq_false_2 by set_solver. rewrite IH by set_solver. done.
Qed.

Lemma parseString_quote key rest :
  units key -> exists body, quote key ++ rest = 34 :: body /\ parseString body = Some (key, rest).
Proof.
  intros Hk. exists (quoteBody key ++ 34 :: rest). split; [|by apply parseString_quoteBody].
  unfold quote. cbn [app]. by rewrite <- app_assoc.
Qed.

Definition memberText (kt : list N * list N) : list N := quote kt.1 ++ [58] ++ kt.2.

Lemma parse_member fuel acc k t v u rest :
  units k -> prints t v -> (2 * length t + 1 <= fuel)%nat -> u = 44 \/ u = 125 ->
  parseMembers (S fuel) acc (memberText (k, t) ++ u :: rest)
  = if u =? 44 then parseMembers fuel (setMember k v acc) rest
    else Some (Obj (setMember k v acc), rest).
Proof.
  intros Hk [_ Ht] Hf Hu. unfold memberText; cbn [fst snd]. rewrite <- !app_assoc.
  destruct (parseString_quote k ([58] ++ t ++ u :: rest) Hk) as (body & Hb & Hp).
  rewrite Hb. cbn [parseMembers skipWhitespace]. change (whitespace 34) with false. cbv iota.
  change (negb (34 =? 34)) with false. cbv iota. rewrite Hp.
  cbn [app skipWhitespace]. change (whitespace 58) with false. cbv iota.
  change (negb (58 =? 58)) with false. cbv iota. rewrite Ht; [|lia|cbn; tauto].
  cbn [skipWhitespace]. by destruct Hu as [-> | ->].
Qed.

Lemma prints_members (kvs : list (list N * value)) (text : value -> list N) (value_of : value -> value)
    fuel acc rest :
  let texts := map (fun kv => memberText (kv.1, text kv.2)) kvs in
  Forall (fun kv => units kv.1 /\ prints (text kv.2) (value_of kv.2)) kvs ->
  NoDup (map fst acc ++ map fst kvs) -> kvs <> [] ->
  (2 * length (joinTexts 44 texts) + 2 <= fuel)%nat ->
  parseMembers fuel acc (joinTexts 44 texts ++ 125 :: rest)
  = Some (Obj (acc ++ map (fun kv => (kv.1, value_of kv.2)) kvs), rest).
Proof.
  intros texts H. revert fuel acc.
  induction H as [|[k v] kvs [Hk Ht] Hkvs IH]; intros fuel acc Hnd Hne Hf; [done|].
  destruct fuel as [|fuel]; [lia|]. cbn [map fst snd] in Hnd.
  assert (k ∉ map fst acc) as Hfresh.
  { apply NoDup_app in Hnd as (_ & Hd & _). intros Hin. apply (Hd k Hin). set_solver. }
  assert (length (text v) <= length (memberText (k, text v)))%nat as Hlen
    by (unfold memberText; rewrite !length_app; cbn; lia).
  destruct kvs as [|kv2 kvs].
  - unfold texts in *. cbn [map joinTexts fst snd] in *.
    rewrite (parse_member _ _ _ _ (value_of v)) by (done || lia || tauto).
    cbn [N.eqb Pos.eqb]. by rewrite setMember_fresh.
  - unfold texts in *. set (more := joinTexts 44 (map (fun kv => memberText (kv.1, text kv.2)) (kv2 :: kvs))) in *.
    change (joinTexts 44 (map (fun kv => memberText (kv.1, text kv.2)) ((k, v) :: kv2 :: kvs)))
      with (memberText (k, text v) ++ 44 :: more) in *.
    rewrite length_app in Hf. cbn [length] in Hf.
    rewrite <- app_assoc. cbn [app].
    rewrite (parse_member _ _ _ _ (value_of v)) by (done || lia || tauto).
    cbn [N.eqb Pos.eqb]. rewrite setMember_fresh by done.
    rewrite IH; [by rewrite <- app_assoc| |done|lia].
    rewrite map_app, <- app_assoc. exact Hnd.
Qed.

Lemma prints_atom t v :
  (exists u t', t = u :: t' /\ negb (whitespace u) && negb (u =? 93) && negb (u =? 125) = true) ->
  (forall fuel rest, delimited rest -> parseValue (S fuel) (t ++ rest) = Some (v, rest)) -> prints t v.
Proof. intros Hh Hp. split; [done|]. intros [|fuel] rest Hf; [lia|]. apply Hp. Qed.

Lemma prints_str s : units s -> prints (quote s) (Str s).
Proof.
  intros Hs. apply prints_atom; [by eexists _, _|]. intros fuel rest _.
  destruct (parseString_quote s rest Hs) as (body & Hb & Hp). rewrite Hb.
  cbn [parseValue skipWhitespace]. change (whitespace 34) with false. cbv iota.
  change (34 =? 34) with true. cbv iota. by rewrite Hp.
Qed.

Lemma prints_int z : isSafeInteger z -> prints (intText z) (Num (Int z)).
Proof.
  unfold isSafeInteger. rewrite andb_True, !Is_true_true. intros Hz.
  assert (exists u t', intText z = u :: t' /\ (isDigit u || (u =? 45)) = true) as (u & t' & Heq & Hu).
  { unfold intText. destruct (z <? 0)%Z; [eexists _, _; done|].
    destruct (natText_spec (Z.to_N z)) as (H1 & _ & d & ds & H3 & _). rewrite H3 in *.
    exists d, ds. apply Forall_cons in H1 as [-> _]. done. }
  assert (forall c, 57 < c -> (u =? c) = false) as Hne.
  { intros c Hc. apply N.eqb_neq. intros ->. apply orb_true_iff in Hu as [Hu|Hu%N.eqb_eq]; [|lia].
    unfold isDigit in Hu. apply andb_true_iff in Hu as [_ Hu%N.leb_le]. lia. }
  assert ((u =? 34) = false /\ whitespace u = false) as [Hq Hw].
  { unfold whitespace. apply orb_true_iff in Hu as [Hu| ->%N.eqb_eq]; [|done].
    unfold isDigit in Hu. apply andb_true_iff in Hu as [Hu%N.leb_le _].
    rewrite !(proj2 (N.eqb_neq _ _)) by lia. done. }
  apply prints_atom.
  - exists u, t'. split; [done|]. by rewrite Hw, !Hne by lia.
  - intros fuel rest Hr.
    pose proof (parseNumber_intText z rest ltac:(lia) Hr) as Hn. rewrite Heq in *.
    cbn [app parseValue skipWhitespace] in *. rewrite Hw, Hq, !Hne by lia. by rewrite Hn.
Qed.

Definition canonText (v : value) : list N :=
  match canonicalizeJsonWithOrder leb v with Ok (Some t) => t | _ => [] end.

Lemma plain_obj members :
  plain (Obj members) <->
  Forall (fun kv => units kv.1 /\ plain kv.2) members /\ NoDup (map fst members).
Proof.
  cbn [plain]. rewrite andb_True, bool_decide_spec, Is_true_true, forallb_forall, Forall_forall.
  split; (intros [H Hn]; split; [|done]).
  - intros [k v] Hin%list_elem_of_In. specialize (H _ Hin). cbn beta iota in H.
    apply andb_true_iff in H as [H1 H2]. split; apply Is_true_true; [exact H1|exact H2].
  - intros [k v] Hin%list_elem_of_In. destruct (H _ Hin) as [H1 H2].
    apply andb_true_iff. split; apply Is_true_true; [exact H1|exact H2].
Qed.

Lemma plain_members members :
  plain (Obj members) ->
  Forall (fun kv => units kv.1 /\ plain kv.2) members /\ NoDup (map fst members).
Proof. apply plain_obj. Qed.


Lemma skip_nonspace u s : whitespace u = false -> skipWhitespace (u :: s) = u :: s.
Proof. cbn. by intros ->. Qed.

Lemma joinTexts_head P texts :
  Forall (fun t => exists u t', t = u :: t' /\ P u) texts -> texts <> [] ->
  exists u s, joinTexts 44 texts = u :: s /\ P u.
Proof.
  destruct 1 as [|t texts (u & t' & -> & Hu) _]; [done|]. intros _. exists u.
  destruct texts; cbn; eauto.
Qed.

Lemma prints_arr texts vs :
  Forall2 prints texts vs -> prints ([91] ++ joinTexts 44 texts ++ [93]) (Arr vs).
Proof.
  intros H. split; [by eexists _, _|]. intros [|fuel] rest Hf Hr; [lia|].
  rewrite !length_app in Hf. cbn [length] in Hf.
  rewrite <- !app_assoc. cbn [app parseValue]. rewrite skip_nonspace by done. cbn [N.eqb Pos.eqb].
  destruct (decide (texts = [])) as [->|Hne]; [by inversion H|].
  destruct (joinTexts_head (fun u => negb (whitespace u) && negb (u =? 93) && negb (u =? 125) = true) texts)
    as (u & s & Hs & Hu); [|done|].
  { clear - H. induction H as [|t v texts vs [Hh _] _ IH]; by constructor. }
  apply andb_true_iff in Hu as [[Hw%negb_true_iff H93%negb_true_iff]%andb_true_iff _].
  pose proof (prints_items texts vs fuel [] rest H Hne ltac:(lia)) as Hi. rewrite Hs in *.
  cbn [app] in *. rewrite skip_nonspace by done. by rewrite H93.
Qed.

Lemma prints_obj (kvs : list (list N * value)) (text : value -> list N) (value_of : value -> value) :
  Forall (fun kv => units kv.1 /\ prints (text kv.2) (value_of kv.2)) kvs -> NoDup (map fst kvs) ->
  prints ([123] ++ joinTexts 44 (map (fun kv => memberText (kv.1, text kv.2)) kvs) ++ [125])
    (Obj (map (fun kv => (kv.1, value_of kv.2)) kvs)).
Proof.
  intros H Hnd. split; [by eexists _, _|]. intros [|fuel] rest Hf Hr; [lia|].
  rewrite !length_app in Hf. cbn [length] in Hf.
  rewrite <- !app_assoc. cbn [app parseValue]. rewrite skip_nonspace by done. cbn [N.eqb Pos.eqb].
  destruct (decide (kvs = [])) as [->|Hne]; [done|].
  destruct (joinTexts_head (fun u => u = 34) (map (fun kv => memberText (kv.1, text kv.2)) kvs))
    as (u & s & Hs & ->); [|by destruct kvs|].
  { apply Forall_map, Forall_forall. intros kv _. by eexists _, _. }
  pose proof (prints_members kvs text value_of fuel [] rest H Hnd Hne ltac:(lia)) as Hi.
  cbn zeta in Hi. rewrite Hs in *. exact Hi.
Qed.

Lemma plain_items items : plain (Arr items) <-> Forall plain items.
Proof.
  cbn. rewrite Is_true_true, forallb_forall, Forall_forall.
  split; intros H v Hv; apply Is_true_true, H; by apply list_elem_of_In.
Qed.

(** Plain values have canonical text. *)
Lemma canonical_total v : plain v -> canonicalizeJsonWithOrder leb v = Ok (Some (canonText v)).
Proof.
  induction v as [v Hatom|items IH|members IH] using value_ind'.
  - by destruct v as [| | |[]| | |].
  - rewrite plain_items, Forall_forall. intros Hp. rewrite Forall_forall in IH.
    unfold canonText. cbn [canonicalizeJsonWithOrder].
    destruct (mapR _ _) as [texts|e] eqn:Hm; [done|]. exfalso.
    enough (mapR (canonicalizeJsonWithOrder leb) items = Ok (map (fun v => Some (canonText v)) items)) by congruence.
    apply mapR_ok, Forall2_fmap_r, Forall_Forall2_diag, Forall_forall. auto.
  - intros [Hp _]%plain_members. rewrite Forall_forall in IH, Hp.
    unfold canonText. cbn [canonicalizeJsonWithOrder].
    destruct (mapR _ _) as [texts|e] eqn:Hm; [done|]. exfalso.
    match type of Hm with ?m = _ =>
      enough (m = Ok (map (fun kv => (kv.1, Some (canonText kv.2))) members)) by congruence end.
    apply mapR_ok, Forall2_fmap_r, Forall_Forall2_diag, Forall_forall. intros [k v] Hkv.
    specialize (IH _ Hkv). cbn in *. by rewrite IH by by apply (Hp (k, v)).
Qed.

Lemma canonText_arr items :
  plain (Arr items) -> canonText (Arr items) = [91] ++ joinTexts 44 (map canonText items) ++ [93].
Proof.
  rewrite plain_items, Forall_forall. intros Hp. unfold canonText at 1. cbn [canonicalizeJsonWithOrder].
  rewrite (proj2 (mapR_ok _ items (map (fun v => Some (canonText v)) items))); [by rewrite map_map|].
  apply Forall2_fmap_r, Forall_Forall2_diag, Forall_forall. auto using canonical_total.
Qed.

Lemma canonText_obj members :
  plain (Obj members) ->
  canonText (Obj members)
  = [123] ++ joinTexts 44 (map (fun kv => memberText (kv.1, canonText kv.2))
                             (sortBy (fun a b => leb a.1 b.1) members)) ++ [125].
Proof.
  intros [Hp _]%plain_members. rewrite Forall_forall in Hp.
  unfold canonText at 1. cbn [canonicalizeJsonWithOrder].
  rewrite (proj2 (mapR_ok _ members (map (fun kv => (kv.1, Some (canonText kv.2))) members))).
  - rewrite (sortBy_map (fun kv => (kv.1, Some (canonText kv.2))) (fun a b => leb a.1 b.1)) by done.
    by rewrite map_map.
  - apply Forall2_fmap_r, Forall_Forall2_diag, Forall_forall. intros [k v] Hkv.
    rewrite canonical_total by by apply (Hp (k, v)). done.
Qed.

Lemma normal_obj members :
  normal (Obj members)
  = Obj (map (fun kv => (kv.1, normal kv.2)) (sortBy (fun a b => leb a.1 b.1) members)).
Proof.
  cbn. f_equal. rewrite (map_ext _ (fun kv => (kv.1, normal kv.2))) by by intros [].
  by rewrite (sortBy_map (fun kv => (kv.1, normal kv.2)) (fun a b => leb a.1 b.1)).
Qed.

(** Canonical text parses to the sorted value. *)
Lemma canonical_prints v : plain v -> prints (canonText v) (normal v).
Proof.
  induction v as [v Hatom|items IH|members IH] using value_ind'.
  - destruct v as [| |b|[z| |]|s| |]; try done; cbn [plain]; intros Hp.
    + apply prints_atom; [by eexists _, _|done].
    + destruct b; apply prints_atom; (by eexists _, _) || done.
    + by apply prints_int.
    + by apply prints_str.
  - intros Hp. rewrite canonText_arr by done. apply plain_items in Hp. cbn [normal]. apply prints_arr.
    rewrite Forall_forall in *. apply Forall2_fmap, Forall_Forall2_diag, Forall_forall. auto.
  - intros Hp. rewrite canonText_obj, normal_obj by done. apply plain_members in Hp as [Hp Hnd].
    apply prints_obj; rewrite sortBy_perm; [|done].
    rewrite Forall_forall in *. intros kv Hkv. destruct (Hp kv Hkv). auto.
Qed.

Lemma JSON_parse_canonical v :
  plain v -> JSON_parse (canonText v) = Some (normal v).
Proof.
  intros Hp. destruct (canonical_prints v Hp) as [_ Ht]. unfold JSON_parse.
  specialize (Ht (2 * length (canonText v) + 2)%nat [] ltac:(lia) I). rewrite app_nil_r in Ht.
  by rewrite Ht.
Qed.
End Normal.

(** ** Canonical text determines the value *)
Section NormalFacts.
Variable leb : list N -> list N -> bool.
Hypothesis leb_total : forall a b, leb a b || leb b a.
Hypothesis leb_trans : forall a b c, leb a b -> leb b c -> leb a c.
Hypothesis leb_antisym : forall a b, leb a b -> leb b a -> a = b.

Definition memberOrder {A} (a b : list N * A) : bool := leb a.1 b.1.

Lemma sortMembers_perm {A} (l k : list (list N * A)) :
  l ≡ₚ k -> NoDup (map fst l) -> sortBy memberOrder l = sortBy memberOrder k.
Proof.
  intros Hp Hnd. apply (sorted_unique memberOrder).
  - intros [a x] [b y] Hx Hy H1 H2. rewrite sortBy_perm in Hx, Hy.
    assert (a = b) as -> by by apply leb_antisym. f_equal.
    apply list_elem_of_lookup in Hx as [i Hi], Hy as [j Hj].
    assert (i = j) as ->; [|congruence].
    change (NoDup (fst <$> l)) in Hnd.
    eapply (NoDup_lookup (fst <$> l)); [done|..]; rewrite list_lookup_fmap.
    + by rewrite Hi.
    + by rewrite Hj.
  - by rewrite !sortBy_perm.
  - apply sortBy_sorted; [intros; apply leb_total|intros x y z; apply leb_trans].
  - apply sortBy_sorted; [intros; apply leb_total|intros x y z; apply leb_trans].
Qed.

Lemma normal_permutation members members' :
  members ≡ₚ members' -> NoDup (map fst members) ->
  normal leb (Obj members) = normal leb (Obj members').
Proof.
  intros Hp Hnd. cbn. f_equal. apply sortMembers_perm; [by rewrite Hp|].
  rewrite map_map. by rewrite (map_ext _ fst) by by intros [].
Qed.

(** Sorting first by another order makes no difference. *)
Lemma normal_normal leb' v : plain v -> normal leb (normal leb' v) = normal leb v.
Proof.
  induction v as [v Hatom|items IH|members IH] using value_ind'; [by destruct v|..].
  - rewrite plain_items, !Forall_forall in *. intros Hp. cbn. f_equal. rewrite map_map.
    apply map_ext_in. intros v Hv%list_elem_of_In. auto.
  - intros [Hp Hnd]%plain_members. rewrite Forall_forall in IH, Hp. rewrite !normal_obj. f_equal.
    rewrite (sortBy_map (fun kv => (kv.1, normal leb' kv.2)) memberOrder) by done.
    rewrite (sortMembers_perm (sortBy _ members) members); [|apply sortBy_perm|by rewrite sortBy_perm].
    rewrite map_map. apply map_ext_in. intros kv Hkv%list_elem_of_In. cbn. f_equal.
    rewrite sortBy_perm in Hkv. apply IH; [done|]. by apply Hp.
Qed.
End NormalFacts.

(** Two values that differ at most in the order of members. *)
Definition same (v v' : value) : Prop := normal str_leb v = normal str_leb v'.

Lemma normal_same leb v v' leb' :
  plain v -> plain v' -> normal leb v = normal leb' v' -> same v v'.
Proof.
  intros Hv Hv' H. unfold same.
  rewrite <- (normal_normal str_leb str_leb_total str_leb_trans str_leb_antisym leb v Hv).
  rewrite <- (normal_normal str_leb str_leb_total str_leb_trans str_leb_antisym leb' v' Hv').
  by rewrite H.
Qed.

Lemma canonText_normal leb v v' :
  plain v -> plain v' ->
  canonText leb v = canonText leb v' -> normal leb v = normal leb v'.
Proof.
  intros Hv Hv' H. apply (JSON_parse_canonical leb) in Hv, Hv'. congruence.
Qed.

(** Canonical text is the JSON text of the sorted value. *)
Lemma canonical_stringify leb v :
  plain v -> canonicalizeJsonWithOrder leb v = Ok (JSON_stringify (normal leb v)).
Proof.
  intros Hp. rewrite canonical_total by done. f_equal. revert Hp.
  induction v as [v Hatom|items IH|members IH] using value_ind'.
  - by destruct v as [| | |[]| | |].
  - intros Hp. rewrite canonText_arr by done. apply plain_items in Hp. cbn [normal JSON_stringify].
    rewrite map_map. do 4 f_equal. apply map_ext_in. intros v Hv%list_elem_of_In.
    rewrite Forall_forall in IH, Hp. by rewrite <- IH by auto.
  - intros Hp. rewrite canonText_obj, normal_obj by done. apply plain_members in Hp as [Hp _].
    cbn [JSON_stringify]. rewrite map_map. do 4 f_equal. rewrite Forall_forall in IH, Hp.
    assert (forall kv, kv ∈ sortBy (fun a b => leb a.1 b.1) members ->
      Some (canonText leb kv.2) = JSON_stringify (normal leb kv.2)) as H.
    { intros kv Hkv. rewrite sortBy_perm in Hkv. apply IH; [done|]. by apply Hp. }
    clear - H. induction (sortBy _ members) as [|[k v] l IHl]; cbn [map concat fst snd]; [done|].
    pose proof (H (k, v) ltac:(set_solver)) as Hv. cbn [snd] in Hv. rewrite <- Hv. cbn [app].
    rewrite IHl by set_solver. done.
Qed.

Lemma same_canonical v v' :
  plain v -> plain v' -> canonicalizeJson v = canonicalizeJson v' <-> same v v'.
Proof.
  intros Hv Hv'. unfold canonicalizeJson. split.
  - rewrite !canonical_total by done. intros [= H]. by apply canonText_normal.
  - intros H. rewrite !canonical_stringify by done. by rewrite H.
Qed.

(** *** The text is clean: printable, and without lone surrogates *)
Inductive clean : list N -> Prop :=
| clean_nil : clean []
| clean_unit u t : 32 <= u < 0x10000 -> isSurrogate u = false -> clean t -> clean (u :: t)
| clean_pair u v t : isHigh u && isLow v = true -> clean t -> clean (u :: v :: t).

Lemma clean_app a b : clean a -> clean b -> clean (a ++ b).
Proof. induction 1; cbn; eauto using clean_unit, clean_pair. Qed.

Lemma surrogate_high u : isHigh u = true -> isSurrogate u = true.
Proof. unfold isHigh, isSurrogate. rewrite !andb_true_iff, !N.leb_le. lia. Qed.

Lemma clean_wellFormed t : clean t -> units t /\ wellFormed t /\ Forall (fun u => 32 <= u) t.
Proof.
  induction 1 as [|u t Hu Hs _ (IH1 & IH2 & IH3)|u v t Hp _ (IH1 & IH2 & IH3)]; [done| |].
  - split_and!; [apply units_cons; split; [lia|done]| |constructor; [lia|done]].
    unfold wellFormed in *.
    assert (codePoints (u :: t) = u :: codePoints t) as ->.
    { destruct t as [|v t]; [done|]. cbn. destruct (isHigh u) eqn:Hh; [|done].
      apply surrogate_high in Hh. congruence. }
    cbn. by rewrite Hs.
  - pose proof Hp as (Hu & Hv & Hb)%pair_bounds.
    split_and!; [rewrite !units_cons; split_and!; [lia..|done]| |repeat constructor; [lia..|done]].
    unfold wellFormed in *. cbn [codePoints]. rewrite Hp. cbn.
    assert (isSurrogate (pairPoint u v) = false) as ->; [|done].
    unfold isSurrogate. apply andb_false_iff. right. apply N.leb_gt. lia.
Qed.

Lemma clean_ascii s : forallb (fun u => (32 <=? u) && (u <? 128)) s = true -> clean s.
Proof.
  induction s as [|u s IH]; cbn; [constructor|]. rewrite !andb_true_iff, N.leb_le, N.ltb_lt.
  intros [[? ?] ?]. constructor; [lia| |by apply IH].
  unfold isSurrogate. apply andb_false_iff. left. apply N.leb_gt. lia.
Qed.

Lemma hexDigit_bounds n : n < 16 -> 32 <= hexDigit n < 128.
Proof. intros. unfold hexDigit. destruct (N.ltb_spec n 10); lia. Qed.

Lemma escapeUnit_ascii u : forallb (fun u => (32 <=? u) && (u <? 128)) (escapeUnit u) = true.
Proof.
  unfold escapeUnit. cbn [forallb].
  assert (forall m, (32 <=? hexDigit (m mod 16)) && (hexDigit (m mod 16) <? 128) = true) as H.
  { intros m. pose proof (hexDigit_bounds (m mod 16) ltac:(apply N.mod_lt; lia)).
    apply andb_true_iff. rewrite N.leb_le, N.ltb_lt. done. }
  by rewrite !H.
Qed.

Lemma clean_escapeUnit u : clean (escapeUnit u).
Proof. apply clean_ascii, escapeUnit_ascii. Qed.

Lemma clean_quoteBody s : units s -> clean (quoteBody s).
Proof.
  induction s as [|u v s Hp IH|u s Heq Hm IH] using codePoints_ind; [constructor| |].
  - rewrite !units_cons. intros (_ & _ & Hs). cbn. rewrite Hp. by apply clean_pair; [|apply IH].
  - rewrite units_cons. intros [Hu Hs]. rewrite quoteBody_unit by done.
    apply clean_app; [|by apply IH]. unfold escapeOf.
    repeat match goal with |- context [u =? ?c] => destruct (N.eqb_spec u c); [by apply clean_ascii|] end.
    destruct (N.ltb_spec u 32); [apply clean_escapeUnit|].
    destruct (isSurrogate u) eqn:Hsu; [apply clean_escapeUnit|].
    cbn. constructor; [lia|done|constructor].
Qed.

Lemma clean_quote s : units s -> clean (quote s).
Proof.
  intros Hs. unfold quote. apply clean_app; [by apply clean_ascii|].
  apply clean_app; [by apply clean_quoteBody|by apply clean_ascii].
Qed.

(** A quoted text has at most six characters for one. *)
Lemma quoteBody_length s : (length (quoteBody s) <= 6 * length s)%nat.
Proof.
  induction s as [|u v s Hp IH|u s Heq Hm IH] using codePoints_ind; [done| |].
  - cbn [quoteBody length]. rewrite Hp. cbn [length]. lia.
  - rewrite quoteBody_unit by done. rewrite length_app. cbn [length].
    assert (length (default [u] (escapeOf u)) <= 6)%nat; [|lia]. unfold escapeOf, escapeUnit. repeat case_match; cbn; lia.
Qed.

Lemma quote_length s : (length (quote s) <= 6 * length s + 2)%nat.
Proof. unfold quote. rewrite !length_app. pose proof (quoteBody_length s). cbn [length]. lia. Qed.

Lemma clean_join texts : Forall clean texts -> clean (joinTexts 44 texts).
Proof.
  induction 1 as [|t texts Ht Hts IH]; [constructor|]. destruct texts as [|t2 texts]; [done|].
  apply (clean_app t (44 :: joinTexts 44 (t2 :: texts))); [done|].
  apply (clean_app [44]); [by apply clean_ascii|done].
Qed.

Lemma intText_ascii z : forallb (fun u => (32 <=? u) && (u <? 128)) (intText z) = true.
Proof.
  unfold intText. assert (forall n, forallb (fun u => (32 <=? u) && (u <? 128)) (natText n) = true) as H.
  { intros n. destruct (natText_spec n) as [H _]. apply forallb_forall. intros u Hu%list_elem_of_In.
    rewrite Forall_forall in H. specialize (H u Hu). unfold isDigit in H.
    rewrite andb_true_iff, !N.leb_le in H. apply andb_true_iff. rewrite N.leb_le, N.ltb_lt. lia. }
  destruct (z <? 0)%Z; [|apply H]. apply andb_true_iff. by split; [|apply H].
Qed.

Lemma clean_intText z : clean (intText z).
Proof. apply clean_ascii, intText_ascii. Qed.

(** A number below [10 ^ k] has at most [k] digits. *)
Lemma decimal_length fuel k n : (n < 10 ^ N.of_nat k)%N -> (0 < k)%nat -> (length (decimal fuel n) <= k)%nat.
Proof.
  revert k n. induction fuel as [|fuel IH]; intros k n Hn Hk; cbn [decimal]; [cbn; lia|].
  destruct (N.ltb_spec n 10); [cbn; lia|]. rewrite length_app; cbn [length].
  destruct k as [|[|k]]; [lia|cbn in Hn; lia|].
  specialize (IH (S k) (n / 10)%N). enough (length (decimal fuel (n / 10)) <= S k)%nat by lia.
  apply IH; [|lia]. apply N.Div0.div_lt_upper_bound. rewrite <- N.pow_succ_r', <- Nat2N.inj_succ. done.
Qed.

Lemma intText_length z : isSafeInteger z -> (length (intText z) <= 17)%nat.
Proof.
  unfold isSafeInteger, MAX_SAFE_INTEGER. rewrite andb_True, !Is_true_true. intros Hz.
  unfold intText, natText.
  assert (forall n, (Z.of_N n <= 9007199254740991)%Z ->
    (length (decimal (S (N.to_nat (N.log2 n))) n) <= 16)%nat) as H.
  { intros n Hn. apply decimal_length; [|lia]. change (10 ^ N.of_nat 16)%N with 10000000000000000%N. lia. }
  destruct (z <? 0)%Z eqn:Hs; cbn [length].
  - specialize (H (Z.to_N (- z)) ltac:(lia)). lia.
  - specialize (H (Z.to_N z) ltac:(lia)). lia.
Qed.

Lemma clean_canonText leb v : plain v -> clean (canonText leb v).
Proof.
  induction v as [v Hatom|items IH|members IH] using value_ind'.
  - destruct v as [| |b|[z| |]|s| |]; try done; cbn [plain]; intros Hp; unfold canonText; cbn.
    + by apply clean_ascii.
    + destruct b; by apply clean_ascii.
    + apply clean_intText.
    + by apply clean_quote.
  - intros Hp. rewrite canonText_arr by done. apply plain_items in Hp. rewrite Forall_forall in *.
    apply clean_app; [by apply clean_ascii|]. apply clean_app; [|by apply clean_ascii].
    apply clean_join, Forall_map, Forall_forall. auto.
  - intros Hp. rewrite canonText_obj by done. apply plain_members in Hp as [Hp _]. rewrite Forall_forall in *.
    apply clean_app; [by apply clean_ascii|]. apply clean_app; [|by apply clean_ascii].
    apply clean_join, Forall_map. rewrite sortBy_perm. apply Forall_forall. intros kv Hkv.
    destruct (Hp kv Hkv). unfold memberText; cbn [fst snd]. apply clean_app; [by apply clean_quote|].
    apply (clean_app [58]); [by apply clean_ascii|auto].
Qed.

(** *** Signature inputs *)
Lemma codePoints_snoc s u :
  isLow u = false -> codePoints (s ++ [u]) = codePoints s ++ [u].
Proof.
  intros Hu. induction s as [|x v s Hp IH|x s Heq Hm IH] using codePoints_ind; [done| |].
  - cbn [app codePoints]. rewrite Hp. cbn. by rewrite IH.
  - rewrite Heq. cbn [app]. rewrite <- IH. destruct s as [|v s]; cbn [app codePoints].
    + by rewrite Hu, andb_false_r.
    + by rewrite Hm.
Qed.

Lemma encode_snoc_zero s : TextEncoder_encode (s ++ [0]) = TextEncoder_encode s ++ [0].
Proof.
  unfold TextEncoder_encode, encodePoints. rewrite codePoints_snoc by done.
  by rewrite !map_app, concat_app.
Qed.

Lemma utf8Point_nonzero c : 0 < c -> 0 ∉ utf8Point c.
Proof.
  intros Hc. unfold utf8Point. rewrite list_elem_of_In. name_digits c.
  repeat case_match; cbn; intros Hin; repeat destruct Hin as [Hin|Hin]; try done; lia.
Qed.

Lemma encode_nonzero t : clean t -> 0 ∉ TextEncoder_encode t.
Proof.
  intros Ht. pose proof (clean_wellFormed t Ht) as (Hu & Hw & _).
  unfold TextEncoder_encode, encodePoints. rewrite wellFormed_replacement by done.
  assert (Forall (fun c => 0 < c) (codePoints t)) as Hpos.
  { clear Hu Hw. induction Ht as [|u t Hu Hs Ht IH|u v t Hp Ht IH]; [done| |].
    - assert (codePoints (u :: t) = u :: codePoints t) as ->.
      { destruct t as [|v t]; [done|]. cbn. destruct (isHigh u) eqn:Hh; [|done].
        apply surrogate_high in Hh. congruence. }
      constructor; [lia|done].
    - cbn [codePoints]. rewrite Hp. apply pair_bounds in Hp. constructor; [lia|done]. }
  rewrite list_elem_of_In, in_concat. intros (l & Hl & H0).
  apply in_map_iff in Hl as (c & <- & Hc). rewrite Forall_forall in Hpos.
  apply (utf8Point_nonzero c); [by apply Hpos, list_elem_of_In|by apply list_elem_of_In].
Qed.

(** The last separator splits a list in one way. *)
Lemma split_at_last {A} (x : A) p q a b :
  x ∉ a -> x ∉ b -> p ++ x :: a = q ++ x :: b -> p = q /\ a = b.
Proof.
  intros Ha Hb. revert q. induction p as [|y p IH]; intros [|z q]; cbn; intros H.
  - by injection H as ->.
  - injection H as <- ->. exfalso. apply Ha. set_solver.
  - injection H as -> <-. exfalso. apply Hb. set_solver.
  - injection H as -> H. apply IH in H as [-> ->]. done.
Qed.

Lemma signatureInput_inj kind t domain kind' t' domain' :
  clean t -> clean t' ->
  signatureInput kind t domain = signatureInput kind' t' domain' ->
  t = t' /\ TextEncoder_encode (domain ++ js "/" ++ kind) = TextEncoder_encode (domain' ++ js "/" ++ kind').
Proof.
  intros Ht Ht' H. unfold signatureInput in H.
  assert (forall d k, d ++ js "/" ++ k ++ [0] = (d ++ js "/" ++ k) ++ [0]) as Hassoc
    by (intros; by rewrite <- !app_assoc).
  rewrite !Hassoc, !encode_snoc_zero, <- !app_assoc in H. cbn [app] in H.
  apply split_at_last in H as [Hp He]; [|by apply encode_nonzero..]. split; [|done].
  apply clean_wellFormed in Ht as (Hu & Hw & _), Ht' as (Hu' & Hw' & _). by apply encode_inj.
Qed.

(** *** The fuel of [JSON_parse] is enough

    Every call consumes a character or hands its whole input to a call of
    another kind, so twice the length bounds the depth: with that much fuel,
    more makes no difference. *)
Lemma skipWhitespace_length s : (length (skipWhitespace s) <= length s)%nat.
Proof. induction s as [|u s IH]; cbn; [done|]. destruct (whitespace u); cbn; lia. Qed.

Lemma parseString_length s str tail :
  parseString s = Some (str, tail) -> (length tail < length s)%nat.
Proof.
  remember (length s) as n eqn:Hn. revert s str tail Hn.
  induction n as [n IH] using (well_founded_induction lt_wf). intros s str tail ->.
  assert (forall s' str' tail', (length s' < length s)%nat -> parseString s' = Some (str', tail') ->
    (length tail' < length s')%nat) as IH' by eauto. clear IH.
  destruct s as [|u s]; [done|]. cbn [parseString].
  repeat case_match; intros Heq; simplify_eq; cbn [length] in *; try lia;
    match goal with H : parseString ?x = Some _ |- _ => apply IH' in H; cbn [length] in *; lia end.
Qed.

Lemma takeDigits_length s : (length (takeDigits s).1 + length (takeDigits s).2 = length s)%nat.
Proof.
  induction s as [|u s IH]; cbn; [done|]. destruct (isDigit u); [|done].
  destruct (takeDigits s); cbn in *. lia.
Qed.

Lemma parseNumber_length s z tail : parseNumber s = Some (z, tail) -> (length tail < length s)%nat.
Proof.
  unfold parseNumber. destruct (match s with [] => _ | _ => _ end) as [neg s1] eqn:Hs.
  assert (length s1 <= length s)%nat as Hle.
  { destruct s as [|u s]; [by simplify_eq|]. destruct (u =? 45); simplify_eq; cbn; lia. }
  pose proof (takeDigits_length s1) as Ht. destruct (takeDigits s1) as [ds t]; cbn [fst snd] in Ht.
  destruct ds as [|d ds]; [by rewrite andb_false_r|]. cbn [length] in Ht.
  repeat case_match; intros Heq; simplify_eq; lia.
Qed.

Lemma stripPrefix_length p s tail : stripPrefix p s = Some tail -> (length tail <= length s)%nat.
Proof.
  revert s. induction p as [|x p IH]; intros [|y s]; cbn; intros H; simplify_eq; try done.
  destruct (x =? y); [|done]. apply IH in H. lia.
Qed.

Definition settles {A} (bound : nat) (f : nat -> option (A * list N)) (s : list N) : Prop :=
  forall f1 f2, (bound <= f1)%nat -> (bound <= f2)%nat ->
  f f1 = f f2 /\ forall v tail, f f1 = Some (v, tail) -> (length tail < length s)%nat.

Definition all_settle (s : list N) : Prop :=
  settles (2 * length s + 1) (fun fuel => parseValue fuel s) s /\
  (forall acc, settles (2 * length s + 2) (fun fuel => parseItems fuel acc s) s) /\
  (forall acc, settles (2 * length s + 2) (fun fuel => parseMembers fuel acc s) s).

Section Settle.
Variable s : list N.
Hypothesis IH : forall s', (length s' < length s)%nat -> all_settle s'.

Lemma settle_value : settles (2 * length s + 1) (fun fuel => parseValue fuel s) s.
Proof.
  pose proof (skipWhitespace_length s) as Hws.
  intros [|f1] [|f2] H1 H2; [lia..|]. cbn [parseValue].
  destruct (skipWhitespace s) as [|u rest] eqn:Hs; [done|]. cbn [length] in Hws.
  destruct (IH rest ltac:(lia)) as (_ & Hi & Hm).
  destruct (Hi [] f1 f2 ltac:(lia) ltac:(lia)) as [Hi1 Hi2].
  destruct (Hm [] f1 f2 ltac:(lia) ltac:(lia)) as [Hm1 Hm2].
  pose proof (skipWhitespace_length rest) as Hwr. rewrite Hi1, Hm1.
  rewrite Hi1 in Hi2. rewrite Hm1 in Hm2. split; [done|]. intros v tail.
  repeat case_match; intros Heq; simplify_eq; cbn [length] in *; try lia;
  repeat match goal with
  | H : parseString _ = Some _ |- _ => apply parseString_length in H
  | H : stripPrefix _ _ = Some _ |- _ => apply stripPrefix_length in H
  | H : parseNumber _ = Some _ |- _ => apply parseNumber_length in H
  end; cbn [length] in *; try lia.
  - apply Hi2 in Heq. lia.
  - apply Hm2 in Heq. lia.
Qed.

Lemma settle_items acc : settles (2 * length s + 2) (fun fuel => parseItems fuel acc s) s.
Proof.
  intros [|f1] [|f2] H1 H2; [lia..|]. cbn [parseItems].
  destruct (settle_value f1 f2 ltac:(lia) ltac:(lia)) as [Hv1 Hv2]. rewrite Hv1 in *.
  destruct (parseValue f2 s) as [[item tail]|]; [|done]. specialize (Hv2 _ _ eq_refl).
  pose proof (skipWhitespace_length tail). destruct (skipWhitespace tail) as [|u rest]; [done|].
  cbn [length] in *. destruct (IH rest ltac:(lia)) as (_ & Hi & _).
  destruct (Hi (acc ++ [item]) f1 f2 ltac:(lia) ltac:(lia)) as [Hi1 Hi2]. rewrite Hi1 in *.
  split; [done|]. intros v t. repeat case_match; intros Heq; simplify_eq; [|lia].
  apply Hi2 in Heq. lia.
Qed.

Lemma settle_members acc : settles (2 * length s + 2) (fun fuel => parseMembers fuel acc s) s.
Proof.
  pose proof (skipWhitespace_length s) as Hws.
  intros [|f1] [|f2] H1 H2; [lia..|]. cbn [parseMembers].
  destruct (skipWhitespace s) as [|q rest]; [done|]. cbn [length] in *.
  destruct (negb (q =? 34)); [done|].
  destruct (parseString rest) as [[key tail]|] eqn:Hk; [|done]. apply parseString_length in Hk.
  pose proof (skipWhitespace_length tail). destruct (skipWhitespace tail) as [|c rest1]; [done|].
  cbn [length] in *. destruct (negb (c =? 58)); [done|].
  destruct (IH rest1 ltac:(lia)) as (Hv & _ & _).
  destruct (Hv f1 f2 ltac:(lia) ltac:(lia)) as [Hv1 Hv2]. rewrite Hv1 in *.
  destruct (parseValue f2 rest1) as [[item tail1]|]; [|done]. specialize (Hv2 _ _ eq_refl).
  pose proof (skipWhitespace_length tail1). destruct (skipWhitespace tail1) as [|u rest2]; [done|].
  cbn [length] in *. destruct (IH rest2 ltac:(lia)) as (_ & _ & Hm).
  destruct (Hm (setMember key item acc) f1 f2 ltac:(lia) ltac:(lia)) as [Hm1 Hm2]. rewrite Hm1 in *.
  split; [done|]. intros v t. repeat case_match; intros Heq; simplify_eq; [|lia].
  apply Hm2 in Heq. lia.
Qed.
End Settle.

Lemma parse_settles s : all_settle s.
Proof.
  remember (length s) as n eqn:Hn. revert s Hn.
  induction n as [n IH] using (well_founded_induction lt_wf). intros s ->.
  assert (forall s', (length s' < length s)%nat -> all_settle s') as IH' by eauto.
  split_and!; [by apply settle_value|..]; intros acc; [by apply settle_items|by apply settle_members].
Qed.

Lemma parse_fuel_enough s fuel :
  (2 * length s + 2 <= fuel)%nat -> parseValue fuel s = parseValue (2 * length s + 2) s.
Proof. intros Hf. destruct (parse_settles s) as [H _]. apply H; lia. Qed.

(** *** Captured payloads are JSON data *)
Fixpoint tame (v : value) : bool :=
  match v with
  | Num (Int z) => isSafeInteger z
  | Str s => units s
  | Arr items => forallb tame items
  | Obj members => forallb (fun '(key, item) => units key && tame item) members &&
                   bool_decide (NoDup (map fst members))
  | _ => true
  end.

Lemma plain_tame v : plain v -> tame v.
Proof.
  induction v as [v Hatom|items IH|members IH] using value_ind'.
  - by destruct v as [| | |[]| | |].
  - rewrite plain_items, !Forall_forall in *. intros Hp. cbn [tame]. apply Is_true_true, forallb_forall.
    intros x Hx%list_elem_of_In. apply Is_true_true. auto.
  - rewrite plain_obj, !Forall_forall in *. intros [Hm Hn]. cbn [tame]. rewrite andb_True, bool_decide_spec.
    split; [|done]. apply Is_true_true, forallb_forall. intros [k x] Hx%list_elem_of_In. apply Is_true_true.
    rewrite andb_True. destruct (Hm _ Hx). split; [done|]. by apply (IH (k, x)).
Qed.

Lemma mapR_forall {A B} (f : A -> result B) (Q : B -> Prop) l k :
  mapR f l = Ok k -> (forall x y, x ∈ l -> f x = Ok y -> Q y) -> Forall Q k.
Proof.
  intros H%mapR_ok HQ. induction H as [|x y l k Hxy _ IH]; constructor.
  - eapply HQ; [|exact Hxy]. set_solver.
  - apply IH. intros a b Ha. apply HQ. set_solver.
Qed.

Lemma capture_plain v c : tame v -> captureJsonValue v = Ok c -> plain c.
Proof.
  revert c. induction v as [v Hatom|items IH|members IH] using value_ind'; intros c.
  - destruct v as [| | |[]| | |]; cbn; intros Ht Hc; simplify_eq; done.
  - cbn. rewrite Is_true_true, forallb_forall. intros Ht. case_match eqn:Hm; [|done].
    intros [= <-]. rewrite Forall_forall in IH. apply plain_items.
    eapply mapR_forall; [exact Hm|]. intros x y Hx Hy. eapply IH; [exact Hx| |].
    + apply Is_true_true, Ht. by apply list_elem_of_In.
    + by destruct x.
  - cbn [tame captureJsonValue]. rewrite andb_True, bool_decide_spec, Is_true_true, forallb_forall.
    intros [Ht Hnd]. case_match eqn:Hm; [|done]. intros [= <-]. rewrite Forall_forall in IH.
    assert (forall k c, Some (k, c) ∈ a -> units k /\ plain c) as Hall.
    { intros k c Hin. enough (Forall (fun o => forall k c, o = Some (k, c) -> units k /\ plain c) a) as H
        by (rewrite Forall_forall in H; by apply (H _ Hin)).
      eapply mapR_forall; [exact Hm|]. intros [k1 x] y Hx Hy k2 c2 ->.
      assert (captureJsonValue x = Ok c2 /\ k1 = k2) as [Hc ->]
        by (destruct x; try done; destruct (captureJsonValue _); naive_solver).
      specialize (Ht (k2, x) ltac:(by apply list_elem_of_In)). cbn in Ht.
      apply andb_true_iff in Ht as [H1 H2]. split; [by apply Is_true_true|].
      eapply (IH (k2, x)); [done|by apply Is_true_true|done]. }
    assert (map fst (omap id a) `sublist_of` map fst members) as Hsub.
    { clear - Hm. apply mapR_ok in Hm. induction Hm as [|[k x] y l b Hxy _ IHl]; cbn; [done|].
      destruct y as [[k' c]|]; cbn.
      - assert (k' = k) as -> by (destruct x; try done; destruct (captureJsonValue _); naive_solver).
        by apply sublist_skip.
      - by apply sublist_cons. }
    apply (proj2 (plain_obj _)). split; [|by eapply sublist_NoDup].
    apply Forall_forall. intros [k c] Hin.
    apply list_elem_of_omap in Hin as (o & Ho & ?). cbn in *. subst o. by apply Hall.
Qed.

(** ** Theorems *)

(** C40. Canonical JSON determines the value and nothing else.  JSON data has
    a canonical text; the text parses back to the value with sorted members;
    two values have the same text exactly when they differ at most in the
    order of members; and permuting the members of an object does not change
    its text. *)
Theorem canonical_json_determines_value (v v' : value) :
  plain v -> plain v' ->
  (exists t, canonicalizeJson v = Ok (Some t) /\ JSON_parse t = Some (normal str_leb v)) /\
  (canonicalizeJson v = canonicalizeJson v' <-> same v v') /\
  forall members members', v = Obj members -> members ≡ₚ members' ->
    canonicalizeJson (Obj members') = canonicalizeJson v.
Proof.
  intros Hv Hv'. split_and!.
  - exists (canonText str_leb v). split; [by apply canonical_total|by apply JSON_parse_canonical].
  - by apply same_canonical.
  - intros members members' -> Hp. symmetry.
    assert (plain (Obj members')) as Hpl.
    { apply plain_obj. apply plain_obj in Hv as [H1 H2]. by rewrite <- Hp. }
    apply same_canonical; [done..|]. apply plain_members in Hv as [_ Hnd].
    apply normal_permutation; auto using str_leb_total, str_leb_antisym.
    intros a b c. apply str_leb_trans.
Qed.

Definition demo_record (swap : bool) : value :=
  let a := (js "kind", Str (js "demo")) in
  let b := (js "n", Arr [Num (Int (-7)); Null; Bool true; Str [0xD83D; 0xDE00; 10; 0xDC00]]) in
  Obj (if swap then [b; a] else [a; b]).

Lemma canonical_json_determines_value_witness :
  canonicalizeJson (demo_record false) = canonicalizeJson (demo_record true).
Proof.
  apply (canonical_json_determines_value (demo_record false) (demo_record true));
    vm_compute; done.
Defined.

(** A signature input binds its payload, kind and domain.  The bytes that
    are signed for two payloads agree only if the payloads differ at most in
    the order of members and the domain and kind encode alike; this covers
    both key orders that [verifyEnvelope] accepts, the scalar order and the
    legacy UTF-16 one. *)
Theorem signature_input_binds_payload
    (leb leb' : list N -> list N -> bool) (v v' : value) (t t' kind kind' domain domain' : list N) :
  plain v -> plain v' ->
  canonicalizeJsonWithOrder leb v = Ok (Some t) ->
  canonicalizeJsonWithOrder leb' v' = Ok (Some t') ->
  signatureInput kind t domain = signatureInput kind' t' domain' ->
  same v v' /\
  TextEncoder_encode (domain ++ js "/" ++ kind) = TextEncoder_encode (domain' ++ js "/" ++ kind').
Proof.
  intros Hv Hv' Ht Ht' Hs. rewrite canonical_total in Ht, Ht' by done.
  injection Ht as <-. injection Ht' as <-.
  apply signatureInput_inj in Hs as [Ht Hd]; [|by apply clean_canonText..]. split; [|done].
  apply (normal_same leb v v' leb'); [done..|].
  pose proof (JSON_parse_canonical leb v Hv). pose proof (JSON_parse_canonical leb' v' Hv'). congruence.
Qed.

Lemma signature_input_binds_payload_witness :
  same (demo_record false) (demo_record true) /\
  TextEncoder_encode (js "MATCH/1" ++ js "/" ++ js "demo") = TextEncoder_encode (js "MATCH/1" ++ js "/" ++ js "demo").
Proof.
  destruct (canonicalizeJsonWithOrder str_leb (demo_record false)) as [[t|]|e] eqn:Ht;
    [|discriminate Ht..].
  apply (signature_input_binds_payload str_leb str_leb (demo_record false) (demo_record true)
    t t (js "demo") (js "demo") (js "MATCH/1") (js "MATCH/1")); [vm_compute; done..|exact Ht| |reflexivity].
  rewrite <- Ht. vm_compute. reflexivity.
Defined.
