(* ===== verification/Js.v ===== *)
(** * JavaScript values at run time

    Property access, truth values, strict equality, string conversion and the
    insertion-ordered [Map] on the values of [Json], for code that inspects
    data whose shape nothing guarantees.  Accessing a property of [null] or
    [undefined] throws, as it does at run time. *)
From stdpp Require Import base numbers list strings sets.
From Stdlib Require Import ZArith NArith Lia.
From S2P Require Import Prelude Unicode Json.

Declare Scope js_scope.
Delimit Scope js_scope with js.

(** [v.key] *)
Definition get (key : list N) (v : value) : result value :=
  match v with
  | Null | Undefined => Throw "Cannot read properties of undefined"
  | Obj members => Ok (member key members)
  | _ => Ok Undefined
  end.

(** [v?.key] *)
Definition getOpt (key : list N) (v : value) : value :=
  match v with Obj members => member key members | _ => Undefined end.

Notation "v .[ key ]" := (getOpt (js key) v) (at level 1, left associativity, format "v .[ key ]") : js_scope.

Definition truthy (v : value) : bool :=
  match v with
  | Null | Undefined => false
  | Bool b => b
  | Num (Int z) => negb (z =? 0)%Z
  | Num NaN => false
  | Num (Infinity _) => true
  | Str s => negb (length s =? 0)%nat
  | Arr _ | Obj _ => true
  end.

(** [v === s] for a string, a boolean and an integer. *)
Definition isStr (s : list N) (v : value) : bool := match v with Str t => bool_decide (t = s) | _ => false end.
Definition isInt (z : Z) (v : value) : bool := match v with Num (Int y) => (y =? z)%Z | _ => false end.
Definition isNull (v : value) : bool := match v with Null => true | _ => false end.

(** [a === b] of primitive values; two objects are the same only if they are
    one, which values without identity never are. *)
Definition strictEqual (a b : value) : bool :=
  match a, b with
  | Null, Null | Undefined, Undefined => true
  | Bool x, Bool y => Bool.eqb x y
  | Num (Int x), Num (Int y) => (x =? y)%Z
  | Num (Infinity x), Num (Infinity y) => Bool.eqb x y
  | Str x, Str y => bool_decide (x = y)
  | _, _ => false
  end.

Definition isString (v : value) : bool := match v with Str _ => true | _ => false end.
Definition isArray (v : value) : bool := match v with Arr _ => true | _ => false end.
Definition isRecord (v : value) : bool := match v with Obj _ => true | _ => false end.
Definition items (v : value) : list value := match v with Arr l => l | _ => [] end.
Definition members (v : value) : list (list N * value) := match v with Obj l => l | _ => [] end.

(** [Number.isSafeInteger] *)
Definition safeInt (v : value) : option Z :=
  match v with Num (Int z) => if isSafeInteger z then Some z else None | _ => None end.

Definition isSafe (v : value) : bool := match safeInt v with Some _ => true | None => false end.

Definition hasOwn (key : list N) (v : value) : bool := bool_decide (key ∈ map fst (members v)).

(** [Object.keys(v).length === keys.length && keys.every(key => Object.hasOwn(v, key))] *)
Definition hasExactKeys (v : value) (keys : list (list N)) : bool :=
  (length (members v) =? length keys)%nat && forallb (fun key => hasOwn key v) keys.

(** [encoder.encode(text)] of a canonical text, which [undefined] has none of. *)
Definition encodeText (text : option (list N)) : list N := TextEncoder_encode (default [] text).

(** [`${v}`] *)
Fixpoint toText (v : value) : list N :=
  match v with
  | Null => js "null"
  | Undefined => js "undefined"
  | Bool b => if b then js "true" else js "false"
  | Num (Int z) => intText z
  | Num NaN => js "NaN"
  | Num (Infinity negative) => if negative then js "-Infinity" else js "Infinity"
  | Str s => s
  | Arr l => joinTexts 44 (map (fun item => match item with Null | Undefined => [] | _ => toText item end) l)
  | Obj _ => js "[object Object]"
  end.

(** [array.find(test)] where the test may throw. *)
Fixpoint findR {A} (test : A -> result bool) (l : list A) : result (option A) :=
  match l with
  | [] => Ok None
  | x :: rest => hit ← test x; if (hit : bool) then Ok (Some x) else findR test rest
  end.

(** [for (const x of l) await step(x)] *)
Fixpoint foldR {A S} (step : S -> A -> result S) (s : S) (l : list A) : result S :=
  match l with
  | [] => Ok s
  | x :: rest => s' ← step s x; foldR step s' rest
  end.

Fixpoint filterR {A} (test : A -> result bool) (l : list A) : result (list A) :=
  match l with
  | [] => Ok []
  | x :: rest => hit ← test x; kept ← filterR test rest; Ok (if (hit : bool) then x :: kept else kept)
  end.

(** ** Map: the entries in insertion order; setting a present key keeps its place *)
Section Maps.
Context {A : Type}.

Fixpoint map_get (key : list N) (m : list (list N * A)) : option A :=
  match m with
  | [] => None
  | (k, a) :: rest => if bool_decide (k = key) then Some a else map_get key rest
  end.

Fixpoint map_set (key : list N) (a : A) (m : list (list N * A)) : list (list N * A) :=
  match m with
  | [] => [(key, a)]
  | (k, b) :: rest => if bool_decide (k = key) then (k, a) :: rest else (k, b) :: map_set key a rest
  end.

Definition map_delete (key : list N) (m : list (list N * A)) : list (list N * A) :=
  List.filter (fun p => negb (bool_decide (p.1 = key))) m.

Definition map_has (key : list N) (m : list (list N * A)) : bool :=
  match map_get key m with Some _ => true | None => false end.

Lemma map_get_set key a key' m :
  map_get key' (map_set key a m) = if bool_decide (key = key') then Some a else map_get key' m.
Proof.
  induction m as [|[k b] m IH]; cbn [map_get map_set]; [done|].
  destruct (decide (k = key)) as [->|Hk].
  - rewrite bool_decide_eq_true_2 by done. cbn [map_get]. by case_bool_decide.
  - rewrite bool_decide_eq_false_2 by done. cbn [map_get]. rewrite IH. repeat case_bool_decide; congruence.
Qed.

Lemma map_get_delete key key' m :
  map_get key' (map_delete key m) = if bool_decide (key = key') then None else map_get key' m.
Proof.
  unfold map_delete. induction m as [|[k b] m IH]; cbn; [by case_bool_decide|].
  destruct (decide (k = key)) as [->|Hk].
  - rewrite bool_decide_eq_true_2 by done. cbn. rewrite IH. by repeat case_bool_decide.
  - rewrite bool_decide_eq_false_2 by done. cbn. rewrite IH. repeat case_bool_decide; congruence.
Qed.

Lemma map_get_elem key a m : map_get key m = Some a -> (key, a) ∈ m.
Proof.
  induction m as [|[k b] m IH]; cbn; [done|]. case_bool_decide as Hk; [intros [= ->]; subst; left|right; auto].
Qed.

Lemma map_get_none key m : map_get key m = None <-> key ∉ map fst m.
Proof.
  induction m as [|[k b] m IH]; cbn; [split; [intros _; apply not_elem_of_nil|done]|].
  rewrite not_elem_of_cons. case_bool_decide as Hk; [naive_solver|]. rewrite IH. naive_solver.
Qed.

Lemma map_set_keys key a m :
  map fst (map_set key a m) = if map_has key m then map fst m else map fst m ++ [key].
Proof.
  unfold map_has. induction m as [|[k b] m IH]; cbn; [done|]. case_bool_decide; cbn; [by subst|]. rewrite IH.
  by destruct (map_get key m).
Qed.

Lemma map_set_NoDup key a m : NoDup (map fst m) -> NoDup (map fst (map_set key a m)).
Proof.
  intros Hn. rewrite map_set_keys. unfold map_has. destruct (map_get key m) eqn:Hg; [done|].
  apply map_get_none in Hg. apply NoDup_app. split_and!; [done|set_solver|apply NoDup_singleton].
Qed.
End Maps.

Lemma findR_some {A} (test : A -> result bool) l x :
  findR test l = Ok (Some x) -> x ∈ l /\ test x = Ok true.
Proof.
  induction l as [|y l IH]; cbn; [done|]. intros (hit & Hy & Hk)%bind_ok. destruct hit.
  - injection Hk as ->. split; [left|done].
  - apply IH in Hk as [??]. split; [by right|done].
Qed.

Lemma foldR_ind {A S} (step : S -> A -> result S) (P : S -> Prop) l s s' :
  (forall s x s', x ∈ l -> P s -> step s x = Ok s' -> P s') -> P s -> foldR step s l = Ok s' -> P s'.
Proof.
  revert s. induction l as [|x l IH]; intros s Hstep Hs; cbn; [by intros [= <-]|].
  intros (s1 & Hx & Hl)%bind_ok. apply (IH s1); [|by eapply Hstep; [left| |]|done].
  intros ????. apply Hstep. by right.
Qed.

Lemma get_ok key v a : get key v = Ok a -> getOpt key v = a.
Proof. destruct v; cbn; congruence. Qed.

Lemma strictEqual_str a s : strictEqual a (Str s) = true <-> a = Str s.
Proof.
  destruct a as [| | |[]| | |]; cbn; try (split; done). rewrite bool_decide_eq_true. split; [by intros ->|by intros [= ->]].
Qed.

Lemma isStr_true s v : isStr s v = true <-> v = Str s.
Proof.
  destruct v; cbn; try (split; done). rewrite bool_decide_eq_true. split; [by intros ->|by intros [= ->]].
Qed.

Lemma isInt_true z v : isInt z v = true <-> v = Num (Int z).
Proof. destruct v as [| | |[]| | |]; cbn; try (split; done). rewrite Z.eqb_eq. split; congruence. Qed.

(** A call that does not end by running out of the fuel of a walk. *)
Definition finished {A} (r : result A) : Prop := r <> Throw "out of fuel".

Lemma finished_bind {A B} (r : result A) (f : A -> result B) :
  finished r -> (forall a, r = Ok a -> finished (f a)) -> finished (r ≫= f).
Proof. unfold finished. destruct r as [a|e]; cbn; [intros _ Hf; by apply Hf|intros Hr _ [= ->]; by apply Hr]. Qed.

Lemma finished_get key v : finished (get key v).
Proof. by destruct v. Qed.

Lemma finished_canonical leb v : finished (canonicalizeJsonWithOrder leb v).
Proof.
  assert (forall A B (f : A -> result B) l, Forall (fun x => finished (f x)) l -> finished (mapR f l)) as HmapR.
  { intros A B f l Hl. induction Hl as [|x l Hx _ IH]; [done|]. cbn. unfold finished in *.
    destruct (f x); [|congruence]. destruct (mapR f l); [done|congruence]. }
  unfold finished. induction v as [v Hatom|items IH|members IH] using value_ind'.
  - by destruct v as [| | |[]| | |]; cbn in *.
  - cbn. apply HmapR in IH. unfold finished in *. by destruct (mapR _ items); [|congruence].
  - cbn. match goal with |- context [mapR ?f members] => assert (finished (mapR f members)) as Hm end.
    { apply HmapR. eapply Forall_impl; [exact IH|]. intros [k v]. cbn. unfold finished.
      intros Hv. by destruct (canonicalizeJsonWithOrder leb v); [|congruence]. }
    unfold finished in Hm. by destruct (mapR _ members); [|congruence].
Qed.

Lemma finished_foldR {A S} (step : S -> A -> result S) s l :
  (forall s x, x ∈ l -> finished (step s x)) -> finished (foldR step s l).
Proof.
  revert s. induction l as [|x l IH]; intros s Hstep; cbn; [done|].
  apply finished_bind; [apply Hstep; left|]. intros s' _. apply IH. intros; apply Hstep. by right.
Qed.

Lemma finished_findR {A} (test : A -> result bool) l :
  (forall x, x ∈ l -> finished (test x)) -> finished (findR test l).
Proof.
  induction l as [|x l IH]; intros Hstep; cbn; [done|].
  apply finished_bind; [apply Hstep; left|]. intros [] _; [done|]. apply IH. intros; apply Hstep. by right.
Qed.

Lemma map_set_fresh {A} key (a : A) m : map_has key m = false -> map_set key a m = m ++ [(key, a)].
Proof.
  unfold map_has. induction m as [|[k b] m IH]; cbn; [done|]. case_bool_decide; [done|]. intros Hm. by rewrite IH.
Qed.

Lemma map_has_elem {A} key (m : list (list N * A)) : map_has key m = true <-> key ∈ map fst m.
Proof.
  unfold map_has. pose proof (map_get_none key m) as Hn. destruct (map_get key m) as [a|]; split; try done.
  - intros _. destruct (decide (key ∈ map fst m)) as [|Hk]; [done|]. by apply Hn in Hk.
  - intros Hk. by destruct (proj1 Hn eq_refl).
Qed.

Lemma elem_map_get {A} key (a : A) m : NoDup (map fst m) -> (key, a) ∈ m -> map_get key m = Some a.
Proof.
  induction m as [|[k b] m IH]; cbn; [by intros _ ?%elem_of_nil|]. intros [Hk Hn]%NoDup_cons [[= -> ->]|Hin]%elem_of_cons.
  - by rewrite bool_decide_eq_true_2.
  - rewrite bool_decide_eq_false_2; [by apply IH|]. intros ->. apply Hk. apply list_elem_of_fmap. by exists (key, a).
Qed.

Lemma filterR_ok {A} (test : A -> result bool) l kept :
  filterR test l = Ok kept -> forall x, x ∈ kept <-> x ∈ l /\ test x = Ok true.
Proof.
  revert kept. induction l as [|y l IH]; intros kept; cbn.
  - intros [= <-] x. split; [by intros ?%elem_of_nil|by intros [?%elem_of_nil _]].
  - intros (hit & Hy & (rest & Hl & [= <-])%bind_ok)%bind_ok x. specialize (IH _ Hl x).
    destruct hit; rewrite ?elem_of_cons, IH; [split; [naive_solver|]|].
    + intros [[->|Hx] Ht]; auto.
    + split; [naive_solver|]. intros [[->|Hx] Ht]; [congruence|done].
Qed.

Lemma foldR_all {A} (check : A -> result unit) l :
  foldR (fun _ x => check x) tt l = Ok tt <-> forall x, x ∈ l -> check x = Ok tt.
Proof.
  induction l as [|y l IH]; cbn; [split; [by intros _ ? ?%elem_of_nil|done]|]. split.
  - intros ([] & Hy & Hl)%bind_ok x [->|Hx]%elem_of_cons; [done|]. by apply IH.
  - intros Hall. rewrite (Hall y ltac:(left)). cbn. apply IH. intros x Hx. apply Hall. by right.
Qed.

(** ** Members of values that differ in member order *)
Lemma member_perm key ms ms' : ms ≡ₚ ms' -> NoDup (map fst ms) -> member key ms = member key ms'.
Proof.
  induction 1 as [|[k v] l l' Hp IH|[k v] [k' v'] l|l1 l2 l3 H12 IH12 H23 IH23]; cbn; intros Hn; [done|..].
  - apply NoDup_cons in Hn as [_ Hn]. case_bool_decide; auto.
  - apply NoDup_cons in Hn as [Hk _]. repeat case_bool_decide; subst; try done. set_solver.
  - rewrite IH12 by done. apply IH23. by rewrite <-H12.
Qed.

Lemma getOpt_normal leb key v : plain v -> getOpt key (normal leb v) = normal leb (getOpt key v).
Proof.
  destruct v as [| | | | | |ms]; cbn [getOpt normal]; try done. intros [_ Hn]%plain_members.
  rewrite <-(member_perm key (map (fun '(k, item) => (k, normal leb item)) ms));
    [|symmetry; apply sortBy_perm|replace (map fst (map _ ms)) with (map fst ms) by (rewrite map_map; by apply map_ext; intros []); done].
  clear Hn. induction ms as [|[k v] ms IH]; cbn; [done|]. by case_bool_decide.
Qed.

Lemma plain_get key v : plain v -> getOpt key v = Undefined \/ plain (getOpt key v).
Proof.
  destruct v as [| | | | | |ms]; cbn [getOpt]; auto. intros [Hall _]%plain_members. induction Hall as [|[k v] ms [_ Hv] _ IH]; cbn; [by left|].
  case_bool_decide; [by right|done].
Qed.

Lemma same_get key v v' : plain v -> plain v' -> same v v' -> same (getOpt key v) (getOpt key v').
Proof. unfold same. intros Hv Hv' He. rewrite <-!getOpt_normal by done. by rewrite He. Qed.

(** Two steps down, where the first may be missing. *)
Lemma same_get2 key key' v v' :
  plain v -> plain v' -> same v v' -> same (getOpt key' (getOpt key v)) (getOpt key' (getOpt key v')).
Proof.
  intros Hv Hv' He. pose proof (same_get key _ _ Hv Hv' He) as Hs.
  destruct (plain_get key v Hv) as [Hu|Hp], (plain_get key v' Hv') as [Hu'|Hp']; [|..|by apply same_get];
    unfold same in Hs; rewrite ?Hu, ?Hu' in *; [done|..].
  - by destruct (getOpt key v'); cbn in Hs.
  - by destruct (getOpt key v); cbn in Hs.
Qed.

Lemma same_str s v : same (Str s) v <-> v = Str s.
Proof. unfold same. split; [by destruct v; cbn; intros [=]; subst|by intros ->]. Qed.

Lemma map_set_Forall {A} (P : list N * A -> Prop) key a m : Forall P m -> P (key, a) -> Forall P (map_set key a m).
Proof.
  intros Hm Ha. induction Hm as [|[k b] m Hb Hm IH]; cbn; [by constructor|]. case_bool_decide; [subst; by constructor|by constructor].
Qed.

Lemma member_elem key ms : member key ms <> Undefined -> (key, member key ms) ∈ ms.
Proof. induction ms as [|[k v] ms IH]; cbn; [done|]. case_bool_decide; subst; [left|intros; right; auto]. Qed.

Lemma intText_inj x y : isSafeInteger x -> isSafeInteger y -> intText x = intText y -> x = y.
Proof.
  unfold isSafeInteger. rewrite !andb_True, !Is_true_true, !Z.leb_le. intros Hx Hy He.
  pose proof (parseNumber_intText x [] Hx I) as Px. pose proof (parseNumber_intText y [] Hy I) as Py. rewrite He in Px. congruence.
Qed.
