(* ===== verification/Base64.v ===== *)
(** * Base64url

    [toBase64Url], [fromBase64Url] of [packages/mesh-identity/src/index.ts],
    over a model of the platform's [btoa] and [atob]. *)
From stdpp Require Import base numbers list strings.
From Stdlib Require Import ZArith NArith Lia.
From S2P Require Import Prelude Unicode.
Local Open Scope N_scope.

Definition char64 (n : N) : N :=
  if n <? 26 then 65 + n else if n <? 52 then 71 + n else if n <? 62 then n - 4
  else if n =? 62 then 43 else 47.

Definition value64 (c : N) : option N :=
  if (65 <=? c) && (c <=? 90) then Some (c - 65)
  else if (97 <=? c) && (c <=? 122) then Some (c - 71)
  else if (48 <=? c) && (c <=? 57) then Some (c + 4)
  else if c =? 43 then Some 62
  else if c =? 47 then Some 63
  else None.

(** [btoa] of a string of bytes. *)
Fixpoint btoa (bytes : list N) : list N :=
  match bytes with
  | a :: b :: c :: rest =>
      char64 (a / 4) :: char64 (a mod 4 * 16 + b / 16) :: char64 (b mod 16 * 4 + c / 64) ::
      char64 (c mod 64) :: btoa rest
  | [a; b] => [char64 (a / 4); char64 (a mod 4 * 16 + b / 16); char64 (b mod 16 * 4); 61]
  | [a] => [char64 (a / 4); char64 (a mod 4 * 16); 61; 61]
  | [] => []
  end.

(** [atob]: ASCII whitespace is dropped, then up to two trailing [=] of a text
    whose length is a multiple of four; the bits that do not fill a byte are
    discarded. *)
Definition asciiWhitespace (c : N) : bool :=
  (c =? 9) || (c =? 10) || (c =? 12) || (c =? 13) || (c =? 32).

Definition dropOnePad (s : list N) : list N :=
  match last s with Some 61 => take (length s - 1) s | _ => s end.

Fixpoint decode64 (s : list N) : option (list N) :=
  match s with
  | w :: x :: y :: z :: rest =>
      match value64 w, value64 x, value64 y, value64 z, decode64 rest with
      | Some w, Some x, Some y, Some z, Some bytes =>
          Some (w * 4 + x / 16 :: x mod 16 * 16 + y / 4 :: y mod 4 * 64 + z :: bytes)
      | _, _, _, _, _ => None
      end
  | [w; x; y] =>
      match value64 w, value64 x, value64 y with
      | Some w, Some x, Some y => Some [w * 4 + x / 16; x mod 16 * 16 + y / 4]
      | _, _, _ => None
      end
  | [w; x] =>
      match value64 w, value64 x with Some w, Some x => Some [w * 4 + x / 16] | _, _ => None end
  | [_] => None
  | [] => Some []
  end.

Definition atob (text : list N) : result (list N) :=
  let s := List.filter (fun c => negb (asciiWhitespace c)) text in
  let s := if (length s mod 4 =? 0)%nat then dropOnePad (dropOnePad s) else s in
  match decode64 s with
  | Some bytes => Ok bytes
  | None => Throw "The string to be decoded is not correctly encoded."
  end.

(** [s.replace(/x/g, y)] for single characters *)
Definition replaceAll (x y : N) (s : list N) : list N := map (fun c => if c =? x then y else c) s.

(** [s.replace(/=+$/, [])]: drops the trailing run of padding. *)
Fixpoint stripPads (s : list N) : list N :=
  match s with
  | [] => []
  | c :: rest =>
      match stripPads rest with
      | [] => if c =? 61 then [] else [c]
      | rest' => c :: rest'
      end
  end.

Definition toBase64Url (bytes : list N) : list N :=
  stripPads (replaceAll 47 95 (replaceAll 43 45 (btoa bytes))).

(** [while (base64.length % 4 !== 0) base64 += "="] stops after at most three
    rounds. *)
Fixpoint padTo4 (fuel : nat) (s : list N) : list N :=
  match fuel with
  | O => s
  | S fuel => if (length s mod 4 =? 0)%nat then s else padTo4 fuel (s ++ [61])
  end.

Definition fromBase64Url (text : list N) : result (list N) :=
  atob (padTo4 3 (replaceAll 95 47 (replaceAll 45 43 text))).

(** The alphabet of the url-safe form: [A-Za-z0-9_-]. *)
Definition urlChar (c : N) : bool :=
  ((65 <=? c) && (c <=? 90)) || ((97 <=? c) && (c <=? 122)) || ((48 <=? c) && (c <=? 57)) ||
  (c =? 45) || (c =? 95).

Definition isByte (b : N) : bool := b <? 256.

(** ** Facts *)
Lemma three_ind {A} (P : list A -> Prop) :
  P [] -> (forall a, P [a]) -> (forall a b, P [a; b]) ->
  (forall a b c l, P l -> P (a :: b :: c :: l)) -> forall l, P l.
Proof.
  intros H0 H1 H2 H3 l. remember (length l) as n eqn:Hn. revert l Hn.
  induction n as [n IH] using (well_founded_induction lt_wf). intros l ->.
  destruct l as [|a [|b [|c l]]]; auto. apply H3, (IH (length l)); cbn; [lia|done].
Qed.

(** The text of [btoa] without its padding, and the padding. *)
Fixpoint encode64 (bytes : list N) : list N :=
  match bytes with
  | a :: b :: c :: rest =>
      char64 (a / 4) :: char64 (a mod 4 * 16 + b / 16) :: char64 (b mod 16 * 4 + c / 64) ::
      char64 (c mod 64) :: encode64 rest
  | [a; b] => [char64 (a / 4); char64 (a mod 4 * 16 + b / 16); char64 (b mod 16 * 4)]
  | [a] => [char64 (a / 4); char64 (a mod 4 * 16)]
  | [] => []
  end.

Definition pads (n : nat) : list N := match (n mod 3)%nat with 1%nat => [61; 61] | 2%nat => [61] | _ => [] end.

Lemma btoa_encode64 bytes : btoa bytes = encode64 bytes ++ pads (length bytes).
Proof.
  induction bytes as [|a|a b|a b c l IH] using three_ind; [done..|]. cbn [btoa encode64 length].
  rewrite IH. unfold pads. replace (S (S (S (length l)))) with (length l + 1 * 3)%nat by lia.
  by rewrite Nat.Div0.mod_add.
Qed.

Lemma value_char n : n < 64 -> value64 (char64 n) = Some n.
Proof.
  intros Hn. unfold char64.
  destruct (N.ltb_spec n 26); [|destruct (N.ltb_spec n 52); [|destruct (N.ltb_spec n 62);
    [|destruct (N.eqb_spec n 62) as [->|]]]]; unfold value64; try done.
  1-3: decide_ranges; cbn [andb]; f_equal; lia.
  by replace n with 63 by lia.
Qed.

(** Base-4, 16 and 64 digits of a byte. *)
Lemma byte_digits a :
  a < 256 ->
  a / 4 < 64 /\ a mod 4 < 4 /\ a = a / 4 * 4 + a mod 4 /\
  a / 16 < 16 /\ a mod 16 < 16 /\ a = a / 16 * 16 + a mod 16 /\
  a / 64 < 4 /\ a mod 64 < 64 /\ a = a / 64 * 64 + a mod 64.
Proof.
  intros Ha. split_and!; try (apply N.mod_lt; lia); try (apply N.Div0.div_lt_upper_bound; lia);
    rewrite N.mul_comm; apply N.div_mod'.
Qed.

Lemma join_div a b k : b < k -> (a * k + b) / k = a /\ (a * k + b) mod k = b.
Proof.
  intros Hb. split.
  - rewrite N.div_add_l by lia. rewrite N.div_small by done. lia.
  - rewrite N.add_comm, N.Div0.mod_add. by apply N.mod_small.
Qed.

Lemma decode_encode64 bytes : Forall isByte bytes -> decode64 (encode64 bytes) = Some bytes.
Proof.
  unfold isByte. intros H.
  assert (Forall (fun b => b < 256) bytes) as H'
    by (eapply Forall_impl; [exact H|]; intros x; by rewrite Is_true_true, N.ltb_lt). clear H.
  induction bytes as [|a|a b|a b c l IH] using three_ind; [done|..]; cbn [encode64 decode64].
  - apply Forall_cons in H' as [Ha _]. destruct (byte_digits a Ha) as (?&?&Ea&_).
    rewrite !value_char by lia. rewrite N.div_mul by lia. do 2 f_equal. lia.
  - rewrite !Forall_cons in H'. destruct H' as (Ha & Hb & _).
    destruct (byte_digits a Ha) as (?&?&Ea&_). destruct (byte_digits b Hb) as (_&_&_&?&?&Eb&_).
    rewrite !value_char by lia. rewrite N.div_mul by lia.
    destruct (join_div (a mod 4) (b / 16) 16) as [-> ->]; [done|]. do 2 f_equal; [lia|]. f_equal. lia.
  - rewrite !Forall_cons in H'. destruct H' as (Ha & Hb & Hc & Hl).
    destruct (byte_digits a Ha) as (?&?&Ea&_). destruct (byte_digits b Hb) as (_&_&_&?&?&Eb&_).
    destruct (byte_digits c Hc) as (_&_&_&_&_&_&?&?&Ec).
    rewrite !value_char by lia. rewrite IH by done.
    destruct (join_div (a mod 4) (b / 16) 16) as [-> ->]; [done|].
    destruct (join_div (b mod 16) (c / 64) 4) as [-> ->]; [done|].
    do 2 f_equal; [lia|]. f_equal; [lia|]. f_equal. lia.
Qed.

Lemma value64_char c n :
  value64 c = Some n -> c <> 61 /\ asciiWhitespace c = false /\ c <> 45 /\ c <> 95.
Proof.
  intros H.
  assert (forall d, value64 d = None -> c <> d) as Hne by (intros d Hd ->; congruence).
  unfold asciiWhitespace. rewrite !(proj2 (N.eqb_neq c _)) by by apply Hne.
  by split_and!; try apply Hne.
Qed.

Lemma encode64_chars bytes : Forall isByte bytes -> Forall (fun c => is_Some (value64 c)) (encode64 bytes).
Proof.
  unfold isByte. intros H.
  assert (Forall (fun b => b < 256) bytes) as H'
    by (eapply Forall_impl; [exact H|]; intros x; by rewrite Is_true_true, N.ltb_lt). clear H.
  assert (forall n, n < 64 -> is_Some (value64 (char64 n))) as Hc by (intros; rewrite value_char by done; eauto).
  induction bytes as [|a|a b|a b c l IH] using three_ind; [constructor|..]; cbn [encode64];
    rewrite !Forall_cons in H'.
  - destruct H' as (Ha & _). destruct (byte_digits a Ha) as (?&?&_). repeat constructor; apply Hc; lia.
  - destruct H' as (Ha & Hb & _). destruct (byte_digits a Ha) as (?&?&_).
    destruct (byte_digits b Hb) as (_&_&_&?&?&_). repeat constructor; apply Hc; lia.
  - destruct H' as (Ha & Hb & Hcb & Hl). destruct (byte_digits a Ha) as (?&?&_).
    destruct (byte_digits b Hb) as (_&_&_&?&?&_). destruct (byte_digits c Hcb) as (_&_&_&_&_&_&?&?&_).
    repeat (constructor; [apply Hc; lia|]). by apply IH.
Qed.

Lemma encode64_length bytes : length (encode64 bytes) = ((length bytes * 4 + 2) / 3)%nat.
Proof.
  induction bytes as [|a|a b|a b c l IH] using three_ind; [done..|]. cbn [encode64 length]. rewrite IH.
  replace (S (S (S (length l))) * 4 + 2)%nat with (4 * 3 + (length l * 4 + 2))%nat by lia.
  rewrite Nat.div_add_l by lia. lia.
Qed.

Lemma encode64_padded bytes : ((length (encode64 bytes) + length (pads (length bytes))) mod 4 = 0)%nat.
Proof.
  rewrite <- length_app, <- btoa_encode64.
  induction bytes as [|a|a b|a b c l IH] using three_ind; [done..|]. cbn [btoa length].
  replace (S (S (S (S (length (btoa l)))))) with (length (btoa l) + 1 * 4)%nat by lia.
  by rewrite Nat.Div0.mod_add.
Qed.

Lemma stripPads_app s t : Forall (fun c => c <> 61) s -> t = [] \/ t = [61] \/ t = [61; 61] -> stripPads (s ++ t) = s.
Proof.
  intros Hs Ht. induction Hs as [|c s Hc Hs IH]; cbn.
  - destruct Ht as [-> | [-> | ->]]; done.
  - rewrite IH. destruct s; [|done]. by rewrite (proj2 (N.eqb_neq c 61)).
Qed.

Lemma pads_cases n : pads n = [] \/ pads n = [61] \/ pads n = [61; 61].
Proof. unfold pads. destruct (n mod 3)%nat as [|[|[]]]; auto. Qed.

(** Making the text url-safe can be undone. *)
Definition urlSafe (s : list N) : list N := replaceAll 47 95 (replaceAll 43 45 s).

Lemma urlSafe_undo s :
  Forall (fun c => c <> 45 /\ c <> 95) s -> replaceAll 95 47 (replaceAll 45 43 (urlSafe s)) = s.
Proof.
  unfold urlSafe, replaceAll. rewrite !map_map. intros H.
  induction H as [|c s [H1 H2] _ IH]; cbn; [done|]. rewrite IH. f_equal.
  destruct (N.eqb_spec c 43) as [->|]; [done|]. destruct (N.eqb_spec c 47) as [->|]; [done|].
  by rewrite (proj2 (N.eqb_neq c 45)), (proj2 (N.eqb_neq c 95)).
Qed.

Lemma toBase64Url_encode64 bytes : Forall isByte bytes -> toBase64Url bytes = urlSafe (encode64 bytes).
Proof.
  intros Hb. unfold toBase64Url, urlSafe. rewrite btoa_encode64. unfold replaceAll. rewrite !map_app.
  assert (map (fun c => if c =? 47 then 95 else c) (map (fun c => if c =? 43 then 45 else c) (pads (length bytes)))
    = pads (length bytes)) as -> by (destruct (pads_cases (length bytes)) as [-> | [-> | ->]]; done).
  apply stripPads_app; [|apply pads_cases].
  rewrite map_map. apply Forall_map. eapply Forall_impl; [by apply encode64_chars|].
  intros c [n Hn]. apply value64_char in Hn as (? & _). cbn.
  destruct (N.eqb_spec c 43) as [->|]; [done|]. by destruct (N.eqb_spec c 47) as [->|].
Qed.

Lemma padTo4_encode64 bytes :
  padTo4 3 (encode64 bytes) = encode64 bytes ++ pads (length bytes).
Proof.
  pose proof (encode64_padded bytes) as Hp.
  assert (forall k, (length (encode64 bytes) + k) mod 4 = (length (encode64 bytes) mod 4 + k) mod 4)%nat as Hmod
    by (intros; by rewrite Nat.Div0.add_mod_idemp_l).
  rewrite Hmod in Hp. pose proof (Nat.mod_upper_bound (length (encode64 bytes)) 4 ltac:(lia)) as Hlt.
  assert (forall t, length (encode64 bytes ++ t) = length (encode64 bytes) + length t)%nat as Hlen
    by (intros; apply length_app).
  cbn [padTo4]. rewrite <- !app_assoc. cbn [app]. rewrite !Hlen, !Hmod.
  destruct (pads_cases (length bytes)) as [E | [E | E]]; rewrite E in *; cbn [length] in *;
    destruct (length (encode64 bytes) mod 4)%nat as [|[|[|[|m]]]]; try (cbn in Hp; lia); try lia;
    cbn; by rewrite ?app_nil_r.
Qed.

Lemma dropOnePad_snoc s : dropOnePad (s ++ [61]) = s.
Proof. unfold dropOnePad. rewrite last_snoc, length_app, Nat.add_sub. by rewrite take_app_length. Qed.

Lemma dropOnePad_none s : Forall (fun c => c <> 61) s -> dropOnePad s = s.
Proof.
  intros H. unfold dropOnePad. destruct (last s) as [c|] eqn:Hl; [|done].
  apply last_Some_elem_of in Hl. rewrite Forall_forall in H. specialize (H c Hl).
  repeat case_match; done.
Qed.

Lemma from_toBase64Url bytes : Forall isByte bytes -> fromBase64Url (toBase64Url bytes) = Ok bytes.
Proof.
  intros Hb. unfold fromBase64Url. rewrite toBase64Url_encode64 by done.
  pose proof (encode64_chars bytes Hb) as Hc.
  assert (Forall (fun c => c <> 61 /\ asciiWhitespace c = false /\ c <> 45 /\ c <> 95) (encode64 bytes)) as Hall.
  { eapply Forall_impl; [exact Hc|]. intros c [n Hn]. by eapply value64_char. }
  rewrite urlSafe_undo by (eapply Forall_impl; [exact Hall|]; cbn; tauto).
  rewrite padTo4_encode64. unfold atob.
  assert (List.filter (fun c => negb (asciiWhitespace c)) (encode64 bytes ++ pads (length bytes))
    = encode64 bytes ++ pads (length bytes)) as ->.
  { apply forallb_filter_id, forallb_forall. intros c [Hin|Hin]%in_app_iff.
    - rewrite Forall_forall in Hall. apply list_elem_of_In in Hin. by destruct (Hall c Hin) as (_ & -> & _).
    - destruct (pads_cases (length bytes)) as [E | [E | E]]; rewrite E in Hin; cbn in Hin; naive_solver. }
  rewrite length_app, encode64_padded. cbn [Nat.eqb].
  assert (Forall (fun c => c <> 61) (encode64 bytes)) as Hne by (eapply Forall_impl; [exact Hall|]; cbn; tauto).
  assert (dropOnePad (dropOnePad (encode64 bytes ++ pads (length bytes))) = encode64 bytes) as ->.
  { destruct (pads_cases (length bytes)) as [-> | [-> | ->]].
    - by rewrite app_nil_r, !dropOnePad_none by (rewrite ?dropOnePad_none; done).
    - by rewrite dropOnePad_snoc, dropOnePad_none.
    - change [61; 61] with ([61] ++ [61]). by rewrite app_assoc, !dropOnePad_snoc. }
  by rewrite decode_encode64.
Qed.

Lemma toBase64Url_chars bytes : Forall isByte bytes -> Forall urlChar (toBase64Url bytes).
Proof.
  intros Hb. rewrite toBase64Url_encode64 by done. unfold urlSafe, replaceAll. rewrite map_map.
  apply Forall_map. eapply Forall_impl; [by apply encode64_chars|]. intros c [n Hn]. cbn.
  unfold value64 in Hn. unfold urlChar.
  destruct (N.eqb_spec c 43) as [->|]; [done|]. destruct (N.eqb_spec c 47) as [->|]; [done|].
  repeat case_match; simplify_eq; try done;
  repeat match goal with H : _ = true |- _ => rewrite H; cbn [orb]; rewrite ?orb_true_r; done end.
Qed.

Lemma toBase64Url_length bytes :
  Forall isByte bytes -> length (toBase64Url bytes) = ((length bytes * 4 + 2) / 3)%nat.
Proof.
  intros Hb. rewrite toBase64Url_encode64 by done. unfold urlSafe, replaceAll.
  by rewrite !length_map, encode64_length.
Qed.

(** ** Theorems *)

(** Base64url round trip.  Every byte string decodes back from its
    base64url form, whose length is the number of bytes times 4/3 rounded up
    and whose characters are all of [A-Za-z0-9_-]; so 32 bytes (a digest or a
    public key) are always 43 such characters. *)
Theorem base64url_roundtrip (bytes : list N) :
  Forall isByte bytes ->
  fromBase64Url (toBase64Url bytes) = Ok bytes /\ Forall urlChar (toBase64Url bytes) /\
  length (toBase64Url bytes) = ((length bytes * 4 + 2) / 3)%nat.
Proof.
  intros Hb. split_and!; [by apply from_toBase64Url|by apply toBase64Url_chars|by apply toBase64Url_length].
Qed.

Lemma base64url_roundtrip_witness :
  fromBase64Url (toBase64Url [251; 255; 0; 62]) = Ok [251; 255; 0; 62] /\
  toBase64Url [251; 255; 0; 62] = js "-_8APg".
Proof.
  split; [|reflexivity].
  apply (base64url_roundtrip [251; 255; 0; 62]). repeat constructor.
Defined.
