(* ===== verification/Digest.v ===== *)
(** * Digests and key identifiers

    [sha256Base64Url] and [publicKeyId] of
    [packages/mesh-identity/src/index.ts] over the platform's SHA-256, which is
    a parameter: a function from bytes to 32 bytes.  Nothing is assumed about
    collisions; theorems that need two digests to differ either ask for it of
    the byte strings at hand or exhibit the collision. *)
From stdpp Require Import base numbers list strings.
From Stdlib Require Import ZArith NArith Lia.
From S2P Require Import Prelude Unicode Base64.

Class Sha256 := {
  sha256 : list N -> list N;
  sha256_length bytes : length (sha256 bytes) = 32%nat;
  sha256_bytes bytes : Forall isByte (sha256 bytes) }.

Section Digest.
Context `{Sha256}.
Local Open Scope N_scope.

Definition sha256Base64Url (data : list N) : list N := toBase64Url (sha256 data).

Definition publicKeyId (publicKey : list N) : result (list N) :=
  bytes ← fromBase64Url publicKey;
  if negb (length bytes =? 32)%nat then Throw "Invalid public key"
  else Ok (sha256Base64Url bytes).

(** [/^[A-Za-z0-9_-]{43}$/] *)
Definition digest43 (s : list N) : bool := (length s =? 43)%nat && forallb urlChar s.

(** [/^[A-Za-z0-9_-]{42}[AEIMQUYcgkosw048]$/]: the last character of 43 leaves
    no bits over. *)
Definition lastDigestChar (c : N) : bool :=
  bool_decide (c ∈ js "AEIMQUYcgkosw048").

Definition digestPattern (s : list N) : bool :=
  (length s =? 43)%nat && forallb urlChar (take 42 s) &&
  match last s with Some c => lastDigestChar c | None => false end.

Lemma sha256Base64Url_digest43 data : digest43 (sha256Base64Url data).
Proof.
  unfold digest43, sha256Base64Url.
  rewrite toBase64Url_length, sha256_length by apply sha256_bytes. cbn.
  apply Is_true_true, forallb_forall. intros c Hc%list_elem_of_In.
  pose proof (toBase64Url_chars _ (sha256_bytes data)) as Hu. rewrite Forall_forall in Hu.
  by apply Is_true_true, Hu.
Qed.

(** The last sextet of 32 bytes holds four bits. *)
Lemma encode64_last (l : list N) a b :
  (length l mod 3 = 0)%nat -> last (encode64 (l ++ [a; b])) = Some (char64 (b mod 16 * 4)).
Proof.
  induction l as [|x|x y|x y z l IH] using three_ind; [done..|].
  intros Hl. cbn [length] in Hl. replace (S (S (S (length l)))) with (length l + 1 * 3)%nat in Hl by lia.
  rewrite Nat.Div0.mod_add in Hl. cbn [app encode64].
  specialize (IH Hl). destruct (encode64 (l ++ [a; b])) as [|c s] eqn:He; [done|].
  by rewrite !last_cons_cons.
Qed.

Lemma sha256Base64Url_pattern data : digestPattern (sha256Base64Url data).
Proof.
  pose proof (sha256Base64Url_digest43 data) as Hd. unfold digest43 in Hd.
  rewrite andb_True, !Is_true_true, Nat.eqb_eq, forallb_forall in Hd. destruct Hd as [Hlen Hchars].
  unfold digestPattern. rewrite Hlen, !andb_True. split; [split; [done|]|].
  - apply Is_true_true, forallb_forall. intros c Hc. apply Hchars, list_elem_of_In.
    apply list_elem_of_In in Hc. by eapply elem_of_take in Hc as (i & ? & ?); eapply list_elem_of_lookup_2.
  - unfold sha256Base64Url. rewrite toBase64Url_encode64 by apply sha256_bytes.
    pose proof (sha256_length data) as H32. pose proof (sha256_bytes data) as Hb.
    rewrite <- (take_drop 30 (sha256 data)).
    destruct (drop 30 (sha256 data)) as [|a [|b [|c l]]] eqn:Hdr;
      apply (f_equal length) in Hdr as Hl; rewrite length_drop, H32 in Hl; cbn in Hl; try lia.
    assert (last (encode64 (take 30 (sha256 data) ++ [a; b])) = Some (char64 (b mod 16 * 4))) as Hlast.
    { apply encode64_last. by rewrite length_take, H32. }
    unfold urlSafe, replaceAll. rewrite !fmap_last, Hlast. cbn [fmap option_fmap option_map].
    pose proof (N.mod_lt b 16 ltac:(lia)) as Hm. revert Hm. generalize (b mod 16). intros m Hm.
    assert (m ∈ [0;1;2;3;4;5;6;7;8;9;10;11;12;13;14;15]) as Hin.
    { assert (m = 0 \/ m = 1 \/ m = 2 \/ m = 3 \/ m = 4 \/ m = 5 \/ m = 6 \/ m = 7 \/ m = 8 \/ m = 9 \/
        m = 10 \/ m = 11 \/ m = 12 \/ m = 13 \/ m = 14 \/ m = 15) by lia.
      rewrite list_elem_of_In. cbn. intuition. }
    rewrite list_elem_of_In in Hin. cbn in Hin.
    repeat destruct Hin as [<-|Hin]; [vm_compute; exact I..|done].
Qed.
End Digest.

(** A digest to run the definitions with: 32 bytes spread from a polynomial
    checksum of the input. *)
Definition checksum (bytes : list N) : list N :=
  let mask := 2305843009213693951%N in
  let h := fold_left (fun h b => N.land (h * 257 + b + 1) mask)%N bytes 7%N in
  map (fun i => N.land (N.shiftr (N.land (h * 1140071481932319849 * (2 * i + 1)) mask) 40) 255)%N (map N.of_nat (seq 0 32)).

#[local] Instance checksumSha256 : Sha256.
Proof.
  refine {| sha256 := checksum |}.
  - intros bytes. unfold checksum. by rewrite !length_map, length_seq.
  - intros bytes. unfold checksum. apply Forall_forall. intros b (i & -> & _)%list_elem_of_fmap.
    unfold isByte. apply Is_true_true, N.ltb_lt. change 255%N with (N.ones 8). rewrite N.land_ones. by apply N.mod_lt.
Defined.
