(* ===== verification/Dates.v ===== *)
(** * Time stamps

    [Date.prototype.toISOString] and the check with which the packages accept a
    time stamp, [Number.isFinite(Date.parse(s)) && new Date(Date.parse(s)).toISOString() === s].
    Times are milliseconds since 1970 within the range of [Date]. *)
From stdpp Require Import base numbers list strings.
From Stdlib Require Import ZArith NArith Lia.
From S2P Require Import Prelude Unicode Json.
Local Open Scope Z_scope.

Definition msPerDay : Z := 86400000.
Definition MAX_TIME : Z := 8640000000000000.

(** The day of a date, counted from 1970-01-01, and its inverse: years are
    taken from March, in cycles of 400 years of 146097 days. *)
Definition daysFromCivil (year month day : Z) : Z :=
  let y := if month <=? 2 then year - 1 else year in
  let era := y / 400 in
  let yoe := y mod 400 in
  let doy := (153 * (if month <=? 2 then month + 9 else month - 3) + 2) / 5 + day - 1 in
  era * 146097 + (yoe * 365 + yoe / 4 - yoe / 100 + doy) - 719468.

Definition civilFromDays (days : Z) : Z * Z * Z :=
  let z := days + 719468 in
  let era := z / 146097 in
  let doe := z mod 146097 in
  let yoe := (doe - doe / 1460 + doe / 36524 - doe / 146096) / 365 in
  let doy := doe - (365 * yoe + yoe / 4 - yoe / 100) in
  let mp := (5 * doy + 2) / 153 in
  let month := if mp <? 10 then mp + 3 else mp - 9 in
  (yoe + era * 400 + (if month <=? 2 then 1 else 0), month, doy - (153 * mp + 2) / 5 + 1).

(** [n] in [width] decimal digits *)
Fixpoint padded (width : nat) (n : Z) : list N :=
  match width with
  | O => []
  | S width => padded width (n / 10) ++ [Z.to_N (48 + n mod 10)]
  end.

Fixpoint readDigits (acc : Z) (s : list N) : option Z :=
  match s with
  | [] => Some acc
  | u :: rest => if (48 <=? u)%N && (u <=? 57)%N then readDigits (acc * 10 + (Z.of_N u - 48)) rest else None
  end.

Definition yearText (year : Z) : list N :=
  if (0 <=? year) && (year <=? 9999) then padded 4 year
  else if year <? 0 then 45%N :: padded 6 (- year) else 43%N :: padded 6 year.

(** [new Date(t).toISOString()], which throws outside the range *)
Definition toISOString (t : Z) : option (list N) :=
  if Z.abs t <=? MAX_TIME then
    let days := t / msPerDay in
    let ms := t mod msPerDay in
    let '(year, month, day) := civilFromDays days in
    Some (yearText year ++ js "-" ++ padded 2 month ++ js "-" ++ padded 2 day ++ js "T" ++
      padded 2 (ms / 3600000) ++ js ":" ++ padded 2 (ms / 60000 mod 60) ++ js ":" ++
      padded 2 (ms / 1000 mod 60) ++ js "." ++ padded 3 (ms mod 1000) ++ js "Z")
  else None.

(** The number in the digits at [from] of width [width]. *)
Definition field (s : list N) (from width : nat) : option Z := readDigits 0 (take width (drop from s)).

(** The year of a text, with four digits or a sign and six. *)
Definition readYear (s : list N) : option (Z * list N) :=
  match s with
  | [] => None
  | u :: rest =>
      if (u =? 43)%N then y ← field rest 0 6; Some (y, drop 6 rest)
      else if (u =? 45)%N then y ← field rest 0 6; Some (- y, drop 6 rest)
      else y ← field s 0 4; Some (y, drop 4 s)
  end.

(** The time of a text in the format of [toISOString]. *)
Definition readISO (s : list N) : option Z :=
  '(year, rest) ← readYear s;
  month ← field rest 1 2; day ← field rest 4 2; hour ← field rest 7 2; minute ← field rest 10 2;
  second ← field rest 13 2; ms ← field rest 16 3;
  Some (daysFromCivil year month day * msPerDay + hour * 3600000 + minute * 60000 + second * 1000 + ms).

(** The time of a time stamp the packages accept. *)
Definition isoTime (s : list N) : option Z :=
  t ← readISO s;
  if bool_decide (toISOString t = Some s) then Some t else None.

(** ** The calendar *)
Definition doeOk (doe : Z) : bool :=
  let yoe := (doe - doe / 1460 + doe / 36524 - doe / 146096) / 365 in
  let doy := doe - (365 * yoe + yoe / 4 - yoe / 100) in
  (0 <=? yoe) && (yoe <? 400) && (0 <=? doy) && (doy <? 366).

Fixpoint doesOk (n : nat) (doe : Z) : bool :=
  match n with O => true | S n => doeOk doe && doesOk n (doe + 1) end.

Lemma doesOk_all n doe : doesOk n doe = true -> forall d, doe <= d < doe + Z.of_nat n -> doeOk d = true.
Proof.
  revert doe. induction n as [|n IH]; intros doe; [lia|]. cbn [doesOk]. intros [Hd Hn]%andb_true_iff d Hr.
  destruct (Z.eq_dec d doe) as [->|]; [done|]. apply (IH (doe + 1)); [done|lia].
Qed.

Lemma cycle_ok doe : 0 <= doe < 146097 -> doeOk doe = true.
Proof.
  intros Hd. apply (doesOk_all (Z.to_nat 146097) 0); [vm_compute; reflexivity|]. rewrite Z2Nat.id; lia.
Qed.

Lemma days_civil days : let '(year, month, day) := civilFromDays days in
  daysFromCivil year month day = days /\ 1 <= month <= 12 /\ 1 <= day <= 31.
Proof.
  unfold civilFromDays. set (z := days + 719468). set (doe := z mod 146097).
  assert (0 <= doe < 146097) as Hdoe by (apply Z.mod_pos_bound; lia).
  pose proof (cycle_ok doe Hdoe) as Hok. unfold doeOk in Hok.
  set (yoe := (doe - doe / 1460 + doe / 36524 - doe / 146096) / 365) in *.
  set (doy := doe - (365 * yoe + yoe / 4 - yoe / 100)) in *.
  apply andb_true_iff in Hok as [[[Hy1%Z.leb_le Hy2%Z.ltb_lt]%andb_true_iff Hd1%Z.leb_le]%andb_true_iff Hd2%Z.ltb_lt].
  set (mp := (5 * doy + 2) / 153). assert (0 <= mp < 12) as Hmp by (unfold mp; split; [apply Z.div_pos; lia|apply Z.div_lt_upper_bound; lia]).
  assert (153 * mp <= 5 * doy + 2 < 153 * mp + 153) as Hmp2.
  { unfold mp. pose proof (Z.div_mod (5 * doy + 2) 153). pose proof (Z.mod_pos_bound (5 * doy + 2) 153). lia. }
  assert (5 * ((153 * mp + 2) / 5) <= 153 * mp + 2 < 5 * ((153 * mp + 2) / 5) + 5) as Hq.
  { pose proof (Z.div_mod (153 * mp + 2) 5). pose proof (Z.mod_pos_bound (153 * mp + 2) 5). lia. }
  set (q := (153 * mp + 2) / 5) in *.
  assert (forall y m, (if m <=? 2 then y + (if m <=? 2 then 1 else 0) - 1 else y + (if m <=? 2 then 1 else 0)) = y) as Hyear by (intros; destruct (_ <=? 2); lia).
  split.
  - unfold daysFromCivil. rewrite Hyear. rewrite Z.div_add, Z.mod_add by lia. rewrite (Z.div_small yoe), (Z.mod_small yoe) by lia.
    replace (if (if mp <? 10 then mp + 3 else mp - 9) <=? 2 then (if mp <? 10 then mp + 3 else mp - 9) + 9
      else (if mp <? 10 then mp + 3 else mp - 9) - 3) with mp
      by (destruct (Z.ltb_spec mp 10); [destruct (Z.leb_spec (mp + 3) 2)|destruct (Z.leb_spec (mp - 9) 2)]; lia).
    fold q. pose proof (Z.div_mod z 146097 ltac:(lia)). unfold doy, doe, z in *. lia.
  - destruct (Z.ltb_spec mp 10); lia.
Qed.

Lemma readDigits_app acc s s' : readDigits acc (s ++ s') = acc' ← readDigits acc s; readDigits acc' s'.
Proof. revert acc. induction s as [|u s IH]; intros acc; cbn; [done|]. by destruct (_ && _)%N. Qed.

Lemma readDigits_padded width n acc :
  0 <= n < 10 ^ Z.of_nat width -> readDigits acc (padded width n) = Some (acc * 10 ^ Z.of_nat width + n).
Proof.
  revert n acc. induction width as [|width IH]; intros n acc Hn; [cbn in *; f_equal; lia|]. cbn [padded].
  rewrite Nat2Z.inj_succ, Z.pow_succ_r in * by lia. pose proof (Z.div_mod n 10 ltac:(lia)) as Hdm.
  pose proof (Z.mod_pos_bound n 10 ltac:(lia)) as Hm.
  assert (0 <= n / 10 < 10 ^ Z.of_nat width) by (split; [apply Z.div_pos; lia|apply Z.div_lt_upper_bound; lia]).
  rewrite readDigits_app, IH by done. cbn. destruct (N.leb_spec 48 (Z.to_N (48 + n mod 10))), (N.leb_spec (Z.to_N (48 + n mod 10)) 57); try lia.
  cbn. f_equal. rewrite Z2N.id by lia. lia.
Qed.

Lemma padded_length width n : length (padded width n) = width.
Proof. revert n. induction width as [|width IH]; intros n; cbn; [done|]. rewrite length_app, IH. cbn. lia. Qed.

Lemma toISOString_length t text : toISOString t = Some text -> (length text <= 27)%nat.
Proof.
  unfold toISOString. case_match; [|done]. destruct (civilFromDays _) as [[year month] day]. intros Ht. apply (inj Some) in Ht as <-.
  rewrite !length_app, !padded_length. cbn [length]. unfold yearText. repeat case_match; cbn [length]; rewrite padded_length; cbn; lia.
Qed.

(** The fields of a text with the digits of its parts in place. *)
Lemma field_padded prefix width n rest from :
  length prefix = from -> 0 <= n < 10 ^ Z.of_nat width -> field (prefix ++ padded width n ++ rest) from width = Some n.
Proof.
  intros Hl Hn. unfold field. rewrite drop_app_length' by done.
  rewrite take_app_length' by by rewrite padded_length. by rewrite readDigits_padded.
Qed.

Lemma field_at prefix rest s from width n :
  s = prefix ++ padded width n ++ rest -> length prefix = from -> 0 <= n < 10 ^ Z.of_nat width -> field s from width = Some n.
Proof. intros ->. apply field_padded. Qed.

Lemma fields_read month day hour minute second ms :
  1 <= month <= 12 -> 1 <= day <= 31 -> 0 <= hour < 24 -> 0 <= minute < 60 -> 0 <= second < 60 -> 0 <= ms < 1000 ->
  let rest := js "-" ++ padded 2 month ++ js "-" ++ padded 2 day ++ js "T" ++ padded 2 hour ++ js ":" ++ padded 2 minute ++
    js ":" ++ padded 2 second ++ js "." ++ padded 3 ms ++ js "Z" in
  field rest 1 2 = Some month /\ field rest 4 2 = Some day /\ field rest 7 2 = Some hour /\
  field rest 10 2 = Some minute /\ field rest 13 2 = Some second /\ field rest 16 3 = Some ms.
Proof.
  intros. unfold rest. split_and!.
  - apply (field_at (js "-") (js "-" ++ padded 2 day ++ js "T" ++ padded 2 hour ++ js ":" ++ padded 2 minute ++ js ":" ++ padded 2 second ++ js "." ++ padded 3 ms ++ js "Z")); [done..|lia].
  - apply (field_at (js "-" ++ padded 2 month ++ js "-") (js "T" ++ padded 2 hour ++ js ":" ++ padded 2 minute ++ js ":" ++ padded 2 second ++ js "." ++ padded 3 ms ++ js "Z")); [done..|lia].
  - apply (field_at (js "-" ++ padded 2 month ++ js "-" ++ padded 2 day ++ js "T") (js ":" ++ padded 2 minute ++ js ":" ++ padded 2 second ++ js "." ++ padded 3 ms ++ js "Z")); [done..|lia].
  - apply (field_at (js "-" ++ padded 2 month ++ js "-" ++ padded 2 day ++ js "T" ++ padded 2 hour ++ js ":") (js ":" ++ padded 2 second ++ js "." ++ padded 3 ms ++ js "Z")); [done..|lia].
  - apply (field_at (js "-" ++ padded 2 month ++ js "-" ++ padded 2 day ++ js "T" ++ padded 2 hour ++ js ":" ++ padded 2 minute ++ js ":") (js "." ++ padded 3 ms ++ js "Z")); [done..|lia].
  - apply (field_at (js "-" ++ padded 2 month ++ js "-" ++ padded 2 day ++ js "T" ++ padded 2 hour ++ js ":" ++ padded 2 minute ++ js ":" ++ padded 2 second ++ js ".") (js "Z")); [done..|lia].
Qed.

Lemma year_read year rest :
  -1000000 < year < 1000000 -> readYear (yearText year ++ rest) = Some (year, rest).
Proof.
  intros Hy. unfold yearText. destruct ((0 <=? year) && (year <=? 9999)) eqn:H4.
  - apply andb_true_iff in H4 as [H0%Z.leb_le H9%Z.leb_le].
    assert (field (padded 4 year ++ rest) 0 4 = Some year) as Hf by (apply (field_at [] rest); [done..|lia]).
    assert (drop 4 (padded 4 year ++ rest) = rest) as Hd by (apply drop_app_length'; by rewrite padded_length).
    destruct (padded 4 year) as [|u s] eqn:Hp; [done|]. unfold readYear. cbn [app] in *.
    assert (u <> 43%N /\ u <> 45%N) as [Hn1 Hn2].
    { cbn in Hp. injection Hp as <- _. pose proof (Z.mod_pos_bound (year / 10 / 10 / 10) 10). lia. }
    rewrite !(proj2 (N.eqb_neq _ _)) by done. rewrite Hf, Hd. done.
  - assert (field (padded 6 (Z.abs year) ++ rest) 0 6 = Some (Z.abs year)) as Hf by (apply (field_at [] rest); [done..|lia]).
    assert (drop 6 (padded 6 (Z.abs year) ++ rest) = rest) as Hd by (apply drop_app_length'; by rewrite padded_length).
    destruct (Z.ltb_spec year 0).
    + rewrite <-Z.abs_neq by lia. unfold readYear. cbn [app N.eqb Pos.eqb]. rewrite Hf, Hd. cbn. repeat f_equal; lia.
    + rewrite <-(Z.abs_eq year) at 1 2 by lia. unfold readYear. cbn [app N.eqb Pos.eqb]. rewrite Hf, Hd. cbn. repeat f_equal; lia.
Qed.

Lemma civil_year days : Z.abs days <= 100000001 -> let '(year, _, _) := civilFromDays days in -1000000 < year < 1000000.
Proof.
  intros Hd. unfold civilFromDays. set (z := days + 719468). set (doe := z mod 146097).
  assert (0 <= doe < 146097) as Hdoe by (apply Z.mod_pos_bound; lia). pose proof (cycle_ok doe Hdoe) as Hok. unfold doeOk in Hok.
  set (yoe := (doe - doe / 1460 + doe / 36524 - doe / 146096) / 365) in *.
  apply andb_true_iff in Hok as [[[Hy1%Z.leb_le Hy2%Z.ltb_lt]%andb_true_iff _]%andb_true_iff _].
  pose proof (Z.div_mod z 146097 ltac:(lia)). fold doe in H. unfold z in H at 1. case_match; lia.
Qed.

Lemma readISO_to t s : toISOString t = Some s -> readISO s = Some t.
Proof.
  unfold toISOString. destruct (Z.leb_spec (Z.abs t) MAX_TIME) as [Ht|]; [|done]. unfold MAX_TIME in Ht.
  pose proof (Z.div_mod t msPerDay ltac:(done)) as Hdm. pose proof (Z.mod_pos_bound t msPerDay ltac:(done)) as Hms.
  pose proof (days_civil (t / msPerDay)) as Hc. assert (Z.abs (t / msPerDay) <= 100000001) as Hdays by (unfold msPerDay in *; lia).
  pose proof (civil_year _ Hdays) as Hy. destruct (civilFromDays (t / msPerDay)) as [[year month] day]. destruct Hc as (Hc & Hm & Hday).
  intros <-%(inj Some). set (ms := t mod msPerDay) in *. unfold msPerDay in Hms.
  assert (0 <= ms / 3600000 < 24) as Hh by (split; [apply Z.div_pos; lia|apply Z.div_lt_upper_bound; lia]).
  destruct (fields_read month day (ms / 3600000) (ms / 60000 mod 60) (ms / 1000 mod 60) (ms mod 1000)) as (F1 & F2 & F3 & F4 & F5 & F6);
    try done; try (apply Z.mod_pos_bound; lia).
  match type of F1 with field ?r _ _ = _ => set (rest := r) in * end. clearbody rest.
  unfold readISO. rewrite (year_read year rest) by done. cbn [mbind option_bind]. rewrite F1, F2, F3, F4, F5, F6.
  cbn [mbind option_bind]. f_equal. rewrite Hc.
  assert (ms = ms / 3600000 * 3600000 + ms / 60000 mod 60 * 60000 + ms / 1000 mod 60 * 1000 + ms mod 1000) as Hsum; [|lia].
  pose proof (Z.div_mod ms 1000 ltac:(lia)). pose proof (Z.div_mod (ms / 1000) 60 ltac:(lia)).
  pose proof (Z.div_mod (ms / 60000) 60 ltac:(lia)).
  pose proof (Z.div_div ms 1000 60 ltac:(lia) ltac:(lia)). pose proof (Z.div_div ms 60000 60 ltac:(lia) ltac:(lia)).
  change (1000 * 60) with 60000 in *. change (60000 * 60) with 3600000 in *. lia.
Qed.

Lemma isoTime_to t s : toISOString t = Some s -> isoTime s = Some t.
Proof. intros Ht. unfold isoTime. rewrite (readISO_to _ _ Ht). cbn [mbind option_bind]. by rewrite bool_decide_eq_true_2. Qed.

Lemma toISOString_some t : Z.abs t <= MAX_TIME -> exists s, toISOString t = Some s.
Proof. intros Ht. unfold toISOString. rewrite (proj2 (Z.leb_le _ _)) by done. destruct (civilFromDays _) as [[? ?] ?]. eauto. Qed.

(** Time stamps round-trip: a time in the range of [Date] prints to a text
    that is accepted as a time stamp and read back as the same time, and every
    accepted time stamp is the printed form of the time it is read as. *)
Theorem timestamp_roundtrip (t : Z) (s : list N) :
  (Z.abs t <= MAX_TIME -> exists s, toISOString t = Some s /\ isoTime s = Some t) /\
  (isoTime s = Some t <-> toISOString t = Some s).
Proof.
  split; [|split; [|apply isoTime_to]].
  - intros [s' Hs]%toISOString_some. exists s'. split; [done|]. by apply isoTime_to.
  - unfold isoTime. destruct (readISO s) as [t'|]; cbn [mbind option_bind]; [|done].
    case_bool_decide as Hb; [|done]. by intros [= ->].
Qed.
