(* ===== verification/Envelope.v ===== *)
(** * Signed envelopes

    [signEnvelope] and [verifyEnvelope] of
    [packages/mesh-identity/src/index.ts].  Ed25519 is the platform's: key
    pairs, signing and verification are parameters, of which only that a
    signature verifies under its own key is used. *)
From stdpp Require Import base numbers list strings sets.
From Stdlib Require Import ZArith NArith Lia.
From S2P Require Import Prelude Unicode Json Js Base64 Digest.
Local Open Scope js_scope.

Class Ed25519 := {
  CryptoKey : Type;
  ed_public : CryptoKey -> list N;
  ed_sign : CryptoKey -> list N -> list N;
  ed_verify : list N -> list N -> list N -> bool;
  ed_public_length key : length (ed_public key) = 32%nat;
  ed_public_bytes key : Forall isByte (ed_public key);
  ed_sign_bytes key message : Forall isByte (ed_sign key message);
  ed_correct key message : ed_verify (ed_public key) (ed_sign key message) message = true }.

(** [fromBase64Url] of anything: what is not a string has no [replace]. *)
Definition fromBase64UrlOf (v : value) : result (list N) :=
  match v with Str s => fromBase64Url s | _ => Throw "value.replace is not a function" end.

(** [crypto.subtle.importKey("raw", bytes, { name: "Ed25519" }, ...)] *)
Definition importRawPublic (bytes : list N) : result (list N) :=
  if (length bytes =? 32)%nat then Ok bytes else Throw "DataError".

Definition envelope_value (payload : value) (signerKeyId : list N) (signature : list N) : value :=
  Obj [(js "payload", payload); (js "signerKeyId", Str signerKeyId); (js "signature", Str signature)].

Section Envelopes.
Context `{Ed25519}.

Definition signEnvelope (privateKey : CryptoKey) (payload : value) (signerKeyId domain : list N) : result value :=
  capturedPayload ← captureEnvelopePayload payload;
  canonical ← canonicalizeSignatureJson capturedPayload;
  let input := signatureInput (toText capturedPayload.["kind"]) (default [] canonical) domain in
  Ok (envelope_value capturedPayload signerKeyId (toBase64Url (ed_sign privateKey input))).

Definition verifyEnvelope (envelope publicKey : value) (domain : list N) : result bool :=
  key ← match publicKey with
        | Str raw => bytes ← fromBase64Url raw; importRawPublic bytes
        | _ => Throw "not a CryptoKey"
        end;
  payload ← get (js "payload") envelope;
  canonical ← canonicalizeSignatureJson payload;
  signature ← fromBase64UrlOf envelope.["signature"];
  kind ← get (js "kind") payload;
  if ed_verify key signature (signatureInput (toText kind) (default [] canonical) domain) then Ok true else
  legacyCanonical ← canonicalizeJson payload;
  Ok (negb (bool_decide (legacyCanonical = canonical)) &&
      ed_verify key signature (signatureInput (toText kind) (default [] legacyCanonical) domain)).

Lemma sign_verifies key payload signerKeyId domain envelope :
  signEnvelope key payload signerKeyId domain = Ok envelope ->
  verifyEnvelope envelope (Str (toBase64Url (ed_public key))) domain = Ok true.
Proof.
  unfold signEnvelope. intros (captured & Hc & Hk)%bind_ok. apply bind_ok in Hk as (canonical & Hcan & [= <-]).
  unfold verifyEnvelope. rewrite from_toBase64Url by apply ed_public_bytes. cbn [mbind result_bind].
  unfold importRawPublic. rewrite ed_public_length. cbn [Nat.eqb mbind result_bind].
  change (get (js "payload") _) with (Ok captured). cbn [mbind result_bind]. rewrite Hcan. cbn [mbind result_bind].
  change (getOpt (js "signature") _) with (Str (toBase64Url (ed_sign key (signatureInput (toText captured.["kind"]) (default [] canonical) domain)))).
  cbn [fromBase64UrlOf]. rewrite from_toBase64Url by apply ed_sign_bytes. cbn [mbind result_bind].
  assert (get (js "kind") captured = Ok (captured.["kind"])) as ->.
  { unfold captureEnvelopePayload in Hc. apply bind_ok in Hc as (c & _ & Hc). by destruct c; [| | | | | |case_match; simplify_eq]. }
  cbn [mbind result_bind]. by rewrite ed_correct.
Qed.

(** What a verified envelope was signed over: one of its two canonical texts. *)
Lemma verify_message envelope publicKey domain :
  verifyEnvelope envelope publicKey domain = Ok true ->
  exists raw key signature kind leb text, publicKey = Str raw /\ fromBase64Url raw = Ok key /\ length key = 32%nat /\
    fromBase64UrlOf envelope.["signature"] = Ok signature /\ get (js "kind") envelope.["payload"] = Ok kind /\
    canonicalizeJsonWithOrder leb envelope.["payload"] = Ok text /\
    ed_verify key signature (signatureInput (toText kind) (default [] text) domain) = true.
Proof.
  unfold verifyEnvelope. intros (key & Hkey & Hk)%bind_ok. destruct publicKey as [| | | |raw| |]; try done.
  apply bind_ok in Hkey as (bytes & Hraw & Himp). unfold importRawPublic in Himp.
  destruct (Nat.eqb_spec (length bytes) 32) as [Hlen|]; [|done]. injection Himp as ->.
  apply bind_ok in Hk as (payload & Hp & Hk). apply bind_ok in Hk as (canonical & Hcan & Hk).
  apply bind_ok in Hk as (signature & Hsig & Hk). apply bind_ok in Hk as (kind & Hkind & Hk).
  assert (envelope.["payload"] = payload) as Hpay by (destruct envelope; cbn in *; congruence). rewrite Hpay.
  destruct (ed_verify key signature (signatureInput (toText kind) (default [] canonical) domain)) eqn:Hv.
  - by exists raw, key, signature, kind, (fun a b => (compareCanonicalKeys a b <=? 0)%Z), canonical.
  - apply bind_ok in Hk as (legacy & Hleg & [= [_ Hv']%andb_true_iff]).
    by exists raw, key, signature, kind, str_leb, legacy.
Qed.
End Envelopes.

(** Keys to run the definitions with: of a key only the last byte counts, and
    a signature is the checksum of the message behind it. *)
Definition toyPublic (key : N) : list N := replicate 31 0%N ++ [(key mod 256)%N].
Definition toySign (key : N) (message : list N) : list N := checksum ((key mod 256)%N :: message).
Definition toyVerify (public signature message : list N) : bool :=
  bool_decide (signature = checksum (List.last public 0%N :: message)).

#[local] Instance toyEd25519 : Ed25519.
Proof.
  refine {| CryptoKey := list N; ed_public := fun key => toyPublic (List.last key 0%N);
    ed_sign := fun key => toySign (List.last key 0%N); ed_verify := toyVerify |}.
  - done.
  - intros key. unfold toyPublic. apply Forall_app. split; [apply Forall_replicate; done|].
    apply Forall_singleton. unfold isByte. by apply Is_true_true, N.ltb_lt, N.mod_lt.
  - intros key message. apply (sha256_bytes (Sha256 := checksumSha256)).
  - intros key message. unfold toyVerify, toyPublic, toySign. rewrite last_last. by apply bool_decide_eq_true.
Defined.

(** A signed envelope carries the captured payload and the signer's id, and
    verifies under the public key of the key it was signed with in the domain
    it was signed for. *)
Theorem envelope_roundtrip `{Ed25519} key payload signerKeyId domain envelope :
  signEnvelope key payload signerKeyId domain = Ok envelope ->
  captureEnvelopePayload payload = Ok (envelope.["payload"]) /\ envelope.["signerKeyId"] = Str signerKeyId /\
  verifyEnvelope envelope (Str (toBase64Url (ed_public key))) domain = Ok true.
Proof.
  intros Hs. split_and!; [..|by eapply sign_verifies]; unfold signEnvelope in Hs;
    apply bind_ok in Hs as (captured & Hc & Hk); apply bind_ok in Hk as (canonical & _ & [= <-]); done.
Qed.

Lemma envelope_roundtrip_witness :
  match signEnvelope (H := toyEd25519) [7%N] (Obj [(js "kind", Str (js "note")); (js "n", Num (Int 3))]) (js "me") (js "MATCH/1") with
  | Ok envelope => verifyEnvelope (H := toyEd25519) envelope (Str (toBase64Url (toyPublic 7))) (js "MATCH/1") = Ok true
  | Throw _ => False
  end.
Proof.
  destruct (signEnvelope (H := toyEd25519) _ _ _ _) as [envelope|e] eqn:Hs; [|by vm_compute in Hs].
  apply (envelope_roundtrip (H := toyEd25519)) in Hs. apply Hs.
Defined.
