(* ===== verification/Certificates.v ===== *)
(** * Device certificates

    Chains of device certificates of [packages/mesh-identity/src/index.ts]:
    verification from a device up to the identity key, revocation along a
    chain, and the devices below another.  The walks follow issuer hashes and
    stop at a device seen before; their fuel is one more than the number of
    certificates, which is enough ([chain_walks_terminate]). *)
From stdpp Require Import base numbers list strings sets.
From Stdlib Require Import ZArith NArith Lia.
From S2P Require Import Prelude Unicode Json Js Base64 Digest Envelope.
Local Open Scope js_scope.

Record PublicIdentity := mkIdentity { personId : list N; publicKey : list N; displayName : list N }.

(** [certificate.payload.deviceId], where the certificate may be anything. *)
Definition payloadId (certificate : value) : result value :=
  payload ← get (js "payload") certificate; get (js "deviceId") payload.

(** [certificates.find(certificate => certificate.payload.deviceId === deviceId)] *)
Definition findDevice (deviceId : value) (certificates : list value) : result (option value) :=
  findR (fun certificate => id ← payloadId certificate; Ok (strictEqual id deviceId)) certificates.

Section Certificates.
Context `{Sha256} `{Ed25519}.

Definition certificateHash (certificate : value) : result (list N) :=
  text ← canonicalizeJson certificate; Ok (sha256Base64Url (encodeText text)).

Definition publicKeyIdOf (key : value) : result (list N) :=
  match key with Str s => publicKeyId s | _ => Throw "value.replace is not a function" end.

(** [for (const certificate of certificates) byHash.set(await certificateHash(certificate), certificate)] *)
Definition byHash (certificates : list value) : result (list (list N * value)) :=
  foldR (fun m certificate => hash ← certificateHash certificate; Ok (map_set hash certificate m)) [] certificates.

(** [byHash.get(hash)] of any value. *)
Definition issuerOf (hash : value) (m : list (list N * value)) : option value :=
  match hash with Str h => map_get h m | _ => None end.

Section Chain.
Variable identity : PublicIdentity.
Variable domain : list N.

(** The checks on one certificate of a chain; gives its device id. *)
Definition checkCertificate (payload : value) (seen : list (list N)) : result (list N) :=
  kind ← get (js "kind") payload;
  if negb (isStr (js "device-certificate") kind) || negb (isInt 1 payload.["version"]) ||
     negb (isStr (personId identity) payload.["personId"])
  then Throw "Invalid device certificate" else
  id ← publicKeyIdOf payload.["devicePublicKey"];
  if negb (isStr id payload.["deviceId"]) || bool_decide (id ∈ seen)
  then Throw "Invalid device certificate" else Ok id.

Fixpoint verifyChain (fuel : nat) (m : list (list N * value)) (leafKey current : value) (seen : list (list N))
    : result value :=
  match fuel with
  | O => Throw "out of fuel"
  | S fuel =>
      payload ← get (js "payload") current;
      id ← checkCertificate payload seen;
      match payload.["issuerCertificateHash"] with
      | Null =>
          if negb (isStr (personId identity) current.["signerKeyId"]) then Throw "Invalid root certificate" else
          verified ← verifyEnvelope current (Str (publicKey identity)) domain;
          if (verified : bool) then Ok leafKey else Throw "Invalid root certificate"
      | hash =>
          match issuerOf hash m with
          | None => Throw "Invalid certificate chain"
          | Some issuer =>
              issuerPayload ← get (js "payload") issuer;
              enroll ← get (js "canEnrollDevices") issuerPayload;
              if negb (truthy enroll) || negb (strictEqual current.["signerKeyId"] issuerPayload.["deviceId"])
              then Throw "Invalid certificate chain" else
              verified ← verifyEnvelope current issuerPayload.["devicePublicKey"] domain;
              if (verified : bool) then verifyChain fuel m leafKey issuer (id :: seen)
              else Throw "Invalid certificate chain"
          end
      end
  end.

Definition verifyDeviceCertificateChain (deviceId : list N) (certificates : list value) : result value :=
  keyId ← publicKeyId (publicKey identity);
  if negb (bool_decide (keyId = personId identity)) then Throw "Identity does not match its key" else
  if (length certificates <? 1)%nat || (32 <? length certificates)%nat then Throw "Invalid certificate chain" else
  m ← byHash certificates;
  leaf ← findDevice (Str deviceId) certificates;
  match leaf with
  | None => Throw "Missing device certificate"
  | Some leaf =>
      verifyChain (S (length certificates)) m leaf.["payload"].["devicePublicKey"] leaf []
  end.
End Chain.

(** ** Walks up the chain *)
Definition seenBefore (id : value) (seen : list value) : bool := existsb (strictEqual id) seen.

Fixpoint chainRevoked (fuel : nat) (m : list (list N * value)) (revoked : list (list N))
    (current : option value) (seen : list value) : result bool :=
  match fuel with
  | O => Throw "out of fuel"
  | S fuel =>
      match current with
      | None => Ok true
      | Some certificate =>
          id ← payloadId certificate;
          if existsb (fun r => strictEqual id (Str r)) revoked || seenBefore id seen then Ok true else
          match certificate.["payload"].["issuerCertificateHash"] with
          | Null => Ok false
          | hash => chainRevoked fuel m revoked (issuerOf hash m) (id :: seen)
          end
      end
  end.

Definition isChainRevoked (deviceId : list N) (revoked : list (list N)) (certificates : list value) : result bool :=
  m ← byHash certificates;
  current ← findDevice (Str deviceId) certificates;
  chainRevoked (S (S (length certificates))) m revoked current [].

Fixpoint chainReaches (fuel : nat) (m : list (list N * value)) (rootId : list N)
    (current : option value) (seen : list value) : result bool :=
  match fuel with
  | O => Throw "out of fuel"
  | S fuel =>
      match current with
      | None => Ok false
      | Some certificate =>
          id ← payloadId certificate;
          if strictEqual id (Str rootId) then Ok true else
          if seenBefore id seen then Ok false else
          match certificate.["payload"].["issuerCertificateHash"] with
          | Null => Ok false
          | hash => chainReaches fuel m rootId (issuerOf hash m) (id :: seen)
          end
      end
  end.

Definition isCertificateDescendant (certificate : value) (rootId : list N) (certificates : list value) : result bool :=
  m ← byHash certificates;
  chainReaches (S (S (length certificates))) m rootId (Some certificate) [].

(** The ids are collected as a set; only string ids can be asked for. *)
Definition identityDeviceDescendants (rootId : list N) (certificates : list value) : result (list (list N)) :=
  foldR (fun subtree certificate =>
    below ← isCertificateDescendant certificate rootId certificates;
    Ok (if (below : bool) then
          match certificate.["payload"].["deviceId"] with
          | Str id => if bool_decide (id ∈ subtree) then subtree else subtree ++ [id]
          | _ => subtree
          end
        else subtree)) [] certificates.

Fixpoint activeManagement (identity : PublicIdentity) (certificates : list value) (revoked : list (list N))
    (domain : list N) (rest : list value) : result bool :=
  match rest with
  | [] => Ok false
  | certificate :: rest =>
      payload ← get (js "payload") certificate;
      enroll ← get (js "canEnrollDevices") payload;
      if negb (truthy enroll) then activeManagement identity certificates revoked domain rest else
      match payload.["deviceId"] with
      | Str id =>
          blocked ← isChainRevoked id revoked certificates;
          if (blocked : bool) then activeManagement identity certificates revoked domain rest else
          match verifyDeviceCertificateChain identity domain id certificates with
          | Ok _ => Ok true
          | Throw _ => activeManagement identity certificates revoked domain rest
          end
      | _ => activeManagement identity certificates revoked domain rest
      end
  end.

Definition activeManagementDevices (identity : PublicIdentity) (certificates : list value)
    (revoked : list (list N)) (domain : list N) : result bool :=
  activeManagement identity certificates revoked domain certificates.
End Certificates.

(** ** What the walks compute *)
Section Walks.
Context `{Sha256} `{Ed25519}.

Definition deviceOf (certificate : value) : value := certificate.["payload"].["deviceId"].

Lemma payloadId_eq certificate id : payloadId certificate = Ok id -> deviceOf certificate = id.
Proof.
  unfold payloadId, deviceOf. intros (payload & Hp & Hid)%bind_ok. apply get_ok in Hp as ->. by apply get_ok in Hid.
Qed.

Lemma byHash_sound certificates m hash certificate :
  byHash certificates = Ok m -> map_get hash m = Some certificate ->
  certificate ∈ certificates /\ certificateHash certificate = Ok hash.
Proof.
  intros Hm. revert hash certificate. pattern m. eapply (foldR_ind _ _ certificates []); [|done|exact Hm].
  intros m1 c m2 Hc IH (h & Hh & [= <-])%bind_ok hash certificate. rewrite map_get_set.
  case_bool_decide; [|apply IH]. intros [= <-]. by subst.
Qed.

Lemma byHash_has certificates m certificate hash :
  byHash certificates = Ok m -> certificate ∈ certificates -> certificateHash certificate = Ok hash ->
  is_Some (map_get hash m).
Proof.
  intros Hm Hin Hh. unfold byHash in Hm.
  enough (forall l m0 m1, foldR (fun m c => h ← certificateHash c; Ok (map_set h c m)) m0 l = Ok m1 ->
    is_Some (map_get hash m0) \/ certificate ∈ l -> is_Some (map_get hash m1)) as Hgen by (eapply Hgen; [exact Hm|by right]).
  intros l. induction l as [|c l IH]; intros m0 m1; cbn [foldR].
  - intros [= <-] [?|?%elem_of_nil]; done.
  - intros (m2 & (h & Hc & [= <-])%bind_ok & Hl)%bind_ok Hcase. apply (IH _ _ Hl). rewrite map_get_set.
    destruct Hcase as [Hm0|[->|Hr]%elem_of_cons]; [left; by case_bool_decide|left|by right].
    rewrite bool_decide_eq_true_2 by congruence. by eexists.
Qed.

Lemma byHash_total certificates :
  (forall c, c ∈ certificates -> exists h, certificateHash c = Ok h) -> exists m, byHash certificates = Ok m.
Proof.
  unfold byHash. generalize (@nil (list N * value)). induction certificates as [|c certificates IH]; intros m Hall; [by exists m|].
  destruct (Hall c ltac:(left)) as [h Hh]. cbn [foldR]. rewrite Hh. cbn [mbind result_bind]. apply IH. intros c' Hc'. apply Hall. by right.
Qed.

#[export] Instance null_decision (v : value) : Decision (v = Null).
Proof. destruct v; (by left) || (by right). Defined.
#[export] Instance string_decision (v : value) (s : list N) : Decision (v = Str s).
Proof. destruct v as [| | | |t| |]; try (by right). destruct (decide (t = s)) as [->|Hne]; [by left|right; congruence]. Defined.

(** A catalog: one certificate per device, and no two with one digest. *)
Record catalog (certificates : list value) : Prop := {
  catalog_ids : forall c, c ∈ certificates -> exists id, payloadId c = Ok (Str id);
  catalog_devices : NoDup (map deviceOf certificates);
  catalog_hashes : forall c, c ∈ certificates -> exists h, certificateHash c = Ok h;
  catalog_distinct : forall c c', c ∈ certificates -> c' ∈ certificates ->
    certificateHash c = certificateHash c' -> c = c' }.

Lemma device_unique certificates c c' :
  NoDup (map deviceOf certificates) -> c ∈ certificates -> c' ∈ certificates -> deviceOf c = deviceOf c' -> c = c'.
Proof.
  intros Hn (i & Hi)%list_elem_of_lookup (j & Hj)%list_elem_of_lookup Hd.
  assert (i = j) as ->; [|congruence]. eapply NoDup_lookup; [exact Hn|..];
    rewrite list_lookup_fmap; [by rewrite Hi|by rewrite Hj; cbn; rewrite Hd].
Qed.

Lemma device_inj certificates c c' :
  catalog certificates -> c ∈ certificates -> c' ∈ certificates -> deviceOf c = deviceOf c' -> c = c'.
Proof. intros Hcat. apply device_unique, catalog_devices, Hcat. Qed.

Lemma byHash_exact certificates m hash c :
  catalog certificates -> byHash certificates = Ok m ->
  map_get hash m = Some c <-> c ∈ certificates /\ certificateHash c = Ok hash.
Proof.
  intros Hcat Hm. split; [by apply byHash_sound|]. intros [Hc Hh].
  destruct (byHash_has _ _ _ _ Hm Hc Hh) as [c' Hc']. destruct (byHash_sound _ _ _ _ Hm Hc') as [Hin Hh'].
  rewrite Hc'. f_equal. apply (catalog_distinct _ Hcat); congruence.
Qed.

Lemma findDevice_some deviceId certificates c :
  findDevice (Str deviceId) certificates = Ok (Some c) -> c ∈ certificates /\ deviceOf c = Str deviceId.
Proof.
  intros [Hin Ht]%findR_some. split; [done|]. apply bind_ok in Ht as (id & Hid & [= He]).
  apply strictEqual_str in He as ->. by apply payloadId_eq.
Qed.

Lemma findDevice_exact certificates c deviceId :
  catalog certificates -> c ∈ certificates -> deviceOf c = Str deviceId ->
  findDevice (Str deviceId) certificates = Ok (Some c).
Proof.
  intros Hcat Hin Hd.
  assert (exists c', findDevice (Str deviceId) certificates = Ok (Some c')) as [c' Hc'].
  { pose proof (catalog_ids _ Hcat) as Hids. clear Hcat. unfold findDevice.
    induction certificates as [|c1 l IH]; [by apply elem_of_nil in Hin|]. cbn [findR].
    destruct (Hids c1 ltac:(left)) as [id1 Hid1]. rewrite Hid1. cbn [mbind result_bind].
    destruct (strictEqual (Str id1) (Str deviceId)) eqn:He; [by eexists|]. apply IH; [|intros; apply Hids; by right].
    apply elem_of_cons in Hin as [->|Hin]; [|done]. apply payloadId_eq in Hid1. rewrite Hd in Hid1. injection Hid1 as ->.
    apply not_true_iff_false in He. exfalso. by apply He, strictEqual_str. }
  rewrite Hc'. apply findDevice_some in Hc' as [Hin' Hd']. do 2 f_equal. apply (device_inj certificates); congruence.
Qed.
(** ** Termination: a walk meets each device at most once *)
Lemma finished_hash c : finished (certificateHash c).
Proof. apply finished_bind; [apply finished_canonical|done]. Qed.

Lemma finished_byHash certificates : finished (byHash certificates).
Proof. apply finished_foldR. intros m c _. apply finished_bind; [apply finished_hash|done]. Qed.

Lemma finished_payloadId c : finished (payloadId c).
Proof. apply finished_bind; [apply finished_get|]. intros; apply finished_get. Qed.

Lemma finished_findDevice id certificates : finished (findDevice id certificates).
Proof. apply finished_findR. intros c _. apply finished_bind; [apply finished_payloadId|done]. Qed.

Lemma finished_fromBase64Url s : finished (fromBase64Url s).
Proof. unfold fromBase64Url, atob. by destruct (decode64 _). Qed.

Lemma finished_publicKeyId s : finished (publicKeyId s).
Proof. apply finished_bind; [apply finished_fromBase64Url|]. intros a _. by case_match. Qed.

Lemma finished_verifyEnvelope envelope key domain : finished (verifyEnvelope envelope key domain).
Proof.
  unfold verifyEnvelope. apply finished_bind.
  { destruct key; try done. apply finished_bind; [apply finished_fromBase64Url|]. intros a _. unfold importRawPublic. by case_match. }
  intros k _. apply finished_bind; [apply finished_get|]. intros p _. apply finished_bind; [apply finished_canonical|].
  intros t _. apply finished_bind; [unfold fromBase64UrlOf; case_match; [done..|apply finished_fromBase64Url|done|done]|].
  intros s _. apply finished_bind; [apply finished_get|]. intros kind _. case_match; [done|].
  apply finished_bind; [apply finished_canonical|done].
Qed.

Lemma seen_bound (ids seen : list value) : NoDup seen -> (forall id, id ∈ seen -> id ∈ ids) -> (length seen <= length ids)%nat.
Proof. intros Hn Hs. apply submseteq_length, NoDup_submseteq; [done|]. exact Hs. Qed.

Lemma walk_bound certificates (seen : list (list N)) (A : Type) :
  (length certificates < length seen)%nat -> NoDup seen ->
  (forall s, s ∈ seen -> Str s ∈ map deviceOf certificates) -> finished (A := A) (Throw "out of fuel").
Proof.
  intros Hf Hn Hs. exfalso. assert (length (map Str seen) <= length (map deviceOf certificates))%nat as Hle.
  - apply seen_bound; [by apply NoDup_fmap_2; [intros ?? [=]|]|]. intros id (s & -> & Hin)%list_elem_of_fmap. by apply Hs.
  - rewrite !length_map in Hle. lia.
Qed.

Lemma checkCertificate_ok identity payload seen id :
  checkCertificate identity payload seen = Ok id <->
  payload.["kind"] = Str (js "device-certificate") /\ payload.["version"] = Num (Int 1) /\
  payload.["personId"] = Str (personId identity) /\ publicKeyIdOf payload.["devicePublicKey"] = Ok id /\
  payload.["deviceId"] = Str id /\ id ∉ seen.
Proof.
  unfold checkCertificate. split.
  - intros (kind & Hk & Hr)%bind_ok. apply get_ok in Hk as <-. revert Hr. guard_passed as Hg.
    apply orb_false_iff in Hg as [[Hk Hv]%orb_false_iff Hp]. rewrite negb_false_iff in Hk, Hv, Hp.
    apply isStr_true in Hk, Hp. apply isInt_true in Hv. intros (id' & Hid & Hr)%bind_ok. revert Hr. guard_passed as Hg.
    intros [= <-]. apply orb_false_iff in Hg as [Hd Hs%bool_decide_eq_false]. rewrite negb_false_iff, isStr_true in Hd. done.
  - intros (Hk & Hv & Hp & Hkey & Hid & Hs).
    assert (get (js "kind") payload = Ok (Str (js "device-certificate"))) as ->.
    { destruct payload; try done. cbn in *. by rewrite Hk. }
    cbn [mbind result_bind]. rewrite Hv, Hp, Hkey. unfold isStr at 1 2, isInt. rewrite !bool_decide_eq_true_2 by done.
    cbn [negb orb Z.eqb mbind result_bind]. rewrite Hid. cbn [isStr]. rewrite bool_decide_eq_true_2, bool_decide_eq_false_2 by done. done.
Qed.

Lemma finished_check identity payload seen : finished (checkCertificate identity payload seen).
Proof.
  apply finished_bind; [apply finished_get|]. intros kind _. case_match; [done|].
  apply finished_bind; [unfold publicKeyIdOf; case_match; [done..|apply finished_publicKeyId|done|done]|].
  intros id _. by case_match.
Qed.

Lemma issuerOf_elem certificates m hash c :
  byHash certificates = Ok m -> issuerOf hash m = Some c -> c ∈ certificates.
Proof. intros Hm Hi. destruct hash; cbn in Hi; try done. by eapply byHash_sound. Qed.

Lemma finished_verifyChain identity domain certificates m fuel leafKey c seen :
  byHash certificates = Ok m -> c ∈ certificates -> NoDup seen ->
  (forall id, id ∈ seen -> Str id ∈ map deviceOf certificates) ->
  (length certificates < fuel + length seen)%nat ->
  finished (verifyChain identity domain fuel m leafKey c seen).
Proof.
  intros Hm. revert c seen. induction fuel as [|fuel IH]; intros c seen Hc Hn Hs Hf.
  { by eapply walk_bound. }
  cbn [verifyChain]. apply finished_bind; [apply finished_get|]. intros payload Hp.
  apply finished_bind; [apply finished_check|]. intros id Hid.
  assert (forall issuer, issuer ∈ certificates -> finished (verifyChain identity domain fuel m leafKey issuer (id :: seen))) as Hnext.
  { apply checkCertificate_ok in Hid as (_ & _ & _ & _ & Hd & Hns). intros issuer Hi.
    apply IH; [done|by constructor| |cbn; lia]. intros s [->|Hin]%elem_of_cons; [|by apply Hs].
    apply list_elem_of_fmap. exists c. split; [|done]. unfold deviceOf. apply get_ok in Hp as ->. done. }
  clear IH Hid. destruct (payload.["issuerCertificateHash"]) as [| | | |h| |]; cbn [issuerOf]; try done.
  - case_match; [done|]. apply finished_bind; [apply finished_verifyEnvelope|]. by intros [] _.
  - destruct (map_get h m) as [issuer|] eqn:Hi; [|done]. apply finished_bind; [apply finished_get|]. intros ip _.
    apply finished_bind; [apply finished_get|]. intros en _. case_match; [done|].
    apply finished_bind; [apply finished_verifyEnvelope|]. intros [] _; [|done]. apply Hnext. by eapply byHash_sound in Hi as [??].
Qed.

(** ** What a verified chain is *)
Definition stated (identity : PublicIdentity) (c : value) (id : list N) : Prop :=
  c.["payload"].["kind"] = Str (js "device-certificate") /\ c.["payload"].["version"] = Num (Int 1) /\
  c.["payload"].["personId"] = Str (personId identity) /\
  publicKeyIdOf c.["payload"].["devicePublicKey"] = Ok id /\ c.["payload"].["deviceId"] = Str id.

Section Certified.
Variable identity : PublicIdentity.
Variable domain : list N.
Variable certificates : list value.

(** [certified n c id]: [n] certificates lead from [c], of the device [id], to
    the identity's key, each signed by the device of the next, which may enroll. *)
Inductive certified : nat -> value -> list N -> Prop :=
| certified_root c id :
    c ∈ certificates -> stated identity c id ->
    c.["payload"].["issuerCertificateHash"] = Null -> c.["signerKeyId"] = Str (personId identity) ->
    verifyEnvelope c (Str (publicKey identity)) domain = Ok true -> certified 1 c id
| certified_issued n c id issuer hash issuerId :
    c ∈ certificates -> stated identity c id ->
    c.["payload"].["issuerCertificateHash"] = Str hash -> certificateHash issuer = Ok hash ->
    truthy issuer.["payload"].["canEnrollDevices"] = true -> c.["signerKeyId"] = Str issuerId ->
    verifyEnvelope c issuer.["payload"].["devicePublicKey"] domain = Ok true ->
    certified n issuer issuerId -> certified (S n) c id.

Lemma certified_stated n c id : certified n c id -> c ∈ certificates /\ stated identity c id.
Proof. by destruct 1. Qed.

Lemma certified_device n c id : certified n c id -> deviceOf c = Str id.
Proof. by intros [_ (_ & _ & _ & _ & ?)]%certified_stated. Qed.

Lemma stated_check c id seen :
  stated identity c id -> id ∉ seen -> get (js "payload") c = Ok (c.["payload"]) /\
  checkCertificate identity c.["payload"] seen = Ok id.
Proof.
  intros (Hk & Hv & Hp & Hkey & Hid) Hs. split; [|by apply checkCertificate_ok]. destruct c; done.
Qed.

Lemma certified_chain key c leafKey seen fuel m :
  verifyChain identity domain fuel m leafKey c seen = Ok key -> byHash certificates = Ok m -> c ∈ certificates ->
  key = leafKey /\ exists k id, certified k c id.
Proof.
  intros Hv Hm. revert c seen Hv. induction fuel as [|fuel IH]; intros c seen Hv Hc; [done|]. cbn [verifyChain] in Hv.
  apply bind_ok in Hv as (payload & <-%get_ok & Hv). apply bind_ok in Hv as (id' & Hid & Hv).
  apply checkCertificate_ok in Hid as (Hk & Hver & Hp & Hkey & Hid & Hs). assert (stated identity c id') as Hst by done.
  destruct (c.["payload"].["issuerCertificateHash"]) as [| | | |h| |] eqn:Hh; cbn [issuerOf] in Hv; try done.
  - revert Hv. guard_passed as Hg. rewrite negb_false_iff, isStr_true in Hg. intros ([] & He & Hv)%bind_ok; [|done].
    injection Hv as ->. split; [done|]. exists 1%nat, id'. by apply certified_root.
  - destruct (map_get h m) as [issuer|] eqn:Hi; [|done]. destruct (byHash_sound _ _ _ _ Hm Hi) as [Hic Hih].
    apply bind_ok in Hv as (ip & <-%get_ok & Hv). apply bind_ok in Hv as (en & <-%get_ok & Hv). revert Hv. guard_passed as Hg.
    apply orb_false_iff in Hg as [Hen Hsg]. rewrite negb_false_iff in Hen, Hsg. intros ([] & He & Hv)%bind_ok; [|done].
    destruct (IH _ _ Hv Hic) as (-> & k & iid & Hcert). split; [done|]. exists (S k), id'.
    pose proof (certified_device _ _ _ Hcert) as Hd. unfold deviceOf in Hd. rewrite Hd in Hsg. apply strictEqual_str in Hsg.
    by eapply certified_issued.
Qed.

Section Catalog.
Hypothesis Hcat : catalog certificates.

Lemma certified_unique n c id n' id' : certified n c id -> certified n' c id' -> n = n' /\ id = id'.
Proof.
  intros Hc Hc'. split; [|apply certified_device in Hc; apply certified_device in Hc'; congruence].
  revert n' id' Hc'. induction Hc as [|n c id issuer hash iid Hin Hst Hh Hhash Hen Hsg Hv Hc IH]; intros n' id' Hc'.
  - destruct Hc'; [done|congruence].
  - destruct Hc' as [|n' c id' issuer' hash' iid' ? ? Hh' Hhash' ? ? ? Hc']; [congruence|].
    assert (issuer' = issuer) as ->; [|f_equal; by eapply IH].
    apply (catalog_distinct _ Hcat); [apply (certified_stated _ _ _ Hc')|apply (certified_stated _ _ _ Hc)|congruence].
Qed.

Lemma certified_bound n c id : certified n c id -> (n <= length certificates)%nat.
Proof.
  intros Hc. assert (exists l, length l = n /\ NoDup (map deviceOf l) /\
    forall x, x ∈ l -> x ∈ certificates /\ exists k id, (k <= n)%nat /\ certified k x id) as (l & <- & Hn & Hl).
  - induction Hc as [c id Hin Hst Hh Hsg Hv|n c id issuer hash iid Hin Hst Hh Hhash Hen Hsg Hv Hc (l & Hlen & Hn & Hl)].
    + exists [c]. split_and!; [done|apply NoDup_singleton|]. intros x ->%list_elem_of_singleton. split; [done|].
      exists 1%nat, id. split; [done|]. by apply certified_root.
    + assert (certified (S n) c id) as Hcn by by eapply certified_issued.
      exists (c :: l). split_and!; [cbn; lia|cbn; constructor; [|done]|].
      * intros (x & Hd & Hx)%list_elem_of_fmap. destruct (Hl x Hx) as (Hxin & k & xid & Hk & Hxc).
        assert (x = c) as -> by by eapply device_inj. destruct (certified_unique _ _ _ _ _ Hxc Hcn). lia.
      * intros x [->|Hx]%elem_of_cons; [eauto 6|]. destruct (Hl x Hx) as (Hxin & k & xid & Hk & Hxc). eauto 8.
  - rewrite <-(length_map deviceOf l), <-(length_map deviceOf certificates). apply seen_bound; [done|].
    intros d (x & -> & Hx)%list_elem_of_fmap. apply list_elem_of_fmap. exists x. split; [done|]. by apply Hl.
Qed.

(** The devices a walk has passed before it comes to a chain of [n]. *)
Definition behind (n : nat) (seen : list (list N)) : Prop :=
  forall s, s ∈ seen -> exists k c, (n < k)%nat /\ certified k c s.

Lemma behind_fresh n c id seen : certified n c id -> behind n seen -> id ∉ seen.
Proof.
  intros Hc Hb Hin. destruct (Hb id Hin) as (k & c' & Hk & Hc').
  assert (c' = c) as ->. { apply certified_device in Hc as Hd, Hc' as Hd'. apply certified_stated in Hc as [? _], Hc' as [? _].
    eapply device_inj; [done..|congruence]. }
  destruct (certified_unique _ _ _ _ _ Hc Hc'). lia.
Qed.

Lemma behind_next n c id seen : certified (S n) c id -> behind (S n) seen -> behind n (id :: seen).
Proof. intros Hc Hb s [->|Hs]%elem_of_cons; [by exists (S n), c; split; [lia|]|]. destruct (Hb s Hs) as (k & ? & ? & ?). exists k. eauto with lia. Qed.

Lemma certified_verifies n c id leafKey seen fuel m :
  certified n c id -> byHash certificates = Ok m -> behind n seen -> (n <= fuel)%nat ->
  verifyChain identity domain fuel m leafKey c seen = Ok leafKey.
Proof.
  intros Hc Hm. revert seen fuel. induction Hc as [c id Hin Hst Hh Hsg Hv|n c id issuer hash iid Hin Hst Hh Hhash Hen Hsg Hv Hc IH];
    intros seen [|fuel] Hb Hf; try lia.
  - destruct (stated_check c id seen Hst) as [Hp Hk]; [eapply behind_fresh; [by apply certified_root|done]|].
    cbn [verifyChain]. rewrite Hp. cbn [mbind result_bind]. rewrite Hk. cbn [mbind result_bind]. rewrite Hh, Hsg.
    cbn [isStr]. rewrite bool_decide_eq_true_2 by done. cbn [negb]. by rewrite Hv.
  - assert (certified (S n) c id) as Hcn by by eapply certified_issued.
    destruct (stated_check c id seen Hst) as [Hp Hk]; [by eapply behind_fresh|].
    cbn [verifyChain]. rewrite Hp. cbn [mbind result_bind]. rewrite Hk. cbn [mbind result_bind]. rewrite Hh. cbn [issuerOf].
    destruct (certified_stated _ _ _ Hc) as [Hiin Hist].
    rewrite (proj2 (byHash_exact _ _ _ issuer Hcat Hm)) by done.
    destruct (stated_check issuer iid [] Hist) as [Hip _]; [apply not_elem_of_nil|]. rewrite Hip. cbn [mbind result_bind].
    assert (get (js "canEnrollDevices") issuer.["payload"] = Ok (issuer.["payload"].["canEnrollDevices"])) as ->.
    { destruct (issuer.["payload"]); done. }
    cbn [mbind result_bind]. rewrite Hen. apply certified_device in Hc as Hd. unfold deviceOf in Hd. rewrite Hsg, Hd.
    rewrite (proj2 (strictEqual_str _ _)) by done. cbn [negb orb]. rewrite Hv. cbn [mbind result_bind].
    apply IH; [by eapply behind_next|lia].
Qed.


(** [above c a]: [a] is [c] or on the chain of issuers of [c]. *)
Inductive above : value -> value -> Prop :=
| above_self c : above c c
| above_issuer c issuer hash a :
    issuer ∈ certificates -> c.["payload"].["issuerCertificateHash"] = Str hash -> certificateHash issuer = Ok hash ->
    above issuer a -> above c a.

Lemma above_root c a : c.["payload"].["issuerCertificateHash"] = Null -> above c a -> a = c.
Proof. intros Hn Ha. destruct Ha; [done|congruence]. Qed.

Lemma above_next c issuer hash a :
  issuer ∈ certificates -> c.["payload"].["issuerCertificateHash"] = Str hash -> certificateHash issuer = Ok hash ->
  above c a <-> a = c \/ above issuer a.
Proof.
  intros Hi Hh Hhash. split; [|intros [->|Ha]; [apply above_self|by eapply above_issuer]].
  intros Ha. destruct Ha as [|c issuer' hash' a Hi' Hh' Hhash' Ha]; [by left|right].
  assert (issuer = issuer') as <-; [|done]. apply (catalog_distinct _ Hcat); congruence.
Qed.

Lemma certified_payloadId n c id : certified n c id -> payloadId c = Ok (Str id).
Proof.
  intros Hc. destruct (certified_stated _ _ _ Hc) as [_ Hst]. destruct (stated_check c id [] Hst) as [Hp _]; [apply not_elem_of_nil|].
  unfold payloadId. rewrite Hp. cbn [mbind result_bind]. apply certified_device in Hc. unfold deviceOf in Hc. rewrite <-Hc.
  destruct (c.["payload"]); done.
Qed.

Lemma seenBefore_str id seen : seenBefore (Str id) (map Str seen) = bool_decide (id ∈ seen).
Proof.
  symmetry. unfold seenBefore. apply eq_true_iff_eq. rewrite bool_decide_eq_true, existsb_exists. split.
  - intros Hin. exists (Str id). split; [by apply in_map, list_elem_of_In|by apply strictEqual_str].
  - intros (v & (s & <- & Hs)%in_map_iff & He%strictEqual_str). injection He as ->. by apply list_elem_of_In.
Qed.

Lemma hitRevoked id revoked : existsb (fun r => strictEqual (Str id) (Str r)) revoked = bool_decide (id ∈ revoked).
Proof.
  apply eq_true_iff_eq. rewrite bool_decide_eq_true, existsb_exists. split.
  - intros (r & Hr & He%strictEqual_str). injection He as ->. by apply list_elem_of_In.
  - intros Hin. exists id. split; [by apply list_elem_of_In|by apply strictEqual_str].
Qed.

(** A chain that ends at a certificate without an issuer. *)
Definition grounded (c : value) : Prop := exists a, above c a /\ a.["payload"].["issuerCertificateHash"] = Null.

Lemma certified_grounded n c id : certified n c id -> grounded c.
Proof.
  induction 1 as [c id Hin Hst Hh Hsg Hv|n c id issuer hash iid Hin Hst Hh Hhash Hen Hsg Hv Hc (a & Ha & Hroot)].
  - exists c. split; [apply above_self|done].
  - exists a. split; [|done]. eapply above_issuer; [apply (certified_stated _ _ _ Hc)|done..].
Qed.

(** The certificates a walk has passed before it comes to [c]: each has an issuer,
    which was passed or is [c]. *)
Record passed (c : value) (trail : list value) : Prop := {
  passed_elem : forall s, s ∈ trail -> s ∈ certificates;
  passed_once : NoDup (map deviceOf trail);
  passed_next : forall s, s ∈ trail -> exists issuer hash, issuer ∈ certificates /\
    s.["payload"].["issuerCertificateHash"] = Str hash /\ certificateHash issuer = Ok hash /\ (issuer = c \/ issuer ∈ trail) }.

Lemma passed_nil c : passed c [].
Proof. split; [by intros ? ?%elem_of_nil|constructor|by intros ? ?%elem_of_nil]. Qed.

Lemma passed_bound c trail : passed c trail -> (length trail <= length certificates)%nat.
Proof.
  intros Hp. rewrite <-(length_map deviceOf trail), <-(length_map deviceOf certificates). apply seen_bound; [apply (passed_once _ _ Hp)|].
  intros d (s & -> & Hs)%list_elem_of_fmap. apply list_elem_of_fmap. exists s. split; [done|by apply (passed_elem _ _ Hp)].
Qed.

Lemma passed_seen c trail id : passed c trail -> c ∈ certificates -> deviceOf c = Str id ->
  seenBefore (Str id) (map deviceOf trail) = true <-> c ∈ trail.
Proof.
  intros Hp Hc Hd. unfold seenBefore. rewrite existsb_exists. split.
  - intros (v & (s & <- & Hs%list_elem_of_In)%in_map_iff & He). rewrite <-Hd in He.
    assert (s = c) as <-; [|done]. eapply device_inj; [done|by apply (passed_elem _ _ Hp)|done|].
    destruct (catalog_ids _ Hcat s) as [sid Hsid%payloadId_eq]; [by apply (passed_elem _ _ Hp)|].
    rewrite Hsid, Hd in *. by apply strictEqual_str in He.
  - intros Hin. exists (Str id). split; [rewrite <-Hd; by apply in_map, list_elem_of_In|by apply strictEqual_str].
Qed.

Lemma passed_issuer c trail issuer hash : passed c trail -> c ∈ certificates -> c ∉ trail -> issuer ∈ certificates ->
  c.["payload"].["issuerCertificateHash"] = Str hash -> certificateHash issuer = Ok hash -> passed issuer (c :: trail).
Proof.
  intros Hp Hc Hnew Hi Hh Hhash. split.
  - intros s [->|Hs]%elem_of_cons; [done|by apply (passed_elem _ _ Hp)].
  - cbn. constructor; [|apply (passed_once _ _ Hp)]. intros (s & Hd & Hs)%list_elem_of_fmap. apply Hnew.
    assert (c = s) as ->; [|done]. eapply device_inj; [done|done|by apply (passed_elem _ _ Hp)|done].
  - intros s [->|Hs]%elem_of_cons; [exists issuer, hash; auto|].
    destruct (passed_next _ _ Hp s Hs) as (i & h & Hi' & Hh' & Hhash' & Hcase). exists i, h. split_and!; [done..|right].
    destruct Hcase as [->|Hin]; [by left|by right].
Qed.

(** A walk that comes back has passed everything above. *)
Lemma passed_above c trail a : passed c trail -> c ∈ trail -> above c a -> a ∈ trail.
Proof.
  intros Hp Hc Ha. assert (forall x y, above x y -> x ∈ trail -> y ∈ trail) as Hall; [|by eapply Hall].
  clear a Ha. induction 1 as [x|x issuer hash y Hi Hh Hhash _ IH]; [done|]. intros Hx. apply IH.
  destruct (passed_next _ _ Hp x Hx) as (i & h & Hi' & Hh' & Hhash' & Hcase).
  assert (issuer = i) as ->; [|by destruct Hcase as [->|?]]. apply (catalog_distinct _ Hcat); congruence.
Qed.

Lemma above_stuck m c a : byHash certificates = Ok m -> issuerOf c.["payload"].["issuerCertificateHash"] m = None -> above c a -> a = c.
Proof.
  intros Hm Hn Ha. destruct Ha as [|c issuer hash a Hi Hh Hhash _]; [done|]. rewrite Hh in Hn. cbn [issuerOf] in Hn.
  rewrite (proj2 (byHash_exact _ _ _ issuer Hcat Hm)) in Hn; done.
Qed.

Lemma issuerOf_str m v issuer : byHash certificates = Ok m -> issuerOf v m = Some issuer ->
  exists hash, v = Str hash /\ issuer ∈ certificates /\ certificateHash issuer = Ok hash.
Proof. intros Hm Hi. destruct v; cbn in Hi; try done. eexists. split; [done|by eapply byHash_sound]. Qed.

Lemma chainRevoked_step fuel m revoked c id seen : payloadId c = Ok (Str id) -> c.["payload"].["issuerCertificateHash"] <> Null ->
  chainRevoked (S fuel) m revoked (Some c) seen =
  if bool_decide (id ∈ revoked) || seenBefore (Str id) seen then Ok true else
  chainRevoked fuel m revoked (issuerOf c.["payload"].["issuerCertificateHash"] m) (Str id :: seen).
Proof.
  intros Hid Hh. cbn [chainRevoked]. rewrite Hid. cbn [mbind result_bind]. rewrite hitRevoked.
  destruct (_ || _); [done|]. by destruct (c.["payload"].["issuerCertificateHash"]).
Qed.

Lemma chainReaches_step fuel m root c id seen : payloadId c = Ok (Str id) -> c.["payload"].["issuerCertificateHash"] <> Null ->
  chainReaches (S fuel) m root (Some c) seen =
  if bool_decide (id = root) then Ok true else if seenBefore (Str id) seen then Ok false else
  chainReaches fuel m root (issuerOf c.["payload"].["issuerCertificateHash"] m) (Str id :: seen).
Proof.
  intros Hid Hh. cbn [chainReaches]. rewrite Hid. cbn [mbind result_bind].
  replace (strictEqual (Str id) (Str root)) with (bool_decide (id = root)).
  - destruct (bool_decide _); [done|]. destruct (seenBefore _ _); [done|]. by destruct (c.["payload"].["issuerCertificateHash"]).
  - apply eq_true_iff_eq. rewrite bool_decide_eq_true, strictEqual_str. split; congruence.
Qed.

Lemma passed_revoked m revoked fuel c trail :
  byHash certificates = Ok m -> c ∈ certificates -> passed c trail -> (S (length certificates) < fuel + length trail)%nat ->
  exists b, chainRevoked fuel m revoked (Some c) (map deviceOf trail) = Ok b /\
    (b = false -> grounded c /\ forall a r, above c a -> deviceOf a = Str r -> r ∉ revoked) /\
    (b = true -> ~ grounded c \/ exists a r, above c a /\ deviceOf a = Str r /\ r ∈ revoked).
Proof.
  intros Hm. revert c trail. induction fuel as [|fuel IH]; intros c trail Hc Hp Hf; [apply passed_bound in Hp; lia|].
  destruct (catalog_ids _ Hcat c Hc) as [id Hid]. pose proof (payloadId_eq _ _ Hid) as Hd.
  destruct (decide (id ∈ revoked)) as [Hr|Hr].
  { exists true. cbn [chainRevoked]. rewrite Hid. cbn [mbind result_bind]. rewrite hitRevoked, bool_decide_eq_true_2 by done. split; [done|]. split; [done|].
    intros _. right. exists c, id. split; [apply above_self|done]. }
  destruct (seenBefore (Str id) (map deviceOf trail)) eqn:Hseen.
  { exists true. cbn [chainRevoked]. rewrite Hid. cbn [mbind result_bind]. rewrite Hseen, orb_true_r. split; [done|]. split; [done|].
    intros _. left. intros (a & Ha & Hroot). apply (passed_seen _ _ _ Hp Hc Hd) in Hseen.
    destruct (passed_next _ _ Hp a (passed_above _ _ _ Hp Hseen Ha)) as (i & h & _ & Hh & _). congruence. }
  destruct (decide (c.["payload"].["issuerCertificateHash"] = Null)) as [Hn|Hn].
  { exists false. cbn [chainRevoked]. rewrite Hid. cbn [mbind result_bind]. rewrite hitRevoked, Hseen, bool_decide_eq_false_2 by done. rewrite Hn. split; [done|].
    split; [|done]. intros _. split; [exists c; split; [apply above_self|done]|]. intros a r ->%above_root Hda; [congruence|done]. }
  rewrite (chainRevoked_step _ _ _ _ id) by done. rewrite Hseen, bool_decide_eq_false_2 by done. cbn [orb].
  destruct (issuerOf _ m) as [issuer|] eqn:Hi.
  - destruct (issuerOf_str _ _ _ Hm Hi) as (hash & Hh & Hic & Hih). rewrite <-Hd.
    destruct (IH issuer (c :: trail)) as (b & Hb & Hfalse & Htrue); [done| |cbn; lia|].
    { eapply passed_issuer; [done..| |done|done|done]. intros Hin%(passed_seen _ _ _ Hp Hc Hd). congruence. }
    exists b. split; [exact Hb|]. unfold grounded in *. setoid_rewrite (above_next c issuer hash); [|done..]. split.
    + intros [(a & Ha & Hroot) Hnone]%Hfalse. split; [eauto|]. intros a' r [->|Ha'] Hda; [congruence|by eapply Hnone].
    + intros [Hng|(a & r & Ha & Hda & Hra)]%Htrue; [left|right; eauto 6]. intros (a & [->|Ha] & Hroot); [done|eauto].
  - destruct fuel as [|fuel]; [apply passed_bound in Hp; lia|]. exists true. split; [done|]. split; [done|]. intros _. left.
    intros (a & ->%(above_stuck m) & Hroot); done.
Qed.

Lemma passed_reaches m root fuel c trail :
  byHash certificates = Ok m -> c ∈ certificates -> passed c trail -> (S (length certificates) < fuel + length trail)%nat ->
  (forall s, s ∈ trail -> deviceOf s <> Str root) ->
  exists b, chainReaches fuel m root (Some c) (map deviceOf trail) = Ok b /\
    (b = true <-> exists a, above c a /\ deviceOf a = Str root).
Proof.
  intros Hm. revert c trail. induction fuel as [|fuel IH]; intros c trail Hc Hp Hf Hroot; [apply passed_bound in Hp; lia|].
  destruct (catalog_ids _ Hcat c Hc) as [id Hid]. pose proof (payloadId_eq _ _ Hid) as Hd.
  destruct (decide (id = root)) as [->|Hr].
  { exists true. cbn [chainReaches]. rewrite Hid. cbn [mbind result_bind]. rewrite (proj2 (strictEqual_str _ _)) by done. split; [done|]. split; [|done].
    intros _. exists c. split; [apply above_self|done]. }
  assert (strictEqual (Str id) (Str root) = false) as Hne.
  { apply not_true_iff_false. intros He%strictEqual_str. congruence. }
  destruct (seenBefore (Str id) (map deviceOf trail)) eqn:Hseen.
  { exists false. cbn [chainReaches]. rewrite Hid. cbn [mbind result_bind]. rewrite Hne, Hseen. split; [done|]. split; [done|].
    intros (a & Ha & Hda). apply (passed_seen _ _ _ Hp Hc Hd) in Hseen. by destruct (Hroot a (passed_above _ _ _ Hp Hseen Ha)). }
  destruct (decide (c.["payload"].["issuerCertificateHash"] = Null)) as [Hn|Hn].
  { exists false. cbn [chainReaches]. rewrite Hid. cbn [mbind result_bind]. rewrite Hne, Hseen, Hn. split; [done|].
    split; [done|]. intros (a & ->%above_root & Hda); [congruence|done]. }
  rewrite (chainReaches_step _ _ _ _ id) by done. rewrite Hseen, bool_decide_eq_false_2 by done.
  destruct (issuerOf _ m) as [issuer|] eqn:Hi.
  - destruct (issuerOf_str _ _ _ Hm Hi) as (hash & Hh & Hic & Hih). rewrite <-Hd.
    destruct (IH issuer (c :: trail)) as (b & Hb & Hiff); [done| |cbn; lia| |].
    { eapply passed_issuer; [done..| |done|done|done]. intros Hin%(passed_seen _ _ _ Hp Hc Hd). congruence. }
    { intros s [->|Hs]%elem_of_cons; [congruence|by apply Hroot]. }
    exists b. split; [exact Hb|]. rewrite Hiff. setoid_rewrite (above_next c issuer hash); [|done..]. split; [naive_solver|].
    intros (a & [->|Ha] & Hda); [congruence|eauto].
  - destruct fuel as [|fuel]; [apply passed_bound in Hp; lia|]. exists false. split; [done|]. split; [done|].
    intros (a & ->%(above_stuck m) & Hda); [congruence|done..].
Qed.

Lemma isChainRevoked_decides id revoked c : c ∈ certificates -> deviceOf c = Str id ->
  exists b, isChainRevoked id revoked certificates = Ok b /\
    (b = false -> grounded c /\ forall a r, above c a -> deviceOf a = Str r -> r ∉ revoked) /\
    (b = true -> ~ grounded c \/ exists a r, above c a /\ deviceOf a = Str r /\ r ∈ revoked).
Proof.
  intros Hc Hd. destruct (byHash_total certificates (catalog_hashes _ Hcat)) as [m Hm]. unfold isChainRevoked. rewrite Hm. cbn [mbind result_bind].
  rewrite (findDevice_exact _ c) by done. cbn [mbind result_bind]. apply (passed_revoked m revoked _ c []); [done..|apply passed_nil|cbn; lia].
Qed.

(** A device without a certificate counts as revoked. *)
Lemma isChainRevoked_missing id revoked : ~ Exists (fun c => deviceOf c = Str id) certificates -> isChainRevoked id revoked certificates = Ok true.
Proof.
  intros Hid. destruct (byHash_total certificates (catalog_hashes _ Hcat)) as [m Hm]. unfold isChainRevoked. rewrite Hm. cbn [mbind result_bind].
  assert (findDevice (Str id) certificates = Ok None) as ->; [|done]. pose proof (catalog_ids _ Hcat) as Hids. clear Hcat Hm m.
  unfold findDevice. induction certificates as [|c l IH]; [done|]. rewrite Exists_cons in Hid.
  cbn [findR]. destruct (Hids c ltac:(left)) as [id' Hid']. rewrite Hid'. cbn [mbind result_bind].
  destruct (strictEqual (Str id') (Str id)) eqn:He; [apply strictEqual_str in He; apply payloadId_eq in Hid'; destruct Hid; left; congruence|].
  apply IH; [tauto|]. intros c' Hc'. apply Hids. by right.
Qed.

Lemma isChainRevoked_exact n c id revoked :
  certified n c id -> exists b, isChainRevoked id revoked certificates = Ok b /\
    (b = true <-> exists a r, above c a /\ deviceOf a = Str r /\ r ∈ revoked).
Proof.
  intros Hc. destruct (isChainRevoked_decides id revoked c) as (b & Hb & Hfalse & Htrue);
    [apply (certified_stated _ _ _ Hc)|by eapply certified_device|]. exists b. split; [done|]. split.
  - intros [Hng|Hrev]%Htrue; [|done]. destruct Hng. by eapply certified_grounded.
  - intros (a & r & Ha & Hda & Hra). destruct b; [done|]. destruct (Hfalse eq_refl) as [_ Hnone]. by destruct (Hnone a r).
Qed.

Lemma isCertificateDescendant_exact c root :
  c ∈ certificates -> exists b, isCertificateDescendant c root certificates = Ok b /\
    (b = true <-> exists a, above c a /\ deviceOf a = Str root).
Proof.
  intros Hc. destruct (byHash_total certificates (catalog_hashes _ Hcat)) as [m Hm]. unfold isCertificateDescendant.
  rewrite Hm. cbn [mbind result_bind]. apply (passed_reaches m root _ c []); [done..|apply passed_nil|cbn; lia|by intros ? ?%elem_of_nil].
Qed.

Lemma verifyDevice_exact n c id :
  publicKeyId (publicKey identity) = Ok (personId identity) -> (length certificates <= 32)%nat -> certified n c id ->
  verifyDeviceCertificateChain identity domain id certificates = Ok (c.["payload"].["devicePublicKey"]).
Proof.
  intros Hk Hlen Hc. destruct (byHash_total certificates (catalog_hashes _ Hcat)) as [m Hm].
  unfold verifyDeviceCertificateChain. rewrite Hk. cbn [mbind result_bind]. rewrite bool_decide_eq_true_2 by done. cbn [negb].
  destruct (certified_stated _ _ _ Hc) as [Hin _]. pose proof (certified_device _ _ _ Hc) as Hd. pose proof (certified_bound _ _ _ Hc) as Hn.
  assert (0 < length certificates)%nat by (destruct certificates; [by apply elem_of_nil in Hin|cbn; lia]).
  destruct (Nat.ltb_spec (length certificates) 1), (Nat.ltb_spec 32 (length certificates)); try lia. cbn [orb].
  rewrite Hm. cbn [mbind result_bind]. rewrite (findDevice_exact _ c) by done. cbn [mbind result_bind].
  eapply certified_verifies; [done..|by intros ? ?%elem_of_nil|lia].
Qed.
End Catalog.
End Certified.

(** The walks up a chain of certificates with string ids end. *)
Section Strings.
Variable certificates : list value.
Hypothesis Hids : forall c, c ∈ certificates -> exists id, payloadId c = Ok (Str id).

Lemma finished_revoked m revoked fuel current seen :
  byHash certificates = Ok m -> (forall c, current = Some c -> c ∈ certificates) -> NoDup seen ->
  (forall s, s ∈ seen -> Str s ∈ map deviceOf certificates) -> (S (length certificates) < fuel + length seen)%nat ->
  finished (chainRevoked fuel m revoked current (map Str seen)).
Proof.
  intros Hm. revert current seen. induction fuel as [|fuel IH]; intros current seen Hc Hn Hs Hf.
  { eapply walk_bound; [|done..]. lia. }
  cbn [chainRevoked]. destruct current as [c|]; [|done]. destruct (Hids c (Hc c eq_refl)) as [id Hid]. rewrite Hid.
  cbn [mbind result_bind]. rewrite seenBefore_str. destruct (existsb _ revoked); [done|]. cbn [orb]. case_bool_decide as Hin; [done|].
  assert (forall hash, finished (chainRevoked fuel m revoked (issuerOf hash m) (Str id :: map Str seen))) as Hnext; [|case_match; auto; done].
  intros hash. apply (IH _ (id :: seen)); [intros c'; by apply issuerOf_elem|by constructor| |cbn; lia].
  intros s [->|Hs']%elem_of_cons; [|by apply Hs]. apply list_elem_of_fmap. exists c. split; [|by apply Hc].
  symmetry. by apply payloadId_eq.
Qed.

Lemma finished_reaches m root fuel current seen :
  byHash certificates = Ok m -> (forall c, current = Some c -> c ∈ certificates) -> NoDup seen ->
  (forall s, s ∈ seen -> Str s ∈ map deviceOf certificates) -> (S (length certificates) < fuel + length seen)%nat ->
  finished (chainReaches fuel m root current (map Str seen)).
Proof.
  intros Hm. revert current seen. induction fuel as [|fuel IH]; intros current seen Hc Hn Hs Hf.
  { eapply walk_bound; [|done..]. lia. }
  cbn [chainReaches]. destruct current as [c|]; [|done]. destruct (Hids c (Hc c eq_refl)) as [id Hid]. rewrite Hid.
  cbn [mbind result_bind]. rewrite seenBefore_str. destruct (strictEqual _ _); [done|]. case_bool_decide as Hin; [done|].
  assert (forall hash, finished (chainReaches fuel m root (issuerOf hash m) (Str id :: map Str seen))) as Hnext; [|case_match; auto; done].
  intros hash. apply (IH _ (id :: seen)); [intros c'; by apply issuerOf_elem|by constructor| |cbn; lia].
  intros s [->|Hs']%elem_of_cons; [|by apply Hs]. apply list_elem_of_fmap. exists c. split; [|by apply Hc].
  symmetry. by apply payloadId_eq.
Qed.

Lemma finished_isChainRevoked id revoked : finished (isChainRevoked id revoked certificates).
Proof.
  apply finished_bind; [apply finished_byHash|]. intros m Hm. apply finished_bind; [apply finished_findDevice|].
  intros [c|] Hc; [apply findDevice_some in Hc as [Hc _]|]; apply (finished_revoked m revoked _ _ []);
    [done|by intros ? [= <-]|constructor|by intros ? ?%elem_of_nil|cbn; lia|done|done|constructor|by intros ? ?%elem_of_nil|cbn; lia].
Qed.

Lemma finished_descendants root : finished (identityDeviceDescendants root certificates).
Proof.
  apply finished_foldR. intros subtree c Hc. apply finished_bind; [|done].
  apply finished_bind; [apply finished_byHash|]. intros m Hm.
  apply (finished_reaches m root _ _ []); [done|by intros ? [= <-]|constructor|by intros ? ?%elem_of_nil|cbn; lia].
Qed.
End Strings.

Lemma finished_verifyDevice identity domain id certificates : finished (verifyDeviceCertificateChain identity domain id certificates).
Proof.
  apply finished_bind; [apply finished_publicKeyId|]. intros k _. case_match; [done|]. case_match; [done|].
  apply finished_bind; [apply finished_byHash|]. intros m Hm. apply finished_bind; [apply finished_findDevice|].
  intros [c|] Hc; [|done]. apply findDevice_some in Hc as [Hc _].
  eapply finished_verifyChain; [done|done|constructor|by intros ? ?%elem_of_nil|cbn; lia].
Qed.
End Walks.

Section Check.
Context `{Sha256}.

Lemma mapped_elem {A} (f : value -> result A) l k :
  map f l = map Ok k -> NoDup k ->
  (forall c, c ∈ l -> exists a, a ∈ k /\ f c = Ok a) /\ (forall c c', c ∈ l -> c' ∈ l -> f c = f c' -> c = c').
Proof.
  revert k. induction l as [|c l IH]; intros [|a k]; try done.
  { intros _ _. split; [by intros ? ?%elem_of_nil|by intros ? ? ?%elem_of_nil]. }
  intros [= Hc Hl] [Ha Hk]%NoDup_cons. destruct (IH k Hl Hk) as [Hall Hinj]. split.
  - intros x [->|Hx]%elem_of_cons; [exists a; split; [left|done]|]. destruct (Hall x Hx) as (b & Hb & Hf). exists b. split; [by right|done].
  - intros x y [->|Hx]%elem_of_cons [->|Hy]%elem_of_cons; [done|..|auto]; intros He.
    + destruct (Hall y Hy) as (b & Hb & Hf). congruence.
    + destruct (Hall x Hx) as (b & Hb & Hf). congruence.
Qed.

Lemma catalog_check certificates ids hashes :
  map payloadId certificates = map Ok (map Str ids) -> map certificateHash certificates = map Ok hashes ->
  NoDup ids -> NoDup hashes -> catalog certificates.
Proof.
  intros Hids Hh Hn Hnh. assert (NoDup (map Str ids)) as Hns by (apply NoDup_fmap_2; [intros ?? [=]; done|done]).
  destruct (mapped_elem _ _ _ Hids Hns) as [Hid _], (mapped_elem _ _ _ Hh Hnh) as [Hhash Hinj]. split; [..|done].
  - intros c (v & (s & -> & _)%list_elem_of_fmap & Hc)%Hid. by exists s.
  - replace (map deviceOf certificates) with (map Str ids); [done|]. clear - Hids.
    revert Hids. generalize (map Str ids). induction certificates as [|c l IH]; intros [|v k]; try done.
    intros [= Hc%payloadId_eq Hl]. cbn. rewrite Hc. f_equal. by apply IH.
  - intros c (h & _ & Hc)%Hhash. by exists h.
Qed.
End Check.

(** ** A small catalog to run the definitions with: the identity's first
    device, a second one it enrolled, and a third one that may not enroll. *)
Module Sample.
#[local] Existing Instance checksumSha256.
#[local] Existing Instance toyEd25519.

Definition keyText (key : N) : list N := toBase64Url (toyPublic key).
Definition keyIdOf (key : N) : list N := sha256Base64Url (toyPublic key).
Definition domain : list N := js "MATCH/1".
Definition identity : PublicIdentity := mkIdentity (keyIdOf 1) (keyText 1) (js "Ada").

Definition certificate (signer key : N) (enroll : bool) (issuer : value) : value :=
  match signEnvelope (H := toyEd25519) [signer] (Obj
    [(js "kind", Str (js "device-certificate")); (js "version", Num (Int 1));
     (js "personId", Str (personId identity)); (js "deviceId", Str (keyIdOf key));
     (js "devicePublicKey", Str (keyText key)); (js "canEnrollDevices", Bool enroll);
     (js "issuerCertificateHash", issuer)]) (keyIdOf signer) domain with
  | Ok envelope => envelope
  | Throw _ => Undefined
  end.

Definition hashOf (c : value) : value := match certificateHash c with Ok h => Str h | Throw _ => Undefined end.

Definition first : value := Eval vm_compute in certificate 1 2 true Null.
Definition second : value := Eval vm_compute in certificate 2 3 true (hashOf first).
Definition third : value := Eval vm_compute in certificate 3 4 false (hashOf second).
Definition certificates : list value := [first; second; third].

Definition hashes : list (list N) :=
  Eval vm_compute in omap (fun c => match certificateHash c with Ok h => Some h | Throw _ => None end) certificates.

Lemma certificates_catalog : catalog certificates.
Proof.
  apply (catalog_check _ (map keyIdOf [2; 3; 4]%N) hashes); [vm_compute; reflexivity..| |];
    apply (bool_decide_eq_true_1 _); vm_compute; reflexivity.
Qed.

Lemma third_key : verifyDeviceCertificateChain identity domain (keyIdOf 4) certificates = Ok (Str (keyText 4)).
Proof. vm_compute. reflexivity. Qed.
End Sample.

Lemma verifyDevice_sound `{Sha256} `{Ed25519} identity domain id certificates key :
  verifyDeviceCertificateChain identity domain id certificates = Ok key ->
  publicKeyId (publicKey identity) = Ok (personId identity) /\ (1 <= length certificates <= 32)%nat /\
  exists n c, certified identity domain certificates n c id /\ key = c.["payload"].["devicePublicKey"].
Proof.
  unfold verifyDeviceCertificateChain. intros (k & Hk & Hr)%bind_ok. revert Hr. guard_passed as Hg.
  rewrite negb_false_iff, bool_decide_eq_true in Hg. subst k. guard_passed as Hg.
  apply orb_false_iff in Hg as [Hl1%Nat.ltb_ge Hl2%Nat.ltb_ge]. intros (m & Hm & Hr)%bind_ok.
  apply bind_ok in Hr as ([c|] & Hc & Hr); [|done]. apply findDevice_some in Hc as [Hc Hd].
  split; [done|]. split; [done|]. destruct (certified_chain _ _ _ _ _ _ _ _ _ Hr Hm Hc) as (-> & n & id' & Hcert).
  exists n, c. split; [|done]. apply certified_device in Hcert as Hd'. rewrite Hd in Hd'. by injection Hd' as ->.
Qed.

(** C35. A key that chain verification returns for a device hashes to the
    device's id and is stated by a certificate of the list from which
    others of the list lead to the identity: each names the person, each is signed
    by the device of the next, which is allowed to enroll, and the last by the
    identity key, which hashes to the person's id. *)
Theorem certificate_chain_sound `{Sha256} `{Ed25519} identity domain id certificates key :
  verifyDeviceCertificateChain identity domain id certificates = Ok key ->
  publicKeyId (publicKey identity) = Ok (personId identity) /\ publicKeyIdOf key = Ok id /\
  (1 <= length certificates <= 32)%nat /\
  exists n c, certified identity domain certificates n c id /\ key = c.["payload"].["devicePublicKey"].
Proof.
  intros (Hk & Hlen & n & c & Hc & ->)%verifyDevice_sound. split; [done|].
  destruct (certified_stated _ _ _ _ _ _ Hc) as [_ (_ & _ & _ & Hkey & _)]. split; [done|]. split; [done|]. by exists n, c.
Qed.

Lemma certificate_chain_sound_witness :
  exists n c, certified (H := checksumSha256) (H0 := toyEd25519) Sample.identity Sample.domain Sample.certificates n c (Sample.keyIdOf 4).
Proof.
  destruct (certificate_chain_sound (H := checksumSha256) (H0 := toyEd25519) _ _ _ _ _ Sample.third_key)
    as (_ & _ & _ & n & c & Hc & _). by exists n, c.
Defined.

(** C36. On every catalog, one certificate per device and no two with one
    digest, whether or not its certificates verify or lead anywhere, the three
    walks decide what they are for.  Verification returns a key exactly when
    the identity's key hashes to the person's id, the catalog has at most 32
    certificates and the device has a chain to the identity key whose signatures
    verify, and the key is the one the device's certificate states.  A device is not
    revoked exactly when it has a certificate, its issuers lead to one without
    an issuer, and neither it nor an issuer above it is in the revoked set.  A
    certificate is below a device exactly when that device's certificate is on
    its chain of issuers. *)
Theorem certificate_walks_exact `{Sha256} `{Ed25519} certificates :
  catalog certificates ->
  (forall identity domain id key, verifyDeviceCertificateChain identity domain id certificates = Ok key <->
    publicKeyId (publicKey identity) = Ok (personId identity) /\ (length certificates <= 32)%nat /\
    exists n c, certified identity domain certificates n c id /\ key = c.["payload"].["devicePublicKey"]) /\
  (forall id revoked, exists b, isChainRevoked id revoked certificates = Ok b /\
    (b = false <-> exists c, c ∈ certificates /\ deviceOf c = Str id /\ grounded certificates c /\
      forall a r, above certificates c a -> deviceOf a = Str r -> r ∉ revoked)) /\
  (forall c root, c ∈ certificates -> exists b, isCertificateDescendant c root certificates = Ok b /\
    (b = true <-> exists a, above certificates c a /\ deviceOf a = Str root)).
Proof.
  intros Hcat. split_and!.
  - intros identity domain id key. split; [|by intros (Hk & Hlen & n & c & Hc & ->); eapply verifyDevice_exact].
    intros (Hk & [_ Hlen] & Hc)%verifyDevice_sound. done.
  - intros id revoked. destruct (decide (Exists (fun c => deviceOf c = Str id) certificates)) as [(c & Hc & Hd)%Exists_exists|Hmissing].
    + destruct (isChainRevoked_decides certificates Hcat id revoked c) as (b & Hb & Hfalse & Htrue); [done..|]. exists b. split; [done|].
      split; [intros [Hg Hnone]%Hfalse; by exists c|]. intros (c' & Hc' & Hd' & Hg & Hnone).
      assert (c' = c) as -> by (eapply device_inj; [done..|congruence]).
      destruct b; [|done]. destruct (Htrue eq_refl) as [Hng|(a & r & Ha & Hda & Hra)]; [done|by destruct (Hnone a r)].
    + exists true. split; [by apply isChainRevoked_missing|]. split; [done|]. intros (c & Hc & Hd & _). destruct Hmissing.
      apply Exists_exists. by exists c.
  - intros c root Hc. by apply isCertificateDescendant_exact.
Qed.

(** The third device has a chain to the identity key, and nobody being revoked it
    is not. *)
Lemma certificate_walks_exact_witness :
  (exists n c, certified (H := checksumSha256) (H0 := toyEd25519) Sample.identity Sample.domain Sample.certificates n c (Sample.keyIdOf 4)) /\
  exists c, c ∈ Sample.certificates /\ deviceOf c = Str (Sample.keyIdOf 4) /\ grounded (H := checksumSha256) Sample.certificates c.
Proof.
  destruct (certificate_walks_exact (H := checksumSha256) (H0 := toyEd25519) Sample.certificates Sample.certificates_catalog)
    as (Hverify & Hrevoked & _).
  split.
  - destruct (proj1 (Hverify _ _ _ _) Sample.third_key) as (_ & _ & n & c & Hc & _). exists n, c. exact Hc.
  - destruct (Hrevoked (Sample.keyIdOf 4) []) as (b & Hb & Hiff).
    assert (isChainRevoked (H := checksumSha256) (Sample.keyIdOf 4) [] Sample.certificates = Ok false) as Hfalse by (vm_compute; reflexivity).
    rewrite Hfalse in Hb. injection Hb as <-. destruct (proj1 Hiff eq_refl) as (c & Hc & Hd & Hg & _). exists c. split_and!; assumption.
Defined.

(** The walks up a chain end on any certificates, whatever their issuer
    hashes: none exhausts the fuel of one step per certificate. *)
Theorem chain_walks_terminate `{Sha256} `{Ed25519} certificates :
  (forall c, c ∈ certificates -> exists id, payloadId c = Ok (Str id)) ->
  (forall identity domain id, finished (verifyDeviceCertificateChain identity domain id certificates)) /\
  (forall id revoked, finished (isChainRevoked id revoked certificates)) /\
  (forall root, finished (identityDeviceDescendants root certificates)).
Proof.
  intros Hids. split_and!; [intros; apply finished_verifyDevice|intros; by apply finished_isChainRevoked|].
  intros; by apply finished_descendants.
Qed.

(** A certificate whose issuer is not in the list. *)
Lemma chain_walks_terminate_witness :
  finished (isChainRevoked (H := checksumSha256) (Sample.keyIdOf 4) [] [Sample.third]).
Proof.
  apply (chain_walks_terminate (H := checksumSha256) (H0 := toyEd25519) [Sample.third]).
  intros c ->%list_elem_of_singleton. exists (Sample.keyIdOf 4). vm_compute. reflexivity.
Defined.
