(* ===== verification/Authority.v ===== *)
(** * Device authority of an identity

    [verifyIdentityDeviceAuthority] of [packages/mesh-identity/src/index.ts]
    and what is decided from a verified authority: a catalog of device
    certificates with a history of revocations in revision order.  What the
    source keeps in a [WeakMap] from authority to state is the record
    [AuthorityState]; an authority that was not verified has none. *)
From stdpp Require Import base numbers list sorting strings sets.
From Stdlib Require Import ZArith NArith Lia.
From S2P Require Import Prelude Unicode Json Js Base64 Digest Envelope Certificates.
Local Open Scope js_scope.

(** [{ certificates, revocations }] *)
Definition evidence_value (certificates revocations : list value) : value :=
  Obj [(js "certificates", Arr certificates); (js "revocations", Arr revocations)].

Record AuthorityState := mkAuthorityState {
  state_identity : PublicIdentity;
  state_certificates : list value;
  (** the revocations in revision order, and as they were given *)
  state_revocations : list value;
  state_given : list value;
  state_revoked : list (list N);
  state_blocked : list (list N) }.

(** [left?.payload?.revision - right?.payload?.revision <= 0].  A revision that
    is not a number compares as equal here; the history is refused wherever the
    record ends up. *)
Definition revisionOf (record : value) : option Z :=
  match record.["payload"].["revision"] with Num (Int z) => Some z | _ => None end.
Definition revisionLeb (left right : value) : bool :=
  match revisionOf left, revisionOf right with Some x, Some y => (x <=? y)%Z | _, _ => true end.

Definition revocationKeys : list N := js "deviceId,kind,personId,profileOperationHashes,revision,version".

(** The devices of the certificates, each once. *)
Fixpoint collectDevices (byDevice : list (list N * value)) (certificates : list value)
    : result (list (list N * value)) :=
  match certificates with
  | [] => Ok byDevice
  | certificate :: rest =>
      match certificate.["payload"].["deviceId"] with
      | Str deviceId =>
          if map_has deviceId byDevice then Throw "Conflicting Identity device certificate"
          else collectDevices (map_set deviceId certificate byDevice) rest
      | _ => Throw "Conflicting Identity device certificate"
      end
  end.

(** [for (const deviceId of subtree)]: no device is revoked twice. *)
Fixpoint coverSubtree (covered subtree : list (list N)) : result (list (list N)) :=
  match subtree with
  | [] => Ok covered
  | deviceId :: rest =>
      if bool_decide (deviceId ∈ covered) then Throw "Overlapping Identity device revocation subtrees"
      else coverSubtree (covered ++ [deviceId]) rest
  end.

Definition isHash (hash : value) : bool := match hash with Str s => digest43 s | _ => false end.

(** The operations a revocation has observed of the devices it revokes. *)
Fixpoint countFrontier (subtree : list (list N)) (observed : Z) (entries : list (list N * value)) : result Z :=
  match entries with
  | [] => Ok observed
  | (deviceId, hashes) :: rest =>
      if negb (bool_decide (deviceId ∈ subtree)) || negb (isArray hashes) ||
         (512 <? length (items hashes))%nat || existsb (fun hash => negb (isHash hash)) (items hashes)
      then Throw "Invalid Identity profile revocation frontier" else
      let observed := (observed + Z.of_nat (length (items hashes)))%Z in
      if (512 <? observed)%Z then Throw "Identity profile revocation frontier exceeds the limit"
      else countFrontier subtree observed rest
  end.

Section Authority.
Context `{Sha256} `{Ed25519}.
Variable identity : PublicIdentity.
Variable domain : list N.

Section History.
Variable certificates : list value.
Variable byDevice : list (list N * value).

(** The shape of the record at [index] of the history; gives the device it
    revokes and the device that signed it. *)
Definition checkRevocation (index : nat) (revoked : list (list N)) (record : value) : result (list N * list N) :=
  let payload := record.["payload"] in
  let hashes := payload.["profileOperationHashes"] in
  if negb (truthy payload) || negb (isStr (js "mesh-identity-device-revocation") payload.["kind"]) ||
     negb (isInt 1 payload.["version"]) ||
     negb (bool_decide (joinTexts 44 (sortBy str_leb (map fst (members payload))) = revocationKeys)) ||
     negb (isStr (personId identity) payload.["personId"])
  then Throw "Invalid or stale Identity device revocation" else
  match payload.["deviceId"], record.["signerKeyId"] with
  | Str deviceId, Str signerId =>
      if negb (map_has deviceId byDevice) ||
         negb (isInt (Z.of_nat index + 1) payload.["revision"]) ||
         negb (isRecord hashes) || (256 <? length (members hashes))%nat ||
         bool_decide (signerId = deviceId) || bool_decide (deviceId ∈ revoked)
      then Throw "Invalid or stale Identity device revocation" else
      signerRevoked ← isChainRevoked signerId revoked certificates;
      if (signerRevoked : bool) then Throw "Invalid or stale Identity device revocation" else
      deviceRevoked ← isChainRevoked deviceId revoked certificates;
      if (deviceRevoked : bool) then Throw "Invalid or stale Identity device revocation" else
      Ok (deviceId, signerId)
  | _, _ => Throw "Invalid or stale Identity device revocation"
  end.

(** One record of the history: devices revoked, devices covered by a revoked
    subtree, and profile operations observed so far. *)
Definition applyRevocation (index : nat) (record : value) (state : list (list N) * list (list N) * Z)
    : result (list (list N) * list (list N) * Z) :=
  let '(revoked, covered, total) := state in
  '(deviceId, signerId) ← checkRevocation index revoked record;
  subtree ← identityDeviceDescendants deviceId certificates;
  covered' ← coverSubtree covered subtree;
  observed ← countFrontier subtree 0 (members record.["payload"].["profileOperationHashes"]);
  let total' := (total + observed)%Z in
  if (512 <? total')%Z then Throw "Identity profile revocation history exceeds the limit" else
  match map_get signerId byDevice with
  | None => Throw "Identity device lacks revocation authority"
  | Some signer =>
      payload ← get (js "payload") signer;
      enroll ← get (js "canEnrollDevices") payload;
      if negb (truthy enroll) then Throw "Identity device lacks revocation authority" else
      signerKey ← verifyDeviceCertificateChain identity domain signerId certificates;
      verified ← verifyEnvelope record signerKey domain;
      if negb (verified : bool) then Throw "Invalid Identity device revocation signature" else
      let revoked' := revoked ++ [deviceId] in
      managed ← activeManagementDevices identity certificates revoked' domain;
      if negb (managed : bool) then Throw "Identity device revocation would remove the last management authority"
      else Ok (revoked', covered', total')
  end.

Fixpoint applyRevocations (index : nat) (records : list value) (state : list (list N) * list (list N) * Z)
    : result (list (list N) * list (list N) * Z) :=
  match records with
  | [] => Ok state
  | record :: rest => state' ← applyRevocation index record state; applyRevocations (S index) rest state'
  end.
End History.

Definition verifyIdentityDeviceAuthority (evidence : value) : result AuthorityState :=
  if negb (truthy evidence) || negb (isArray evidence.["certificates"]) ||
     (length (items evidence.["certificates"]) <? 1)%nat || (256 <? length (items evidence.["certificates"]))%nat ||
     negb (isArray evidence.["revocations"]) || (256 <? length (items evidence.["revocations"]))%nat
  then Throw "Invalid Identity device authority evidence" else
  let certificates := items evidence.["certificates"] in
  byDevice ← collectDevices [] certificates;
  foldR (fun _ deviceId => verifyDeviceCertificateChain identity domain deviceId certificates;; Ok tt) tt (map fst byDevice);;
  let ordered := sortBy revisionLeb (items evidence.["revocations"]) in
  '(revoked, _, _) ← applyRevocations certificates byDevice 0 ordered ([], [], 0%Z);
  blocked ← filterR (fun deviceId => isChainRevoked deviceId revoked certificates) (map fst byDevice);
  Ok (mkAuthorityState identity certificates ordered (items evidence.["revocations"]) revoked blocked).

(** ** Decisions on a verified authority *)

(** [identityDeviceCertificateChain]: from the device's certificate to the root. *)
Fixpoint chainToRoot (fuel : nat) (m : list (list N * value)) (current : value) : result (list value) :=
  match fuel with
  | O => Throw "out of fuel"
  | S fuel =>
      payload ← get (js "payload") current;
      parentHash ← get (js "issuerCertificateHash") payload;
      match parentHash with
      | Null => Ok [current]
      | _ =>
          match issuerOf parentHash m with
          | None => Throw "Invalid device certificate chain"
          | Some issuer => rest ← chainToRoot fuel m issuer; Ok (current :: rest)
          end
      end
  end.

Definition identityDeviceCertificateChain (evidence : value) (deviceId : list N) : result (list value) :=
  state ← verifyIdentityDeviceAuthority evidence;
  if bool_decide (deviceId ∈ state_blocked state) then Throw "Identity device access is revoked" else
  byDevice ← collectDevices [] (state_certificates state);
  m ← byHash (state_certificates state);
  match map_get deviceId byDevice with
  | None => Throw "Missing device certificate"
  | Some current => chainToRoot (S (length (state_certificates state))) m current
  end.
End Authority.

Section Decisions.
Context `{Sha256} `{Ed25519}.
Variable domain : list N.

Definition authorizeIdentityDevice (authority : option AuthorityState) (deviceId : list N) : result value :=
  match authority with
  | None => Throw "Identity device authority was not verified"
  | Some state =>
      if bool_decide (deviceId ∈ state_blocked state) then Throw "Identity device access is revoked" else
      found ← findDevice (Str deviceId) (state_certificates state);
      enroll ← match found with
               | None => Ok Undefined
               | Some certificate => payload ← get (js "payload") certificate; get (js "canEnrollDevices") payload
               end;
      if negb (truthy enroll) then Throw "Device lacks Identity management authority" else
      verifyDeviceCertificateChain (state_identity state) domain deviceId (state_certificates state)
  end.
End Decisions.

(** ** Facts *)
Lemma collect_spec m certificates m' :
  collectDevices m certificates = Ok m' -> NoDup (map fst m) ->
  exists l, m' = m ++ l /\ map snd l = certificates /\ map (Str ∘ fst) l = map deviceOf certificates /\ NoDup (map fst m').
Proof.
  revert m. induction certificates as [|c certificates IH]; intros m; cbn [collectDevices].
  { intros [= <-] Hn. exists []. by rewrite app_nil_r. }
  destruct (c.["payload"].["deviceId"]) as [| | | |id| |] eqn:Hid; try done. guard_passed as Hf.
  rewrite map_set_fresh by done. intros Hc Hn. destruct (IH _ Hc) as (l & -> & Hl & Hd & Hnd).
  - rewrite map_app. apply NoDup_app. split; [done|]. split; [|apply NoDup_singleton].
    intros k Hk ->%list_elem_of_singleton. apply map_has_elem in Hk. cbn in Hk. congruence.
  - exists ((id, c) :: l). rewrite <-app_assoc in *. cbn [map app] in *. split_and!; [done|by rewrite Hl| |done].
    cbn. unfold deviceOf at 1. rewrite Hid. f_equal. exact Hd.
Qed.

Lemma collect_devices certificates m :
  collectDevices [] certificates = Ok m ->
  map snd m = certificates /\ map (Str ∘ fst) m = map deviceOf certificates /\ NoDup (map fst m).
Proof. intros Hc. destruct (collect_spec _ _ _ Hc) as (l & -> & ? & ? & ?); [constructor|done]. Qed.

Lemma collect_nodup certificates m : collectDevices [] certificates = Ok m -> NoDup (map deviceOf certificates).
Proof.
  intros (_ & <- & Hn)%collect_devices. change (map (Str ∘ fst) m) with (map (fun x : list N * value => Str x.1) m). rewrite <-(map_map fst Str). apply NoDup_fmap_2; [by intros ?? [=]|done].
Qed.

Lemma collect_key certificates m id :
  collectDevices [] certificates = Ok m -> id ∈ map fst m <-> exists c, c ∈ certificates /\ deviceOf c = Str id.
Proof.
  intros (Hs & Hd & Hn)%collect_devices. split.
  - intros (x & -> & Hx)%list_elem_of_fmap. assert (Str x.1 ∈ map deviceOf certificates) as (c & Hc & Hin)%list_elem_of_fmap.
    { rewrite <-Hd. apply list_elem_of_fmap. by exists x. } by exists c.
  - intros (c & Hc & Hid). assert (Str id ∈ map (Str ∘ fst) m) as (x & [= ->] & Hx)%list_elem_of_fmap.
    { rewrite Hd. apply list_elem_of_fmap. by exists c. } apply list_elem_of_fmap. by exists x.
Qed.

Lemma collect_get certificates m id c :
  collectDevices [] certificates = Ok m -> map_get id m = Some c -> c ∈ certificates /\ deviceOf c = Str id.
Proof.
  intros (Hs & Hd & Hn)%collect_devices (i & Hi)%map_get_elem%list_elem_of_lookup.
  assert (certificates !! i = Some c) as Hc by by rewrite <-Hs, list_lookup_fmap, Hi.
  split; [by eapply list_elem_of_lookup_2|].
  assert (map (Str ∘ fst) m !! i = map deviceOf certificates !! i) as He by by rewrite Hd.
  rewrite !list_lookup_fmap, Hi, Hc in He. cbn in He. congruence.
Qed.

Lemma coverSubtree_ok covered subtree covered' :
  coverSubtree covered subtree = Ok covered' -> covered' = covered ++ subtree /\ forall d, d ∈ subtree -> d ∉ covered.
Proof.
  revert covered. induction subtree as [|d subtree IH]; intros covered; cbn.
  - intros [= <-]. rewrite app_nil_r. split; [done|]. by intros ? ?%elem_of_nil.
  - case_bool_decide as Hd; [done|]. intros (-> & Hs)%IH. rewrite <-app_assoc. split; [done|].
    intros x [->|Hx]%elem_of_cons; [done|]. specialize (Hs x Hx). set_solver.
Qed.

Lemma countFrontier_bound subtree observed entries total :
  countFrontier subtree observed entries = Ok total -> (observed <= 512 -> observed <= total <= 512)%Z.
Proof.
  revert observed. induction entries as [|[d hashes] entries IH]; intros observed; cbn [countFrontier]; [intros [= <-]; lia|].
  guard_passed as H1. guard_passed as H2. apply Z.ltb_ge in H2. intros Hr Hle. specialize (IH _ Hr). lia.
Qed.

Section Sound.
Context `{Sha256} `{Ed25519}.
Variable identity : PublicIdentity.
Variable domain : list N.

(** A device that may manage the identity's devices, with [revoked] revoked. *)
Definition manager (certificates : list value) (revoked : list (list N)) (id : list N) : Prop :=
  exists n c, certified identity domain certificates n c id /\ truthy c.["payload"].["canEnrollDevices"] = true /\
    isChainRevoked id revoked certificates = Ok false.

Lemma activeManagement_sound certificates revoked rest :
  (forall c, c ∈ rest -> c ∈ certificates) -> NoDup (map deviceOf certificates) ->
  activeManagement identity certificates revoked domain rest = Ok true -> exists id, manager certificates revoked id.
Proof.
  intros Hsub Hn. induction rest as [|c rest IH]; cbn [activeManagement]; [done|].
  specialize (IH (fun c' Hc' => Hsub c' (list_elem_of_further _ _ _ Hc'))).
  intros (payload & Hp & Hr)%bind_ok. apply bind_ok in Hr as (enroll & Hen & Hr). destruct (truthy enroll) eqn:Ht; [|auto].
  cbn [negb] in Hr. destruct (payload.["deviceId"]) as [| | | |id| |] eqn:Hid; auto.
  apply bind_ok in Hr as ([] & Hrev & Hr); [auto|].
  destruct (verifyDeviceCertificateChain _ _ _ _) as [key|e] eqn:Hv; [|auto]. exists id.
  destruct (verifyDevice_sound _ _ _ _ _ Hv) as (_ & _ & n & c' & Hc' & _). exists n, c'. split; [done|]. split; [|done].
  assert (c' = c) as ->; [|by rewrite (get_ok _ _ _ Hp), (get_ok _ _ _ Hen)].
  destruct (certified_stated _ _ _ _ _ _ Hc') as [Hin' _]. apply certified_device in Hc' as Hd'.
  assert (deviceOf c = Str id) as Hd by by unfold deviceOf; rewrite (get_ok _ _ _ Hp).
  eapply device_unique; [exact Hn|done|apply Hsub; left|congruence].
Qed.

Section History.
Variable certificates : list value.

(** [revokes index revoked record id]: the record is a revocation of the device
    [id], at its place in the history, by another device that manages and is
    not revoked, after which a manager remains. *)
Record revokes (index : nat) (revoked : list (list N)) (record : value) (id : list N) : Prop := {
  revokes_kind : record.["payload"].["kind"] = Str (js "mesh-identity-device-revocation");
  revokes_person : record.["payload"].["personId"] = Str (personId identity);
  revokes_device : record.["payload"].["deviceId"] = Str id;
  revokes_known : exists c, c ∈ certificates /\ deviceOf c = Str id;
  revokes_revision : record.["payload"].["revision"] = Num (Int (Z.of_nat index + 1));
  revokes_fresh : (id ∉ revoked) /\ isChainRevoked id revoked certificates = Ok false;
  revokes_signer : exists signer key, record.["signerKeyId"] = Str signer /\ signer <> id /\
    manager certificates revoked signer /\
    verifyDeviceCertificateChain identity domain signer certificates = Ok key /\
    verifyEnvelope record key domain = Ok true;
  revokes_manager : exists id', manager certificates (revoked ++ [id]) id' }.

Inductive history : nat -> list (list N) -> list value -> list (list N) -> Prop :=
| history_nil index revoked : history index revoked [] revoked
| history_cons index revoked record id records revoked' :
    revokes index revoked record id -> history (S index) (revoked ++ [id]) records revoked' ->
    history index revoked (record :: records) revoked'.

Lemma checkRevocation_ok byDevice index revoked record id signer :
  collectDevices [] certificates = Ok byDevice ->
  checkRevocation identity certificates byDevice index revoked record = Ok (id, signer) ->
  record.["payload"].["kind"] = Str (js "mesh-identity-device-revocation") /\
  record.["payload"].["personId"] = Str (personId identity) /\ record.["payload"].["deviceId"] = Str id /\
  record.["signerKeyId"] = Str signer /\ (exists c, c ∈ certificates /\ deviceOf c = Str id) /\
  record.["payload"].["revision"] = Num (Int (Z.of_nat index + 1)) /\ signer <> id /\ (id ∉ revoked) /\
  isChainRevoked signer revoked certificates = Ok false /\ isChainRevoked id revoked certificates = Ok false.
Proof.
  intros Hcol. unfold checkRevocation. guard_passed as Hg. apply orb_false_iff in Hg as [Hg Hperson].
  do 3 apply orb_false_iff in Hg as [Hg ?]. rewrite negb_false_iff in *. apply isStr_true in Hperson.
  destruct (record.["payload"].["deviceId"]) as [| | | |d| |] eqn:Hd; try done.
  destruct (record.["signerKeyId"]) as [| | | |s| |] eqn:Hs; try done. guard_passed as Hh.
  apply orb_false_iff in Hh as [Hh Hfresh%bool_decide_eq_false]. apply orb_false_iff in Hh as [Hh Hne%bool_decide_eq_false].
  do 2 apply orb_false_iff in Hh as [Hh _]. apply orb_false_iff in Hh as [Hhas Hrev].
  rewrite negb_false_iff in *. apply map_has_elem in Hhas. apply (collect_key _ _ _ Hcol) in Hhas. apply isInt_true in Hrev.
  intros ([] & Hsr & Hr)%bind_ok; [done|]. apply bind_ok in Hr as ([] & Hdr & Hr); [done|]. injection Hr as -> ->.
  split_and!; try done. by apply isStr_true.
Qed.

Lemma applyRevocation_ok byDevice index record revoked covered total revoked' covered' total' :
  collectDevices [] certificates = Ok byDevice ->
  applyRevocation identity domain certificates byDevice index record (revoked, covered, total) = Ok (revoked', covered', total') ->
  exists id, revokes index revoked record id /\ revoked' = revoked ++ [id] /\ (total' <= 512)%Z /\
    exists subtree, identityDeviceDescendants id certificates = Ok subtree /\ covered' = covered ++ subtree /\
      forall d, d ∈ subtree -> d ∉ covered.
Proof.
  intros Hcol. unfold applyRevocation. intros ([id signer] & Hck & Hr)%bind_ok.
  destruct (checkRevocation_ok _ _ _ _ _ _ Hcol Hck) as (Hkind & Hperson & Hid & Hsid & Hknown & Hrev & Hne & Hfresh & Hsr & Hdr).
  apply bind_ok in Hr as (subtree & Hsub & Hr). apply bind_ok in Hr as (cov & Hcov & Hr).
  apply bind_ok in Hr as (observed & Hobs & Hr). revert Hr. guard_passed as Htot. apply Z.ltb_ge in Htot.
  destruct (map_get signer byDevice) as [sc|] eqn:Hsc; [|done]. destruct (collect_get _ _ _ _ Hcol Hsc) as [Hscin Hscd].
  intros (payload & Hp & Hr)%bind_ok. apply bind_ok in Hr as (enroll & Hen & Hr). revert Hr. guard_passed as Hmay.
  rewrite negb_false_iff in Hmay. intros (key & Hkey & Hr)%bind_ok. apply bind_ok in Hr as ([] & Hver & Hr); [|done].
  cbn [negb] in Hr. apply bind_ok in Hr as ([] & Hman & Hr); [|done]. cbn [negb] in Hr. injection Hr as <- <- <-.
  pose proof (collect_nodup _ _ Hcol) as Hnd. exists id. split; [|split; [done|split; [done|]]].
  - split; try done.
    + exists signer, key. split_and!; try done. destruct (verifyDevice_sound _ _ _ _ _ Hkey) as (_ & _ & n & c & Hc & _).
      exists n, c. split; [done|]. split; [|done]. assert (c = sc) as ->; [|by rewrite (get_ok _ _ _ Hp), (get_ok _ _ _ Hen)].
      destruct (certified_stated _ _ _ _ _ _ Hc) as [Hin _]. apply certified_device in Hc as Hd.
      eapply device_unique; [exact Hnd|done|done|congruence].
    + eapply activeManagement_sound; [|exact Hnd|exact Hman]. done.
  - exists subtree. split; [done|]. by apply coverSubtree_ok.
Qed.

Lemma applyRevocations_ok byDevice index records revoked covered total revoked' covered' total' :
  collectDevices [] certificates = Ok byDevice -> (total <= 512)%Z ->
  applyRevocations identity domain certificates byDevice index records (revoked, covered, total) = Ok (revoked', covered', total') ->
  history index revoked records revoked' /\ (total' <= 512)%Z.
Proof.
  intros Hcol. revert index revoked covered total. induction records as [|record records IH]; intros index revoked covered total Ht;
    cbn [applyRevocations]; [intros [= -> -> ->]; split; [constructor|done]|].
  intros ([[r1 c1] t1] & Hstep & Hrest)%bind_ok. destruct (applyRevocation_ok _ _ _ _ _ _ _ _ _ Hcol Hstep) as (id & Hrev & -> & Ht1 & _).
  apply IH in Hrest as [Hh Hle]; [|done]. split; [|done]. by eapply history_cons.
Qed.
End History.
End Sound.

(** The operations the history has observed. *)
Definition frontierSize (record : value) : Z :=
  foldr (fun entry total => Z.of_nat (length (items entry.2)) + total)%Z 0%Z
    (members record.["payload"].["profileOperationHashes"]).
Definition frontierTotal (records : list value) : Z := foldr (fun record total => frontierSize record + total)%Z 0%Z records.

(** No two of these certificates have one digest. *)
Definition collisionFree `{Sha256} (certificates : list value) : Prop :=
  forall c c', c ∈ certificates -> c' ∈ certificates -> certificateHash c = certificateHash c' -> c = c'.

Section Verified.
Context `{Sha256} `{Ed25519}.
Variable identity : PublicIdentity.
Variable domain : list N.

Lemma countFrontier_sum subtree observed entries total :
  countFrontier subtree observed entries = Ok total ->
  total = (observed + foldr (fun entry total => Z.of_nat (length (items entry.2)) + total) 0 entries)%Z.
Proof.
  revert observed. induction entries as [|[d hashes] entries IH]; intros observed; cbn [countFrontier foldr]; [intros [= <-]; lia|].
  guard_passed as H1. guard_passed as H2. intros Hr. specialize (IH _ Hr). cbn [snd]. lia.
Qed.

Lemma applyRevocations_total certificates byDevice index records revoked covered total revoked' covered' total' :
  applyRevocations identity domain certificates byDevice index records (revoked, covered, total) = Ok (revoked', covered', total') ->
  total' = (total + frontierTotal records)%Z.
Proof.
  revert index revoked covered total. induction records as [|record records IH]; intros index revoked covered total;
    cbn [applyRevocations frontierTotal foldr]; [intros [= -> -> ->]; lia|].
  intros ([[r1 c1] t1] & Hstep & Hrest)%bind_ok. specialize (IH _ _ _ _ Hrest). unfold frontierTotal in IH. rewrite IH. clear IH Hrest.
  unfold applyRevocation in Hstep. apply bind_ok in Hstep as ([id signer] & _ & Hr). apply bind_ok in Hr as (subtree & _ & Hr).
  apply bind_ok in Hr as (cov & _ & Hr). apply bind_ok in Hr as (observed & Hobs & Hr). apply countFrontier_sum in Hobs.
  revert Hr. guard_passed as Htot. destruct (map_get signer byDevice) as [sc|]; [|done].
  intros (payload & _ & Hr)%bind_ok. apply bind_ok in Hr as (enroll & _ & Hr). revert Hr. guard_passed as Hmay.
  intros (key & _ & Hr)%bind_ok. apply bind_ok in Hr as (ver & _ & Hr). revert Hr. guard_passed as Hv.
  intros (man & _ & Hr)%bind_ok. revert Hr. guard_passed as Hm. intros [= _ _ <-]. unfold frontierSize. lia.
Qed.

Lemma byHash_hashes certificates m c :
  byHash certificates = Ok m -> c ∈ certificates -> exists h, certificateHash c = Ok h.
Proof.
  unfold byHash. generalize (@nil (list N * value)). induction certificates as [|c' l IH]; intros m0; cbn [foldR]; [by intros _ ?%elem_of_nil|].
  intros (m1 & (h & Hh & _)%bind_ok & Hl)%bind_ok [->|Hin]%elem_of_cons; [by exists h|by eapply IH].
Qed.

Record verified (state : AuthorityState) : Prop := {
  verified_identity : state_identity state = identity;
  verified_size : (1 <= length (state_certificates state) <= 32)%nat /\ (length (state_revocations state) <= 256)%nat;
  verified_frontier : (frontierTotal (state_revocations state) <= 512)%Z;
  verified_order : state_revocations state ≡ₚ state_given state;
  verified_devices : NoDup (map deviceOf (state_certificates state));
  verified_person : publicKeyId (publicKey identity) = Ok (personId identity);
  verified_chains : forall c, c ∈ state_certificates state ->
    exists n id, deviceOf c = Str id /\ certified identity domain (state_certificates state) n c id;
  verified_hashes : forall c, c ∈ state_certificates state -> exists h, certificateHash c = Ok h;
  verified_history : history identity domain (state_certificates state) 0 [] (state_revocations state) (state_revoked state);
  verified_blocked : forall id, id ∈ state_blocked state <->
    (exists c, c ∈ state_certificates state /\ deviceOf c = Str id) /\
    isChainRevoked id (state_revoked state) (state_certificates state) = Ok true }.

Lemma authority_verified evidence state :
  verifyIdentityDeviceAuthority identity domain evidence = Ok state -> verified state.
Proof.
  unfold verifyIdentityDeviceAuthority. guard_passed as Hg. do 5 apply orb_false_iff in Hg as [Hg ?].
  set (certificates := items (evidence.["certificates"])) in *. intros (byDevice & Hcol & Hr)%bind_ok.
  apply bind_ok in Hr as ([] & Hall & Hr).
  pose proof (proj1 (foldR_all _ _) Hall) as Hall'. clear Hall. apply bind_ok in Hr as ([[revoked covered] total] & Happ & Hr).
  apply bind_ok in Hr as (blocked & Hbl & [= <-]).
  assert (forall id, id ∈ map fst byDevice -> exists key, verifyDeviceCertificateChain identity domain id certificates = Ok key) as Hkeys.
  { intros id (key & Hk & _)%Hall'%bind_ok. by exists key. }
  assert (forall c, c ∈ certificates -> exists id, deviceOf c = Str id /\ id ∈ map fst byDevice) as Hdev.
  { intros c Hc. destruct (collect_devices _ _ Hcol) as (_ & Hd & _).
    assert (deviceOf c ∈ map (Str ∘ fst) byDevice) as (x & Hx & Hin)%list_elem_of_fmap by (rewrite Hd; by apply list_elem_of_fmap_2).
    exists x.1. split; [done|]. by apply list_elem_of_fmap_2. }
  pose proof (collect_nodup _ _ Hcol) as Hnd. repeat match goal with H : (_ <? _)%nat = false |- _ => apply Nat.ltb_ge in H end.
  destruct certificates as [|c0 rest] eqn:Hcs; [cbn in *; lia|]. rewrite <-Hcs in *.
  destruct (Hdev c0) as (id0 & _ & Hid0); [rewrite Hcs; left|]. destruct (Hkeys _ Hid0) as [key0 Hkey0].
  pose proof (verifyDevice_sound _ _ _ _ _ Hkey0) as (Hperson & Hlen & _).
  split; cbn [state_identity state_certificates state_revocations state_given state_revoked state_blocked]; try done.
  - rewrite sortBy_length || rewrite (Permutation_length (sortBy_perm _ _)). done.
  - pose proof (applyRevocations_total _ _ _ _ _ _ _ _ _ _ Happ) as ->.
    apply applyRevocations_ok in Happ as [_ ?]; [lia|done|lia].
  - apply sortBy_perm.
  - intros c Hc. destruct (Hdev c Hc) as (id & Hid & Hin). destruct (Hkeys _ Hin) as [key Hk].
    destruct (verifyDevice_sound _ _ _ _ _ Hk) as (_ & _ & n & c' & Hc' & _). exists n, id. split; [done|].
    assert (c = c') as ->; [|done]. eapply device_unique; [exact Hnd|done|by apply certified_stated in Hc' as [??]|].
    apply certified_device in Hc'. congruence.
  - intros c Hc. unfold verifyDeviceCertificateChain in Hkey0. apply bind_ok in Hkey0 as (k & _ & Hr). revert Hr.
    guard_passed as Hx. guard_passed as Hy. intros (m & Hm & _)%bind_ok. by eapply byHash_hashes.
  - apply applyRevocations_ok in Happ as [Hh _]; [done|done|lia].
  - intros id. rewrite (filterR_ok _ _ _ Hbl id). by rewrite (collect_key _ _ _ Hcol).
Qed.
End Verified.

#[global] Instance frontierTotal_proper : Proper (Permutation ==> eq) frontierTotal.
Proof. unfold frontierTotal. induction 1; cbn [foldr] in *; lia. Qed.

Section Consequences.
Context `{Sha256} `{Ed25519}.
Variable identity : PublicIdentity.
Variable domain : list N.

Lemma verified_catalog state :
  verified identity domain state -> collisionFree (state_certificates state) -> catalog (state_certificates state).
Proof.
  intros Hv Hcf. split; [|exact (verified_devices _ _ _ Hv)|exact (verified_hashes _ _ _ Hv)|exact Hcf].
  intros c (n & id & _ & Hc)%(verified_chains _ _ _ Hv). exists id. by eapply certified_payloadId.
Qed.

Lemma authority_fields evidence state :
  verifyIdentityDeviceAuthority identity domain evidence = Ok state ->
  state_certificates state = items evidence.["certificates"] /\ state_given state = items evidence.["revocations"] /\
  state_revocations state = sortBy revisionLeb (items evidence.["revocations"]).
Proof.
  unfold verifyIdentityDeviceAuthority. guard_passed as Hg. intros (byDevice & _ & Hr)%bind_ok.
  apply bind_ok in Hr as ([] & _ & Hr). apply bind_ok in Hr as ([[? ?] ?] & _ & Hr). by apply bind_ok in Hr as (blocked & _ & [= <-]).
Qed.

Lemma history_manager certificates index revoked records revoked' :
  history identity domain certificates index revoked records revoked' -> records <> [] ->
  exists id, manager identity domain certificates revoked' id.
Proof.
  intros Hh. induction Hh as [|index revoked record id records revoked' Hrev Hh IH]; [done|intros _].
  destruct records as [|r rs]; [|by apply IH]. inversion Hh; subst. by destruct Hrev.
Qed.

(** A device that is not blocked has no revoked device above it. *)
Lemma unblocked_above state n c id :
  verified identity domain state -> collisionFree (state_certificates state) ->
  certified identity domain (state_certificates state) n c id -> id ∉ state_blocked state ->
  forall a r, above (state_certificates state) c a -> deviceOf a = Str r -> r ∉ state_revoked state.
Proof.
  intros Hv Hcf Hc Hb a r Ha Hr Hin. destruct (isChainRevoked_exact identity domain _ (verified_catalog _ Hv Hcf) n c id (state_revoked state) Hc) as (b & Hrev & Hbi).
  assert (b = true) as -> by (apply Hbi; eauto). apply Hb. apply (verified_blocked _ _ _ Hv). split; [|done].
  exists c. destruct (certified_stated _ _ _ _ _ _ Hc) as [Hcin _]. split; [done|]. by eapply certified_device.
Qed.
End Consequences.

Module Revoked.
#[local] Existing Instance checksumSha256.
#[local] Existing Instance toyEd25519.

(** The first device revokes the third. *)
Definition revocation : value :=
  Eval vm_compute in
  match signEnvelope (H := toyEd25519) [2%N] (Obj
    [(js "kind", Str (js "mesh-identity-device-revocation")); (js "version", Num (Int 1));
     (js "personId", Str (personId Sample.identity)); (js "deviceId", Str (Sample.keyIdOf 4));
     (js "revision", Num (Int 1)); (js "profileOperationHashes", Obj [])]) (Sample.keyIdOf 2) Sample.domain with
  | Ok envelope => envelope
  | Throw _ => Undefined
  end.
Definition evidence : value := evidence_value Sample.certificates [revocation].
Definition state : AuthorityState := mkAuthorityState Sample.identity Sample.certificates [revocation] [revocation]
  [Sample.keyIdOf 4] [Sample.keyIdOf 4].

Lemma evidence_verifies : verifyIdentityDeviceAuthority Sample.identity Sample.domain evidence = Ok state.
Proof. vm_compute. reflexivity. Qed.

Lemma second_authorized : authorizeIdentityDevice Sample.domain (Some state) (Sample.keyIdOf 3) = Ok (Str (Sample.keyText 3)).
Proof. vm_compute. reflexivity. Qed.

Lemma certificates_distinct : collisionFree (state_certificates state).
Proof. exact (catalog_distinct _ Sample.certificates_catalog). Qed.
End Revoked.

(** C9. A device authority that verifies is sound: every device of the catalog
    occurs once and has a certificate chain to the identity key; the history is
    a sequence of revocations with revisions 1, 2, ..., each of a device of the
    catalog not revoked before, signed by another device that may enroll and
    was not revoked itself, or below a revoked one; and a device is blocked
    exactly when its chain meets the revoked set. *)
Theorem device_authority_sound `{Sha256} `{Ed25519} identity domain evidence state :
  verifyIdentityDeviceAuthority identity domain evidence = Ok state -> verified identity domain state.
Proof. apply authority_verified. Qed.

Lemma device_authority_sound_witness :
  verified (H := checksumSha256) (H0 := toyEd25519) Sample.identity Sample.domain Revoked.state.
Proof.
  apply (device_authority_sound (H := checksumSha256) (H0 := toyEd25519) _ _ Revoked.evidence), Revoked.evidence_verifies.
Defined.

(** Revocation never locks the owner out: after any non-empty history that
    verifies, a device with a chain to the identity key that may enroll others
    is still not blocked. *)
Theorem device_authority_keeps_manager `{Sha256} `{Ed25519} identity domain evidence state :
  verifyIdentityDeviceAuthority identity domain evidence = Ok state -> state_revocations state <> [] ->
  exists n c id, certified identity domain (state_certificates state) n c id /\
    truthy c.["payload"].["canEnrollDevices"] = true /\ id ∉ state_blocked state.
Proof.
  intros Hv%authority_verified Hne. destruct (history_manager _ _ _ _ _ _ _ (verified_history _ _ _ Hv) Hne) as (id & n & c & Hc & Hen & Hrev).
  exists n, c, id. split_and!; [done..|]. intros [_ Hb]%(verified_blocked _ _ _ Hv). congruence.
Qed.

Lemma device_authority_keeps_manager_witness :
  exists n c id, certified (H := checksumSha256) (H0 := toyEd25519) Sample.identity Sample.domain (state_certificates Revoked.state) n c id /\
    truthy c.["payload"].["canEnrollDevices"] = true /\ id ∉ state_blocked Revoked.state.
Proof.
  apply (device_authority_keeps_manager (H := checksumSha256) (H0 := toyEd25519) _ _ Revoked.evidence);
    [exact Revoked.evidence_verifies|discriminate].
Defined.

(** A device that is authorized to manage has a key that hashes to its id,
    a certificate that lets it enroll with a chain to the identity key, and
    neither it nor any device above it on that chain has been revoked. *)
Theorem authorized_device_active `{Sha256} `{Ed25519} identity domain evidence state id key :
  verifyIdentityDeviceAuthority identity domain evidence = Ok state -> collisionFree (state_certificates state) ->
  authorizeIdentityDevice domain (Some state) id = Ok key ->
  publicKeyIdOf key = Ok id /\
  exists n c, certified identity domain (state_certificates state) n c id /\
    truthy c.["payload"].["canEnrollDevices"] = true /\ key = c.["payload"].["devicePublicKey"] /\
    forall a r, above (state_certificates state) c a -> deviceOf a = Str r -> r ∉ state_revoked state.
Proof.
  intros Hv%authority_verified Hcf. unfold authorizeIdentityDevice. case_bool_decide as Hb; [done|].
  intros (found & Hf & Hr)%bind_ok. apply bind_ok in Hr as (enroll & Hen & Hr). revert Hr. guard_passed as Hmay.
  rewrite negb_false_iff in Hmay. rewrite (verified_identity _ _ _ Hv). intros Hkey.
  destruct (verifyDevice_sound _ _ _ _ _ Hkey) as (_ & _ & n & c & Hc & ->).
  destruct (certified_stated _ _ _ _ _ _ Hc) as [Hcin (_ & _ & _ & Hkid & Hcd)]. split; [done|].
  destruct found as [c'|]; [|by injection Hen as <-]. apply findDevice_some in Hf as [Hin' Hd'].
  assert (c' = c) as -> by (eapply device_unique; [exact (verified_devices _ _ _ Hv)|done|done|by rewrite Hd']).
  apply bind_ok in Hen as (payload & <-%get_ok & <-%get_ok). exists n, c. split_and!; [done..|]. by eapply unblocked_above.
Qed.

Lemma authorized_device_active_witness :
  publicKeyIdOf (H := checksumSha256) (Str (Sample.keyText 3)) = Ok (Sample.keyIdOf 3).
Proof.
  apply (authorized_device_active (H := checksumSha256) (H0 := toyEd25519) _ _ _ _ _ _
    Revoked.evidence_verifies Revoked.certificates_distinct Revoked.second_authorized).
Defined.

(** C39. The limits on what is verified: at most 32 certificates, 256
    revocations, and 512 profile operations over the whole history.  The guard
    on certificates allows 256, but a catalog of more than 32 is refused
    because no chain verifies in it. *)
Theorem device_authority_bounds `{Sha256} `{Ed25519} identity domain evidence state :
  verifyIdentityDeviceAuthority identity domain evidence = Ok state ->
  (1 <= length (items evidence.["certificates"]) <= 32)%nat /\
  (length (items evidence.["revocations"]) <= 256)%nat /\
  (frontierTotal (items evidence.["revocations"]) <= 512)%Z.
Proof.
  intros Hok. pose proof (authority_verified _ _ _ _ Hok) as Hv.
  destruct (authority_fields _ _ _ _ Hok) as (<- & <- & _).
  destruct (verified_size _ _ _ Hv) as [Hlen Hrev]. pose proof (verified_order _ _ _ Hv) as Hp. split; [done|].
  rewrite <-Hp. split; [done|]. exact (verified_frontier _ _ _ Hv).
Qed.

Lemma device_authority_bounds_witness : (length (items Revoked.evidence.["certificates"]) <= 32)%nat.
Proof.
  apply (device_authority_bounds (H := checksumSha256) (H0 := toyEd25519) _ _ _ _ Revoked.evidence_verifies).
Defined.
