(* ===== verification/AuthorityView.v ===== *)
(** * Identity authority views

    The portable projection of a device authority of
    [packages/mesh-identity/src/index.ts]: building, verifying and merging
    views, and the keys of data devices.  The source remembers verified views
    in a [WeakMap]; here a verified view is a record, and a value that was not
    verified has none. *)
From stdpp Require Import base numbers list sorting strings sets.
From Stdlib Require Import ZArith NArith Lia.
From S2P Require Import Prelude Unicode Json Js Base64 Digest Envelope Certificates Authority.
Local Open Scope js_scope.

Record IdentityAuthorityView := mkView {
  view_personId : list N;
  view_publicKey : list N;
  view_certificates : list value;
  view_revocations : list value;
  view_revision : Z;
  view_recordHash : list N;
  view_digest : list N }.

Definition head_value (revision : Z) (recordHash : list N) : value :=
  Obj [(js "revision", Num (Int revision)); (js "recordHash", Str recordHash)].

Definition digest_payload (personId publicKey : list N) (certificates revocations : list value) : value :=
  Obj [(js "kind", Str (js "mesh-identity-authority-view")); (js "version", Num (Int 1));
       (js "personId", Str personId); (js "identityPublicKey", Str publicKey);
       (js "certificates", Arr certificates); (js "revocations", Arr revocations)].

Definition view_value (view : IdentityAuthorityView) : value :=
  Obj [(js "kind", Str (js "mesh-identity-authority-view")); (js "version", Num (Int 1));
       (js "personId", Str (view_personId view)); (js "identityPublicKey", Str (view_publicKey view));
       (js "certificates", Arr (view_certificates view)); (js "revocations", Arr (view_revocations view));
       (js "revocationHead", head_value (view_revision view) (view_recordHash view));
       (js "viewDigest", Str (view_digest view))].

Definition viewKeys : list (list N) :=
  [js "kind"; js "version"; js "personId"; js "identityPublicKey"; js "certificates"; js "revocations";
   js "revocationHead"; js "viewDigest"].

(** [left.payload.deviceId <= right.payload.deviceId] of catalogs whose ids are strings *)
Definition deviceText (certificate : value) : list N :=
  match certificate.["payload"].["deviceId"] with Str id => id | _ => [] end.
Definition deviceLeb (left right : value) : bool := str_leb (deviceText left) (deviceText right).

Section Views.
Context `{Sha256} `{Ed25519}.

Definition identityAuthorityHead (identity : PublicIdentity) (revocations : list value) : result (Z * list N) :=
  material ← match last revocations with
             | Some record => canonicalizeJson record
             | None => canonicalizeJson (Obj
                 [(js "kind", Str (js "mesh-identity-revocation-genesis")); (js "version", Num (Int 1));
                  (js "personId", Str (personId identity)); (js "identityPublicKey", Str (publicKey identity))])
             end;
  Ok (Z.of_nat (length revocations), sha256Base64Url (encodeText material)).

Definition makeIdentityAuthorityView (identity : PublicIdentity) (certificatesValue revocationsValue : list value)
    : result IdentityAuthorityView :=
  let certificates := sortBy deviceLeb certificatesValue in
  let revocations := sortBy revisionLeb revocationsValue in
  '(revision, recordHash) ← identityAuthorityHead identity revocations;
  text ← canonicalizeJson (digest_payload (personId identity) (publicKey identity) certificates revocations);
  Ok (mkView (personId identity) (publicKey identity) certificates revocations revision recordHash
    (sha256Base64Url (encodeText text))).

(** The fields of a view value, if it has the shape of one. *)
Definition parseView (v : value) : option (PublicIdentity * list value * list value * list N) :=
  if negb (isRecord v) || negb (hasExactKeys v viewKeys) ||
     negb (isStr (js "mesh-identity-authority-view") v.["kind"]) || negb (isInt 1 v.["version"]) ||
     negb (isRecord v.["revocationHead"]) ||
     negb (hasExactKeys v.["revocationHead"] [js "revision"; js "recordHash"]) ||
     negb (isString v.["revocationHead"].["recordHash"])
  then None else
  match v.["personId"], v.["identityPublicKey"], v.["certificates"], v.["revocations"], v.["viewDigest"],
        safeInt v.["revocationHead"].["revision"] with
  | Str person, Str key, Arr certificates, Arr revocations, Str digest, Some _ =>
      if digest43 digest then Some (mkIdentity person key [], certificates, revocations, digest) else None
  | _, _, _, _, _, _ => None
  end.

Section Domain.
Variable domain : list N.

Definition verifyIdentityAuthorityView (v : value) : result IdentityAuthorityView :=
  match parseView v with
  | None => Throw "Invalid Identity authority view"
  | Some (identity, certificates, revocations, digest) =>
      identityKeyId ← publicKeyId (publicKey identity);
      if negb (bool_decide (identityKeyId = personId identity))
      then Throw "Identity authority view key does not match its person" else
      verifyIdentityDeviceAuthority identity domain (evidence_value certificates revocations);;
      '(revision, recordHash) ← identityAuthorityHead identity revocations;
      given ← canonicalizeJson v.["revocationHead"];
      computed ← canonicalizeJson (head_value revision recordHash);
      if negb (bool_decide (given = computed))
      then Throw "Identity authority view has an invalid revocation head" else
      expected ← makeIdentityAuthorityView identity certificates revocations;
      if negb (bool_decide (digest = view_digest expected)) then Throw "Identity authority view digest mismatch"
      else Ok expected
  end.

(** [for (let index = 0; index < current.revocations.length; index += 1)] *)
Fixpoint checkPrefix (current incoming : list value) : result unit :=
  match current with
  | [] => Ok tt
  | record :: rest =>
      left ← canonicalizeJson record;
      right ← canonicalizeJson (default Undefined (head incoming));
      if negb (bool_decide (left = right)) then Throw "Identity revocation history fork or missing prefix"
      else checkPrefix rest (tail incoming)
  end.

(** The certificates of both views by device; an id both have must be one certificate. *)
Fixpoint mergeCertificates (m : list (list N * value)) (certificates : list value) : result (list (list N * value)) :=
  match certificates with
  | [] => Ok m
  | certificate :: rest =>
      let id := deviceText certificate in
      same ← match map_get id m with
             | None => Ok true
             | Some previous =>
                 left ← canonicalizeJson previous;
                 right ← canonicalizeJson certificate;
                 Ok (bool_decide (left = right))
             end;
      if negb (same : bool) then Throw "Conflicting Identity certificate catalog entries"
      else mergeCertificates (map_set id certificate m) rest
  end.

Definition mergeIdentityAuthorityViews (currentValue incomingValue : value) : result IdentityAuthorityView :=
  current ← verifyIdentityAuthorityView currentValue;
  incoming ← verifyIdentityAuthorityView incomingValue;
  if negb (bool_decide (view_personId current = view_personId incoming)) ||
     negb (bool_decide (view_publicKey current = view_publicKey incoming))
  then Throw "Identity authority views belong to different people" else
  if (view_revision incoming <? view_revision current)%Z then Throw "Stale Identity revocation head" else
  checkPrefix (view_revocations current) (view_revocations incoming);;
  certificates ← mergeCertificates [] (view_certificates current ++ view_certificates incoming);
  merged ← makeIdentityAuthorityView (mkIdentity (view_personId current) (view_publicKey current) [])
    (map snd certificates) (view_revocations incoming);
  verifyIdentityAuthorityView (view_value merged).

Definition view_identity (view : IdentityAuthorityView) : PublicIdentity :=
  mkIdentity (view_personId view) (view_publicKey view) [].

Definition authorizeIdentityDataDevice (authorityView : option IdentityAuthorityView) (deviceId : list N) : result value :=
  match authorityView with
  | None => Throw "Identity authority view was not verified"
  | Some view =>
      state ← verifyIdentityDeviceAuthority (view_identity view) domain
        (evidence_value (view_certificates view) (view_revocations view));
      if bool_decide (deviceId ∈ state_blocked state) then Throw "Identity device access is revoked" else
      verifyDeviceCertificateChain (view_identity view) domain deviceId (state_certificates state)
  end.
End Domain.
End Views.

(** ** Facts *)
Section Facts.
Context `{Sha256} `{Ed25519}.

Lemma history_revisions identity domain certificates index revoked records revoked' :
  history identity domain certificates index revoked records revoked' ->
  forall i record, records !! i = Some record -> revisionOf record = Some (Z.of_nat (index + i) + 1)%Z.
Proof.
  induction 1 as [|index revoked record id records revoked' Hr Hh IH]; intros [|i] r; cbn; try done.
  - intros [= <-]. unfold revisionOf. by rewrite (revokes_revision _ _ _ _ _ _ _ Hr), Nat.add_0_r.
  - intros Hi. rewrite (IH i r Hi). do 2 f_equal. lia.
Qed.

Lemma history_sorted identity domain certificates index revoked records revoked' :
  history identity domain certificates index revoked records revoked' -> sortBy revisionLeb records = records.
Proof.
  intros Hh. apply sortBy_id. pose proof (history_revisions _ _ _ _ _ _ _ Hh) as Hrev. clear Hh.
  revert index Hrev. induction records as [|record records IH]; intros index Hrev; constructor.
  - apply (IH (S index)). intros i r Hi. rewrite (Hrev (S i) r Hi). do 2 f_equal. lia.
  - apply Forall_lookup. intros i r Hi. unfold revisionLeb. rewrite (Hrev 0%nat record eq_refl), (Hrev (S i) r Hi).
    apply Is_true_true, Z.leb_le. lia.
Qed.

Lemma history_devices identity domain certificates index revoked records revoked' :
  history identity domain certificates index revoked records revoked' ->
  exists ids, revoked' = revoked ++ ids /\ Forall2 (fun record id => record.["payload"].["deviceId"] = Str id) records ids.
Proof.
  induction 1 as [|index revoked record id records revoked' Hr Hh (ids & -> & Hall)]; [exists []; by rewrite app_nil_r|].
  exists (id :: ids). rewrite <-app_assoc. split; [done|]. constructor; [by destruct Hr|done].
Qed.

Lemma deviceSort_idem certificates : sortBy deviceLeb (sortBy deviceLeb certificates) = sortBy deviceLeb certificates.
Proof.
  apply sortBy_id, sortBy_sorted; unfold deviceLeb; [intros; apply str_leb_total|]. intros x y z. apply str_leb_trans.
Qed.

Section Domain.
Variable domain : list N.

Lemma verifyView_ok v view :
  verifyIdentityAuthorityView domain v = Ok view ->
  exists certificates revocations digest state,
    parseView v = Some (view_identity view, certificates, revocations, digest) /\
    verifyIdentityDeviceAuthority (view_identity view) domain (evidence_value certificates revocations) = Ok state /\
    view_certificates view = sortBy deviceLeb certificates /\ view_revocations view = sortBy revisionLeb revocations /\
    view_revision view = Z.of_nat (length revocations).
Proof.
  unfold verifyIdentityAuthorityView. destruct (parseView v) as [[[[identity certificates] revocations] digest]|] eqn:Hp; [|done].
  intros (kid & _ & Hr)%bind_ok. revert Hr. guard_passed as Hk. intros (state & Hst & Hr)%bind_ok.
  apply bind_ok in Hr as ([rev0 hash0] & _ & Hr). apply bind_ok in Hr as (given & _ & Hr). apply bind_ok in Hr as (computed & _ & Hr).
  revert Hr. guard_passed as Hh. intros (expected & Hm & Hr)%bind_ok. revert Hr. guard_passed as Hd. intros [= <-].
  unfold makeIdentityAuthorityView in Hm. apply bind_ok in Hm as ([revision recordHash] & Hhead & Hm).
  apply bind_ok in Hm as (text & _ & [= <-]). cbn [view_certificates view_revocations view_revision view_identity view_personId view_publicKey].
  assert (identity = mkIdentity (personId identity) (publicKey identity) []) as He.
  { unfold parseView in Hp. revert Hp. case_match; [done|]. by repeat (case_match; try done); intros [= <- <- <- <-]. }
  unfold view_identity. cbn [view_personId view_publicKey]. rewrite <-He.
  exists certificates, revocations, digest, state. split_and!; try done.
  unfold identityAuthorityHead in Hhead. apply bind_ok in Hhead as (material & _ & [= <- _]).
  by rewrite (Permutation_length (sortBy_perm _ _)).
Qed.

Lemma parseView_arrays v identity certificates revocations digest :
  parseView v = Some (identity, certificates, revocations, digest) ->
  v.["certificates"] = Arr certificates /\ v.["revocations"] = Arr revocations /\
  v.["personId"] = Str (personId identity) /\ v.["identityPublicKey"] = Str (publicKey identity).
Proof. unfold parseView. case_match; [done|]. by repeat (case_match; try done); intros [= <- <- <- <-]. Qed.

Lemma parseView_plain v identity certificates revocations digest :
  plain v -> parseView v = Some (identity, certificates, revocations, digest) ->
  Forall plain certificates /\ Forall plain revocations.
Proof.
  intros Hv (Hc & Hr & _)%parseView_arrays. destruct (plain_get (js "certificates") v Hv) as [Hu|Hp]; [congruence|].
  destruct (plain_get (js "revocations") v Hv) as [Hu|Hp']; [congruence|]. rewrite Hc in Hp. rewrite Hr in Hp'.
  by apply plain_items in Hp, Hp'.
Qed.

Lemma mergeCertificates_ok m certificates m' :
  mergeCertificates m certificates = Ok m' ->
  (forall c, c ∈ map snd m' -> c ∈ map snd m \/ c ∈ certificates) /\
  (forall id c, map_get id m = Some c -> exists c', map_get id m' = Some c' /\ canonicalizeJson c' = canonicalizeJson c) /\
  (forall c, c ∈ certificates -> exists c', map_get (deviceText c) m' = Some c' /\ canonicalizeJson c' = canonicalizeJson c).
Proof.
  revert m. induction certificates as [|c0 l IH]; intros m; cbn [mergeCertificates].
  { intros [= <-]. split_and!; [by left|eauto|by intros ? ?%elem_of_nil]. }
  intros (b & Hsame & Hr)%bind_ok. revert Hr. guard_passed as Hb. rewrite negb_false_iff in Hb. subst b. intros Hr.
  assert (forall c, map_get (deviceText c0) m = Some c -> canonicalizeJson c = canonicalizeJson c0) as Hprev.
  { intros c Hc. rewrite Hc in Hsame. apply bind_ok in Hsame as (x & Hx & Hs). apply bind_ok in Hs as (y & Hy & [= Hxy%bool_decide_eq_true]). congruence. }
  clear Hsame. destruct (IH _ Hr) as (Hel & Hkeep & Hall). split_and!.
  - intros c [Hc|Hc]%Hel; [|right; by right]. apply list_elem_of_fmap in Hc as ([k x] & -> & Hx).
    assert (x = c0 \/ (k, x) ∈ m) as [->|Hin]; [|right; left|left; by apply list_elem_of_fmap_2 with (f := snd) in Hin].
    revert Hx. clear. induction m as [|[k' y] m IHm]; cbn [map_set]; [intros [= ->]%list_elem_of_singleton; by left|].
    case_bool_decide; (intros [[= -> ->]|Hx]%elem_of_cons; [try (by left); right; left|]).
    + right. by right.
    + destruct (IHm Hx); [by left|right; by right].
  - intros id c Hc. destruct (decide (deviceText c0 = id)) as [<-|Hne].
    + destruct (Hkeep (deviceText c0) c0) as (c' & Hc' & He); [rewrite map_get_set; by rewrite bool_decide_eq_true_2|].
      exists c'. split; [done|]. by rewrite He, (Hprev _ Hc).
    + apply Hkeep. rewrite map_get_set. by rewrite bool_decide_eq_false_2.
  - intros c [->|Hc]%elem_of_cons; [|by apply Hall]. apply Hkeep. rewrite map_get_set. by rewrite bool_decide_eq_true_2.
Qed.

Lemma checkPrefix_ok current incoming :
  Forall plain current -> checkPrefix current incoming = Ok tt ->
  exists prefix rest, incoming = prefix ++ rest /\ Forall2 (fun a b => canonicalizeJson a = canonicalizeJson b) current prefix.
Proof.
  intros Hp. revert incoming. induction Hp as [|record current Hrec _ IH]; intros incoming; cbn [checkPrefix]; [by exists [], incoming|].
  intros (left & Hl & Hr)%bind_ok. apply bind_ok in Hr as (right & Hri & Hr). revert Hr. guard_passed as Hb.
  rewrite negb_false_iff, bool_decide_eq_true in Hb. subst right. intros (prefix & rest & Hin & Hall)%IH.
  destruct incoming as [|r incoming]; cbn in *.
  - unfold canonicalizeJson in Hl. rewrite canonical_total in Hl by done. congruence.
  - exists (r :: prefix), rest. subst incoming. split; [done|]. constructor; [congruence|done].
Qed.
End Domain.
End Facts.

(** A catalog whose certificates all appear in another, up to member order. *)
Section Transport.
Context `{Sha256} `{Ed25519}.

Lemma canon_field c c' key s :
  plain c -> plain c' -> canonicalizeJson c' = canonicalizeJson c ->
  getOpt key c.["payload"] = Str s -> getOpt key c'.["payload"] = Str s.
Proof.
  intros Hc Hc' He Hs. symmetry in He. apply same_canonical in He; [|done..]. apply same_str. rewrite <-Hs. by apply same_get2.
Qed.

Lemma canon_hash c c' : canonicalizeJson c' = canonicalizeJson c -> certificateHash c' = certificateHash c.
Proof. unfold certificateHash. by intros ->. Qed.

Section Catalogs.
Variables small large : list value.
Hypothesis Hsmall : Forall plain small.
Hypothesis Hlarge : Forall plain large.
Hypothesis Hcover : forall c, c ∈ small -> exists c', c' ∈ large /\ canonicalizeJson c' = canonicalizeJson c.

Lemma above_transport c a c' :
  above small c a -> c ∈ small -> c' ∈ large -> canonicalizeJson c' = canonicalizeJson c ->
  exists a', a' ∈ large /\ above large c' a' /\ a ∈ small /\ canonicalizeJson a' = canonicalizeJson a.
Proof.
  rewrite Forall_forall in Hsmall, Hlarge. intros Ha. revert c'. induction Ha as [c|c issuer hash a Hi Hh Hhash Ha IH]; intros c' Hc Hc' He.
  - exists c'. split_and!; [done|apply above_self|done..].
  - destruct (Hcover issuer Hi) as (issuer' & Hi' & Hie). destruct (IH issuer' Hi Hi' Hie) as (a' & Ha' & Habove & Hain & Hae).
    exists a'. split_and!; [done| |done..]. eapply above_issuer; [exact Hi'| |by rewrite (canon_hash _ _ Hie)|done].
    by apply (canon_field c); [apply Hsmall|apply Hlarge|..].
Qed.

Lemma cover_collisionFree : NoDup (map deviceOf small) -> collisionFree large ->
  (forall c, c ∈ small -> exists id, deviceOf c = Str id) -> collisionFree small.
Proof.
  rewrite Forall_forall in Hsmall, Hlarge. intros Hn Hcf Hids c1 c2 H1 H2 He. destruct (Hcover c1 H1) as (c1' & H1' & He1), (Hcover c2 H2) as (c2' & H2' & He2).
  assert (c1' = c2') as -> by (apply Hcf; [done..|]; rewrite (canon_hash _ _ He1), (canon_hash _ _ He2); done).
  destruct (Hids c1 H1) as [id Hid]. eapply device_unique; [exact Hn|done..|]. rewrite Hid. symmetry.
  apply (canon_field c1 c2 (js "deviceId")); [by apply Hsmall..|congruence|done].
Qed.

Lemma blocked_transport identity domain sc sm id :
  verified identity domain sc -> verified identity domain sm -> state_certificates sc = small -> state_certificates sm = large ->
  collisionFree large -> (forall r, r ∈ state_revoked sc -> r ∈ state_revoked sm) ->
  id ∈ state_blocked sc -> id ∈ state_blocked sm.
Proof.
  intros Hsc Hsm Hs Hl Hcf Hrev Hid. apply (verified_blocked _ _ _ Hsc) in Hid as [(c & Hc & Hcd) Htrue].
  destruct (verified_chains _ _ _ Hsc c Hc) as (n & id' & Hid' & Hcert). rewrite Hcd in Hid'. injection Hid' as <-.
  assert (collisionFree (state_certificates sc)) as Hcfs.
  { rewrite Hs. apply cover_collisionFree; [rewrite <-Hs; by apply Hsc|done|].
    intros x Hx. rewrite <-Hs in Hx. destruct (verified_chains _ _ _ Hsc x Hx) as (? & i & ? & _). eauto. }
  destruct (isChainRevoked_exact _ _ _ (verified_catalog _ _ _ Hsc Hcfs) n c id (state_revoked sc) Hcert) as (b & Hb & Hbi).
  rewrite Htrue in Hb. injection Hb as <-. destruct (proj1 Hbi eq_refl) as (a & r & Ha & Har & Hrin).
  rewrite Hs in Ha, Hc. destruct (Hcover c Hc) as (c' & Hc' & Hce).
  destruct (above_transport c a c' Ha Hc Hc' Hce) as (a' & Ha'in & Ha' & Hain & Hae).
  pose proof (proj1 (Forall_forall _ _) Hsmall) as Hps. pose proof (proj1 (Forall_forall _ _) Hlarge) as Hpl.
  assert (deviceOf c' = Str id) as Hcd' by by apply (canon_field c c' (js "deviceId")); [apply Hps|apply Hpl|..].
  assert (deviceOf a' = Str r) as Had' by by apply (canon_field a a' (js "deviceId")); [apply Hps|apply Hpl|..].
  rewrite <-Hl in Hc', Ha'. destruct (verified_chains _ _ _ Hsm c' Hc') as (n' & id' & Hid' & Hcert').
  rewrite Hcd' in Hid'. injection Hid' as <-. assert (collisionFree (state_certificates sm)) as Hcfl by by rewrite Hl.
  destruct (isChainRevoked_exact _ _ _ (verified_catalog _ _ _ Hsm Hcfl) n' c' id (state_revoked sm) Hcert') as (b & Hb & Hbi').
  apply (verified_blocked _ _ _ Hsm). split; [by exists c'|]. rewrite Hb. f_equal. apply Hbi'. exists a', r. auto.
Qed.
End Catalogs.
End Transport.

Section Merge.
Context `{Sha256} `{Ed25519}.
Variable domain : list N.

(** What a verified view is built from, in the order it keeps. *)
Lemma view_sorted v view :
  verifyIdentityAuthorityView domain v = Ok view ->
  exists state, verified (view_identity view) domain state /\ state_revocations state = view_revocations view /\
    sortBy revisionLeb (view_revocations view) = view_revocations view /\
    (plain v -> Forall plain (view_certificates view) /\ Forall plain (view_revocations view)).
Proof.
  intros (certificates & revocations & digest & state & Hp & Hst & Hc & Hr & _)%verifyView_ok.
  pose proof (authority_verified _ _ _ _ Hst) as Hv. destruct (authority_fields _ _ _ _ Hst) as (_ & _ & Hsr).
  change (items (evidence_value certificates revocations).["revocations"]) with revocations in Hsr.
  exists state. split_and!; [done|congruence| |].
  - rewrite Hr, <-Hsr. eapply history_sorted, (verified_history _ _ _ Hv).
  - intros Hpl. destruct (parseView_plain _ _ _ _ _ Hpl Hp) as [H1 H2]. by rewrite Hc, Hr, !sortBy_perm.
Qed.

Lemma merge_ok currentValue incomingValue current merged :
  verifyIdentityAuthorityView domain currentValue = Ok current ->
  mergeIdentityAuthorityViews domain currentValue incomingValue = Ok merged ->
  exists incoming m state,
    verifyIdentityAuthorityView domain incomingValue = Ok incoming /\ (view_revision current <= view_revision incoming)%Z /\
    checkPrefix (view_revocations current) (view_revocations incoming) = Ok tt /\
    mergeCertificates [] (view_certificates current ++ view_certificates incoming) = Ok m /\
    view_identity merged = view_identity current /\ view_certificates merged = sortBy deviceLeb (map snd m) /\
    view_revocations merged = view_revocations incoming /\ view_revision merged = Z.of_nat (length (view_revocations incoming)) /\
    verifyIdentityDeviceAuthority (view_identity merged) domain
      (evidence_value (view_certificates merged) (view_revocations merged)) = Ok state.
Proof.
  intros Hcur. unfold mergeIdentityAuthorityViews. rewrite Hcur. cbn [mbind result_bind].
  intros (incoming & Hin & Hr)%bind_ok. revert Hr. guard_passed as Hg. guard_passed as Hle. apply Z.ltb_ge in Hle.
  intros ([] & Hpre & Hr)%bind_ok. apply bind_ok in Hr as (m & Hm & Hr). apply bind_ok in Hr as (merged0 & Hmake & Hver).
  unfold makeIdentityAuthorityView in Hmake. apply bind_ok in Hmake as ([revision recordHash] & _ & Hmake).
  apply bind_ok in Hmake as (text & _ & [= <-]).
  destruct (verifyView_ok _ _ _ Hver) as (certificates & revocations & digest & state & Hp & Hst & Hc & Hrev & Hn).
  destruct (parseView_arrays _ _ _ _ _ Hp) as (Hc0 & Hr0 & Hp0 & Hk0).
  cbn [view_value view_certificates view_revocations view_personId view_publicKey] in Hc0, Hr0, Hp0, Hk0.
  injection Hc0 as <-. injection Hr0 as <-. injection Hp0 as Hp0. injection Hk0 as Hk0.
  destruct (view_sorted _ _ Hin) as (_ & _ & _ & Hsorted & _). rewrite Hsorted in *.
  rewrite Hsorted in Hrev. rewrite deviceSort_idem in Hc. exists incoming, m, state. rewrite Hc, Hrev, Hn.
  split_and!; try done. unfold view_identity in *. cbn in Hp0, Hk0. by rewrite Hp0, Hk0.
Qed.

Lemma prefix_revoked current prefix rest ids ids' :
  Forall plain current -> Forall plain (prefix ++ rest) ->
  Forall2 (fun a b => canonicalizeJson a = canonicalizeJson b) current prefix ->
  Forall2 (fun record id => record.["payload"].["deviceId"] = Str id) current ids ->
  Forall2 (fun record id => record.["payload"].["deviceId"] = Str id) (prefix ++ rest) ids' ->
  ids `prefix_of` ids'.
Proof.
  intros Hc Hpr Hsame. revert ids ids'. induction Hsame as [|a b current prefix Hab Hrest IH]; intros ids ids' Hids Hids'.
  { inversion Hids; subst. apply prefix_nil. }
  inversion Hids as [|? id ? ids1 Hid Hids1]; subst. inversion Hids' as [|? id' ? ids1' Hid' Hids1']; subst.
  apply Forall_cons in Hc as [Ha Hc]. apply Forall_cons in Hpr as [Hb Hpr].
  assert (id = id') as <-; [|apply prefix_cons; by apply IH].
  pose proof (canon_field a b (js "deviceId") id Ha Hb (eq_sym Hab) Hid) as He. congruence.
Qed.

(** The history of the merged view is the incoming one, which starts with the
    records of the current one. *)
Lemma merge_extends currentValue incomingValue current merged :
  plain currentValue -> plain incomingValue ->
  verifyIdentityAuthorityView domain currentValue = Ok current ->
  mergeIdentityAuthorityViews domain currentValue incomingValue = Ok merged ->
  (view_revision current <= view_revision merged)%Z /\
  exists prefix rest, view_revocations merged = prefix ++ rest /\ Forall2 same (view_revocations current) prefix.
Proof.
  intros Hpc Hpi Hcur Hmerge.
  destruct (merge_ok _ _ _ _ Hcur Hmerge) as (incoming & m & sm & Hin & Hle & Hpre & _ & _ & _ & Hrevs & Hrevision & _).
  destruct (view_sorted _ _ Hcur) as (_ & _ & _ & _ & Hcp). destruct (Hcp Hpc) as [_ Hcpr].
  destruct (view_sorted _ _ Hin) as (_ & _ & _ & _ & Hip). destruct (Hip Hpi) as [_ Hipr].
  pose proof (verifyView_ok _ _ _ Hin) as (cs & rs & ? & ? & _ & _ & _ & Hrs & Hn).
  split; [rewrite Hrevision, Hrs, (Permutation_length (sortBy_perm _ _)); lia|].
  destruct (checkPrefix_ok _ _ Hcpr Hpre) as (prefix & rest & Hsplit & Hsame). exists prefix, rest. split; [congruence|].
  rewrite Hsplit in Hipr. apply Forall_app in Hipr as [Hipr _]. revert Hcpr Hipr. clear - Hsame.
  induction Hsame as [|a b l k Hab _ IH]; [constructor|]. intros [Ha Hcpr]%Forall_cons [Hb Hipr]%Forall_cons.
  constructor; [by apply same_canonical|by apply IH].
Qed.
End Merge.

Module MergeSample.
#[local] Existing Instance checksumSha256.
#[local] Existing Instance toyEd25519.

Definition viewOf (certificates revocations : list value) : value :=
  match makeIdentityAuthorityView Sample.identity certificates revocations with
  | Ok view => view_value view
  | Throw _ => Undefined
  end.

(** The third device is revoked; the incoming view also enrolled and revoked a fourth. *)
Definition second_revocation : value :=
  Eval vm_compute in
  match signEnvelope (H := toyEd25519) [2%N] (Obj
    [(js "kind", Str (js "mesh-identity-device-revocation")); (js "version", Num (Int 1));
     (js "personId", Str (personId Sample.identity)); (js "deviceId", Str (Sample.keyIdOf 5));
     (js "revision", Num (Int 2)); (js "profileOperationHashes", Obj [])]) (Sample.keyIdOf 2) Sample.domain with
  | Ok envelope => envelope
  | Throw _ => Undefined
  end.
Definition fourth : value := Eval vm_compute in Sample.certificate 2 5 true (Sample.hashOf Sample.first).
Definition current_value : value := Eval vm_compute in viewOf Sample.certificates [Revoked.revocation].
Definition incoming_value : value :=
  Eval vm_compute in viewOf [fourth; Sample.third; Sample.second; Sample.first] [Revoked.revocation; second_revocation].

Definition orUndefined (r : result IdentityAuthorityView) : IdentityAuthorityView :=
  match r with Ok view => view | Throw _ => mkView [] [] [] [] 0 [] [] end.
Definition current : IdentityAuthorityView := Eval vm_compute in orUndefined (verifyIdentityAuthorityView Sample.domain current_value).
Definition merged : IdentityAuthorityView :=
  Eval vm_compute in orUndefined (mergeIdentityAuthorityViews Sample.domain current_value incoming_value).
Definition state : AuthorityState :=
  mkAuthorityState (view_identity current) (view_certificates current) [Revoked.revocation] [Revoked.revocation]
    [Sample.keyIdOf 4] [Sample.keyIdOf 4].
Definition hashes : list (list N) :=
  Eval vm_compute in omap (fun c => match certificateHash c with Ok h => Some h | Throw _ => None end) (view_certificates merged).

Lemma current_verifies : verifyIdentityAuthorityView Sample.domain current_value = Ok current.
Proof. vm_compute. reflexivity. Qed.

Lemma merges : mergeIdentityAuthorityViews Sample.domain current_value incoming_value = Ok merged.
Proof. vm_compute. reflexivity. Qed.

Lemma current_authority :
  verifyIdentityDeviceAuthority (view_identity current) Sample.domain
    (evidence_value (view_certificates current) (view_revocations current)) = Ok state.
Proof. vm_compute. reflexivity. Qed.

Lemma values_plain : plain current_value && plain incoming_value = true.
Proof. vm_compute. reflexivity. Qed.

Lemma merged_distinct : collisionFree (view_certificates merged).
Proof.
  refine (proj2 (mapped_elem certificateHash _ hashes _ _)); [vm_compute; reflexivity|].
  apply (bool_decide_eq_true_1 _). vm_compute. reflexivity.
Qed.
End MergeSample.

(** C8. Revocation is permanent.  When a view is merged with an incoming one,
    both as JSON data, the history of the result extends that of the current view: its
    first records are the current ones, in order, each equal up to the order of
    object members, and its revision is not smaller.  And when no two certificates of
    the merged catalog have one digest, a device that the current view blocks is
    refused its key under the merged view. *)
Theorem revocation_survives_merge `{Sha256} `{Ed25519} domain currentValue incomingValue current merged state id :
  plain currentValue -> plain incomingValue ->
  verifyIdentityAuthorityView domain currentValue = Ok current ->
  mergeIdentityAuthorityViews domain currentValue incomingValue = Ok merged ->
  (view_revision current <= view_revision merged)%Z /\
  (exists prefix rest, view_revocations merged = prefix ++ rest /\ Forall2 same (view_revocations current) prefix) /\
  (collisionFree (view_certificates merged) ->
   verifyIdentityDeviceAuthority (view_identity current) domain
     (evidence_value (view_certificates current) (view_revocations current)) = Ok state ->
   id ∈ state_blocked state ->
   authorizeIdentityDataDevice domain (Some merged) id = Throw "Identity device access is revoked").
Proof.
  intros Hpc Hpi Hcur Hmerge. destruct (merge_extends _ _ _ _ _ Hpc Hpi Hcur Hmerge) as [Hle Hext]. split; [done|]. split; [done|].
  clear Hle Hext. intros Hcf Hst Hid.
  destruct (merge_ok _ _ _ _ _ Hcur Hmerge) as (incoming & m & sm & Hin & Hle & Hpre & Hm & Hident & Hcerts & Hrevs & Hrevision & Hsm).
  destruct (view_sorted _ _ _ Hcur) as (_ & _ & _ & Hcs & Hcp). destruct (Hcp Hpc) as [Hcpc Hcpr].
  destruct (view_sorted _ _ _ Hin) as (si & Hsi & Hsir & His & Hip). destruct (Hip Hpi) as [Hipc Hipr].
  pose proof (authority_verified _ _ _ _ Hst) as Hvc. pose proof (authority_verified _ _ _ _ Hsm) as Hvm.
  destruct (authority_fields _ _ _ _ Hst) as (Hc1 & _ & Hr1), (authority_fields _ _ _ _ Hsm) as (Hc2 & _ & Hr2).
  change (items (evidence_value ?c ?r).["certificates"]) with c in Hc1, Hc2. change (items (evidence_value ?c ?r).["revocations"]) with r in Hr1, Hr2.
  rewrite Hcs in Hr1. rewrite Hrevs, His in Hr2. destruct (checkPrefix_ok _ _ Hcpr Hpre) as (prefix & rest & Hsplit & Hsame).
  destruct (history_devices _ _ _ _ _ _ _ (verified_history _ _ _ Hvc)) as (ids & Hids & Hall).
  destruct (history_devices _ _ _ _ _ _ _ (verified_history _ _ _ Hvm)) as (ids' & Hids' & Hall').
  rewrite Hr1 in Hall. rewrite Hr2, Hsplit in Hall'. rewrite Hsplit in Hipr.
  pose proof (prefix_revoked _ _ _ _ _ Hcpr Hipr Hsame Hall Hall') as [tail Htail]. cbn [app] in Hids, Hids'.
  destruct (mergeCertificates_ok _ _ _ Hm) as (Hel & _ & Hcov).
  unfold authorizeIdentityDataDevice. rewrite Hsm. cbn [mbind result_bind]. rewrite bool_decide_eq_true_2; [done|].
  rewrite Hident in Hvm. refine (blocked_transport (view_certificates current) (view_certificates merged) Hcpc _ _ _ _ _ _ id Hvc Hvm Hc1 Hc2 Hcf _ Hid).
  - rewrite Hcerts, sortBy_perm. apply Forall_forall. intros c [?%elem_of_nil|Hc]%Hel; [done|].
    apply elem_of_app in Hc as [Hc|Hc]; revert c Hc; by apply Forall_forall.
  - intros c Hc. destruct (Hcov c) as (c' & Hc' & He); [apply elem_of_app; by left|]. exists c'. split; [|done].
    rewrite Hcerts, sortBy_perm. apply map_get_elem in Hc'. by apply list_elem_of_fmap_2 with (f := snd) in Hc'.
  - intros r. rewrite Hids, Hids', Htail. intros Hr. apply elem_of_app. by left.
Qed.

Lemma revocation_survives_merge_witness :
  (exists prefix rest, view_revocations MergeSample.merged = prefix ++ rest /\ Forall2 same (view_revocations MergeSample.current) prefix) /\
  authorizeIdentityDataDevice (H := checksumSha256) (H0 := toyEd25519) Sample.domain (Some MergeSample.merged) (Sample.keyIdOf 4)
  = Throw "Identity device access is revoked".
Proof.
  pose proof MergeSample.values_plain as [Hc Hi]%andb_true_iff.
  destruct (revocation_survives_merge (H := checksumSha256) (H0 := toyEd25519) _ _ _ _ _ MergeSample.state (Sample.keyIdOf 4)
    (Is_true_true_2 _ Hc) (Is_true_true_2 _ Hi) MergeSample.current_verifies MergeSample.merges) as (_ & Hext & Hrefused).
  split; [exact Hext|]. apply Hrefused; [exact MergeSample.merged_distinct|exact MergeSample.current_authority|].
  apply list_elem_of_singleton. reflexivity.
Defined.
