(* ===== verification/ProfileValue.v ===== *)
(** * Values of an identity profile

    Names, photos and service pins: [packages/mesh-identity/src/profileValidation.ts]
    and the value checks of [identityProfile.ts].  Unicode normalization and URL
    parsing belong to the platform and are parameters. *)
From stdpp Require Import base numbers list sorting strings.
From Stdlib Require Import ZArith NArith Lia.
From S2P Require Import Prelude Unicode Json Js Base64 Digest Dates.
Local Open Scope js_scope.

(** The parts of a parsed URL that are looked at. *)
Record URL := mkURL { url_origin : list N; url_username : list N; url_password : list N; url_pathname : list N;
  url_search : list N; url_hash : list N; url_protocol : list N; url_hostname : list N }.

Class Platform := {
  (** [text.normalize("NFKC")] *)
  nfkc : list N -> list N;
  (** [new URL(text)], which throws on what is not a URL *)
  parseURL : list N -> option URL }.

Local Open Scope N_scope.

(** ** Display names *)
Definition between (low high u : N) : bool := (low <=? u) && (u <=? high).

(** [\p{White_Space}] *)
Definition whiteSpace (u : N) : bool :=
  between 9 13 u || (u =? 32) || (u =? 133) || (u =? 160) || (u =? 0x1680) || between 0x2000 0x200A u ||
  (u =? 0x2028) || (u =? 0x2029) || (u =? 0x202F) || (u =? 0x205F) || (u =? 0x3000).
(** What [trim] removes *)
Definition trimmed (u : N) : bool := (whiteSpace u && negb (u =? 133)) || (u =? 0xFEFF).
(** [\p{Cc}] and [\p{Bidi_Control}] *)
Definition control (u : N) : bool := (u <? 32) || between 127 159 u.
Definition bidiControl (u : N) : bool :=
  (u =? 0x061C) || (u =? 0x200E) || (u =? 0x200F) || between 0x202A 0x202E u || between 0x2066 0x2069 u.

(** [text.replace(/\p{White_Space}+/gu, " ")] *)
Fixpoint collapseSpace (s : list N) : list N :=
  match s with
  | [] => []
  | u :: rest =>
      if whiteSpace u then
        match rest with
        | v :: _ => if whiteSpace v then collapseSpace rest else 32 :: collapseSpace rest
        | [] => [32]
        end
      else u :: collapseSpace rest
  end.

Fixpoint trimStart (s : list N) : list N :=
  match s with [] => [] | u :: rest => if trimmed u then trimStart rest else s end.
Definition trim (s : list N) : list N := rev (trimStart (rev (trimStart s))).

Section Names.
Context `{Platform}.
Definition normalizeIdentityDisplayName (name : list N) : list N := trim (collapseSpace (nfkc name)).

Definition isValidIdentityDisplayName (v : value) : bool :=
  match v with
  | Str name =>
      if (length name =? 0)%nat || existsb control name || existsb bidiControl name then false else
      let normalized := normalizeIdentityDisplayName name in
      (0 <? length (codePoints normalized))%nat && (length (codePoints normalized) <=? 48)%nat &&
      bool_decide (normalized = name)
  | _ => false
  end.
End Names.

(** ** Photos *)
(** [bytes[index]] where only bitwise operators and comparisons with bytes look at it *)
Definition byteAt (bytes : list N) (index : nat) : N := nth index bytes 0.

Definition textAt (bytes : list N) (offset : nat) (text : list N) : bool :=
  bool_decide (take (length text) (drop offset bytes) = text).

Definition webp128 (bytes : list N) : bool :=
  let at_ := byteAt bytes in
  if (length bytes <? 30)%nat || negb (textAt bytes 0 (js "RIFF")) || negb (textAt bytes 8 (js "WEBP")) then false else
  (textAt bytes 12 (js "VP8X") && (at_ 24%nat =? 127) && (at_ 25%nat =? 0) && (at_ 26%nat =? 0) && (at_ 27%nat =? 127) &&
     (at_ 28%nat =? 0) && (at_ 29%nat =? 0)) ||
  (textAt bytes 12 (js "VP8 ") && (at_ 23%nat =? 0x9d) && (at_ 24%nat =? 0x01) && (at_ 25%nat =? 0x2a) &&
     (N.land (N.lor (at_ 26%nat) (N.shiftl (at_ 27%nat) 8)) 0x3fff =? 128) &&
     (N.land (N.lor (at_ 28%nat) (N.shiftl (at_ 29%nat) 8)) 0x3fff =? 128)) ||
  (textAt bytes 12 (js "VP8L") && (25 <=? length bytes)%nat && (at_ 20%nat =? 0x2f) &&
     (1 + at_ 21%nat + N.shiftl (N.land (at_ 22%nat) 0x3f) 8 =? 128) &&
     (1 + N.shiftr (N.land (at_ 22%nat) 0xc0) 6 + N.shiftl (at_ 23%nat) 2 + N.shiftl (N.land (at_ 24%nat) 0x0f) 10 =? 128)).

Definition frameMarkers : list N := [0xc0; 0xc1; 0xc2; 0xc3; 0xc5; 0xc6; 0xc7; 0xc9; 0xca; 0xcb; 0xcd; 0xce; 0xcf].

(** The segments of a JPEG from [offset]; [None] is a scan out of fuel. *)
Fixpoint jpegScan (fuel : nat) (bytes : list N) (offset : nat) : option bool :=
  match fuel with
  | O => None
  | S fuel =>
      if negb (offset + 3 <? length bytes)%nat then Some false else
      if negb (byteAt bytes offset =? 0xff) then Some false else
      let marker := byteAt bytes (offset + 1) in
      let offset := (offset + 2)%nat in
      if (marker =? 0xd8) || (marker =? 0xd9) || between 0xd0 0xd7 marker || (marker =? 0x01)
      then jpegScan fuel bytes offset else
      let size := N.to_nat (N.lor (N.shiftl (byteAt bytes offset) 8) (byteAt bytes (offset + 1))) in
      if (size <? 2)%nat || (length bytes <? offset + size)%nat then Some false else
      if existsb (N.eqb marker) frameMarkers then
        Some ((N.lor (N.shiftl (byteAt bytes (offset + 3)) 8) (byteAt bytes (offset + 4)) =? 128) &&
              (N.lor (N.shiftl (byteAt bytes (offset + 5)) 8) (byteAt bytes (offset + 6)) =? 128))
      else jpegScan fuel bytes (offset + size)
  end.

Definition jpeg128 (bytes : list N) : bool :=
  if (length bytes <? 4)%nat || negb (byteAt bytes 0 =? 0xff) || negb (byteAt bytes 1 =? 0xd8) then false
  else default false (jpegScan (length bytes) bytes 2).

(** [/^data:image\/(?:webp|jpeg);base64,([A-Za-z0-9+/]+={0,2})$/], with the type and the encoded text *)
Definition base64Char (u : N) : bool :=
  between 65 90 u || between 97 122 u || between 48 57 u || (u =? 43) || (u =? 47).
Definition padding (s : list N) : nat :=
  match rev s with
  | 61 :: 61 :: _ => 2
  | 61 :: _ => 1
  | _ => 0
  end.
Definition base64Text (s : list N) : bool :=
  let body := take (length s - padding s) s in (0 <? length body)%nat && forallb base64Char body.
Definition matchAvatar (s : list N) : option (bool * list N) :=
  let rest := drop 23 s in
  if bool_decide (take 23 s = js "data:image/webp;base64,") && base64Text rest then Some (true, rest)
  else if bool_decide (take 23 s = js "data:image/jpeg;base64,") && base64Text rest then Some (false, rest)
  else None.

Definition maxAvatarBytes : N := 16384.
Definition maxAvatarDataUrlLength : N := 22000.

Definition isValidIdentityAvatar (v : value) : bool :=
  match v with
  | Str text =>
      if maxAvatarDataUrlLength <? N.of_nat (length text) then false else
      match matchAvatar text with
      | None => false
      | Some (webp, encoded) =>
          if negb (length encoded mod 4 =? 0)%nat then false else
          if maxAvatarBytes <? N.of_nat (length encoded * 3 / 4 - padding encoded) then false else
          match atob encoded with
          | Ok bytes => if webp : bool then webp128 bytes else jpeg128 bytes
          | Throw _ => false
          end
      end
  | _ => false
  end.

Definition isValidIdentityProfilePhoto (v : value) : bool :=
  isRecord v && hasExactKeys v [js "avatarData"; js "changedAt"] &&
  (isNull v.["avatarData"] || isValidIdentityAvatar v.["avatarData"]) &&
  match v.["changedAt"] with Str s => match isoTime s with Some _ => true | None => false end | _ => false end.

(** ** Service pins *)
Section Pins.
Context `{Platform} `{Sha256}.

Definition localHosts : list (list N) := [js "localhost"; js "127.0.0.1"; js "[::1]"].

Definition isIdentityRustyServicePin (v : value) : bool :=
  if negb (isRecord v) || negb (hasExactKeys v [js "origin"; js "serviceId"; js "servicePublicKey"]) then false else
  match v.["origin"], v.["serviceId"], v.["servicePublicKey"] with
  | Str origin, Str serviceId, Str servicePublicKey =>
      digest43 serviceId &&
      match parseURL origin with
      | None => false
      | Some url =>
          bool_decide (url_origin url = origin) && bool_decide (url_username url = []) && bool_decide (url_password url = []) &&
          bool_decide (url_pathname url = js "/") && bool_decide (url_search url = []) && bool_decide (url_hash url = []) &&
          (bool_decide (url_protocol url = js "https:") ||
           (bool_decide (url_protocol url = js "http:") && bool_decide (url_hostname url ∈ localHosts)))
      end
  | _, _, _ => false
  end.

Definition normalizeIdentityRustyServicePin (v : value) : result value :=
  if negb (isIdentityRustyServicePin v) then Throw "Invalid Rusty service pin origin or key" else
  match v.["servicePublicKey"], v.["serviceId"] with
  | Str key, Str serviceId =>
      id ← publicKeyId key;
      if bool_decide (id = serviceId) then Ok v else Throw "Invalid Rusty service pin origin or key"
  | _, _ => Throw "Invalid Rusty service pin origin or key"
  end.

(** The pins by origin; an origin has one pin. *)
Definition pinOrigin (pin : value) : list N := match pin.["origin"] with Str origin => origin | _ => [] end.
Definition addPin (byOrigin : list (list N * value)) (pin : value) : result (list (list N * value)) :=
  same ← match map_get (pinOrigin pin) byOrigin with
         | None => Ok true
         | Some existing => a ← canonicalizeJson existing; b ← canonicalizeJson pin; Ok (bool_decide (a = b))
         end;
  if (same : bool) then Ok (map_set (pinOrigin pin) pin byOrigin) else Throw "Conflicting Rusty service key for origin".

Definition sortPins (byOrigin : list (list N * value)) : list value :=
  sortBy (fun a b => str_leb (pinOrigin a) (pinOrigin b)) (map snd byOrigin).

Definition normalizeIdentityRustyServicePins (v : value) : result (list value) :=
  match v with
  | Arr pins =>
      if (128 <? length pins)%nat then Throw "Invalid Rusty service pin catalog" else
      byOrigin ← foldR (fun m candidate => pin ← normalizeIdentityRustyServicePin candidate; addPin m pin) [] pins;
      Ok (sortPins byOrigin)
  | _ => Throw "Invalid Rusty service pin catalog"
  end.
End Pins.

(** ** The scan of a JPEG ends: each segment is at least two bytes *)
Lemma jpegScan_ends fuel bytes offset :
  (offset <= length bytes)%nat -> (length bytes < fuel + offset)%nat -> jpegScan fuel bytes offset <> None.
Proof.
  revert offset. induction fuel as [|fuel IH]; intros offset Ho Hf; cbn [jpegScan]; [lia|].
  destruct (Nat.ltb_spec (offset + 3) (length bytes)); [|done]. cbn [negb]. case_match; [done|]. case_match; [apply IH; lia|].
  match goal with |- (if ?b then _ else _) <> _ => destruct b eqn:Hs end; [done|].
  apply orb_false_iff in Hs as [Hs1%Nat.ltb_ge Hs2%Nat.ltb_ge]. case_match; [done|]. apply IH; lia.
Qed.
