(* ===== verification/Profile.v ===== *)
(** * Identity profile history

    [packages/mesh-identity/src/identityProfile.ts]: an append-only history of
    signed edits of a name, a photo and service pins, with causal contexts,
    that devices merge without coordination.  Operations stay JSON values, as
    they are signed and compared; [readIdentityProfileState] is what makes them
    trustworthy. *)
From stdpp Require Import base numbers list sorting strings sets.
From Stdlib Require Import ZArith NArith Lia.
From S2P Require Import Prelude Unicode Json Js Base64 Digest Dates Envelope Certificates Authority ProfileValue.
Local Open Scope js_scope.

Definition maxOperations : nat := 512.
Definition maxContextEntries : nat := 256.
Definition maxStateBytes : N := 1048576.

Record IdentityProfileState := mkProfileState {
  profile_personId : list N;
  profile_operations : list value;
  profile_legacy : list value }.

Definition profile_value (state : IdentityProfileState) : value :=
  Obj [(js "version", Num (Int 1)); (js "personId", Str (profile_personId state));
       (js "operations", Arr (profile_operations state)); (js "legacy", Arr (profile_legacy state))].

(** What an operation says; the defaults are never used on one that was verified. *)
Definition textOf (v : value) : list N := match v with Str s => s | _ => [] end.
Definition intOf (v : value) : Z := match v with Num (Int z) => z | _ => 0%Z end.
Definition opPayload (operation : value) : value := operation.["signed"].["payload"].
Definition opDevice (operation : value) : list N := textOf (opPayload operation).["deviceId"].
Definition opCounter (operation : value) : Z := intOf (opPayload operation).["counter"].
Definition opContext (operation : value) : value := (opPayload operation).["context"].
Definition opField (operation : value) : list N := textOf (opPayload operation).["field"].
Definition opSupersedes (operation : value) : list (list N) := map textOf (items (opPayload operation).["supersedesLegacy"]).
Definition legacyKey (observation : value) : list N := textOf observation.["id"].

(** [context[actor] ?? 0].  The counts of an operation that was verified are
    numbers; an entry that is none, which only unverified data has, counts as 0 here,
    where JavaScript would coerce it. *)
Definition clockAt (context : value) (actor : list N) : Z := intOf (getOpt actor context).

Definition operationId (operation : value) : list N := opDevice operation ++ js ":" ++ intText (opCounter operation).

Definition precedes (before after : value) : bool :=
  (opCounter before <=? clockAt (opContext after) (opDevice before))%Z.

Definition isPersonId (v : value) : bool := match v with Str s => digest43 s | _ => false end.

Definition emptyIdentityProfileState (person : value) : result IdentityProfileState :=
  match person with
  | Str personId => if digest43 personId then Ok (mkProfileState personId [] []) else Throw "Invalid identity profile person"
  | _ => Throw "Invalid identity profile person"
  end.

Definition boundedSnapshot (v : value) : result value :=
  match JSON_stringify v with
  | None => Throw "Identity profile evidence exceeds size limit"
  | Some raw =>
      if (maxStateBytes <? N.of_nat (length (TextEncoder_encode raw)))%N
      then Throw "Identity profile evidence exceeds size limit" else
      match JSON_parse raw with
      | Some (Obj ms) =>
          match member (js "version") ms with
          | Undefined | Num (Int 1) => Ok (Obj ms)
          | _ => Throw "Identity profile state requires an update"
          end
      | _ => Throw "Invalid identity profile state"
      end
  end.

Definition isProfileField (v : value) : bool :=
  isStr (js "name") v || isStr (js "photo") v || isStr (js "rustyServicePin") v.
Definition isPresentationField (v : value) : bool := isStr (js "name") v || isStr (js "photo") v.

Definition parseOperation (v : value) : result value :=
  if negb (isRecord v) || negb (hasExactKeys v [js "signed"; js "certificates"]) || negb (isRecord v.["signed"]) ||
     negb (hasExactKeys v.["signed"] [js "payload"; js "signerKeyId"; js "signature"]) ||
     negb (isRecord v.["signed"].["payload"]) || negb (isArray v.["certificates"]) ||
     existsb (fun item => negb (isRecord item)) (items v.["certificates"])
  then Throw "Invalid identity profile operation" else
  let payload := v.["signed"].["payload"] in
  if negb (hasExactKeys payload [js "kind"; js "version"; js "personId"; js "deviceId"; js "counter"; js "context";
                                 js "field"; js "value"; js "supersedesLegacy"]) ||
     negb (isStr (js "identity-profile-update") payload.["kind"]) || negb (isInt 1 payload.["version"]) ||
     negb (isString payload.["personId"]) || negb (isString payload.["deviceId"]) ||
     negb (isSafe payload.["counter"]) || negb (isProfileField payload.["field"]) ||
     negb (isRecord payload.["context"]) || negb (isArray payload.["supersedesLegacy"]) ||
     negb (isString v.["signed"].["signerKeyId"]) || negb (isString v.["signed"].["signature"])
  then Throw "Invalid identity profile operation" else Ok v.

(** [new Set(list).size === list.length] *)
Fixpoint distinctValues (l : list value) : bool :=
  match l with [] => true | v :: rest => negb (existsb (strictEqual v) rest) && distinctValues rest end.

(** The edges of the history: what an operation has seen is there, and has
    itself seen nothing the operation has not. *)
Definition checkDependency (byId : list (list N * value)) (operation : value) (entry : list N * value) : result unit :=
  let '(actor, count) := entry in
  if negb (truthy count) then Ok tt else
  match map_get (actor ++ js ":" ++ intText (intOf count)) byId with
  | None => Throw "Missing signed identity profile causal evidence"
  | Some dependency =>
      if existsb (fun '(seenActor, seenCount) => (clockAt (opContext operation) seenActor <? intOf seenCount)%Z)
           (members (opContext dependency))
      then Throw "Contradictory identity profile causal context" else
      if precedes operation dependency then Throw "Cyclic identity profile causal context" else Ok tt
  end.

Definition validateCausality (operations : list value) : result unit :=
  let byId := fold_left (fun m operation => map_set (operationId operation) operation m) operations [] in
  foldR (fun _ operation =>
    foldR (fun _ entry => checkDependency byId operation entry) tt (members (opContext operation))) tt operations.

Section Profile.
Context `{Platform} `{Sha256} `{Ed25519}.

Definition validateValue (field v : value) : result unit :=
  if isStr (js "name") field then
    if isValidIdentityDisplayName v then Ok tt else Throw "Invalid identity profile name"
  else if isStr (js "rustyServicePin") field then
    if isIdentityRustyServicePin v then Ok tt else Throw "Invalid Rusty service pin"
  else if isValidIdentityProfilePhoto v then Ok tt else Throw "Invalid identity profile photo".

Definition legacyId (field v : value) : result (list N) :=
  text ← canonicalizeJson (Arr [field; v]); Ok (sha256Base64Url (encodeText text)).

Definition identityProfileRustyServicePins (operations : list value) : result (list value) :=
  byOrigin ← foldR (fun m operation =>
    if negb (isStr (js "rustyServicePin") (opPayload operation).["field"]) then Ok m
    else addPin m (opPayload operation).["value"]) [] operations;
  Ok (sortPins byOrigin).

Section Identity.
Variable identity : PublicIdentity.

(** [context[deviceId] ?? 0] may be anything before the context is checked. *)
Definition previousCount (context : value) (deviceId : list N) : value :=
  match getOpt deviceId context with Undefined | Null => Num (Int 0) | v => v end.

Definition checkRevision (operation : value) : result unit :=
  let payload := opPayload operation in
  let supersedes := payload.["supersedesLegacy"] in
  match safeInt payload.["counter"] with
  | None => Throw "Invalid identity profile revision"
  | Some counter =>
      if negb (isStr (js "identity-profile-update") payload.["kind"]) || negb (isInt 1 payload.["version"]) ||
         negb (isStr (personId identity) payload.["personId"]) ||
         negb (strictEqual payload.["deviceId"] operation.["signed"].["signerKeyId"]) || (counter <? 1)%Z ||
         negb (isRecord payload.["context"]) || (maxContextEntries <? length (members payload.["context"]))%nat ||
         negb (isInt (counter - 1) (previousCount payload.["context"] (opDevice operation))) || negb (isArray supersedes) ||
         (maxOperations <? length (items supersedes))%nat || negb (distinctValues (items supersedes)) ||
         (length (items operation.["certificates"]) =? 0)%nat || (32 <? length (items operation.["certificates"]))%nat
      then Throw "Invalid identity profile revision" else
      if existsb (fun '(deviceId, count) => negb (digest43 deviceId) ||
           match safeInt count with Some n => (n <? 0)%Z | None => true end) (members payload.["context"])
      then Throw "Invalid identity profile causal context" else
      if existsb (fun id => negb (isPersonId id)) (items supersedes) then Throw "Invalid legacy profile reference"
      else Ok tt
  end.

(** The operation's own certificates are the chain: it has at least one. *)
Definition verifyOperation (operation : value) : result unit :=
  validateValue (opPayload operation).["field"] (opPayload operation).["value"];;
  checkRevision operation;;
  let chain := items operation.["certificates"] in
  leaf ← findDevice (Str (opDevice operation)) chain;
  enroll ← match leaf with
           | None => Ok Undefined
           | Some certificate => payload ← get (js "payload") certificate; get (js "canEnrollDevices") payload
           end;
  if negb (truthy enroll) then Throw "Device lacks identity management authority" else
  key ← verifyDeviceCertificateChain identity (js "MATCH/1") (opDevice operation) chain;
  verified ← verifyEnvelope operation.["signed"] key (js "MATCH/1");
  if (verified : bool) then Ok tt else Throw "Invalid identity profile signature".

(** [previous && canonicalizeJson(previous) !== canonicalizeJson(operation)] *)
Definition addOperation (m : list (list N * value)) (operation : value) : result (list (list N * value)) :=
  same ← match map_get (operationId operation) m with
         | None => Ok true
         | Some previous => a ← canonicalizeJson previous; b ← canonicalizeJson operation; Ok (bool_decide (a = b))
         end;
  if (same : bool) then Ok (map_set (operationId operation) operation m) else Throw "Identity profile device equivocation".

Definition readOperation (m : list (list N * value)) (candidate : value) : result (list (list N * value)) :=
  operation ← parseOperation candidate;
  verifyOperation operation;;
  addOperation m operation.

Definition readLegacy (m : list (list N * value)) (candidate : value) : result (list (list N * value)) :=
  if negb (isRecord candidate) || negb (hasExactKeys candidate [js "id"; js "field"; js "value"]) ||
     negb (isString candidate.["id"]) || negb (isPresentationField candidate.["field"])
  then Throw "Invalid legacy profile observation" else
  validateValue candidate.["field"] candidate.["value"];;
  id ← legacyId candidate.["field"] candidate.["value"];
  if negb (isStr id candidate.["id"]) then Throw "Imported profile contents do not match their proof" else
  Ok (map_set id (Obj [(js "id", Str id); (js "field", candidate.["field"]); (js "value", candidate.["value"])]) m).

Definition checkSuperseded (legacy : list (list N * value)) (operation : value) : result unit :=
  foldR (fun _ id =>
    match map_get id legacy with
    | None => Throw "Missing original profile observation"
    | Some observation =>
        if strictEqual observation.["field"] (opPayload operation).["field"] then Ok tt
        else Throw "Profile observation field does not match its update"
    end) tt (opSupersedes operation).

Definition readIdentityProfileState (v : value) : result IdentityProfileState :=
  state ← boundedSnapshot v;
  if negb (hasExactKeys state [js "version"; js "personId"; js "operations"; js "legacy"]) ||
     negb (isInt 1 state.["version"]) || negb (isStr (personId identity) state.["personId"]) ||
     negb (digest43 (personId identity)) || negb (isArray state.["operations"]) ||
     (maxOperations <? length (items state.["operations"]))%nat || negb (isArray state.["legacy"]) ||
     (maxOperations <? length (items state.["legacy"]))%nat
  then Throw "Invalid identity profile state" else
  operations ← foldR readOperation [] (items state.["operations"]);
  legacy ← foldR readLegacy [] (items state.["legacy"]);
  let result := mkProfileState (personId identity)
    (sortBy (fun a b => str_leb (operationId a) (operationId b)) (map snd operations))
    (sortBy (fun a b => str_leb (legacyKey a) (legacyKey b)) (map snd legacy)) in
  validateCausality (profile_operations result);;
  identityProfileRustyServicePins (profile_operations result);;
  foldR (fun _ operation => checkSuperseded legacy operation) tt (profile_operations result);;
  Ok result.

(** ** Revoked devices *)

(** The hashes that the revocations observed of each device they revoke. *)
Definition addFrontier (descendants : list (list N)) (m : list (list N * list value)) (entry : list N * value)
    : result (list (list N * list value)) :=
  let '(deviceId, hashes) := entry in
  if negb (bool_decide (deviceId ∈ descendants)) || negb (isArray hashes) || (maxOperations <? length (items hashes))%nat ||
     existsb (fun hash => negb (isPersonId hash)) (items hashes)
  then Throw "Invalid Identity profile revocation frontier" else
  same ← match map_get deviceId m with
         | None => Ok true
         | Some existing =>
             a ← canonicalizeJson (Arr existing); b ← canonicalizeJson hashes; Ok (bool_decide (a = b))
         end;
  if (same : bool) then Ok (map_set deviceId (items hashes) m) else Throw "Conflicting Identity profile revocation history".

Definition addRevocation (certificates : list value) (m : list (list N * list value)) (revocation : value)
    : result (list (list N * list value)) :=
  let payload := revocation.["payload"] in
  let hashes := payload.["profileOperationHashes"] in
  if negb (truthy payload) || negb (isRecord hashes || isArray hashes)
  then Throw "Invalid Identity profile revocation frontier" else
  descendants ← identityDeviceDescendants (textOf payload.["deviceId"]) certificates;
  m ← foldR (addFrontier descendants) m (members hashes);
  Ok (fold_left (fun m deviceId => if map_has deviceId m then m else map_set deviceId [] m) descendants m).

(** The payload of a candidate that has one. *)
Definition candidatePayload (candidate : value) : option value :=
  if isRecord candidate && isRecord candidate.["signed"] && isRecord candidate.["signed"].["payload"]
  then Some candidate.["signed"].["payload"] else None.

(** [`${payload.deviceId}:${payload.counter}`], kept apart *)
Definition candidateKey (candidate : value) : option (list N * Z) :=
  match candidatePayload candidate with
  | Some payload =>
      match payload.["deviceId"], safeInt payload.["counter"] with
      | Str deviceId, Some counter => Some (deviceId, counter)
      | _, _ => None
      end
  | None => None
  end.

(** Is the candidate what a revocation of its device observed at its place? *)
Definition withinCutoff (revokedDevices : list (list N * list value)) (candidate : value) : result bool :=
  match candidatePayload candidate with
  | Some payload =>
      match payload.["deviceId"] with
      | Str actor =>
          match (if (length actor =? 0)%nat then None else map_get actor revokedDevices) with
          | None => Ok true
          | Some hashes =>
              match safeInt payload.["counter"] with
              | Some counter =>
                  if (counter <? 1)%Z || (Z.of_nat (length hashes) <? counter)%Z then Ok false else
                  text ← canonicalizeJson candidate.["signed"];
                  Ok (strictEqual (nth (Z.to_nat (counter - 1)) hashes Undefined) (Str (sha256Base64Url (encodeText text))))
              | None => Ok false
              end
          end
      | _ => Ok true
      end
  | None => Ok true
  end.

(** The operations that are gone, unless another copy of them is kept. *)
Definition removedKeys (candidates : list value) (kept : list nat) : list (list N * Z) :=
  let keys (keep : nat -> bool) :=
    omap (fun index => candidate ← candidates !! index; candidateKey candidate)
      (List.filter keep (seq 0 (length candidates))) in
  let keptKeys := keys (fun index => bool_decide (index ∈ kept)) in
  List.filter (fun key => negb (bool_decide (key ∈ keptKeys))) (keys (fun index => negb (bool_decide (index ∈ kept)))).

Definition dependsOn (candidate : value) (removed : list (list N * Z)) : bool :=
  match candidatePayload candidate with
  | Some payload =>
      isRecord payload.["context"] &&
      existsb (fun '(actor, counter) => (counter <=? clockAt payload.["context"] actor)%Z) removed
  | None => false
  end.

Definition dropDependents (candidates : list value) (kept : list nat) : list nat :=
  let removed := removedKeys candidates kept in
  List.filter (fun index => match candidates !! index with Some c => negb (dependsOn c removed) | None => true end) kept.

(** [while (changed)]: each round that changes something drops an index. *)
Fixpoint dropAllDependents (fuel : nat) (candidates : list value) (kept : list nat) : list nat :=
  match fuel with
  | O => kept
  | S fuel =>
      let kept' := dropDependents candidates kept in
      if (length kept' =? length kept)%nat then kept else dropAllDependents fuel candidates kept'
  end.

Definition filterIdentityProfileRevocations (v : value) (certificates revocations : list value) : result value :=
  snapshot ← boundedSnapshot v;
  match snapshot.["operations"] with
  | Arr candidates =>
      if (maxOperations <? length candidates)%nat then Throw "Invalid identity profile state" else
      verifyIdentityDeviceAuthority identity (js "MATCH/1") (evidence_value certificates revocations);;
      revokedDevices ← foldR (addRevocation certificates) [] revocations;
      kept ← filterR (fun index => match candidates !! index with
                                   | Some candidate => withinCutoff revokedDevices candidate
                                   | None => Ok false
                                   end) (seq 0 (length candidates));
      let kept := dropAllDependents (S (length candidates)) candidates kept in
      Ok (Obj (setMember (js "operations") (Arr (omap (fun index => candidates !! index) kept)) (members snapshot)))
  | _ => Throw "Invalid identity profile state"
  end.

Definition readIdentityProfileStateWithRevocations (v : value) (certificates revocations : list value)
    : result IdentityProfileState :=
  filtered ← filterIdentityProfileRevocations v certificates revocations;
  readIdentityProfileState filtered.

(** ** Merging and editing *)
Definition mergeIdentityProfileState (left right : value) : result IdentityProfileState :=
  a ← readIdentityProfileState left;
  b ← readIdentityProfileState right;
  let operations := fold_left (fun m operation => map_set (operationId operation) operation m) (profile_operations a) [] in
  operations ← foldR addOperation operations (profile_operations b);
  let legacy := fold_left (fun m observation => map_set (legacyKey observation) observation m)
    (profile_legacy a ++ profile_legacy b) [] in
  readIdentityProfileState (profile_value (mkProfileState (personId identity) (map snd operations) (map snd legacy))).

Definition observeLegacyIdentityProfile (state : value) (field v : value) : result IdentityProfileState :=
  validateValue field v;;
  current ← readIdentityProfileState state;
  id ← legacyId field v;
  if existsb (fun item => bool_decide (legacyKey item = id)) (profile_legacy current) then Ok current else
  readIdentityProfileState (profile_value (mkProfileState (profile_personId current) (profile_operations current)
    (profile_legacy current ++ [Obj [(js "field", field); (js "value", v); (js "id", Str id)]]))).
End Identity.

Record LocalProfile := mkLocalProfile {
  local_identity : PublicIdentity;
  local_deviceId : list N;
  local_publicKey : list N;
  local_certificate : value;
  local_identityKey : option CryptoKey;
  local_deviceKey : CryptoKey }.

(** [clock[deviceId] = Math.max(clock[deviceId] ?? 0, counter)] *)
Definition clockOf (operations : list value) : list (list N * Z) :=
  fold_left (fun clock operation =>
    map_set (opDevice operation) (Z.max (default 0%Z (map_get (opDevice operation) clock)) (opCounter operation)) clock)
    operations [].
Definition clock_value (clock : list (list N * Z)) : value := Obj (map (fun '(actor, count) => (actor, Num (Int count))) clock).

Definition supersededBy (state : IdentityProfileState) (field : list N) : list (list N) :=
  sortBy str_leb (remove_dups
    (map legacyKey (List.filter (fun item => bool_decide (textOf item.["field"] = field)) (profile_legacy state)) ++
     concat (map opSupersedes (List.filter (fun item => bool_decide (opField item = field)) (profile_operations state))))).

Definition operation_value (signed : value) (certificates : list value) : value :=
  Obj [(js "signed", signed); (js "certificates", Arr certificates)].

(** [ensureCurrent] answers each of its three calls. *)
Definition createIdentityProfileOperation (profile : LocalProfile) (state : value) (field v : value)
    (certificates : list value) (ensureCurrent : nat -> result unit) : result value :=
  validateValue field v;;
  current ← readIdentityProfileState (local_identity profile) state;
  payload ← get (js "payload") (local_certificate profile);
  deviceId ← get (js "deviceId") payload;
  if negb (isStr (local_deviceId profile) deviceId) || negb (truthy payload.["canEnrollDevices"])
  then Throw "Device lacks identity management authority" else
  key ← verifyDeviceCertificateChain (local_identity profile) (js "MATCH/1") (local_deviceId profile) certificates;
  if negb (strictEqual key (Str (local_publicKey profile))) || negb (strictEqual payload.["devicePublicKey"] key)
  then Throw "Identity profile device key mismatch" else
  ensureCurrent 0%nat;;
  let clock := clockOf (profile_operations current) in
  let next := (default 0 (map_get (local_deviceId profile) clock) + 1)%Z in
  if negb (isSafeInteger next) then Throw "Identity profile revision exhausted" else
  let payload := Obj
    [(js "kind", Str (js "identity-profile-update")); (js "version", Num (Int 1));
     (js "personId", Str (profile_personId current)); (js "deviceId", Str (local_deviceId profile));
     (js "counter", Num (Int next)); (js "context", clock_value clock); (js "field", field); (js "value", v);
     (js "supersedesLegacy", Arr (map Str (supersededBy current (textOf field))))] in
  ensureCurrent 1%nat;;
  signed ← signEnvelope (local_deviceKey profile) payload (local_deviceId profile) (js "MATCH/1");
  ensureCurrent 2%nat;;
  let operation := operation_value signed certificates in
  readIdentityProfileState (local_identity profile) (profile_value (mkProfileState (profile_personId current)
    (profile_operations current ++ [operation]) (profile_legacy current)));;
  Ok operation.

Definition createIdentityRustyServicePinOperation (profile : LocalProfile) (state pin : value)
    (certificates : list value) (ensureCurrent : nat -> result unit) : result (option value) :=
  pin ← normalizeIdentityRustyServicePin pin;
  current ← readIdentityProfileState (local_identity profile) state;
  pins ← identityProfileRustyServicePins (profile_operations current);
  match List.find (fun existing => bool_decide (pinOrigin existing = pinOrigin pin)) pins with
  | Some existing =>
      a ← canonicalizeJson existing;
      b ← canonicalizeJson pin;
      if bool_decide (a = b) then Ok None else Throw "Conflicting Rusty service key for origin"
  | None =>
      operation ← createIdentityProfileOperation profile (profile_value current) (Str (js "rustyServicePin")) pin certificates ensureCurrent;
      Ok (Some operation)
  end.

(** ** The value of a field *)
Inductive profileStatus := StatusEmpty | StatusValue | StatusConflict.

(** [typeof value === "string" ? value : value.avatarData ?? ""] *)
Definition valueKey (v : value) : list N := match v with Str s => s | _ => textOf v.["avatarData"] end.

(** The operations of a field that no other of that field has seen. *)
Definition fieldOperations (field : list N) (state : IdentityProfileState) : list value :=
  List.filter (fun item => bool_decide (opField item = field)) (profile_operations state).
Definition latest (operations : list value) : list value :=
  List.filter (fun item => negb (existsb (fun other => precedes item other) operations)) operations.

Definition identityProfileValue (state : IdentityProfileState) (field : list N) : result (profileStatus * list value) :=
  if bool_decide (field = js "rustyServicePin") then
    values ← identityProfileRustyServicePins (profile_operations state);
    Ok (if (length values =? 0)%nat then StatusEmpty else StatusValue, values)
  else
    let operations := fieldOperations field state in
    let superseded := concat (map opSupersedes operations) in
    let values := map (fun item => (opPayload item).["value"]) (latest operations) ++
      map (fun item => item.["value"])
        (List.filter (fun item => bool_decide (textOf item.["field"] = field) && negb (bool_decide (legacyKey item ∈ superseded)))
          (profile_legacy state)) in
    let distinct := fold_left (fun m v => map_set (valueKey v) v m) values [] in
    let selected := map snd (sortBy (fun a b => str_leb a.1 b.1) distinct) in
    Ok (match selected with [] => StatusEmpty | [_] => StatusValue | _ => StatusConflict end, selected).

Definition identityProfileRevision (state : IdentityProfileState) : result (list N) :=
  text ← canonicalizeJson (profile_value state); Ok (sha256Base64Url (encodeText text)).
End Profile.

(** ** What a history that was read satisfies *)
Section Read.
Context `{Platform} `{Sha256} `{Ed25519}.
Variable identity : PublicIdentity.

Record operationOk (operation : value) : Prop := {
  ok_device : length (opDevice operation) = 43%nat;
  ok_counter : isSafeInteger (opCounter operation) /\ (1 <= opCounter operation)%Z;
  ok_own : clockAt (opContext operation) (opDevice operation) = (opCounter operation - 1)%Z;
  ok_context : exists ms, opContext operation = Obj ms /\
    Forall (fun entry => length entry.1 = 43%nat /\ exists z, entry.2 = Num (Int z) /\ isSafeInteger z /\ (0 <= z)%Z) ms }.

Lemma verifyOperation_ok operation : verifyOperation identity operation = Ok tt -> operationOk operation.
Proof.
  unfold verifyOperation. intros ([] & _ & Hr)%bind_ok. apply bind_ok in Hr as ([] & Hck & Hr). apply bind_ok in Hr as (leaf & _ & Hr).
  apply bind_ok in Hr as (enroll & _ & Hr). revert Hr. guard_passed as He. intros (key & Hkey & _)%bind_ok.
  apply verifyDevice_sound in Hkey as (_ & _ & n & c & Hc & _). apply certified_stated in Hc as [_ (_ & _ & _ & Hid & _)].
  unfold checkRevision in Hck. destruct (safeInt (opPayload operation).["counter"]) as [counter|] eqn:Hcounter; [|done].
  revert Hck. guard_passed as Hg. do 12 apply orb_false_iff in Hg as [Hg ?]. guard_passed as Hctx. guard_passed as Hleg. intros _.
  rewrite !negb_false_iff in *. unfold safeInt in Hcounter. destruct (opPayload operation).["counter"] as [| | |[z| |]| | |] eqn:Hz; try done.
  destruct (isSafeInteger z) eqn:Hsafe; [|done]. injection Hcounter as ->.
  assert (opCounter operation = counter) as Hoc by (unfold opCounter; by rewrite Hz).
  destruct (opPayload operation).["context"] as [| | | | | |ms] eqn:Hms; try done.
  split.
  - unfold publicKeyIdOf in Hid. destruct (c.["payload"].["devicePublicKey"]); try done. unfold publicKeyId in Hid.
    apply bind_ok in Hid as (bytes & _ & Hid). revert Hid. guard_passed as Hb. intros [= <-].
    pose proof (sha256Base64Url_digest43 bytes) as Hd. unfold digest43 in Hd. apply andb_prop_elim in Hd as [Hd _]. by apply Is_true_true, Nat.eqb_eq in Hd.
  - rewrite Hoc. split; [by rewrite Hsafe|]. match goal with H : (_ <? 1)%Z = false |- _ => by apply Z.ltb_ge in H end.
  - match goal with H : isInt _ (previousCount _ _) = true |- _ => apply isInt_true in H; rename H into Hprev end.
    rewrite Hoc. unfold clockAt, opContext. rewrite Hms. unfold previousCount in Hprev.
    destruct (getOpt (opDevice operation) (Obj ms)) as [| | |[y| |]| | |]; try done; injection Hprev as <-; done.
  - exists ms. split; [done|]. cbn [members] in Hctx. apply Forall_forall. intros [d count] Hin. cbn.
    assert ((negb (digest43 d) || match safeInt count with Some n => (n <? 0)%Z | None => true end) = false) as Hent.
    { apply not_true_iff_false. intros Ht. apply not_true_iff_false in Hctx. apply Hctx, existsb_exists.
      exists (d, count). split; [by apply list_elem_of_In|done]. }
    apply orb_false_iff in Hent as [Hd%negb_false_iff Hc']. unfold digest43 in Hd. apply andb_true_iff in Hd as [Hd%Nat.eqb_eq _].
    split; [done|]. unfold safeInt in Hc'. destruct count as [| | |[y| |]| | |]; try done. destruct (isSafeInteger y) eqn:Hy; [|done].
    exists y. split_and!; [done|by rewrite Hy|by apply Z.ltb_ge in Hc'].
Qed.

Definition historyOk (operations : list value) : Prop :=
  NoDup (map operationId operations) /\ Forall operationOk operations /\ validateCausality operations = Ok tt.

Lemma readIdentityProfileState_ok v state :
  readIdentityProfileState identity v = Ok state -> historyOk (profile_operations state).
Proof.
  unfold readIdentityProfileState. intros (snapshot & _ & Hr)%bind_ok. revert Hr. guard_passed as Hg.
  intros (operations & Hops & Hr)%bind_ok. apply bind_ok in Hr as (legacy & _ & Hr). apply bind_ok in Hr as ([] & Hcaus & Hr).
  apply bind_ok in Hr as (pins & _ & Hr). apply bind_ok in Hr as ([] & _ & [= <-]). cbn [profile_operations] in *.
  assert (NoDup (map fst operations) /\ Forall (fun entry => entry.1 = operationId entry.2 /\ operationOk entry.2) operations) as [Hn Hall].
  { revert Hops. apply (foldR_ind _ (fun m => NoDup (map fst m) /\ Forall (fun entry => entry.1 = operationId entry.2 /\ operationOk entry.2) m));
      [|split; constructor].
    intros m c m' _ [Hn Hall] (operation & Hp & Hr)%bind_ok. apply bind_ok in Hr as ([] & Hv & Ha).
    unfold addOperation in Ha. apply bind_ok in Ha as (b & _ & Ha). destruct b; [|done]. injection Ha as <-.
    split; [by apply map_set_NoDup|]. apply map_set_Forall; [done|]. split; [done|]. by eapply verifyOperation_ok. }
  split_and!; [|rewrite sortBy_perm; by apply Forall_fmap; eapply Forall_impl; [exact Hall|intros ? [??]]|done].
  rewrite sortBy_perm. replace (map operationId (map snd operations)) with (map fst operations); [done|].
  rewrite map_map. apply map_ext_in. intros e He%list_elem_of_In. by apply (proj1 (Forall_forall _ _) Hall) in He as [??].
Qed.
End Read.

Section Order.
Variable operations : list value.
Hypothesis Hhistory : historyOk operations.

Lemma history_ok operation : operation ∈ operations -> operationOk operation.
Proof. destruct Hhistory as (_ & Hall & _). by apply Forall_forall. Qed.

Lemma clock_nonneg operation actor : operation ∈ operations -> (0 <= clockAt (opContext operation) actor)%Z.
Proof.
  intros Hop. destruct (ok_context _ (history_ok _ Hop)) as (ms & Hms & Hall). unfold clockAt. rewrite Hms. cbn [getOpt].
  destruct (member actor ms) as [| | |[z| |]| | |] eqn:Hm; cbn; try lia.
  assert ((actor, member actor ms) ∈ ms) as Hin by (apply member_elem; by rewrite Hm).
  apply (proj1 (Forall_forall _ _) Hall) in Hin as (_ & z' & Hz' & _ & Hpos). cbn in Hz'. rewrite Hm in Hz'. by injection Hz' as ->.
Qed.

Lemma operationId_inj a b : a ∈ operations -> b ∈ operations -> operationId a = operationId b -> a = b.
Proof.
  intros Ha Hb He. destruct Hhistory as (Hn & _). apply list_elem_of_lookup in Ha as [i Hi]. apply list_elem_of_lookup in Hb as [j Hj].
  assert (i = j) as ->; [|congruence]. eapply NoDup_lookup; [exact Hn|..]; rewrite list_lookup_fmap; [by rewrite Hi|by rewrite Hj; cbn; rewrite He].
Qed.

Lemma byId_get m id operation :
  (forall k o, map_get k m = Some o -> o ∈ operations /\ operationId o = k) ->
  map_get id (fold_left (fun m operation => map_set (operationId operation) operation m) operations m) = Some operation ->
  operation ∈ operations /\ operationId operation = id.
Proof.
  assert (forall l, (forall o, o ∈ l -> o ∈ operations) -> forall m,
    (forall k o, map_get k m = Some o -> o ∈ operations /\ operationId o = k) ->
    map_get id (fold_left (fun m operation => map_set (operationId operation) operation m) l m) = Some operation ->
    operation ∈ operations /\ operationId operation = id) as Hgen; [|by apply Hgen].
  intros l Hl. induction l as [|o l IH]; intros m' Hm; cbn; [by apply Hm|]. apply IH; [intros; apply Hl; by right|].
  intros k o'. rewrite map_get_set. case_bool_decide; [intros [= <-]; split; [apply Hl; left|done]|by apply Hm].
Qed.

(** The operation behind an entry of a context. *)
Lemma dependency_exists operation actor count :
  operation ∈ operations -> clockAt (opContext operation) actor = count -> (0 < count)%Z ->
  exists dependency, dependency ∈ operations /\ opDevice dependency = actor /\ opCounter dependency = count /\
    forall other, (clockAt (opContext dependency) other <= clockAt (opContext operation) other)%Z.
Proof.
  intros Hop Hc Hpos. destruct (ok_context _ (history_ok _ Hop)) as (ms & Hms & Hall). destruct Hhistory as (_ & _ & Hcaus).
  unfold clockAt in Hc. rewrite Hms in Hc. cbn [getOpt] in Hc.
  assert ((actor, member actor ms) ∈ ms) as Hin by (apply member_elem; intros Hu; rewrite Hu in Hc; cbn in Hc; lia).
  pose proof (proj1 (Forall_forall _ _) Hall _ Hin) as (Hlen & z & Hz & Hsafe & _). cbn in Hlen, Hz.
  rewrite Hz in Hc, Hin. cbn in Hc. subst z. unfold validateCausality in Hcaus.
  pose proof (proj1 (foldR_all _ _) Hcaus _ Hop) as Hentry. cbv beta in Hentry. rewrite Hms in Hentry. cbn [members] in Hentry.
  pose proof (proj1 (foldR_all _ _) Hentry _ Hin) as Hdep. cbv beta in Hdep. unfold checkDependency in Hdep.
  cbn [truthy intOf] in Hdep. rewrite (proj2 (Z.eqb_neq _ _)) in Hdep by lia. cbn [negb] in Hdep.
  destruct (map_get _ _) as [dependency|] eqn:Hget; [|done]. apply byId_get in Hget as [Hdin Hdid]; [|done].
  exists dependency. split; [done|]. pose proof (history_ok _ Hdin) as Hdok.
  destruct (existsb _ (members (opContext dependency))) eqn:Hdom; [done|].
  unfold operationId in Hdid. apply app_inj_1 in Hdid as [Hd1 Hd2]; [|by rewrite Hlen, (ok_device _ Hdok)]. injection Hd2 as Hd2.
  apply intText_inj in Hd2; [|by apply (ok_counter _ Hdok)|done]. split_and!; [done..|].
  intros other. destruct (ok_context _ Hdok) as (ms' & Hms' & Hall'). unfold clockAt at 1. rewrite Hms'. cbn [getOpt].
  destruct (member other ms') as [| | |[y| |]| | |] eqn:Hm; cbn [intOf]; try (by apply clock_nonneg).
  assert ((other, member other ms') ∈ ms') as Hin' by (apply member_elem; by rewrite Hm). rewrite Hm in Hin'.
  apply Z.nlt_ge. intros Hlt. apply not_true_iff_false in Hdom. apply Hdom, existsb_exists.
  exists (other, Num (Int y)). rewrite Hms'. cbn [members]. split; [by apply list_elem_of_In|]. by apply Z.ltb_lt.
Qed.

(** A device's later operations have seen what its earlier ones have. *)
Lemma own_chain n before after :
  before ∈ operations -> after ∈ operations -> opDevice before = opDevice after ->
  opCounter after = (opCounter before + Z.of_nat n)%Z ->
  forall other, (clockAt (opContext before) other <= clockAt (opContext after) other)%Z.
Proof.
  revert after. induction n as [|n IH]; intros after Hb Ha Hd Hn other.
  - assert (before = after) as ->; [|done]. apply operationId_inj; [done..|]. unfold operationId. rewrite Hd. do 3 f_equal. lia.
  - pose proof (history_ok _ Ha) as Hok. pose proof (proj2 (ok_counter _ (history_ok _ Hb))) as Hpos.
    destruct (dependency_exists after (opDevice after) (opCounter after - 1)) as (d & Hdin & Hdd & Hdc & Hdom);
      [done|apply (ok_own _ Hok)|lia|].
    etrans; [|apply Hdom]. apply IH; [done..|congruence|lia].
Qed.

Lemma precedes_irreflexive a : a ∈ operations -> precedes a a = false.
Proof. intros Ha. unfold precedes. rewrite (ok_own _ (history_ok _ Ha)). apply Z.leb_gt. lia. Qed.

Lemma precedes_transitive a b c :
  a ∈ operations -> b ∈ operations -> c ∈ operations -> precedes a b = true -> precedes b c = true -> precedes a c = true.
Proof.
  unfold precedes. rewrite !Z.leb_le. intros Ha Hb Hc Hab Hbc. pose proof (proj2 (ok_counter _ (history_ok _ Hb))) as Hpos.
  destruct (dependency_exists c (opDevice b) _ Hc eq_refl) as (d & Hdin & Hdd & Hdc & Hdom); [lia|].
  etrans; [exact Hab|]. etrans; [|apply Hdom]. apply (own_chain (Z.to_nat (opCounter d - opCounter b))); [done..|lia].
Qed.

Lemma maximal_above (l : list value) a :
  (forall x, x ∈ l -> x ∈ operations) -> a ∈ l ->
  exists m, m ∈ l /\ (m = a \/ precedes a m = true) /\ forall x, x ∈ l -> precedes m x = false.
Proof.
  intros Hl Ha.
  assert (forall k : list value, (forall x, x ∈ k -> x ∈ l) -> exists m, m ∈ l /\ (m = a \/ precedes a m = true) /\ forall x, x ∈ k -> precedes m x = false) as Hgen;
    [|apply (Hgen l); done].
  intros k. induction k as [|x k IH]; intros Hk.
  - exists a. split_and!; [done|by left|]. by intros ? ?%elem_of_nil.
  - destruct IH as (m & Hm & Ham & Hmax); [intros; apply Hk; by right|]. destruct (precedes m x) eqn:Hmx.
    + assert (x ∈ l) as Hx by (apply Hk; left). exists x. split_and!; [done|right|].
      * destruct Ham as [->|Ham]; [done|]. eapply (precedes_transitive a m x); auto.
      * intros y [->|Hy]%elem_of_cons; [by apply precedes_irreflexive, Hl|]. destruct (precedes x y) eqn:Hxy; [|done].
        rewrite <-(Hmax y Hy). symmetry. apply (precedes_transitive m x y); auto. apply Hl, Hk. by right.
    + exists m. split_and!; [done..|]. intros y [->|Hy]%elem_of_cons; [done|by apply Hmax].
Qed.

Lemma latest_above (l : list value) a :
  (forall x, x ∈ l -> x ∈ operations) -> a ∈ l -> exists m, m ∈ latest l /\ (m = a \/ precedes a m = true).
Proof.
  intros Hl Ha. destruct (maximal_above l a Hl Ha) as (m & Hm & Ham & Hmax). exists m. split; [|done].
  unfold latest. apply list_elem_of_In, filter_In. split; [by apply list_elem_of_In|]. apply negb_true_iff, not_true_iff_false.
  intros (x & Hx%list_elem_of_In & Hp)%existsb_exists. by rewrite Hmax in Hp.
Qed.
End Order.

(** ** The value of a field *)
Lemma distinct_has values v :
  v ∈ values ->
  exists shown, (valueKey v, shown) ∈ fold_left (fun m v => map_set (valueKey v) v m) values [] /\ valueKey shown = valueKey v.
Proof.
  assert (forall l m, (Forall (fun entry => valueKey entry.2 = entry.1) m) ->
    (is_Some (map_get (valueKey v) m) \/ v ∈ l) ->
    exists shown, (valueKey v, shown) ∈ fold_left (fun m v => map_set (valueKey v) v m) l m /\ valueKey shown = valueKey v) as Hgen;
    [|intros Hv; by apply Hgen; [constructor|right]].
  intros l. induction l as [|w l IH]; intros m Hm Hc; cbn.
  - destruct Hc as [[shown Hs]|?%elem_of_nil]; [|done]. apply map_get_elem in Hs. exists shown. split; [done|].
    by apply (proj1 (Forall_forall _ _) Hm) in Hs.
  - apply IH; [by apply map_set_Forall|]. rewrite map_get_set. case_bool_decide as He; [left; by eexists|].
    destruct Hc as [Hs|[->|Hv]%elem_of_cons]; [by left|done|by right].
Qed.


(** ** An edit *)
Fixpoint solid (v : value) : bool :=
  match v with
  | Undefined | Num (NaN | Infinity _) => false
  | Arr l => forallb solid l
  | Obj ms => forallb (fun '(_, item) => solid item) ms
  | _ => true
  end.

Lemma capture_solid v : solid v = true -> captureJsonValue v = Ok v.
Proof.
  induction v as [v Hatom|l IH|ms IH] using value_ind'; intros Hs.
  - by destruct v as [| | |[]| | |].
  - cbn in *. rewrite forallb_forall in Hs. replace (mapR _ l) with (@Ok (list value) l); [done|]. symmetry.
    clear - IH Hs. induction IH as [|v l Hv _ IH]; [done|]. cbn. assert (solid v = true) as Hsv by (apply Hs; by left).
    rewrite IH by (intros; apply Hs; by right). destruct v; try done; by rewrite Hv.
  - cbn in *. rewrite forallb_forall in Hs.
    match goal with |- match ?m with Throw _ => _ | Ok _ => _ end = _ => replace m with (@Ok (list (option (list N * value))) (map Some ms)) end.
    + do 2 f_equal. clear. induction ms as [|[k v] ms IH]; [done|]. cbn. by rewrite IH.
    + symmetry. clear - IH Hs. induction IH as [|[k v] ms Hv _ IH]; [done|]. cbn.
      assert (solid v = true) as Hsv by (apply (Hs (k, v)); by left).
      rewrite IH by (intros; apply Hs; by right). cbn in Hv. destruct v; try done; by rewrite Hv.
Qed.

Lemma clock_lookup clock actor : clockAt (clock_value clock) actor = default 0%Z (map_get actor clock).
Proof. unfold clockAt, clock_value. cbn [getOpt]. induction clock as [|[a n] clock IH]; cbn; [done|]. by case_bool_decide. Qed.

Lemma clockOf_spec operations :
  Forall operationOk operations ->
  (forall o, o ∈ operations -> (opCounter o <= default 0 (map_get (opDevice o) (clockOf operations)))%Z) /\
  (forall actor n, map_get actor (clockOf operations) = Some n -> exists o, o ∈ operations /\ opDevice o = actor /\ opCounter o = n).
Proof.
  intros Hok. unfold clockOf.
  set (step := fun clock operation => map_set (opDevice operation)
    (Z.max (default 0%Z (map_get (opDevice operation) clock)) (opCounter operation)) clock).
  assert (forall l m, (forall o, o ∈ l -> o ∈ operations) ->
    (forall actor n, map_get actor m = Some n -> exists o, o ∈ operations /\ opDevice o = actor /\ opCounter o = n) ->
    (forall a, (default 0 (map_get a m) <= default 0 (map_get a (fold_left step l m)))%Z) /\
    (forall o, o ∈ l -> (opCounter o <= default 0 (map_get (opDevice o) (fold_left step l m)))%Z) /\
    (forall actor n, map_get actor (fold_left step l m) = Some n -> exists o, o ∈ operations /\ opDevice o = actor /\ opCounter o = n)) as Hgen.
  { intros l. induction l as [|x l IH]; intros m Hl Hm; cbn [fold_left]; [split_and!; [done|by intros ? ?%elem_of_nil|done]|].
    assert (x ∈ operations) as Hx by (apply Hl; left). pose proof (proj2 (ok_counter _ (proj1 (Forall_forall _ _) Hok _ Hx))) as Hpos.
    destruct (IH (step m x)) as (Hmono & Hcov & Hatt); [intros; apply Hl; by right| |].
    - intros actor n. unfold step. rewrite map_get_set. case_bool_decide as He; [|by apply Hm]. intros [= <-]. subst actor.
      destruct (map_get (opDevice x) m) as [z|] eqn:Hz; cbn [from_option id]; [|exists x; split_and!; [done..|lia]].
      destruct (Z.max_spec z (opCounter x)) as [[_ ->]|[_ ->]]; [by exists x|by apply Hm].
    - split_and!; [|intros o [->|Ho]%elem_of_cons; [|by apply Hcov]|done].
      + intros a. etrans; [|apply Hmono]. unfold step. rewrite map_get_set. case_bool_decide; [subst a; cbn [from_option id]; lia|done].
      + etrans; [|apply Hmono]. unfold step. rewrite map_get_set, bool_decide_eq_true_2 by done. cbn [from_option id]. lia. }
  destruct (Hgen operations []) as (_ & ? & ?); [done|done|]. split; done.
Qed.

Lemma solid_payload person device next clock field v supersedes :
  solid v = true ->
  solid (Obj [(js "kind", Str (js "identity-profile-update")); (js "version", Num (Int 1));
     (js "personId", Str person); (js "deviceId", Str device);
     (js "counter", Num (Int next)); (js "context", clock_value clock); (js "field", Str field); (js "value", v);
     (js "supersedesLegacy", Arr (map Str supersedes))]) = true.
Proof.
  intros Hv. cbn [solid forallb]. rewrite Hv.
  assert (solid (clock_value clock) = true) as -> by (cbn; apply forallb_forall; by intros [? ?] ([? ?] & [= <- <-] & _)%in_map_iff).
  assert (forallb solid (map Str supersedes) = true) as -> by (apply forallb_forall; by intros ? (? & <- & _)%in_map_iff). done.
Qed.

(** The operation an edit creates. *)
Lemma create_operation `{Platform} `{Sha256} `{Ed25519} profile state field v certificates ensureCurrent operation :
  createIdentityProfileOperation profile state (Str field) v certificates ensureCurrent = Ok operation -> solid v = true ->
  exists current, readIdentityProfileState (local_identity profile) state = Ok current /\
    opDevice operation = local_deviceId profile /\
    opCounter operation = (default 0 (map_get (local_deviceId profile) (clockOf (profile_operations current))) + 1)%Z /\
    opContext operation = clock_value (clockOf (profile_operations current)) /\ opField operation = field /\
    (opPayload operation).["value"] = v /\ opSupersedes operation = supersededBy current field.
Proof.
  unfold createIdentityProfileOperation. intros ([] & _ & Hr)%bind_ok Hv. apply bind_ok in Hr as (current & Hcur & Hr).
  exists current. split; [done|]. apply bind_ok in Hr as (payload & _ & Hr). apply bind_ok in Hr as (deviceId & _ & Hr).
  revert Hr. guard_passed as Hg1. intros (key & _ & Hr)%bind_ok. revert Hr. guard_passed as Hg2. intros ([] & _ & Hr)%bind_ok.
  revert Hr. guard_passed as Hg3. intros ([] & _ & Hr)%bind_ok. apply bind_ok in Hr as (signed & Hs & Hr).
  apply bind_ok in Hr as ([] & _ & Hr). apply bind_ok in Hr as (st & _ & [= <-]). cbn [textOf] in Hs.
  unfold signEnvelope in Hs. apply bind_ok in Hs as (captured & Hc & Hs). apply bind_ok in Hs as (text & _ & [= <-]).
  unfold captureEnvelopePayload in Hc. rewrite capture_solid in Hc by by apply solid_payload. cbn [mbind result_bind] in Hc.
  destruct (member _ _); try done. injection Hc as <-. split_and!; try done.
  unfold opSupersedes. change (items _) with (map Str (supersededBy current field)). generalize (supersededBy current field). clear.
  intros l. induction l as [|s l IH]; cbn; [done|]. by rewrite IH.
Qed.

Lemma validateValue_solid `{Platform} `{Sha256} field v :
  field = js "name" \/ field = js "photo" -> validateValue (Str field) v = Ok tt -> solid v = true.
Proof.
  unfold validateValue. intros [->| ->].
  - destruct (isStr (js "name") (Str (js "name"))) eqn:E; [|by vm_compute in E]. destruct v; try done.
  - destruct (isStr (js "name") (Str (js "photo"))) eqn:E; [by vm_compute in E|].
    destruct (isStr (js "rustyServicePin") (Str (js "photo"))) eqn:E'; [by vm_compute in E'|].
    destruct (isValidIdentityProfilePhoto v) eqn:Hp; [|done]. intros _. unfold isValidIdentityProfilePhoto in Hp.
    apply andb_true_iff in Hp as [Hp Hdate]. apply andb_true_iff in Hp as [Hp Havatar].
    apply andb_true_iff in Hp as [Hrec Hkeys]. destruct v as [| | | | | |ms]; try done. unfold hasExactKeys in Hkeys.
    apply andb_true_iff in Hkeys as [Hlen%Nat.eqb_eq Hkeys]. cbn [members length] in Hlen.
    destruct ms as [|[k1 v1] [|[k2 v2] []]]; try done. clear Hlen.
    cbn [forallb] in Hkeys. apply andb_true_iff in Hkeys as [Ha Hc]. apply andb_true_iff in Hc as [Hc _].
    unfold hasOwn in Ha, Hc. cbn [members map fst] in Ha, Hc. apply bool_decide_eq_true in Ha, Hc.
    cbn [getOpt member] in Hdate, Havatar.
    assert (js "avatarData" <> js "changedAt") as Hne by (intros Hbad; by vm_compute in Hbad).
    assert (forall x, (isNull x || isValidIdentityAvatar x) = true -> solid x = true) as HA by by intros [].
    assert (forall x : value, match x with Str s => match isoTime s with Some _ => true | None => false end | _ => false end = true -> solid x = true) as HB by by intros [].
    apply elem_of_cons in Ha. apply elem_of_cons in Hc. rewrite list_elem_of_singleton in Ha, Hc.
    destruct Ha as [<-|<-], Hc as [Hc|Hc]; try done; subst; cbn [solid forallb];
      repeat (rewrite bool_decide_eq_true_2 in Havatar by done || rewrite bool_decide_eq_false_2 in Havatar by done);
      repeat (rewrite bool_decide_eq_true_2 in Hdate by done || rewrite bool_decide_eq_false_2 in Hdate by done);
      by rewrite (HA _ Havatar), (HB _ Hdate).
Qed.

Lemma filter_none {A} (f : A -> bool) l : (forall x, x ∈ l -> f x = false) -> List.filter f l = [].
Proof. intros Hl. induction l as [|x l IH]; cbn; [done|]. rewrite Hl by left. apply IH. intros y Hy. apply Hl. by right. Qed.

(** An edit settles its field: with the operation that an edit of the name
    or photo creates, the history shows exactly the new value, whatever
    conflicts and imported values it had before. *)
Theorem profile_edit_resolves `{Platform} `{Sha256} `{Ed25519} profile state current field v certificates ensureCurrent operation :
  readIdentityProfileState (local_identity profile) state = Ok current -> field = js "name" \/ field = js "photo" ->
  createIdentityProfileOperation profile state (Str field) v certificates ensureCurrent = Ok operation ->
  identityProfileValue (mkProfileState (profile_personId current) (profile_operations current ++ [operation]) (profile_legacy current)) field
  = Ok (StatusValue, [v]).
Proof.
  intros Hread Hfield Hcreate.
  assert (solid v = true) as Hsolid.
  { apply (validateValue_solid field v Hfield). unfold createIdentityProfileOperation in Hcreate. by apply bind_ok in Hcreate as ([] & Hv & _). }
  destruct (create_operation _ _ _ _ _ _ _ Hcreate Hsolid) as (current' & Hread' & Hdev & Hcount & Hctx & Hf & Hval & Hsup).
  rewrite Hread in Hread'. injection Hread' as <-. pose proof (readIdentityProfileState_ok _ _ _ Hread) as Hhist.
  pose proof Hhist as (_ & Hok & _). destruct (clockOf_spec _ Hok) as [Hcov Hatt].
  assert (forall x, x ∈ profile_operations current -> precedes x operation = true) as Hseen.
  { intros x Hx. unfold precedes. rewrite Hctx, clock_lookup. by apply Z.leb_le, Hcov. }
  assert (forall x, x ∈ profile_operations current -> precedes operation x = false) as Hunseen.
  { intros x Hx. unfold precedes. apply Z.leb_gt. rewrite Hdev, Hcount.
    destruct (Z.leb_spec (clockAt (opContext x) (local_deviceId profile)) 0) as [Hle|Hgt].
    - destruct (map_get (local_deviceId profile) _) as [n|] eqn:Hn; cbn [from_option id]; [|lia].
      apply Hatt in Hn as (o & Ho & _ & <-). pose proof (proj2 (ok_counter _ (history_ok _ Hhist _ Ho))). lia.
    - destruct (dependency_exists _ Hhist x _ _ Hx eq_refl Hgt) as (d & Hd & Hdd & Hdc & _). specialize (Hcov d Hd). rewrite Hdd in Hcov. lia. }
  assert (precedes operation operation = false) as Hself.
  { unfold precedes. rewrite Hctx, clock_lookup, Hdev, Hcount. apply Z.leb_gt. lia. }
  unfold identityProfileValue. rewrite bool_decide_eq_false_2 by (by destruct Hfield as [->| ->]; intros Hbad; vm_compute in Hbad).
  assert (fieldOperations field (mkProfileState (profile_personId current) (profile_operations current ++ [operation]) (profile_legacy current))
    = fieldOperations field current ++ [operation]) as ->.
  { unfold fieldOperations. cbn [profile_operations]. rewrite lfilter_app. cbn [List.filter]. by rewrite Hf, bool_decide_eq_true_2. }
  assert (forall x, x ∈ fieldOperations field current -> x ∈ profile_operations current) as Hsub.
  { intros x [Hx _]%list_elem_of_In%filter_In. by apply list_elem_of_In. }
  assert (latest (fieldOperations field current ++ [operation]) = [operation]) as ->.
  { unfold latest. rewrite lfilter_app, filter_none.
    - cbn [List.filter app]. rewrite existsb_app. cbn [existsb]. rewrite Hself.
      assert (existsb (fun other => precedes operation other) (fieldOperations field current) = false) as ->; [|done].
      apply not_true_iff_false. intros (x & Hx%list_elem_of_In & Hp)%existsb_exists. rewrite Hunseen in Hp; [done|by apply Hsub].
    - intros x Hx. apply negb_false_iff, existsb_exists. exists operation. split; [apply in_or_app; right; by left|]. by apply Hseen, Hsub. }
  rewrite filter_none.
  - cbn [map app fold_left map_set]. rewrite Hval. done.
  - intros item Hitem. cbn [profile_legacy] in Hitem. case_bool_decide as Hif; [|done]. cbn [andb]. apply negb_false_iff, bool_decide_eq_true.
    rewrite map_app, concat_app. apply elem_of_app. right. cbn [map concat]. rewrite app_nil_r, Hsup. unfold supersededBy.
    rewrite sortBy_perm, elem_of_remove_dups. apply elem_of_app. left. apply list_elem_of_fmap. exists item. split; [done|].
    apply list_elem_of_In, filter_In. split; [by apply list_elem_of_In|]. by rewrite bool_decide_eq_true_2.
Qed.

(** ** Revoked histories *)
Lemma filter_full {A} (f : A -> bool) l : length (List.filter f l) = length l -> forall x, x ∈ l -> f x = true.
Proof.
  induction l as [|y l IH]; cbn; [by intros _ ? ?%elem_of_nil|]. pose proof (List.filter_length_le f l) as Hle.
  destruct (f y) eqn:Hy; cbn; [|lia]. intros [= Hl] x [->|Hx]%elem_of_cons; auto.
Qed.

Lemma dropAll_closed fuel candidates kept :
  (length kept < fuel)%nat ->
  (forall index, index ∈ dropAllDependents fuel candidates kept -> index ∈ kept) /\
  forall index c, index ∈ dropAllDependents fuel candidates kept -> candidates !! index = Some c ->
    dependsOn c (removedKeys candidates (dropAllDependents fuel candidates kept)) = false.
Proof.
  revert kept. induction fuel as [|fuel IH]; intros kept Hf; [lia|]. cbn [dropAllDependents].
  destruct (Nat.eqb_spec (length (dropDependents candidates kept)) (length kept)) as [He|Hne].
  - split; [done|]. intros index c Hi Hc. pose proof (filter_full _ _ He index Hi) as Hk. cbv beta in Hk. rewrite Hc in Hk.
    by apply negb_true_iff in Hk.
  - pose proof (List.filter_length_le (fun index => match candidates !! index with
      | Some c => negb (dependsOn c (removedKeys candidates kept)) | None => true end) kept) as Hle.
    destruct (IH (dropDependents candidates kept)) as [Hsub Hcl]; [unfold dropDependents in *; lia|]. split; [|done].
    intros index Hi%Hsub. unfold dropDependents in Hi. by apply list_elem_of_In, filter_In in Hi as [?%list_elem_of_In _].
Qed.

(** Filtering a history by revocations leaves a closed history: what is kept
    was among the candidates; of a revoked device only operations that a
    revocation had observed, at their place, are kept; and nothing kept has
    seen an operation that is gone. *)
Theorem profile_filter_closed `{Sha256} `{Ed25519} identity v certificates revocations filtered :
  filterIdentityProfileRevocations identity v certificates revocations = Ok filtered ->
  exists candidates operations revokedDevices,
    (exists snapshot, boundedSnapshot v = Ok snapshot /\ snapshot.["operations"] = Arr candidates) /\
    filtered.["operations"] = Arr operations /\ foldR (addRevocation certificates) [] revocations = Ok revokedDevices /\
    (forall operation, operation ∈ operations -> operation ∈ candidates /\ withinCutoff revokedDevices operation = Ok true) /\
    (forall operation gone key, operation ∈ operations -> gone ∈ candidates -> candidateKey gone = Some key ->
      (forall other, other ∈ operations -> candidateKey other <> Some key) -> dependsOn operation [key] = false).
Proof.
  unfold filterIdentityProfileRevocations. intros (snapshot & Hsnap & Hr)%bind_ok.
  destruct (snapshot.["operations"]) as [| | | | |candidates|] eqn:Hops; try done. revert Hr. guard_passed as Hlen.
  intros (state & _ & Hr)%bind_ok. apply bind_ok in Hr as (revokedDevices & Hrev & Hr). apply bind_ok in Hr as (kept & Hkept & [= <-]).
  pose proof (filterR_ok _ _ _ Hkept) as Hk.
  assert (length kept <= length candidates)%nat as Hle.
  { clear - Hkept. rewrite <-(length_seq (length candidates) 0). revert kept Hkept. generalize (seq 0 (length candidates)).
    intros l. induction l as [|x l IH]; intros kept; cbn; [by intros [= <-]|].
    intros (hit & _ & (rest & Hrest & [= <-])%bind_ok)%bind_ok. apply IH in Hrest. destruct hit; cbn; lia. }
  destruct (dropAll_closed (S (length candidates)) candidates kept) as [Hsub Hcl]; [lia|].
  set (final := dropAllDependents (S (length candidates)) candidates kept) in *.
  assert (forall x, x ∈ omap (fun index => candidates !! index) final <-> exists i, i ∈ final /\ candidates !! i = Some x) as Hom.
  { intros x. rewrite list_elem_of_omap. naive_solver. }
  exists candidates, (omap (fun index => candidates !! index) final), revokedDevices. split; [by exists snapshot|].
  split. { destruct snapshot as [| | | | | |ms]; try done. cbn [members getOpt] in *. clear. induction ms as [|[k x] ms IH]; cbn.
    - by rewrite bool_decide_eq_true_2. - case_bool_decide as Hk; cbn; [by rewrite bool_decide_eq_true_2|by rewrite bool_decide_eq_false_2]. }
  split; [done|]. split.
  - intros operation (i & Hi & Hc)%Hom. split; [by eapply list_elem_of_lookup_2|]. apply Hsub, Hk in Hi as [_ Hw]. by rewrite Hc in Hw.
  - intros operation gone key (i & Hi & Hc)%Hom Hgone Hkey Hno. pose proof (Hcl i operation Hi Hc) as Hdep.
    assert (key ∈ removedKeys candidates final) as Hrem.
    { unfold removedKeys. apply list_elem_of_In, filter_In. apply list_elem_of_lookup in Hgone as [j Hj]. split.
      - apply list_elem_of_In, list_elem_of_omap. exists j. rewrite Hj. cbn. split; [|done]. apply list_elem_of_In, filter_In.
        split; [apply in_seq; apply lookup_lt_Some in Hj; lia|]. apply negb_true_iff, bool_decide_eq_false. intros Hjf.
        apply (Hno gone); [|done]. apply Hom. by exists j.
      - apply negb_true_iff, bool_decide_eq_false. intros (j' & Hj' & Hkey')%list_elem_of_omap.
        apply list_elem_of_In, filter_In in Hj' as [_ Hjf%bool_decide_eq_true]. destruct (candidates !! j') as [o|] eqn:Ho; [|done].
        cbn in Hkey'. apply (Hno o); [|done]. apply Hom. by exists j'. }
    unfold dependsOn in *. destruct (candidatePayload operation) as [payload|]; [|done].
    destruct (isRecord payload.["context"]); [|done]. cbn [andb] in *. apply not_true_iff_false. intros Hbad.
    apply not_true_iff_false in Hdep. apply Hdep, existsb_exists. exists key. split; [by apply list_elem_of_In|].
    cbn [existsb] in Hbad. by rewrite orb_false_r in Hbad.
Qed.

(** ** A history of two edits of a name, to run the definitions with *)
#[local] Instance plainPlatform : Platform := {| nfkc := fun text => text; parseURL := fun _ => None |}.

Module ProfileSample.
#[local] Existing Instance checksumSha256.
#[local] Existing Instance toyEd25519.

Definition profile : LocalProfile := mkLocalProfile Sample.identity (Sample.keyIdOf 2) (Sample.keyText 2) Sample.first None [2%N].
Definition always (_ : nat) : result unit := Ok tt.
Definition orUndefined (r : result value) : value := match r with Ok v => v | Throw _ => Undefined end.

Definition empty : value := profile_value (mkProfileState (personId Sample.identity) [] []).
Definition edit (state : value) (name : list N) : result value :=
  createIdentityProfileOperation profile state (Str (js "name")) (Str name) [Sample.first] always.
Definition first_edit : value := Eval vm_compute in orUndefined (edit empty (js "Ada")).
Definition state : value := profile_value (mkProfileState (personId Sample.identity) [first_edit] []).
Definition second_edit : value := Eval vm_compute in orUndefined (edit state (js "Grace")).
Definition current : IdentityProfileState := mkProfileState (personId Sample.identity) [first_edit] [].

Lemma state_reads : readIdentityProfileState Sample.identity state = Ok current.
Proof. vm_compute. reflexivity. Qed.
Lemma second_created :
  createIdentityProfileOperation profile state (Str (js "name")) (Str (js "Grace")) [Sample.first] always = Ok second_edit.
Proof. vm_compute. reflexivity. Qed.
Lemma first_name : first_edit ∈ fieldOperations (js "name") current.
Proof. vm_compute. left. Qed.

Definition filtered : value :=
  Eval vm_compute in orUndefined (filterIdentityProfileRevocations Sample.identity state Sample.certificates [Revoked.revocation]).
Lemma state_filters : filterIdentityProfileRevocations Sample.identity state Sample.certificates [Revoked.revocation] = Ok filtered.
Proof. vm_compute. reflexivity. Qed.
End ProfileSample.


Lemma profile_edit_resolves_witness :
  identityProfileValue (mkProfileState (profile_personId ProfileSample.current)
    (profile_operations ProfileSample.current ++ [ProfileSample.second_edit]) (profile_legacy ProfileSample.current)) (js "name")
  = Ok (StatusValue, [Str (js "Grace")]).
Proof.
  exact (profile_edit_resolves (H := plainPlatform) (H0 := checksumSha256) (H1 := toyEd25519) ProfileSample.profile _ ProfileSample.current
    (js "name") _ _ _ _ ProfileSample.state_reads (or_introl eq_refl) ProfileSample.second_created).
Defined.

Lemma profile_filter_closed_witness :
  exists operations, ProfileSample.filtered.["operations"] = Arr operations.
Proof.
  destruct (profile_filter_closed (H := checksumSha256) (H0 := toyEd25519) _ _ _ _ _ ProfileSample.state_filters)
    as (candidates & operations & revoked & _ & Ho & _). by exists operations.
Defined.
