(* ===== verification/Recovery.v ===== *)
(** * Identity seeds, recovery envelopes and new profiles

    The root of an identity in [packages/mesh-identity/src/index.ts]: profiles
    made from a seed, and seeds sealed under recovery words or a passphrase,
    with the checks of [recovery.ts].  Key derivation, AES-GCM and the BIP-39
    checksum belong to the platform or to other packages and are parameters;
    used of them are that decryption inverts encryption and that a seed's
    private and public keys belong together.  Random bytes are arguments. *)
From stdpp Require Import base numbers list sorting strings sets.
From Stdlib Require Import ZArith NArith Lia.
From S2P Require Import Prelude Unicode Json Js Base64 Digest Envelope Certificates Authority ProfileValue Profile.
Local Open Scope js_scope.

Definition ED25519_PKCS8_PREFIX : list N :=
  [0x30; 0x2e; 0x02; 0x01; 0x00; 0x30; 0x05; 0x06; 0x03; 0x2b; 0x65; 0x70; 0x04; 0x22; 0x04; 0x20]%N.

Class SeedKeys `{Ed25519} := {
  (** [crypto.subtle.importKey("pkcs8", ...)] and [exportKey("pkcs8", ...)] *)
  importPkcs8 : list N -> result CryptoKey;
  exportPkcs8 : CryptoKey -> list N;
  (** [getPublicKeyAsync] of [@noble/ed25519] *)
  getPublicKey : list N -> list N;
  (** HKDF with SHA-256 over 256 bits, and a label *)
  hkdf : list N -> list N -> list N;
  hkdf_length entropy label : length (hkdf entropy label) = 32%nat;
  import_seed seed : length seed = 32%nat -> exists key, importPkcs8 (ED25519_PKCS8_PREFIX ++ seed) = Ok key /\
    ed_public key = getPublicKey seed /\ exportPkcs8 key = ED25519_PKCS8_PREFIX ++ seed }.

Class Wrapping := {
  WrapKey : Type;
  (** PBKDF2 with SHA-256 and 600000 iterations *)
  pbkdf2 : list N -> list N -> WrapKey;
  (** AES-GCM with a 128-bit tag: key, iv, additional data, text *)
  aesEncrypt : WrapKey -> list N -> list N -> list N -> list N;
  aesDecrypt : WrapKey -> list N -> list N -> list N -> option (list N);
  aes_correct key iv aad text : Forall isByte text -> aesDecrypt key iv aad (aesEncrypt key iv aad text) = Some text;
  aes_length key iv aad text : length (aesEncrypt key iv aad text) = (length text + 16)%nat;
  aes_bytes key iv aad text : Forall isByte text -> Forall isByte (aesEncrypt key iv aad text) }.

Class Words := {
  (** [validateMnemonic(text, wordlist)] of [@scure/bip39] *)
  validateMnemonic : list N -> bool;
  (** the words of [eff-long.ts] *)
  effLongWords : list (list N);
  (** [text.toLowerCase()] *)
  toLowerCase : list N -> list N }.

(** ** Recovery words *)

(** [text.replace(/\s+/g, " ")] *)
Fixpoint collapseBlank (s : list N) : list N :=
  match s with
  | [] => []
  | u :: rest =>
      if trimmed u then
        match rest with
        | v :: _ => if trimmed v then collapseBlank rest else 32%N :: collapseBlank rest
        | [] => [32%N]
        end
      else u :: collapseBlank rest
  end.

(** [text.split(" ")] *)
Fixpoint splitBlank (s : list N) : list (list N) :=
  match s with
  | [] => [[]]
  | u :: rest =>
      if (u =? 32)%N then [] :: splitBlank rest
      else match splitBlank rest with w :: ws => (u :: w) :: ws | [] => [[u]] end
  end.

Section Words.
Context `{Words}.
Definition normalizeRecoveryPhrase (text : list N) : list N := collapseBlank (toLowerCase (trim text)).
Definition recoveryPhraseIsValid (text : list N) : bool := validateMnemonic (normalizeRecoveryPhrase text).
Definition chatKeyIsValid (text : list N) : bool :=
  let words := splitBlank (normalizeRecoveryPhrase text) in
  (length words =? 4)%nat && forallb (fun word => bool_decide (word ∈ effLongWords)) words.
Definition identitySecurityForRecovery (text : list N) : option (list N) :=
  let normalized := normalizeRecoveryPhrase text in
  if chatKeyIsValid normalized then Some (js "legacy") else
  if negb (recoveryPhraseIsValid normalized) then None else
  let count := length (splitBlank normalized) in
  if (count =? 12)%nat then Some (js "better") else if (count =? 24)%nat then Some (js "insane") else None.

Definition identitySecurityWordCount (security : list N) : Z :=
  if bool_decide (security = js "legacy") then 4 else if bool_decide (security = js "insane") then 24 else 12.

(** [generateChatKey]: four words drawn from 16-bit samples, those past the
    last multiple of the list's length discarded. *)
Fixpoint drawWords (samples : list N) (words : list (list N)) : option (list (list N)) :=
  if (4 <=? length words)%nat then Some words else
  match samples with
  | [] => None
  | sample :: rest =>
      let count := N.of_nat (length effLongWords) in
      if (sample <? 65536 / count * count)%N
      then drawWords rest (words ++ [nth (N.to_nat (sample mod count)%N) effLongWords []])
      else drawWords rest words
  end.
Definition generateChatKey (samples : list N) : option (list N) := joinTexts 32 <$> drawWords samples [].
End Words.

(** ** Sealed seeds *)
Definition catchWith {A} (e : string) (r : result A) : result A := match r with Ok a => Ok a | Throw _ => Throw e end.

Definition kdf_value (salt : list N) : value :=
  Obj [(js "name", Str (js "PBKDF2")); (js "hash", Str (js "SHA-256")); (js "iterations", Num (Int 600000));
       (js "salt", Str (toBase64Url salt))].
Definition cipher_value (iv : list N) : value := Obj [(js "name", Str (js "AES-GCM")); (js "iv", Str (toBase64Url iv))].

Definition recovery_header (personId security salt iv : list N) : list (list N * value) :=
  [(js "kind", Str (js "mesh-identity-recovery")); (js "version", Num (Int 3)); (js "personId", Str personId);
   (js "security", Str security); (js "kdf", kdf_value salt); (js "cipher", cipher_value iv)].
Definition passphrase_header (personId salt iv : list N) : list (list N * value) :=
  [(js "kind", Str (js "mesh-identity-passphrase")); (js "version", Num (Int 1)); (js "personId", Str personId);
   (js "kdf", kdf_value salt); (js "cipher", cipher_value iv)].

(** [const { ciphertext, ...header } = envelope] *)
Definition headerOf (envelope : value) : value :=
  Obj (List.filter (fun '(key, _) => negb (bool_decide (key = js "ciphertext"))) (members envelope)).

Section Seal.
Context `{Words} `{Wrapping} `{Sha256} `{Ed25519} `{!SeedKeys}.

Definition recoveryEnvelopeAad (header : value) : result (list N) :=
  text ← canonicalizeJson header; Ok (encodeText text).
Definition recoveryWrappingKey (recoveryKey salt : list N) : WrapKey :=
  pbkdf2 (TextEncoder_encode (normalizeRecoveryPhrase recoveryKey)) salt.
Definition passphraseWrappingKey (passphrase salt : list N) : result WrapKey :=
  let normalized := normalizeRecoveryPhrase passphrase in
  if (length normalized =? 0)%nat then Throw "Passphrase is empty" else Ok (pbkdf2 (TextEncoder_encode normalized) salt).

Definition sealIdentitySeed (identitySeed personId recoveryKey security salt iv : list N) : result value :=
  if negb (length identitySeed =? 32)%nat then Throw "Identity root must contain 32 bytes" else
  if negb (bool_decide (identitySecurityForRecovery recoveryKey = Some security)) then Throw "Invalid identity recovery" else
  let header := recovery_header personId security salt iv in
  aad ← recoveryEnvelopeAad (Obj header);
  let ciphertext := aesEncrypt (recoveryWrappingKey recoveryKey salt) iv aad identitySeed in
  Ok (Obj (header ++ [(js "ciphertext", Str (toBase64Url ciphertext))])).

Definition sealIdentitySeedWithPassphrase (identitySeed personId passphrase salt iv : list N) : result value :=
  if negb (length identitySeed =? 32)%nat then Throw "Identity root must contain 32 bytes" else
  let header := passphrase_header personId salt iv in
  key ← passphraseWrappingKey passphrase salt;
  aad ← recoveryEnvelopeAad (Obj header);
  Ok (Obj (header ++ [(js "ciphertext", Str (toBase64Url (aesEncrypt key iv aad identitySeed)))])).

(** The parts of an envelope that the two kinds share. *)
Definition sealedParts (v : value) (e : string) : result (list N * list N * list N) :=
  if negb (isStr (js "PBKDF2") v.["kdf"].["name"]) || negb (isStr (js "SHA-256") v.["kdf"].["hash"]) ||
     negb (isInt 600000 v.["kdf"].["iterations"]) || negb (isStr (js "AES-GCM") v.["cipher"].["name"])
  then Throw e else
  salt ← fromBase64UrlOf v.["kdf"].["salt"];
  if negb (length salt =? 16)%nat then Throw e else
  iv ← fromBase64UrlOf v.["cipher"].["iv"];
  if negb (length iv =? 12)%nat then Throw e else
  ciphertext ← fromBase64UrlOf v.["ciphertext"];
  if negb (length ciphertext =? 48)%nat then Throw e else Ok (salt, iv, ciphertext).

Definition assertRecoveryEnvelope (v : value) : result (list N * list N * list N) :=
  if negb (isStr (js "mesh-identity-recovery") v.["kind"]) || negb (isInt 3 v.["version"]) ||
     negb (truthy v.["personId"]) ||
     negb (isStr (js "legacy") v.["security"] || isStr (js "better") v.["security"] || isStr (js "insane") v.["security"])
  then Throw "Invalid identity recovery envelope" else sealedParts v "Invalid identity recovery envelope".

Definition assertPassphraseEnvelope (v : value) : result (list N * list N * list N) :=
  if negb (isStr (js "mesh-identity-passphrase") v.["kind"]) || negb (isInt 1 v.["version"]) || negb (truthy v.["personId"])
  then Throw "Invalid identity passphrase envelope" else sealedParts v "Invalid identity passphrase envelope".

Definition openSealed (envelope : value) (key : WrapKey) (iv ciphertext : list N) : result (list N) :=
  aad ← recoveryEnvelopeAad (headerOf envelope);
  match aesDecrypt key iv aad ciphertext with
  | None => Throw "OperationError"
  | Some seed =>
      if negb (length seed =? 32)%nat || negb (isStr (sha256Base64Url (getPublicKey seed)) envelope.["personId"])
      then Throw "identity mismatch" else Ok seed
  end.

Definition openIdentitySeed (envelope : value) (recoveryKey : list N) : result (list N) :=
  catchWith "Recovery words do not open this identity" (
    '(salt, iv, ciphertext) ← assertRecoveryEnvelope envelope;
    match identitySecurityForRecovery recoveryKey with
    | Some security =>
        if negb (isStr security envelope.["security"]) then Throw "wrong recovery" else
        openSealed envelope (recoveryWrappingKey recoveryKey salt) iv ciphertext
    | None => Throw "wrong recovery"
    end).

Definition openIdentitySeedWithPassphrase (envelope : value) (passphrase : list N) : result (list N) :=
  catchWith "Passphrase does not open this identity" (
    '(salt, iv, ciphertext) ← assertPassphraseEnvelope envelope;
    key ← passphraseWrappingKey passphrase salt;
    openSealed envelope key iv ciphertext).

(** ** Profiles *)
Definition importEd25519Private (seed : list N) : result CryptoKey := importPkcs8 (ED25519_PKCS8_PREFIX ++ seed).

Definition identitySeedFromPrivateKey (privateKey : CryptoKey) (expectedPersonId : option (list N)) : result (list N) :=
  let pkcs8 := exportPkcs8 privateKey in
  if negb (length pkcs8 =? 48)%nat || negb (bool_decide (take 16 pkcs8 = ED25519_PKCS8_PREFIX))
  then Throw "Identity private key is not an exportable Ed25519 root" else
  let seed := drop 16 pkcs8 in
  match expectedPersonId with
  | Some (u :: rest) =>
      if bool_decide (sha256Base64Url (getPublicKey seed) = u :: rest) then Ok seed
      else Throw "Identity private key does not match this identity"
  | _ => Ok seed
  end.

Definition certificate_payload (personId deviceId devicePublicKey : list N) : value :=
  Obj [(js "kind", Str (js "device-certificate")); (js "version", Num (Int 1)); (js "personId", Str personId);
       (js "deviceId", Str deviceId); (js "devicePublicKey", Str devicePublicKey);
       (js "issuerCertificateHash", Null); (js "canEnrollDevices", Bool true)].

Definition profileFromIdentitySeedForDevice (identitySeed displayName deviceEntropy : list N) : result LocalProfile :=
  if negb (length identitySeed =? 32)%nat then Throw "Identity root must contain 32 bytes" else
  if negb (length deviceEntropy =? 32)%nat then Throw "Device entropy must contain 32 bytes" else
  let deviceSeed := hkdf deviceEntropy (js "device") in
  let identityPublic := getPublicKey identitySeed in
  let devicePublic := getPublicKey deviceSeed in
  identityPrivateKey ← importEd25519Private identitySeed;
  devicePrivateKey ← importEd25519Private deviceSeed;
  let personId := sha256Base64Url identityPublic in
  let deviceId := sha256Base64Url devicePublic in
  certificate ← signEnvelope identityPrivateKey (certificate_payload personId deviceId (toBase64Url devicePublic)) personId (js "MATCH/1");
  Ok (mkLocalProfile (mkIdentity personId (toBase64Url identityPublic) displayName) deviceId (toBase64Url devicePublic)
    certificate (Some identityPrivateKey) devicePrivateKey).

(** The random bytes of a new identity: its seed, its device's entropy, salt and iv. *)
Record Entropy := mkEntropy { random_seed : list N; random_device : list N; random_salt : list N; random_iv : list N }.

(** The recovery key is any; the source takes one that [generateIdentityRecovery]
    makes of random words. *)
Definition createRecoverableIdentity (security displayName recoveryKey : list N) (random : Entropy)
    : result (LocalProfile * list N * value) :=
  profile ← profileFromIdentitySeedForDevice (random_seed random) displayName (random_device random);
  envelope ← sealIdentitySeed (random_seed random) (personId (local_identity profile)) recoveryKey security
    (random_salt random) (random_iv random);
  Ok (profile, recoveryKey, envelope).

Definition openIdentityRecoveryEnvelope (envelope : value) (recoveryKey displayName deviceEntropy : list N) : result LocalProfile :=
  seed ← openIdentitySeed envelope recoveryKey;
  profileFromIdentitySeedForDevice seed displayName deviceEntropy.

Definition createPassphraseIdentity (passphrase displayName : list N) (random : Entropy) : result (LocalProfile * value) :=
  profile ← profileFromIdentitySeedForDevice (random_seed random) displayName (random_device random);
  envelope ← sealIdentitySeedWithPassphrase (random_seed random) (personId (local_identity profile)) passphrase
    (random_salt random) (random_iv random);
  Ok (profile, envelope).

Definition openIdentityPassphraseEnvelope (envelope : value) (passphrase displayName deviceEntropy : list N) : result LocalProfile :=
  seed ← openIdentitySeedWithPassphrase envelope passphrase;
  profileFromIdentitySeedForDevice seed displayName deviceEntropy.

(** [recoveryKey] is what [generateIdentityRecovery(security)] drew. *)
Definition rewrapIdentityRecoveryEnvelope (envelope : value) (currentRecoveryKey security recoveryKey salt iv : list N)
    : result (list N * value) :=
  identitySeed ← openIdentitySeed envelope currentRecoveryKey;
  rewrapped ← sealIdentitySeed identitySeed (textOf envelope.["personId"]) recoveryKey security salt iv;
  Ok (recoveryKey, rewrapped).
End Seal.

(** ** Facts *)
Lemma canonical_solid leb v : solid v = true -> exists t, canonicalizeJsonWithOrder leb v = Ok t.
Proof.
  assert (forall A B (f : A -> result B) l, Forall (fun x => exists y, f x = Ok y) l -> exists k, mapR f l = Ok k) as HmapR.
  { intros A B f l Hl. induction Hl as [|x l [y Hy] _ [k IH]]; [by exists []|]. cbn. rewrite Hy, IH. by eexists. }
  induction v as [v Hatom|l IH|ms IH] using value_ind'; intros Hs.
  - destruct v as [| | |[]| | |]; try done; by eexists.
  - cbn in *. rewrite forallb_forall in Hs. destruct (HmapR _ _ (canonicalizeJsonWithOrder leb) l) as [k ->]; [|by eexists].
    rewrite Forall_forall in *. intros x Hx. apply IH; [done|]. by apply Hs, list_elem_of_In.
  - cbn in *. rewrite forallb_forall in Hs. match goal with |- context [mapR ?f ms] => destruct (HmapR _ _ f ms) as [k ->]; [|by eexists] end.
    rewrite Forall_forall in *. intros [key x] Hx. destruct (IH _ Hx) as [t Ht]; [by apply (Hs (key, x)), list_elem_of_In|].
    cbn in Ht. rewrite Ht. by eexists.
Qed.

Section Facts.
Context `{Words} `{Wrapping} `{Sha256} `{Ed25519} `{!SeedKeys}.

Lemma security_known key security :
  identitySecurityForRecovery key = Some security -> security = js "legacy" \/ security = js "better" \/ security = js "insane".
Proof. unfold identitySecurityForRecovery. repeat case_match; try done; intros [= <-]; auto. Qed.

Lemma isStr_refl s : isStr s (Str s) = true.
Proof. by apply isStr_true. Qed.

Lemma truthy_digest data : truthy (Str (sha256Base64Url data)) = true.
Proof.
  cbn. pose proof (sha256Base64Url_digest43 data) as Hd. unfold digest43 in Hd.
  apply andb_prop_elim in Hd as [Hd _]. apply Is_true_true, Nat.eqb_eq in Hd. by rewrite Hd.
Qed.

Definition validRandom (salt iv : list N) : Prop :=
  length salt = 16%nat /\ Forall isByte salt /\ length iv = 12%nat /\ Forall isByte iv.

Lemma sealedParts_ok v e salt iv ciphertext :
  v.["kdf"] = kdf_value salt -> v.["cipher"] = cipher_value iv -> v.["ciphertext"] = Str (toBase64Url ciphertext) ->
  validRandom salt iv -> length ciphertext = 48%nat -> Forall isByte ciphertext -> sealedParts v e = Ok (salt, iv, ciphertext).
Proof.
  intros Hk Hc Ht (Hs & Hsb & Hi & Hib) Hl Hb. unfold sealedParts. rewrite Hk, Hc, Ht.
  change ((kdf_value salt).["name"]) with (Str (js "PBKDF2")). change ((kdf_value salt).["hash"]) with (Str (js "SHA-256")).
  change ((kdf_value salt).["iterations"]) with (Num (Int 600000)). change ((cipher_value iv).["name"]) with (Str (js "AES-GCM")).
  change ((kdf_value salt).["salt"]) with (Str (toBase64Url salt)). change ((cipher_value iv).["iv"]) with (Str (toBase64Url iv)).
  rewrite !isStr_refl. cbn [isInt Z.eqb Pos.eqb negb orb fromBase64UrlOf].
  rewrite !from_toBase64Url by done. cbn [mbind result_bind]. rewrite Hs. cbn [Nat.eqb negb]. rewrite Hi, Hl. done.
Qed.

Lemma headerOf_sealed header ciphertext :
  js "ciphertext" ∉ map fst header -> headerOf (Obj (header ++ [(js "ciphertext", Str ciphertext)])) = Obj header.
Proof.
  intros Hn. unfold headerOf. cbn [members]. f_equal. rewrite lfilter_app. cbn [List.filter]. rewrite bool_decide_eq_true_2 by done.
  cbn [negb]. rewrite app_nil_r. induction header as [|[k v] header IH]; [done|]. cbn [List.filter map fst] in *. apply not_elem_of_cons in Hn as [Hk Hn].
  rewrite bool_decide_eq_false_2 by done. cbn [negb]. by rewrite IH.
Qed.

Lemma openSealed_ok header seed iv key aad :
  js "ciphertext" ∉ map fst header -> recoveryEnvelopeAad (Obj header) = Ok aad -> length seed = 32%nat -> Forall isByte seed ->
  member (js "personId") header = Str (sha256Base64Url (getPublicKey seed)) ->
  openSealed (Obj (header ++ [(js "ciphertext", Str (toBase64Url (aesEncrypt key iv aad seed)))])) key iv (aesEncrypt key iv aad seed) = Ok seed.
Proof.
  intros Hn Haad Hl Hb Hp. unfold openSealed. rewrite headerOf_sealed by done. rewrite Haad. cbn [mbind result_bind].
  rewrite aes_correct, Hl by done. cbn [Nat.eqb negb orb].
  assert ((Obj (header ++ [(js "ciphertext", Str (toBase64Url (aesEncrypt key iv aad seed)))])).["personId"] = member (js "personId") header) as ->.
  { cbn [getOpt]. generalize (Str (toBase64Url (aesEncrypt key iv aad seed))). intros w. clear - Hp. induction header as [|[k v] header IH]; [done|].
    cbn [app member] in *. case_bool_decide; [done|]. by apply IH. }
  by rewrite Hp, isStr_refl.
Qed.

Lemma seal_open seed recoveryKey security salt iv envelope :
  sealIdentitySeed seed (sha256Base64Url (getPublicKey seed)) recoveryKey security salt iv = Ok envelope ->
  Forall isByte seed -> validRandom salt iv -> openIdentitySeed envelope recoveryKey = Ok seed.
Proof.
  unfold sealIdentitySeed. guard_passed as Hl. rewrite negb_false_iff, Nat.eqb_eq in Hl. guard_passed as Hs.
  rewrite negb_false_iff, bool_decide_eq_true in Hs. intros (aad & Haad & Henv)%bind_ok Hbytes Hr. symmetry in Henv.
  match type of Henv with Ok _ = Ok ?e => assert (envelope = e) as -> by congruence end. clear Henv.
  set (person := sha256Base64Url (getPublicKey seed)) in *. set (key := recoveryWrappingKey recoveryKey salt).
  assert (js "ciphertext" ∉ map fst (recovery_header person security salt iv)) as Hn by (intros Hin; by vm_compute in Hin; set_solver).
  unfold openIdentitySeed, assertRecoveryEnvelope.
  match goal with |- context [isStr (js "mesh-identity-recovery") ?v] => change v with (Str (js "mesh-identity-recovery")) end.
  match goal with |- context [isInt 3 ?v] => change v with (Num (Int 3)) end.
  match goal with |- context [truthy ?v] => change v with (Str person) end.
  match goal with |- context [isStr (js "legacy") ?v] => change v with (Str security) end.
  rewrite isStr_refl. cbn [isInt Z.eqb Pos.eqb negb orb].
  rewrite (truthy_digest (getPublicKey seed) : truthy (Str person) = true).
  assert (isStr (js "legacy") (Str security) || isStr (js "better") (Str security) || isStr (js "insane") (Str security) = true) as ->.
  { destruct (security_known _ _ Hs) as [->|[->| ->]]; rewrite ?isStr_refl, ?orb_true_r; done. }
  cbn [negb orb]. erewrite sealedParts_ok; [|reflexivity|reflexivity|reflexivity|done|by rewrite aes_length, Hl|by apply aes_bytes].
  cbn [mbind result_bind]. rewrite Hs.
  match goal with |- context [isStr security ?v] => change v with (Str security) end. rewrite isStr_refl. cbn [negb].
  rewrite (openSealed_ok (recovery_header person security salt iv)); done.
Qed.

Lemma passphrase_open seed passphrase salt iv envelope :
  sealIdentitySeedWithPassphrase seed (sha256Base64Url (getPublicKey seed)) passphrase salt iv = Ok envelope ->
  Forall isByte seed -> validRandom salt iv -> openIdentitySeedWithPassphrase envelope passphrase = Ok seed.
Proof.
  unfold sealIdentitySeedWithPassphrase. guard_passed as Hl. rewrite negb_false_iff, Nat.eqb_eq in Hl.
  intros (key & Hkey & Hr)%bind_ok Hbytes Hrand. apply bind_ok in Hr as (aad & Haad & Henv). symmetry in Henv.
  match type of Henv with Ok _ = Ok ?e => assert (envelope = e) as -> by congruence end. clear Henv.
  set (person := sha256Base64Url (getPublicKey seed)) in *.
  assert (js "ciphertext" ∉ map fst (passphrase_header person salt iv)) as Hn by (intros Hin; by vm_compute in Hin; set_solver).
  unfold openIdentitySeedWithPassphrase, assertPassphraseEnvelope.
  match goal with |- context [isStr (js "mesh-identity-passphrase") ?v] => change v with (Str (js "mesh-identity-passphrase")) end.
  match goal with |- context [isInt 1 ?v] => change v with (Num (Int 1)) end.
  match goal with |- context [truthy ?v] => change v with (Str person) end.
  rewrite isStr_refl. cbn [isInt Z.eqb Pos.eqb negb orb].
  rewrite (truthy_digest (getPublicKey seed) : truthy (Str person) = true).
  cbn [negb orb]. erewrite sealedParts_ok; [|reflexivity|reflexivity|reflexivity|done|by rewrite aes_length, Hl|by apply aes_bytes].
  cbn [mbind result_bind]. rewrite Hkey. cbn [mbind result_bind].
  rewrite (openSealed_ok (passphrase_header person salt iv)); done.
Qed.

(** What opens belongs to the person the envelope names. *)
Lemma openSealed_person envelope key iv ciphertext seed :
  openSealed envelope key iv ciphertext = Ok seed ->
  length seed = 32%nat /\ envelope.["personId"] = Str (sha256Base64Url (getPublicKey seed)).
Proof.
  unfold openSealed. intros (aad & _ & Hr)%bind_ok. destruct (aesDecrypt _ _ _ _) as [s|]; [|done]. revert Hr.
  guard_passed as Hg. apply orb_false_iff in Hg as [Hl%negb_false_iff%Nat.eqb_eq Hp%negb_false_iff%isStr_true]. by intros [= <-].
Qed.

Lemma getPublicKey_ok seed : length seed = 32%nat -> length (getPublicKey seed) = 32%nat /\ Forall isByte (getPublicKey seed).
Proof. intros (key & _ & <- & _)%import_seed. split; [apply ed_public_length|apply ed_public_bytes]. Qed.

Lemma publicKeyId_of seed : length seed = 32%nat -> publicKeyId (toBase64Url (getPublicKey seed)) = Ok (sha256Base64Url (getPublicKey seed)).
Proof. intros [Hl Hb]%getPublicKey_ok. unfold publicKeyId. rewrite from_toBase64Url by done. cbn [mbind result_bind]. by rewrite Hl. Qed.

Lemma sign_certificate key person device public signer :
  exists certificate, signEnvelope key (certificate_payload person device public) signer (js "MATCH/1") = Ok certificate /\
    certificate.["payload"] = certificate_payload person device public /\ certificate.["signerKeyId"] = Str signer /\
    exists h, certificateHash certificate = Ok h.
Proof.
  unfold signEnvelope. assert (captureEnvelopePayload (certificate_payload person device public) = Ok (certificate_payload person device public)) as ->.
  { unfold captureEnvelopePayload. by rewrite capture_solid. }
  cbn [mbind result_bind].
  destruct (canonical_solid (fun a b => (compareCanonicalKeys a b <=? 0)%Z) (certificate_payload person device public) eq_refl) as [t Ht].
  unfold canonicalizeSignatureJson. rewrite Ht. cbn [mbind result_bind].
  eexists. split; [reflexivity|]. split; [done|]. split; [done|]. unfold certificateHash, canonicalizeJson.
  match goal with |- context [canonicalizeJsonWithOrder str_leb ?v] => destruct (canonical_solid str_leb v eq_refl) as [t' ->] end. by eexists.
Qed.

Lemma new_profile seed name entropy :
  length seed = 32%nat -> length entropy = 32%nat ->
  exists profile, profileFromIdentitySeedForDevice seed name entropy = Ok profile /\
    personId (local_identity profile) = sha256Base64Url (getPublicKey seed) /\
    publicKey (local_identity profile) = toBase64Url (getPublicKey seed) /\
    verifyDeviceCertificateChain (local_identity profile) (js "MATCH/1") (local_deviceId profile) [local_certificate profile]
    = Ok (Str (local_publicKey profile)) /\
    (exists key, local_identityKey profile = Some key /\ ed_public key = getPublicKey seed /\
      exportPkcs8 key = ED25519_PKCS8_PREFIX ++ seed) /\
    local_publicKey profile = toBase64Url (ed_public (local_deviceKey profile)).
Proof.
  intros Hs He. unfold profileFromIdentitySeedForDevice. rewrite Hs, He. cbn [Nat.eqb negb].
  set (deviceSeed := hkdf entropy (js "device")). assert (length deviceSeed = 32%nat) as Hd by apply hkdf_length.
  destruct (import_seed seed Hs) as (ik & Hik & Hip & Hie), (import_seed deviceSeed Hd) as (dk & Hdk & Hdp & _).
  unfold importEd25519Private. rewrite Hik, Hdk. cbn [mbind result_bind].
  set (person := sha256Base64Url (getPublicKey seed)). set (device := sha256Base64Url (getPublicKey deviceSeed)).
  destruct (sign_certificate ik person device (toBase64Url (getPublicKey deviceSeed)) person) as (c & Hc & Hpay & Hsig & h & Hh).
  rewrite Hc. cbn [mbind result_bind]. eexists. split; [reflexivity|].
  cbn [local_identity local_deviceId local_certificate local_publicKey local_identityKey local_deviceKey personId publicKey].
  split_and!; [done|done| |by exists ik|by rewrite Hdp].
  set (identity := mkIdentity person (toBase64Url (getPublicKey seed)) name).
  assert (stated identity c device) as Hst.
  { unfold stated. rewrite Hpay. split_and!; try done. by apply publicKeyId_of. }
  assert (payloadId c = Ok (Str device)) as Hpid.
  { assert (exists ms, c = Obj ms /\ member (js "payload") ms = certificate_payload person device (toBase64Url (getPublicKey deviceSeed))) as (ms & -> & Hm).
    { destruct c; try done. cbn in Hpay. eauto. }
    unfold payloadId. cbn [get mbind result_bind]. rewrite Hm. done. }
  assert (catalog [c]) as Hcat by (apply (catalog_check [c] [device] [h]); cbn; rewrite ?Hpid, ?Hh; [done..|apply NoDup_singleton|apply NoDup_singleton]).
  rewrite (verifyDevice_exact identity (js "MATCH/1") [c] Hcat 1 c device); [by rewrite Hpay|by apply publicKeyId_of|cbn; lia|].
  apply certified_root; [left|done|by rewrite Hpay|done|]. cbn [publicKey identity]. rewrite <-Hip. by eapply sign_verifies.
Qed.
End Facts.

(** ** Parameters to run the definitions with *)
#[local] Instance toySeedKeys : SeedKeys (H := toyEd25519).
Proof.
  refine {| importPkcs8 := fun bytes => Ok (drop 16 bytes) : result (@CryptoKey toyEd25519);
    exportPkcs8 := fun key : @CryptoKey toyEd25519 => ED25519_PKCS8_PREFIX ++ key;
    getPublicKey := fun seed => toyPublic (List.last seed 0%N); hkdf := fun entropy _ => checksum entropy |}.
  - intros. unfold checksum. by rewrite !length_map, length_seq.
  - intros seed _. exists seed. by rewrite drop_app_length'.
Defined.

Definition toyEncrypt (key iv aad text : list N) : list N := text ++ take 16 (checksum (key ++ iv ++ aad)).
Definition toyDecrypt (key iv aad ciphertext : list N) : option (list N) :=
  let text := take (length ciphertext - 16) ciphertext in
  if bool_decide (ciphertext = toyEncrypt key iv aad text) then Some text else None.

Lemma checksum_tag bytes : length (take 16 (checksum bytes)) = 16%nat.
Proof. unfold checksum. rewrite length_take, !length_map, length_seq. done. Qed.

#[local] Instance toyWrapping : Wrapping.
Proof.
  refine {| WrapKey := list N; pbkdf2 := fun secret salt => checksum (secret ++ salt); aesEncrypt := toyEncrypt; aesDecrypt := toyDecrypt |}.
  - intros key iv aad text _. unfold toyDecrypt, toyEncrypt. rewrite length_app, checksum_tag, Nat.add_sub.
    rewrite take_app_length. by rewrite bool_decide_eq_true_2.
  - intros. unfold toyEncrypt. by rewrite length_app, checksum_tag.
  - intros key iv aad text Hb. apply Forall_app. split; [done|]. apply Forall_take, (sha256_bytes (Sha256 := checksumSha256)).
Defined.

#[local] Instance toyWords : Words :=
  {| validateMnemonic := fun _ => false; effLongWords := [js "acid"; js "bald"; js "cage"; js "dart"]; toLowerCase := fun text => text |}.

Module RecoverySample.
Definition words : list N := js "acid bald cage dart".
Definition random : Entropy := mkEntropy (replicate 32 5%N) (replicate 32 6%N) (replicate 16 7%N) (replicate 12 8%N).
Definition created : result (LocalProfile * list N * value) :=
  createRecoverableIdentity (H1 := checksumSha256) (H2 := toyEd25519) (js "legacy") (js "Ada") words random.
Lemma creates : isOk created = true.
Proof. vm_compute. reflexivity. Qed.
End RecoverySample.

Definition goodEntropy (random : Entropy) : Prop :=
  Forall isByte (random_seed random) /\ validRandom (random_salt random) (random_iv random).

(** A new profile is certified: from a seed and device entropy of 32 bytes a
    profile is made, its device key hashes to its device id, and its own
    certificate alone is a chain from that device to the identity, whose id is
    the digest of the seed's public key. *)
Theorem new_profile_certified `{Sha256} `{Ed25519} `{!SeedKeys} seed name entropy :
  length seed = 32%nat -> length entropy = 32%nat ->
  exists profile, profileFromIdentitySeedForDevice seed name entropy = Ok profile /\
    personId (local_identity profile) = sha256Base64Url (getPublicKey seed) /\
    verifyDeviceCertificateChain (local_identity profile) (js "MATCH/1") (local_deviceId profile) [local_certificate profile]
    = Ok (Str (toBase64Url (ed_public (local_deviceKey profile)))).
Proof.
  intros Hs He. destruct (new_profile seed name entropy Hs He) as (profile & Hp & Hid & _ & Hv & _ & Hk).
  exists profile. rewrite Hk in Hv. done.
Qed.

Lemma new_profile_certified_witness :
  exists profile, profileFromIdentitySeedForDevice (H1 := checksumSha256) (H2 := toyEd25519) (replicate 32 5%N) (js "Ada") (replicate 32 6%N) = Ok profile.
Proof.
  destruct (new_profile_certified (H := checksumSha256) (H0 := toyEd25519) (replicate 32 5%N) (js "Ada") (replicate 32 6%N) eq_refl eq_refl)
    as (profile & Hp & _). by exists profile.
Defined.

(** C37. Recovery restores the identity: the envelope of a new recoverable
    identity opens with its recovery words, for a device with entropy of its
    own, to a profile of the same person with the same public key and root key
    bytes, and from that root key the seed can be read back. *)
Theorem recovery_roundtrip `{Words} `{Wrapping} `{Sha256} `{Ed25519} `{!SeedKeys}
    security name name' recoveryKey recoveryKey' random entropy profile envelope :
  goodEntropy random -> length entropy = 32%nat ->
  createRecoverableIdentity security name recoveryKey random = Ok (profile, recoveryKey', envelope) ->
  exists restored, openIdentityRecoveryEnvelope envelope recoveryKey' name' entropy = Ok restored /\
    personId (local_identity restored) = personId (local_identity profile) /\
    publicKey (local_identity restored) = publicKey (local_identity profile) /\
    exists key, local_identityKey restored = Some key /\
      identitySeedFromPrivateKey key (Some (personId (local_identity profile))) = Ok (random_seed random).
Proof.
  intros [Hb Hr] He. unfold createRecoverableIdentity. intros (p & Hp & Hk)%bind_ok.
  apply bind_ok in Hk as (env & Hseal & [= <- <- <-]). pose proof Hseal as Hseal'. unfold sealIdentitySeed in Hseal'. revert Hseal'.
  guard_passed as Hl. rewrite negb_false_iff, Nat.eqb_eq in Hl. intros _.
  assert (length (random_device random) = 32%nat) as Hd.
  { unfold profileFromIdentitySeedForDevice in Hp. revert Hp. guard_passed as Hg1. guard_passed as Hg2. by rewrite negb_false_iff, Nat.eqb_eq in Hg2. }
  destruct (new_profile (random_seed random) name (random_device random) Hl Hd) as (p' & Hp' & Hid & Hpub & _).
  rewrite Hp in Hp'. injection Hp' as <-. rewrite Hid in Hseal.
  pose proof (seal_open _ _ _ _ _ _ Hseal Hb Hr) as Hopen. unfold openIdentityRecoveryEnvelope. rewrite Hopen. cbn [mbind result_bind].
  destruct (new_profile (random_seed random) name' entropy Hl He) as (restored & Hres & Hid' & Hpub' & _ & (key & Hkey & _ & Hexp) & _).
  exists restored. split_and!; [done|congruence|congruence|]. exists key. split; [done|]. unfold identitySeedFromPrivateKey.
  rewrite Hexp, length_app, Hl. cbn [length ED25519_PKCS8_PREFIX Nat.eqb Nat.add negb orb].
  rewrite take_app_length' by done. rewrite bool_decide_eq_true_2 by done. cbn [negb]. rewrite drop_app_length' by done. rewrite Hid.
  destruct (sha256Base64Url (getPublicKey (random_seed random))); [done|]. by rewrite bool_decide_eq_true_2.
Qed.

Lemma recovery_roundtrip_witness :
  match RecoverySample.created with
  | Ok (profile, words, envelope) => exists restored,
      openIdentityRecoveryEnvelope (H1 := checksumSha256) (H2 := toyEd25519) envelope words (js "Ada") (replicate 32 9%N) = Ok restored /\
      personId (local_identity restored) = personId (local_identity profile)
  | Throw _ => False
  end.
Proof.
  pose proof RecoverySample.creates as Hok. destruct RecoverySample.created as [[[profile words] envelope]|e] eqn:Hc; [|discriminate].
  assert (goodEntropy RecoverySample.random) as Hg by (repeat split; apply Forall_replicate; done).
  destruct (recovery_roundtrip (H1 := checksumSha256) (H2 := toyEd25519) _ _ (js "Ada") _ _ _ (replicate 32 9%N) _ _ Hg eq_refl Hc)
    as (restored & Hopen & Hid & _). by exists restored.
Defined.

(** C38. Opening an envelope gives the seed of the person it names or one error:
    whatever is wrong with an envelope, its words or its passphrase, the caller
    sees the same message for each kind, and a seed that is returned has 32
    bytes and a public key that hashes to the envelope's person. *)
Theorem recovery_errors_uniform `{Words} `{Wrapping} `{Sha256} `{Ed25519} `{!SeedKeys} envelope secret :
  match openIdentitySeed envelope secret with
  | Ok seed => length seed = 32%nat /\ envelope.["personId"] = Str (sha256Base64Url (getPublicKey seed))
  | Throw e => e = "Recovery words do not open this identity"%string
  end /\
  match openIdentitySeedWithPassphrase envelope secret with
  | Ok seed => length seed = 32%nat /\ envelope.["personId"] = Str (sha256Base64Url (getPublicKey seed))
  | Throw e => e = "Passphrase does not open this identity"%string
  end.
Proof.
  assert (forall e (r : result (list N)), (forall seed, r = Ok seed -> length seed = 32%nat /\ envelope.["personId"] = Str (sha256Base64Url (getPublicKey seed))) ->
    match catchWith e r with
    | Ok seed => length seed = 32%nat /\ envelope.["personId"] = Str (sha256Base64Url (getPublicKey seed))
    | Throw e' => e' = e end) as Hcatch by (intros e [s|e'] Hr; cbn; auto).
  split; apply Hcatch; intros seed ([[salt iv] ciphertext] & _ & Hr)%bind_ok.
  - destruct (identitySecurityForRecovery secret); [|done]. revert Hr. guard_passed as Hg. by intros ?%openSealed_person.
  - apply bind_ok in Hr as (key & _ & Hr). by apply openSealed_person in Hr.
Qed.
