(* ===== verification/Records.v ===== *)
(** * Signed records and shared documents

    What the contact, messaging, calling and blob packages share: records
    whose shape nothing guarantees, signed by a device that a list of
    certificates leads to an identity; time stamps; normalized texts; and
    Automerge documents, of which the packages read the contents, edit them,
    merge, save and load. *)
From stdpp Require Import base numbers list sorting strings.
From Stdlib Require Import ZArith NArith Lia.
From S2P Require Import Prelude Unicode Json Js Base64 Digest Dates Envelope Certificates ProfileValue Profile Recovery.
Local Open Scope js_scope.

(** [Date.parse]: beyond the format of [toISOString] the texts it reads are
    the platform's choice. *)
Class Calendar := {
  parseDate : list N -> option Z;
  parseDate_iso text t : isoTime text = Some t -> parseDate text = Some t }.

(** Documents: what a document shows after an edit is the edited contents. *)
Class Automerge := {
  Doc : Type;
  contents : Doc -> value;
  init : Doc;
  change : Doc -> value -> Doc;
  merge : Doc -> Doc -> Doc;
  save : Doc -> list N;
  load : list N -> result Doc;
  contents_init : contents init = Obj [];
  contents_change doc v : contents (change doc v) = v }.

(** [new TextEncoder().encode(JSON.stringify(value)).byteLength] *)
Definition byteLength (v : value) : nat := length (encodeText (JSON_stringify v)).

(** [JSON.parse(JSON.stringify(value))] *)
Definition clone (v : value) : result value :=
  match JSON_stringify v ≫= JSON_parse with Some copy => Ok copy | None => Throw "SyntaxError" end.

(** [v ?? []] *)
Definition orEmpty (v : value) : value := match v with Null | Undefined => Arr [] | _ => v end.

(** [[...v]], and the values [for (const item of v)] meets *)
Definition spread (v : value) : result (list value) :=
  match v with
  | Arr l => Ok l
  | Str text => Ok (map (fun c => Str (fromPoint c)) (codePoints text))
  | _ => Throw "value is not iterable"
  end.

Definition indexed (l : list value) : list (list N * value) := imap (fun i v => (natText (N.of_nat i), v)) l.

(** [Object.entries(v)] of what is neither [null] nor [undefined] *)
Definition entries (v : value) : list (list N * value) :=
  match v with
  | Obj ms => ms
  | Arr l => indexed l
  | Str text => indexed (map (fun u => Str [u]) text)
  | _ => []
  end.

(** [object[key] = v] *)
Definition setField (key : list N) (v object : value) : value := Obj (map_set key v (members object)).

(** The properties every object has without owning them. *)
Definition inherited (key : list N) : bool :=
  bool_decide (key ∈ map js ["constructor"; "__defineGetter__"; "__defineSetter__"; "hasOwnProperty"; "__lookupGetter__";
    "__lookupSetter__"; "isPrototypeOf"; "propertyIsEnumerable"; "toString"; "valueOf"; "__proto__"; "toLocaleString"]).

(** [new Date(now).toISOString()] *)
Definition stamp (now : Z) : result value :=
  match toISOString now with Some text => Ok (Str text) | None => Throw "Invalid time value" end.

(** The time of a stamp that [toISOString] prints back as it is; no other
    passes a check that compares the two. *)
Definition canonicalTime (v : value) : option Z := match v with Str text => isoTime text | _ => None end.

Definition trimOf (v : value) : result (list N) :=
  match v with Str text => Ok (trim text) | _ => Throw "value.trim is not a function" end.

(** [[...text].length > limit] *)
Definition longer (limit : nat) (text : list N) : bool := (limit <? length (codePoints text))%nat.

(** [v.length > limit] and [v.length > 0]; the [length] an object may own is
    compared as a number. *)
Definition lengthOver (limit : Z) (v : value) : result bool :=
  match v with
  | Null | Undefined => Throw "Cannot read properties of undefined"
  | Str text => Ok (limit <? Z.of_nat (length text))%Z
  | Arr l => Ok (limit <? Z.of_nat (length l))%Z
  | Obj _ => Ok (match v.["length"] with Num (Int n) => (limit <? n)%Z | _ => false end)
  | _ => Ok false
  end.

Definition identity_value (identity : PublicIdentity) : value :=
  Obj [(js "personId", Str (personId identity)); (js "publicKey", Str (publicKey identity));
       (js "displayName", Str (displayName identity))].

Section Records.
Context `{Sha256} `{Ed25519}.

(** The identity a record states; only an identity whose id is the digest of its key passes. *)
Definition identityOf (identity : value) : result PublicIdentity :=
  key ← get (js "publicKey") identity;
  match key, identity.["personId"] with
  | Str key, Str person => Ok (mkIdentity person key (textOf identity.["displayName"]))
  | Str key, _ => publicKeyId key;; Throw "Identity does not match its key"
  | _, _ => Throw "value.replace is not a function"
  end.

(** [verifyDeviceCertificateChain(identity, deviceId, certificates)] of any
    values: only a text is the id of a certified device. *)
Definition verifyDevice (identity deviceId certificates : value) : result value :=
  person ← identityOf identity;
  match deviceId, certificates with
  | Str id, Arr l => verifyDeviceCertificateChain person (js "MATCH/1") id l
  | _, _ => Throw "Invalid certificate chain"
  end.

(** The end of each verification: the device's key, then the signature. *)
Definition verifySigned (identity deviceId certificates record : value) (domain : list N) (error : string) : result unit :=
  key ← verifyDevice identity deviceId certificates;
  verified ← verifyEnvelope record key domain;
  if (verified : bool) then Ok tt else Throw error.

(** A record signed by a device of an identity: certificates of the list lead
    from the device to the identity's key. *)
Definition authentic (identity deviceId : value) (certificates : list value) (record : value) (domain : list N) : Prop :=
  exists person id n c, identityOf identity = Ok person /\ deviceId = Str id /\
    publicKeyId (publicKey person) = Ok (personId person) /\
    certified person (js "MATCH/1") certificates n c id /\
    verifyEnvelope record c.["payload"].["devicePublicKey"] domain = Ok true.

Lemma verifyDevice_array identity deviceId certificates key :
  verifyDevice identity deviceId certificates = Ok key ->
  exists person id l, identityOf identity = Ok person /\ deviceId = Str id /\ certificates = Arr l /\
    verifyDeviceCertificateChain person (js "MATCH/1") id l = Ok key.
Proof.
  intros (person & Hp & Hk)%bind_ok. destruct deviceId as [| | | |id| |]; try done. destruct certificates; try done. eauto 10.
Qed.

Lemma verifySigned_authentic identity deviceId certificates record domain error :
  verifySigned identity deviceId certificates record domain error = Ok tt ->
  authentic identity deviceId (items certificates) record domain.
Proof.
  intros (key & Hk & Hr)%bind_ok. apply bind_ok in Hr as (b & Hv & Hb). destruct b; [|done].
  apply verifyDevice_array in Hk as (person & id & l & Hp & -> & -> & Hc).
  apply verifyDevice_sound in Hc as (Hkey & _ & n & c & Hc & ->). by exists person, id, n, c.
Qed.

Lemma identityOf_person identity person :
  identityOf identity = Ok person -> identity.["personId"] = Str (personId person) /\ identity.["publicKey"] = Str (publicKey person).
Proof.
  intros (key & Hk & Hr)%bind_ok. apply get_ok in Hk. destruct key as [| | | |key| |]; try done.
  destruct identity.["personId"] eqn:He; try (by apply bind_ok in Hr as (? & _ & ?)).
  injection Hr as <-. done.
Qed.
End Records.

(** ** Copies *)
Lemma normal_id v : normal (fun _ _ => true) v = v.
Proof.
  induction v as [v Hatom|items IH|members IH] using value_ind'; [by destruct v|..]; cbn [normal]; f_equal.
  - induction IH as [|v l Hv _ IHl]; cbn; [done|]. by rewrite Hv, IHl.
  - rewrite sortBy_id.
    + induction IH as [|[k v] l Hv _ IHl]; cbn; [done|]. cbn in Hv. by rewrite Hv, IHl.
    + clear. induction (map _ members) as [|x l IH]; constructor; [done|]. by apply Forall_true.
Qed.

Lemma stringify_plain v : plain v -> exists text, JSON_stringify v = Some text /\ JSON_parse text = Some v.
Proof.
  intros Hp. pose proof (canonical_stringify (fun _ _ => true) v Hp) as Hs.
  rewrite (canonical_total _ _ Hp), normal_id in Hs. exists (canonText (fun _ _ => true) v).
  split; [by injection Hs|]. by rewrite JSON_parse_canonical, normal_id.
Qed.

Lemma clone_plain v : plain v -> clone v = Ok v.
Proof. intros (text & Ht & Hv)%stringify_plain. unfold clone. rewrite Ht. cbn. by rewrite Hv. Qed.

(** ** Members of an edited object *)
Lemma member_map_set key v key' ms :
  member key' (map_set key v ms) = if bool_decide (key = key') then v else member key' ms.
Proof.
  induction ms as [|[k b] ms IH]; cbn [member map_set]; [done|].
  destruct (decide (k = key)) as [->|Hk].
  - rewrite bool_decide_eq_true_2 by done. cbn [member]. by case_bool_decide.
  - rewrite bool_decide_eq_false_2 by done. cbn [member]. rewrite IH. repeat case_bool_decide; congruence.
Qed.

Lemma setField_get key v key' object :
  getOpt key' (setField key v object) = if bool_decide (key = key') then v else match object with Obj _ => getOpt key' object | _ => Undefined end.
Proof. unfold setField. cbn [getOpt]. rewrite member_map_set. by destruct object; cbn; case_bool_decide. Qed.

(** ** Signing payloads that are JSON data *)
Lemma sign_solid `{Ed25519} key payload kind signerKeyId domain :
  solid payload = true -> payload.["kind"] = Str kind ->
  exists signature, signEnvelope key payload signerKeyId domain = Ok (envelope_value payload signerKeyId signature) /\
    Forall urlChar signature.
Proof.
  intros Hs Hk. unfold signEnvelope, captureEnvelopePayload. rewrite (capture_solid _ Hs). cbn [mbind result_bind].
  destruct payload as [| | | | | |ms]; try done. cbn [getOpt] in Hk. rewrite Hk. cbn [mbind result_bind].
  destruct (canonical_solid (fun a b => (compareCanonicalKeys a b <=? 0)%Z) (Obj ms) Hs) as [t Ht].
  unfold canonicalizeSignatureJson. rewrite Ht. cbn [mbind result_bind]. eexists. split; [reflexivity|].
  apply toBase64Url_chars, ed_sign_bytes.
Qed.

Lemma urlChar_units text : Forall urlChar text -> units text.
Proof.
  intros Ht. apply Is_true_true, forallb_forall. rewrite Forall_forall in Ht. intros u Hu%list_elem_of_In%Ht.
  apply Is_true_true in Hu. unfold urlChar in Hu. apply N.ltb_lt.
  repeat (apply orb_true_iff in Hu as [Hu|Hu]);
    try (apply andb_true_iff in Hu as [_ Hu%N.leb_le]; lia); apply N.eqb_eq in Hu; lia.
Qed.

Lemma sign_signature `{Ed25519} key payload signerKeyId domain payload' signature :
  signEnvelope key payload signerKeyId domain = Ok (envelope_value payload' signerKeyId signature) ->
  exists message, signature = toBase64Url (ed_sign key message).
Proof. intros (captured & _ & Hs)%bind_ok. apply bind_ok in Hs as (canonical & _ & Hs). apply (inj Ok) in Hs. injection Hs as _ <-. by eexists. Qed.

(** ** JSON data through bytes *)
Lemma encoded_plain v : plain v -> (exists ms, v = Obj ms) ->
  TextDecoder_decode (encodeText (JSON_stringify v)) ≫= JSON_parse = Some v.
Proof.
  intros Hp [ms ->]. pose proof (canonical_stringify (fun _ _ => true) _ Hp) as Hs.
  rewrite (canonical_total _ _ Hp), normal_id in Hs. apply (inj Ok) in Hs. rewrite <-Hs.
  pose proof (clean_canonText (fun _ _ => true) _ Hp) as (Hu & Hw & _)%clean_wellFormed. unfold encodeText. cbn [default from_option id].
  rewrite decode_encode; [|done|done|by rewrite canonText_obj]. cbn [mbind option_bind]. by rewrite JSON_parse_canonical, normal_id.
Qed.

(** Printable texts that JSON quotes as they are. *)
Definition printable (u : N) : bool := (32 <=? u)%N && (u <? 128)%N.
Definition unescaped (s : list N) : bool := forallb (fun u => printable u && negb (u =? 34)%N && negb (u =? 92)%N) s.

Lemma quote_unescaped s : unescaped s = true -> quote s = 34%N :: s ++ [34%N].
Proof.
  intros Hs. unfold quote. cbn [app]. f_equal. f_equal. induction s as [|u s IH]; [done|].
  cbn [unescaped forallb] in Hs. apply andb_true_iff in Hs as [[[Hp Hq]%andb_true_iff Hb]%andb_true_iff Hs].
  apply negb_true_iff in Hq, Hb. apply andb_true_iff in Hp as [H32%N.leb_le H128%N.ltb_lt]. apply N.eqb_neq in Hq, Hb.
  specialize (IH Hs). assert (isHigh u = false) as Hh by (unfold isHigh; apply andb_false_iff; left; apply N.leb_gt; lia).
  assert (isSurrogate u = false) as Hsu by (unfold isSurrogate; apply andb_false_iff; left; apply N.leb_gt; lia).
  assert (escapeOf u = None) as He.
  { unfold escapeOf. repeat match goal with |- context [(u =? ?c)%N] => destruct (N.eqb_spec u c); [lia|] end.
    rewrite (proj2 (N.ltb_ge _ _)) by lia. by rewrite ?Hsu. }
  cbn [quoteBody]. destruct s as [|v s]; rewrite ?Hh; cbn [andb]; rewrite He, ?IH; done.
Qed.

Lemma encode_length_ascii t : forallb printable t = true -> length (TextEncoder_encode t) = length t.
Proof.
  intros Ht. unfold TextEncoder_encode, encodePoints.
  assert (codePoints t = t) as ->.
  { induction t as [|u t IH]; [done|]. cbn [forallb] in Ht. apply andb_true_iff in Ht as [Hu Ht]. specialize (IH Ht).
    apply andb_true_iff in Hu as [_ Hu%N.ltb_lt].
    assert (isHigh u = false) as Hh by (unfold isHigh; apply andb_false_iff; left; apply N.leb_gt; lia).
    cbn [codePoints]. destruct t as [|v t]; [done|]. rewrite Hh. cbn [andb]. by rewrite IH. }
  induction t as [|u t IH]; [done|]. cbn [forallb] in Ht. apply andb_true_iff in Ht as [Hu Ht].
  apply andb_true_iff in Hu as [_ Hu%N.ltb_lt]. cbn [map concat]. rewrite length_app, IH by done.
  unfold replacement. assert (isSurrogate u = false) as -> by (unfold isSurrogate; apply andb_false_iff; left; apply N.leb_gt; lia).
  unfold utf8Point. rewrite (proj2 (N.ltb_lt _ _)) by done. done.
Qed.

Lemma urlChar_unescaped text : Forall urlChar text -> unescaped text = true.
Proof.
  intros Ht. apply forallb_forall. rewrite Forall_forall in Ht. intros u Hu%list_elem_of_In%Ht. apply Is_true_true in Hu.
  unfold urlChar in Hu. unfold printable.
  assert ((45 <= u <= 122)%N /\ u <> 92%N) as [Hr Hne].
  { repeat (apply orb_true_iff in Hu as [Hu|Hu]);
      try (apply andb_true_iff in Hu as [?%N.leb_le ?%N.leb_le]; lia); apply N.eqb_eq in Hu; lia. }
  rewrite (proj2 (N.leb_le _ _)), (proj2 (N.ltb_lt _ _)), !(proj2 (N.eqb_neq _ _)) by lia. done.
Qed.

(** ** Documents and dates to run the definitions with: a document is its contents *)
#[local] Instance plainAutomerge : Automerge :=
  {| Doc := value; contents := fun doc => doc; init := Obj []; change := fun _ v => v;
     merge := fun _ remote => remote; save := fun doc => encodeText (JSON_stringify doc);
     load := fun bytes => match TextDecoder_decode bytes ≫= JSON_parse with Some doc => Ok doc | None => Throw "not a document" end;
     contents_init := eq_refl; contents_change := fun _ _ => eq_refl |}.

#[local] Instance isoCalendar : Calendar := {| parseDate := isoTime; parseDate_iso := fun _ _ Hiso => Hiso |}.

(** People to run the definitions with: the person of key [person] on a device of key [device]. *)
Module People.
#[local] Existing Instance checksumSha256.
#[local] Existing Instance toyEd25519.

Definition identity (person : N) : PublicIdentity := mkIdentity (Sample.keyIdOf person) (Sample.keyText person) (js "Ada").
Definition certificate (person device : N) : value :=
  match signEnvelope (H := toyEd25519) [person]
    (certificate_payload (Sample.keyIdOf person) (Sample.keyIdOf device) (Sample.keyText device)) (Sample.keyIdOf person) (js "MATCH/1") with
  | Ok envelope => envelope
  | Throw _ => Undefined
  end.
Definition profile (person device : N) : LocalProfile :=
  mkLocalProfile (identity person) (Sample.keyIdOf device) (Sample.keyText device) (certificate person device) None [device].
Definition orUndefined (r : result value) : value := match r with Ok v => v | Throw _ => Undefined end.
End People.

Lemma iso_units t text : toISOString t = Some text -> units text.
Proof.
  assert (forall width n, units (padded width n)) as Hpad.
  { intros width. induction width as [|width IH]; intros n; [done|]. cbn [padded]. unfold units. rewrite forallb_app. apply andb_True.
    split; [apply IH|]. cbn. rewrite andb_true_r. apply Is_true_true, N.ltb_lt. pose proof (Z.mod_pos_bound n 10). lia. }
  assert (forall s s', units s -> units s' -> units (s ++ s')) as Happ.
  { intros s s' Hs Hs'. unfold units. rewrite forallb_app. by apply andb_True. }
  unfold toISOString. destruct (_ <=? _)%Z; [|done]. destruct (civilFromDays _) as [[year month] day]. intros He. apply (inj Some) in He. subst text.
  apply Happ; [|repeat (apply Happ; [by first [apply Hpad|done]|]); done]. unfold yearText. destruct (_ && _); [apply Hpad|].
  destruct (_ <? _)%Z; apply (Happ [_]); by try apply Hpad.
Qed.
