(* ===== verification/Revocation.v ===== *)
(** * Revoking a device, and new authority views

    [createDeviceRevocation], [createIdentityAuthorityView],
    [createIdentityManagerAuthorityView] and [createLocalRootIdentityAuthorityView]
    of [packages/mesh-identity/src/index.ts]: where the authority over the devices
    of an identity meets the history of its profile.  A revocation lists, for each
    device it cuts off, the hashes of the profile operations of that device
    that the revoking device has seen. *)
From stdpp Require Import base numbers list sorting strings sets.
From Stdlib Require Import ZArith NArith Lia.
From S2P Require Import Prelude Unicode Json Js Base64 Digest Envelope Certificates Authority AuthorityView ProfileValue Profile Recovery Records.
Local Open Scope js_scope.

(** [canonicalizeJson(left) === canonicalizeJson(right)] *)
Definition sameText (left right : value) : result bool :=
  a ← canonicalizeJson left; b ← canonicalizeJson right; Ok (bool_decide (a = b)).

(** [list.some(test)] *)
Definition someR {A} (test : A -> result bool) (l : list A) : result bool :=
  found ← findR test l; Ok (bool_decide (is_Some found)).

Definition hashes_value (hashes : list (list N * list (list N))) : value :=
  Obj (map (fun '(deviceId, texts) => (deviceId, Arr (map Str texts))) hashes).

Definition revocation_payload (personId deviceId : list N) (revision : Z) (hashes : list (list N * list (list N))) : value :=
  Obj [(js "kind", Str (js "mesh-identity-device-revocation")); (js "version", Num (Int 1));
       (js "personId", Str personId); (js "deviceId", Str deviceId); (js "revision", Num (Int revision));
       (js "profileOperationHashes", hashes_value hashes)].

Definition counterLeb (left right : value) : bool := (opCounter left <=? opCounter right)%Z.

Section Revocation.
Context `{Platform} `{Sha256} `{Ed25519}.

(** One round of the loop over the operations of the devices to revoke. *)
Definition observeOperation (certificates : list value) (hashes : list (list N * list (list N))) (operation : value)
    : result (list (list N * list (list N))) :=
  let actor := opDevice operation in
  currentCertificate ← findDevice (Str actor) certificates;
  historicalLeaf ← findDevice (Str actor) (items operation.["certificates"]);
  match currentCertificate, historicalLeaf with
  | Some current, Some historical =>
      same ← sameText current historical;
      if negb (same : bool) then Throw "Identity profile history does not match current device authority" else
      let known := default [] (map_get actor hashes) in
      if negb (opCounter operation =? Z.of_nat (length known) + 1)%Z
      then Throw "Identity profile history is not a complete device prefix" else
      text ← canonicalizeJson operation.["signed"];
      Ok (map_set actor (known ++ [sha256Base64Url (encodeText text)]) hashes)
  | _, _ => Throw "Identity profile history does not match current device authority"
  end.

Definition canEnroll (deviceId : list N) (certificates : list value) : result bool :=
  found ← findDevice (Str deviceId) certificates;
  match found with
  | None => Ok false
  | Some certificate => payload ← get (js "payload") certificate; enroll ← get (js "canEnrollDevices") payload; Ok (truthy enroll)
  end.

(** The profile as the revocations so far leave it, which is all of it. *)
Definition unrevokedProfile (identity : PublicIdentity) (profileState : value) (certificates revocations : list value)
    (refusal : string) : result IdentityProfileState :=
  validated ← readIdentityProfileState identity profileState;
  current ← readIdentityProfileStateWithRevocations identity (profile_value validated) certificates revocations;
  same ← sameText (profile_value current) (profile_value validated);
  if negb (same : bool) then Throw refusal else Ok current.

Definition createDeviceRevocation (profile : LocalProfile) (authority : option AuthorityState) (deviceId : list N)
    (profileState : value) (domain : list N) : result value :=
  match authority with
  | None => Throw "Identity device authority was not verified"
  | Some state =>
      let identity := local_identity profile in
      let signerId := local_deviceId profile in
      let certificates := state_certificates state in
      let refused := Throw "Current Identity device cannot revoke this device" in
      if negb (bool_decide (personId (state_identity state) = personId identity)) ||
         negb (bool_decide (publicKey (state_identity state) = publicKey identity)) || bool_decide (deviceId = signerId)
      then refused else
      own ← someR (fun certificate => sameText certificate (local_certificate profile)) certificates;
      if negb (own : bool) then refused else
      found ← findDevice (Str deviceId) certificates;
      if negb (bool_decide (is_Some found)) then refused else
      revoked ← isChainRevoked signerId (state_revoked state) certificates;
      if (revoked : bool) then refused else
      enroll ← canEnroll signerId certificates;
      if negb (enroll : bool) then Throw "Current Identity device lacks revocation authority" else
      current ← unrevokedProfile identity profileState certificates (state_revocations state)
        "Identity profile history contains revoked device operations";
      subtree ← identityDeviceDescendants deviceId certificates;
      let operations := sortBy counterLeb
        (List.filter (fun operation => bool_decide (opDevice operation ∈ subtree)) (profile_operations current)) in
      hashes ← foldR (observeOperation certificates) [] operations;
      record ← signEnvelope (local_deviceKey profile)
        (revocation_payload (personId identity) deviceId (Z.of_nat (length (state_revocations state)) + 1) hashes) signerId domain;
      verifyIdentityDeviceAuthority identity domain (evidence_value certificates (state_revocations state ++ [record]));;
      Ok record
  end.

(** ** Views *)
Definition createIdentityAuthorityView (identity : PublicIdentity) (evidence profileState : value) (domain : list N)
    : result IdentityAuthorityView :=
  authority ← verifyIdentityDeviceAuthority identity domain evidence;
  unrevokedProfile identity profileState (state_certificates authority) (state_given authority)
    "Identity profile history contains operations outside the signed authority view";;
  view ← makeIdentityAuthorityView identity (state_certificates authority) (state_given authority);
  verifyIdentityAuthorityView domain (view_value view).

(** Are the key, the device and its certificate of a profile those of its
    person, and is the certificate in the evidence? *)
Definition statesDevice (profile : LocalProfile) : result bool :=
  keyId ← publicKeyId (publicKey (local_identity profile));
  if negb (bool_decide (personId (local_identity profile) = keyId)) then Ok false else
  payload ← get (js "payload") (local_certificate profile);
  deviceId ← get (js "deviceId") payload;
  devicePublicKey ← get (js "devicePublicKey") payload;
  Ok (isStr (local_deviceId profile) deviceId && isStr (local_publicKey profile) devicePublicKey).

Definition inEvidence (certificate evidence : value) : result bool :=
  match evidence.["certificates"] with
  | Arr certificates => someR (fun candidate => sameText candidate certificate) certificates
  | _ => Throw "evidence.certificates.some is not a function"
  end.

Definition createIdentityManagerAuthorityView (profile : LocalProfile) (evidence profileState : value) (domain : list N)
    : result IdentityAuthorityView :=
  let refused := Throw "Identity manager profile does not match its certificate evidence" in
  stated ← statesDevice profile;
  if negb (stated : bool) then refused else
  known ← inEvidence (local_certificate profile) evidence;
  if negb (known : bool) then refused else
  authority ← verifyIdentityDeviceAuthority (local_identity profile) domain evidence;
  key ← authorizeIdentityDevice domain (Some authority) (local_deviceId profile);
  if negb (isStr (local_publicKey profile) key) then Throw "Identity manager key does not match its authority" else
  createIdentityAuthorityView (local_identity profile) evidence profileState domain.

Definition createLocalRootIdentityAuthorityView `{!SeedKeys} (profile : LocalProfile)
    (evidence profileState : value) (domain : list N) : result IdentityAuthorityView :=
  let refused := Throw "A local root profile with root authority is required to create Identity authority genesis" in
  let certificate := local_certificate profile in
  match local_identityKey profile with
  | None => refused
  | Some rootKey =>
      stated ← statesDevice profile;
      if negb (stated : bool) || negb (isStr (personId (local_identity profile)) certificate.["signerKeyId"]) ||
         negb (strictEqual certificate.["payload"].["issuerCertificateHash"] Null) ||
         negb (truthy certificate.["payload"].["canEnrollDevices"])
      then refused else
      known ← inEvidence certificate evidence;
      if negb (known : bool) then refused else
      identitySeedFromPrivateKey rootKey (Some (personId (local_identity profile)));;
      authority ← verifyIdentityDeviceAuthority (local_identity profile) domain evidence;
      authorizeIdentityDevice domain (Some authority) (local_deviceId profile);;
      createIdentityAuthorityView (local_identity profile) evidence profileState domain
  end.
End Revocation.

(** ** Reading a profile that was read *)
Section Reread.
Context `{Platform} `{Sha256} `{Ed25519}.
Variable identity : PublicIdentity.

Lemma snapshot_plain v snapshot : plain v -> boundedSnapshot v = Ok snapshot -> snapshot = v.
Proof.
  intros (text & Ht & Hparse)%stringify_plain. unfold boundedSnapshot. rewrite Ht. guard_passed as Hsize. rewrite Hparse.
  destruct v as [| | | | | |ms]; try done. by destruct (member (js "version") ms) as [| | |[[|[]|]| |]| | |]; try done; intros [= <-].
Qed.

Lemma parseOperation_same v operation : parseOperation v = Ok operation -> operation = v.
Proof. unfold parseOperation. guard_passed as Hg. guard_passed as Hg'. by intros [= <-]. Qed.

Lemma addOperation_fresh m operation m' : addOperation m operation = Ok m' -> operationId operation ∉ map fst m ->
  m' = m ++ [(operationId operation, operation)].
Proof.
  unfold addOperation. intros (b & _ & Hb)%bind_ok Hfresh. destruct b; [|done]. injection Hb as <-. apply map_set_fresh.
  apply not_true_iff_false. by rewrite map_has_elem.
Qed.

(** Operations with ids of their own are kept in order. *)
Lemma readOperations_distinct m candidates m' :
  foldR (readOperation identity) m candidates = Ok m' -> NoDup (map fst m ++ map operationId candidates) ->
  m' = m ++ map (fun operation => (operationId operation, operation)) candidates.
Proof.
  revert m. induction candidates as [|c candidates IH]; intros m; cbn [foldR map]; [intros [= <-] _; by rewrite app_nil_r|].
  intros (m1 & Hc & Hrest)%bind_ok Hn. apply bind_ok in Hc as (operation & ->%parseOperation_same & Hc). apply bind_ok in Hc as ([] & _ & Hadd).
  apply addOperation_fresh in Hadd as ->.
  - apply IH in Hrest; [by rewrite <-app_assoc in Hrest|]. by rewrite map_app, <-app_assoc.
  - apply NoDup_app in Hn as (_ & Hn & _). intros Hin. apply (Hn _ Hin). by left.
Qed.

(** An observation as [readLegacy] stores it. *)
Definition observation (v : value) : Prop :=
  exists id field content, v = Obj [(js "id", Str id); (js "field", field); (js "value", content)].

Lemma readLegacy_stores m candidate m' : readLegacy m candidate = Ok m' ->
  hasExactKeys candidate [js "id"; js "field"; js "value"] = true /\
  exists id field content, candidate.["id"] = Str id /\ candidate.["field"] = field /\ candidate.["value"] = content /\
    m' = map_set id (Obj [(js "id", Str id); (js "field", field); (js "value", content)]) m.
Proof.
  unfold readLegacy. guard_passed as Hg. intros ([] & _ & Hr)%bind_ok. apply bind_ok in Hr as (id & _ & Hr). revert Hr. guard_passed as Hid.
  apply negb_false_iff, isStr_true in Hid. intros [= <-]. do 2 apply orb_false_iff in Hg as [Hg _].
  apply orb_false_iff in Hg as [_ Hg]. apply negb_false_iff in Hg. split; [done|]. by exists id, candidate.["field"], candidate.["value"].
Qed.

Lemma readLegacies_distinct m candidates m' :
  foldR readLegacy m candidates = Ok m' -> Forall observation candidates -> NoDup (map fst m ++ map legacyKey candidates) ->
  m' = m ++ map (fun item => (legacyKey item, item)) candidates.
Proof.
  revert m. induction candidates as [|c candidates IH]; intros m; cbn [foldR map]; [intros [= <-] _ _; by rewrite app_nil_r|].
  intros (m1 & Hc & Hrest)%bind_ok [(id & field & content & Hobs) Hall]%Forall_cons Hn.
  destruct (readLegacy_stores _ _ _ Hc) as (_ & id' & field' & content' & Hid & Hf & Hcon & ->).
  assert (id' = id /\ field' = field /\ content' = content) as (-> & -> & ->) by (rewrite Hobs in Hid, Hf, Hcon; vm_compute in Hid, Hf, Hcon; by injection Hid as ->).
  rewrite <-Hobs in *. assert (legacyKey c = id) as Hkey by (by rewrite Hobs). rewrite Hkey in *.
  rewrite map_set_fresh in Hrest.
  - apply IH in Hrest; [by rewrite <-app_assoc in Hrest|done|]. by rewrite map_app, <-app_assoc.
  - apply not_true_iff_false. rewrite map_has_elem. apply NoDup_app in Hn as (_ & Hn & _). intros Hin. apply (Hn _ Hin). by left.
Qed.

(** What reading gives: sorted, each entry once, and JSON data if it came from JSON data. *)
Record readState (state : IdentityProfileState) : Prop := {
  read_plain : plain (profile_value state);
  read_person : profile_personId state = personId identity;
  read_size : (length (profile_operations state) <= maxOperations)%nat;
  read_operations : NoDup (map operationId (profile_operations state)) /\
    StronglySorted (fun a b => str_leb (operationId a) (operationId b)) (profile_operations state);
  read_parsed : Forall (fun operation => parseOperation operation = Ok operation /\ verifyOperation identity operation = Ok tt) (profile_operations state);
  read_legacy : Forall observation (profile_legacy state) /\ NoDup (map legacyKey (profile_legacy state)) /\
    StronglySorted (fun a b => str_leb (legacyKey a) (legacyKey b)) (profile_legacy state) }.

Lemma plain_own key v : plain v -> hasOwn key v = true -> plain (getOpt key v).
Proof.
  unfold hasOwn. intros Hv Hkey%bool_decide_eq_true. destruct (plain_get key v Hv) as [Hu|?]; [|done]. exfalso.
  destruct v as [| | | | | |ms]; cbn [members map] in Hkey; try by apply elem_of_nil in Hkey. apply plain_members in Hv as [Hv _].
  cbn [getOpt] in Hu. clear - Hkey Hv Hu. induction Hv as [|[k v] ms [_ Hv] _ IH]; cbn in *; [by apply elem_of_nil in Hkey|].
  revert Hu. case_bool_decide; [by intros ->|]. intros Hu. apply elem_of_cons in Hkey as [?|?]; [congruence|auto].
Qed.

Lemma map_set_length {A} key (a : A) m : (length (map_set key a m) <= S (length m))%nat.
Proof. induction m as [|[k b] m IH]; cbn; [done|]. case_bool_decide; cbn; lia. Qed.

Lemma keys_entries {A} (key : A -> list N) (m : list (list N * A)) :
  Forall (fun entry => entry.1 = key entry.2) m -> map key (map snd m) = map fst m.
Proof. intros Hm. rewrite map_map. apply map_ext_in. intros e He%list_elem_of_In. rewrite Forall_forall in Hm. symmetry. by apply Hm. Qed.

Lemma idSort_sorted {A} (key : A -> list N) l : StronglySorted (fun a b => str_leb (key a) (key b)) (sortBy (fun a b => str_leb (key a) (key b)) l).
Proof. apply sortBy_sorted; [intros; apply str_leb_total|intros ???; apply str_leb_trans]. Qed.

Lemma readOperations_entries candidates m : foldR (readOperation identity) [] candidates = Ok m -> Forall plain candidates ->
  NoDup (map fst m) /\ (length m <= length candidates)%nat /\
  Forall (fun entry => entry.1 = operationId entry.2 /\ plain entry.2 /\
    parseOperation entry.2 = Ok entry.2 /\ verifyOperation identity entry.2 = Ok tt) m.
Proof.
  intros Hf Hp. assert (forall l m0, foldR (readOperation identity) m0 l = Ok m -> (length m <= length m0 + length l)%nat) as Hlen.
  { clear. intros l. induction l as [|c l IH]; intros m0; cbn [foldR length]; [intros [= <-]; lia|].
    intros (m1 & Hc & Hrest%IH)%bind_ok. apply bind_ok in Hc as (o & _ & Hc). apply bind_ok in Hc as ([] & _ & Hadd).
    apply bind_ok in Hadd as (b & _ & Hb). destruct b; [|done]. injection Hb as <-.
    pose proof (map_set_length (operationId o) o m0). lia. }
  split; [|split; [by apply (Hlen _ [])|]]; clear Hlen.
  - revert Hf. apply (foldR_ind _ (fun m => NoDup (map fst m))); [|constructor]. intros m0 c m1 _ Hn Hc.
    apply bind_ok in Hc as (o & _ & Hc). apply bind_ok in Hc as ([] & _ & Hadd). apply bind_ok in Hadd as (b & _ & Hb).
    destruct b; [|done]. injection Hb as <-. by apply map_set_NoDup.
  - revert Hf. eapply foldR_ind; [|constructor]. intros m0 c m1 Hin Hall Hc. apply bind_ok in Hc as (o & Hparse & Hc).
    apply bind_ok in Hc as ([] & Hv & Hadd). apply bind_ok in Hadd as (b & _ & Hb). destruct b; [|done]. injection Hb as <-.
    pose proof (parseOperation_same _ _ Hparse) as ->. rewrite Forall_forall in Hp. apply map_set_Forall; [done|]. cbn. auto.
Qed.

Lemma readLegacies_entries candidates m : foldR readLegacy [] candidates = Ok m -> Forall plain candidates ->
  NoDup (map fst m) /\ Forall (fun entry => entry.1 = legacyKey entry.2 /\ plain entry.2 /\ observation entry.2) m.
Proof.
  intros Hf Hp. revert Hf. apply (foldR_ind _ (fun m => NoDup (map fst m) /\ Forall _ m)); [|split; constructor].
  intros m0 c m1 Hin [Hn Hall] (Hkeys & id & field & content & Hid & Hfield & Hcontent & ->)%readLegacy_stores.
  split; [by apply map_set_NoDup|]. apply map_set_Forall; [done|]. cbn [fst snd]. split_and!; [done| |by do 3 eexists].
  rewrite Forall_forall in Hp. specialize (Hp _ Hin). apply andb_true_iff in Hkeys as [_ Hkeys]. rewrite forallb_forall in Hkeys.
  apply plain_obj. split.
  - rewrite !Forall_cons. cbn [fst snd]. rewrite <-Hid, <-Hfield, <-Hcontent.
    split_and!; try done; apply plain_own; try done; apply Hkeys; cbn; tauto.
  - apply (bool_decide_eq_true_1 _). vm_compute. reflexivity.
Qed.

Lemma plain_profile person operations legacy :
  units person -> Forall plain operations -> Forall plain legacy -> plain (profile_value (mkProfileState person operations legacy)).
Proof.
  intros Hperson Hops Hlegacy. apply plain_obj. split; [|apply (bool_decide_eq_true_1 _); vm_compute; reflexivity].
  rewrite !Forall_cons. cbn [fst snd]. split_and!; try done; by apply plain_items.
Qed.

Lemma plain_array key v : plain v -> isArray (getOpt key v) = true -> Forall plain (items (getOpt key v)).
Proof. intros Hv Ha. destruct (plain_get key v Hv) as [Hu|Hp]; [by rewrite Hu in Ha|]. destruct (getOpt key v); try done. by apply plain_items. Qed.

Lemma digest43_units s : digest43 s = true -> units s.
Proof.
  unfold digest43. intros [_ Hall]%andb_true_iff. apply urlChar_units. apply Forall_forall. intros u Hu%list_elem_of_In.
  rewrite forallb_forall in Hall. by apply Is_true_true, Hall.
Qed.

Lemma read_stateOk v state : plain v -> readIdentityProfileState identity v = Ok state -> readState state.
Proof.
  intros Hv. unfold readIdentityProfileState. intros (snapshot & ->%snapshot_plain & Hr)%bind_ok; [|done]. revert Hr. guard_passed as Hg.
  apply orb_false_iff in Hg as [Hg _]. apply orb_false_iff in Hg as [Hg Hleg%negb_false_iff]. apply orb_false_iff in Hg as [Hg Hsize%Nat.ltb_ge].
  apply orb_false_iff in Hg as [Hg Harr%negb_false_iff]. apply orb_false_iff in Hg as [Hg Hperson%negb_false_iff].
  intros (operations & Hops & Hr)%bind_ok. apply bind_ok in Hr as (legacy & Hlegacy & Hr). apply bind_ok in Hr as ([] & _ & Hr).
  apply bind_ok in Hr as (pins & _ & Hr). apply bind_ok in Hr as ([] & _ & [= <-]).
  destruct (readOperations_entries _ _ Hops (plain_array _ _ Hv Harr)) as (Hnd & Hlen & Hall).
  destruct (readLegacies_entries _ _ Hlegacy (plain_array _ _ Hv Hleg)) as (Hnd' & Hall').
  split; cbn [profile_operations profile_legacy profile_personId].
  - apply plain_profile; [by apply digest43_units|rewrite sortBy_perm; apply Forall_fmap..]; eapply Forall_impl; [exact Hall|naive_solver|exact Hall'|naive_solver].
  - done.
  - rewrite sortBy_perm, length_map. lia.
  - split; [|apply idSort_sorted]. rewrite sortBy_perm, keys_entries; [done|]. eapply Forall_impl; [exact Hall|naive_solver].
  - rewrite sortBy_perm. apply Forall_fmap. eapply Forall_impl; [exact Hall|naive_solver].
  - split_and!.
    + rewrite sortBy_perm. apply Forall_fmap. eapply Forall_impl; [exact Hall'|naive_solver].
    + rewrite sortBy_perm, keys_entries; [done|]. eapply Forall_impl; [exact Hall'|naive_solver].
    + apply idSort_sorted.
Qed.

(** Reading is idempotent. *)
Lemma read_again state again : readState state -> readIdentityProfileState identity (profile_value state) = Ok again -> again = state.
Proof.
  intros [Hplain Hperson _ [Hnd Hsorted] _ (Hobs & Hnd' & Hsorted')]. unfold readIdentityProfileState.
  intros (snapshot & ->%snapshot_plain & Hr)%bind_ok; [|done]. revert Hr. guard_passed as Hg.
  intros (operations & Hops & Hr)%bind_ok. apply bind_ok in Hr as (legacy & Hlegacy & Hr). apply bind_ok in Hr as ([] & _ & Hr).
  apply bind_ok in Hr as (pins & _ & Hr). apply bind_ok in Hr as ([] & _ & [= <-]). clear Hg.
  change (items (profile_value state).["operations"]) with (profile_operations state) in Hops.
  change (items (profile_value state).["legacy"]) with (profile_legacy state) in Hlegacy.
  apply readOperations_distinct in Hops as ->; [|done]. apply readLegacies_distinct in Hlegacy as ->; [|done..].
  cbn [app]. rewrite !map_map. cbn [snd]. rewrite !map_id, !sortBy_id by done. rewrite <-Hperson. by destruct state.
Qed.
End Reread.

(** ** A filter that drops nothing *)
Section Unfiltered.
Context `{Platform} `{Sha256} `{Ed25519}.
Variable identity : PublicIdentity.

Lemma filterR_all {A} (test : A -> result bool) l : (forall x, x ∈ l -> test x = Ok true) -> filterR test l = Ok l.
Proof. induction l as [|x l IH]; intros Hall; cbn; [done|]. rewrite Hall by by left. cbn. rewrite IH; [done|]. intros y Hy. apply Hall. by right. Qed.

Lemma drop_nothing fuel candidates : dropAllDependents (S fuel) candidates (seq 0 (length candidates)) = seq 0 (length candidates).
Proof.
  cbn [dropAllDependents]. enough (dropDependents candidates (seq 0 (length candidates)) = seq 0 (length candidates)) as -> by (by rewrite Nat.eqb_refl).
  unfold dropDependents. assert (removedKeys candidates (seq 0 (length candidates)) = []) as ->.
  { unfold removedKeys. rewrite (filter_none (fun index => negb (bool_decide (index ∈ seq 0 (length candidates))))); [done|].
    intros i Hi. by rewrite bool_decide_eq_true_2. }
  apply forallb_filter_id, forallb_forall. intros i _. destruct (candidates !! i); [|done]. unfold dependsOn.
  destruct (candidatePayload _); [|done]. by rewrite andb_false_r.
Qed.

Lemma omap_lookup_seq {A} (l : list A) : omap (fun i => l !! i) (seq 0 (length l)) = l.
Proof.
  induction l as [|x l IH] using rev_ind; [done|]. rewrite length_app, seq_app, omap_app. cbn [length seq omap list_omap].
  rewrite lookup_app_r, Nat.sub_diag by lia. cbn. f_equal. rewrite <-IH at 2. apply list_omap_ext.
  apply Forall2_same_length_lookup. split; [done|]. intros i j k Hj Hk. rewrite Hj in Hk. injection Hk as <-.
  apply lookup_seq in Hj as [-> Hlt]. by rewrite lookup_app_l.
Qed.

Lemma filter_everything state certificates revocations snapshot authority revokedDevices :
  readState identity state -> boundedSnapshot (profile_value state) = Ok snapshot ->
  verifyIdentityDeviceAuthority identity (js "MATCH/1") (evidence_value certificates revocations) = Ok authority ->
  foldR (addRevocation certificates) [] revocations = Ok revokedDevices ->
  (forall operation, operation ∈ profile_operations state -> withinCutoff revokedDevices operation = Ok true) ->
  filterIdentityProfileRevocations identity (profile_value state) certificates revocations = Ok (profile_value state).
Proof.
  intros Hread Hs Hauth Hrev Hall. unfold filterIdentityProfileRevocations. rewrite Hs. apply snapshot_plain in Hs as ->; [|by eapply read_plain].
  cbn [mbind result_bind]. change ((profile_value state).["operations"]) with (Arr (profile_operations state)). cbv iota.
  rewrite (proj2 (Nat.ltb_ge _ _)) by by eapply read_size. rewrite Hauth. cbn [mbind result_bind]. rewrite Hrev. cbn [mbind result_bind].
  rewrite filterR_all.
  - cbn [mbind result_bind]. rewrite drop_nothing, omap_lookup_seq. done.
  - intros i [? Hi]%elem_of_seq. destruct (lookup_lt_is_Some_2 (profile_operations state) i) as [c Hc]; [lia|].
    rewrite Hc. apply Hall. by eapply list_elem_of_lookup_2.
Qed.

Lemma same_operations state state' : plain (profile_value state) -> plain (profile_value state') ->
  same (profile_value state) (profile_value state') -> length (profile_operations state) = length (profile_operations state').
Proof.
  intros Hp Hp' Hsame%(same_get (js "operations")); [|done..]. unfold same in Hsame.
  change (getOpt (js "operations") (profile_value state)) with (Arr (profile_operations state)) in Hsame.
  change (getOpt (js "operations") (profile_value state')) with (Arr (profile_operations state')) in Hsame.
  cbn [normal] in Hsame. injection Hsame as Hsame%(f_equal length). by rewrite !length_map in Hsame.
Qed.

Lemma sameText_true v v' : plain v -> plain v' -> sameText v v' = Ok true -> same v v'.
Proof.
  intros Hv Hv' (a & Ha & Hb)%bind_ok. apply bind_ok in Hb as (b & Hb & Heq). apply (inj Ok) in Heq as ->%bool_decide_eq_true.
  apply same_canonical; [done..|congruence].
Qed.

Lemma dropAll_sublist fuel candidates kept : dropAllDependents fuel candidates kept `sublist_of` kept.
Proof.
  revert kept. induction fuel as [|fuel IH]; intros kept; cbn [dropAllDependents]; [done|]. destruct (_ =? _)%nat; [done|].
  etrans; [apply IH|]. unfold dropDependents. generalize (fun index => match candidates !! index with
    Some c => negb (dependsOn c (removedKeys candidates kept)) | None => true end). intros f. clear IH.
  induction kept as [|i kept IH]; cbn; [done|]. destruct (f i); by constructor.
Qed.

Lemma filterR_sublist {A} (test : A -> result bool) l kept : filterR test l = Ok kept -> kept `sublist_of` l.
Proof.
  revert kept. induction l as [|x l IH]; intros kept; cbn; [by intros [= <-]|]. intros (hit & _ & Hr)%bind_ok.
  apply bind_ok in Hr as (rest & Hrest%IH & [= <-]). destruct hit; by constructor.
Qed.

Lemma sublist_full {A} (l k : list A) : l `sublist_of` k -> (length k <= length l)%nat -> l = k.
Proof. induction 1 as [|x l k _ IH|x l k Hs IH]; cbn; intros Hl; [done|f_equal; apply IH; lia|]. apply sublist_length in Hs. lia. Qed.

Lemma read_length v state : plain v -> readIdentityProfileState identity v = Ok state ->
  (length (profile_operations state) <= length (items v.["operations"]))%nat.
Proof.
  intros Hv. unfold readIdentityProfileState. intros (snapshot & ->%snapshot_plain & Hr)%bind_ok; [|done]. revert Hr. guard_passed as Hg.
  do 3 apply orb_false_iff in Hg as [Hg _]. apply orb_false_iff in Hg as [_ Harr%negb_false_iff].
  intros (operations & Hops & Hr)%bind_ok. apply bind_ok in Hr as (legacy & _ & Hr). apply bind_ok in Hr as ([] & _ & Hr).
  apply bind_ok in Hr as (pins & _ & Hr). apply bind_ok in Hr as ([] & _ & [= <-]). cbn [profile_operations].
  rewrite sortBy_perm, length_map. apply (readOperations_entries _ _ _ Hops (plain_array _ _ Hv Harr)).
Qed.

Lemma length_omap_le {A B} (f : A -> option B) l : (length (omap f l) <= length l)%nat.
Proof. induction l as [|x l IH]; cbn; [done|]. destruct (f x); cbn; lia. Qed.

(** A profile that the revocations leave as it is has every operation of it within the cutoffs. *)
Lemma unfiltered state certificates revocations current :
  readState identity state ->
  readIdentityProfileStateWithRevocations identity (profile_value state) certificates revocations = Ok current ->
  sameText (profile_value current) (profile_value state) = Ok true ->
  current = state /\ readIdentityProfileState identity (profile_value state) = Ok state /\
  (exists snapshot, boundedSnapshot (profile_value state) = Ok snapshot) /\
  exists revokedDevices, foldR (addRevocation certificates) [] revocations = Ok revokedDevices /\
    forall operation, operation ∈ profile_operations state -> withinCutoff revokedDevices operation = Ok true.
Proof.
  intros Hread (filtered & Hf & Hcurrent)%bind_ok Hsame. unfold filterIdentityProfileRevocations in Hf. apply bind_ok in Hf as (snapshot & Hs & Hf).
  pose proof (read_plain _ _ Hread) as Hplain. pose proof Hs as ->%snapshot_plain; [|done].
  change ((profile_value state).["operations"]) with (Arr (profile_operations state)) in Hf. cbv iota in Hf. revert Hf. guard_passed as Hsize.
  intros (authority & Hauth & Hf)%bind_ok. apply bind_ok in Hf as (m & Hm & Hf). apply bind_ok in Hf as (kept & Hkept & Hf).
  set (final := dropAllDependents _ _ kept) in Hf. set (operations := omap _ final) in Hf.
  assert (filtered = profile_value (mkProfileState (profile_personId state) operations (profile_legacy state))) as -> by (apply (inj Ok); by rewrite <-Hf).
  pose proof Hplain as Hparts. apply plain_members in Hparts as [Hparts _]. rewrite !Forall_cons in Hparts. cbn [fst snd] in Hparts.
  destruct Hparts as (_ & [_ Hperson] & [_ Hops%plain_items] & [_ Hlegacy%plain_items] & _).
  assert (plain (profile_value (mkProfileState (profile_personId state) operations (profile_legacy state)))) as Hfiltered.
  { apply plain_profile; [done| |done]. rewrite Forall_forall in Hops. apply Forall_forall. intros o (i & _ & Hi)%list_elem_of_omap.
    apply Hops. by eapply list_elem_of_lookup_2. }
  pose proof (read_length _ _ Hfiltered Hcurrent) as Hlen. change (items _) with operations in Hlen.
  rewrite (same_operations current state) in Hlen; [|by eapply read_plain, read_stateOk|done|apply sameText_true; [by eapply read_plain, read_stateOk|done..]].
  pose proof (length_omap_le (fun i => profile_operations state !! i) final) as Hlen'. fold operations in Hlen'.
  pose proof (dropAll_sublist (S (length (profile_operations state))) (profile_operations state) kept) as Hsub. fold final in Hsub.
  pose proof (filterR_sublist _ _ _ Hkept) as Hsub'. pose proof (sublist_length _ _ Hsub).
  assert (kept = seq 0 (length (profile_operations state))) as -> by (apply sublist_full; [done|rewrite length_seq; lia]).
  assert (final = seq 0 (length (profile_operations state))) as Hfinal by (apply sublist_full; [done|rewrite length_seq; lia]).
  assert (operations = profile_operations state) as Hoperations by (unfold operations; rewrite Hfinal; apply omap_lookup_seq).
  rewrite Hoperations in Hcurrent. change (profile_value (mkProfileState _ _ _)) with (profile_value state) in Hcurrent.
  pose proof (read_again _ _ _ Hread Hcurrent) as ->. split_and!; [done|done|by eexists|]. exists m. split; [done|].
  intros operation (i & Hi)%list_elem_of_lookup. assert (i ∈ seq 0 (length (profile_operations state))) as Hin.
  { apply elem_of_seq. apply lookup_lt_Some in Hi. lia. }
  apply (filterR_ok _ _ _ Hkept) in Hin as [_ Hw]. by rewrite Hi in Hw.
Qed.
End Unfiltered.

(** ** The cutoffs a history of revocations sets *)
Section Cutoffs.
Context `{Sha256} `{Ed25519}.
Variable identity : PublicIdentity.
Variable domain : list N.
Variable certificates : list value.

Lemma countFrontier_entries subtree observed entries total :
  countFrontier subtree observed entries = Ok total ->
  Forall (fun entry => entry.1 ∈ subtree /\ isArray entry.2 = true /\ (length (items entry.2) <= 512)%nat /\ forallb isHash (items entry.2) = true) entries.
Proof.
  revert observed. induction entries as [|[d hashes] entries IH]; intros observed; cbn [countFrontier]; [constructor|].
  guard_passed as Hg. guard_passed as Hlimit. intros Hrest. constructor; [|by eapply IH].
  apply orb_false_iff in Hg as [Hg Hhash]. apply orb_false_iff in Hg as [Hg Hlen%Nat.ltb_ge]. apply orb_false_iff in Hg as [Hin%negb_false_iff%bool_decide_eq_true Harr%negb_false_iff].
  split_and!; [done|done|done|]. apply forallb_forall. intros hash Hx. apply not_true_iff_false in Hhash.
  destruct (isHash hash) eqn:Hh; [done|]. exfalso. apply Hhash, existsb_exists. exists hash. by rewrite Hh.
Qed.

Lemma addFrontier_fresh descendants m d hashes :
  d ∈ descendants -> isArray hashes = true -> (length (items hashes) <= 512)%nat -> forallb isHash (items hashes) = true -> map_get d m = None ->
  addFrontier descendants m (d, hashes) = Ok (map_set d (items hashes) m).
Proof.
  intros Hd Harr Hlen Hhash Hm. unfold addFrontier. rewrite bool_decide_eq_true_2, Harr by done. rewrite (proj2 (Nat.ltb_ge _ _)) by done.
  cbn [negb orb]. destruct (existsb _ _) eqn:Hex.
  - apply existsb_exists in Hex as (hash & Hin & Hno). rewrite forallb_forall in Hhash. specialize (Hhash _ Hin).
    unfold isHash in Hhash. unfold isPersonId in Hno. by rewrite Hhash in Hno.
  - by rewrite Hm.
Qed.

Lemma addFrontiers_fresh descendants m entries :
  Forall (fun entry => entry.1 ∈ descendants /\ isArray entry.2 = true /\ (length (items entry.2) <= 512)%nat /\ forallb isHash (items entry.2) = true) entries ->
  NoDup (map fst entries) -> (forall d, d ∈ map fst entries -> map_get d m = None) ->
  exists m', foldR (addFrontier descendants) m entries = Ok m' /\
    forall d, map_get d m' = match map_get d entries with Some hashes => Some (items hashes) | None => map_get d m end.
Proof.
  intros Hall. revert m. induction Hall as [|[d hashes] entries (Hd & Harr & Hlen & Hhash) _ IH]; intros m Hn Hfresh; [by exists m|].
  cbn [fst snd map] in *. apply NoDup_cons in Hn as [Hnot Hn]. cbn [foldR]. rewrite addFrontier_fresh; [|done..|apply Hfresh; by left].
  cbn [mbind result_bind]. destruct (IH (map_set d (items hashes) m) Hn) as (m' & Hm' & Hget).
  - intros d' Hd'. rewrite map_get_set. rewrite bool_decide_eq_false_2 by (by intros ->). apply Hfresh. by right.
  - exists m'. split; [done|]. intros d'. rewrite Hget. cbn [map_get]. case_bool_decide as Heq.
    + subst d'. rewrite map_get_set, bool_decide_eq_true_2 by done. apply map_get_none in Hnot. by rewrite Hnot.
    + destruct (map_get d' entries); [done|]. by rewrite map_get_set, bool_decide_eq_false_2.
Qed.

Lemma fill_get {A} (dflt : A) ids m d :
  map_get d (fold_left (fun m id => if map_has id m then m else map_set id dflt m) ids m) =
  match map_get d m with Some a => Some a | None => if bool_decide (d ∈ ids) then Some dflt else None end.
Proof.
  revert m. induction ids as [|id ids IH]; intros m; cbn [fold_left]; [by destruct (map_get d m)|]. rewrite IH.
  destruct (map_has id m) eqn:Hhas.
  - destruct (map_get d m) eqn:Hd; [done|]. apply map_has_elem in Hhas. apply map_get_none in Hd. repeat case_bool_decide; set_solver.
  - rewrite map_get_set. destruct (decide (id = d)) as [->|Hne].
    + rewrite bool_decide_eq_true_2 by done. destruct (map_get d m) eqn:Hd.
      * apply map_get_elem in Hd. apply not_true_iff_false in Hhas. exfalso. apply Hhas, map_has_elem, list_elem_of_fmap. by eexists (_, _).
      * by rewrite bool_decide_eq_true_2 by by left.
    + rewrite bool_decide_eq_false_2 by done. destruct (map_get d m); [done|]. repeat case_bool_decide; set_solver.
Qed.

(** The cutoffs of a record that revokes devices without any yet. *)
Lemma addRevocation_fresh m record id subtree observed entries :
  truthy record.["payload"] = true -> record.["payload"].["deviceId"] = Str id -> record.["payload"].["profileOperationHashes"] = Obj entries ->
  NoDup (map fst entries) -> identityDeviceDescendants id certificates = Ok subtree -> countFrontier subtree 0 entries = Ok observed ->
  (forall d, d ∈ subtree -> map_get d m = None) ->
  exists m', addRevocation certificates m record = Ok m' /\
    forall d, map_get d m' = if bool_decide (d ∈ subtree) then Some (default [] (items <$> map_get d entries)) else map_get d m.
Proof.
  intros Htruthy Hid Hentries Hn Hsub Hcount%countFrontier_entries Hfresh. unfold addRevocation. rewrite Htruthy, Hentries, Hid. cbn [isRecord negb orb textOf members].
  rewrite Hsub. cbn [mbind result_bind]. assert (forall d, d ∈ map fst entries -> d ∈ subtree) as Hkeys.
  { intros d (e & -> & He)%list_elem_of_fmap. rewrite Forall_forall in Hcount. by apply Hcount in He as [? _]. }
  destruct (addFrontiers_fresh subtree m entries) as (m1 & Hm1 & Hget); [done|done|auto|]. rewrite Hm1. cbn [mbind result_bind].
  eexists. split; [done|]. intros d. rewrite fill_get, Hget. destruct (map_get d entries) as [hashes|] eqn:He; cbn.
  - rewrite bool_decide_eq_true_2; [done|]. apply map_get_elem in He. apply Hkeys, list_elem_of_fmap. by exists (d, hashes).
  - case_bool_decide as Hd; [by rewrite Hfresh|]. by destruct (map_get d m).
Qed.

Lemma set_covered {A} key (a : A) m (P : list N -> Prop) : (forall d, d ∈ map fst m -> P d) -> P key -> forall d, d ∈ map fst (map_set key a m) -> P d.
Proof. intros Hm Hkey d. rewrite map_set_keys. destruct (map_has key m); [auto|]. rewrite elem_of_app, list_elem_of_singleton. intros [?| ->]; auto. Qed.

Lemma addRevocation_covers m record m' id subtree (P : list N -> Prop) :
  record.["payload"].["deviceId"] = Str id -> identityDeviceDescendants id certificates = Ok subtree ->
  addRevocation certificates m record = Ok m' -> (forall d, d ∈ map fst m -> P d) -> (forall d, d ∈ subtree -> P d) -> forall d, d ∈ map fst m' -> P d.
Proof.
  intros Hid Hsub. unfold addRevocation. guard_passed as Hg. rewrite Hid. cbn [textOf]. rewrite Hsub. cbn [mbind result_bind].
  intros (m1 & Hm1 & [= <-])%bind_ok Hm HP. assert (forall d, d ∈ map fst m1 -> P d) as Hcov.
  { revert Hm1. apply (foldR_ind _ (fun m => forall d, d ∈ map fst m -> P d)); [|done]. intros s [d hashes] s' _ Hs. unfold addFrontier.
    guard_passed as Hf. intros (b & _ & Hb)%bind_ok. destruct b; [|done]. injection Hb as <-.
    apply set_covered; [done|]. do 3 apply orb_false_iff in Hf as [Hf _]. apply negb_false_iff, bool_decide_eq_true in Hf. auto. }
  clear - Hcov HP. revert m1 Hcov HP. induction subtree as [|id subtree IH]; intros m1 Hcov HP; cbn [fold_left]; [done|].
  apply IH; [|intros; apply HP; by right]. destruct (map_has id m1); [done|]. apply set_covered; [done|]. apply HP. by left.
Qed.

Lemma history_covers byDevice index records revoked covered total revoked' covered' total' m m' :
  collectDevices [] certificates = Ok byDevice ->
  applyRevocations identity domain certificates byDevice index records (revoked, covered, total) = Ok (revoked', covered', total') ->
  foldR (addRevocation certificates) m records = Ok m' -> (forall d, d ∈ map fst m -> d ∈ covered) -> forall d, d ∈ map fst m' -> d ∈ covered'.
Proof.
  intros Hcol. revert index revoked covered total m. induction records as [|record records IH]; intros index revoked covered total m; cbn [applyRevocations foldR].
  { by intros [= -> -> ->] [= <-]. }
  intros ([[r1 c1] t1] & Hstep & Hrest)%bind_ok (m1 & Hm1 & Hms)%bind_ok Hm.
  destruct (applyRevocation_ok _ _ _ _ _ _ _ _ _ _ _ _ Hcol Hstep) as (id & Hrev & -> & _ & subtree & Hsub & -> & _).
  eapply IH; [done|done|]. eapply addRevocation_covers; [by eapply revokes_device|done|done|..]; set_solver.
Qed.

Lemma applyRevocations_app byDevice index records records' s :
  applyRevocations identity domain certificates byDevice index (records ++ records') s =
  (s' ← applyRevocations identity domain certificates byDevice index records s;
   applyRevocations identity domain certificates byDevice (index + length records) records' s').
Proof.
  revert index s. induction records as [|record records IH]; intros index s; cbn [app applyRevocations length]; [by rewrite Nat.add_0_r|].
  destruct (applyRevocation _ _ _ _ _ _ _); [|done]. cbn [mbind result_bind]. rewrite IH. by rewrite Nat.add_succ_comm.
Qed.

(** The next record of a history comes last. *)
Lemma next_sorted revoked records revoked' record : history identity domain certificates 0 revoked records revoked' ->
  revisionOf record = Some (Z.of_nat (length records) + 1)%Z -> sortBy revisionLeb (records ++ [record]) = records ++ [record].
Proof.
  intros Hh Hr. apply sortBy_id. assert (forall i r, (records ++ [record]) !! i = Some r -> revisionOf r = Some (Z.of_nat i + 1)%Z) as Hall.
  { intros i r [Hi|[Hle Hi]]%lookup_app_Some; [exact (history_revisions _ _ _ _ _ _ _ Hh _ _ Hi)|].
    apply list_lookup_singleton_Some in Hi as [Hz <-]. rewrite Hr. f_equal. lia. }
  clear Hh Hr. revert Hall. generalize (records ++ [record]) as l. intros l.
  assert (forall n, (forall i r, l !! i = Some r -> revisionOf r = Some (Z.of_nat (n + i) + 1)%Z) -> StronglySorted (fun a b => revisionLeb a b) l) as Hs; [|intros Hall; by apply (Hs 0%nat)].
  induction l as [|x l IH]; intros n Hall; constructor.
  - apply (IH (S n)). intros i r Hi. specialize (Hall (S i) r Hi). rewrite Hall. f_equal. lia.
  - apply Forall_forall. intros y (i & Hi)%list_elem_of_lookup. apply Is_true_true. unfold revisionLeb.
    rewrite (Hall 0%nat x eq_refl), (Hall (S i) y Hi). apply Z.leb_le. lia.
Qed.
End Cutoffs.

(** ** What a revocation observes *)
Section Observed.
Context `{Platform} `{Sha256} `{Ed25519}.
Variable certificates : list value.

(** The hash of the operation stands in the list of its device at the place of its counter. *)
Definition noted (hashes : list (list N * list (list N))) (operation : value) : Prop :=
  exists text known, canonicalizeJson operation.["signed"] = Ok text /\ map_get (opDevice operation) hashes = Some known /\
    (1 <= opCounter operation)%Z /\ known !! Z.to_nat (opCounter operation - 1) = Some (sha256Base64Url (encodeText text)).

Lemma observe_step hashes operation hashes' : observeOperation certificates hashes operation = Ok hashes' ->
  noted hashes' operation /\ (forall other, noted hashes other -> noted hashes' other).
Proof.
  unfold observeOperation. intros (current & _ & Hr)%bind_ok. apply bind_ok in Hr as (leaf & _ & Hr).
  destruct current as [current|], leaf as [leaf|]; try done. apply bind_ok in Hr as (b & _ & Hr). revert Hr. guard_passed as Hb. guard_passed as Hc.
  apply negb_false_iff, Z.eqb_eq in Hc. intros (text & Ht & [= <-])%bind_ok. set (known := default [] (map_get (opDevice operation) hashes)) in *.
  split.
  - exists text, (known ++ [sha256Base64Url (encodeText text)]). rewrite map_get_set, bool_decide_eq_true_2 by done. split_and!; [done|done|lia|].
    rewrite lookup_app_r by lia. by replace (Z.to_nat (opCounter operation - 1) - length known)%nat with 0%nat by lia.
  - intros other (text' & known' & Ht' & Hk' & Hpos & Hl).
    destruct (decide (opDevice operation = opDevice other)) as [Heq|Hne].
    + exists text', (known ++ [sha256Base64Url (encodeText text)]). rewrite map_get_set, bool_decide_eq_true_2 by done. split_and!; [done|done|done|].
      unfold known. rewrite Heq, Hk'. cbn [default]. apply lookup_app_l_Some. exact Hl.
    + exists text', known'. rewrite map_get_set, bool_decide_eq_false_2 by done. done.
Qed.

Lemma observe_all operations hashes : foldR (observeOperation certificates) [] operations = Ok hashes ->
  forall operation, operation ∈ operations -> noted hashes operation.
Proof.
  enough (forall start, foldR (observeOperation certificates) start operations = Ok hashes ->
    (forall operation, operation ∈ operations -> noted hashes operation) /\ forall other, noted start other -> noted hashes other) as Hall
    by (intros Hf; by apply (Hall [])).
  induction operations as [|operation operations IH]; intros start; cbn [foldR].
  { intros [= <-]. split; [by intros ? ?%elem_of_nil|done]. }
  intros (next & [Hnoted Hkeep]%observe_step & [Hrest Hkeep']%IH)%bind_ok. split; [|auto].
  intros other [->|Hin]%elem_of_cons; auto.
Qed.

Lemma observe_keys operations hashes : foldR (observeOperation certificates) [] operations = Ok hashes -> NoDup (map fst hashes).
Proof.
  apply (foldR_ind _ (fun m => NoDup (map fst m))); [|constructor]. intros m operation m' _ Hn. unfold observeOperation.
  intros (current & _ & Hr)%bind_ok. apply bind_ok in Hr as (leaf & _ & Hr). destruct current as [current|], leaf as [leaf|]; try done.
  apply bind_ok in Hr as (b & _ & Hr). revert Hr. guard_passed as Hb. guard_passed as Hc. intros (text & _ & [= <-])%bind_ok. by apply map_set_NoDup.
Qed.

(** An operation that was parsed has the fields the cutoffs look at. *)
Lemma parsed_fields operation : parseOperation operation = Ok operation -> operationOk operation ->
  candidatePayload operation = Some (opPayload operation) /\ (opPayload operation).["deviceId"] = Str (opDevice operation) /\
  safeInt (opPayload operation).["counter"] = Some (opCounter operation).
Proof.
  unfold parseOperation. guard_passed as Hg. guard_passed as Hg'. intros _ Hok. repeat match goal with H : _ || _ = false |- _ => apply orb_false_iff in H as [H ?] end.
  rewrite !negb_false_iff in *. unfold candidatePayload. fold (opPayload operation) in *.
  split; [by repeat match goal with H : isRecord _ = true |- _ => rewrite H; clear H end|].
  assert (isString (opPayload operation).["deviceId"] = true) as Hs by done. assert (isSafe (opPayload operation).["counter"] = true) as Hc by done. split.
  - unfold opDevice. by destruct (opPayload operation).["deviceId"].
  - unfold isSafe in Hc. destruct (safeInt _) as [z|] eqn:Hz; [|done]. f_equal. unfold opCounter, safeInt in *.
    destruct (opPayload operation).["counter"] as [| | |[n| |]| | |]; try done. cbn. destruct (isSafeInteger n); [|done]. congruence.
Qed.

Lemma withinCutoff_noted m operation hashes :
  parseOperation operation = Ok operation -> operationOk operation -> noted hashes operation ->
  map_get (opDevice operation) m = Some (default [] (items <$> map_get (opDevice operation) (members (hashes_value hashes)))) ->
  withinCutoff m operation = Ok true.
Proof.
  intros Hparse Hok (text & known & Ht & Hknown & Hpos & Hl) Hm. destruct (parsed_fields _ Hparse Hok) as (Hp & Hd & Hc).
  assert (map_get (opDevice operation) (members (hashes_value hashes)) = Some (Arr (map Str known))) as Hget.
  { cbn [members hashes_value]. clear - Hknown. induction hashes as [|[k l] hashes IH]; cbn in *; [done|]. case_bool_decide; [congruence|auto]. }
  rewrite Hget in Hm. cbn in Hm. unfold withinCutoff. rewrite Hp, Hd. rewrite (ok_device _ Hok). cbn [Nat.eqb]. rewrite Hm, Hc.
  pose proof (lookup_lt_Some _ _ _ Hl) as Hlt. rewrite length_map. rewrite (proj2 (Z.ltb_ge _ _)) by lia. rewrite (proj2 (Z.ltb_ge _ _)) by lia.
  cbn [orb]. rewrite Ht. cbn [mbind result_bind]. f_equal.
  assert (nth (Z.to_nat (opCounter operation - 1)) (map Str known) Undefined = Str (sha256Base64Url (encodeText text))) as ->.
  { rewrite nth_lookup, list_lookup_fmap, Hl. done. }
  by apply strictEqual_str.
Qed.

Lemma withinCutoff_same m m' operation :
  parseOperation operation = Ok operation -> operationOk operation -> map_get (opDevice operation) m' = map_get (opDevice operation) m ->
  withinCutoff m' operation = withinCutoff m operation.
Proof. intros Hparse Hok Hm. destruct (parsed_fields _ Hparse Hok) as (Hp & Hd & _). unfold withinCutoff. by rewrite Hp, Hd, Hm. Qed.
End Observed.

(** ** Devices below a revoked one *)
Section Below.
Context `{Sha256}.

Lemma reaches_revoked fuel m root revoked current seen :
  chainReaches fuel m root current seen = Ok true -> root ∈ revoked -> chainRevoked fuel m revoked current seen = Ok true.
Proof.
  intros Hreach Hroot. revert current seen Hreach. induction fuel as [|fuel IH]; intros current seen; cbn [chainReaches chainRevoked]; [done|].
  destruct current as [c|]; [|done]. intros (id & Hid & Hr)%bind_ok. rewrite Hid. cbn [mbind result_bind].
  destruct (existsb (fun r => strictEqual id (Str r)) revoked) eqn:Hrev; [done|]. cbn [orb].
  destruct (strictEqual id (Str root)) eqn:Heq.
  - apply not_true_iff_false in Hrev. exfalso. apply Hrev, existsb_exists. exists root. split; [by apply list_elem_of_In|done].
  - destruct (seenBefore id seen); [done|]. destruct (c.["payload"].["issuerCertificateHash"]); try done; by apply IH.
Qed.

Definition addDescendant (root : list N) (certificates : list value) (subtree : list (list N)) (certificate : value) : result (list (list N)) :=
  below ← isCertificateDescendant certificate root certificates;
  Ok (if (below : bool) then
        match certificate.["payload"].["deviceId"] with
        | Str id => if bool_decide (id ∈ subtree) then subtree else subtree ++ [id]
        | _ => subtree
        end
      else subtree).

Lemma addDescendant_ok root certificates start c next : addDescendant root certificates start c = Ok next ->
  forall d, d ∈ next <-> d ∈ start \/ (deviceOf c = Str d /\ isCertificateDescendant c root certificates = Ok true).
Proof.
  intros (below & Hbelow & Hnext)%bind_ok d. apply (inj Ok) in Hnext. subst next. rewrite Hbelow. unfold deviceOf.
  destruct below; [|naive_solver]. destruct (c.["payload"].["deviceId"]) as [| | | |id| |]; try naive_solver.
  case_bool_decide; [|rewrite elem_of_app, list_elem_of_singleton]; naive_solver.
Qed.

Lemma descendants_spec root certificates subtree : identityDeviceDescendants root certificates = Ok subtree ->
  forall d, d ∈ subtree <-> exists c, c ∈ certificates /\ deviceOf c = Str d /\ isCertificateDescendant c root certificates = Ok true.
Proof.
  assert (forall rest start, foldR (addDescendant root certificates) start rest = Ok subtree -> forall d, d ∈ subtree <->
    d ∈ start \/ exists c, c ∈ rest /\ deviceOf c = Str d /\ isCertificateDescendant c root certificates = Ok true) as Hall.
  { induction rest as [|c rest IH]; intros start; cbn [foldR].
    - intros [= ->] d. split; [by left|]. intros [?|(c & ?%elem_of_nil & _)]; done.
    - intros (next & Hnext & Hrest)%bind_ok d. rewrite (IH _ Hrest d), (addDescendant_ok _ _ _ _ _ Hnext d).
      setoid_rewrite elem_of_cons. naive_solver. }
  intros Hf d. rewrite (Hall certificates [] Hf d). split; [|by right]. by intros [?%elem_of_nil|?].
Qed.

(** The subtree of a revoked device is blocked. *)
Lemma subtree_revoked root certificates subtree revoked d :
  NoDup (map deviceOf certificates) -> identityDeviceDescendants root certificates = Ok subtree -> root ∈ revoked -> d ∈ subtree ->
  forall b, isChainRevoked d revoked certificates = Ok b -> b = true.
Proof.
  intros Hnd Hsub Hroot Hd b. apply (descendants_spec _ _ _ Hsub) in Hd as (c & Hc & Hid & Hreach).
  unfold isCertificateDescendant in Hreach. apply bind_ok in Hreach as (m & Hm & Hreach). unfold isChainRevoked. rewrite Hm. cbn [mbind result_bind].
  intros (found & Hfound & Hchain)%bind_ok. destruct found as [c'|]; [|cbn in Hchain; congruence].
  apply findDevice_some in Hfound as [Hc' Hid']. assert (c' = c) as -> by (eapply device_unique; [exact Hnd|done|done|congruence]).
  apply (reaches_revoked _ _ _ revoked) in Hreach; [|done]. congruence.
Qed.
End Below.

(** ** The next record of a history *)
Section Next.
Context `{Platform} `{Sha256} `{Ed25519}.

Lemma foldR_app {A S} (f : S -> A -> result S) s l k : foldR f s (l ++ k) = (s' ← foldR f s l; foldR f s' k).
Proof. revert s. induction l as [|x l IH]; intros s; cbn; [done|]. by destruct (f s x); cbn. Qed.

Lemma authority_applied identity domain certificates records authority :
  verifyIdentityDeviceAuthority identity domain (evidence_value certificates records) = Ok authority ->
  exists byDevice covered total, collectDevices [] certificates = Ok byDevice /\
    applyRevocations identity domain certificates byDevice 0 (sortBy revisionLeb records) ([], [], 0%Z) = Ok (state_revoked authority, covered, total) /\
    filterR (fun deviceId => isChainRevoked deviceId (state_revoked authority) certificates) (map fst byDevice) = Ok (state_blocked authority).
Proof.
  unfold verifyIdentityDeviceAuthority. guard_passed as Hg. intros (byDevice & Hcol & Hr)%bind_ok. apply bind_ok in Hr as ([] & _ & Hr).
  apply bind_ok in Hr as ([[revoked covered] total] & Happ & Hr). apply bind_ok in Hr as (blocked & Hbl & [= <-]). by exists byDevice, covered, total.
Qed.

Lemma applyRevocation_frontier identity domain certificates byDevice index record revoked covered total s' :
  applyRevocation identity domain certificates byDevice index record (revoked, covered, total) = Ok s' ->
  exists id subtree observed, record.["payload"].["deviceId"] = Str id /\ identityDeviceDescendants id certificates = Ok subtree /\
    truthy record.["payload"] = true /\ countFrontier subtree 0 (members record.["payload"].["profileOperationHashes"]) = Ok observed.
Proof.
  unfold applyRevocation. intros ([id signer] & Hck & Hr)%bind_ok. apply bind_ok in Hr as (subtree & Hsub & Hr).
  apply bind_ok in Hr as (covered' & _ & Hr). apply bind_ok in Hr as (observed & Hobs & _). exists id, subtree, observed.
  unfold checkRevocation in Hck. revert Hck. guard_passed as Hg. do 4 apply orb_false_iff in Hg as [Hg _]. apply negb_false_iff in Hg.
  destruct (record.["payload"].["deviceId"]) as [| | | |d| |]; try done. destruct (record.["signerKeyId"]) as [| | | |s| |]; try done.
  guard_passed as Hh. intros (b & _ & Hr')%bind_ok. destruct b; [done|]. apply bind_ok in Hr' as (b & _ & Hr'). destruct b; [done|]. by injection Hr' as -> _.
Qed.

(** The cutoffs after a record are those before it, and for the devices it
    revokes the hashes it lists. *)
Lemma next_cutoffs identity domain certificates records record authority m entries :
  verifyIdentityDeviceAuthority identity domain (evidence_value certificates (records ++ [record])) = Ok authority ->
  sortBy revisionLeb (records ++ [record]) = records ++ [record] -> foldR (addRevocation certificates) [] records = Ok m ->
  record.["payload"].["profileOperationHashes"] = Obj entries -> NoDup (map fst entries) ->
  exists id subtree m', record.["payload"].["deviceId"] = Str id /\ identityDeviceDescendants id certificates = Ok subtree /\
    foldR (addRevocation certificates) [] (records ++ [record]) = Ok m' /\ id ∈ state_revoked authority /\
    forall d, map_get d m' = if bool_decide (d ∈ subtree) then Some (default [] (items <$> map_get d entries)) else map_get d m.
Proof.
  intros Hauth Hsort Hm Hentries Hn. destruct (authority_applied _ _ _ _ _ Hauth) as (byDevice & covered & total & Hcol & Happ & _).
  rewrite Hsort, applyRevocations_app in Happ. apply bind_ok in Happ as ([[r1 c1] t1] & Hfirst & Hlast). cbn [applyRevocations] in Hlast.
  apply bind_ok in Hlast as (s' & Hlast & Hs'). injection Hs' as ->.
  destruct (applyRevocation_frontier _ _ _ _ _ _ _ _ _ _ Hlast) as (id & subtree & observed & Hid & Hsub & Htruthy & Hcount).
  destruct (applyRevocation_ok _ _ _ _ _ _ _ _ _ _ _ _ Hcol Hlast) as (id' & Hrev & Hrevoked & _ & subtree' & Hsub' & _ & Hdisjoint).
  pose proof (revokes_device _ _ _ _ _ _ _ Hrev) as Hid'. rewrite Hid in Hid'. injection Hid' as <-. rewrite Hsub in Hsub'. apply (inj Ok) in Hsub' as <-.
  rewrite Hentries in Hcount. cbn [members] in Hcount.
  destruct (addRevocation_fresh certificates m record id subtree observed entries) as (m' & Hm' & Hget); [done..| |].
  { intros d Hd. apply map_get_none. intros Hin. apply (Hdisjoint d Hd).
    apply (history_covers identity domain certificates byDevice 0 records [] [] 0%Z r1 c1 t1 [] m); [done|done|done|by intros ? ?%elem_of_nil|done]. }
  exists id, subtree, m'. split_and!; [done|done| | |done].
  - rewrite foldR_app, Hm. cbn [mbind result_bind foldR]. by rewrite Hm'.
  - rewrite Hrevoked. apply elem_of_app. right. by left.
Qed.
End Next.

(** ** A revocation that was made *)
Section Made.
Context `{Platform} `{Sha256} `{Ed25519}.

Lemma unrevoked_ok identity profileState certificates revocations refusal current :
  plain profileState -> unrevokedProfile identity profileState certificates revocations refusal = Ok current ->
  readState identity current /\ readIdentityProfileState identity profileState = Ok current /\
  readIdentityProfileState identity (profile_value current) = Ok current /\
  (exists snapshot, boundedSnapshot (profile_value current) = Ok snapshot) /\
  exists revokedDevices, foldR (addRevocation certificates) [] revocations = Ok revokedDevices /\
    forall operation, operation ∈ profile_operations current -> withinCutoff revokedDevices operation = Ok true.
Proof.
  intros Hplain (validated & Hread & Hr)%bind_ok. apply bind_ok in Hr as (current' & Hcurrent & Hr). apply bind_ok in Hr as (b & Hsame & Hr).
  destruct b; [|done]. injection Hr as ->. pose proof (read_stateOk _ _ _ Hplain Hread) as Hstate.
  destruct (unfiltered _ _ _ _ _ Hstate Hcurrent Hsame) as (-> & Hrest). done.
Qed.

(** What [createDeviceRevocation] has found when it returns. *)
Lemma revocation_made profile state deviceId profileState domain record :
  createDeviceRevocation profile (Some state) deviceId profileState domain = Ok record ->
  exists refusal current subtree hashes authority,
    unrevokedProfile (local_identity profile) profileState (state_certificates state) (state_revocations state) refusal = Ok current /\
    identityDeviceDescendants deviceId (state_certificates state) = Ok subtree /\
    foldR (observeOperation (state_certificates state)) []
      (sortBy counterLeb (List.filter (fun operation => bool_decide (opDevice operation ∈ subtree)) (profile_operations current))) = Ok hashes /\
    signEnvelope (local_deviceKey profile) (revocation_payload (personId (local_identity profile)) deviceId
      (Z.of_nat (length (state_revocations state)) + 1) hashes) (local_deviceId profile) domain = Ok record /\
    verifyIdentityDeviceAuthority (local_identity profile) domain
      (evidence_value (state_certificates state) (state_revocations state ++ [record])) = Ok authority /\
    exists c, c ∈ state_certificates state /\ deviceOf c = Str deviceId.
Proof.
  unfold createDeviceRevocation. guard_passed as Hg. intros (own & _ & Hr)%bind_ok. revert Hr. guard_passed as Hown.
  intros (found & Hfound & Hr)%bind_ok. revert Hr. guard_passed as Hf. apply negb_false_iff, bool_decide_eq_true in Hf as [c ->].
  intros (revoked & _ & Hr)%bind_ok. destruct revoked; [done|]. apply bind_ok in Hr as (enroll & _ & Hr). revert Hr. guard_passed as He.
  intros (current & Hcurrent & Hr)%bind_ok. apply bind_ok in Hr as (subtree & Hsub & Hr). apply bind_ok in Hr as (hashes & Hhashes & Hr).
  apply bind_ok in Hr as (signed & Hsigned & Hr). apply bind_ok in Hr as (authority & Hauth & [= ->]).
  do 5 eexists. split_and!; [done|done|done|done|done|]. exists c. by apply findDevice_some.
Qed.

Lemma revocation_fields hashes key person deviceId revision signerId domain record :
  signEnvelope key (revocation_payload person deviceId revision hashes) signerId domain = Ok record ->
  record.["payload"] = revocation_payload person deviceId revision hashes.
Proof.
  intros Hs. destruct (sign_solid key (revocation_payload person deviceId revision hashes) (js "mesh-identity-device-revocation") signerId domain) as (sig & Hsig & _).
  - cbn [revocation_payload solid forallb hashes_value andb]. rewrite andb_true_r. apply forallb_forall. intros [d v] ([d' l] & [= <- <-] & _)%in_map_iff.
    cbn [solid]. apply forallb_forall. by intros ? (? & <- & _)%in_map_iff.
  - done.
  - rewrite Hs in Hsig. apply (inj Ok) in Hsig as ->. done.
Qed.

(** Every operation of the profile is within the cutoffs that the record adds. *)
Lemma revocation_spares identity certificates hashes (subtree : list (list N)) m m' current :
  readState identity current ->
  foldR (observeOperation certificates) []
    (sortBy counterLeb (List.filter (fun operation => bool_decide (opDevice operation ∈ subtree)) (profile_operations current))) = Ok hashes ->
  (forall d, map_get d m' = if bool_decide (d ∈ subtree) then Some (default [] (items <$> map_get d (members (hashes_value hashes)))) else map_get d m) ->
  (forall operation, operation ∈ profile_operations current -> withinCutoff m operation = Ok true) ->
  forall operation, operation ∈ profile_operations current -> withinCutoff m' operation = Ok true.
Proof.
  intros Hread Hobs Hget Hall operation Hin. pose proof (read_parsed _ _ Hread) as Hparsed. rewrite Forall_forall in Hparsed.
  destruct (Hparsed _ Hin) as [Hparse Hok%verifyOperation_ok]. destruct (decide (opDevice operation ∈ subtree)) as [Hd|Hd].
  - apply (withinCutoff_noted _ _ hashes); [done|done| |by rewrite Hget, bool_decide_eq_true_2].
    apply (observe_all _ _ _ Hobs). rewrite sortBy_perm. apply elem_of_lfilter. split; [done|]. by apply bool_decide_eq_true.
  - rewrite (withinCutoff_same m); [auto|done|done|]. by rewrite Hget, bool_decide_eq_false_2.
Qed.

Lemma foldR_steps {A S} (f : S -> A -> result S) s l s' x : foldR f s l = Ok s' -> x ∈ l -> exists s1 s2, f s1 x = Ok s2.
Proof.
  revert s. induction l as [|y l IH]; intros s; cbn; [by intros _ ?%elem_of_nil|]. intros (s1 & Hy & Hl)%bind_ok [->|Hx]%elem_of_cons; [by exists s, s1|].
  by eapply IH.
Qed.

Lemma filterR_total {A} (test : A -> result bool) l kept x : filterR test l = Ok kept -> x ∈ l -> exists b, test x = Ok b.
Proof.
  revert kept. induction l as [|y l IH]; intros kept; cbn; [by intros _ ?%elem_of_nil|]. intros (b & Hy & Hr)%bind_ok.
  apply bind_ok in Hr as (rest & Hrest & _). intros [->|Hx]%elem_of_cons; [by exists b|]. by eapply IH.
Qed.

Lemma device_below_itself root certificates subtree c :
  identityDeviceDescendants root certificates = Ok subtree -> c ∈ certificates -> deviceOf c = Str root -> root ∈ subtree.
Proof.
  intros Hsub Hc Hid. apply (descendants_spec _ _ _ Hsub). exists c. split_and!; [done|done|].
  destruct (foldR_steps _ _ _ _ _ Hsub Hc) as (s1 & s2 & (b & Hb & _)%bind_ok). rewrite Hb. f_equal. unfold isCertificateDescendant in Hb.
  apply bind_ok in Hb as (m & _ & Hb). cbn [chainReaches] in Hb. apply bind_ok in Hb as (id & Hpid & Hb). apply payloadId_eq in Hpid. rewrite Hid in Hpid. subst id.
  rewrite (proj2 (strictEqual_str _ _) eq_refl) in Hb. by injection Hb as <-.
Qed.

(** The devices below a revoked one are blocked. *)
Lemma subtree_blocked identity domain certificates records authority root subtree :
  verifyIdentityDeviceAuthority identity domain (evidence_value certificates records) = Ok authority -> root ∈ state_revoked authority ->
  identityDeviceDescendants root certificates = Ok subtree -> forall d, d ∈ subtree -> d ∈ state_blocked authority.
Proof.
  intros Hauth Hroot Hsub d Hd. destruct (authority_applied _ _ _ _ _ Hauth) as (byDevice & covered & total & Hcol & _ & Hbl).
  assert (d ∈ map fst byDevice) as Hkey.
  { apply (collect_key _ _ _ Hcol). apply (descendants_spec _ _ _ Hsub) in Hd as (c & ? & ? & _). by exists c. }
  apply (filterR_ok _ _ _ Hbl). split; [done|]. destruct (filterR_total _ _ _ _ Hbl Hkey) as [b Hb]. rewrite Hb.
  f_equal. eapply subtree_revoked; [by eapply collect_nodup|done|done|done|done].
Qed.
End Made.

(** C23. Revoking a device loses none of the profile that was seen: for a profile
    state that is JSON data and an authority that was verified, the record
    that [createDeviceRevocation] returns verifies as the next of the history; it
    blocks the device and every device enrolled below it; and filtering the
    profile by the history with the record gives the profile back, with all of its
    operations, those of the revoked devices included. *)
Theorem revocation_keeps_profile `{Platform} `{Sha256} `{Ed25519} profile evidence state deviceId profileState record :
  plain profileState ->
  verifyIdentityDeviceAuthority (local_identity profile) (js "MATCH/1") evidence = Ok state ->
  createDeviceRevocation profile (Some state) deviceId profileState (js "MATCH/1") = Ok record ->
  exists current subtree authority,
    readIdentityProfileState (local_identity profile) profileState = Ok current /\
    verifyIdentityDeviceAuthority (local_identity profile) (js "MATCH/1")
      (evidence_value (state_certificates state) (state_revocations state ++ [record])) = Ok authority /\
    identityDeviceDescendants deviceId (state_certificates state) = Ok subtree /\ deviceId ∈ subtree /\
    (forall d, d ∈ subtree -> d ∈ state_blocked authority) /\
    readIdentityProfileStateWithRevocations (local_identity profile) (profile_value current)
      (state_certificates state) (state_revocations state ++ [record]) = Ok current.
Proof.
  intros Hplain Hstate Hmade.
  destruct (revocation_made _ _ _ _ _ _ Hmade) as (refusal & current & subtree & hashes & authority & Hun & Hsub & Hobs & Hsign & Hauth & c & Hc & Hid).
  destruct (unrevoked_ok _ _ _ _ _ _ Hplain Hun) as (Hread & Hreads & Hagain & [snapshot Hsnap] & m & Hm & Hall).
  pose proof (revocation_fields _ _ _ _ _ _ _ _ Hsign) as Hpayload.
  assert (sortBy revisionLeb (state_revocations state ++ [record]) = state_revocations state ++ [record]) as Hsort.
  { eapply next_sorted; [eapply verified_history, authority_verified, Hstate|]. unfold revisionOf. by rewrite Hpayload. }
  destruct (next_cutoffs _ _ _ _ _ _ m (members (hashes_value hashes)) Hauth Hsort Hm) as (id & subtree' & m' & Hdevice & Hsub' & Hm' & Hrevoked & Hget).
  { by rewrite Hpayload. }
  { cbn [members hashes_value]. rewrite map_map, (map_ext _ fst) by (by intros []). by eapply observe_keys. }
  rewrite Hpayload in Hdevice. assert (id = deviceId) as -> by (by injection Hdevice as ->). rewrite Hsub in Hsub'. apply (inj Ok) in Hsub' as <-.
  exists current, subtree, authority. split_and!; [done|done|done|by eapply device_below_itself|by eapply subtree_blocked|].
  unfold readIdentityProfileStateWithRevocations. rewrite (filter_everything _ _ _ _ snapshot authority m'); [done..|].
  by eapply revocation_spares.
Qed.

(** ** A device that edited the name is revoked *)
Module RevocationSample.
#[local] Existing Instance checksumSha256.
#[local] Existing Instance toyEd25519.
#[local] Existing Instance plainPlatform.

Definition other : LocalProfile := mkLocalProfile Sample.identity (Sample.keyIdOf 3) (Sample.keyText 3) Sample.second None [3%N].
Definition otherEdit : value := Eval vm_compute in
  ProfileSample.orUndefined (createIdentityProfileOperation other ProfileSample.state (Str (js "name")) (Str (js "Grace"))
    [Sample.first; Sample.second] ProfileSample.always).
Definition profileState : value := profile_value (mkProfileState (personId Sample.identity) [ProfileSample.first_edit; otherEdit] []).
Definition evidence : value := evidence_value Sample.certificates [].
Definition state : AuthorityState := mkAuthorityState Sample.identity Sample.certificates [] [] [] [].
Definition record : value := Eval vm_compute in
  ProfileSample.orUndefined (createDeviceRevocation ProfileSample.profile (Some state) (Sample.keyIdOf 3) profileState (js "MATCH/1")).

Lemma revocable_evidence : verifyIdentityDeviceAuthority Sample.identity (js "MATCH/1") evidence = Ok state.
Proof. vm_compute. reflexivity. Qed.
Lemma record_made : createDeviceRevocation ProfileSample.profile (Some state) (Sample.keyIdOf 3) profileState (js "MATCH/1") = Ok record.
Proof. vm_compute. reflexivity. Qed.
End RevocationSample.

Lemma revocation_keeps_profile_witness :
  length (items (getOpt (Sample.keyIdOf 3) RevocationSample.record.["payload"].["profileOperationHashes"])) = 1%nat /\
  exists current, readIdentityProfileState (H := plainPlatform) (H0 := checksumSha256) (H1 := toyEd25519) Sample.identity RevocationSample.profileState = Ok current /\
    readIdentityProfileStateWithRevocations (H := plainPlatform) (H0 := checksumSha256) (H1 := toyEd25519) Sample.identity
      (profile_value current) Sample.certificates [RevocationSample.record] = Ok current.
Proof.
  split; [vm_compute; reflexivity|].
  destruct (revocation_keeps_profile (H := plainPlatform) (H0 := checksumSha256) (H1 := toyEd25519) ProfileSample.profile RevocationSample.evidence
    RevocationSample.state (Sample.keyIdOf 3) RevocationSample.profileState RevocationSample.record) as (current & subtree & authority & Hread & _ & _ & _ & _ & Hkept).
  - vm_compute. exact I.
  - exact RevocationSample.revocable_evidence.
  - exact RevocationSample.record_made.
  - exists current. split; [exact Hread|exact Hkept].
Defined.

(** A view that is made holds the profile it is made with: every operation of
    it stays when the profile is filtered by the revocations of the view, and
    the device that made a manager's view is authorized. *)
Lemma manager_view_holds_profile `{Platform} `{Sha256} `{Ed25519} profile evidence profileState view :
  plain profileState -> createIdentityManagerAuthorityView profile evidence profileState (js "MATCH/1") = Ok view ->
  exists authority current, verifyIdentityDeviceAuthority (local_identity profile) (js "MATCH/1") evidence = Ok authority /\
    authorizeIdentityDevice (js "MATCH/1") (Some authority) (local_deviceId profile) = Ok (Str (local_publicKey profile)) /\
    readIdentityProfileState (local_identity profile) profileState = Ok current /\
    exists revokedDevices, foldR (addRevocation (state_certificates authority)) [] (state_given authority) = Ok revokedDevices /\
      forall operation, operation ∈ profile_operations current -> withinCutoff revokedDevices operation = Ok true.
Proof.
  intros Hplain. unfold createIdentityManagerAuthorityView. intros (stated & _ & Hr)%bind_ok. revert Hr. guard_passed as Hs.
  intros (known & _ & Hr)%bind_ok. revert Hr. guard_passed as Hk. intros (authority & Hauth & Hr)%bind_ok. apply bind_ok in Hr as (key & Hkey & Hr).
  revert Hr. guard_passed as Hpk. apply negb_false_iff, isStr_true in Hpk as ->. intros (authority' & Hauth' & Hr)%bind_ok.
  rewrite Hauth in Hauth'. apply (inj Ok) in Hauth' as <-. apply bind_ok in Hr as (current & Hun & _).
  destruct (unrevoked_ok _ _ _ _ _ _ Hplain Hun) as (_ & Hread & _ & _ & Hall). by exists authority, current.
Qed.
