(* ===== verification/MeshStore.v ===== *)
(** * The key-value store of the mesh

    [packages/mesh-browser-store/src/index.ts]: [MemoryMeshStore] with all of
    its operations, and the prefix scan of [BrowserMeshStore], which reads a key
    range of an ordered IndexedDB store with a cursor.  [AtomicStore] is what the
    users of a store rely on: every operation takes effect as a whole or not at
    all, whether it returns or throws, and others may write in between. *)
From stdpp Require Import base numbers list sorting strings.
From Stdlib Require Import ZArith NArith Lia.
From S2P Require Import Prelude Unicode Json Js.
Local Open Scope js_scope.

(** A stored value: a string, bytes, or other data.  Values are cloned on their
    way in and out, so that a stored value is never shared. *)
Inductive Stored := TextRecord (text : list N) | ByteRecord (bytes : list N) | DataRecord (data : value).

#[export] Instance TextRecord_inj : Inj (=) (=) TextRecord.
Proof. by intros ?? [= ]. Qed.

Abbreviation Records := (list (list N * Stored)) (only parsing).
Abbreviation Stores := (list (list N * list (list N * Stored))) (only parsing).

Inductive MeshStoreOperation :=
| PutOperation (store key : list N) (v : Stored)
| DeleteOperation (store key : list N).

Record MeshStoreCondition := mkCondition { c_store : list N; c_key : list N; c_expected : option (list N) }.

Record ScanPage := mkPage { entries : Records; nextAfter : option (list N) }.

(** ** Checks *)
Definition prefixScanInput (prefix : list N) (after : option (list N)) (limit : Z) : result unit :=
  if (length prefix <? 1)%nat || (2048 <? length prefix)%nat then Throw "Invalid scan prefix" else
  if (limit <? 1)%Z || (128 <? limit)%Z then Throw "Invalid scan limit" else
  match after with
  | Some after => if startsWith after prefix then Ok tt else Throw "Invalid scan continuation key"
  | None => Ok tt
  end.

(** The last unit that can be raised is raised, and what follows it is cut. *)
Fixpoint prefixSuccessor (prefix : list N) : option (list N) :=
  match prefix with
  | [] => None
  | code :: rest =>
      match prefixSuccessor rest with
      | Some successor => Some (code :: successor)
      | None => if (code <? 0xffff)%N then Some [(code + 1)%N] else None
      end
  end.

Definition conditionPlace (condition : MeshStoreCondition) : list N * list N := (c_store condition, c_key condition).

Definition transactionInput (conditions : list MeshStoreCondition) : result unit :=
  if bool_decide (NoDup (map conditionPlace conditions)) then Ok tt else Throw "Invalid atomic store conditions".

Definition recordUpdateKeys (keys : list (list N)) : result (list (list N)) :=
  if forallb (fun key => negb (length key =? 0)%nat) keys && bool_decide (NoDup keys) then Ok keys
  else Throw "Record update keys must be distinct non-empty strings".

(** ** MemoryMeshStore *)
Section Memory.

(** [store(name)] makes an empty store the first time. *)
Definition openStore (name : list N) (stores : Stores) : Stores :=
  match map_get name stores with Some _ => stores | None => map_set name [] stores end.
Definition recordsOf (name : list N) (stores : Stores) : Records := default [] (map_get name stores).

Definition memory_get (store key : list N) : M Stores (option Stored) := fun stores =>
  (Ok (map_get key (recordsOf store stores)), openStore store stores).

Definition applyOperation (stores : Stores) (operation : MeshStoreOperation) : Stores :=
  match operation with
  | PutOperation store key v => map_set store (map_set key v (recordsOf store stores)) stores
  | DeleteOperation store key => map_set store (map_delete key (recordsOf store stores)) stores
  end.

Definition memory_put (store key : list N) (v : Stored) : M Stores unit :=
  modifyM (fun stores => applyOperation stores (PutOperation store key v)).
Definition memory_delete (store key : list N) : M Stores unit :=
  modifyM (fun stores => applyOperation stores (DeleteOperation store key)).
Definition memory_list (store : list N) : M Stores Records := fun stores =>
  (Ok (recordsOf store stores), openStore store stores).

Definition keyOrder (left right : list N * Stored) : bool := str_leb left.1 right.1.

Definition memory_scan (store prefix : list N) (after : option (list N)) (limit : Z) : M Stores ScanPage :=
  liftM (prefixScanInput prefix after limit);;
  records ← memory_list store;
  let found := sortBy keyOrder (List.filter (fun '(key, _) =>
    startsWith key prefix && match after with Some after => str_ltb after key | None => true end) records) in
  let count := Z.to_nat limit in
  mret (mkPage (take count found)
    (if (count <? length found)%nat then fst <$> found !! (count - 1)%nat else None)).

Definition memory_batch (operations : list MeshStoreOperation) : M Stores unit :=
  modifyM (fun stores => fold_left applyOperation operations stores).

Definition memory_update (store key : list N) (change : option Stored -> result (option Stored)) : M Stores (option Stored) :=
  records ← memory_list store;
  next ← liftM (change (map_get key records));
  match next with
  | None => memory_delete store key
  | Some v => memory_put store key v
  end;;
  mret next.

(** Writes target distinct declared keys. *)
Fixpoint recordUpdateInput (allowed seen : list (list N)) (writes : list (list N * option Stored)) : result unit :=
  match writes with
  | [] => Ok tt
  | (key, _) :: rest =>
      if negb (bool_decide (key ∈ allowed)) || bool_decide (key ∈ seen)
      then Throw "Record update writes must target distinct declared keys" else recordUpdateInput allowed (key :: seen) rest
  end.

Definition applyWrite (records : Records) (write : list N * option Stored) : Records :=
  match write.2 with None => map_delete write.1 records | Some v => map_set write.1 v records end.

Definition memory_updateRecords {A} (store : list N) (keys : list (list N))
    (change : list (option Stored) -> result (list (list N * option Stored) * A)) : M Stores A :=
  keys ← liftM (recordUpdateKeys keys);
  stores ← getM;
  let current := recordsOf store stores in
  '(writes, answer) ← liftM (change (map (fun key => map_get key current) keys));
  liftM (recordUpdateInput keys [] writes);;
  modifyM (map_set store (fold_left applyWrite writes current));;
  mret answer.

(** [stores.get(store)?.get(key) !== expected] *)
Definition conditionFails (stores : Stores) (condition : MeshStoreCondition) : bool :=
  match map_get (c_key condition) (recordsOf (c_store condition) stores), c_expected condition with
  | None, None => false
  | Some (TextRecord text), Some expected => negb (bool_decide (text = expected))
  | _, _ => true
  end.

Definition memory_compareAndSwap (conditions : list MeshStoreCondition) (operations : list MeshStoreOperation)
    (guard : M Stores unit) : M Stores bool :=
  liftM (transactionInput conditions);;
  stores ← getM;
  if existsb (conditionFails stores) conditions then mret false else
  guard;;
  memory_batch operations;;
  mret true.
End Memory.

(** ** BrowserMeshStore: a scan of an IndexedDB store *)
Record KeyRange := mkRange { lower : list N; lowerOpen : bool; upper : option (list N) }.

Definition scanRange (prefix : list N) (after : option (list N)) : KeyRange :=
  mkRange (default prefix after) (match after with Some _ => true | None => false end) (prefixSuccessor prefix).

Definition inRange (range : KeyRange) (key : list N) : bool :=
  (if lowerOpen range then str_ltb (lower range) key else str_leb (lower range) key) &&
  match upper range with Some upper => str_ltb key upper | None => true end.

(** The cursor over the records of the range, in key order. *)
Fixpoint cursorScan (prefix : list N) (limit : nat) (found rest : Records) : ScanPage :=
  match rest with
  | [] => mkPage found None
  | (key, v) :: rest =>
      if negb (startsWith key prefix) then mkPage found None else
      if (length found =? limit)%nat then mkPage found (fst <$> last found)
      else cursorScan prefix limit (found ++ [(key, v)]) rest
  end.

(** A store must be one of those the database was declared with.  The keys of its
    records are strings, as [put] writes them. *)
Definition browser_scan (declared : list (list N)) (store : list N) (records : Records)
    (prefix : list N) (after : option (list N)) (limit : Z) : result ScanPage :=
  prefixScanInput prefix after limit;;
  if negb (bool_decide (store ∈ declared)) then Throw "Unknown store" else
  Ok (cursorScan prefix (Z.to_nat limit) []
    (sortBy keyOrder (List.filter (fun '(key, _) => inRange (scanRange prefix after) key) records))).

(** ** Key ranges *)
Lemma prefixSuccessor_none prefix : units prefix -> prefixSuccessor prefix = None <-> Forall (fun u => u = 0xffff%N) prefix.
Proof.
  induction prefix as [|u prefix IH]; [intros _; split; [by constructor|done]|].
  intros [Hu Hp]%units_cons. specialize (IH Hp). rewrite Forall_cons, <-IH. cbn [prefixSuccessor].
  destruct (prefixSuccessor prefix); [naive_solver|]. destruct (N.ltb_spec u 0xffff); split; try done; [lia|].
  intros _. split; [lia|done].
Qed.

Lemma startsWith_cons u s p prefix : startsWith (u :: s) (p :: prefix) = (u =? p)%N && startsWith s prefix.
Proof. done. Qed.

(** The keys with a prefix are a range: from the prefix up to its successor. *)
Lemma prefix_range prefix key : units prefix -> units key ->
  startsWith key prefix = str_leb prefix key && match prefixSuccessor prefix with Some upper => str_ltb key upper | None => true end.
Proof.
  revert key. induction prefix as [|p prefix IH]; intros key; [by destruct key|].
  intros [Hp Hprefix]%units_cons. destruct key as [|u key]; [done|]. intros [Hu Hkey]%units_cons.
  rewrite startsWith_cons, (IH key Hprefix Hkey). unfold str_leb, str_ltb. cbn [prefixSuccessor compareUnits].
  destruct (N.compare_spec p u) as [->|Hlt|Hlt].
  - rewrite N.eqb_refl. cbn [andb]. destruct (prefixSuccessor prefix) as [upper|]; cbn [compareUnits].
    + by rewrite N.compare_refl.
    + destruct (N.ltb_spec u 0xffff); cbn [compareUnits]; [|done]. by rewrite (proj2 (N.compare_lt_iff u (u + 1))) by lia.
  - assert ((u =? p)%N = false) as -> by (apply N.eqb_neq; lia). cbn [andb]. symmetry.
    destruct (prefixSuccessor prefix) as [upper|]; cbn [compareUnits].
    + by rewrite (proj2 (N.compare_gt_iff u p)) by lia.
    + destruct (N.ltb_spec p 0xffff); [|lia]. cbn [compareUnits].
      destruct (N.compare_spec u (p + 1)) as [->|?|?]; [by destruct key|lia|done].
  - by assert ((u =? p)%N = false) as -> by (apply N.eqb_neq; lia).
Qed.

(** With a continuation key the range starts after it. *)
Lemma scan_range prefix after key : units prefix -> units key ->
  match after with Some after => startsWith after prefix | None => true end = true ->
  inRange (scanRange prefix after) key = startsWith key prefix && match after with Some after => str_ltb after key | None => true end.
Proof.
  intros Hp Hk Ha. rewrite (prefix_range prefix key) by done. unfold inRange, scanRange. cbn [lower lowerOpen upper].
  destruct after as [after|]; cbn [default from_option id]; [|by rewrite andb_true_r].
  apply Is_true_true, startsWith_le in Ha. destruct (str_ltb after key) eqn:Hlt; [|by rewrite andb_false_r].
  rewrite andb_true_r. cbn [andb]. enough (str_leb prefix key = true) as -> by done.
  apply Is_true_true. eapply str_leb_trans; [exact Ha|]. rewrite str_ltb_leb in Hlt. apply negb_true_iff in Hlt.
  pose proof (str_leb_total after key) as Ht. rewrite Hlt in Ht. by rewrite orb_false_r in Ht.
Qed.

Lemma cursorScan_page prefix limit found rest : Forall (fun p => startsWith p.1 prefix) rest -> 0 < limit -> length found <= limit ->
  cursorScan prefix limit found rest =
  mkPage (take limit (found ++ rest)) (if (limit <? length (found ++ rest))%nat then fst <$> (found ++ rest) !! (limit - 1)%nat else None).
Proof.
  intros Hrest Hpos. revert found. induction Hrest as [|[key v] rest Hkey Hrest IH]; intros found Hlen; cbn [cursorScan].
  - rewrite app_nil_r, take_ge by done. by assert ((limit <? length found)%nat = false) as -> by (apply Nat.ltb_ge; lia).
  - apply Is_true_true in Hkey. cbn [fst] in Hkey. rewrite Hkey. cbn [negb]. destruct (Nat.eqb_spec (length found) limit) as [Heq|Hne].
    + rewrite length_app. cbn [length]. assert ((limit <? length found + S (length rest))%nat = true) as -> by (apply Nat.ltb_lt; lia). rewrite take_app_le, take_ge by lia.
      f_equal. f_equal. rewrite last_lookup, lookup_app_l by lia. f_equal. lia.
    + rewrite IH by (rewrite length_app; cbn [length]; lia). by rewrite <-app_assoc.
Qed.

Lemma page_ok prefix after limit : prefixScanInput prefix after limit = Ok tt ->
  (1 <= limit <= 128)%Z /\ match after with Some after => startsWith after prefix | None => true end = true.
Proof.
  unfold prefixScanInput. guard_passed as Hlen. guard_passed as Hlimit. bool_to_prop. intros Hafter. split; [lia|].
  destruct after as [after|]; [|done]. by destruct (startsWith after prefix).
Qed.

Lemma filter_congr {A} (f g : A -> bool) l : (forall x, x ∈ l -> f x = g x) -> List.filter f l = List.filter g l.
Proof.
  induction l as [|x l IH]; intros Hfg; cbn; [done|]. rewrite (Hfg x) by left. rewrite IH; [done|]. intros y Hy. apply Hfg. by right.
Qed.

(** What a scan finds: the records with the prefix after the continuation key, in key order. *)
Definition scanned (prefix : list N) (after : option (list N)) (records : Records) : Records :=
  sortBy keyOrder (List.filter (fun '(key, _) =>
    startsWith key prefix && match after with Some after => str_ltb after key | None => true end) records).

Lemma scanned_prefix prefix after records : Forall (fun p => startsWith p.1 prefix) (scanned prefix after records).
Proof.
  apply Forall_forall. intros [key v] Hin. unfold scanned in Hin. rewrite sortBy_perm in Hin.
  apply elem_of_lfilter in Hin as [_ Hin]. apply andb_true_iff in Hin as [Hin _]. by apply Is_true_true.
Qed.

Lemma memory_scan_page store prefix after limit stores : prefixScanInput prefix after limit = Ok tt ->
  memory_scan store prefix after limit stores =
  (Ok (mkPage (take (Z.to_nat limit) (scanned prefix after (recordsOf store stores)))
    (if (Z.to_nat limit <? length (scanned prefix after (recordsOf store stores)))%nat
     then fst <$> scanned prefix after (recordsOf store stores) !! (Z.to_nat limit - 1)%nat else None)), openStore store stores).
Proof. intros Hok. unfold memory_scan, liftM, mbind, M_bind. by rewrite Hok. Qed.

Lemma browser_scan_page declared store records prefix after limit : store ∈ declared -> Forall (fun p => units p.1) records -> units prefix ->
  prefixScanInput prefix after limit = Ok tt ->
  browser_scan declared store records prefix after limit =
  Ok (mkPage (take (Z.to_nat limit) (scanned prefix after records))
    (if (Z.to_nat limit <? length (scanned prefix after records))%nat
     then fst <$> scanned prefix after records !! (Z.to_nat limit - 1)%nat else None)).
Proof.
  intros Hstore Hunits Hprefix Hok. destruct (page_ok _ _ _ Hok) as [Hlimit Hafter]. unfold browser_scan. rewrite Hok. cbn [mbind result_bind].
  rewrite bool_decide_eq_true_2 by done. cbn [negb]. f_equal.
  rewrite (filter_congr _ (fun '(key, _) => startsWith key prefix && match after with Some after => str_ltb after key | None => true end)).
  - apply cursorScan_page; [apply scanned_prefix|lia|cbn; lia].
  - intros [key v] Hin. rewrite Forall_forall in Hunits. specialize (Hunits _ Hin). cbn [fst] in Hunits. by apply scan_range.
Qed.

(** ** Pages *)
Lemma keyOrder_total a b : keyOrder a b || keyOrder b a.
Proof. apply str_leb_total. Qed.
Lemma keyOrder_trans a b c : keyOrder a b -> keyOrder b c -> keyOrder a c.
Proof. apply str_leb_trans. Qed.

Lemma sorted_lfilter {A} (leb : A -> A -> bool) (f : A -> bool) l :
  StronglySorted (fun a b => leb a b) l -> StronglySorted (fun a b => leb a b) (List.filter f l).
Proof. induction 1 as [|x l Hl IH Hx]; cbn [List.filter]; [constructor|]. destruct (f x); [|done]. constructor; [done|]. by apply Forall_lfilter. Qed.

Lemma perm_lfilter {A} (f : A -> bool) (l k : list A) : l ≡ₚ k -> List.filter f l ≡ₚ List.filter f k.
Proof.
  induction 1 as [|x l k Hp IH|x y l|l k m H1 IH1 H2 IH2]; cbn; [done| | |by rewrite IH1].
  - destruct (f x); by rewrite IH.
  - destruct (f x), (f y); by rewrite ?(Permutation_swap x y).
Qed.

Lemma key_unique (records : Records) (a b : list N * Stored) :
  NoDup (map fst records) -> a ∈ records -> b ∈ records -> a.1 = b.1 -> a = b.
Proof.
  intros Hn Ha Hb He. apply elem_of_Permutation in Ha as [l Hl]. rewrite Hl in Hb, Hn. cbn in Hn. apply NoDup_cons in Hn as [Hn _].
  apply elem_of_cons in Hb as [->|Hb]; [done|]. exfalso. apply Hn. rewrite He. apply list_elem_of_fmap. by exists b.
Qed.

(** The rest of a scan is what it found past the continuation key. *)
Lemma scanned_after prefix after next records : NoDup (map fst records) ->
  match after with Some after => str_ltb after next | None => true end = true ->
  scanned prefix (Some next) records = List.filter (fun '(key, _) => str_ltb next key) (scanned prefix after records).
Proof.
  intros Hn Hafter. apply (sorted_unique keyOrder).
  - intros a b Ha Hb H1 H2. unfold scanned in Ha, Hb. rewrite sortBy_perm in Ha, Hb. apply elem_of_lfilter in Ha as [Ha _], Hb as [Hb _].
    apply (key_unique records); [done..|]. by apply str_leb_antisym.
  - unfold scanned. rewrite sortBy_perm. rewrite (perm_lfilter _ _ _ (sortBy_perm keyOrder _)). clear Hn.
    induction records as [|[key v] records IH]; cbn [List.filter]; [done|]. destruct (startsWith key prefix); cbn [andb]; [|done].
    destruct (str_ltb next key) eqn:Hkey.
    + assert (match after with Some after => str_ltb after key | None => true end = true) as ->.
      { destruct after; [|done]. apply Is_true_true. eapply str_ltb_trans; by apply Is_true_true. }
      cbn [List.filter]. rewrite Hkey. by rewrite IH.
    + destruct (match after with Some after => str_ltb after key | None => true end); cbn [List.filter]; rewrite ?Hkey; done.
  - apply sortBy_sorted; [apply keyOrder_total|apply keyOrder_trans].
  - apply sorted_lfilter, sortBy_sorted; [apply keyOrder_total|apply keyOrder_trans].
Qed.

Lemma scanned_sorted prefix after records : StronglySorted (fun a b => keyOrder a b) (scanned prefix after records).
Proof. apply sortBy_sorted; [apply keyOrder_total|apply keyOrder_trans]. Qed.

Lemma scanned_NoDup prefix after records : NoDup (map fst records) -> NoDup (map fst (scanned prefix after records)).
Proof.
  intros Hn. unfold scanned. rewrite sortBy_perm. induction records as [|[key v] records IH]; cbn; [constructor|].
  cbn in Hn. apply NoDup_cons in Hn as [Hk Hn]. destruct (_ && _); [|by apply IH]. cbn. constructor; [|by apply IH].
  intros Hin. apply Hk. apply list_elem_of_fmap in Hin as (p & -> & Hp). apply elem_of_lfilter in Hp as [Hp _]. apply list_elem_of_fmap. by exists p.
Qed.

Lemma after_drop (l : Records) i a : NoDup (map fst l) -> StronglySorted (fun a b => keyOrder a b) l -> l !! i = Some a ->
  List.filter (fun '(key, _) => str_ltb a.1 key) l = drop (S i) l.
Proof.
  intros Hn Hs. revert i. induction Hs as [|x l Hs IH Hx]; intros i Hi; [done|]. cbn in Hn. apply NoDup_cons in Hn as [Hnx Hn].
  destruct i as [|i]; cbn in Hi.
  - injection Hi as ->. destruct a as [key v]. cbn. rewrite str_ltb_irrefl, drop_0.
    clear IH Hs Hn. induction l as [|[k' v'] l IH]; [done|]. apply Forall_cons in Hx as [Hk Hx]. cbn in Hnx. apply not_elem_of_cons in Hnx as [Hne Hnx].
    cbn. assert (str_ltb key k' = true) as ->.
    { rewrite str_ltb_leb. apply negb_true_iff, not_true_is_false. intros Hle%Is_true_true. apply Hne. by apply str_leb_antisym. }
    by rewrite IH.
  - destruct x as [key v]. cbn. assert (str_ltb a.1 key = false) as ->.
    { rewrite str_ltb_leb. apply negb_false_iff, Is_true_true. rewrite Forall_forall in Hx. apply (Hx a). by eapply list_elem_of_lookup_2. }
    by apply IH.
Qed.

(** A reader that follows the continuation keys. *)
Fixpoint scanAll (fuel : nat) (store prefix : list N) (after : option (list N)) (limit : Z) : M Stores Records :=
  match fuel with
  | O => throwM "too many pages"
  | S fuel =>
      page ← memory_scan store prefix after limit;
      match nextAfter page with
      | None => mret (entries page)
      | Some after => rest ← scanAll fuel store prefix (Some after) limit; mret (entries page ++ rest)
      end
  end.

Lemma recordsOf_open store stores : recordsOf store (openStore store stores) = recordsOf store stores.
Proof.
  unfold recordsOf, openStore. destruct (map_get store stores) eqn:Hs; [by rewrite Hs|].
  rewrite map_get_set, bool_decide_eq_true_2 by done. done.
Qed.

Lemma openStore_open store stores : openStore store (openStore store stores) = openStore store stores.
Proof.
  unfold openStore at 1. unfold openStore. destruct (map_get store stores) eqn:Hs; [by rewrite Hs|].
  by rewrite map_get_set, bool_decide_eq_true_2 by done.
Qed.

Lemma scanAll_rest fuel store prefix after limit stores :
  NoDup (map fst (recordsOf store stores)) -> prefixScanInput prefix after limit = Ok tt ->
  length (scanned prefix after (recordsOf store stores)) < fuel * Z.to_nat limit ->
  scanAll fuel store prefix after limit stores = (Ok (scanned prefix after (recordsOf store stores)), openStore store stores).
Proof.
  revert after stores. induction fuel as [|fuel IH]; intros after stores Hn Hok Hfuel; [lia|].
  destruct (page_ok _ _ _ Hok) as [Hlimit _]. cbn [scanAll]. unfold mbind, M_bind. rewrite memory_scan_page by done. cbn [nextAfter entries].
  set (found := scanned prefix after (recordsOf store stores)) in *.
  destruct (Nat.ltb_spec (Z.to_nat limit) (length found)) as [Hmore|Hless]; [|cbn; by rewrite take_ge by lia].
  destruct (lookup_lt_is_Some_2 found (Z.to_nat limit - 1)) as [[next v] Hnext]; [lia|]. rewrite Hnext. cbn [fmap option_fmap option_map fst].
  assert ((next, v) ∈ found) as Hin by by eapply list_elem_of_lookup_2.
  assert (startsWith next prefix = true) as Hprefix.
  { pose proof (scanned_prefix prefix after (recordsOf store stores)) as Hp. rewrite Forall_forall in Hp. by apply Is_true_true, (Hp (next, v)). }
  assert (scanned prefix (Some next) (recordsOf store stores) = drop (Z.to_nat limit) found) as Hrest.
  { rewrite (scanned_after prefix after); [|done|].
    2: { destruct after; [|done]. unfold found, scanned in Hin. rewrite sortBy_perm in Hin.
         apply elem_of_lfilter in Hin as [_ Hin]. by apply andb_true_iff in Hin as [_ Hin]. }
    etrans; [apply (after_drop found (Z.to_nat limit - 1) (next, v)); [by apply scanned_NoDup|apply scanned_sorted|done]|f_equal; lia]. }
  rewrite IH; rewrite ?recordsOf_open; [|done| |].
  - rewrite openStore_open, Hrest. cbn. by rewrite take_drop.
  - unfold prefixScanInput in *. revert Hok. by repeat (case_match; [done|]); rewrite Hprefix.
  - rewrite Hrest, length_drop. lia.
Qed.

(** ** What users of a store rely on *)
Definition Contents : Type := list N -> list N -> option Stored.

Definition same (c c' : Contents) : Prop := forall store key, c' store key = c store key.

Definition writes (store key : list N) (v : option Stored) (c c' : Contents) : Prop :=
  c' store key = v /\ forall store' key', (store', key') <> (store, key) -> c' store' key' = c store' key'.

Definition performs (operation : MeshStoreOperation) : Contents -> Contents -> Prop :=
  match operation with
  | PutOperation store key v => writes store key (Some v)
  | DeleteOperation store key => writes store key None
  end.

Fixpoint performsAll (operations : list MeshStoreOperation) (c c' : Contents) : Prop :=
  match operations with
  | [] => same c c'
  | operation :: rest => exists c1, performs operation c c1 /\ performsAll rest c1 c'
  end.

Definition holds (c : Contents) (condition : MeshStoreCondition) : Prop :=
  c (c_store condition) (c_key condition) = TextRecord <$> c_expected condition.

(** Every operation meets the contents at one moment, between what others do
    before and after; an operation that throws may have taken effect or not. *)
Class AtomicStore (W : Type) := {
  contents : W -> Contents;
  meddles : Contents -> Contents -> Prop;
  get : list N -> list N -> M W (option Stored);
  put : list N -> list N -> Stored -> M W unit;
  delete : list N -> list N -> M W unit;
  compareAndSwap : list MeshStoreCondition -> list MeshStoreOperation -> M W unit -> M W bool;
  meddles_same c c' : same c c' -> meddles c c';
  meddles_trans c1 c2 c3 : meddles c1 c2 -> meddles c2 c3 -> meddles c1 c3;
  get_atomic store key w : exists c, meddles (contents w) c /\ meddles c (contents (get store key w).2) /\
    forall found, (get store key w).1 = Ok found -> found = c store key;
  put_atomic store key v w : exists c c', meddles (contents w) c /\ meddles c' (contents (put store key v w).2) /\
    (writes store key (Some v) c c' \/ same c c' /\ (put store key v w).1 <> Ok tt);
  delete_atomic store key w : exists c c', meddles (contents w) c /\ meddles c' (contents (delete store key w).2) /\
    (writes store key None c c' \/ same c c' /\ (delete store key w).1 <> Ok tt);
  swap_atomic conditions operations guard w : (forall w, same (contents w) (contents (guard w).2)) ->
    exists c c', meddles (contents w) c /\ meddles c' (contents (compareAndSwap conditions operations guard w).2) /\
    (Forall (holds c) conditions /\ performsAll operations c c' /\ (compareAndSwap conditions operations guard w).1 <> Ok false \/
     same c c' /\ (compareAndSwap conditions operations guard w).1 <> Ok true) }.

(** ** The memory store is one *)
Definition contentsOf (stores : Stores) : Contents := fun store key => map_get key (recordsOf store stores).

Lemma recordsOf_set store records stores store' :
  recordsOf store' (map_set store records stores) = if bool_decide (store = store') then records else recordsOf store' stores.
Proof. unfold recordsOf. rewrite map_get_set. by case_bool_decide. Qed.

Lemma contentsOf_open store stores : same (contentsOf stores) (contentsOf (openStore store stores)).
Proof.
  intros store' key. unfold contentsOf, openStore. destruct (map_get store stores) eqn:Hs; [done|].
  rewrite recordsOf_set. case_bool_decide as Heq; [|done]. subst. unfold recordsOf. by rewrite Hs.
Qed.

Lemma applyOperation_performs operation stores : performs operation (contentsOf stores) (contentsOf (applyOperation stores operation)).
Proof.
  destruct operation as [store key v|store key]; cbn; (split; [|intros store' key' Hne]); unfold contentsOf; rewrite recordsOf_set.
  - by rewrite bool_decide_eq_true_2, map_get_set, bool_decide_eq_true_2.
  - case_bool_decide as Hs; [subst|done]. rewrite map_get_set, bool_decide_eq_false_2; [done|]. congruence.
  - by rewrite bool_decide_eq_true_2, map_get_delete, bool_decide_eq_true_2.
  - case_bool_decide as Hs; [subst|done]. rewrite map_get_delete, bool_decide_eq_false_2; [done|]. congruence.
Qed.

Lemma batch_performs operations stores : performsAll operations (contentsOf stores) (contentsOf (fold_left applyOperation operations stores)).
Proof.
  revert stores. induction operations as [|operation rest IH]; intros stores; cbn; [done|].
  exists (contentsOf (applyOperation stores operation)). split; [apply applyOperation_performs|apply IH].
Qed.

Lemma performsAll_same operations c0 c c' : same c0 c -> performsAll operations c c' -> performsAll operations c0 c'.
Proof.
  intros Hs. destruct operations as [|operation rest]; cbn.
  - intros Hc store key. by rewrite Hc.
  - intros (c1 & Hp & Hrest). exists c1. split; [|done]. destruct operation; cbn in *; destruct Hp as [Hp Ho];
      (split; [done|]); intros store' key' Hne; by rewrite Ho.
Qed.

Lemma conditionFails_holds stores condition : conditionFails stores condition = false <-> holds (contentsOf stores) condition.
Proof.
  unfold conditionFails, holds, contentsOf. destruct (map_get _ _) as [[text|bytes|data]|], (c_expected condition); cbn; try done.
  rewrite negb_false_iff, bool_decide_eq_true. naive_solver.
Qed.

Lemma conditions_hold stores conditions :
  existsb (conditionFails stores) conditions = false <-> Forall (holds (contentsOf stores)) conditions.
Proof.
  induction conditions as [|condition rest IH]; cbn; [by split; [constructor|]|].
  by rewrite orb_false_iff, Forall_cons, IH, conditionFails_holds.
Qed.

#[export] Instance memoryStore : AtomicStore Stores.
Proof.
  refine {| contents := contentsOf; meddles := same; get := memory_get; put := memory_put; delete := memory_delete;
            compareAndSwap := memory_compareAndSwap |}.
  - done.
  - intros c1 c2 c3 H12 H23 store key. by rewrite H23.
  - intros store key w. exists (contentsOf w). split; [done|]. split; [apply contentsOf_open|]. intros found Hf. by apply (inj Ok) in Hf.
  - intros store key v w. exists (contentsOf w), (contentsOf (memory_put store key v w).2). split_and!; [done..|]. left.
    apply (applyOperation_performs (PutOperation store key v)).
  - intros store key w. exists (contentsOf w), (contentsOf (memory_delete store key w).2). split_and!; [done..|]. left.
    apply (applyOperation_performs (DeleteOperation store key)).
  - intros conditions operations guard w Hguard. unfold memory_compareAndSwap, liftM, mbind, M_bind. cbn.
    exists (contentsOf w).
    destruct (transactionInput conditions) as [[]|e]; [|by exists (contentsOf w); split_and!; [done..|right]].
    cbn. destruct (existsb (conditionFails w) conditions) eqn:Hfails; [by exists (contentsOf w); split_and!; [done..|right]|].
    specialize (Hguard w). destruct (guard w) as [[[]|e] w'] eqn:Hg; cbn in *; [|exists (contentsOf w); split_and!; [done..|by right]].
    exists (contentsOf (fold_left applyOperation operations w')). split_and!; [done..|]. left. split_and!; [| |done].
    + by apply conditions_hold.
    + eapply performsAll_same; [exact Hguard|apply batch_performs].
Defined.

(** ** Theorems *)

(** C25. Prefix scans.  The IndexedDB scan, which reads the key range from the
    prefix to its successor with a cursor, gives for every input on a declared
    store the page or the error that the memory store gives, which filters and sorts
    all records; on another store it gives no page.
    Following the continuation keys reads every record with the prefix exactly
    once and in key order, in as many pages as the limit asks for. *)
Theorem mesh_scan_pages (store prefix : list N) (stores : Stores) (limit : Z) :
  NoDup (map fst (recordsOf store stores)) -> Forall (fun p => units p.1) (recordsOf store stores) -> units prefix ->
  (forall declared after limit', store ∈ declared ->
     browser_scan declared store (recordsOf store stores) prefix after limit' = (memory_scan store prefix after limit' stores).1) /\
  (forall declared after limit', store ∉ declared ->
     forall page, browser_scan declared store (recordsOf store stores) prefix after limit' <> Ok page) /\
  (forall fuel, prefixScanInput prefix None limit = Ok tt ->
     length (List.filter (fun '(key, _) => startsWith key prefix) (recordsOf store stores)) < fuel * Z.to_nat limit ->
     exists found, (scanAll fuel store prefix None limit stores).1 = Ok found /\
       found ≡ₚ List.filter (fun '(key, _) => startsWith key prefix) (recordsOf store stores) /\
       StronglySorted (fun a b => str_leb a.1 b.1) found).
Proof.
  intros Hn Hunits Hprefix. split; [|split].
  - intros declared after limit' Hstore. destruct (prefixScanInput prefix after limit') as [[]|e] eqn:Hok.
    + by rewrite browser_scan_page, memory_scan_page.
    + unfold browser_scan, memory_scan, liftM, mbind, M_bind. by rewrite Hok.
  - intros declared after limit' Hstore page. unfold browser_scan. destruct (prefixScanInput prefix after limit'); [|done].
    cbn [mbind result_bind]. by rewrite bool_decide_eq_false_2.
  - intros fuel Hok Hfuel.
    assert (scanned prefix None (recordsOf store stores) ≡ₚ List.filter (fun '(key, _) => startsWith key prefix) (recordsOf store stores)) as Hperm.
    { unfold scanned. rewrite sortBy_perm. erewrite filter_congr; [done|]. intros [key v] _. by rewrite andb_true_r. }
    rewrite scanAll_rest; [|done|done|by rewrite Hperm]. eexists. split; [done|]. split; [exact Hperm|apply scanned_sorted].
Qed.

Definition sampleStores : Stores :=
  [(js "blobs", [(js "b/2", TextRecord (js "two")); (js "a", TextRecord (js "a")); (js "b/1", ByteRecord [1%N]); (js "b/3", TextRecord (js "three"))])].

Lemma mesh_scan_pages_witness :
  browser_scan [js "blobs"] (js "blobs") (recordsOf (js "blobs") sampleStores) (js "b/") (Some (js "b/1")) 1 =
    Ok (mkPage [(js "b/2", TextRecord (js "two"))] (Some (js "b/2"))) /\
  exists found, (scanAll 2 (js "blobs") (js "b/") None 2 sampleStores).1 = Ok found /\ map fst found = [js "b/1"; js "b/2"; js "b/3"].
Proof.
  destruct (mesh_scan_pages (js "blobs") (js "b/") sampleStores 2) as (Hsame & _ & Hall).
  - apply (bool_decide_unpack _). vm_compute. exact I.
  - repeat (apply Forall_cons; split; [vm_compute; exact I|]). apply Forall_nil. exact I.
  - vm_compute. exact I.
  - split; [rewrite Hsame; [vm_compute; reflexivity|by left]|]. destruct (Hall 2%nat) as (found & Hf & _).
    + reflexivity.
    + vm_compute. lia.
    + exists found. split; [exact Hf|]. revert Hf. vm_compute. intros Hf. injection Hf as <-. reflexivity.
Defined.

(** Compare and swap.  A swap with conditions on distinct records returns
    [false] and changes nothing when one of them does not hold; it throws what the
    guard throws and changes nothing when the guard throws; otherwise it returns
    [true] and exactly the given operations have been performed, in order. *)
Theorem mesh_swap_atomic (conditions : list MeshStoreCondition) (operations : list MeshStoreOperation) (verdict : result unit) (stores : Stores) :
  NoDup (map conditionPlace conditions) ->
  let swap := memory_compareAndSwap conditions operations (liftM verdict) stores in
  (~ Forall (holds (contentsOf stores)) conditions -> swap = (Ok false, stores)) /\
  (Forall (holds (contentsOf stores)) conditions -> forall e, verdict = Throw e -> swap = (Throw e, stores)) /\
  (Forall (holds (contentsOf stores)) conditions -> verdict = Ok tt ->
     swap.1 = Ok true /\ performsAll operations (contentsOf stores) (contentsOf swap.2)).
Proof.
  intros Hn. cbv zeta. unfold memory_compareAndSwap, transactionInput, liftM, mbind, M_bind. rewrite bool_decide_eq_true_2 by done. cbn.
  destruct (existsb (conditionFails stores) conditions) eqn:Hf.
  - assert (~ Forall (holds (contentsOf stores)) conditions) by (rewrite <-conditions_hold; by rewrite Hf). done.
  - apply conditions_hold in Hf. split; [done|]. split; [by intros _ e ->|intros _ ->]. split; [done|apply batch_performs].
Qed.

Lemma mesh_swap_atomic_witness :
  let condition := mkCondition (js "blobs") (js "a") (Some (js "a")) in
  let swap := memory_compareAndSwap [condition] [PutOperation (js "blobs") (js "a") (TextRecord (js "z"))] (liftM (Ok tt)) sampleStores in
  swap.1 = Ok true /\ performsAll [PutOperation (js "blobs") (js "a") (TextRecord (js "z"))] (contentsOf sampleStores) (contentsOf swap.2).
Proof.
  apply (mesh_swap_atomic [mkCondition (js "blobs") (js "a") (Some (js "a"))] [PutOperation (js "blobs") (js "a") (TextRecord (js "z"))] (Ok tt) sampleStores).
  - apply NoDup_singleton.
  - apply Forall_cons. split; [vm_compute; reflexivity|apply Forall_nil; exact I].
  - reflexivity.
Defined.
