(* ===== verification/IdentityStore.v ===== *)
(** * The identity store of a browser

    [BrowserIdentityStore] of [packages/mesh-identity/src/index.ts]: one
    profile in durable storage, one active profile in memory, and the calls that
    create, restore, adopt, renew and rename them.  A profile object has an
    identity of its own: calls hold handles to objects others may replace or
    change whenever a call awaits something, and storage may fail at any
    access. *)
From stdpp Require Import base numbers list sorting strings.
From Stdlib Require Import ZArith NArith Lia.
From S2P Require Import Prelude Unicode Json Js Base64 Digest Envelope Certificates ProfileValue Profile Recovery Records.
Local Open Scope js_scope.

Inductive Backend := AsyncStorage | SyncStorage | NoStorage.

Record StoreOptions := mkOptions {
  storageKey : list N; signatureDomain : list N; backend : Backend; requirePersistence : bool }.

Section Data.
Context `{Ed25519}.

(** A profile object: its public parts as the storage gave them, and its keys. *)
Record ProfileObject := mkProfile {
  object_identity : value; object_device : value; object_certificate : value;
  object_identityKey : option CryptoKey; object_deviceKey : CryptoKey }.

(** The world of a store: accesses so far, durable storage, the store's memory,
    the profile objects there are, the active one, and whether a bootstrap is running. *)
Record World := mkWorld {
  ticks : nat; durable : list (list N * list N); memory : list (list N * list N);
  objects : list ProfileObject; active : option nat; booting : bool }.

(** What the store does not decide: what others do while it waits, when storage
    fails, whether a write that fails took effect, the keys that are generated, random bytes, and how a bootstrap that
    another call started ends. *)
Record Environment := mkEnvironment {
  interfere : nat -> World -> World;
  storage_fails : nat -> option string;
  storage_applies : nat -> bool;
  generate : nat -> result CryptoKey;
  random : nat -> list N;
  joined : nat -> result nat }.
End Data.

Record Plan := mkPlan { plan_previous : option (list N); plan_candidate : list N; plan_public : value; plan_backup : option (list N * list N) }.

Section Store.
Context `{Sha256} `{Ed25519} `{!SeedKeys} `{!EqDecision CryptoKey}.
Variable options : StoreOptions.
Variable env : Environment.

(** A new access, and the point where an awaiting call goes on. *)
Definition tick : M World nat := fun w =>
  (Ok (ticks w), mkWorld (S (ticks w)) (durable w) (memory w) (objects w) (active w) (booting w)).
Definition pause : M World unit := fun w =>
  let w' := interfere env (ticks w) w in
  (Ok tt, mkWorld (S (ticks w)) (durable w') (memory w') (objects w') (active w') (booting w')).

Definition setActive (profile : option nat) : M World unit := modifyM (fun w =>
  mkWorld (ticks w) (durable w) (memory w) (objects w) profile (booting w)).
Definition setBooting (b : bool) : M World unit := modifyM (fun w =>
  mkWorld (ticks w) (durable w) (memory w) (objects w) (active w) b).
Definition setDurable (key v : list N) : M World unit := modifyM (fun w =>
  mkWorld (ticks w) (map_set key v (durable w)) (memory w) (objects w) (active w) (booting w)).
Definition setMemory (key v : list N) : M World unit := modifyM (fun w =>
  mkWorld (ticks w) (durable w) (map_set key v (memory w)) (objects w) (active w) (booting w)).
Definition setErased (key : list N) : M World unit := modifyM (fun w =>
  mkWorld (ticks w) (map_delete key (durable w)) (memory w) (objects w) (active w) (booting w)).
Definition setRemoved (fromDurable : bool) (key : list N) : M World unit := modifyM (fun w =>
  mkWorld (ticks w) (if fromDurable then map_delete key (durable w) else durable w) (map_delete key (memory w)) (objects w) (active w) (booting w)).
Definition newObject (profile : ProfileObject) : M World nat := fun w =>
  (Ok (length (objects w)), mkWorld (ticks w) (durable w) (memory w) (objects w ++ [profile]) (active w) (booting w)).
Definition objectAt (handle : nat) : M World ProfileObject := fun w =>
  match objects w !! handle with Some profile => (Ok profile, w) | None => (Throw "no such object", w) end.

(** ** Storage *)
Definition get (key : list N) : M World (option (list N)) :=
  n ← tick;
  w ← getM;
  found ← match backend options, storage_fails env n with
    | AsyncStorage, Some e => throwM e
    | AsyncStorage, None => mret (map_get key (durable w))
    | SyncStorage, None => mret (match map_get key (durable w) with Some v => Some v | None => map_get key (memory w) end)
    | SyncStorage, Some _ | NoStorage, _ => mret (map_get key (memory w))
    end;
  pause;;
  mret found.

Definition set (key v : list N) (strict : bool) : M World unit :=
  n ← tick;
  let failed := if storage_applies env n then setDurable key v else mret tt in
  match backend options, storage_fails env n with
  | AsyncStorage, Some e => failed;; throwM e
  | AsyncStorage, None => setDurable key v;; setMemory key v
  | SyncStorage, None => setDurable key v;; setMemory key v
  | SyncStorage, Some e => failed;; if strict then throwM e else setMemory key v
  | NoStorage, _ => setMemory key v
  end;;
  pause.

Definition remove (key : list N) : M World unit :=
  n ← tick;
  match backend options, storage_fails env n with
  | AsyncStorage, Some e => (if storage_applies env n then setErased key else mret tt);; throwM e
  | AsyncStorage, None | SyncStorage, None => setRemoved true key
  | SyncStorage, Some _ => setRemoved (storage_applies env n) key
  | NoStorage, _ => setRemoved false key
  end;;
  pause.

Definition clearMemory : M World unit := setActive None;; setBooting false.
Definition isCurrentProfile (handle : nat) : M World bool := w ← getM; mret (bool_decide (active w = Some handle)).

(** A call that is not awaited: what it throws is not seen. *)
Definition detached (m : M World unit) : M World unit := fun w => (Ok tt, (m w).2).
Definition reset : M World unit := clearMemory;; detached (remove (storageKey options)).

(** ** Profiles as text *)
Definition keyText (key : CryptoKey) : value := Str (toBase64Url (exportPkcs8 key)).
Definition serialized (profile : ProfileObject) : value :=
  Obj [(js "identity", object_identity profile); (js "device", object_device profile); (js "certificate", object_certificate profile);
       (js "privateKeys", Obj [
         (js "identityPrivateKeyPkcs8", match object_identityKey profile with Some key => keyText key | None => Undefined end);
         (js "devicePrivateKeyPkcs8", keyText (object_deviceKey profile))])].
Definition serialize (profile : ProfileObject) : M World (list N) :=
  pause;; mret (default [] (JSON_stringify (serialized profile))).

Definition publicParts (identity device certificate : value) : value :=
  Obj [(js "identity", identity); (js "device", device); (js "certificate", certificate)].
Definition publicText (profile : ProfileObject) : result (option (list N)) :=
  canonicalizeJson (publicParts (object_identity profile) (object_device profile) (object_certificate profile)).

(** [importKey("pkcs8", fromBase64Url(text), ...)] *)
Definition importKey (text : value) : result CryptoKey := bytes ← fromBase64UrlOf text; importPkcs8 bytes.

Definition readProfile (raw : list N) : result (option ProfileObject) :=
  match JSON_parse raw with
  | None => Throw "SyntaxError"
  | Some saved =>
      identity ← Js.get (js "identity") saved;
      let keys := saved.["privateKeys"] in
      if negb (truthy identity) || negb (truthy saved.["device"]) || negb (truthy keys.["devicePrivateKeyPkcs8"]) then Ok None else
      deviceKey ← importKey keys.["devicePrivateKeyPkcs8"];
      identityKey ← if truthy keys.["identityPrivateKeyPkcs8"]
                    then key ← importKey keys.["identityPrivateKeyPkcs8"]; Ok (Some key) else Ok None;
      Ok (Some (mkProfile identity saved.["device"] saved.["certificate"] identityKey deviceKey))
  end.

(** [try ... catch]: what throws gives no profile unless storage is required. *)
Definition load : M World (option nat) := fun w =>
  let body : M World (option nat) :=
    raw ← get (storageKey options);
    match raw with
    | None | Some [] => mret None
    | Some raw =>
        profile ← liftM (readProfile raw);
        pause;;
        match profile with Some profile => handle ← newObject profile; mret (Some handle) | None => mret None end
    end in
  match body w with
  | (Throw e, w') => if requirePersistence options then (Throw e, w') else (Ok None, w')
  | ok => ok
  end.

Definition persist (profile : ProfileObject) (strict : bool) : M World unit := fun w =>
  match (text ← serialize profile; set (storageKey options) text strict) w with
  | (Throw e, w') => if strict || requirePersistence options then (Throw e, w') else (Ok tt, w')
  | ok => ok
  end.

(** ** New devices *)
Definition device_value (deviceId publicKey displayName : list N) : value :=
  Obj [(js "deviceId", Str deviceId); (js "publicKey", Str publicKey); (js "displayName", Str displayName)].

Definition deviceName (displayName : list N) : list N := displayName ++ js "'s device".

Definition objectOf (profile : LocalProfile) : ProfileObject :=
  mkProfile (identity_value (local_identity profile))
    (device_value (local_deviceId profile) (local_publicKey profile) (deviceName (displayName (local_identity profile))))
    (local_certificate profile) (local_identityKey profile) (local_deviceKey profile).

Definition generateKey (wrap : bool) : M World CryptoKey :=
  n ← tick;
  match generate env n with
  | Ok key => pause;; mret key
  | Throw e => throwM (if wrap then ("Unsupported crypto algorithm or environment: " ++ e)%string else e)
  end.

Definition freshProfile (displayName : list N) : M World ProfileObject :=
  identityKey ← generateKey true;
  deviceKey ← generateKey true;
  let personId := sha256Base64Url (ed_public identityKey) in
  let deviceId := sha256Base64Url (ed_public deviceKey) in
  let publicKey := toBase64Url (ed_public deviceKey) in
  certificate ← liftM (signEnvelope identityKey (certificate_payload personId deviceId publicKey) personId (signatureDomain options));
  pause;;
  mret (mkProfile (identity_value (mkIdentity personId (toBase64Url (ed_public identityKey)) displayName))
    (device_value deviceId publicKey (deviceName displayName)) certificate (Some identityKey) deviceKey).

Definition bootWith (displayName : list N) : M World nat :=
  restored ← load;
  match restored with
  | Some handle => setActive (Some handle);; mret handle
  | None =>
      profile ← freshProfile displayName;
      persist profile false;;
      w ← getM;
      match active w with
      | Some handle => mret handle
      | None => handle ← newObject profile; setActive (Some handle);; mret handle
      end
  end.

Definition bootstrap (displayName : list N) : M World nat := fun w =>
  match active w with
  | Some handle => (pause;; mret handle) w
  | None =>
      if booting w then (n ← tick; pause;; liftM (joined env n)) w else
      let '(outcome, w) := (setBooting true;; handle ← bootWith displayName; pause;; mret handle) w in
      (outcome, (setBooting false w).2)
  end.

(** ** The guard of a call that holds a profile *)
Record Held := mkHeld { held : option nat; held_identityKey : option CryptoKey; held_deviceKey : CryptoKey; held_public : option (list N) }.

Definition hold (current : nat) : M World Held :=
  profile ← objectAt current;
  public ← liftM (publicText profile);
  w ← getM;
  mret (mkHeld (active w) (object_identityKey profile) (object_deviceKey profile) public).

Definition ensureCurrent (h : Held) (message : string) : M World unit := fun w =>
  match held h with
  | None => (Throw message, w)
  | Some handle =>
      if negb (bool_decide (active w = Some handle)) then (Throw message, w) else
      match objects w !! handle with
      | None => (Throw message, w)
      | Some profile =>
          if negb (bool_decide (object_deviceKey profile = held_deviceKey h)) ||
             negb (bool_decide (object_identityKey profile = held_identityKey h)) then (Throw message, w) else
          match publicText profile with
          | Throw e => (Throw e, w)
          | Ok public => if bool_decide (public = held_public h) then (Ok tt, w) else (Throw message, w)
          end
      end
  end.

(** [if (this.profile === current) this.clearMemory()] *)
Definition forget (current : nat) (message : string) : M World unit :=
  w ← getM;
  (if bool_decide (active w = Some current) then clearMemory else mret tt);;
  throwM message.

Definition backupKey (personId : value) : list N := storageKey options ++ js ".backup." ++ toText personId.

(** The stored text states the public parts of the held profile. *)
Definition savedMatches (raw : option (list N)) (h : Held) : result bool :=
  match raw with
  | None | Some [] => Ok false
  | Some raw =>
      match JSON_parse raw with
      | None => Throw "SyntaxError"
      | Some saved =>
          if truthy saved then
            text ← canonicalizeJson (publicParts saved.["identity"] saved.["device"] saved.["certificate"]);
            Ok (bool_decide (text = held_public h))
          else Ok false
      end
  end.

(** ** Presentation *)
Definition displayNameOf (v : value) : value := v.["displayName"].

(** A name of 1 to 256 characters *)
Definition shownName (v : value) : bool :=
  match v with Str name => negb (length name =? 0)%nat && (length name <=? 256)%nat | _ => false end.

(** [{ ...v, displayName: name }] *)
Definition withName (name v : value) : value := setField (js "displayName") name v.

Definition refreshPresentationSnapshot (expectedRaw : option (list N)) : M World nat :=
  let changed := "Identity changed during presentation refresh"%string in
  w ← getM;
  match active w with
  | None => throwM "Identity must be bootstrapped before presentation refresh"
  | Some current =>
      baseline ← objectAt current;
      h ← hold current;
      text ← serialize baseline;
      baselineSerialized ← liftM (match JSON_parse text with Some v => Ok v | None => Throw "SyntaxError" end);
      ensureCurrent h changed;;
      raw ← get (storageKey options);
      ensureCurrent h changed;;
      (match expectedRaw with
       | Some expected => requireM (bool_decide (raw = Some expected)) "Durable identity presentation changed since it was captured"
       | None => mret tt
       end);;
      match raw with
      | None => throwM "Durable identity profile is missing"
      | Some raw =>
          saved ← liftM (match JSON_parse raw with Some v => Ok v | None => Throw "Durable identity profile is malformed" end);
          requireM (isRecord saved && isRecord saved.["identity"] && isRecord saved.["device"] &&
            shownName (displayNameOf saved.["identity"]) && shownName (displayNameOf saved.["device"])) "Durable identity presentation is invalid";;
          let name := displayNameOf saved.["identity"] in
          let device := displayNameOf saved.["device"] in
          savedText ← liftM (canonicalizeJson saved);
          expectedText ← liftM (canonicalizeJson (setField (js "device") (withName device baselineSerialized.["device"])
            (setField (js "identity") (withName name baselineSerialized.["identity"]) baselineSerialized)));
          requireM (bool_decide (savedText = expectedText)) "Durable identity changed outside presentation metadata";;
          ensureCurrent h changed;;
          if strictEqual name (displayNameOf (object_identity baseline)) && strictEqual device (displayNameOf (object_device baseline))
          then mret current else
          ensureCurrent h changed;;
          handle ← newObject (mkProfile (withName name (object_identity baseline)) (withName device (object_device baseline))
            (object_certificate baseline) (object_identityKey baseline) (object_deviceKey baseline));
          setActive (Some handle);;
          mret handle
      end
  end.

(** ** Creating and restoring *)
Definition install (profile : ProfileObject) : M World nat :=
  persist profile true;;
  handle ← newObject profile;
  setActive (Some handle);;
  mret handle.

Definition createRecoverable `{Words} `{Wrapping} (security name recoveryKey : list N) (entropy : Entropy) : M World (nat * list N * value) :=
  '(profile, recoveryKey, envelope) ← liftM (createRecoverableIdentity security name recoveryKey entropy);
  handle ← install (objectOf profile);
  mret (handle, recoveryKey, envelope).

Definition createPassphrase `{Words} `{Wrapping} (passphrase name : list N) (entropy : Entropy) : M World (nat * value) :=
  '(profile, envelope) ← liftM (createPassphraseIdentity passphrase name entropy);
  handle ← install (objectOf profile);
  mret (handle, envelope).

Definition restorePassphraseEnvelope `{Words} `{Wrapping} (envelope : value) (passphrase name entropy : list N) : M World nat :=
  candidate ← liftM (openIdentityPassphraseEnvelope envelope passphrase name entropy);
  pause;;
  saved ← load;
  match saved with
  | Some handle =>
      profile ← objectAt handle;
      if isStr (personId (local_identity candidate)) (object_identity profile).["personId"]
      then setActive (Some handle);; mret handle
      else install (objectOf candidate)
  | None => install (objectOf candidate)
  end.

(** What a caller may do in place of the store's own writes. *)
Definition Commit : Type := Plan -> M World unit -> M World unit.

Definition planPublic (profile : ProfileObject) : value :=
  publicParts (object_identity profile) (object_device profile) (object_certificate profile).

(** The writes of a replacement: the previous text under its backup key, then,
    if the stored text is still the previous one, the new text. *)
Definition replaceDurable (h : Held) (changed : string) (plan : Plan) (gone : M World unit) : M World unit :=
  (match plan_backup plan with Some (key, text) => set key text true | None => mret tt end);;
  ensureCurrent h changed;;
  before ← get (storageKey options);
  ensureCurrent h changed;;
  (if bool_decide (before = plan_previous plan) then mret tt else gone);;
  set (storageKey options) (plan_candidate plan) true.

Definition startGuard (starting : option Held) (message : string) : M World unit :=
  match starting with Some h => ensureCurrent h message | None => mret tt end.

Definition restoreEnvelope `{Words} `{Wrapping} (envelope : value) (recoveryKey name entropy bootName : list N) (commit : option Commit) : M World nat :=
  let changed := "Identity changed during recovery"%string in
  let gone current := forget current "Durable identity changed before recovery" in
  w ← getM;
  starting ← match active w with Some handle => h ← hold handle; mret (Some h) | None => mret None end;
  startGuard starting changed;;
  current ← bootstrap bootName;
  startGuard starting changed;;
  h ← hold current;
  baseline ← objectAt current;
  previous ← get (storageKey options);
  ensureCurrent h changed;;
  text ← serialize baseline;
  ensureCurrent h changed;;
  (match previous with Some raw => if bool_decide (raw = text) then mret tt else gone current | None => mret tt end);;
  candidate ← liftM (openIdentityRecoveryEnvelope envelope recoveryKey name entropy);
  pause;;
  ensureCurrent h changed;;
  latest ← get (storageKey options);
  ensureCurrent h changed;;
  (if bool_decide (latest = previous) then mret tt else gone current);;
  let same := isStr (personId (local_identity candidate)) (object_identity baseline).["personId"] in
  (if same && negb (isStr (publicKey (local_identity candidate)) (object_identity baseline).["publicKey"])
   then throwM "Recovered root key does not match the active identity" else mret tt);;
  let keepsObject := same && bool_decide (is_Some (object_identityKey baseline)) in
  let profile := if same then
      match object_identityKey baseline with
      | Some _ => baseline
      | None => mkProfile (object_identity baseline) (object_device baseline) (object_certificate baseline)
                  (local_identityKey candidate) (object_deviceKey baseline)
      end
    else objectOf candidate in
  candidateText ← serialize profile;
  let plan := mkPlan previous candidateText (planPublic profile)
    (match previous with None | Some [] => None | Some raw => Some (backupKey (object_identity baseline).["personId"], raw) end) in
  ensureCurrent h changed;;
  (match commit with
   | Some commit => commit plan (ensureCurrent h changed)
   | None => replaceDurable h changed plan (gone current)
   end);;
  ensureCurrent h changed;;
  handle ← if keepsObject then mret current else newObject profile;
  setActive (Some handle);;
  mret handle.

(** ** Renewing and renaming *)
Definition renewDevice (bootName : list N) : M World nat :=
  current ← bootstrap bootName;
  profile ← objectAt current;
  match object_identityKey profile with
  | None => throwM "Use Add your device from another authorized device to renew this device"
  | Some rootKey =>
      key ← generateKey false;
      profile ← objectAt current;
      let publicKey := toBase64Url (ed_public key) in
      let deviceId := sha256Base64Url (ed_public key) in
      certificate ← liftM (signEnvelope rootKey (Obj
        [(js "kind", Str (js "device-certificate")); (js "version", Num (Int 1)); (js "personId", (object_identity profile).["personId"]);
         (js "deviceId", Str deviceId); (js "devicePublicKey", Str publicKey); (js "issuerCertificateHash", Null);
         (js "canEnrollDevices", Bool true)]) (toText (object_identity profile).["personId"]) (signatureDomain options));
      pause;;
      profile ← objectAt current;
      let renewed := mkProfile (object_identity profile)
        (setField (js "publicKey") (Str publicKey) (setField (js "deviceId") (Str deviceId) (object_device profile)))
        certificate (object_identityKey profile) key in
      previous ← get (storageKey options);
      profile ← objectAt current;
      (match previous with
       | None | Some [] => mret tt
       | Some raw => set (storageKey options ++ js ".backup.device." ++ toText (object_device profile).["deviceId"]) raw true
       end);;
      install renewed
  end.

Definition renamedProfile (clean : list N) (profile : ProfileObject) : ProfileObject :=
  let defaultName := toText (object_identity profile).["displayName"] ++ js "'s device" in
  mkProfile (withName (Str clean) (object_identity profile))
    (if isStr defaultName (object_device profile).["displayName"] then withName (Str (deviceName clean)) (object_device profile) else object_device profile)
    (object_certificate profile) (object_identityKey profile) (object_deviceKey profile).

Definition rename (name bootName : list N) (commit : option Commit) : M World nat :=
  let clean := trim name in
  requireM (negb (length clean =? 0)%nat && (length clean <=? 256)%nat) "Identity name must be between 1 and 256 characters";;
  current ← bootstrap bootName;
  match commit with
  | Some commit =>
      let changed := "Identity changed during rename"%string in
      h ← hold current;
      previous ← get (storageKey options);
      ensureCurrent h changed;;
      matches ← liftM (savedMatches previous h);
      (if (matches : bool) then mret tt else forget current "Durable identity changed before rename");;
      profile ← objectAt current;
      let renamed := renamedProfile clean profile in
      text ← serialize renamed;
      ensureCurrent h changed;;
      commit (mkPlan previous text (planPublic renamed) None) (ensureCurrent h changed);;
      ensureCurrent h changed;;
      handle ← newObject renamed;
      setActive (Some handle);;
      mret handle
  | None => profile ← objectAt current; install (renamedProfile clean profile)
  end.

(** ** Adoption *)
Definition adoptedProfile (identity certificate : value) (h : Held) (current : ProfileObject) : ProfileObject :=
  mkProfile identity (object_device current) certificate
    (if strictEqual (object_identity current).["personId"] identity.["personId"] then held_identityKey h else None) (held_deviceKey h).

Definition adopt (identity certificate : value) (bootName : list N) (commit : option Commit) : M World nat :=
  let changed := "Identity changed during adoption"%string in
  current ← bootstrap bootName;
  h ← hold current;
  previous ← get (storageKey options);
  ensureCurrent h changed;;
  matches ← liftM (savedMatches previous h);
  (if (matches : bool) then mret tt else forget current "Durable identity changed before adoption");;
  profile ← objectAt current;
  let backup := (backupKey (object_identity profile).["personId"], default [] previous) in
  match commit with
  | Some commit =>
      let adopted := adoptedProfile identity certificate h profile in
      text ← serialize adopted;
      ensureCurrent h changed;;
      commit (mkPlan previous text (planPublic adopted) (Some backup)) (ensureCurrent h changed);;
      ensureCurrent h changed;;
      handle ← newObject adopted;
      setActive (Some handle);;
      mret handle
  | None =>
      set backup.1 backup.2 true;;
      profile ← objectAt current;
      install (adoptedProfile identity certificate h profile)
  end.

(** The submitted device, its certificate and its chain belong together, and
    its private key signs for the certified one. *)
Definition checkEnrolled (submitted : ProfileObject) (certificates : list value) (challenge : list N) : result unit :=
  match object_identityKey submitted with
  | Some _ => Throw "Enrolled device profile must not include the Identity root key"
  | None =>
      let device := object_device submitted in
      payload ← Js.get (js "payload") (object_certificate submitted);
      deviceId ← Js.get (js "deviceId") payload;
      let mismatch := "Enrolled device profile does not match its certificate chain"%string in
      if negb (strictEqual deviceId device.["deviceId"]) || negb (strictEqual payload.["devicePublicKey"] device.["publicKey"]) ||
         negb (strictEqual payload.["personId"] (object_identity submitted).["personId"]) || negb (truthy payload.["canEnrollDevices"])
      then Throw mismatch else
      found ← findDevice device.["deviceId"] certificates;
      foundText ← canonicalizeJson (default Undefined found);
      certificateText ← canonicalizeJson (object_certificate submitted);
      if negb (bool_decide (foundText = certificateText)) then Throw mismatch else
      person ← identityOf (object_identity submitted);
      certified ← match device.["deviceId"] with
                  | Str id => verifyDeviceCertificateChain person (signatureDomain options) id certificates
                  | _ => Throw "Invalid device certificate"
                  end;
      if negb (strictEqual certified device.["publicKey"]) then Throw "Enrolled device key does not match its certificate" else
      proof ← signEnvelope (object_deviceKey submitted)
        (Obj [(js "kind", Str (js "mesh-enrolled-device-key-check")); (js "challenge", Str (toBase64Url challenge))])
        (toText device.["deviceId"]) (signatureDomain options);
      verified ← verifyEnvelope proof device.["publicKey"] (signatureDomain options);
      if (verified : bool) then Ok tt else Throw "Enrolled device private key does not match its certificate"
  end.

Definition requireNone : M World unit :=
  raw ← get (storageKey options); requireM (bool_decide (raw = None)) "Durable identity changed before device adoption".
Definition requireInactive : M World unit :=
  w ← getM; requireM (bool_decide (active w = None)) "Identity changed during device adoption".

Definition adoptEnrolledDevice (submitted : ProfileObject) (certificates : list value) (consent : bool) (bootName : list N)
    (commit : option Commit) : M World nat :=
  let changed := "Identity changed during device adoption"%string in
  n ← tick;
  liftM (checkEnrolled submitted certificates (random env n));;
  pause;;
  let adopted := mkProfile (object_identity submitted) (object_device submitted) (object_certificate submitted) None (object_deviceKey submitted) in
  previous ← get (storageKey options);
  w ← getM;
  if (match previous with None | Some [] => true | _ => false end) && bool_decide (active w = None) then
    requireM consent "Adopting this Identity requires explicit consent";;
    text ← serialize adopted;
    requireNone;;
    (match commit with
     | Some commit => commit (mkPlan None text (planPublic adopted) None) requireInactive
     | None => requireNone;; set (storageKey options) text true
     end);;
    requireInactive;;
    handle ← newObject adopted;
    setActive (Some handle);;
    mret handle
  else
    current ← bootstrap bootName;
    h ← hold current;
    durableCurrent ← get (storageKey options);
    ensureCurrent h changed;;
    requireM consent "Replacing this browser's current identity requires explicit consent";;
    matches ← liftM (savedMatches durableCurrent h);
    (if (matches : bool) then mret tt else forget current "Durable identity changed before device adoption");;
    text ← serialize adopted;
    profile ← objectAt current;
    let plan := mkPlan durableCurrent text (planPublic adopted) (Some (backupKey (object_identity profile).["personId"], default [] durableCurrent)) in
    ensureCurrent h changed;;
    (match commit with
     | Some commit => commit plan (ensureCurrent h changed)
     | None =>
         set (backupKey (object_identity profile).["personId"]) (default [] durableCurrent) true;;
         ensureCurrent h changed;;
         again ← get (storageKey options);
         requireM (bool_decide (again = durableCurrent)) "Durable identity changed before device adoption";;
         set (storageKey options) text true
     end);;
    ensureCurrent h changed;;
    handle ← newObject adopted;
    setActive (Some handle);;
    mret handle.
End Store.

(** ** The stored profile is never lost *)

Section Lost.
Context `{Sha256} `{Ed25519} `{!SeedKeys} `{!EqDecision CryptoKey}.
Variable options : StoreOptions.
Variable env : Environment.
Hypothesis Hasync : backend options = AsyncStorage.
Hypothesis Halone : forall n w, interfere env n w = w.
Variable old : list N.
Hypothesis Hold : old <> [].

Definition intact (w : World) : Prop := map_get (storageKey options) (durable w) = Some old.
Definition backedUp (w : World) : Prop := exists suffix, map_get (storageKey options ++ js ".backup." ++ suffix) (durable w) = Some old.
Definition kept (w : World) : Prop := intact w \/ backedUp w.

(** Leaves durable storage alone. *)
Definition frozen {A} (m : M World A) : Prop := forall w, durable (m w).2 = durable w.

Lemma frozen_bind {A B} (m : M World A) (f : A -> M World B) : frozen m -> (forall a, frozen (f a)) -> frozen (m ≫= f).
Proof. intros Hm Hf w. unfold mbind, M_bind. specialize (Hm w). destruct (m w) as [[a|e] w1]; cbn in *; [by rewrite Hf|done]. Qed.

Lemma frozen_triple {A} (m : M World A) (P : World -> Prop) :
  (forall w w', durable w' = durable w -> P w -> P w') -> frozen m -> triple P m (fun _ => P) P.
Proof. intros HP Hm w Hw. specialize (Hm w). destruct (m w) as [[a|e] w']; cbn in Hm; by eapply HP. Qed.

Lemma intact_durable w w' : durable w' = durable w -> intact w -> intact w'.
Proof. unfold intact. by intros ->. Qed.
Lemma backedUp_durable w w' : durable w' = durable w -> backedUp w -> backedUp w'.
Proof. unfold backedUp. by intros ->. Qed.

Lemma frozen_pause : frozen (pause env).
Proof. intros w. cbn. by rewrite Halone. Qed.
Lemma frozen_ret {A} (a : A) : frozen (mret a).
Proof. done. Qed.
Lemma frozen_lift {A} (r : result A) : frozen (liftM r).
Proof. done. Qed.
Lemma frozen_throw {A} e : frozen (throwM e : M World A).
Proof. done. Qed.
Lemma frozen_getM : frozen getM.
Proof. done. Qed.
Lemma frozen_tick : frozen tick.
Proof. done. Qed.
Lemma frozen_require b e : frozen (requireM b e).
Proof. done. Qed.
Lemma frozen_active profile : frozen (setActive profile).
Proof. done. Qed.
Lemma frozen_object handle : frozen (objectAt handle).
Proof. intros w. unfold objectAt. by destruct (objects w !! handle). Qed.
Lemma frozen_new profile : frozen (newObject profile).
Proof. done. Qed.
Lemma frozen_booting b : frozen (setBooting b).
Proof. done. Qed.
Lemma frozen_ensure h message : frozen (ensureCurrent h message).
Proof. intros w. unfold ensureCurrent. repeat case_match; done. Qed.

Ltac solve_frozen :=
  repeat first
    [ apply frozen_pause | apply frozen_ret | apply frozen_lift | apply frozen_throw | apply frozen_getM | apply frozen_tick
    | apply frozen_require | apply frozen_active | apply frozen_object | apply frozen_new | apply frozen_booting | apply frozen_ensure
    | apply frozen_bind; [|intros ?] | case_match ].

Lemma frozen_hold current : frozen (hold current).
Proof. unfold hold. solve_frozen. Qed.
Lemma frozen_serialize profile : frozen (serialize env profile).
Proof. unfold serialize. solve_frozen. Qed.
Lemma frozen_forget current message : frozen (forget current message).
Proof. unfold forget, clearMemory. solve_frozen. Qed.
Lemma frozen_get key : frozen (get options env key).
Proof. unfold get. solve_frozen. Qed.

(** What a read finds is what is there. *)
Lemma get_finds (P : World -> Prop) key :
  (forall w w', durable w' = durable w -> P w -> P w') ->
  triple P (get options env key) (fun found w => P w /\ found = map_get key (durable w)) P.
Proof.
  intros HP w Hw. pose proof (frozen_get key w) as Hf. unfold get, tick, getM, mbind, M_bind in *. cbn in *. rewrite Hasync in *.
  destruct (storage_fails env (ticks w)) as [e|]; cbn in *; [by eapply HP|]. rewrite Halone in *. cbn in *.
  split; [by eapply HP|done].
Qed.

(** A strict write stores the text, or throws and may have stored it. *)
Lemma set_stores (P : World -> Prop) key v :
  triple P (set options env key v true) (fun _ w => exists w0, P w0 /\ durable w = map_set key v (durable w0)) (fun w => exists w0, P w0 /\ (durable w = durable w0 \/ durable w = map_set key v (durable w0))).
Proof.
  intros w Hw. unfold set, tick, mbind, M_bind. cbn. rewrite Hasync.
  destruct (storage_fails env (ticks w)) as [e|]; cbn; [|exists w; by rewrite Halone].
  destruct (storage_applies env (ticks w)); cbn; exists w; auto.
Qed.

Lemma backup_other suffix : storageKey options ++ js ".backup." ++ suffix <> storageKey options.
Proof. intros He. apply (f_equal length) in He. rewrite !length_app in He. cbn in He. lia. Qed.

(** Writing the old text under a backup key keeps it in both places. *)
Lemma set_backup suffix :
  triple intact (set options env (storageKey options ++ js ".backup." ++ suffix) old true) (fun _ w => intact w /\ backedUp w) kept.
Proof.
  assert (forall w w0, intact w0 -> durable w = map_set (storageKey options ++ js ".backup." ++ suffix) old (durable w0) -> intact w) as Hstill.
  { intros w w0 Hw0 Hd. unfold intact. rewrite Hd, map_get_set. by rewrite bool_decide_eq_false_2 by apply backup_other. }
  eapply triple_post; [apply (set_stores intact)|..].
  - intros [] w (w0 & Hw0 & Hd). split; [by eapply Hstill|]. exists suffix. rewrite Hd, map_get_set. by rewrite bool_decide_eq_true_2.
  - intros w (w0 & Hw0 & [Hd|Hd]); left; [by eapply intact_durable|by eapply Hstill].
Qed.

Lemma set_main v : triple backedUp (set options env (storageKey options) v true) (fun _ => backedUp) kept.
Proof.
  assert (forall w w0, backedUp w0 -> durable w = map_set (storageKey options) v (durable w0) -> backedUp w) as Hstill.
  { intros w w0 [suffix Hw0] Hd. exists suffix. rewrite Hd, map_get_set. rewrite bool_decide_eq_false_2; [done|].
    intros He. by apply (backup_other suffix). }
  eapply triple_post; [apply (set_stores backedUp)|..].
  - intros [] w (w0 & Hw0 & Hd). by eapply Hstill.
  - intros w (w0 & Hw0 & [Hd|Hd]); right; [by eapply backedUp_durable|by eapply Hstill].
Qed.

Lemma kept_durable w w' : durable w' = durable w -> kept w -> kept w'.
Proof. intros Hd [Hi|Hb]; [left; by eapply intact_durable|right; by eapply backedUp_durable]. Qed.

Definition readable : Prop := requirePersistence options = true /\ exists profile, readProfile old = Ok (Some profile).

(** The profile is in memory, or starting reads it from storage. *)
Definition ready (w : World) : Prop := intact w /\ (active w <> None \/ readable).

Lemma load_intact : readable -> triple intact (load options env) (fun found w => intact w /\ exists handle, found = Some handle) intact.
Proof.
  intros [Hreq (profile & Hread)] w Hw. unfold load. rewrite Hreq.
  match goal with |- context [(get options env (storageKey options) ≫= ?f) w] =>
    assert (triple intact (get options env (storageKey options) ≫= f) (fun found w => intact w /\ exists handle, found = Some handle) intact) as Hbody end.
  { eapply triple_bind; [apply (get_finds intact); apply intact_durable|]. intros found w1 [Hw1 ->]. rewrite Hw1.
    destruct old as [|u rest] eqn:Heq; [done|]. rewrite <-Heq in *. rewrite Hread. unfold liftM. unfold mbind, M_bind, pause, newObject. cbn. rewrite Halone. cbn.
    split; [by eapply intact_durable|eauto]. }
  specialize (Hbody w Hw). revert Hbody.
  match goal with |- context [(get options env (storageKey options) ≫= ?f) w] => by destruct ((get options env (storageKey options) ≫= f) w) as [[found|e] w'] end.
Qed.

Lemma bootstrap_intact name w : intact w -> active w <> None \/ readable ->
  match bootstrap options env name w with (Ok _, w') => intact w' | (Throw _, w') => intact w' end.
Proof.
  intros Hw Hready. unfold bootstrap. destruct (active w) as [handle|] eqn:Ha.
  - apply (frozen_triple _ intact intact_durable); [solve_frozen|done].
  - destruct Hready as [?|Hread]; [done|]. destruct (booting w).
    + apply (frozen_triple _ intact intact_durable); [solve_frozen|done].
    + match goal with |- context [(setBooting true ≫= ?f) w] => assert (triple intact (setBooting true ≫= f) (fun _ => intact) intact) as Hb end.
      { eapply triple_bind; [apply (frozen_triple _ intact intact_durable); solve_frozen|intros ?].
        eapply triple_bind; [|intros handle; apply (frozen_triple _ intact intact_durable); solve_frozen].
        unfold bootWith. eapply triple_bind; [by apply load_intact|]. intros found w1 [Hw1 [handle ->]].
        by apply (frozen_triple _ intact intact_durable); [solve_frozen|]. }
      specialize (Hb w Hw). revert Hb.
      match goal with |- context [(setBooting true ≫= ?f) w] => destruct ((setBooting true ≫= f) w) as [[handle|e] w'] end; by apply intact_durable.
Qed.

Lemma install_kept profile : triple backedUp (install options env profile) (fun _ => kept) kept.
Proof.
  unfold install. eapply (triple_bind _ _ _ (fun _ => kept)); [|intros ?; eapply triple_post;
    [apply (frozen_triple _ kept kept_durable); solve_frozen|done|done]].
  intros w Hw. unfold persist. cbn [orb].
  assert (triple backedUp (text ← serialize env profile; set options env (storageKey options) text true) (fun _ => kept) kept) as Hp.
  { eapply triple_bind; [eapply triple_post; [apply (frozen_triple _ backedUp backedUp_durable), frozen_serialize|done|by right]|].
    intros text. eapply triple_post; [apply set_main|by right|done]. }
  specialize (Hp w Hw). revert Hp. match goal with |- context [(serialize env profile ≫= ?f) w] =>
    by destruct ((serialize env profile ≫= f) w) as [[[]|e] w'] end.
Qed.

(** A step that leaves storage alone, in a proof that ends with the old text kept. *)
Lemma step_intact {A B} (m : M World A) (f : A -> M World B) :
  frozen m -> (forall a, triple intact (f a) (fun _ => kept) kept) -> triple intact (m ≫= f) (fun _ => kept) kept.
Proof.
  intros Hm Hf. eapply triple_bind; [|exact Hf]. eapply triple_post; [by apply (frozen_triple _ intact intact_durable)|done|by left].
Qed.

Lemma read_intact {B} (f : option (list N) -> M World B) :
  triple intact (f (Some old)) (fun _ => kept) kept -> triple intact (get options env (storageKey options) ≫= f) (fun _ => kept) kept.
Proof.
  intros Hf. eapply triple_bind; [eapply triple_post; [apply (get_finds intact); apply intact_durable|done|by left]|].
  intros found w [Hw ->]. rewrite Hw. by apply Hf.
Qed.

Lemma boot_intact {B} name (f : nat -> M World B) :
  (forall current, triple intact (f current) (fun _ => kept) kept) ->
  triple ready (bootstrap options env name ≫= f) (fun _ => kept) kept.
Proof.
  intros Hf w [Hw Hready]. pose proof (bootstrap_intact name w Hw Hready) as Hb. unfold mbind, M_bind.
  destruct (bootstrap options env name w) as [[current|e] w']; [by apply Hf|by left].
Qed.

Lemma ready_frozen {A B} (m : M World A) (f : A -> M World B) :
  (forall w, durable (m w).2 = durable w /\ active (m w).2 = active w) ->
  (forall a, triple ready (f a) (fun _ => kept) kept) ->
  triple ready (m ≫= f) (fun _ => kept) kept.
Proof.
  intros Hm Hf w [Hw Hready]. unfold mbind, M_bind. destruct (Hm w) as [Hd Ha]. destruct (m w) as [[a|e] w1]; cbn in Hd, Ha.
  - apply Hf. split; [by eapply intact_durable|by rewrite Ha].
  - left. by eapply intact_durable.
Qed.

Lemma step_kept {A} (m : M World A) : frozen m -> triple kept m (fun _ => kept) kept.
Proof. apply (frozen_triple _ kept kept_durable). Qed.

Lemma set_backup_then {B} suffix (m : M World B) : triple backedUp m (fun _ => kept) kept ->
  triple intact (set options env (storageKey options ++ js ".backup." ++ suffix) old true ≫= fun _ => m) (fun _ => kept) kept.
Proof. intros Hm. eapply triple_bind; [apply set_backup|]. intros _ w [_ Hb]. by apply Hm. Qed.

Lemma step_backed {A B} (m : M World A) (f : A -> M World B) :
  frozen m -> (forall a, triple backedUp (f a) (fun _ => kept) kept) -> triple backedUp (m ≫= f) (fun _ => kept) kept.
Proof. intros Hm Hf. eapply triple_bind; [eapply triple_post; [by apply (frozen_triple _ backedUp backedUp_durable)|done|by right]|exact Hf]. Qed.

Lemma adopt_kept identity certificate name :
  triple ready (adopt options env identity certificate name None) (fun _ => kept) kept.
Proof.
  unfold adopt. cbv zeta. apply boot_intact. intros current. apply step_intact; [apply frozen_hold|intros h]. apply read_intact.
  apply step_intact; [solve_frozen|intros _]. apply step_intact; [solve_frozen|intros matches].
  apply step_intact; [destruct matches; [solve_frozen|apply frozen_forget]|intros _]. apply step_intact; [solve_frozen|intros profile].
  cbn [fst snd default from_option id]. unfold backupKey. apply set_backup_then.
  apply step_backed; [solve_frozen|intros live]. apply install_kept.
Qed.

Lemma ready_read {B} (f : option (list N) -> M World B) :
  triple ready (f (Some old)) (fun _ => kept) kept ->
  triple ready (get options env (storageKey options) ≫= f) (fun _ => kept) kept.
Proof.
  intros Hf w [Hw Hready]. unfold mbind, M_bind.
  assert (active (get options env (storageKey options) w).2 = active w) as Ha.
  { unfold get, tick, getM, mbind, M_bind. cbn. rewrite Hasync. destruct (storage_fails env (ticks w)); cbn; by rewrite ?Halone. }
  pose proof (get_finds intact (storageKey options) intact_durable w Hw) as Hg.
  destruct (get options env (storageKey options) w) as [[found|e] w1]; cbn in Ha; [|by left]. destruct Hg as [Hw1 ->].
  rewrite Hw1. apply Hf. split; [done|by rewrite Ha].
Qed.

Lemma old_nonempty {A} (a b : A) : match old with [] => a | _ => b end = b.
Proof. by destruct old. Qed.

Lemma enrolled_kept submitted certificates consent name :
  triple ready (adoptEnrolledDevice options env submitted certificates consent name None) (fun _ => kept) kept.
Proof.
  unfold adoptEnrolledDevice. cbv zeta. apply ready_frozen; [done|intros n]. apply ready_frozen; [done|intros _].
  apply ready_frozen; [intros w; cbn; by rewrite Halone|intros _]. apply ready_read.
  apply ready_frozen; [done|intros w0]. rewrite (old_nonempty true false). cbn [andb].
  apply boot_intact. intros current. apply step_intact; [apply frozen_hold|intros h]. apply read_intact.
  apply step_intact; [solve_frozen|intros _]. apply step_intact; [solve_frozen|intros _]. apply step_intact; [solve_frozen|intros matches].
  apply step_intact; [destruct matches; [solve_frozen|apply frozen_forget]|intros _]. apply step_intact; [apply frozen_serialize|intros text].
  apply step_intact; [solve_frozen|intros profile]. apply step_intact; [solve_frozen|intros _].
  eapply (triple_bind _ _ _ (fun _ => kept)); [|intros []; apply step_kept; solve_frozen].
  cbn [default from_option id]. unfold backupKey. apply set_backup_then.
  apply step_backed; [solve_frozen|intros _]. apply step_backed; [apply frozen_get|intros again]. apply step_backed; [solve_frozen|intros _].
  eapply triple_post; [apply set_main|by right|done].
Qed.

Lemma replace_kept h changed suffix candidate shown gone : frozen gone ->
  triple intact (replaceDurable options env h changed
    (mkPlan (Some old) candidate shown (Some (storageKey options ++ js ".backup." ++ suffix, old))) gone) (fun _ => kept) kept.
Proof.
  intros Hgone. unfold replaceDurable. cbn [plan_backup plan_previous plan_candidate]. apply set_backup_then.
  apply step_backed; [solve_frozen|intros _]. apply step_backed; [apply frozen_get|intros before]. apply step_backed; [solve_frozen|intros _].
  apply step_backed; [case_bool_decide; [solve_frozen|done]|intros _]. eapply triple_post; [apply set_main|by right|done].
Qed.

Lemma frozen_guard starting message : frozen (startGuard starting message).
Proof. unfold startGuard. solve_frozen. Qed.

Lemma guard_active starting message w : active (startGuard starting message w).2 = active w.
Proof. unfold startGuard, ensureCurrent. repeat case_match; done. Qed.

Lemma hold_active current w : active (hold current w).2 = active w.
Proof. unfold hold, objectAt, mbind, M_bind, getM. repeat (case_match; cbn in *; simplify_eq/=; try done). Qed.

Lemma restore_kept `{Words} `{Wrapping} envelope recoveryKey name entropy bootName :
  triple ready (restoreEnvelope options env envelope recoveryKey name entropy bootName None) (fun _ => kept) kept.
Proof.
  unfold restoreEnvelope. cbv zeta. apply ready_frozen; [done|intros w0].
  apply ready_frozen; [|intros starting].
  { intros w. destruct (active w0) as [handle|]; [|done]. pose proof (frozen_hold handle w). pose proof (hold_active handle w).
    unfold mbind, M_bind. by destruct (hold handle w) as [[?|?] ?]. }
  apply ready_frozen; [intros w; split; [apply frozen_guard|apply guard_active]|intros _].
  apply boot_intact. intros current. apply step_intact; [apply frozen_guard|intros _]. apply step_intact; [apply frozen_hold|intros h].
  apply step_intact; [solve_frozen|intros baseline]. apply read_intact. apply step_intact; [solve_frozen|intros _].
  apply step_intact; [apply frozen_serialize|intros text]. apply step_intact; [solve_frozen|intros _].
  apply step_intact; [case_bool_decide; [solve_frozen|apply frozen_forget]|intros _]. apply step_intact; [solve_frozen|intros candidate].
  apply step_intact; [solve_frozen|intros _]. apply step_intact; [solve_frozen|intros _]. apply read_intact.
  apply step_intact; [solve_frozen|intros _]. apply step_intact; [case_bool_decide; [solve_frozen|apply frozen_forget]|intros _].
  apply step_intact; [case_match; solve_frozen|intros _]. apply step_intact; [apply frozen_serialize|intros candidateText].
  apply step_intact; [solve_frozen|intros _]. rewrite old_nonempty. unfold backupKey.
  eapply (triple_bind _ _ _ (fun _ => kept)); [apply replace_kept, frozen_forget|intros ?; apply step_kept; solve_frozen].
Qed.

Lemma renew_kept bootName : triple ready (renewDevice options env bootName) (fun _ => kept) kept.
Proof.
  unfold renewDevice. apply boot_intact. intros current. apply step_intact; [solve_frozen|intros profile].
  destruct (object_identityKey profile) as [rootKey|]; [|eapply triple_post; [apply (frozen_triple _ intact intact_durable); solve_frozen|by left|by left]].
  apply step_intact; [unfold generateKey; solve_frozen|intros key]. apply step_intact; [solve_frozen|intros profile1].
  cbv zeta. apply step_intact; [solve_frozen|intros certificate]. apply step_intact; [solve_frozen|intros _].
  apply step_intact; [solve_frozen|intros profile2]. apply read_intact. apply step_intact; [solve_frozen|intros profile3].
  rewrite old_nonempty. change (js ".backup.device." ++ ?x) with (js ".backup." ++ (js "device." ++ x)).
  apply set_backup_then, install_kept.
Qed.
End Lost.

(** ** What is stored is what is read *)
Section Stored.
Context `{Sha256} `{Ed25519} `{!SeedKeys} `{!EqDecision CryptoKey}.

(** A key whose PKCS8 form is bytes that import as the key. *)
Definition portable (key : CryptoKey) : Prop :=
  Forall isByte (exportPkcs8 key) /\ exportPkcs8 key <> [] /\ importPkcs8 (exportPkcs8 key) = Ok key.

(** A profile of plain parts and such keys. *)
Definition storable (profile : ProfileObject) : Prop :=
  plain (object_identity profile) /\ plain (object_device profile) /\ plain (object_certificate profile) /\
  truthy (object_identity profile) /\ truthy (object_device profile) /\
  portable (object_deviceKey profile) /\ (forall key, object_identityKey profile = Some key -> portable key).

Lemma importKey_text key : portable key -> truthy (keyText key) = true /\ plain (keyText key) = true /\ importKey (keyText key) = Ok key.
Proof.
  intros (Hb & Hne & Hi). unfold importKey, keyText. cbn [fromBase64UrlOf]. rewrite from_toBase64Url by done. split_and!; [|by apply Is_true_true, urlChar_units, toBase64Url_chars|done].
  cbn. destruct (toBase64Url (exportPkcs8 key)) eqn:Ht; [|done]. exfalso. apply Hne.
  pose proof (from_toBase64Url _ Hb) as Hf. rewrite Ht in Hf. by apply (inj Ok) in Hf.
Qed.

(** The members that [JSON.stringify] writes. *)
Definition written (profile : ProfileObject) : value :=
  Obj [(js "identity", object_identity profile); (js "device", object_device profile); (js "certificate", object_certificate profile);
       (js "privateKeys", Obj (match object_identityKey profile with Some key => [(js "identityPrivateKeyPkcs8", keyText key)] | None => [] end ++
         [(js "devicePrivateKeyPkcs8", keyText (object_deviceKey profile))]))].

Lemma stringify_written profile : JSON_stringify (serialized profile) = JSON_stringify (written profile).
Proof. unfold serialized, written. by destruct (object_identityKey profile). Qed.

Lemma plain_cons k v ms : units k -> plain v -> Forall (fun kv => units kv.1 /\ plain kv.2) ms ->
  Forall (fun kv => units kv.1 /\ plain kv.2) ((k, v) :: ms).
Proof. intros Hk Hv Hms. by apply Forall_cons. Qed.

Lemma written_plain profile : storable profile -> plain (written profile).
Proof.
  intros (Hi & Hd & Hc & _ & _ & Hdk & Hik). apply importKey_text in Hdk as (_ & Hdk & _). apply Is_true_true in Hdk.
  unfold written. apply plain_obj. split; [|by apply (bool_decide_unpack _)].
  do 4 (apply plain_cons; [exact I|done || idtac|]); [|by apply Forall_nil].
  apply plain_obj. destruct (object_identityKey profile) as [key|]; (split; [|by apply (bool_decide_unpack _)]).
  - destruct (importKey_text key (Hik key eq_refl)) as (_ & Hk & _). apply Is_true_true in Hk.
    do 2 (apply plain_cons; [exact I|done|]). by apply Forall_nil.
  - apply plain_cons; [exact I|done|]. by apply Forall_nil.
Qed.

Lemma written_members profile :
  Js.get (js "identity") (written profile) = Ok (object_identity profile) /\
  (written profile).["device"] = object_device profile /\ (written profile).["certificate"] = object_certificate profile /\
  (written profile).["privateKeys"].["devicePrivateKeyPkcs8"] = keyText (object_deviceKey profile) /\
  (written profile).["privateKeys"].["identityPrivateKeyPkcs8"] = from_option keyText Undefined (object_identityKey profile).
Proof. unfold written. by destruct (object_identityKey profile). Qed.

Lemma read_written profile : storable profile ->
  exists text, JSON_stringify (serialized profile) = Some text /\ text <> [] /\ readProfile text = Ok (Some profile).
Proof.
  intros Hs. destruct (stringify_plain _ (written_plain profile Hs)) as (text & Ht & Hparse).
  exists text. rewrite stringify_written. split; [done|]. split; [by intros ->|].
  unfold readProfile. rewrite Hparse. destruct (written_members profile) as (-> & -> & -> & -> & ->).
  destruct Hs as (_ & _ & _ & Hi%Is_true_true & Hd%Is_true_true & Hdk & Hik). destruct (importKey_text _ Hdk) as (Hdt & _ & Hdi).
  cbn [mbind result_bind]. rewrite Hi, Hd, Hdt. cbn [negb orb]. rewrite Hdi. cbn [mbind result_bind].
  destruct profile as [identity device certificate [key|] deviceKey]; cbn [from_option object_identityKey]; [|done].
  destruct (importKey_text key (Hik key eq_refl)) as (-> & _ & ->). done.
Qed.

Variable options : StoreOptions.
Variable env : Environment.
Hypothesis Hasync : backend options = AsyncStorage.
Hypothesis Halone : forall n w, interfere env n w = w.

Lemma install_stores profile w handle w1 : install options env profile w = (Ok handle, w1) ->
  map_get (storageKey options) (durable w1) = Some (default [] (JSON_stringify (serialized profile))) /\
  active w1 = Some handle /\ objects w1 !! handle = Some profile.
Proof.
  unfold install, persist, serialize, set, pause, tick, newObject, setActive, setDurable, setMemory, modifyM, mbind, M_bind.
  cbn -[JSON_stringify serialized map_set]. rewrite Hasync, !Halone. cbn -[JSON_stringify serialized map_set].
  destruct (storage_fails env _) as [e|]; cbn -[JSON_stringify serialized map_set]; [by destruct (storage_applies env _)|]. rewrite !Halone. cbn -[JSON_stringify serialized map_set].
  intros Heq. apply pair_equal_spec in Heq as [Hh <-]. apply (inj Ok) in Hh as <-. cbn -[JSON_stringify serialized map_set]. rewrite map_get_set.
  rewrite bool_decide_eq_true_2 by done. split_and!; [done|done|]. by rewrite list_lookup_middle.
Qed.

Lemma bootstrap_reads profile n d name : storable profile ->
  map_get (storageKey options) d = Some (default [] (JSON_stringify (serialized profile))) -> storage_fails env n = None ->
  exists w, bootstrap options env name (mkWorld n d [] [] None false) = (Ok 0%nat, w) /\ objects w = [profile] /\ active w = Some 0%nat /\ durable w = d.
Proof.
  intros (text & Ht & Hne & Hread)%read_written Hd Hok. rewrite Ht in Hd. cbn [default from_option id] in Hd.
  eexists. unfold bootstrap, bootWith, load, get, tick, pause, setBooting, setActive, newObject, getM, modifyM, mbind, M_bind. cbn.
  rewrite Hasync, Hok. cbn. rewrite !Halone. cbn. rewrite Hd. cbn. destruct text as [|u text]; [done|]. unfold liftM. rewrite Hread. cbn. rewrite !Halone. cbn.
  split_and!; reflexivity.
Qed.
End Stored.

(** ** Theorems *)
Section Theorems.
Context `{Sha256} `{Ed25519} `{!SeedKeys} `{!EqDecision CryptoKey}.

Lemma triple_kept {A} options old (m : M World A) w :
  triple (ready options old) m (fun _ => kept options old) (kept options old) -> ready options old w -> kept options old (m w).2.
Proof. intros Hm Hw. specialize (Hm w Hw). by destruct (m w) as [[?|?] ?]. Qed.

(** C28. Replacing an identity never loses the stored one, on asynchronous
    storage that nobody else writes and where the store does its own writes (no
    commit callback).  When the stored profile is active in memory, or the store
    requires persistence and the stored text reads as a profile, then whatever the
    arguments, whichever storage access fails, whether or not a failed write took
    effect, and whichever guard throws, after [adopt], [adoptEnrolledDevice],
    [restoreEnvelope] and [renewDevice] the stored text is still the stored profile
    or is stored under a backup key. *)
Theorem identity_replacement_recoverable `{Words} `{Wrapping} (options : StoreOptions) (env : Environment) (old : list N) (w : World) :
  backend options = AsyncStorage -> (forall n w, interfere env n w = w) -> old <> [] -> ready options old w ->
  (forall identity certificate name, kept options old (adopt options env identity certificate name None w).2) /\
  (forall submitted certificates consent name, kept options old (adoptEnrolledDevice options env submitted certificates consent name None w).2) /\
  (forall envelope recoveryKey name entropy bootName,
     kept options old (restoreEnvelope options env envelope recoveryKey name entropy bootName None w).2) /\
  (forall bootName, kept options old (renewDevice options env bootName w).2).
Proof.
  intros Hasync Halone Hne Hw. split_and!; intros; (eapply triple_kept; [|done]).
  - by apply adopt_kept.
  - by apply enrolled_kept.
  - by apply restore_kept.
  - by apply renew_kept.
Qed.

End Theorems.

(** ** A store to run *)
#[local] Existing Instance checksumSha256.
#[local] Existing Instance toyEd25519.
#[local] Existing Instance toySeedKeys.
#[local] Existing Instance toyWords.
#[local] Existing Instance toyWrapping.
#[local] Instance keys_decision : EqDecision CryptoKey := list_eq_dec.

Module Stored.
Definition options (required : bool) : StoreOptions := mkOptions (js "identity") (js "MATCH/1") AsyncStorage required.
Definition environment (fails : nat -> option string) : Environment :=
  mkEnvironment (fun _ w => w) fails (fun n => Nat.even n) (fun n => Ok [N.of_nat n]) (fun _ => repeat 7%N 32) (fun _ => Throw "no other call").
Definition working : Environment := environment (fun _ => None).
(** The first storage access fails, the others work. *)
Definition hiccup : Environment := environment (fun n => if (n =? 0)%nat then Some "InvalidStateError"%string else None).
Definition profile : ProfileObject :=
  mkProfile (object_identity (objectOf (People.profile 1 2))) (object_device (objectOf (People.profile 1 2)))
    (object_certificate (objectOf (People.profile 1 2))) (Some [1%N]) [2%N].
Definition text : list N := default [] (JSON_stringify (serialized profile)).
Definition saved : World := mkWorld 0 [(js "identity", text)] [] [] None false.
Definition empty : World := mkWorld 0 [] [] [] None false.

Lemma key_portable (n : N) : isByte n -> portable (H0 := toyEd25519) [n].
Proof. intros Hn. split_and!; [|discriminate|reflexivity]. repeat (apply Forall_cons; split; [done|]). by apply Forall_nil. Qed.

Lemma profile_storable : storable profile.
Proof.
  unfold storable. split_and!; [vm_compute; exact I..|by apply key_portable|].
  intros key Hkey. apply (inj Some) in Hkey as <-. by apply key_portable.
Qed.

Lemma text_read : text <> [] /\ readProfile text = Ok (Some profile).
Proof. destruct (read_written profile profile_storable) as (t & Ht & Hne & Hr). unfold text. rewrite Ht. done. Qed.
End Stored.

(** Renewing the device of the stored profile replaces the text, and keeps it. *)
Lemma identity_replacement_recoverable_witness :
  (renewDevice (Stored.options true) Stored.working (js "Ada") Stored.saved).1 = Ok 1%nat /\
  map_get (js "identity") (durable (renewDevice (Stored.options true) Stored.working (js "Ada") Stored.saved).2) <> Some Stored.text /\
  kept (Stored.options true) Stored.text (renewDevice (Stored.options true) Stored.working (js "Ada") Stored.saved).2.
Proof.
  split; [vm_compute; reflexivity|]. split; [apply (bool_decide_eq_false_1 _); vm_compute; reflexivity|].
  refine (proj2 (proj2 (proj2 (identity_replacement_recoverable (Stored.options true) Stored.working Stored.text Stored.saved _ _ _ _))) (js "Ada")).
  - reflexivity.
  - reflexivity.
  - apply Stored.text_read.
  - split; [reflexivity|]. right. split; [reflexivity|]. exists Stored.profile. apply Stored.text_read.
Defined.


Lemma map_get_in {V} (key : list N) (v : V) (m : list (list N * V)) : map_get key m = Some v -> v ∈ map snd m.
Proof.
  induction m as [|[k x] m IH]; cbn; [done|]. case_bool_decide; [intros [= ->]; by left|intros Hm; right; auto].
Qed.

(** A start whose first read fails is taken for one with an empty storage:
    without [requirePersistence], [load] swallows the error and [bootstrap] writes
    the profile it then generates over the stored one, which is kept nowhere. *)
Lemma bootstrap_overwrites_unreadable :
  map_get (js "identity") (durable Stored.saved) = Some Stored.text /\
  (bootstrap (Stored.options false) Stored.hiccup (js "Mesh user") Stored.saved).1 = Ok 0%nat /\
  (forall key, map_get key (durable (bootstrap (Stored.options false) Stored.hiccup (js "Mesh user") Stored.saved).2) <> Some Stored.text).
Proof.
  split; [reflexivity|]. split; [vm_compute; reflexivity|]. intros key Hkey%map_get_in. revert Hkey. apply (bool_decide_eq_false_1 _). vm_compute. reflexivity.
Qed.
