(* ===== verification/Contact.v ===== *)
(** * Contact requests and channels

    [packages/mesh-contact/src/index.ts]: a visitor's signed request, the
    owner's signed decision on it, and the channel the two share, a document
    of messages each signed by a device of one of them.  Values that reach the
    package from a peer are taken as they come; the ids and the time a caller
    may leave out are arguments. *)
From stdpp Require Import base numbers list sorting strings.
From Stdlib Require Import ZArith NArith Lia.
From S2P Require Import Prelude Unicode Json Js Base64 Digest Dates Envelope Certificates ProfileValue Profile Recovery Records.
Local Open Scope js_scope.

Definition CONTACT_SIGNATURE_DOMAIN : list N := js "META-MESH/1".
Definition MAX_CONTACT_MESSAGE_LENGTH : nat := 2000.
Definition MAX_CONTACT_RECORD_BYTES : nat := 24 * 1024.
Definition MAX_CONTACT_AGE_MS : Z := 60 * 60 * 1000.
Definition MAX_FUTURE_TOLERANCE_MS : Z := 5 * 60 * 1000.
Definition MAX_CONTACT_MESSAGES : nat := N.to_nat 10000.

Definition normalizeMessage (v : value) : result (list N) :=
  message ← trimOf v;
  if (length message =? 0)%nat || longer MAX_CONTACT_MESSAGE_LENGTH message
  then Throw "Message must contain 1–2,000 characters" else Ok message.

Definition normalizeName (v : value) : result (list N) :=
  trimmed ← trimOf v;
  let name := collapseBlank trimmed in
  if (length name =? 0)%nat || longer 80 name then Throw "Name must contain 1–80 characters" else Ok name.

Definition validateTimestamp (v : value) (now : Z) : result unit :=
  match canonicalTime v with
  | None => Throw "Invalid request timestamp"
  | Some timestamp =>
      if (now + MAX_FUTURE_TOLERANCE_MS <? timestamp)%Z then Throw "Request timestamp is in the future" else
      if (timestamp <? now - MAX_CONTACT_AGE_MS)%Z then Throw "Contact request has expired" else Ok tt
  end.

(** [typeof id === "string" && id && id.length <= 128] *)
Definition boundedId (v : value) : bool :=
  match v with Str id => negb (length id =? 0)%nat && (length id <=? 128)%nat | _ => false end.

(** A record as it travels: the signed payload with the identity and the
    certificates of its signer. *)
Definition party_value (signed : value) (identity : PublicIdentity) (certificates : list value) : value :=
  Obj [(js "signed", signed); (js "identity", identity_value identity); (js "certificates", Arr certificates)].

Section Contact.
Context `{Sha256} `{Ed25519}.

Definition createContactRequest (profile : LocalProfile) (firstMessage : value) (name : option value)
    (certificates : option (list value)) (requestId : list N) (now : Z) : result value :=
  displayName ← normalizeName (default (Str (displayName (local_identity profile))) name);
  message ← normalizeMessage firstMessage;
  createdAt ← stamp now;
  signed ← signEnvelope (local_deviceKey profile) (Obj
    [(js "kind", Str (js "contact-request")); (js "requestId", Str requestId);
     (js "personId", Str (personId (local_identity profile))); (js "deviceId", Str (local_deviceId profile));
     (js "displayName", Str displayName); (js "firstMessage", Str message);
     (js "createdAt", createdAt); (js "version", Num (Int 1))])
    (local_deviceId profile) CONTACT_SIGNATURE_DOMAIN;
  Ok (party_value signed (local_identity profile) (default [local_certificate profile] certificates)).

Definition verifyContactRequest (request : value) (now : Z) : result value :=
  if (MAX_CONTACT_RECORD_BYTES <? byteLength request)%nat then Throw "Contact request too large" else
  let payload := request.["signed"].["payload"] in
  if negb (truthy payload) || negb (isStr (js "contact-request") payload.["kind"]) || negb (isInt 1 payload.["version"]) ||
     negb (boundedId payload.["requestId"]) || negb (isString payload.["personId"]) || negb (isString payload.["deviceId"]) ||
     negb (isString payload.["displayName"])
  then Throw "Invalid contact request" else
  name ← normalizeName payload.["displayName"];
  if negb (isStr name payload.["displayName"]) || negb (isString payload.["firstMessage"])
  then Throw "Invalid contact request" else
  message ← normalizeMessage payload.["firstMessage"];
  if negb (isStr message payload.["firstMessage"]) ||
     negb (strictEqual request.["signed"].["signerKeyId"] payload.["deviceId"]) ||
     negb (strictEqual request.["identity"].["personId"] payload.["personId"])
  then Throw "Invalid contact request" else
  validateTimestamp payload.["createdAt"] now;;
  verifySigned request.["identity"] payload.["deviceId"] request.["certificates"] request.["signed"]
    CONTACT_SIGNATURE_DOMAIN "Invalid contact request signature";;
  Ok request.

Definition requestPayload (request : value) : result value :=
  signed ← get (js "signed") request; payload ← get (js "payload") signed; get (js "requestId") payload;; Ok payload.

Definition createContactDecision (profile : LocalProfile) (request : value) (accepted : bool) (channelSecret : option (list N))
    (certificates : option (list value)) (channelId : list N) (now : Z) : result value :=
  requested ← requestPayload request;
  createdAt ← stamp now;
  if accepted && (length (default [] channelSecret) =? 0)%nat then Throw "Accepted contact needs a channel secret" else
  signed ← signEnvelope (local_deviceKey profile) (Obj
    [(js "kind", Str (js "contact-decision")); (js "version", Num (Int 1));
     (js "requestId", requested.["requestId"]); (js "visitorPersonId", requested.["personId"]);
     (js "ownerPersonId", Str (personId (local_identity profile))); (js "ownerDeviceId", Str (local_deviceId profile));
     (js "accepted", Bool accepted); (js "channelId", if accepted then Str channelId else Undefined);
     (js "channelSecret", if accepted then Str (default [] channelSecret) else Undefined); (js "createdAt", createdAt)])
    (local_deviceId profile) CONTACT_SIGNATURE_DOMAIN;
  Ok (party_value signed (local_identity profile) (default [local_certificate profile] certificates)).

Definition isUndefined (v : value) : bool := match v with Undefined => true | _ => false end.

Definition verifyContactDecision (decision request : value) (now : Z) : result value :=
  if (MAX_CONTACT_RECORD_BYTES <? byteLength decision)%nat then Throw "Contact decision too large" else
  let payload := decision.["signed"].["payload"] in
  if negb (truthy payload) || negb (isStr (js "contact-decision") payload.["kind"]) || negb (isInt 1 payload.["version"])
  then Throw "Invalid contact decision" else
  requested ← requestPayload request;
  if negb (strictEqual payload.["requestId"] requested.["requestId"]) ||
     negb (strictEqual payload.["visitorPersonId"] requested.["personId"]) ||
     negb (isString payload.["ownerPersonId"]) || negb (isString payload.["ownerDeviceId"]) ||
     match payload.["accepted"] with
     | Bool true => negb (truthy payload.["channelId"]) || negb (truthy payload.["channelSecret"])
     | Bool false => negb (isUndefined payload.["channelId"]) || negb (isUndefined payload.["channelSecret"])
     | _ => true
     end ||
     negb (strictEqual decision.["signed"].["signerKeyId"] payload.["ownerDeviceId"]) ||
     negb (strictEqual decision.["identity"].["personId"] payload.["ownerPersonId"])
  then Throw "Invalid contact decision" else
  validateTimestamp payload.["createdAt"] now;;
  verifySigned decision.["identity"] payload.["ownerDeviceId"] decision.["certificates"] decision.["signed"]
    CONTACT_SIGNATURE_DOMAIN "Invalid contact decision signature";;
  Ok decision.

(** ** Messages *)
Definition createContactMessage (profile : LocalProfile) (channelId : list N) (body : value) (messageId : list N) (now : Z)
    : result value :=
  body ← normalizeMessage body;
  createdAt ← stamp now;
  signEnvelope (local_deviceKey profile) (Obj
    [(js "kind", Str (js "contact-message")); (js "version", Num (Int 1)); (js "channelId", Str channelId);
     (js "messageId", Str messageId); (js "authorPersonId", Str (personId (local_identity profile)));
     (js "authorDeviceId", Str (local_deviceId profile)); (js "body", Str body); (js "createdAt", createdAt)])
    (local_deviceId profile) CONTACT_SIGNATURE_DOMAIN.

(** The certificates a channel knows of its owner or of its visitor. *)
Definition partyCertificates (channel : value) (owner : bool) : result (list value) :=
  let party := if owner then channel.["decision"] else channel.["request"] in
  own ← get (js "certificates") party;
  own ← spread own;
  added ← spread (orEmpty (if owner then channel.["ownerCertificates"] else channel.["visitorCertificates"]));
  Ok (own ++ added).

Definition verifyContactMessage (message channel : value) (now : Z) : result unit :=
  let payload := message.["payload"] in
  if negb (truthy payload) || negb (isStr (js "contact-message") payload.["kind"]) || negb (isInt 1 payload.["version"]) ||
     negb (strictEqual payload.["channelId"] channel.["channelId"]) || negb (boundedId payload.["messageId"]) ||
     (negb (strictEqual payload.["authorPersonId"] channel.["ownerPersonId"]) &&
      negb (strictEqual payload.["authorPersonId"] channel.["visitorPersonId"])) ||
     negb (isString payload.["authorDeviceId"]) ||
     negb (strictEqual message.["signerKeyId"] payload.["authorDeviceId"]) || negb (isString payload.["body"])
  then Throw "Invalid contact message" else
  body ← normalizeMessage payload.["body"];
  if negb (isStr body payload.["body"]) then Throw "Invalid contact message" else
  match canonicalTime payload.["createdAt"] with
  | None => Throw "Invalid message timestamp"
  | Some timestamp =>
      if (now + MAX_FUTURE_TOLERANCE_MS <? timestamp)%Z then Throw "Invalid message timestamp" else
      let owner := strictEqual payload.["authorPersonId"] channel.["ownerPersonId"] in
      certificates ← partyCertificates channel owner;
      verifySigned (if owner then channel.["decision"] else channel.["request"]).["identity"] payload.["authorDeviceId"]
        (Arr certificates) message CONTACT_SIGNATURE_DOMAIN "Invalid contact message signature"
  end.

(** ** Channels *)
Definition verifyAlone (identity certificate : value) : result unit :=
  id ← payloadId certificate; verifyDevice identity id (Arr [certificate]);; Ok tt.

Definition createdAtOf (party : value) : result value :=
  signed ← get (js "signed") party; payload ← get (js "payload") signed; get (js "createdAt") payload.

(** What a channel states of its two parties.  A request is checked at the time
    it states; one without a time that reads back fails at any time. *)
Definition verifyParties (channel : value) : result unit :=
  if negb (truthy channel) || negb (isStr (js "contact-channel") channel.["kind"]) || negb (isInt 1 channel.["version"]) ||
     negb (isString channel.["channelId"]) || negb (truthy channel.["channelId"]) ||
     negb (isString channel.["ownerPersonId"]) || negb (isString channel.["visitorPersonId"]) ||
     negb (truthy channel.["request"]) || negb (truthy channel.["decision"]) ||
     negb (truthy channel.["messages"]) || isArray channel.["messages"]
  then Throw "Invalid contact channel" else
  requestTime ← createdAtOf channel.["request"];
  decisionTime ← createdAtOf channel.["decision"];
  request ← verifyContactRequest channel.["request"] (default 0%Z (canonicalTime requestTime));
  decision ← verifyContactDecision channel.["decision"] request (default 0%Z (canonicalTime decisionTime));
  let decided := decision.["signed"].["payload"] in
  if negb (truthy decided.["accepted"]) || negb (strictEqual decided.["channelId"] channel.["channelId"]) ||
     negb (strictEqual decided.["ownerPersonId"] channel.["ownerPersonId"]) ||
     negb (strictEqual request.["signed"].["payload"].["personId"] channel.["visitorPersonId"])
  then Throw "Invalid contact channel binding" else
  owners ← spread (orEmpty channel.["ownerCertificates"]);
  foldR (fun _ => verifyAlone decision.["identity"]) tt owners;;
  visitors ← spread (orEmpty channel.["visitorCertificates"]);
  foldR (fun _ => verifyAlone request.["identity"]) tt visitors.

Definition verifyEntry (channel : value) (now : Z) (entry : list N * value) : result unit :=
  payload ← get (js "payload") entry.2;
  messageId ← get (js "messageId") payload;
  if negb (isStr entry.1 messageId) then Throw "Invalid contact message id" else
  verifyContactMessage entry.2 channel now.

Definition verifyContactChannel (channel : value) (now : Z) : result unit :=
  verifyParties channel;;
  if (MAX_CONTACT_MESSAGES <? length (entries channel.["messages"]))%nat then Throw "Contact channel has too many messages" else
  foldR (fun _ => verifyEntry channel now) tt (entries channel.["messages"]).

Definition contactRequestIdempotencyKey (request : value) : result value :=
  identity ← get (js "identity") request; get (js "personId") identity.

Context `{Automerge}.

Definition channel_value (channelId ownerPersonId visitorPersonId request decision owners visitors : value) : value :=
  Obj [(js "kind", Str (js "contact-channel")); (js "version", Num (Int 1)); (js "channelId", channelId);
       (js "ownerPersonId", ownerPersonId); (js "visitorPersonId", visitorPersonId); (js "request", request);
       (js "decision", decision); (js "ownerCertificates", owners); (js "visitorCertificates", visitors);
       (js "messages", Obj [])].

Definition createContactChannel (requestValue decisionValue : value) (now : Z) : result Doc :=
  request ← verifyContactRequest requestValue now;
  decision ← verifyContactDecision decisionValue request now;
  let decided := decision.["signed"].["payload"] in
  if negb (truthy decided.["accepted"]) || negb (truthy decided.["channelId"])
  then Throw "Only an accepted request can create a channel" else
  requestCopy ← clone request; decisionCopy ← clone decision;
  owners ← clone decision.["certificates"]; visitors ← clone request.["certificates"];
  Ok (change init (channel_value decided.["channelId"] decided.["ownerPersonId"] request.["signed"].["payload"].["personId"]
    requestCopy decisionCopy owners visitors)).

Definition addContactParticipantDeviceCertificate (doc : Doc) (identity certificate : value) : result Doc :=
  let channel := contents doc in
  person ← get (js "personId") identity;
  let owner := strictEqual person channel.["ownerPersonId"] in
  if negb owner && negb (strictEqual person channel.["visitorPersonId"])
  then Throw "Certificate owner is not a channel participant" else
  stated ← get (js "identity") (if owner then channel.["decision"] else channel.["request"]);
  key ← get (js "publicKey") stated;
  if negb (strictEqual key identity.["publicKey"]) then Throw "Channel identity does not match" else
  verifyAlone identity certificate;;
  certificates ← partyCertificates channel owner;
  present ← findDevice (deviceOf certificate) certificates;
  match present with
  | Some _ => Ok doc
  | None =>
      copy ← clone certificate;
      let key := if owner then js "ownerCertificates" else js "visitorCertificates" in
      match getOpt key channel with
      | Arr l => Ok (change doc (setField key (Arr (l ++ [copy])) channel))
      | other => if truthy other then Throw "push is not a function"
                 else Ok (change doc (setField key (Arr [copy]) channel))
      end
  end.

Definition appendContactMessage (doc : Doc) (message : value) (now : Z) : result Doc :=
  let channel := contents doc in
  verifyContactChannel channel now;;
  verifyContactMessage message channel now;;
  match channel.["messages"], message.["payload"].["messageId"] with
  | Obj messages, Str id =>
      if map_has id messages || inherited id then
        stored ← canonicalizeJson (member id messages);
        text ← canonicalizeJson message;
        if map_has id messages && bool_decide (stored = text) then Ok doc else Throw "Message id already exists"
      else
        copy ← clone message;
        Ok (change doc (setField (js "messages") (Obj (map_set id copy messages)) channel))
  | _, _ => Throw "Cannot use 'in' operator"
  end.

Definition mergeContactChannels (local : Doc) (remoteBytes : list N) (now : Z) : result Doc :=
  remote ← load remoteBytes;
  if negb (strictEqual (contents remote).["channelId"] (contents local).["channelId"]) ||
     negb (strictEqual (contents remote).["ownerPersonId"] (contents local).["ownerPersonId"]) ||
     negb (strictEqual (contents remote).["visitorPersonId"] (contents local).["visitorPersonId"])
  then Throw "Contact channel does not match" else
  let candidate := merge local remote in
  verifyContactChannel (contents candidate) now;;
  Ok candidate.

Definition saveContactChannel (doc : Doc) : list N := save doc.
Definition loadContactChannel (bytes : list N) : result Doc := load bytes.
End Contact.

(** ** The timeline *)
Class Collation := {
  (** [a.localeCompare(b)] *)
  localeCompare : list N -> list N -> Z }.

Section Timeline.
Context `{Collation}.

Definition timelineEntry (id author body createdAt : value) (join : bool) : value :=
  Obj [(js "id", id); (js "authorPersonId", author); (js "body", body); (js "createdAt", createdAt); (js "isJoinRequest", Bool join)].

(** [a.createdAt.localeCompare(b.createdAt) || a.id.localeCompare(b.id)], at most zero *)
Definition timelineOrder (a b : value) : bool :=
  let byTime := localeCompare (textOf a.["createdAt"]) (textOf b.["createdAt"]) in
  if (byTime =? 0)%Z then (localeCompare (textOf a.["id"]) (textOf b.["id"]) <=? 0)%Z else (byTime <? 0)%Z.

(** Of a channel that verifies, whose times and ids are texts. *)
Definition contactTimeline (channel : value) : list value :=
  let first := channel.["request"].["signed"].["payload"] in
  sortBy timelineOrder
    (timelineEntry first.["requestId"] first.["personId"] first.["firstMessage"] first.["createdAt"] true ::
     map (fun '(_, message) => let payload := message.["payload"] in
       timelineEntry payload.["messageId"] payload.["authorPersonId"] payload.["body"] payload.["createdAt"] false)
       (entries channel.["messages"])).
End Timeline.

Section Facts.
Context `{Sha256} `{Ed25519}.

(** What the guards of a verified record leave. *)
Lemma string_equal a b : isString b = true -> strictEqual a b = true -> exists s, a = Str s /\ b = Str s.
Proof. destruct b; try done. intros _ ->%strictEqual_str. eauto. Qed.

Lemma request_authentic request now r :
  verifyContactRequest request now = Ok r ->
  r = request /\ request.["identity"].["personId"] = request.["signed"].["payload"].["personId"] /\
  isString request.["signed"].["payload"].["personId"] = true /\
  authentic request.["identity"] request.["signed"].["payload"].["deviceId"] (items request.["certificates"])
    request.["signed"] CONTACT_SIGNATURE_DOMAIN.
Proof.
  unfold verifyContactRequest. guard_passed as Hsize. guard_passed as Hshape. intros (name & _ & Hr)%bind_ok. revert Hr.
  guard_passed as Hname. intros (message & _ & Hr)%bind_ok. revert Hr. guard_passed as Hmessage.
  intros ([] & _ & Hr)%bind_ok. apply bind_ok in Hr as ([] & Hs & [= <-]). bool_to_prop.
  destruct (string_equal (request.["identity"].["personId"]) (request.["signed"].["payload"].["personId"])) as (p & -> & ->); [done..|].
  split_and!; [done..|]. by eapply verifySigned_authentic.
Qed.

Lemma decision_authentic decision request now d :
  verifyContactDecision decision request now = Ok d ->
  let payload := decision.["signed"].["payload"] in
  d = decision /\ decision.["identity"].["personId"] = payload.["ownerPersonId"] /\
  isString payload.["ownerPersonId"] = true /\
  strictEqual payload.["requestId"] request.["signed"].["payload"].["requestId"] = true /\
  strictEqual payload.["visitorPersonId"] request.["signed"].["payload"].["personId"] = true /\
  authentic decision.["identity"] payload.["ownerDeviceId"] (items decision.["certificates"])
    decision.["signed"] CONTACT_SIGNATURE_DOMAIN.
Proof.
  unfold verifyContactDecision. guard_passed as Hsize. guard_passed as Hshape. intros (requested & Hreq & Hr)%bind_ok. revert Hr.
  guard_passed as Hmatch. intros ([] & _ & Hr)%bind_ok. apply bind_ok in Hr as ([] & Hs & [= <-]). cbv zeta.
  assert (request.["signed"].["payload"] = requested) as ->.
  { unfold requestPayload in Hreq. apply bind_ok in Hreq as (s & ->%get_ok & Hreq). apply bind_ok in Hreq as (p & ->%get_ok & Hreq).
    by apply bind_ok in Hreq as (? & _ & [= ->]). }
  bool_to_prop.
  destruct (string_equal (decision.["identity"].["personId"]) (decision.["signed"].["payload"].["ownerPersonId"])) as (p & -> & ->); [done..|].
  split_and!; [done..|]. by eapply verifySigned_authentic.
Qed.

(** A message of a channel: written for it, by its owner or its visitor, on a
    device that the certificates the channel knows lead to that person. *)
Definition channelMessage (channel message : value) : Prop :=
  message.["payload"].["channelId"] = channel.["channelId"] /\
  exists (owner : bool) certificates, partyCertificates channel owner = Ok certificates /\
    message.["payload"].["authorPersonId"] = (if owner then channel.["ownerPersonId"] else channel.["visitorPersonId"]) /\
    authentic (if owner then channel.["decision"] else channel.["request"]).["identity"]
      message.["payload"].["authorDeviceId"] certificates message CONTACT_SIGNATURE_DOMAIN.

Lemma message_authentic message channel now :
  isString channel.["channelId"] = true -> isString channel.["ownerPersonId"] = true -> isString channel.["visitorPersonId"] = true ->
  verifyContactMessage message channel now = Ok tt -> channelMessage channel message.
Proof.
  intros Hc Ho Hv. unfold verifyContactMessage. guard_passed as Hshape. intros (body & _ & Hr)%bind_ok. revert Hr.
  guard_passed as Hbody. destruct (canonicalTime _) as [t|]; [|done]. guard_passed as Ht.
  intros (certificates & Hcert & Hs)%bind_ok. apply verifySigned_authentic in Hs. cbn [items] in Hs. bool_to_prop.
  unfold channelMessage.
  destruct (string_equal (message.["payload"].["channelId"]) (channel.["channelId"])) as (s & -> & ->); [done..|].
  split; [done|]. eexists _, certificates. split; [exact Hcert|]. split; [|exact Hs].
  destruct (strictEqual message.["payload"].["authorPersonId"] channel.["ownerPersonId"]) eqn:Howner.
  - by destruct (string_equal _ _ Ho Howner) as (p & -> & ->).
  - destruct (strictEqual message.["payload"].["authorPersonId"] channel.["visitorPersonId"]) eqn:Hvisitor; [|done].
    by destruct (string_equal _ _ Hv Hvisitor) as (p & -> & ->).
Qed.

Lemma channel_verifies channel now :
  verifyContactChannel channel now = Ok tt <->
  verifyParties channel = Ok tt /\ (length (entries channel.["messages"]) <= MAX_CONTACT_MESSAGES)%nat /\
  forall entry, entry ∈ entries channel.["messages"] -> verifyEntry channel now entry = Ok tt.
Proof.
  unfold verifyContactChannel. rewrite bind_ok, <-foldR_all. split.
  - intros ([] & Hp & Hr). revert Hr. guard_passed as Hl. apply Nat.ltb_ge in Hl. done.
  - intros (Hp & Hl & Hall). exists tt. split; [done|]. apply Nat.ltb_ge in Hl. by rewrite Hl.
Qed.

(** The parties of a verified channel. *)
Record bound (channel : value) : Prop := {
  bound_texts : isString channel.["channelId"] = true /\ isString channel.["ownerPersonId"] = true /\
    isString channel.["visitorPersonId"] = true;
  bound_request : authentic channel.["request"].["identity"] channel.["request"].["signed"].["payload"].["deviceId"]
    (items channel.["request"].["certificates"]) channel.["request"].["signed"] CONTACT_SIGNATURE_DOMAIN;
  bound_decision : authentic channel.["decision"].["identity"] channel.["decision"].["signed"].["payload"].["ownerDeviceId"]
    (items channel.["decision"].["certificates"]) channel.["decision"].["signed"] CONTACT_SIGNATURE_DOMAIN;
  bound_visitor : channel.["request"].["identity"].["personId"] = channel.["visitorPersonId"];
  bound_owner : channel.["decision"].["identity"].["personId"] = channel.["ownerPersonId"];
  bound_accepted : truthy channel.["decision"].["signed"].["payload"].["accepted"] = true;
  bound_channel : channel.["decision"].["signed"].["payload"].["channelId"] = channel.["channelId"];
  bound_answer : strictEqual channel.["decision"].["signed"].["payload"].["requestId"]
    channel.["request"].["signed"].["payload"].["requestId"] = true }.

Lemma parties_bound channel : verifyParties channel = Ok tt -> bound channel.
Proof.
  unfold verifyParties. guard_passed as Hshape. intros (rt & _ & Hr)%bind_ok. apply bind_ok in Hr as (dt & _ & Hr).
  apply bind_ok in Hr as (request & Hreq & Hr). apply bind_ok in Hr as (decision & Hdec & Hr).
  apply request_authentic in Hreq as (-> & Hvisitor & Hvs & Hra). apply decision_authentic in Hdec as (-> & Howner & Hos & Hid & _ & Hda).
  revert Hr. guard_passed as Hbind. intros _. bool_to_prop.
  repeat match goal with He : strictEqual _ channel.[_] = true |- _ => apply string_equal in He as (? & ? & ?); [|done] end.
  split; try done; congruence.
Qed.

Lemma entry_message channel now entry : bound channel -> verifyEntry channel now entry = Ok tt ->
  entry.2.["payload"].["messageId"] = Str entry.1 /\ channelMessage channel entry.2.
Proof.
  intros [(Hc & Ho & Hv) _ _ _ _ _ _ _]. intros (payload & ->%get_ok & Hr)%bind_ok. apply bind_ok in Hr as (id & <-%get_ok & Hr).
  revert Hr. guard_passed as Hid. rewrite negb_false_iff, isStr_true in Hid. intros Hm. split; [done|]. by eapply message_authentic.
Qed.

(** A verification reads of a channel only its own fields. *)
Definition sameButMessages (channel channel' : value) : Prop :=
  truthy channel' = truthy channel /\ forall key, key <> js "messages" -> getOpt key channel' = getOpt key channel.

Lemma sameBut_message channel channel' message now : sameButMessages channel channel' ->
  verifyContactMessage message channel' now = verifyContactMessage message channel now.
Proof.
  intros [_ Hf]. unfold verifyContactMessage, partyCertificates. cbv zeta. by rewrite !Hf by done.
Qed.

Lemma sameBut_parties channel channel' : sameButMessages channel channel' ->
  truthy channel'.["messages"] = truthy channel.["messages"] -> isArray channel'.["messages"] = isArray channel.["messages"] ->
  verifyParties channel' = verifyParties channel.
Proof.
  intros [Ht Hf] Htm Hm. unfold verifyParties. cbv zeta. by rewrite Ht, Htm, Hm, !Hf by done.
Qed.

Lemma set_sameBut ms v : sameButMessages (Obj ms) (setField (js "messages") v (Obj ms)).
Proof. split; [done|]. intros key Hk. rewrite setField_get. by rewrite bool_decide_eq_false_2. Qed.

Lemma messages_object channel messages : channel.["messages"] = Obj messages -> exists ms, channel = Obj ms.
Proof. destruct channel; try done. eauto. Qed.

Context `{Automerge}.

(** An append returns the document as it is, where it holds the message
    already, or with the message as its last. *)
Lemma append_cases doc message now doc' :
  plain message -> appendContactMessage doc message now = Ok doc' ->
  exists messages id, (contents doc).["messages"] = Obj messages /\ message.["payload"].["messageId"] = Str id /\
    verifyContactChannel (contents doc) now = Ok tt /\ verifyContactMessage message (contents doc) now = Ok tt /\
    ((doc' = doc /\ map_has id messages = true /\ canonicalizeJson (member id messages) = canonicalizeJson message) \/
     (map_has id messages = false /\
      contents doc' = setField (js "messages") (Obj (messages ++ [(id, message)])) (contents doc))).
Proof.
  intros Hp. unfold appendContactMessage. intros ([] & Hc & Hr)%bind_ok. apply bind_ok in Hr as ([] & Hm & Hr).
  destruct (contents doc).["messages"] as [| | | | | |messages]; try done.
  destruct message.["payload"].["messageId"] as [| | | |id| |]; try done. exists messages, id. do 4 (split; [done|]).
  destruct (map_has id messages) eqn:Hhas; cbn [orb] in Hr.
  - left. apply bind_ok in Hr as (stored & Hst & Hr). apply bind_ok in Hr as (text & Ht & Hr).
    cbn [andb] in Hr. case_bool_decide; [|done]. injection Hr as <-. split_and!; [done..|congruence].
  - right. destruct (inherited id).
    + apply bind_ok in Hr as (stored & _ & Hr). by apply bind_ok in Hr as (text & _ & Hr).
    + rewrite clone_plain in Hr by done. injection Hr as <-. rewrite contents_change, map_set_fresh by done. done.
Qed.

Lemma appended_verifies channel messages id message now :
  channel.["messages"] = Obj messages -> message.["payload"].["messageId"] = Str id ->
  verifyContactChannel channel now = Ok tt -> verifyContactMessage message channel now = Ok tt ->
  let channel' := setField (js "messages") (Obj (messages ++ [(id, message)])) channel in
  verifyParties channel' = Ok tt /\ forall entry, entry ∈ messages ++ [(id, message)] -> verifyEntry channel' now entry = Ok tt.
Proof.
  intros Hms Hid (Hp & _ & Hall)%channel_verifies Hm. destruct (messages_object _ _ Hms) as [ms ->]. cbv zeta.
  set (channel' := setField _ _ _). pose proof (set_sameBut ms (Obj (messages ++ [(id, message)]))) as Hsame.
  change (setField _ _ _) with channel' in Hsame. split.
  - rewrite (sameBut_parties (Obj ms)); [done|done|..]; unfold channel'; rewrite setField_get, bool_decide_eq_true_2, Hms by done; done.
  - intros entry [Hin|Hin%list_elem_of_singleton]%elem_of_app.
    + unfold verifyEntry. rewrite (sameBut_message (Obj ms)) by done. rewrite Hms in Hall. by apply Hall.
    + subst entry. unfold verifyEntry. cbn [fst snd]. rewrite (sameBut_message (Obj ms)) by done. rewrite Hm.
      assert (exists payload, get (js "payload") message = Ok payload /\ get (js "messageId") payload = Ok (Str id)) as (payload & Hg & Hg').
      { destruct message as [| | | | | |mm]; try done. cbn [get getOpt] in *. eexists. split; [done|].
        by destruct (member (js "payload") mm); cbn [get getOpt] in *; rewrite ?Hid. }
      rewrite Hg. cbn [mbind result_bind]. rewrite Hg'. cbn [mbind result_bind isStr]. by rewrite bool_decide_eq_true_2.
Qed.
End Facts.

(** At the limit a channel takes one more message, and then never verifies again. *)
Theorem contact_append_past_limit `{Sha256} `{Ed25519} `{Automerge} doc message now doc' later :
  plain message -> appendContactMessage doc message now = Ok doc' -> contents doc' <> contents doc ->
  length (entries (contents doc).["messages"]) = MAX_CONTACT_MESSAGES ->
  verifyContactChannel (contents doc') later = Throw "Contact channel has too many messages".
Proof.
  intros Hp Happ Hne Hlen. destruct (append_cases _ _ _ _ Hp Happ) as (messages & id & Hms & Hid & Hc & Hm & [(-> & _)|(_ & He)]); [done|].
  destruct (appended_verifies _ _ _ _ _ Hms Hid Hc Hm) as [Hparties _]. rewrite <-He in Hparties.
  unfold verifyContactChannel. rewrite Hparties. cbn [mbind result_bind].
  assert ((contents doc').["messages"] = Obj (messages ++ [(id, message)])) as ->.
  { rewrite He, setField_get. by rewrite bool_decide_eq_true_2. }
  rewrite Hms in Hlen. cbn [entries] in *. rewrite length_app, Hlen. cbn [length].
  by rewrite (proj2 (Nat.ltb_lt _ _)) by lia.
Qed.

Module ContactSample.
#[local] Existing Instance checksumSha256.
#[local] Existing Instance toyEd25519.
#[local] Existing Instance plainAutomerge.

Definition visitor : LocalProfile := People.profile 1 2.
Definition owner : LocalProfile := People.profile 5 6.
Definition request : value := Eval vm_compute in People.orUndefined (createContactRequest visitor (Str (js "Hello")) None None (js "r1") 1000).
Definition decision : value := Eval vm_compute in
  People.orUndefined (createContactDecision owner request true (Some (js "secret")) None (js "c1") 2000).
Definition channel : value := Eval vm_compute in People.orUndefined (createContactChannel request decision 3000).
Definition message : value := Eval vm_compute in
  People.orUndefined (createContactMessage visitor (js "c1") (Str (js " How are you? ")) (js "m1") 4000).
Definition appended : value := Eval vm_compute in People.orUndefined (appendContactMessage channel message 5000).

Lemma appends : appendContactMessage channel message 5000 = Ok appended.
Proof. vm_compute. reflexivity. Qed.

(** The visitor on a device the first device enrolled. *)
Definition delegated : LocalProfile :=
  mkLocalProfile Sample.identity (Sample.keyIdOf 3) (Sample.keyText 3) Sample.second None [3%N].
Definition delegatedRequest : value := Eval vm_compute in People.orUndefined
  (createContactRequest delegated (Str (js "Hello")) None (Some [Sample.first; Sample.second]) (js "r1") 1000).
Definition delegatedDecision : value := Eval vm_compute in
  People.orUndefined (createContactDecision owner delegatedRequest true (Some (js "secret")) None (js "c1") 2000).
Definition delegatedChannel : value := Eval vm_compute in People.orUndefined (createContactChannel delegatedRequest delegatedDecision 3000).
End ContactSample.

(** A channel made for a visitor on a delegated device does not verify: each
    certificate it stores has to be a chain by itself. *)
Theorem delegated_channel_rejected :
  createContactChannel (H := checksumSha256) (H0 := toyEd25519) (H1 := plainAutomerge)
    ContactSample.delegatedRequest ContactSample.delegatedDecision 3000 = Ok ContactSample.delegatedChannel /\
  verifyContactChannel (H := checksumSha256) (H0 := toyEd25519) ContactSample.delegatedChannel 3000
  = Throw "Invalid certificate chain".
Proof. split; vm_compute; reflexivity. Qed.

(** C30. Every message of a verified channel is authentic: the channel is named
    in a decision its owner signed to accept the request its visitor signed, the
    ids of the two are those of the identities that signed, and each of at most
    10,000 messages stands under its own id, was written for this channel by one of the two
    and is signed by a device that the certificates the channel knows of that
    person lead to the person's key. *)
Theorem contact_channel_authentic `{Sha256} `{Ed25519} channel now :
  verifyContactChannel channel now = Ok tt ->
  bound channel /\ (length (entries channel.["messages"]) <= MAX_CONTACT_MESSAGES)%nat /\
  forall id message, (id, message) ∈ entries channel.["messages"] ->
    message.["payload"].["messageId"] = Str id /\ channelMessage channel message.
Proof.
  intros (Hp & Hl & Hall)%channel_verifies. apply parties_bound in Hp. split; [done|]. split; [done|].
  intros id message Hin. exact (entry_message _ _ _ Hp (Hall _ Hin)).
Qed.

Lemma contact_channel_authentic_witness :
  verifyContactChannel (H := checksumSha256) (H0 := toyEd25519) ContactSample.appended 5000 = Ok tt /\
  bound (H := checksumSha256) (H0 := toyEd25519) ContactSample.appended.
Proof.
  assert (verifyContactChannel (H := checksumSha256) (H0 := toyEd25519) ContactSample.appended 5000 = Ok tt) as Hv by (vm_compute; reflexivity).
  split; [exact Hv|]. destruct (contact_channel_authentic (H := checksumSha256) (H0 := toyEd25519) _ _ Hv) as [Hb _]. exact Hb.
Defined.

(** Appending keeps a channel verified and its messages written once: an
    append that returns gives the same document, which holds a message with the
    same canonical text under the id, or one with the message after all earlier
    ones, which are untouched; below 10,000 messages the result verifies. *)
Theorem contact_append_preserves `{Sha256} `{Ed25519} `{Automerge} doc message now doc' :
  plain message -> appendContactMessage doc message now = Ok doc' ->
  exists messages id, (contents doc).["messages"] = Obj messages /\ message.["payload"].["messageId"] = Str id /\
    ((doc' = doc /\ canonicalizeJson (member id messages) = canonicalizeJson message) \/
     ((id ∉ map fst messages) /\ (contents doc').["messages"] = Obj (messages ++ [(id, message)]))) /\
    ((length messages < MAX_CONTACT_MESSAGES)%nat -> verifyContactChannel (contents doc') now = Ok tt).
Proof.
  intros Hp Happ. destruct (append_cases _ _ _ _ Hp Happ) as (messages & id & Hms & Hid & Hc & Hm & Hcase).
  exists messages, id. split; [done|]. split; [done|]. destruct Hcase as [(-> & _ & Hcan)|(Hfresh & He)]; [auto|].
  assert ((contents doc').["messages"] = Obj (messages ++ [(id, message)])) as Hms'.
  { rewrite He, setField_get. by rewrite bool_decide_eq_true_2. }
  split; [right; split; [|done]|].
  - intros Hin. apply map_has_elem in Hin. congruence.
  - intros Hlen. destruct (appended_verifies _ _ _ _ _ Hms Hid Hc Hm) as [Hparties Hall]. rewrite <-He in Hparties, Hall.
    apply channel_verifies. rewrite Hms'. cbn [entries]. split; [done|]. split; [|done]. rewrite length_app. cbn [length].
    lia.
Qed.

Lemma contact_append_preserves_witness :
  verifyContactChannel (H := checksumSha256) (H0 := toyEd25519) ContactSample.appended 5000 = Ok tt.
Proof.
  assert (plain ContactSample.message) as Hp by (vm_compute; exact I).
  destruct (contact_append_preserves (H := checksumSha256) (H0 := toyEd25519) (H1 := plainAutomerge) _ _ _ _ Hp ContactSample.appends)
    as (messages & id & Hms & _ & _ & Hv). apply Hv. injection Hms as <-. unfold MAX_CONTACT_MESSAGES. cbn [length]. lia.
Defined.
