(* ===== verification/Pairing.v ===== *)
(** * Pairing links and frames

    [packages/mesh-pairing/src/index.ts]: invitations, the links that carry
    them, and the frames of the installed codec.  URLs and query strings
    belong to the platform: a link keeps the query string put in its fragment,
    and a query string of well-formed texts reads back as the fields it was
    made of.  The frame codec is installed from outside. *)
From stdpp Require Import base numbers list sorting strings.
From Stdlib Require Import ZArith NArith Lia.
From S2P Require Import Prelude Unicode Json Js Base64 Dates ProfileValue Recovery Records.

Definition pairingVersion : list N := js "0.0.1".

Definition fields : Type := list (list N * list N).

Definition wellFormedFields (params : fields) : bool :=
  forallb (fun '(key, text) => units key && wellFormed key && units text && wellFormed text) params.

Class Links := {
  (** [new URL(text)] and [new URL(text, base)], the parts looked at *)
  newURL : list N -> option URL;
  resolveURL : list N -> list N -> option URL;
  (** [new URL(path, origin)] with the fragment, as text *)
  linkWithHash : list N -> list N -> list N -> option (list N);
  (** [params.toString()] and [new URLSearchParams(text)] *)
  paramsText : fields -> list N;
  parseParams : list N -> fields;
  parse_text params : wellFormedFields params -> parseParams (paramsText params) = params;
  link_hash path origin params link : wellFormedFields params -> params <> [] ->
    linkWithHash path origin (paramsText params) = Some link ->
    exists url, resolveURL (trim link) (js "http://localhost") = Some url /\ url_hash url = js "#" ++ paramsText params }.

(** ** [encodeURIComponent] and [decodeURIComponent] *)
Local Open Scope N_scope.

Definition unreserved (u : N) : bool :=
  between 48 57 u || between 65 90 u || between 97 122 u || bool_decide (u ∈ js "-_.!~*'()").

Definition upperHex (n : N) : N := if n <? 10 then 48 + n else 55 + n.
Definition percent (b : N) : list N := [37; upperHex (b / 16); upperHex (b mod 16)].

Definition encodePoint (c : N) : list N := if unreserved c then [c] else concat (map percent (utf8Point c)).

Definition encodeURIComponent (s : list N) : result (list N) :=
  if wellFormed s then Ok (concat (map encodePoint (codePoints s))) else Throw "URI malformed".

Definition hexOf (u : N) : option N :=
  if between 48 57 u then Some (u - 48) else if between 65 70 u then Some (u - 55)
  else if between 97 102 u then Some (u - 87) else None.

(** A run of escapes stands for the points its bytes encode. *)
Definition flush (pending : list N) : option (list N) :=
  points ← decodePoints pending; Some (concat (map fromPoint points)).

Fixpoint decodeEscapes (pending s : list N) : option (list N) :=
  match s with
  | [] => flush pending
  | u :: rest =>
      if u =? 37 then
        match rest with
        | h :: l :: rest => high ← hexOf h; low ← hexOf l; decodeEscapes (pending ++ [high * 16 + low]) rest
        | _ => None
        end
      else text ← flush pending; after ← decodeEscapes [] rest; Some (text ++ u :: after)
  end.

Definition decodeURIComponent (s : list N) : result (list N) :=
  match decodeEscapes [] s with Some text => Ok text | None => Throw "URI malformed" end.

(** [text.split(",")] and [texts.join(",")] *)
Fixpoint splitComma (s : list N) : list (list N) :=
  match s with
  | [] => [[]]
  | u :: rest =>
      if u =? 44 then [] :: splitComma rest
      else match splitComma rest with w :: ws => (u :: w) :: ws | [] => [[u]] end
  end.
Definition joinComma (texts : list (list N)) : list N := joinTexts 44 texts.
Local Close Scope N_scope.

(** ** Invitations *)
Record PairingInvite := mkPairingInvite { invite_version : list N; invite_endpoint : list N; invite_secret : list N }.

Record InvitationEnvelope := mkInvitation {
  invitationId : list N; issuerPersonId : list N; issuerDeviceId : list N; issuerPublicKey : list N;
  issuerEndpoint : list N; issuerRelayUrl : option (list N); createdAt : list N; expiresAt : list N; secret : list N }.

Record WorkspaceItem := mkWorkspace { workspace_id : list N; workspace_title : list N }.
Inductive Role := editor | visitor.

Inductive ScopedInvitation :=
| DeviceEnrollment (envelope : InvitationEnvelope)
| WorkspaceJoin (envelope : InvitationEnvelope) (workspaceId workspaceTitle : list N) (workspaces : list WorkspaceItem) (role : Role)
| OwnerReconnect (envelope : InvitationEnvelope) (workspaceId : list N).

#[export] Instance WorkspaceItem_eq_dec : EqDecision WorkspaceItem.
Proof. solve_decision. Defined.

(** [params.get(key)], [params.getAll(key).length] and [params.has(key)] *)
Definition param (key : list N) (params : fields) : option (list N) := map_get key params.
Definition paramCount (key : list N) (params : fields) : nat := length (List.filter (fun p => bool_decide (p.1 = key)) params).
Definition hasParam (key : list N) (params : fields) : bool := map_has key params.
(** [params.get(key) || ""] *)
Definition paramText (key : list N) (params : fields) : list N := default [] (param key params).
Definition blank (s : list N) : bool := (length s =? 0)%nat.

(** [truthy ? text : undefined] *)
Definition nonBlank (text : option (list N)) : option (list N) :=
  match text with Some s => if blank s then None else Some s | None => None end.

(** The profile an invitation is made for. *)
Record Issuer := mkIssuer { issuer_personId : list N; issuer_deviceId : list N; issuer_publicKey : list N }.

Definition isoText (now : Z) : result (list N) :=
  match toISOString now with Some text => Ok text | None => Throw "Invalid time value" end.

Section Pairing.
Context `{Links} `{Calendar}.

Definition validateRelayUrl (text : list N) : result unit :=
  match newURL text with
  | None => Throw "Invalid browser relay address"
  | Some url =>
      let localHttp := bool_decide (url_protocol url = js "http:") &&
        bool_decide (url_hostname url ∈ [js "localhost"; js "127.0.0.1"; js "::1"]) in
      if (2048 <? length text)%nat || (negb (bool_decide (url_protocol url = js "https:")) && negb localHttp) ||
         negb (blank (url_username url)) || negb (blank (url_password url)) || negb (blank (url_hash url))
      then Throw "Invalid browser relay address" else Ok tt
  end.

(** The 32 bytes come from the source of randomness passed in. *)
Definition createPairingSecret (random : list N) : list N := toBase64Url random.

Definition createPairingInvite (endpoint secret : list N) : PairingInvite := mkPairingInvite pairingVersion endpoint secret.

Definition pairingInviteUrl (origin : list N) (invite : PairingInvite) : result (list N) :=
  match linkWithHash (js "/pair") origin (paramsText
    [(js "v", invite_version invite); (js "endpoint", invite_endpoint invite); (js "secret", invite_secret invite)]) with
  | Some link => Ok link
  | None => Throw "Invalid URL"
  end.

(** [url.pathname.replace(/\/$/, "")] *)
Definition dropSlash (path : list N) : list N :=
  match rev path with 47%N :: rest => rev rest | _ => path end.

Definition parsePairingInvite (raw : list N) : result PairingInvite :=
  match newURL (trim raw) with
  | None => Throw "Invalid pairing link"
  | Some url =>
      let params :=
        if bool_decide (url_protocol url = js "match:") && bool_decide (url_hostname url = js "pair")
        then Some (parseParams (url_search url))
        else if bool_decide (dropSlash (url_pathname url) = js "/pair") && negb (blank (url_hash url))
        then Some (parseParams (drop 1 (url_hash url))) else None in
      match params with
      | None => Throw "Invalid pairing link"
      | Some params =>
          let version := paramText (js "v") params in
          let endpoint := paramText (js "endpoint") params in
          let secret := paramText (js "secret") params in
          if negb (bool_decide (version = pairingVersion)) || blank endpoint || blank secret
          then Throw "Invalid pairing link" else Ok (mkPairingInvite version endpoint secret)
      end
  end.

Definition createDeviceEnrollmentInvite (endpoint secret : list N) (profile : Issuer) (now : Z)
    (relayUrl : option (list N)) (id : list N) : result ScopedInvitation :=
  match relayUrl with Some relay => validateRelayUrl relay | None => Ok tt end;;
  created ← isoText now;
  expires ← isoText (now + 10 * 60 * 1000);
  Ok (DeviceEnrollment (mkInvitation id (issuer_personId profile) (issuer_deviceId profile) (issuer_publicKey profile)
    endpoint (nonBlank relayUrl) created expires secret)).

Definition createWorkspaceJoinInvite (endpoint secret : list N) (profile : Issuer) (workspaces : list WorkspaceItem)
    (now : Z) (role : option Role) (id : list N) : result ScopedInvitation :=
  match workspaces with
  | [] => Throw "At least one workspace must be selected"
  | primary :: _ =>
      created ← isoText now;
      expires ← isoText (now + 10 * 60 * 1000);
      Ok (WorkspaceJoin (mkInvitation id (issuer_personId profile) (issuer_deviceId profile) (issuer_publicKey profile)
        endpoint None created expires secret) (workspace_id primary) (workspace_title primary) workspaces (default visitor role))
  end.

Definition createOwnerReconnectInvite (endpoint secret : list N) (profile : Issuer) (workspaceId : list N)
    (now lifetimeMs : Z) (relayUrl : option (list N)) (id : list N) : result ScopedInvitation :=
  match relayUrl with Some relay => validateRelayUrl relay | None => Ok tt end;;
  if blank endpoint || blank secret || blank workspaceId || negb (isSafeInteger now) || negb (isSafeInteger lifetimeMs) ||
     (lifetimeMs <=? 0)%Z || (60 * 60 * 1000 <? lifetimeMs)%Z
  then Throw "Invalid owner reconnect invitation" else
  created ← isoText now;
  expires ← isoText (now + lifetimeMs);
  Ok (OwnerReconnect (mkInvitation id (issuer_personId profile) (issuer_deviceId profile) (issuer_publicKey profile)
    endpoint (nonBlank relayUrl) created expires secret) workspaceId).

(** ** Links *)
Definition kindText (invite : ScopedInvitation) : list N :=
  match invite with
  | DeviceEnrollment _ => js "device-enrollment"
  | WorkspaceJoin _ _ _ _ _ => js "workspace-join"
  | OwnerReconnect _ _ => js "owner-reconnect"
  end.
Definition envelopeOf (invite : ScopedInvitation) : InvitationEnvelope :=
  match invite with DeviceEnrollment e | WorkspaceJoin e _ _ _ _ | OwnerReconnect e _ => e end.
Definition roleText (role : Role) : list N := match role with editor => js "editor" | visitor => js "visitor" end.

Definition optionalField (key : list N) (text : option (list N)) : fields :=
  match nonBlank text with Some s => [(key, s)] | None => [] end.

(** The fields in the order they are set. *)
Definition invitationFields (invite : ScopedInvitation) : result fields :=
  let e := envelopeOf invite in
  own ← match invite with
    | DeviceEnrollment _ => Ok []
    | WorkspaceJoin _ workspaceId workspaceTitle workspaces role =>
        listed ← match workspaces with
          | [] => Ok []
          | _ => titles ← mapR (fun w => encodeURIComponent (workspace_title w)) workspaces;
                 Ok [(js "workspaceIds", joinComma (map workspace_id workspaces)); (js "workspaceTitles", joinComma titles)]
          end;
        Ok ([(js "workspaceId", workspaceId); (js "workspaceTitle", workspaceTitle); (js "role", roleText role)] ++ listed)
    | OwnerReconnect _ workspaceId =>
        Ok (optionalField (js "issuerRelayUrl") (issuerRelayUrl e) ++ [(js "workspaceId", workspaceId)])
    end;
  Ok ([(js "v", js "1"); (js "kind", kindText invite); (js "invitationId", invitationId e);
       (js "issuerPersonId", issuerPersonId e); (js "issuerDeviceId", issuerDeviceId e);
       (js "issuerPublicKey", issuerPublicKey e); (js "endpoint", issuerEndpoint e)] ++
      match invite with DeviceEnrollment _ => optionalField (js "issuerRelayUrl") (issuerRelayUrl e) | _ => [] end ++
      [(js "createdAt", createdAt e); (js "expiresAt", expiresAt e); (js "secret", secret e)] ++ own).

Definition invitationUrl (origin : list N) (invite : ScopedInvitation) : result (list N) :=
  params ← invitationFields invite;
  match linkWithHash (js "/pair") origin (paramsText params) with Some link => Ok link | None => Throw "Invalid URL" end.

Definition singularFields : list (list N) := map js ["v"; "kind"; "invitationId"; "issuerPersonId"; "issuerDeviceId";
  "issuerPublicKey"; "endpoint"; "issuerRelayUrl"; "createdAt"; "expiresAt"; "secret"; "workspaceId"; "workspaceTitle";
  "workspaceIds"; "workspaceTitles"; "role"].

Definition invitationParams (raw : list N) : result fields :=
  match resolveURL (trim raw) (js "http://localhost") with
  | None => Throw "Invalid pairing link"
  | Some url =>
      let params := parseParams (match url_hash url with 35%N :: rest => rest | text => text end) in
      if existsb (fun field => (1 <? paramCount field params)%nat) singularFields then Throw "Invalid pairing link" else Ok params
  end.

Definition validateInvitationVersion (params : fields) : result unit :=
  if blank (paramText (js "secret") params) then Throw "This pairing link is invalid." else
  if bool_decide (param (js "v") params = Some (js "0.0.1")) || negb (hasParam (js "kind") params)
  then Throw "This sync link was created by an older version of Match. Please create a new invitation." else
  if negb (bool_decide (param (js "v") params = Some (js "1"))) then Throw "Invalid pairing link" else Ok tt.

Definition readInvitationEnvelope (params : fields) (now : Z) : result InvitationEnvelope :=
  let id := paramText (js "invitationId") params in
  let endpoint := paramText (js "endpoint") params in
  let person := paramText (js "issuerPersonId") params in
  let device := paramText (js "issuerDeviceId") params in
  let key := paramText (js "issuerPublicKey") params in
  let relay := nonBlank (param (js "issuerRelayUrl") params) in
  if blank id || blank endpoint || blank person || blank device || blank key then Throw "Invalid pairing link" else
  match relay with Some relay => validateRelayUrl relay | None => Ok tt end;;
  let created := paramText (js "createdAt") params in
  let expires := paramText (js "expiresAt") params in
  match parseDate created, parseDate expires with
  | Some createdTime, Some expiryTime =>
      if (expiryTime <=? createdTime)%Z then Throw "Invalid pairing link" else
      if (expiryTime <=? now)%Z then Throw "This invitation has expired." else
      Ok (mkInvitation id person device key endpoint relay created expires (paramText (js "secret") params))
  | _, _ => Throw "Invalid pairing link"
  end.

Definition workspaceFields : list (list N) := map js ["workspaceId"; "workspaceTitle"; "workspaceIds"; "workspaceTitles"; "role"].

Definition decodeDeviceEnrollment (params : fields) (envelope : InvitationEnvelope) : result ScopedInvitation :=
  if existsb (fun field => hasParam field params) workspaceFields || hasParam (js "issuerLocalCustomAddr") params
  then Throw "Invalid invitation: wrong-kind fields present on device-enrollment" else Ok (DeviceEnrollment envelope).

Definition decodeWorkspaceTitles (rawTitles : option (list N)) : result (list (list N)) :=
  match nonBlank rawTitles with
  | None => Ok []
  | Some raw =>
      match mapR (fun title => decodeURIComponent (trim title)) (splitComma raw) with
      | Ok titles => Ok titles
      | Throw _ => Throw "Invalid pairing link"
      end
  end.

Definition readWorkspaceList (params : fields) (primaryId primaryTitle : list N) : result (list WorkspaceItem) :=
  match param (js "workspaceIds") params with
  | None => if hasParam (js "workspaceTitles") params then Throw "Invalid pairing link" else Ok [mkWorkspace primaryId primaryTitle]
  | Some rawIds =>
      let ids := map trim (splitComma rawIds) in
      if existsb blank ids || negb (bool_decide (head ids = Some primaryId)) || negb (bool_decide (NoDup ids))
      then Throw "Invalid pairing link" else
      titles ← decodeWorkspaceTitles (param (js "workspaceTitles") params);
      if hasParam (js "workspaceTitles") params && negb (length titles =? length ids)%nat then Throw "Invalid pairing link" else
      Ok (imap (fun index id => mkWorkspace id
        (default (if bool_decide (id = primaryId) then primaryTitle else js "Workspace") (nonBlank (titles !! index)))) ids)
  end.

Definition readRole (text : option (list N)) : option Role :=
  match text with
  | Some s => if bool_decide (s = js "editor") then Some editor else if bool_decide (s = js "visitor") then Some visitor else None
  | None => None
  end.

Definition decodeWorkspaceJoin (params : fields) (envelope : InvitationEnvelope) : result ScopedInvitation :=
  if hasParam (js "issuerRelayUrl") params || hasParam (js "issuerLocalCustomAddr") params
  then Throw "Invalid invitation: wrong-kind fields present on workspace-join" else
  let workspaceId := paramText (js "workspaceId") params in
  match readRole (param (js "role") params) with
  | None => Throw "Invalid invitation: missing workspace or valid role on workspace-join"
  | Some role =>
      if blank workspaceId then Throw "Invalid invitation: missing workspace or valid role on workspace-join" else
      let title := default (js "Workspace") (nonBlank (param (js "workspaceTitle") params)) in
      workspaces ← readWorkspaceList params workspaceId title;
      match workspaces with
      | primary :: _ => Ok (WorkspaceJoin envelope (workspace_id primary) (workspace_title primary) workspaces role)
      | [] => Throw "Cannot read properties of undefined"
      end
  end.

Definition reconnectFields : list (list N) := map js ["v"; "kind"; "invitationId"; "issuerPersonId"; "issuerDeviceId"; "issuerPublicKey";
  "endpoint"; "createdAt"; "expiresAt"; "secret"; "workspaceId"; "issuerRelayUrl"].

Definition decodeOwnerReconnect (params : fields) (envelope : InvitationEnvelope) : result ScopedInvitation :=
  if existsb (fun p => negb (bool_decide (p.1 ∈ reconnectFields))) params ||
     existsb (fun key => hasParam key params) (map js ["workspaceTitle"; "workspaceIds"; "workspaceTitles"; "role"; "issuerLocalCustomAddr"])
  then Throw "Invalid invitation: wrong-kind fields present on owner-reconnect" else
  let workspaceId := paramText (js "workspaceId") params in
  if blank workspaceId then Throw "Invalid invitation: missing workspace on owner-reconnect" else
  let relay := nonBlank (param (js "issuerRelayUrl") params) in
  match relay with Some relay => validateRelayUrl relay | None => Ok tt end;;
  Ok (OwnerReconnect (mkInvitation (invitationId envelope) (issuerPersonId envelope) (issuerDeviceId envelope)
    (issuerPublicKey envelope) (issuerEndpoint envelope) (match relay with Some _ => relay | None => issuerRelayUrl envelope end)
    (createdAt envelope) (expiresAt envelope) (secret envelope)) workspaceId).

Definition invitationDecoder (kind : list N) : option (fields -> InvitationEnvelope -> result ScopedInvitation) :=
  if bool_decide (kind = js "device-enrollment") then Some decodeDeviceEnrollment
  else if bool_decide (kind = js "workspace-join") then Some decodeWorkspaceJoin
  else if bool_decide (kind = js "owner-reconnect") then Some decodeOwnerReconnect else None.

Definition parseInvitation (raw : list N) (now : Z) : result ScopedInvitation :=
  params ← invitationParams raw;
  validateInvitationVersion params;;
  envelope ← readInvitationEnvelope params now;
  match invitationDecoder (paramText (js "kind") params) with
  | None => Throw "Invalid pairing link"
  | Some decoder => decoder params envelope
  end.
End Pairing.

(** ** Frames of the installed codec *)
Definition pairingFrameTypes : list (list N) := map js [
  "sync-request"; "sync-response"; "sync-ack"; "sync-update"; "sync-heartbeat"; "sync-heartbeat-ack";
  "enroll-request"; "enroll-approved"; "enroll-rejected"; "enroll-rejected-ack"; "enroll-ack"; "enroll-complete";
  "workspace-join-request"; "workspace-join-response"; "workspace-join-rejected-ack";
  "mesh-handshake-request"; "mesh-handshake-response"; "mesh-handoff-request"; "mesh-handoff-ready"; "mesh-handoff-confirmed";
  "mesh-automerge-sync"; "mesh-control-sync"; "mesh-owner-workspace-offer"; "mesh-owner-reconnect-v1";
  "mesh-iroh-gossip"; "mesh-durable-batch"; "mesh-durable-ack";
  "mesh-blob-request-v1"; "mesh-blob-response-v1"; "mesh-blob-error-v1";
  "mesh-proof-request-v1"; "mesh-proof-page-v1"].

Record PairingCodec := mkCodec {
  codec_encode : list N -> list N -> list N -> result (list N);
  codec_inspect : list N -> result (option (list N) * option (list N));
  codec_decode : list N -> list N -> list N -> result (list N) }.

(** Installing a codec answers with the one to restore. *)
Definition installPairingCodec (codec pairingCodec : option PairingCodec) : option PairingCodec * option PairingCodec :=
  (pairingCodec, codec).

(** The message of a codec's error is the one it throws. *)
Section Frames.
Variable pairingCodec : option PairingCodec.

Definition requiredPairingCodec : result PairingCodec :=
  match pairingCodec with Some codec => Ok codec | None => Throw "Rust pairing codec is not installed" end.

Definition encodePairingFrame (type secret bytes : list N) : result (list N) :=
  codec ← requiredPairingCodec; codec_encode codec type secret bytes.

Definition inspectPairingFrame (frame : list N) : result (list N * list N) :=
  codec ← requiredPairingCodec;
  '(type, secret) ← codec_inspect codec frame;
  if negb (bool_decide (default [] type ∈ pairingFrameTypes)) || blank (default [] secret)
  then Throw "Pairing frame invalid" else Ok (default [] type, default [] secret).

Definition decodePairingFrame (frame expectedType expectedSecret : list N) : result (list N) :=
  codec ← requiredPairingCodec; codec_decode codec frame expectedType expectedSecret.
End Frames.

(** ** Component encoding *)
Local Open Scope N_scope.

Lemma hexOf_upper n : n < 16 -> hexOf (upperHex n) = Some n.
Proof.
  intros Hn. unfold upperHex, hexOf, between. destruct (N.ltb_spec n 10) as [Hl|Hl].
  - replace (48 <=? 48 + n) with true by (symmetry; apply N.leb_le; lia). replace (48 + n <=? 57) with true by (symmetry; apply N.leb_le; lia).
    cbn [andb]. f_equal. lia.
  - replace (55 + n <=? 57) with false by (symmetry; apply N.leb_gt; lia). rewrite andb_false_r.
    replace (65 <=? 55 + n) with true by (symmetry; apply N.leb_le; lia). replace (55 + n <=? 70) with true by (symmetry; apply N.leb_le; lia).
    cbn [andb]. f_equal. lia.
Qed.

Lemma decodeEscapes_percent pending bytes rest : Forall isByte bytes ->
  decodeEscapes pending (concat (map percent bytes) ++ rest) = decodeEscapes (pending ++ bytes) rest.
Proof.
  intros Hb. revert pending. induction Hb as [|b bytes Hbyte _ IH]; intros pending; [by rewrite app_nil_r|].
  apply Is_true_true, N.ltb_lt in Hbyte. cbn [map concat percent app decodeEscapes]. change (37 =? 37) with true. cbv iota.
  rewrite !hexOf_upper by (apply N.mod_lt || (apply N.Div0.div_lt_upper_bound; lia); done). cbn [mbind option_bind].
  replace (b / 16 * 16 + b mod 16) with b by (pose proof (N.div_mod b 16); lia). rewrite IH, <-app_assoc. done.
Qed.

Lemma flush_encoded points : Forall scalar points -> flush (encodePoints points) = Some (concat (map fromPoint points)).
Proof. intros Hp. unfold flush. by rewrite decodePoints_encode. Qed.

Lemma unreserved_ascii c : unreserved c = true -> c < 128 /\ c <> 37 /\ c <> 44 /\ trimmed c = false.
Proof.
  intros Hu. assert (c < 128) as Hc.
  { unfold unreserved, between in Hu. apply orb_true_iff in Hu as [[[Hu|Hu]%orb_true_iff|Hu]%orb_true_iff|Hu];
      [apply andb_true_iff in Hu as [_ Hu%N.leb_le]; lia..|]. apply bool_decide_eq_true in Hu.
    repeat (apply elem_of_cons in Hu as [->|Hu]; [done|]). by apply elem_of_nil in Hu. }
  split; [done|].
  assert (forallb (fun c => negb (unreserved c) || (negb (c =? 37) && negb (c =? 44) && negb (trimmed c))) (map N.of_nat (seq 0 128)) = true) as Hall
    by (vm_compute; reflexivity).
  rewrite forallb_forall in Hall. specialize (Hall c). rewrite Hu in Hall. cbn [negb orb] in Hall.
  assert (In c (map N.of_nat (seq 0 128))) as Hin.
  { apply in_map_iff. exists (N.to_nat c). split; [lia|]. apply in_seq. lia. }
  specialize (Hall Hin). apply andb_true_iff in Hall as [[H1 H2]%andb_true_iff H3]. rewrite negb_true_iff in H1, H2, H3.
  apply N.eqb_neq in H1, H2. done.
Qed.

Lemma scalar_bytes c : scalar c -> Forall isByte (utf8Point c).
Proof.
  unfold scalar, point. rewrite andb_True. intros [Hc%Is_true_true%N.leb_le _]. unfold utf8Point, isByte.
  destruct (N.ltb_spec c 128); [|destruct (N.ltb_spec c 2048); [|destruct (N.ltb_spec c 65536)]];
    repeat constructor; apply Is_true_true, N.ltb_lt; try lia;
    try (pose proof (N.mod_lt c 64 ltac:(lia)); lia); try (pose proof (N.mod_lt (c / 64) 64 ltac:(lia)); lia);
    try (pose proof (N.mod_lt (c / 4096) 64 ltac:(lia)); lia).
  - assert (c / 64 < 32) by (apply N.Div0.div_lt_upper_bound; lia). lia.
  - assert (c / 4096 < 16) by (apply N.Div0.div_lt_upper_bound; lia). lia.
  - assert (c / 262144 < 5) by (apply N.Div0.div_lt_upper_bound; lia). lia.
Qed.

(** Escaped points so far, then encoded points: the text of both. *)
Lemma decode_encoded before points : Forall scalar before -> Forall scalar points ->
  decodeEscapes (encodePoints before) (concat (map encodePoint points)) = Some (concat (map fromPoint (before ++ points))).
Proof.
  intros Hb Hp. revert before Hb. induction Hp as [|c points Hc _ IH]; intros before Hb.
  - cbn [map concat decodeEscapes]. rewrite app_nil_r. by apply flush_encoded.
  - cbn [map concat]. unfold encodePoint at 1. destruct (unreserved c) eqn:Hu.
    + apply unreserved_ascii in Hu as (Hlt & H37 & _). cbn [app decodeEscapes].
      rewrite (proj2 (N.eqb_neq c 37) H37), flush_encoded by done. cbn [mbind option_bind].
      change (@nil N) with (encodePoints []) at 1. rewrite (IH []) by constructor. cbn [mbind option_bind app].
      f_equal. rewrite map_app, concat_app. cbn [map concat]. assert (fromPoint c = [c]) as ->; [|done].
      unfold fromPoint. destruct (N.ltb_spec c 0x10000); [done|lia].
    + rewrite decodeEscapes_percent by by apply scalar_bytes.
      replace (encodePoints before ++ utf8Point c) with (encodePoints (before ++ [c])).
      * rewrite IH by (apply Forall_app; split; [done|by repeat constructor]). by rewrite <-app_assoc.
      * unfold encodePoints. rewrite map_app, concat_app. cbn. by rewrite app_nil_r.
Qed.
Local Close Scope N_scope.

Lemma component_roundtrip s text : units s -> encodeURIComponent s = Ok text -> decodeURIComponent text = Ok s.
Proof.
  intros Hu. unfold encodeURIComponent. destruct (wellFormed s) eqn:Hw; [|done]. intros [= <-].
  unfold decodeURIComponent. change (@nil N) with (encodePoints []) at 1.
  rewrite decode_encoded by (constructor || by apply wellFormed_scalar; [|apply Is_true_true]). cbn [app].
  by rewrite fromPoint_codePoints.
Qed.

(** Characters a list separated by commas keeps as they are. *)
Definition listable (u : N) : bool := negb (u =? 44)%N && negb (trimmed u).

Lemma split_join texts : texts <> [] -> Forall (fun s => Forall (fun u => u <> 44%N) s) texts -> splitComma (joinComma texts) = texts.
Proof.
  intros Hne Hall. unfold joinComma. induction Hall as [|s texts Hs Hall IH]; [done|].
  assert (forall rest ws, splitComma rest = ws -> ws <> [] ->
    splitComma (s ++ rest) = match ws with w :: ws => (s ++ w) :: ws | [] => [] end) as Happ.
  { clear Hne. intros rest ws Hw Hn. induction Hs as [|u s Hu _ IHs]; [by destruct ws|].
    cbn [app splitComma]. rewrite (proj2 (N.eqb_neq _ _) Hu), IHs. by destruct ws. }
  destruct texts as [|s' texts].
  - cbn [joinTexts]. rewrite <-(app_nil_r s) at 1. rewrite (Happ [] [[]]) by done. by rewrite app_nil_r.
  - change (joinTexts 44 (s :: s' :: texts)) with (s ++ 44%N :: joinTexts 44 (s' :: texts)).
    rewrite (Happ _ ([] :: s' :: texts)); [by rewrite app_nil_r| |done].
    cbn [splitComma]. change (44 =? 44)%N with true. cbv iota. by rewrite IH.
Qed.

Lemma trimStart_none s : Forall (fun u => trimmed u = false) s -> trimStart s = s.
Proof. destruct 1 as [|u s Hu _]; [done|]. cbn. by rewrite Hu. Qed.

Lemma trim_none s : Forall (fun u => trimmed u = false) s -> trim s = s.
Proof.
  intros Hs. unfold trim. rewrite (trimStart_none s) by done. rewrite trimStart_none by by apply Forall_rev. apply rev_involutive.
Qed.

Lemma upperHex_listable n : (n < 16)%N -> listable (upperHex n) = true.
Proof.
  intros Hn. assert (forallb (fun n => listable (upperHex n)) (map N.of_nat (seq 0 16)) = true) as Hall by (vm_compute; reflexivity).
  rewrite forallb_forall in Hall. apply Hall, in_map_iff. exists (N.to_nat n). split; [lia|]. apply in_seq. lia.
Qed.

Lemma encoded_listable s text : units s -> encodeURIComponent s = Ok text -> Forall (fun u => listable u = true) text.
Proof.
  intros Hu. unfold encodeURIComponent. destruct (wellFormed s) eqn:Hw; [|done]. intros [= <-].
  assert (Forall scalar (codePoints s)) as Hp by (apply wellFormed_scalar; [done|by apply Is_true_true]).
  apply Forall_concat, Forall_map. eapply Forall_impl; [exact Hp|]. intros c Hc. cbn. unfold encodePoint.
  destruct (unreserved c) eqn:Hr.
  - apply unreserved_ascii in Hr as (_ & _ & H44 & Ht). repeat constructor. unfold listable. rewrite Ht.
    by rewrite (proj2 (N.eqb_neq _ _) H44).
  - apply Forall_concat, Forall_map. eapply Forall_impl; [by apply scalar_bytes|]. intros b Hb%Is_true_true%N.ltb_lt. cbn.
    repeat constructor; [apply upperHex_listable..].
    + apply N.Div0.div_lt_upper_bound. lia.
    + by apply N.mod_lt.
Qed.

Lemma encoded_nonblank s text : units s -> blank s = false -> encodeURIComponent s = Ok text -> blank text = false.
Proof.
  intros Hu Hs. unfold encodeURIComponent. destruct (wellFormed s) eqn:Hw; [|done]. intros [= <-].
  assert (codePoints s <> []) as Hne.
  { intros He. pose proof (fromPoint_codePoints s Hu) as Hf. rewrite He in Hf. cbn in Hf. by subst. }
  destruct (codePoints s) as [|c points]; [done|]. cbn [map concat]. unfold encodePoint at 1.
  destruct (unreserved c); [done|]. by destruct (utf8Point_nonempty c) as (b & l & ->).
Qed.

(** Titles written into a link are read back. *)
Lemma titles_roundtrip titles encoded :
  titles <> [] -> Forall (fun t => units t /\ blank t = false) titles -> mapR encodeURIComponent titles = Ok encoded ->
  decodeWorkspaceTitles (Some (joinComma encoded)) = Ok titles.
Proof.
  intros Hne Ht He%mapR_ok.
  assert (Forall (fun t => Forall (fun u => listable u = true) t /\ blank t = false) encoded) as Hl.
  { clear Hne. induction He as [|t e titles encoded Het _ IH]; constructor.
    - apply Forall_cons in Ht as [[Hu Hb] _]. split; [by eapply encoded_listable|by eapply encoded_nonblank].
    - apply IH. by apply Forall_cons in Ht as [_ ?]. }
  assert (blank (joinComma encoded) = false) as Hb.
  { destruct Hl as [|e encoded [_ Hb] _]; [by inversion He; subst|]. unfold joinComma, blank in *. destruct encoded; [done|].
    cbn [joinTexts]. rewrite length_app. apply Nat.eqb_neq. apply Nat.eqb_neq in Hb. lia. }
  unfold decodeWorkspaceTitles. cbn [nonBlank]. rewrite Hb. rewrite split_join; [|intros ->; by inversion He; subst|].
  2: { eapply Forall_impl; [exact Hl|]. intros e [Hle _]. eapply Forall_impl; [exact Hle|]. intros u [Hu _]%andb_true_iff ->. done. }
  assert (mapR (fun title => decodeURIComponent (trim title)) encoded = Ok titles) as ->; [|done].
  apply mapR_ok. clear Hne Hb. revert Ht Hl. induction He as [|t e titles encoded Het _ IH]; intros Ht Hl; constructor.
  - apply Forall_cons in Ht as [[Hu _] _]. apply Forall_cons in Hl as [[Hle _] _]. rewrite trim_none.
    + by eapply component_roundtrip.
    + eapply Forall_impl; [exact Hle|]. intros u [_ Hr]%andb_true_iff. by apply negb_true_iff in Hr.
  - apply Forall_cons in Ht as [_ ?], Hl as [_ ?]. by apply IH.
Qed.

(** ** What a link carries *)
Section Carry.
Context `{Links} `{Calendar}.

(** An invitation a link can carry: its texts are well formed and there, it
    expires after it was made and after [now], and what only one kind of link
    has is absent from the others. *)
Definition carriedKind (invite : ScopedInvitation) : Prop :=
  match invite with
  | DeviceEnrollment _ => True
  | WorkspaceJoin e workspaceId workspaceTitle workspaces _ =>
      issuerRelayUrl e = None /\ head workspaces = Some (mkWorkspace workspaceId workspaceTitle) /\
      NoDup (map workspace_id workspaces) /\
      Forall (fun w => units (workspace_title w) /\ blank (workspace_title w) = false /\ blank (workspace_id w) = false /\
        trim (workspace_id w) = workspace_id w /\ Forall (fun u => u <> 44%N) (workspace_id w)) workspaces
  | OwnerReconnect _ workspaceId => blank workspaceId = false
  end.

Record carried (now : Z) (invite : ScopedInvitation) (params : fields) : Prop := {
  carried_fields : invitationFields invite = Ok params;
  carried_text : wellFormedFields params;
  carried_ids : existsb blank (let e := envelopeOf invite in
    [invitationId e; issuerPersonId e; issuerDeviceId e; issuerPublicKey e; issuerEndpoint e; secret e]) = false;
  carried_relay : match issuerRelayUrl (envelopeOf invite) with
    Some relay => blank relay = false /\ validateRelayUrl relay = Ok tt | None => True end;
  carried_times : exists created expiry, parseDate (createdAt (envelopeOf invite)) = Some created /\
    parseDate (expiresAt (envelopeOf invite)) = Some expiry /\ (created < expiry)%Z /\ (now < expiry)%Z;
  carried_kind : carriedKind invite }.

(** The fields of the envelope, by their keys. *)
Definition holds (params : fields) (kind : list N) (e : InvitationEnvelope) : Prop :=
  param (js "v") params = Some (js "1") /\ param (js "kind") params = Some kind /\
  param (js "invitationId") params = Some (invitationId e) /\ param (js "issuerPersonId") params = Some (issuerPersonId e) /\
  param (js "issuerDeviceId") params = Some (issuerDeviceId e) /\ param (js "issuerPublicKey") params = Some (issuerPublicKey e) /\
  param (js "endpoint") params = Some (issuerEndpoint e) /\ param (js "issuerRelayUrl") params = issuerRelayUrl e /\
  param (js "createdAt") params = Some (createdAt e) /\ param (js "expiresAt") params = Some (expiresAt e) /\
  param (js "secret") params = Some (secret e).

Lemma holds_reads now invite params :
  carried now invite params -> holds params (kindText invite) (envelopeOf invite) ->
  validateInvitationVersion params = Ok tt /\ readInvitationEnvelope params now = Ok (envelopeOf invite).
Proof.
  intros [_ _ Hids Hrelay (created & expiry & Hc & He & Hlt & Hnow) _] (Hv & Hk & H1 & H2 & H3 & H4 & H5 & Hr & H7 & H8 & Hs).
  cbn [existsb] in Hids. rewrite !orb_false_r in Hids. bool_to_prop.
  unfold validateInvitationVersion, readInvitationEnvelope, paramText, hasParam, map_has, param in *.
  rewrite Hv, Hk, H1, H2, H3, H4, H5, Hr, H7, H8, Hs. cbn [default from_option id].
  repeat match goal with Hb : blank _ = false |- _ => rewrite Hb; clear Hb end. cbn [orb].
  split; [done|]. assert (nonBlank (issuerRelayUrl (envelopeOf invite)) = issuerRelayUrl (envelopeOf invite)) as ->.
  { destruct (issuerRelayUrl (envelopeOf invite)) as [relay|]; [|done]. cbn. by destruct Hrelay as [-> _]. }
  assert ((match issuerRelayUrl (envelopeOf invite) with Some relay => validateRelayUrl relay | None => Ok tt end) = Ok tt) as ->.
  { destruct (issuerRelayUrl (envelopeOf invite)); [by destruct Hrelay|done]. }
  cbn [mbind result_bind]. rewrite Hc, He. rewrite (proj2 (Z.leb_gt _ _)) by lia. rewrite (proj2 (Z.leb_gt _ _)) by lia.
  by destruct (envelopeOf invite).
Qed.

Lemma link_params origin invite params link :
  wellFormedFields params -> params <> [] -> existsb (fun field => (1 <? paramCount field params)%nat) singularFields = false ->
  invitationFields invite = Ok params -> invitationUrl origin invite = Ok link -> invitationParams link = Ok params.
Proof.
  intros Hw Hne Hs Hf. unfold invitationUrl. rewrite Hf. cbn [mbind result_bind].
  destruct (linkWithHash _ _ _) as [link'|] eqn:Hl; [|done]. intros [= <-].
  destruct (link_hash _ _ _ _ Hw Hne Hl) as (url & Hu & Hh). unfold invitationParams. rewrite Hu, Hh.
  change (js "#" ++ paramsText params) with (35%N :: paramsText params). cbv iota beta zeta.
  rewrite parse_text by done. by rewrite Hs.
Qed.

Lemma nonBlank_relay relay : (match relay with Some r => blank r = false /\ validateRelayUrl r = Ok tt | None => True end) ->
  (relay = None \/ exists r, relay = Some r /\ blank r = false /\ validateRelayUrl r = Ok tt).
Proof. destruct relay; [right; eauto|by left]. Qed.

(** What remains after the envelope has been read. *)
Definition readsBack (params : fields) (invite : ScopedInvitation) : Prop :=
  params <> [] /\ existsb (fun field => (1 <? paramCount field params)%nat) singularFields = false /\
  holds params (kindText invite) (envelopeOf invite) /\
  (match invitationDecoder (kindText invite) with
   | Some decoder => decoder params (envelopeOf invite) | None => Throw "" end) = Ok invite.

Lemma enrollment_reads now e params : carried now (DeviceEnrollment e) params -> readsBack params (DeviceEnrollment e).
Proof.
  intros [Hf _ _ Hr%nonBlank_relay _ _]. cbn [envelopeOf] in Hr.
  unfold invitationFields, optionalField in Hf. cbn [mbind result_bind envelopeOf] in Hf.
  destruct Hr as [Hr|(r & Hr & Hb & _)]; rewrite Hr in Hf; cbn [nonBlank] in Hf; rewrite ?Hb in Hf; apply (inj Ok) in Hf; subst params;
    (split; [done|]); (split; [reflexivity|]); (split; [|reflexivity]); unfold holds; cbn [envelopeOf]; rewrite Hr; repeat split; reflexivity.
Qed.

Lemma reconnect_reads now e workspaceId params :
  carried now (OwnerReconnect e workspaceId) params -> readsBack params (OwnerReconnect e workspaceId).
Proof.
  intros [Hf _ _ Hr%nonBlank_relay _ Hw]. cbn [envelopeOf carriedKind] in Hr, Hw.
  unfold invitationFields, optionalField in Hf. cbn [mbind result_bind envelopeOf] in Hf.
  destruct Hr as [Hr|(r & Hr & Hb & Hv)]; rewrite Hr in Hf; cbn [nonBlank] in Hf; rewrite ?Hb in Hf; cbn [mbind result_bind] in Hf;
    apply (inj Ok) in Hf; subst params;
    (split; [done|]); (split; [reflexivity|]); (split; [unfold holds; cbn [envelopeOf]; rewrite Hr; repeat split; reflexivity|]);
    change (invitationDecoder _) with (Some decodeOwnerReconnect); unfold decodeOwnerReconnect; cbv iota;
    match goal with |- context [if ?b then Throw "Invalid invitation: wrong-kind fields present on owner-reconnect" else _] =>
      change b with false end; cbv iota;
    match goal with |- context [paramText (js "workspaceId") ?p] => change (paramText (js "workspaceId") p) with workspaceId end;
    rewrite Hw; match goal with |- context [param (js "issuerRelayUrl") ?p] =>
      first [change (param (js "issuerRelayUrl") p) with (Some r) | change (param (js "issuerRelayUrl") p) with (@None (list N))] end;
    cbn [nonBlank envelopeOf]; rewrite ?Hb, ?Hv; cbn [mbind result_bind]; rewrite ?Hr; destruct e; cbn in *; congruence.
Qed.

Lemma mapR_map {A B C} (f : A -> B) (g : B -> result C) l : mapR g (map f l) = mapR (fun x => g (f x)) l.
Proof. induction l as [|x l IH]; cbn; [done|]. by rewrite IH. Qed.

Lemma workspaces_read params primary rest encoded :
  let workspaces := primary :: rest in
  NoDup (map workspace_id workspaces) ->
  Forall (fun w => units (workspace_title w) /\ blank (workspace_title w) = false /\ blank (workspace_id w) = false /\
    trim (workspace_id w) = workspace_id w /\ Forall (fun u => u <> 44%N) (workspace_id w)) workspaces ->
  mapR (fun w => encodeURIComponent (workspace_title w)) workspaces = Ok encoded ->
  param (js "workspaceIds") params = Some (joinComma (map workspace_id workspaces)) ->
  param (js "workspaceTitles") params = Some (joinComma encoded) ->
  readWorkspaceList params (workspace_id primary) (workspace_title primary) = Ok workspaces.
Proof.
  intros workspaces Hn Hall He Hi Ht. rewrite <-(mapR_map workspace_title encodeURIComponent) in He.
  assert (decodeWorkspaceTitles (Some (joinComma encoded)) = Ok (map workspace_title workspaces)) as Htitles.
  { apply titles_roundtrip; [done| |done]. apply Forall_map. eapply Forall_impl; [exact Hall|]. intros w (? & ? & _). done. }
  unfold readWorkspaceList. rewrite Hi. rewrite split_join; [|done|].
  2: { apply Forall_map. eapply Forall_impl; [exact Hall|]. by intros w (_ & _ & _ & _ & ?). }
  assert (map trim (map workspace_id workspaces) = map workspace_id workspaces) as ->.
  { rewrite map_map. apply map_ext_in. intros w Hw. rewrite Forall_forall in Hall. by apply list_elem_of_In, Hall in Hw as (_ & _ & _ & ? & _). }
  assert (existsb blank (map workspace_id workspaces) = false) as ->.
  { apply not_true_iff_false. intros (id & (w & <- & Hw)%in_map_iff & Hb)%existsb_exists. rewrite Forall_forall in Hall.
    apply list_elem_of_In, Hall in Hw as (_ & _ & Hw & _). congruence. }
  rewrite bool_decide_eq_true_2 by done. rewrite (bool_decide_eq_true_2 _ Hn). cbn [orb negb].
  rewrite Ht, Htitles. cbn [mbind result_bind]. rewrite !length_map, Nat.eqb_refl. cbn [negb]. rewrite andb_false_r. f_equal.
  apply list_eq. intros i. rewrite list_lookup_imap, !list_lookup_fmap. destruct (workspaces !! i) as [w|] eqn:Hw; [|done].
  cbn. rewrite Forall_forall in Hall. apply list_elem_of_lookup_2, Hall in Hw as (_ & Hb & _). rewrite Hb. cbn. by destruct w.
Qed.

Lemma workspace_reads now e id title workspaces role params :
  carried now (WorkspaceJoin e id title workspaces role) params -> readsBack params (WorkspaceJoin e id title workspaces role).
Proof.
  intros [Hf _ _ _ _ (Hr & Hhead & Hn & Hall)]. destruct workspaces as [|primary rest]; [done|].
  cbn [head] in Hhead. apply (inj Some) in Hhead. subst primary.
  unfold invitationFields in Hf. cbn [envelopeOf] in Hf.
  destruct (mapR _ _) as [encoded|] eqn:He; [|done]. cbn [mbind result_bind] in Hf. apply (inj Ok) in Hf.
  assert (readWorkspaceList params id title = Ok (mkWorkspace id title :: rest)) as Hread.
  { apply (workspaces_read params (mkWorkspace id title) rest encoded); [done..| |]; subst params; reflexivity. }
  apply Forall_cons in Hall as [(_ & Htitle & Hid & _) _]. cbn [workspace_id workspace_title] in Htitle, Hid.
  split; [by subst|]. split; [by subst params|]. split; [unfold holds; cbn [envelopeOf]; rewrite Hr; subst params; repeat split; reflexivity|].
  change (invitationDecoder _) with (Some decodeWorkspaceJoin). unfold decodeWorkspaceJoin. cbv iota.
  assert (hasParam (js "issuerRelayUrl") params || hasParam (js "issuerLocalCustomAddr") params = false) as -> by by subst params.
  assert (param (js "role") params = Some (roleText role)) as -> by by subst params.
  assert (paramText (js "workspaceId") params = id) as -> by by subst params.
  assert (param (js "workspaceTitle") params = Some title) as -> by by subst params.
  assert (readRole (Some (roleText role)) = Some role) as -> by by destruct role.
  cbn [nonBlank envelopeOf]. rewrite Hid, Htitle. cbn [default from_option Datatypes.id]. rewrite Hread. done.
Qed.

Lemma carried_reads now invite params : carried now invite params -> readsBack params invite.
Proof. destruct invite; [apply enrollment_reads|apply workspace_reads|apply reconnect_reads]. Qed.
End Carry.

(** ** Links to run the definitions with: the fields as JSON, and nothing but a fragment *)
Definition fields_value (params : fields) : value := Arr (map (fun '(key, text) => Arr [Str key; Str text]) params).
Definition toyText (params : fields) : list N := default [] (JSON_stringify (fields_value params)).
Definition toyFields (text : list N) : fields :=
  match JSON_parse text with
  | Some (Arr l) => omap (fun item => match item with Arr [Str key; Str text] => Some (key, text) | _ => None end) l
  | _ => []
  end.
Definition toyURL (text : list N) : URL := mkURL [] [] [] (js "/pair") [] text (js "https:") (js "host").

Lemma toyFields_text params : wellFormedFields params -> toyFields (toyText params) = params.
Proof.
  intros Hw. assert (plain (fields_value params)) as Hp.
  { cbn [plain fields_value]. apply Is_true_true, forallb_forall. intros v Hv%in_map_iff. destruct Hv as ([key text] & <- & Hin).
    apply Is_true_true in Hw. unfold wellFormedFields in Hw. rewrite forallb_forall in Hw. specialize (Hw _ Hin).
    cbn in Hw |- *. by destruct (units key), (units text); cbn in *; rewrite ?andb_false_r in Hw. }
  destruct (stringify_plain _ Hp) as (text & Ht & Hv). unfold toyFields, toyText. rewrite Ht. cbn [default from_option id]. rewrite Hv.
  clear. cbn [fields_value]. induction params as [|[key text] params IH]; cbn; [done|]. by rewrite IH.
Qed.

Lemma trim_ends u s v : trimmed u = false -> trimmed v = false -> trim (u :: s ++ [v]) = u :: s ++ [v].
Proof.
  intros Hu Hv. unfold trim. cbn [trimStart]. rewrite Hu. change (u :: s ++ [v]) with ((u :: s) ++ [v]). rewrite rev_unit.
  cbn [trimStart]. rewrite Hv. change (rev (v :: rev (u :: s))) with (rev (rev (u :: s)) ++ [v]). by rewrite rev_involutive.
Qed.

#[local] Instance toyLinks : Links.
Proof.
  refine {| newURL := fun text => Some (toyURL []); resolveURL := fun text _ => Some (toyURL text);
    linkWithHash := fun _ _ hash => Some (js "#" ++ hash); paramsText := toyText; parseParams := toyFields |}.
  - exact toyFields_text.
  - intros _ _ params link _ _ Hl. apply (inj Some) in Hl. subst link. eexists. split; [reflexivity|]. cbn [url_hash toyURL].
    assert (exists body, js "#" ++ toyText params = 35%N :: body ++ [93%N]) as [body ->]; [|by rewrite trim_ends].
    eexists ([91%N] ++ _). rewrite <-app_assoc. reflexivity.
Defined.

Module PairingSample.
Definition issuer : Issuer := mkIssuer (js "person") (js "device") (js "key").
Definition workspaces : list WorkspaceItem := [mkWorkspace (js "w1") (js "Notes, and more"); mkWorkspace (js "w2") (js "Plans")].
Definition invite : ScopedInvitation := Eval vm_compute in
  match createWorkspaceJoinInvite (js "endpoint") (js "secret") issuer workspaces 1000 (Some editor) (js "i1") with
  | Ok invite => invite
  | Throw _ => OwnerReconnect (mkInvitation [] [] [] [] [] None [] [] []) []
  end.
Definition params : fields := Eval vm_compute in match invitationFields invite with Ok params => params | Throw _ => [] end.
Definition link : list N := Eval vm_compute in match invitationUrl (js "https://host") invite with Ok link => link | Throw _ => [] end.

Lemma invite_carried : carried (H := toyLinks) (H0 := isoCalendar) 2000 invite params.
Proof.
  split; [vm_compute; reflexivity|vm_compute; exact I|vm_compute; reflexivity|exact I| |].
  - exists 1000%Z, 601000%Z. split_and!; vm_compute; reflexivity.
  - split; [reflexivity|]. split; [reflexivity|]. split.
    + apply (bool_decide_eq_true_1 _). vm_compute. reflexivity.
    + repeat constructor; try (vm_compute; reflexivity); try (vm_compute; exact I);
        (apply (bool_decide_eq_true_1 _); vm_compute; reflexivity).
Qed.
End PairingSample.

(** The host name of a URL keeps the brackets of an IPv6 address, so a relay on
    the IPv6 loopback address is refused. *)
Theorem ipv6_loopback_relay_rejected `{Links} text url :
  newURL text = Some url -> url_protocol url = js "http:" -> url_hostname url = js "[::1]" ->
  validateRelayUrl text = Throw "Invalid browser relay address".
Proof.
  intros Hu Hp Hh. unfold validateRelayUrl. rewrite Hu, Hp, Hh.
  change (bool_decide (js "http:" = js "https:")) with false.
  change (bool_decide (js "[::1]" ∈ [js "localhost"; js "127.0.0.1"; js "::1"])) with false.
  rewrite andb_false_r. cbn [negb andb]. by rewrite orb_true_r.
Qed.


