(* ===== verification/FrameCodec.v ===== *)
(** * The codec of pairing frames

    The codec that [installPairingCodec] is given: [WasmPairingCodec] of
    [crates/meta-mesh/src/pairing.rs] over [PairingCodec] of
    [crates/meta-mesh-core/src/pairing.rs], with the budgets of
    [crates/meta-mesh-core/src/ingress.rs].  A frame is a JSON header, a newline
    and the payload.  The header's JSON is [serde_json]'s, an interface of its
    own; a Rust string is the UTF-16 text it is in JavaScript. *)
From stdpp Require Import base numbers list sorting strings.
From Stdlib Require Import ZArith NArith Lia.
From S2P Require Import Prelude Unicode Json Js Records Pairing.
Local Open Scope js_scope.
Local Open Scope Z_scope.

Definition PAIRING_VERSION : list N := js "0.0.1".

Definition PAIRING_FRAME_TYPES : list (list N) := map js [
  "sync-request"; "sync-response"; "sync-ack"; "sync-update"; "sync-heartbeat"; "sync-heartbeat-ack";
  "enroll-request"; "enroll-approved"; "enroll-rejected"; "enroll-rejected-ack"; "enroll-ack"; "enroll-complete";
  "workspace-join-request"; "workspace-join-response"; "workspace-join-rejected-ack";
  "mesh-handshake-request"; "mesh-handshake-response"; "mesh-handoff-request"; "mesh-handoff-ready"; "mesh-handoff-confirmed";
  "mesh-automerge-sync"; "mesh-proof-request-v1"; "mesh-proof-page-v1"; "mesh-control-sync";
  "mesh-owner-workspace-offer"; "mesh-owner-workspace-offer-page-v1"; "mesh-owner-reconnect-v1";
  "mesh-iroh-gossip"; "mesh-durable-batch"; "mesh-durable-ack";
  "mesh-blob-request-v1"; "mesh-blob-response-v1"; "mesh-blob-error-v1"].

Record PairingFrameHeader := mkHeader { frame_type : list N; header_version : list N; header_secret : list N }.

(** ** Budgets *)
Definition MAX_PAIRING_HEADER_BYTES : Z := 4 * 1024.
Definition MAX_RPC_FRAME_BYTES : Z := 16 * 1024 * 1024.
Definition MAX_ENROLLMENT_COMPLETION_PAYLOAD_BYTES : Z := 256.
Definition MAX_GOSSIP_PAYLOAD_BYTES : Z := 256 * 1024.
Definition MAX_AUTOMERGE_WIRE_PAYLOAD_BYTES : Z := 512 * 1024.
Definition MAX_CONTROL_FRAME_BYTES : Z := 256 * 1024.
Definition MAX_PROOF_FRAME_BYTES : Z := 256 * 1024.

Record PairingFrameBudget := mkBudget { max_wire_bytes : Z; max_payload_bytes : Z }.

Definition oneOf (type : list N) (names : list string) : bool := bool_decide (type ∈ map js names).

Definition pairing_frame_budget (type : list N) : option PairingFrameBudget :=
  if oneOf type ["sync-heartbeat"; "sync-heartbeat-ack"; "mesh-handoff-request"; "mesh-handoff-ready"; "mesh-handoff-confirmed"]
  then Some (mkBudget MAX_RPC_FRAME_BYTES 0) else
  if oneOf type ["enroll-complete"] then Some (mkBudget MAX_RPC_FRAME_BYTES MAX_ENROLLMENT_COMPLETION_PAYLOAD_BYTES) else
  if oneOf type ["mesh-control-sync"] then Some (mkBudget MAX_RPC_FRAME_BYTES MAX_CONTROL_FRAME_BYTES) else
  if oneOf type ["mesh-owner-workspace-offer-page-v1"] then Some (mkBudget MAX_RPC_FRAME_BYTES MAX_CONTROL_FRAME_BYTES) else
  if oneOf type ["mesh-iroh-gossip"] then Some (mkBudget MAX_RPC_FRAME_BYTES MAX_GOSSIP_PAYLOAD_BYTES) else
  if oneOf type ["mesh-automerge-sync"] then Some (mkBudget MAX_RPC_FRAME_BYTES MAX_AUTOMERGE_WIRE_PAYLOAD_BYTES) else
  if oneOf type ["mesh-proof-request-v1"; "mesh-proof-page-v1"] then Some (mkBudget MAX_PROOF_FRAME_BYTES (MAX_PROOF_FRAME_BYTES - 1)) else
  if oneOf type ["sync-request"; "sync-response"; "sync-ack"; "sync-update"; "enroll-request"; "enroll-approved"; "enroll-rejected";
    "enroll-rejected-ack"; "enroll-ack"; "workspace-join-request"; "workspace-join-response"; "workspace-join-rejected-ack";
    "mesh-handshake-request"; "mesh-handshake-response"; "mesh-owner-workspace-offer"; "mesh-owner-reconnect-v1";
    "mesh-durable-batch"; "mesh-durable-ack"; "mesh-blob-request-v1"; "mesh-blob-response-v1"; "mesh-blob-error-v1"]
  then Some (mkBudget MAX_RPC_FRAME_BYTES (MAX_RPC_FRAME_BYTES - 1)) else None.

Definition is_pairing_frame_type (type : list N) : bool := bool_decide (type ∈ PAIRING_FRAME_TYPES).

(** ** JSON of headers *)
Definition wellText (s : list N) : Prop := units s /\ wellFormed s.
Definition wellHeader (header : PairingFrameHeader) : Prop :=
  wellText (frame_type header) /\ wellText (header_version header) /\ wellText (header_secret header).

(** [serde_json]: compact JSON, in which control characters are escaped, and
    which reads as what was written. *)
Class HeaderJson := {
  header_to_vec : PairingFrameHeader -> option (list N);
  header_from_slice : list N -> option PairingFrameHeader;
  header_roundtrip : forall header, wellHeader header -> exists bytes,
    header_to_vec header = Some bytes /\ header_from_slice bytes = Some header /\ Forall (fun b => (32 <= b)%N) bytes }.

Definition size (bytes : list N) : Z := Z.of_nat (length bytes).

(** [iter().position(|byte| *byte == b'\n')] *)
Fixpoint newline (bytes : list N) : option nat :=
  match bytes with
  | [] => None
  | b :: rest => if (b =? 10)%N then Some O else S <$> newline rest
  end.

Section Codec.
Context `{HeaderJson}.

Definition headerOf (type secret : list N) : PairingFrameHeader := mkHeader type PAIRING_VERSION secret.

(** Of the messages with figures only the constant part is kept. *)
Definition pairing_payload_limit (type secret : list N) : result Z :=
  match pairing_frame_budget type, header_to_vec (headerOf type secret) with
  | None, _ | Some _, None => Throw "Pairing frame invalid"
  | Some budget, Some header =>
      let header_bytes := size header + 1 in
      if (MAX_PAIRING_HEADER_BYTES <? header_bytes) || (max_wire_bytes budget <? header_bytes)
      then Throw "Pairing header exceeds ingress limit"
      else Ok (Z.min (max_payload_bytes budget) (max_wire_bytes budget - header_bytes))
  end.

Definition encode (type secret payload : list N) : result (list N) :=
  match pairing_frame_budget type with
  | None => Throw "Pairing frame invalid"
  | Some budget =>
      if (length secret =? 0)%nat then Throw "Pairing frame invalid" else
      payload_limit ← pairing_payload_limit type secret;
      if payload_limit <? size payload then Throw "Pairing payload too large" else
      match header_to_vec (headerOf type secret) with
      | None => Throw "Pairing frame invalid"
      | Some frame =>
          if MAX_PAIRING_HEADER_BYTES <? size frame + 1 then Throw "Pairing header too large" else
          if max_wire_bytes budget <? size frame + 1 + size payload then Throw "Pairing frame too large" else
          Ok (frame ++ 10%N :: payload)
      end
  end.

(** The header of a frame, its budget and its separator, as both readers find them. *)
Definition readHeader (frame : list N) : result (PairingFrameHeader * nat) :=
  if MAX_RPC_FRAME_BYTES <? size frame then Throw "Pairing frame too large" else
  match newline (take (Z.to_nat MAX_PAIRING_HEADER_BYTES) frame) with
  | None => Throw "Pairing header missing or too large"
  | Some separator =>
      match header_from_slice (take separator frame) with
      | None => Throw "Pairing frame invalid"
      | Some header =>
          match pairing_frame_budget (frame_type header) with
          | None => Throw "Pairing frame invalid"
          | Some budget =>
              if max_wire_bytes budget <? size frame then Throw "Pairing frame too large" else
              if max_payload_bytes budget <? Z.max 0 (size frame - (Z.of_nat separator + 1)) then Throw "Pairing payload too large" else
              Ok (header, separator)
          end
      end
  end.

Definition inspect (frame : list N) : result PairingFrameHeader :=
  '(header, _) ← readHeader frame;
  if negb (bool_decide (header_version header = PAIRING_VERSION)) || (length (header_secret header) =? 0)%nat ||
     negb (is_pairing_frame_type (frame_type header))
  then Throw "Pairing frame invalid" else Ok header.

Definition decode (frame expected_type expected_secret : list N) : result (list N) :=
  '(header, separator) ← readHeader frame;
  if negb (bool_decide (frame_type header = expected_type)) || negb (bool_decide (header_version header = PAIRING_VERSION)) ||
     negb (bool_decide (header_secret header = expected_secret))
  then Throw "Pairing authorization failed" else Ok (drop (S separator) frame).

Definition preflight_pairing_frame (frame : list N) : result PairingFrameHeader :=
  if MAX_RPC_FRAME_BYTES <? size frame then Throw "Pairing frame exceeds ingress limit" else
  let header_bytes := take (Z.to_nat MAX_PAIRING_HEADER_BYTES) frame in
  header ← inspect header_bytes;
  match pairing_frame_budget (frame_type header) with
  | None => Throw "Pairing frame invalid"
  | Some budget =>
      if max_wire_bytes budget <? size frame then Throw "Pairing frame exceeds ingress limit" else
      let payload_len := Z.max 0 (size frame - Z.of_nat (S (default (length header_bytes) (newline header_bytes)))) in
      if max_payload_bytes budget <? payload_len then Throw "Pairing payload exceeds ingress limit" else Ok header
  end.

(** A JavaScript string as a Rust one: lone surrogates are replaced. *)
Definition passString (s : list N) : list N := concat (map fromPoint (map replacement (codePoints s))).

Definition wasmEncode (type secret payload : list N) : result (list N) :=
  payload_limit ← pairing_payload_limit (passString type) (passString secret);
  if payload_limit <? size payload then Throw "Pairing payload exceeds ingress limit" else
  encode (passString type) (passString secret) payload.

Definition wasmInspect (frame : list N) : result (option (list N) * option (list N)) :=
  header ← preflight_pairing_frame frame;
  Ok (Some (frame_type header), Some (header_secret header)).

Definition wasmDecode (frame expected_type expected_secret : list N) : result (list N) :=
  preflight_pairing_frame frame;;
  decode frame (passString expected_type) (passString expected_secret).

Definition WasmPairingCodec : PairingCodec := mkCodec wasmEncode wasmInspect wasmDecode.

(** ** What is framed is read again *)
Lemma budget_known type budget : pairing_frame_budget type = Some budget ->
  is_pairing_frame_type type = true /\ wellText type /\ max_wire_bytes budget <= MAX_RPC_FRAME_BYTES.
Proof.
  assert (forall names, forallb (fun name => is_pairing_frame_type (js name) && units (js name) && wellFormed (js name)) names = true ->
    oneOf type names = true -> is_pairing_frame_type type = true /\ wellText type) as Hnames.
  { intros names Hall (name & -> & Hin%list_elem_of_In)%bool_decide_eq_true%list_elem_of_fmap.
    rewrite forallb_forall in Hall. apply Hall in Hin. apply andb_true_iff in Hin as [[? ?]%andb_true_iff ?].
    split; [done|]. split; by apply Is_true_true. }
  unfold pairing_frame_budget.
  repeat match goal with |- context [oneOf type ?names] => destruct (oneOf type names) eqn:? end; try done; intros [= <-];
    (edestruct Hnames; [|eassumption|]; [vm_compute; reflexivity|]); split_and!; (done || (cbn [max_wire_bytes]; discriminate)).
Qed.

Lemma newline_app bytes rest : Forall (fun b => (32 <= b)%N) bytes -> newline (bytes ++ 10%N :: rest) = Some (length bytes).
Proof.
  induction 1 as [|b bytes Hb _ IH]; [done|]. cbn [app newline length]. rewrite (proj2 (N.eqb_neq b 10)) by lia. by rewrite IH.
Qed.

Lemma passString_text s : wellText s -> passString s = s.
Proof. intros [Hu Hw]. unfold passString. rewrite wellFormed_replacement by done. by apply fromPoint_codePoints. Qed.

Section Framed.
Variables (type secret header : list N) (budget : PairingFrameBudget).
Hypothesis Hbudget : pairing_frame_budget type = Some budget.
Hypothesis Hsecret : wellText secret /\ secret <> [].
Hypothesis Hheader : header_to_vec (headerOf type secret) = Some header.
Hypothesis Hroom : size header + 1 <= MAX_PAIRING_HEADER_BYTES.

Lemma framed_header : header_from_slice header = Some (headerOf type secret) /\ Forall (fun b => (32 <= b)%N) header.
Proof.
  destruct (header_roundtrip (headerOf type secret)) as (bytes & Hb & Hr & Hc); [|rewrite Hheader in Hb; by injection Hb as <-].
  split; [apply (budget_known _ _ Hbudget)|]. split; [by split; vm_compute|apply Hsecret].
Qed.

Section Payload.
Variable payload : list N.
Hypothesis Hpayload : size payload <= max_payload_bytes budget.
Hypothesis Hwire : size header + 1 + size payload <= max_wire_bytes budget.

Lemma framed_take n : size header + 1 <= n -> take (Z.to_nat n) (header ++ 10%N :: payload) = header ++ 10%N :: take (Z.to_nat n - S (length header)) payload.
Proof.
  intros Hn. unfold size in Hn. rewrite take_app, take_ge by lia. f_equal.
  replace (Z.to_nat n - length header)%nat with (S (Z.to_nat n - S (length header))) by lia. done.
Qed.

Lemma framed_size : size (header ++ 10%N :: payload) = size header + 1 + size payload.
Proof. unfold size. rewrite length_app. cbn [length]. lia. Qed.

Lemma framed_read : readHeader (header ++ 10%N :: payload) = Ok (headerOf type secret, length header).
Proof.
  destruct framed_header as [Hread Hplain]. destruct (budget_known _ _ Hbudget) as (_ & _ & Hrpc). unfold readHeader. rewrite framed_size.
  rewrite (proj2 (Z.ltb_ge _ _)) by lia. rewrite framed_take by done. rewrite newline_app by done. rewrite take_app_length, Hread.
  cbn [headerOf frame_type]. rewrite Hbudget. rewrite (proj2 (Z.ltb_ge _ _)) by lia.
  rewrite (proj2 (Z.ltb_ge _ _)); [done|]. unfold size in *. lia.
Qed.

Lemma framed_inspect : inspect (header ++ 10%N :: payload) = Ok (headerOf type secret).
Proof.
  unfold inspect. rewrite framed_read. cbn [mbind result_bind headerOf header_version header_secret frame_type].
  rewrite bool_decide_eq_true_2 by done. destruct (budget_known _ _ Hbudget) as (-> & _). destruct Hsecret as [_ Hne]. by destruct secret.
Qed.

Lemma framed_encode : wasmEncode type secret payload = Ok (header ++ 10%N :: payload).
Proof.
  destruct (budget_known _ _ Hbudget) as (_ & Htype & _). destruct Hsecret as [Htext Hne]. unfold wasmEncode, encode.
  rewrite !passString_text by done. unfold pairing_payload_limit. rewrite Hbudget, Hheader. unfold size in *.
  rewrite !(proj2 (Z.ltb_ge _ _)) by lia. cbn [orb mbind result_bind]. rewrite !(proj2 (Z.ltb_ge _ _)) by lia.
  destruct secret; [done|]. done.
Qed.
End Payload.

Lemma framed_preflight payload : size payload <= max_payload_bytes budget -> size header + 1 + size payload <= max_wire_bytes budget ->
  preflight_pairing_frame (header ++ 10%N :: payload) = Ok (headerOf type secret).
Proof.
  intros Hpayload Hwire. destruct framed_header as [_ Hplain]. destruct (budget_known _ _ Hbudget) as (_ & _ & Hrpc).
  unfold preflight_pairing_frame. rewrite framed_size. rewrite (proj2 (Z.ltb_ge _ _)) by lia. cbv zeta. rewrite framed_take by done.
  set (rest := take _ payload). assert (size rest <= size payload) as Hrest by (unfold rest, size; rewrite length_take; lia).
  rewrite framed_inspect by lia. cbn [mbind result_bind headerOf frame_type]. rewrite Hbudget, newline_app by done. cbn [default from_option id].
  rewrite (proj2 (Z.ltb_ge _ _)) by lia. rewrite (proj2 (Z.ltb_ge _ _)); [done|]. unfold size in *. lia.
Qed.

(** A payload within the budget of its type is framed, and the frame read as its
    type, its secret and its payload. *)
Lemma framed payload : size payload <= max_payload_bytes budget -> size header + 1 + size payload <= max_wire_bytes budget ->
  exists frame, codec_encode WasmPairingCodec type secret payload = Ok frame /\
    codec_inspect WasmPairingCodec frame = Ok (Some type, Some secret) /\ codec_decode WasmPairingCodec frame type secret = Ok payload /\
    size frame = size header + 1 + size payload.
Proof.
  intros Hpayload Hwire. exists (header ++ 10%N :: payload). cbn [codec_encode codec_inspect codec_decode WasmPairingCodec].
  destruct (budget_known _ _ Hbudget) as (_ & Htype & _). split_and!; [by apply framed_encode| | |apply framed_size].
  - unfold wasmInspect. by rewrite framed_preflight.
  - unfold wasmDecode. rewrite framed_preflight by done. cbn [mbind result_bind]. rewrite !passString_text by (done || apply Hsecret).
    unfold decode. rewrite framed_read by done. cbn [mbind result_bind headerOf frame_type header_version header_secret].
    rewrite !bool_decide_eq_true_2 by done. cbn [negb orb]. f_equal. change (S (length header)) with (1 + length header)%nat.
    by rewrite Nat.add_comm, <-drop_drop, drop_app_length.
Qed.
End Framed.
End Codec.

(** ** JSON to run the codec with: the compact text of the header's members *)
Definition header_value (header : PairingFrameHeader) : value :=
  Obj [(js "type", Str (frame_type header)); (js "version", Str (header_version header)); (js "secret", Str (header_secret header))].

Definition header_of (v : value) : option PairingFrameHeader :=
  match v.["type"], v.["version"], v.["secret"] with
  | Str type, Str version, Str secret => Some (mkHeader type version secret)
  | _, _, _ => None
  end.

Lemma header_value_plain header : wellHeader header -> plain (header_value header).
Proof.
  intros ([Ht _] & [Hv _] & [Hs _]). apply Is_true_true in Ht, Hv, Hs. apply Is_true_true.
  unfold header_value. cbn [plain forallb]. by rewrite Ht, Hv, Hs.
Qed.

Lemma stringify_printable v text : plain v -> JSON_stringify v = Some text -> Forall (fun u => (32 <= u)%N) text.
Proof.
  intros Hp Ht. pose proof (canonical_stringify (fun _ _ => true) _ Hp) as Hs. rewrite (canonical_total _ _ Hp), normal_id in Hs.
  apply (inj Ok) in Hs. rewrite Ht in Hs. apply (inj Some) in Hs as <-. by apply clean_wellFormed, clean_canonText.
Qed.

#[local] Instance jsonHeaders : HeaderJson.
Proof.
  refine {| header_to_vec := fun header => Some (encodeText (JSON_stringify (header_value header)));
            header_from_slice := fun bytes => (TextDecoder_decode bytes ≫= JSON_parse) ≫= header_of |}.
  intros header Hw. pose proof (header_value_plain header Hw) as Hp. eexists. split; [reflexivity|]. split.
  - rewrite (encoded_plain _ Hp) by by eexists. by destruct header.
  - destruct (stringify_plain _ Hp) as (text & Ht & _). unfold encodeText. rewrite Ht. cbn [default from_option id].
    by eapply TextEncoder_printable, stringify_printable.
Defined.
