(* ===== verification/ServiceLogin.v ===== *)
(** * Signing in to a service

    [packages/mesh-identity/src/serviceLogin.ts] and [serviceLoginClient.ts]: a
    service asks for a signature over a challenge, the browser of the user signs
    it with the key of a certified device, and the service checks the approval.
    A request is the value that crosses between the two.  [new URL] is a parameter.
    Each function that reads the clock or asks whether it is still current
    takes the answers in the order of the calls.  Milliseconds are exact integers,
    as those of a clock are: a [Date] stays below [2^53]. *)
From stdpp Require Import base numbers list sorting strings sets.
From Stdlib Require Import ZArith NArith Lia.
From S2P Require Import Prelude Unicode Json Js Base64 Digest Envelope Certificates ProfileValue Profile Recovery Records Pairing.
Local Open Scope js_scope.

Definition SERVICE_LOGIN_CALLBACK_PATH : list N := js "/.well-known/mesh-service-login/callback".
Definition loginDomain : list N := js "MESH-SERVICE-LOGIN/1".
Definition invalidRequest : string := "Sign-in request is invalid or expired. Retry from the service.".

Definition requestKeys : list (list N) :=
  [js "kind"; js "version"; js "origin"; js "challenge"; js "expires_at"; js "return_to"].

(** [/^[a-f0-9]{64}$/u] *)
Definition challengePattern (text : list N) : bool :=
  (length text =? 64)%nat && forallb (fun u => ProfileValue.between 97 102 u || ProfileValue.between 48 57 u) text.

Definition isExactRequest (v : value) : bool :=
  isRecord v && hasExactKeys v requestKeys && isStr (js "mesh-service-login-request") v.["kind"] && isInt 2 v.["version"] &&
  isString v.["origin"] && isString v.["challenge"] && match v.["expires_at"] with Num _ => true | _ => false end && isString v.["return_to"].

Definition request_value (origin challenge : list N) (expiresAt : Z) (returnTo : list N) : value :=
  Obj [(js "kind", Str (js "mesh-service-login-request")); (js "version", Num (Int 2)); (js "origin", Str origin);
       (js "challenge", Str challenge); (js "expires_at", Num (Int expiresAt)); (js "return_to", Str returnTo)].

Definition snapshotServiceLoginRequest (v : value) : value :=
  Obj [(js "kind", v.["kind"]); (js "version", v.["version"]); (js "origin", v.["origin"]);
       (js "challenge", v.["challenge"]); (js "expires_at", v.["expires_at"]); (js "return_to", v.["return_to"])].

Definition payload_value (origin challenge : value) (issuedAt expiresAt : Z) : value :=
  Obj [(js "kind", Str (js "mesh-service-login")); (js "version", Num (Int 1)); (js "origin", origin);
       (js "challenge", challenge); (js "issuedAt", Num (Int issuedAt)); (js "expiresAt", Num (Int expiresAt))].

Definition sameRequest (left right : value) : bool :=
  strictEqual left.["kind"] right.["kind"] && strictEqual left.["version"] right.["version"] &&
  strictEqual left.["origin"] right.["origin"] && strictEqual left.["challenge"] right.["challenge"] &&
  strictEqual left.["expires_at"] right.["expires_at"].

Definition approval_value (identity : value) (deviceId : list N) (certificates : list value) (proof : value) : value :=
  Obj [(js "identity", identity); (js "deviceId", Str deviceId); (js "certificates", Arr certificates); (js "proof", proof)].

Definition envelopeKeys : list (list N) := [js "payload"; js "signerKeyId"; js "signature"].

Definition isExactApproval (v : value) : bool :=
  isRecord v && hasExactKeys v [js "identity"; js "deviceId"; js "certificates"; js "proof"] &&
  isString v.["deviceId"] && isArray v.["certificates"] && negb (length (items v.["certificates"]) =? 0)%nat &&
  negb (32 <? length (items v.["certificates"]))%nat && isRecord v.["identity"] &&
  hasExactKeys v.["identity"] [js "personId"; js "publicKey"; js "displayName"] &&
  isString v.["identity"].["personId"] && isString v.["identity"].["publicKey"] && isString v.["identity"].["displayName"] &&
  isRecord v.["proof"] && hasExactKeys v.["proof"] envelopeKeys &&
  isString v.["proof"].["signerKeyId"] && isString v.["proof"].["signature"] && isRecord v.["proof"].["payload"] &&
  hasExactKeys v.["proof"].["payload"] [js "kind"; js "version"; js "origin"; js "challenge"; js "issuedAt"; js "expiresAt"] &&
  forallb (fun certificate => isRecord certificate && hasExactKeys certificate envelopeKeys) (items v.["certificates"]).

Section Login.
Context `{Platform} `{Sha256} `{Ed25519}.

Definition validServiceOrigin (origin : list N) : bool :=
  match parseURL origin with
  | None => false
  | Some url =>
      bool_decide (url_origin url = origin) && (length (url_username url) =? 0)%nat && (length (url_password url) =? 0)%nat &&
      (bool_decide (url_protocol url = js "https:") ||
       bool_decide (url_protocol url = js "http:") && bool_decide (url_hostname url ∈ [js "localhost"; js "127.0.0.1"; js "[::1]"]))
  end.

Definition validServiceCallback (returnTo origin : list N) : bool :=
  match parseURL returnTo with
  | None => false
  | Some url =>
      bool_decide (url_origin url = origin) && bool_decide (url_pathname url = SERVICE_LOGIN_CALLBACK_PATH) &&
      (length (url_search url) =? 0)%nat && (length (url_hash url) =? 0)%nat
  end.

(** The conditions [parseServiceLoginRequest] and [assertRequest] share. *)
Definition validRequest (v : value) (now : Z) : bool :=
  isExactRequest v && validServiceOrigin (textOf v.["origin"]) && validServiceCallback (textOf v.["return_to"]) (textOf v.["origin"]) &&
  challengePattern (textOf v.["challenge"]) && isSafeInteger now && (0 <=? now)%Z &&
  match safeInt v.["expires_at"] with Some expires => (now <? expires)%Z && (expires <=? now + 120)%Z | None => false end.

Definition assertRequest (v : value) (now : Z) : result unit := require (validRequest v now) invalidRequest.

Definition parseServiceLoginRequest (encoded : list N) (now : Z) : result value :=
  if (length encoded =? 0)%nat || (4096 <? length encoded)%nat || negb (isSafeInteger now) || (now <? 0)%Z || negb (forallb urlChar encoded)
  then Throw "Invalid sign-in request" else
  match fromBase64Url encoded with
  | Throw _ => Throw "Invalid sign-in request"
  | Ok bytes =>
      match TextDecoder_decode bytes ≫= JSON_parse with
      | None => Throw "Invalid sign-in request"
      | Some v => if validRequest v now then Ok v else Throw invalidRequest
      end
  end.

Definition serviceLoginPayload (request : value) (now : Z) : result value :=
  assertRequest request now;;
  Ok (payload_value request.["origin"] request.["challenge"] (now * 1000) (intOf request.["expires_at"] * 1000)).

Definition assertServiceLoginRequest (current expected : value) (now : Z) : result unit :=
  if negb (isExactRequest current) || negb (sameRequest current expected) then Throw "Service login approval changed"
  else assertRequest expected now.

(** [Math.floor(now() / 1000)] *)
Definition seconds (now : Z) : Z := (now / 1000)%Z.

Definition createServiceLoginApproval (profile : LocalProfile) (requestValue : value) (extra : list value)
    (ensureCurrent : nat -> result unit) (now : nat -> Z) : result value :=
  let request := snapshotServiceLoginRequest requestValue in
  let certificates := local_certificate profile :: extra in
  ensureCurrent 0%nat;;
  let issuedAt := seconds (now 0%nat) in
  assertRequest request issuedAt;;
  certifiedKey ← verifyDeviceCertificateChain (local_identity profile) (js "MATCH/1") (local_deviceId profile) certificates;
  if negb (isStr (local_publicKey profile) certifiedKey) ||
     negb (isStr (local_publicKey profile) (local_certificate profile).["payload"].["devicePublicKey"])
  then Throw "Certified signing device key mismatch" else
  payload ← serviceLoginPayload request issuedAt;
  proof ← signEnvelope (local_deviceKey profile) payload (local_deviceId profile) loginDomain;
  ensureCurrent 1%nat;;
  assertRequest request (seconds (now 1%nat));;
  verified ← verifyEnvelope proof (Str (local_publicKey profile)) loginDomain;
  if negb (verified : bool) then Throw "Private signing key does not match its certified device" else
  assertRequest request (seconds (now 2%nat));;
  Ok (approval_value (identity_value (local_identity profile)) (local_deviceId profile) certificates proof).

(** ** The side of the service *)
Definition encodeServiceLoginRequest (request : value) (now : Z) : result (list N) :=
  let encoded := toBase64Url (encodeText (JSON_stringify request)) in
  parseServiceLoginRequest encoded (seconds now);;
  Ok encoded.

(** [bytes] are random; [callback] is [new URL(path, origin).href]. *)
Definition createServiceLoginRequest (origin bytes : list N) (callback : option (list N)) (now : Z) : result value :=
  let hex (n : N) : N := if (n <? 10)%N then (48 + n)%N else (87 + n)%N in
  let challenge := concat (map (fun byte => [hex (byte / 16)%N; hex (byte mod 16)%N]) bytes) in
  match callback with
  | None => Throw "Invalid URL"
  | Some returnTo =>
      let request := request_value origin challenge (seconds now + 120) returnTo in
      encodeServiceLoginRequest request now;;
      Ok request
  end.

(** What the payload of a proof has to say about the request. *)
Definition proofMatches (payload expected : value) (before after : Z) : bool :=
  strictEqual payload.["kind"] expected.["kind"] && strictEqual payload.["version"] expected.["version"] &&
  strictEqual payload.["origin"] expected.["origin"] && strictEqual payload.["challenge"] expected.["challenge"] &&
  strictEqual payload.["expiresAt"] expected.["expiresAt"] &&
  match safeInt payload.["issuedAt"], payload.["expiresAt"] with
  | Some issuedAt, Num (Int expiresAt) =>
      (issuedAt <=? before + 30000)%Z && (after - 120000 <=? issuedAt)%Z && (issuedAt <? expiresAt)%Z && (expiresAt <=? issuedAt + 120000)%Z
  | _, _ => false
  end.

Definition verifyServiceLoginApproval (approvalValue requestValue : value) (now : nat -> Z) : result value :=
  let request := snapshotServiceLoginRequest requestValue in
  encodeServiceLoginRequest request (now 0%nat);;
  match JSON_stringify approvalValue with
  | None => Throw "Invalid Identity approval"
  | Some serialized =>
      if (length serialized =? 0)%nat || (64000 <? Z.of_nat (length serialized))%Z then Throw "Invalid Identity approval" else
      match JSON_parse serialized with
      | None => Throw "SyntaxError"
      | Some approval =>
          if negb (isExactApproval approval) || negb (strictEqual approval.["proof"].["signerKeyId"] approval.["deviceId"])
          then Throw "Invalid Identity approval" else
          expected ← serviceLoginPayload request (seconds (now 1%nat));
          if negb (proofMatches approval.["proof"].["payload"] expected (now 2%nat) (now 3%nat))
          then Throw "Identity approval request mismatch" else
          verifySigned approval.["identity"] approval.["deviceId"] approval.["certificates"] approval.["proof"] loginDomain "Invalid Identity signature";;
          encodeServiceLoginRequest request (now 4%nat);;
          Ok approval
      end
  end.
End Login.

(** ** Requests *)
Section Requests.
Context `{Platform}.

Record exactRequest (v : value) (origin challenge returnTo : list N) (expires : Z) : Prop := {
  exact_kind : v.["kind"] = Str (js "mesh-service-login-request");
  exact_version : v.["version"] = Num (Int 2);
  exact_origin : v.["origin"] = Str origin;
  exact_challenge : v.["challenge"] = Str challenge;
  exact_expires : v.["expires_at"] = Num (Int expires);
  exact_return : v.["return_to"] = Str returnTo }.

Lemma validRequest_exact v now : validRequest v now = true ->
  exists origin challenge returnTo expires, exactRequest v origin challenge returnTo expires /\ isSafeInteger expires /\
    (now < expires <= now + 120)%Z.
Proof.
  unfold validRequest, isExactRequest. intros Hv. bool_to_prop.
  repeat match goal with H : isStr _ _ = true |- _ => apply isStr_true in H | H : isInt _ _ = true |- _ => apply isInt_true in H end.
  destruct v.["origin"] as [| | | |origin| |] eqn:Ho; try done. destruct v.["challenge"] as [| | | |challenge| |] eqn:Hc; try done.
  destruct v.["return_to"] as [| | | |returnTo| |] eqn:Hr; try done. destruct v.["expires_at"] as [| | |[z| |]| | |] eqn:He; try done.
  cbn [safeInt] in *. destruct (isSafeInteger z) eqn:Hz; [|done]. bool_to_prop.
  repeat match goal with H : Z.ltb _ _ = true |- _ => apply Z.ltb_lt in H | H : Z.leb _ _ = true |- _ => apply Z.leb_le in H end.
  exists origin, challenge, returnTo, z. split; [by constructor|]. split; [apply Is_true_true, Hz|lia].
Qed.

Lemma exact_snapshot v origin challenge returnTo expires : exactRequest v origin challenge returnTo expires ->
  snapshotServiceLoginRequest v = request_value origin challenge expires returnTo.
Proof. intros [Hk Hv Ho Hc He Hr]. unfold snapshotServiceLoginRequest. by rewrite Hk, Hv, Ho, Hc, He, Hr. Qed.

Lemma exact_unique v origin challenge returnTo expires origin' challenge' returnTo' expires' :
  exactRequest v origin challenge returnTo expires -> exactRequest v origin' challenge' returnTo' expires' ->
  origin = origin' /\ challenge = challenge' /\ expires = expires'.
Proof. intros [_ _ Ho Hc He _] [_ _ Ho' Hc' He' _]. split_and!; congruence. Qed.

Lemma encoded_bytes v : plain v -> Forall isByte (encodeText (JSON_stringify v)).
Proof.
  intros Hp. pose proof (canonical_stringify (fun _ _ => true) v Hp) as Hs. rewrite (canonical_total _ _ Hp), normal_id in Hs.
  apply (inj Ok) in Hs. rewrite <-Hs. unfold encodeText. cbn [default from_option id].
  destruct (clean_wellFormed _ (clean_canonText (fun _ _ => true) v Hp)) as (Hu & Hw & _).
  unfold TextEncoder_encode. rewrite wellFormed_replacement by done. apply (wellFormed_scalar _ Hu) in Hw. unfold encodePoints.
  induction Hw as [|c points Hc _ IH]; cbn [map concat]; [constructor|]. apply Forall_app. split; [by apply scalar_bytes|done].
Qed.

(** The text of a request reads back as the request wherever it is valid. *)
Lemma encode_valid request encoded now now' : plain request -> (exists ms, request = Obj ms) ->
  encodeServiceLoginRequest request now = Ok encoded -> validRequest request (seconds now') = true -> encodeServiceLoginRequest request now' = Ok encoded.
Proof.
  intros Hp Hobj (v & Hparse & Hok)%bind_ok Hvalid. apply (inj Ok) in Hok. unfold encodeServiceLoginRequest. rewrite Hok in *.
  unfold parseServiceLoginRequest in *. revert Hparse. guard_passed as Hg. apply orb_false_iff in Hg as [Hg Hchars]. do 2 apply orb_false_iff in Hg as [Hg _].
  rewrite Hg. assert (isSafeInteger (seconds now') = true /\ (seconds now' <? 0)%Z = false) as [-> ->].
  { unfold validRequest in Hvalid. bool_to_prop. split; [done|]. apply Z.ltb_ge. by apply Z.leb_le. }
  rewrite Hchars. cbn [negb orb]. destruct (fromBase64Url encoded) as [bytes|e] eqn:Hb; [|done].
  assert (bytes = encodeText (JSON_stringify request)) as ->.
  { subst encoded. rewrite from_toBase64Url in Hb; [by apply (inj Ok) in Hb|]. by apply encoded_bytes. }
  rewrite (encoded_plain _ Hp Hobj), Hvalid. done.
Qed.
End Requests.

(** ** Approvals *)
Section Approvals.
Context `{Platform} `{Sha256} `{Ed25519}.

Lemma strictEqual_id v v' : strictEqual v v' = true -> v = v'.
Proof.
  destruct v as [| |b|[z| |]|s| |], v' as [| |b'|[z'| |]|s'| |]; cbn; try done.
  - by intros ->%Bool.eqb_prop. - by intros ->%Z.eqb_eq. - by intros ->%Bool.eqb_prop. - by intros ->%bool_decide_eq_true.
Qed.
Lemma strictEqual_num v z : strictEqual v (Num (Int z)) = true <-> v = Num (Int z).
Proof. split; [apply strictEqual_id|]. intros ->. apply Z.eqb_refl. Qed.

Lemma proofMatches_ok payload origin challenge issued' expires before after :
  proofMatches payload (payload_value (Str origin) (Str challenge) issued' expires) before after = true <->
  payload.["kind"] = Str (js "mesh-service-login") /\ payload.["version"] = Num (Int 1) /\ payload.["origin"] = Str origin /\
  payload.["challenge"] = Str challenge /\ payload.["expiresAt"] = Num (Int expires) /\
  exists issued, payload.["issuedAt"] = Num (Int issued) /\ isSafeInteger issued /\
    (after - 120000 <= issued <= before + 30000)%Z /\ (issued < expires <= issued + 120000)%Z.
Proof.
  unfold proofMatches. set (expected := payload_value _ _ _ _).
  change (expected.["kind"]) with (Str (js "mesh-service-login")). change (expected.["version"]) with (Num (Int 1)).
  change (expected.["origin"]) with (Str origin). change (expected.["challenge"]) with (Str challenge). change (expected.["expiresAt"]) with (Num (Int expires)).
  rewrite !andb_true_iff, !strictEqual_str, !strictEqual_num. split.
  - intros (((((? & ?) & ?) & ?) & He) & Ht). split_and!; [done..|]. rewrite He in Ht. unfold safeInt in Ht.
    destruct (payload.["issuedAt"]) as [| | |[issued| |]| | |]; try done. destruct (isSafeInteger issued) eqn:Hs; [|done].
    apply andb_true_iff in Ht as [[[?%Z.leb_le ?%Z.leb_le]%andb_true_iff ?%Z.ltb_lt]%andb_true_iff ?%Z.leb_le].
    exists issued. rewrite Hs. split_and!; done || lia.
  - intros (? & ? & ? & ? & He & issued & Hi & Hs%Is_true_true & Hb & Ht). split_and!; [done..|]. rewrite He, Hi. cbn [safeInt]. rewrite Hs.
    rewrite !andb_true_iff, !Z.leb_le, Z.ltb_lt. lia.
Qed.

(** What an approval says when it passes: a device of the identity signed, for
    the origin and the challenge of the request, within its time. *)
Record approves (approval : value) (origin challenge : list N) (expires before after : Z) : Prop := {
  approves_signed : authentic approval.["identity"] approval.["deviceId"] (items approval.["certificates"]) approval.["proof"] loginDomain;
  approves_signer : approval.["proof"].["signerKeyId"] = approval.["deviceId"];
  approves_kind : approval.["proof"].["payload"].["kind"] = Str (js "mesh-service-login");
  approves_origin : approval.["proof"].["payload"].["origin"] = Str origin;
  approves_challenge : approval.["proof"].["payload"].["challenge"] = Str challenge;
  approves_expires : approval.["proof"].["payload"].["expiresAt"] = Num (Int (expires * 1000));
  approves_issued : exists issued, approval.["proof"].["payload"].["issuedAt"] = Num (Int issued) /\
    (after - 120000 <= issued <= before + 30000)%Z /\ (issued < expires * 1000 <= issued + 120000)%Z }.

Lemma approval_verified approvalValue requestValue now approval :
  verifyServiceLoginApproval approvalValue requestValue now = Ok approval ->
  exists origin challenge returnTo expires, exactRequest requestValue origin challenge returnTo expires /\
    validServiceOrigin origin = true /\ approves approval origin challenge expires (now 2%nat) (now 3%nat).
Proof.
  unfold verifyServiceLoginApproval. intros (encoded & Henc & Hr)%bind_ok. destruct (JSON_stringify approvalValue) as [serialized|]; [|done].
  revert Hr. guard_passed as Hlen. destruct (JSON_parse serialized) as [a|]; [|done]. guard_passed as Hshape.
  apply orb_false_iff in Hshape as [Hshape%negb_false_iff Hsigner%negb_false_iff]. intros (expected & Hexp & Hr)%bind_ok. revert Hr.
  guard_passed as Hmatch. apply negb_false_iff in Hmatch. intros ([] & Hsigned%verifySigned_authentic & Hr)%bind_ok.
  apply bind_ok in Hr as (encoded' & _ & [= ->]). apply bind_ok in Hexp as ([] & Hvalid & Hexp). apply require_ok in Hvalid.
  apply (inj Ok) in Hexp as <-. destruct (validRequest_exact _ _ Hvalid) as (origin & challenge & returnTo & expires & Hexact & _ & Hbounds).
  assert (exactRequest requestValue origin challenge returnTo expires) as Hexact' by (destruct Hexact; by constructor).
  exists origin, challenge, returnTo, expires. split; [done|]. split.
  { unfold validRequest in Hvalid. bool_to_prop. rewrite (exact_origin _ _ _ _ _ Hexact) in *. done. }
  unfold proofMatches in Hmatch. rewrite (exact_origin _ _ _ _ _ Hexact), (exact_challenge _ _ _ _ _ Hexact), (exact_expires _ _ _ _ _ Hexact) in Hmatch.
  apply proofMatches_ok in Hmatch as (Hk & _ & Ho & Hc & He & issued & Hi & _ & Hb & Ht). apply strictEqual_id in Hsigner.
  constructor; try done. by exists issued.
Qed.

(** What [createServiceLoginApproval] has established when it returns. *)
Lemma approval_created profile requestValue extra ensureCurrent now approval :
  createServiceLoginApproval profile requestValue extra ensureCurrent now = Ok approval ->
  exists origin challenge returnTo expires signature, exactRequest requestValue origin challenge returnTo expires /\
    (seconds (now 0%nat) < expires <= seconds (now 0%nat) + 120)%Z /\
    verifyDeviceCertificateChain (local_identity profile) (js "MATCH/1") (local_deviceId profile) (local_certificate profile :: extra)
      = Ok (Str (local_publicKey profile)) /\
    approval = approval_value (identity_value (local_identity profile)) (local_deviceId profile) (local_certificate profile :: extra)
      (envelope_value (payload_value (Str origin) (Str challenge) (seconds (now 0%nat) * 1000) (expires * 1000)) (local_deviceId profile) signature) /\
    verifyEnvelope approval.["proof"] (Str (local_publicKey profile)) loginDomain = Ok true.
Proof.
  unfold createServiceLoginApproval. intros ([] & _ & Hr)%bind_ok. apply bind_ok in Hr as ([] & Hvalid%require_ok & Hr).
  apply bind_ok in Hr as (key & Hkey & Hr). revert Hr. guard_passed as Hk. apply orb_false_iff in Hk as [Hk%negb_false_iff%isStr_true _]. subst key.
  intros (payload & Hpay & Hr)%bind_ok. apply bind_ok in Hr as (proof & Hsign & Hr). apply bind_ok in Hr as ([] & _ & Hr).
  apply bind_ok in Hr as ([] & _ & Hr). apply bind_ok in Hr as (b & Hver & Hr). destruct b; [|done]. apply bind_ok in Hr as ([] & _ & Hr).
  apply (inj Ok) in Hr as <-. destruct (validRequest_exact _ _ Hvalid) as (origin & challenge & returnTo & expires & Hexact & _ & Hb).
  apply bind_ok in Hpay as ([] & _ & Hpay). apply (inj Ok) in Hpay.
  rewrite (exact_origin _ _ _ _ _ Hexact), (exact_challenge _ _ _ _ _ Hexact), (exact_expires _ _ _ _ _ Hexact) in Hpay.
  change (intOf (Num (Int expires))) with expires in Hpay. subst payload.
  destruct (sign_solid (local_deviceKey profile) (payload_value (Str origin) (Str challenge) (seconds (now 0%nat) * 1000) (expires * 1000))
    (js "mesh-service-login") (local_deviceId profile) loginDomain) as (signature & Hsig & _); [done|done|].
  rewrite Hsign in Hsig. apply (inj Ok) in Hsig as ->. exists origin, challenge, returnTo, expires, signature.
  split_and!; [destruct Hexact; by constructor|lia..|done|done|exact Hver].
Qed.

(** Approvals that are JSON data are accepted as they are. *)
Lemma accepted_same approval requestValue now accepted :
  plain approval -> verifyServiceLoginApproval approval requestValue now = Ok accepted -> accepted = approval.
Proof.
  intros (text & Htext & Hparse)%stringify_plain. unfold verifyServiceLoginApproval. intros (encoded & _ & Hr)%bind_ok. rewrite Htext in Hr. revert Hr.
  guard_passed as Hlen. rewrite Hparse. guard_passed as Hshape. intros (expected & _ & Hr)%bind_ok. revert Hr. guard_passed as Hmatch.
  intros ([] & _ & Hr)%bind_ok. by apply bind_ok in Hr as (encoded' & _ & [= ->]).
Qed.

Lemma identityOf_value identity : identityOf (identity_value identity) = Ok identity.
Proof. by destruct identity. Qed.

Definition exactEnvelope (certificate : value) : bool := isRecord certificate && hasExactKeys certificate envelopeKeys.

Lemma approval_exact identity deviceId certificates payload signerId signature :
  (1 <= length certificates <= 32)%nat -> forallb exactEnvelope certificates = true ->
  (exists origin challenge issued expires, payload = payload_value origin challenge issued expires) ->
  isExactApproval (approval_value (identity_value identity) deviceId certificates (envelope_value payload signerId signature)) = true.
Proof.
  intros Hlen Hcs (origin & challenge & issued & expires & ->). unfold isExactApproval. set (v := approval_value _ _ _ _).
  change (v.["certificates"]) with (Arr certificates). cbn [items isArray].
  change (forallb (fun certificate => isRecord certificate && hasExactKeys certificate envelopeKeys) certificates) with (forallb exactEnvelope certificates).
  rewrite Hcs. rewrite (proj2 (Nat.eqb_neq _ _)) by lia. rewrite (proj2 (Nat.ltb_ge _ _)) by lia. reflexivity.
Qed.

Lemma plain_request v origin challenge returnTo expires : plain v -> exactRequest v origin challenge returnTo expires ->
  plain (snapshotServiceLoginRequest v).
Proof.
  intros Hp Hexact. rewrite (exact_snapshot _ _ _ _ _ Hexact). destruct Hexact as [_ _ Ho Hc He Hr].
  assert (forall key w, getOpt key v = w -> w <> Undefined -> plain w) as Hget by (intros key w <- Hne; by destruct (plain_get key v Hp)).
  apply plain_obj. split; [|apply (bool_decide_eq_true_1 _); vm_compute; reflexivity].
  rewrite !Forall_cons. cbn [fst snd]. split_and!; try done; [by apply (Hget (js "origin"))|by apply (Hget (js "challenge"))|
    by apply (Hget (js "expires_at"))|by apply (Hget (js "return_to"))].
Qed.

(** The checks that remain once the request and the shape are known. *)
Lemma approval_passes approval requestValue encoded clock created origin challenge returnTo expires text :
  plain requestValue -> exactRequest requestValue origin challenge returnTo expires ->
  encodeServiceLoginRequest (snapshotServiceLoginRequest requestValue) created = Ok encoded ->
  (forall k, validRequest (snapshotServiceLoginRequest requestValue) (seconds (clock k)) = true) ->
  JSON_stringify approval = Some text -> JSON_parse text = Some approval -> (Z.of_nat (length text) <= 64000)%Z ->
  isExactApproval approval = true -> approval.["proof"].["signerKeyId"] = approval.["deviceId"] ->
  proofMatches approval.["proof"].["payload"] (payload_value (Str origin) (Str challenge) (seconds (clock 1%nat) * 1000) (expires * 1000)) (clock 2%nat) (clock 3%nat) = true ->
  verifySigned approval.["identity"] approval.["deviceId"] approval.["certificates"] approval.["proof"] loginDomain "Invalid Identity signature" = Ok tt ->
  verifyServiceLoginApproval approval requestValue clock = Ok approval.
Proof.
  intros Hp Hexact Henc Hvalid Htext Hparse Hlen Hshape Hsigner Hmatch Hsigned. unfold verifyServiceLoginApproval.
  assert (forall k, encodeServiceLoginRequest (snapshotServiceLoginRequest requestValue) (clock k) = Ok encoded) as Hencode.
  { intros k. eapply encode_valid; [by eapply plain_request|by eexists|done|apply Hvalid]. }
  rewrite Hencode. cbn [mbind result_bind]. rewrite Htext. destruct (Nat.eqb_spec (length text) 0) as [Hz|_].
  { by destruct text. }
  rewrite (proj2 (Z.ltb_ge _ _)) by done. cbn [orb]. rewrite Hparse, Hshape, Hsigner.
  assert (strictEqual approval.["deviceId"] approval.["deviceId"] = true) as ->.
  { unfold isExactApproval in Hshape. bool_to_prop. destruct (approval.["deviceId"]); try done. by apply bool_decide_eq_true. }
  cbn [negb orb]. unfold serviceLoginPayload, assertRequest, require. rewrite Hvalid. cbn [mbind result_bind].
  rewrite (exact_snapshot _ _ _ _ _ Hexact) in *.
  change ((request_value origin challenge expires returnTo).["origin"]) with (Str origin).
  change ((request_value origin challenge expires returnTo).["challenge"]) with (Str challenge).
  change (intOf (request_value origin challenge expires returnTo).["expires_at"]) with expires.
  rewrite Hmatch. cbn [negb]. rewrite Hsigned. cbn [mbind result_bind]. by rewrite Hencode.
Qed.
End Approvals.

(** C32. Signing in works and is bound to its request: an approval that
    [createServiceLoginApproval] returns for a request the service encoded is
    accepted by [verifyServiceLoginApproval] while the request is valid, if it is
    JSON data within the size limit, the certificates have the fields of envelopes
    and the clock of the service is at most 30 seconds behind; whoever accepts
    it, at any time, accepts it for a request with the same origin and challenge,
    signed by a certified device of the identity it names. *)
Theorem service_login_bound `{Platform} `{Sha256} `{Ed25519} profile requestValue extra ensureCurrent now approval encoded created clock :
  createServiceLoginApproval profile requestValue extra ensureCurrent now = Ok approval ->
  plain requestValue -> plain approval -> (forall text, JSON_stringify approval = Some text -> Z.of_nat (length text) <= 64000)%Z ->
  forallb exactEnvelope (local_certificate profile :: extra) = true ->
  encodeServiceLoginRequest (snapshotServiceLoginRequest requestValue) created = Ok encoded ->
  (forall k, validRequest (snapshotServiceLoginRequest requestValue) (seconds (clock k)) = true) ->
  (seconds (now 0%nat) * 1000 <= clock 2%nat + 30000)%Z ->
  verifyServiceLoginApproval approval requestValue clock = Ok approval /\
  forall other clock' accepted, verifyServiceLoginApproval approval other clock' = Ok accepted ->
    other.["origin"] = requestValue.["origin"] /\ other.["challenge"] = requestValue.["challenge"] /\
    authentic accepted.["identity"] accepted.["deviceId"] (items accepted.["certificates"]) accepted.["proof"] loginDomain.
Proof.
  intros Hmade Hp Hplain Hlen Hcs Henc Hvalid Hskew.
  destruct (approval_created _ _ _ _ _ _ Hmade) as (origin & challenge & returnTo & expires & signature & Hexact & Hbounds & Hkey & Happroval & Hver).
  set (payload := payload_value (Str origin) (Str challenge) (seconds (now 0%nat) * 1000) (expires * 1000)) in Happroval.
  assert (approval.["proof"].["payload"] = payload) as Hpayload by by rewrite Happroval.
  assert (plain payload) as Hpp.
  { rewrite <-Hpayload. do 2 (match goal with |- Is_true (plain (getOpt ?k ?v)) => destruct (plain_get k v) as [Hu|]; [|rewrite Happroval in Hu; discriminate Hu|done] end); done. }
  split.
  - destruct (stringify_plain _ Hplain) as (text & Htext & Hparse).
    apply (approval_passes approval requestValue encoded clock created origin challenge returnTo expires text); try done.
    + by apply Hlen.
    + rewrite Happroval. apply approval_exact; [|done|by do 4 eexists]. by apply verifyDevice_sound in Hkey as (_ & ? & _).
    + by rewrite Happroval.
    + rewrite Hpayload. apply proofMatches_ok. split_and!; [done..|]. exists (seconds (now 0%nat) * 1000)%Z.
      assert (clock 3%nat < expires * 1000)%Z as Hlate.
      { destruct (validRequest_exact _ _ (Hvalid 3%nat)) as (o & c & r & e & He & _ & He'). assert (e = expires) as ->.
        { eapply exact_unique; [|exact Hexact]. destruct He. by constructor. }
        unfold seconds in He'. pose proof (Z.div_mod (clock 3%nat) 1000 ltac:(done)). pose proof (Z.mod_pos_bound (clock 3%nat) 1000 ltac:(done)). lia. }
      split; [done|]. split; [|lia]. apply plain_members in Hpp as [Hpp _]. rewrite !Forall_cons in Hpp. cbn [fst snd] in Hpp.
      by destruct Hpp as (_ & _ & _ & _ & [_ Hissued] & _).
    + rewrite Happroval. unfold verifySigned, verifyDevice. set (v := approval_value _ _ _ _). change (v.["identity"]) with (identity_value (local_identity profile)).
      rewrite identityOf_value. cbn [mbind result_bind]. change (v.["deviceId"]) with (Str (local_deviceId profile)).
      change (v.["certificates"]) with (Arr (local_certificate profile :: extra)). cbv iota. rewrite Hkey. cbn [mbind result_bind].
      unfold v. rewrite <-Happroval, Hver. done.
  - intros other clock' accepted Hacc. pose proof (accepted_same _ _ _ _ Hplain Hacc) as ->.
    destruct (approval_verified _ _ _ _ Hacc) as (origin' & challenge' & returnTo' & expires' & Hexact' & _ & Happroves).
    pose proof (approves_origin _ _ _ _ _ _ Happroves) as Ho. pose proof (approves_challenge _ _ _ _ _ _ Happroves) as Hc.
    rewrite Hpayload in Ho, Hc. rewrite (exact_origin _ _ _ _ _ Hexact'), (exact_challenge _ _ _ _ _ Hexact'), (exact_origin _ _ _ _ _ Hexact), (exact_challenge _ _ _ _ _ Hexact).
    split_and!; [by rewrite <-Ho|by rewrite <-Hc|by eapply approves_signed].
Qed.

(** The check that an approval is still for the request that was shown does
    not look at where it returns to. *)
Lemma login_return_unchecked `{Platform} origin challenge expires shown returnTo now :
  validRequest (request_value origin challenge expires returnTo) now = true ->
  assertServiceLoginRequest (request_value origin challenge expires shown) (request_value origin challenge expires returnTo) now = Ok tt.
Proof.
  intros Hvalid. unfold assertServiceLoginRequest, assertRequest, require. rewrite Hvalid.
  assert (sameRequest (request_value origin challenge expires shown) (request_value origin challenge expires returnTo) = true) as ->; [|done].
  unfold sameRequest. set (left := request_value origin challenge expires shown). set (right := request_value origin challenge expires returnTo).
  change (left.["kind"]) with (Str (js "mesh-service-login-request")). change (right.["kind"]) with (Str (js "mesh-service-login-request")).
  change (left.["version"]) with (Num (Int 2)). change (right.["version"]) with (Num (Int 2)).
  change (left.["origin"]) with (Str origin). change (right.["origin"]) with (Str origin).
  change (left.["challenge"]) with (Str challenge). change (right.["challenge"]) with (Str challenge).
  change (left.["expires_at"]) with (Num (Int expires)). change (right.["expires_at"]) with (Num (Int expires)).
  rewrite !(proj2 (strictEqual_str _ _)), !(proj2 (strictEqual_num _ _)) by done. done.
Qed.

Module LoginSample.
#[local] Existing Instance checksumSha256.
#[local] Existing Instance toyEd25519.

Definition origin : list N := js "https://service.example".
(** A platform that knows the URLs of one service. *)
Definition parse (text : list N) : option URL :=
  if bool_decide (text = origin) then Some (mkURL origin [] [] (js "/") [] [] (js "https:") (js "service.example"))
  else if bool_decide (text = origin ++ SERVICE_LOGIN_CALLBACK_PATH)
  then Some (mkURL origin [] [] SERVICE_LOGIN_CALLBACK_PATH [] [] (js "https:") (js "service.example")) else None.
#[export] Instance servicePlatform : Platform := {| nfkc := fun text => text; parseURL := parse |}.

Definition request : value := request_value origin (replicate 64 97%N) 100 (origin ++ SERVICE_LOGIN_CALLBACK_PATH).
Definition encoded : list N := Eval vm_compute in match encodeServiceLoginRequest request 4000 with Ok text => text | Throw _ => [] end.
Definition approval : value := Eval vm_compute in
  ProfileSample.orUndefined (createServiceLoginApproval ProfileSample.profile request [] ProfileSample.always (fun _ => 4000%Z)).

Lemma approval_made : createServiceLoginApproval ProfileSample.profile request [] ProfileSample.always (fun _ => 4000%Z) = Ok approval.
Proof. vm_compute. reflexivity. Qed.
Lemma approval_size text : JSON_stringify approval = Some text -> (Z.of_nat (length text) <= 64000)%Z.
Proof.
  intros Ht. assert ((Z.of_nat (length (default [] (JSON_stringify approval))) <=? 64000)%Z = true) as Hs by (vm_compute; reflexivity).
  rewrite Ht in Hs. by apply Z.leb_le.
Qed.
End LoginSample.

Lemma service_login_bound_witness :
  verifyServiceLoginApproval (H := LoginSample.servicePlatform) (H0 := checksumSha256) (H1 := toyEd25519)
    LoginSample.approval LoginSample.request (fun _ => 5500%Z) = Ok LoginSample.approval.
Proof.
  apply (service_login_bound (H := LoginSample.servicePlatform) (H0 := checksumSha256) (H1 := toyEd25519) ProfileSample.profile LoginSample.request []
    ProfileSample.always (fun _ => 4000%Z) LoginSample.approval LoginSample.encoded 4000).
  - exact LoginSample.approval_made.
  - vm_compute. exact I.
  - vm_compute. exact I.
  - exact LoginSample.approval_size.
  - vm_compute. reflexivity.
  - vm_compute. reflexivity.
  - intros k. vm_compute. reflexivity.
  - vm_compute. discriminate.
Defined.
