(* ===== verification/Instance.v ===== *)
(** * Instance and leader leases

    [packages/mesh-instance/src/index.ts]: the tabs of a browser take turns on
    numbered slots and on leadership with the exclusive locks of the Web Locks API,
    and derive the seed of their node from the slot they hold.  All calls of
    the tabs are one list; an event is one call, one answer of the lock manager, or the end
    of one callback, so that any interleaving of the tabs is a sequence
    of events.  Locks other code of the same origin takes are part of the state. *)
From stdpp Require Import base numbers list sets sorting strings.
From Stdlib Require Import ZArith NArith Lia.
From S2P Require Import Prelude Unicode Json Js Base64 Digest ProfileValue Profile Pairing.

(** [/^[a-z0-9][a-z0-9._-]{0,63}$/i] *)
Definition namespaceStart (u : N) : bool := urlChar u && negb (u =? 45)%N && negb (u =? 95)%N.
Definition namespaceUnit (u : N) : bool := urlChar u || (u =? 46)%N.
Definition namespacePattern (text : list N) : bool :=
  match text with u :: rest => namespaceStart u && (length rest <=? 63)%nat && forallb namespaceUnit rest | [] => false end.

Definition validNamespace (v : list N) : result (list N) :=
  let namespace := trim v in
  if negb (namespacePattern namespace) then Throw "Invalid mesh instance namespace" else Ok namespace.

(** [o_locks]: whether [options.locks] or the browser gives a lock manager. *)
Record LeaseOptions := mkLeaseOptions {
  o_namespace : list N;
  o_compatibilityLockNames : option (list (list N));
  o_locks : bool;
  o_preferredInstanceId : option (list N);
  o_slots : option Z }.

(** The digits of [/^slot-(\d+)$/] *)
Definition slotDigits (text : list N) : option (list N) :=
  let digits := drop 5 text in
  if startsWith text (js "slot-") && negb (length digits =? 0)%nat && forallb isDigit digits then Some digits else None.

(** [/^ephemeral-[0-9a-f-]{36}$/] *)
Definition ephemeralPattern (text : list N) : bool :=
  let rest := drop 10 text in
  startsWith text (js "ephemeral-") && (length rest =? 36)%nat &&
  forallb (fun u => isDigit u || (97 <=? u)%N && (u <=? 102)%N || (u =? 45)%N) rest.

Definition slotId (slot : Z) : list N := js "slot-" ++ intText slot.
Definition ephemeralId (uuid : list N) : list N := js "ephemeral-" ++ uuid.
Definition slotLock (namespace : list N) (slot : Z) : list N := namespace ++ js ":mesh-instance:" ++ intText slot.
Definition leaderLock (namespace name : list N) : list N := namespace ++ js ":mesh-leader:" ++ name.

(** [[...new Set(list)]]: the first of equal elements stays. *)
Fixpoint distinct {A} `{EqDecision A} (seen l : list A) : list A :=
  match l with
  | [] => []
  | x :: l' => if bool_decide (x ∈ seen) then distinct seen l' else x :: distinct (x :: seen) l'
  end.

Definition leaseSlots (preferred : option (list N)) (count : Z) : list Z :=
  let first := match preferred ≫= slotDigits with Some digits => [Z.of_N (digitsValue digits)] | None => [] end in
  List.filter (fun slot => (0 <=? slot)%Z && (slot <? count)%Z)
    (distinct [] (first ++ map Z.of_nat (seq 0 (Z.to_nat count)))).

(** ** Calls *)
Inductive Place := Slot (slot : Z) | Leader (name : list N) | Unlocked.

#[export] Instance Place_eq_dec : EqDecision Place.
Proof. solve_decision. Defined.

Record Lock := mkLock { l_name : list N; l_call : option nat; l_place : Place }.

(** Where a call stands: [Asking] with the names it has yet to get for a
    place and the slots it would try later, or with the outcome of its promise. *)
Inductive Call :=
| Asking (namespace : list N) (compatibility : list (list N)) (uuid : list N) (place : Place) (names : list (list N)) (later : list Z)
| Lease (namespace instanceId : list N) (place : Place)
| Refused
| Rejected (message : string)
| Releasing (place : Place)
| Released.

Definition slotLockNames (namespace : list N) (compatibility : list (list N)) (slot : Z) : list (list N) :=
  distinct [] (slotLock namespace slot :: (if (slot =? 0)%Z then compatibility else [])).

(** The head of the loop over the slots. *)
Definition trySlots (namespace : list N) (compatibility : list (list N)) (uuid : list N) (slots : list Z) : Call :=
  match slots with
  | [] => Lease namespace (ephemeralId uuid) Unlocked
  | slot :: later =>
      if (slot =? 0)%Z && existsb (fun name => (length name =? 0)%nat || (128 <? length name)%nat) compatibility
      then Rejected "Invalid compatibility lock name"
      else Asking namespace compatibility uuid (Slot slot) (slotLockNames namespace compatibility slot) later
  end.

Definition acquireMeshInstanceLease (options : LeaseOptions) (uuid : list N) : Call :=
  match validNamespace (o_namespace options) with
  | Throw e => Rejected e
  | Ok namespace =>
      if negb (o_locks options) then
        let fresh := ephemeralId uuid in
        let instanceId := match o_preferredInstanceId options with
          | Some preferred => if bool_decide (is_Some (slotDigits preferred)) || ephemeralPattern preferred then preferred else fresh
          | None => fresh end in
        Lease namespace instanceId Unlocked
      else
        let count := default 32%Z (o_slots options) in
        if negb (isSafeInteger count) || (count <? 1)%Z || (256 <? count)%Z then Rejected "Invalid mesh instance slot count" else
        trySlots namespace (default [] (o_compatibilityLockNames options)) uuid (leaseSlots (o_preferredInstanceId options) count)
  end.

Definition tryAcquireMeshLeaderLease (namespaceText nameText : list N) (locks : bool) : Call :=
  match (namespace ← validNamespace namespaceText; name ← validNamespace nameText; Ok (namespace, name)) with
  | Throw e => Rejected e
  | Ok (namespace, name) =>
      if negb locks then Lease namespace (js "leader") Unlocked
      else Asking namespace [] [] (Leader name) [leaderLock namespace name] []
  end.

(** What a lease at a place is called, and what a denied request leads to. *)
Definition leaseId (place : Place) : list N :=
  match place with Slot slot => slotId slot | _ => js "leader" end.

Definition denied (namespace : list N) (compatibility : list (list N)) (uuid : list N) (place : Place) (later : list Z) : Call :=
  match place with Slot _ => trySlots namespace compatibility uuid later | _ => Refused end.

(** ** The browser *)
Record Browser := mkBrowser { held : list Lock; calls : list Call }.

Inductive Event :=
| Acquire (options : LeaseOptions) (uuid : list N)
| Lead (namespace name : list N) (locks : bool)
| Answer (call : nat)
| Release (call : nat)
| Unwind (call : nat) (place : Place)
| Settle (call : nat)
| TakeOther (name : list N)
| FreeOther (name : list N).

Definition isHeld (name : list N) (locks : list Lock) : bool := existsb (fun lock => bool_decide (l_name lock = name)) locks.

(** The lock manager answers the pending request of a call. *)
Definition answer (call : nat) (b : Browser) : option Browser :=
  match calls b !! call with
  | Some (Asking namespace compatibility uuid place (name :: more) later) =>
      Some (if isHeld name (held b)
            then mkBrowser (held b) (<[call := denied namespace compatibility uuid place later]> (calls b))
            else mkBrowser (mkLock name (Some call) place :: held b)
                   (<[call := match more with
                              | [] => Lease namespace (leaseId place) place
                              | _ => Asking namespace compatibility uuid place more later
                              end]> (calls b)))
  | _ => None
  end.

(** [release]: the innermost callback is let go; the call waits for the
    locks to be given back. *)
Definition release (call : nat) (b : Browser) : option Browser :=
  match calls b !! call with
  | Some (Lease _ _ place) => Some (mkBrowser (held b) (<[call := Releasing place]> (calls b)))
  | _ => None
  end.

Definition currentPlace (c : Call) : option Place :=
  match c with Asking _ _ _ place _ _ => Some place | Lease _ _ place => Some place | _ => None end.

Definition ofAttempt (call : nat) (place : Place) (lock : Lock) : bool :=
  bool_decide (l_call lock = Some call) && bool_decide (l_place lock = place).

Fixpoint removeFirst {A} (f : A -> bool) (l : list A) : option (list A) :=
  match l with
  | [] => None
  | x :: l' => if f x then Some l' else cons x <$> removeFirst f l'
  end.

(** The callbacks of an attempt that failed or was released end from the
    innermost, the last lock taken, outwards. *)
Definition unwind (call : nat) (place : Place) (b : Browser) : option Browser :=
  c ← calls b !! call;
  if bool_decide (currentPlace c = Some place) then None else
  locks ← removeFirst (ofAttempt call place) (held b);
  Some (mkBrowser locks (calls b)).

Definition settle (call : nat) (b : Browser) : option Browser :=
  match calls b !! call with
  | Some (Releasing place) =>
      if existsb (ofAttempt call place) (held b) then None else Some (mkBrowser (held b) (<[call := Released]> (calls b)))
  | _ => None
  end.

Definition step (event : Event) (b : Browser) : option Browser :=
  match event with
  | Acquire options uuid => Some (mkBrowser (held b) (calls b ++ [acquireMeshInstanceLease options uuid]))
  | Lead namespace name locks => Some (mkBrowser (held b) (calls b ++ [tryAcquireMeshLeaderLease namespace name locks]))
  | Answer call => answer call b
  | Release call => release call b
  | Unwind call place => unwind call place b
  | Settle call => settle call b
  | TakeOther name => if isHeld name (held b) then None else Some (mkBrowser (mkLock name None Unlocked :: held b) (calls b))
  | FreeOther name =>
      locks ← removeFirst (fun lock => bool_decide (l_name lock = name) && bool_decide (l_call lock = None)) (held b);
      Some (mkBrowser locks (calls b))
  end.

Inductive reachable : Browser -> Prop :=
| reach_start : reachable (mkBrowser [] [])
| reach_step b event b' : reachable b -> step event b = Some b' -> reachable b'.

(** ** Seeds *)
Definition seedMaterial (baseSeed scope instanceId : list N) : list N :=
  baseSeed ++ TextEncoder_encode ([0%N] ++ scope ++ [0%N] ++ instanceId).

Definition deriveMeshInstanceSeed `{Sha256} (baseSeed namespace instanceId : list N) : result (list N) :=
  if (length baseSeed <? 16)%nat then Throw "Mesh base seed must contain at least 16 bytes" else
  scope ← validNamespace namespace;
  if (length instanceId =? 0)%nat || (128 <? length instanceId)%nat then Throw "Invalid mesh instance id" else
  Ok (sha256 (seedMaterial baseSeed scope instanceId)).

(** ** Lists *)
Lemma removeFirst_split {A} (f : A -> bool) l l' :
  removeFirst f l = Some l' -> exists l1 x l2, l = l1 ++ x :: l2 /\ f x = true /\ l' = l1 ++ l2.
Proof.
  revert l'. induction l as [|x l IH]; intros l'; cbn; [done|]. destruct (f x) eqn:Hx.
  - intros [= <-]. by exists [], x, l.
  - destruct (removeFirst f l) as [k|]; [|done]. intros [= <-]. destruct (IH k eq_refl) as (l1 & y & l2 & -> & Hy & ->).
    by exists (x :: l1), y, l2.
Qed.

Lemma distinct_elem {A} `{EqDecision A} seen (l : list A) x : x ∈ distinct seen l <-> x ∈ l /\ x ∉ seen.
Proof.
  revert seen. induction l as [|y l IH]; intros seen; cbn; [set_solver|].
  case_bool_decide as Hy; [rewrite IH; set_solver|]. rewrite elem_of_cons, IH. destruct (decide (x = y)); set_solver.
Qed.

Lemma isHeld_names name locks : isHeld name locks = false <-> name ∉ map l_name locks.
Proof.
  unfold isHeld. induction locks as [|lock locks IH]; cbn; [set_solver|]. rewrite orb_false_iff, IH, bool_decide_eq_false, elem_of_cons. naive_solver.
Qed.

Lemma leaseSlots_range preferred count : Forall (fun slot => 0 <= slot < count)%Z (leaseSlots preferred count).
Proof. apply Forall_forall. intros slot [_ [?%Z.leb_le ?%Z.ltb_lt]%andb_true_iff]%elem_of_lfilter. lia. Qed.

(** ** The invariant *)
Section Invariant.
Definition attemptNames (namespace : list N) (compatibility : list (list N)) (place : Place) : list (list N) :=
  match place with
  | Slot slot => slotLockNames namespace compatibility slot
  | Leader name => [leaderLock namespace name]
  | Unlocked => []
  end.

Definition scoped (namespace : list N) (place : Place) : Prop :=
  namespacePattern namespace = true /\
  match place with Slot slot => (0 <= slot < 256)%Z | Leader name => namespacePattern name = true | Unlocked => True end.

(** The first name of an attempt, the one that excludes others. *)
Definition mainLock (namespace : list N) (place : Place) : option (list N) :=
  match place with
  | Slot slot => Some (slotLock namespace slot)
  | Leader name => Some (leaderLock namespace name)
  | Unlocked => None
  end.

(** A call holds the locks its state says it has. *)
Definition good (locks : list Lock) (call : nat) (c : Call) : Prop :=
  match c with
  | Asking namespace compatibility _ place names later =>
      scoped namespace place /\ place <> Unlocked /\ names <> [] /\ Forall (fun slot => 0 <= slot < 256)%Z later /\
      exists got, attemptNames namespace compatibility place = got ++ names /\
        Forall (fun name => mkLock name (Some call) place ∈ locks) got
  | Lease namespace instanceId place =>
      scoped namespace place /\
      match mainLock namespace place with
      | Some name => mkLock name (Some call) place ∈ locks /\ instanceId = leaseId place
      | None => True
      end
  | _ => True
  end.

Definition invariant (b : Browser) : Prop :=
  NoDup (map l_name (held b)) /\ forall call c, calls b !! call = Some c -> good (held b) call c.

Lemma good_locks locks locks' call c :
  (forall name place, currentPlace c = Some place -> mkLock name (Some call) place ∈ locks -> mkLock name (Some call) place ∈ locks') ->
  good locks call c -> good locks' call c.
Proof.
  intros Hin. destruct c as [ns compat uuid place names later|ns id place| | | |]; cbn; [|by destruct (mainLock ns place); naive_solver|done..].
  intros (? & ? & ? & ? & got & Hgot & Hall). split_and!; [done..|]. exists got. split; [done|].
  eapply Forall_impl; [done|]. naive_solver.
Qed.

Lemma attemptNames_main namespace compatibility place :
  place <> Unlocked -> exists name more, mainLock namespace place = Some name /\ attemptNames namespace compatibility place = name :: more.
Proof. destruct place; intros; [by do 2 eexists..|done]. Qed.

Lemma trySlots_good locks call namespace compatibility uuid slots :
  namespacePattern namespace = true -> Forall (fun slot => 0 <= slot < 256)%Z slots -> good locks call (trySlots namespace compatibility uuid slots).
Proof.
  intros Hns Hslots. unfold trySlots. destruct slots as [|slot later]; [done|]. destruct (_ && _); [done|].
  apply Forall_cons in Hslots as [Hslot Hlater]. cbn [good]. split_and!; try done; [lia..|]. by exists [].
Qed.

Lemma acquire_good locks call options uuid : good locks call (acquireMeshInstanceLease options uuid).
Proof.
  unfold acquireMeshInstanceLease, validNamespace. destruct (namespacePattern _) eqn:Hns; [|done]. cbn [negb].
  destruct (o_locks options); cbn [negb]; [|done]. destruct (_ || _ || _) eqn:Hcount; [done|]. bool_to_prop.
  apply trySlots_good; [done|]. eapply Forall_impl; [apply leaseSlots_range|]. cbn. lia.
Qed.

Lemma lead_good locks call namespace name avail : good locks call (tryAcquireMeshLeaderLease namespace name avail).
Proof.
  unfold tryAcquireMeshLeaderLease, validNamespace. destruct (namespacePattern (trim namespace)) eqn:Hns; [|done].
  destruct (namespacePattern (trim name)) eqn:Hname; [|done]. cbn [negb mbind result_bind].
  destruct avail; cbn [negb]; [|done]. cbn [good]. split_and!; try done. by exists [].
Qed.

Lemma invariant_update locks b call c :
  invariant b -> NoDup (map l_name locks) -> good locks call c ->
  (forall lock other, l_call lock = Some other -> other <> call -> lock ∈ held b -> lock ∈ locks) ->
  invariant (mkBrowser locks (<[call := c]> (calls b))).
Proof.
  intros [_ Hgood] Hnd Hc Hin. split; [done|]. cbn [held calls]. intros other c' Hl.
  destruct (decide (other = call)) as [->|Hne].
  - apply list_lookup_insert_Some in Hl as [(_ & <- & _)|[? _]]; done.
  - rewrite list_lookup_insert_ne in Hl by done. eapply good_locks; [|by apply Hgood]. intros name place _. by apply Hin with other.
Qed.

(** Dropping a lock no call at its current place relies on. *)
Lemma invariant_drop locks b f :
  invariant b -> removeFirst f (held b) = Some locks ->
  (forall lock call c, f lock = true -> l_call lock = Some call -> calls b !! call = Some c -> currentPlace c <> Some (l_place lock)) ->
  invariant (mkBrowser locks (calls b)).
Proof.
  intros [Hnd Hgood] (l1 & lock & l2 & Hheld & Hf & ->)%removeFirst_split Hunused. rewrite Hheld in Hnd, Hgood. split; cbn [held calls].
  - rewrite map_app in Hnd |- *. cbn [map] in Hnd. apply NoDup_app in Hnd as (? & Hd & [_ ?]%NoDup_cons).
    apply NoDup_app. split_and!; [done| |done]. intros x Hx Hx2. apply (Hd x Hx). by right.
  - intros call c Hl. eapply good_locks; [|by apply Hgood]. intros name place Hp Hin.
    rewrite elem_of_app, elem_of_cons in Hin. rewrite elem_of_app. destruct Hin as [?|[<-|?]]; [by left| |by right]. exfalso. by eapply Hunused.
Qed.

Lemma invariant_call b c : invariant b -> good (held b) (length (calls b)) c -> invariant (mkBrowser (held b) (calls b ++ [c])).
Proof.
  intros [Hnd Hgood] Hc. split; [done|]. cbn [held calls]. intros call c'. rewrite lookup_app_Some.
  intros [?|[? Hl]]; [by apply Hgood|]. apply list_lookup_singleton_Some in Hl as [? <-]. by replace call with (length (calls b)) by lia.
Qed.

Lemma answer_invariant call b b' : invariant b -> answer call b = Some b' -> invariant b'.
Proof.
  intros Hinv. unfold answer. destruct (calls b !! call) as [c|] eqn:Hc; [|done].
  destruct c as [ns compat uuid place [|name more] later| | | | |]; try done. pose proof Hinv as [Hnd Hgood].
  destruct (Hgood _ _ Hc) as (Hscoped & Hplace & _ & Hlater & got & Hgot & Howned). intros [= <-].
  destruct (isHeld name (held b)) eqn:Hh.
  - apply invariant_update; [done|done| |done]. unfold denied. destruct place; [|done..]. apply trySlots_good; [apply Hscoped|done].
  - apply isHeld_names in Hh.
    assert (Forall (fun name' => mkLock name' (Some call) place ∈ mkLock name (Some call) place :: held b) (got ++ [name])) as Hall.
    { apply Forall_app. split; [|constructor; [by left|done]]. eapply Forall_impl; [done|]. intros. by right. }
    apply invariant_update; [done|cbn; by constructor| |intros; by right]. destruct more as [|next more].
    + destruct (attemptNames_main ns compat place Hplace) as (main & rest & Hmain & Hnames). rewrite Hnames in Hgot. cbn [good]. rewrite Hmain.
      split; [done|]. split; [|done]. rewrite Forall_forall in Hall. apply Hall. rewrite <-Hgot. by left.
    + cbn [good]. split_and!; [apply Hscoped..|done|done|done|]. exists (got ++ [name]). by rewrite <-app_assoc.
Qed.

Lemma step_invariant event b b' : invariant b -> step event b = Some b' -> invariant b'.
Proof.
  intros Hinv. destruct event as [options uuid|ns name avail|call|call|call place|call|name|name]; cbn [step].
  - intros [= <-]. apply invariant_call; [done|apply acquire_good].
  - intros [= <-]. apply invariant_call; [done|apply lead_good].
  - by apply answer_invariant.
  - unfold release. repeat case_match; try done. intros [= <-]. apply invariant_update; [done|apply Hinv|done|done].
  - unfold unwind. intros (c & Hc & Hrest)%bind_Some. case_bool_decide as Hp; [done|]. apply bind_Some in Hrest as (locks & Hlocks & [= <-]).
    eapply invariant_drop; [done|done|]. unfold ofAttempt. intros lock call' c' [->%bool_decide_eq_true Hl%bool_decide_eq_true]%andb_true_iff [= <-] Hc'.
    rewrite Hc in Hc'. injection Hc' as <-. by rewrite Hl.
  - unfold settle. repeat case_match; try done. intros [= <-]. apply invariant_update; [done|apply Hinv|done|done].
  - destruct (isHeld name (held b)) eqn:Hh; [done|]. intros [= <-]. apply isHeld_names in Hh. destruct Hinv as [Hnd Hgood]. split; cbn [held calls map].
    + by constructor.
    + intros call c Hl. eapply good_locks; [|by apply Hgood]. intros. by right.
  - intros (locks & Hlocks & [= <-])%bind_Some. eapply invariant_drop; [done|done|].
    by intros lock call c [_ ->%bool_decide_eq_true]%andb_true_iff.
Qed.

Lemma reachable_invariant b : reachable b -> invariant b.
Proof. induction 1 as [|b event b' _ IH Hstep]; [split; [constructor|done]|by eapply step_invariant]. Qed.

(** ** Exclusion *)
Lemma leases_exclude b i j ns id place ns' id' place' name :
  invariant b -> calls b !! i = Some (Lease ns id place) -> calls b !! j = Some (Lease ns' id' place') ->
  mainLock ns place = Some name -> mainLock ns' place' = Some name -> i = j.
Proof.
  intros [Hnd Hgood] Hi Hj Hn Hn'. apply Hgood in Hi as [_ Hi], Hj as [_ Hj]. rewrite Hn in Hi. rewrite Hn' in Hj.
  destruct Hi as [Hi _], Hj as [Hj _].
  apply list_elem_of_lookup in Hi as [x Hx], Hj as [y Hy].
  assert (x = y) as ->; [|congruence]. eapply NoDup_lookup; [done|rewrite list_lookup_fmap, Hx; done|by rewrite list_lookup_fmap, Hy].
Qed.
End Invariant.

(** ** A call is answered *)
Section Answers.
(** The requests a call can still make. *)
Definition pendingRequests (c : Call) : nat :=
  match c with
  | Asking _ compatibility _ _ names later => length names + length later * S (length compatibility)
  | _ => 0
  end.

Fixpoint drive (fuel call : nat) (b : Browser) : Browser :=
  match fuel with
  | O => b
  | S fuel => match answer call b with Some b' => drive fuel call b' | None => b end
  end.

Lemma distinct_length {A} `{EqDecision A} seen (l : list A) : (length (distinct seen l) <= length l)%nat.
Proof. revert seen. induction l as [|x l IH]; intros seen; cbn; [done|]. case_bool_decide; cbn; [|specialize (IH (x :: seen))]; [specialize (IH seen)|]; lia. Qed.

Lemma trySlots_pending namespace compatibility uuid slots :
  (pendingRequests (trySlots namespace compatibility uuid slots) <= length slots * S (length compatibility))%nat.
Proof.
  unfold trySlots. destruct slots as [|slot later]; [cbn; lia|]. destruct (_ && _); [cbn; lia|]. cbn [pendingRequests].
  unfold slotLockNames. etrans; [apply Nat.add_le_mono_r, distinct_length|]. cbn [length]. destruct (slot =? 0)%Z; cbn; lia.
Qed.

Lemma answer_pending call b b' c : calls b !! call = Some c -> answer call b = Some b' ->
  exists c', calls b' !! call = Some c' /\ (pendingRequests c' < pendingRequests c)%nat.
Proof.
  intros Hc. unfold answer. rewrite Hc. destruct c as [ns compat uuid place [|name more] later| | | | |]; try done.
  intros [= <-]. destruct (isHeld _ _); cbn [calls]; rewrite list_lookup_insert_eq by (by eapply lookup_lt_Some); eexists; (split; [done|]); cbn [pendingRequests length].
  - unfold denied. destruct place; [|cbn; lia..]. pose proof (trySlots_pending ns compat uuid later). lia.
  - destruct more; cbn [pendingRequests length]; lia.
Qed.

Definition asking (c : Call) : bool := match c with Asking _ _ _ _ _ _ => true | _ => false end.

(** A call whose requests are answered ends after at most as many answers as
    it can make requests, whatever locks are held. *)
Lemma drive_ends fuel call b c : invariant b -> calls b !! call = Some c -> (pendingRequests c <= fuel)%nat ->
  exists c', calls (drive fuel call b) !! call = Some c' /\ asking c' = false.
Proof.
  revert b c. induction fuel as [|fuel IH]; intros b c Hinv Hc Hfuel; cbn [drive].
  - exists c. split; [done|]. destruct c; try done. destruct (proj2 Hinv _ _ Hc) as (_ & _ & Hn & _).
    cbn in Hfuel. destruct names; [done|cbn in Hfuel; lia].
  - destruct (answer call b) as [b'|] eqn:Ha.
    + destruct (answer_pending _ _ _ _ Hc Ha) as (c' & Hc' & Hlt). eapply IH; [by eapply answer_invariant|done|lia].
    + exists c. split; [done|]. destruct c; try done. destruct (proj2 Hinv _ _ Hc) as (_ & _ & Hn & _).
      unfold answer in Ha. rewrite Hc in Ha. by destruct names.
Qed.

(** Undisturbed and without compatibility locks, a call gets the first of
    its slots that is free, and an ephemeral name if none is. *)
Lemma drive_first_free call b namespace uuid slots :
  calls b !! call = Some (trySlots namespace [] uuid slots) ->
  calls (drive (length slots) call b) !! call =
  Some (match List.find (fun slot => negb (isHeld (slotLock namespace slot) (held b))) slots with
        | Some slot => Lease namespace (slotId slot) (Slot slot)
        | None => Lease namespace (ephemeralId uuid) Unlocked
        end).
Proof.
  revert b. induction slots as [|slot slots IH]; intros b Hc; cbn [length drive List.find]; [done|].
  cbn [trySlots existsb] in Hc. rewrite andb_false_r in Hc. unfold answer. rewrite Hc.
  assert (slotLockNames namespace [] slot = [slotLock namespace slot]) as -> by (unfold slotLockNames; by destruct (slot =? 0)%Z).
  cbv iota beta. pose proof (lookup_lt_Some _ _ _ Hc) as Hlt. destruct (isHeld _ _) eqn:Hh; cbn [negb].
  - apply (IH (mkBrowser (held b) (<[call := trySlots namespace [] uuid slots]> (calls b)))). cbn [calls]. by rewrite list_lookup_insert_eq.
  - assert (forall fuel b', calls b' !! call = Some (Lease namespace (slotId slot) (Slot slot)) -> drive fuel call b' = b') as Hstop.
    { intros [|fuel] b' Hb'; [done|]. cbn [drive]. unfold answer. by rewrite Hb'. }
    rewrite Hstop by (cbn [calls]; by rewrite list_lookup_insert_eq). cbn [calls]. by rewrite list_lookup_insert_eq.
Qed.
End Answers.

(** ** Seeds of different leases *)
Section Seeds.
Lemma encode_ascii text : Forall (fun u => u < 128)%N text -> TextEncoder_encode text = text.
Proof.
  intros Ht. assert (codePoints text = text) as Hp.
  { induction Ht as [|u text Hu _ IH]; [done|]. cbn [codePoints]. destruct text as [|v text]; [done|].
    assert (isHigh u = false) as -> by (unfold isHigh; apply andb_false_iff; left; apply N.leb_gt; lia). cbn [andb]. by rewrite IH. }
  unfold TextEncoder_encode. rewrite Hp. clear Hp. induction Ht as [|u text Hu _ IH]; [done|].
  unfold encodePoints in *. cbn [map concat]. rewrite IH. unfold replacement, isSurrogate, utf8Point.
  rewrite (proj2 (N.leb_gt _ _)) by lia. cbn [andb]. by rewrite (proj2 (N.ltb_lt _ _)) by lia.
Qed.

Lemma namespaceUnit_ascii u : namespaceUnit u = true -> (0 < u < 128)%N /\ trimmed u = false.
Proof.
  intros Hu. assert (u < 128)%N as Hlt.
  { unfold namespaceUnit, urlChar in Hu. repeat (apply orb_true_iff in Hu as [Hu|Hu]); bool_to_prop;
      repeat match goal with H : N.leb _ _ = true |- _ => apply N.leb_le in H | H : N.eqb _ _ = true |- _ => apply N.eqb_eq in H end; lia. }
  assert (forallb (fun u => negb (namespaceUnit u) || (negb (u =? 0)%N && negb (trimmed u))) (map N.of_nat (seq 0 128)) = true) as Hall
    by (vm_compute; reflexivity).
  rewrite forallb_forall in Hall. specialize (Hall u). rewrite Hu in Hall. cbn [negb orb] in Hall.
  assert (In u (map N.of_nat (seq 0 128))) as Hin by (apply in_map_iff; exists (N.to_nat u); split; [lia|]; apply in_seq; lia).
  apply Hall in Hin. bool_to_prop. split; [|done]. apply N.eqb_neq in H. lia.
Qed.

Lemma namespace_units text : namespacePattern text = true -> Forall (fun u => namespaceUnit u = true) text.
Proof.
  destruct text as [|u rest]; [done|]. cbn. intros [[Hu _]%andb_true_iff Hrest]%andb_true_iff. constructor.
  - unfold namespaceStart, namespaceUnit in *. bool_to_prop. by rewrite H.
  - apply Forall_forall. intros v Hv%list_elem_of_In. rewrite forallb_forall in Hrest. auto.
Qed.

Lemma validNamespace_id namespace : namespacePattern namespace = true -> validNamespace namespace = Ok namespace.
Proof.
  intros Hn. unfold validNamespace. rewrite trim_none; [by rewrite Hn|]. eapply Forall_impl; [by apply namespace_units|].
  intros u Hu. by apply namespaceUnit_ascii.
Qed.

Lemma slot_safe slot : (0 <= slot < 256)%Z -> isSafeInteger slot.
Proof. intros Hs. apply Is_true_true. unfold isSafeInteger, MAX_SAFE_INTEGER. apply andb_true_iff. split; apply Z.leb_le; lia. Qed.

Lemma slotId_ascii slot : Forall (fun u => 0 < u < 128)%N (slotId slot).
Proof.
  apply Forall_app. split; [repeat constructor; done|]. apply Forall_forall. intros u Hu%list_elem_of_In.
  pose proof (intText_ascii slot) as Ha. rewrite forallb_forall in Ha. specialize (Ha u Hu). bool_to_prop. apply N.leb_le in H. apply N.ltb_lt in H0. lia.
Qed.

Lemma seedMaterial_inj baseSeed namespace namespace' slot slot' :
  namespacePattern namespace = true -> namespacePattern namespace' = true -> (0 <= slot < 256)%Z -> (0 <= slot' < 256)%Z ->
  seedMaterial baseSeed namespace (slotId slot) = seedMaterial baseSeed namespace' (slotId slot') -> namespace = namespace' /\ slot = slot'.
Proof.
  intros Hn Hn' Hs Hs' Heq%app_inv_head. cbn [app] in Heq.
  assert (forall ns slot, namespacePattern ns = true -> Forall (fun u => u < 128)%N (0%N :: ns ++ 0%N :: slotId slot)) as Hascii.
  { clear. intros ns slot Hn. constructor; [done|]. apply Forall_app. split.
    - eapply Forall_impl; [by apply namespace_units|]. intros u Hu. apply namespaceUnit_ascii in Hu. lia.
    - constructor; [done|]. eapply Forall_impl; [apply slotId_ascii|]. cbn. lia. }
  rewrite !encode_ascii in Heq by auto. change (0%N :: ?a ++ ?b) with ((0%N :: a) ++ b) in Heq.
  assert (forall slot, 0%N ∉ slotId slot) as Hzero by (intros s Hin; pose proof (slotId_ascii s) as Ha; rewrite Forall_forall in Ha; apply Ha in Hin; lia).
  apply (split_at_last 0%N) in Heq as [Heq1 Heq2]; [|apply Hzero..]. injection Heq1 as ->. split; [done|].
  apply app_inv_head in Heq2. apply intText_inj in Heq2; [done|by apply slot_safe..].
Qed.

Lemma slotId_length slot : (0 <= slot < 256)%Z -> (0 < length (slotId slot) <= 128)%nat.
Proof.
  intros Hs. unfold slotId. rewrite length_app. change (length (js "slot-")) with 5%nat.
  pose proof (intText_length slot (slot_safe _ Hs)). lia.
Qed.

Lemma derive_slot `{Sha256} baseSeed namespace slot :
  (16 <= length baseSeed)%nat -> namespacePattern namespace = true -> (0 <= slot < 256)%Z ->
  deriveMeshInstanceSeed baseSeed namespace (slotId slot) = Ok (sha256 (seedMaterial baseSeed namespace (slotId slot))).
Proof.
  intros Hb Hn Hs. unfold deriveMeshInstanceSeed. rewrite (proj2 (Nat.ltb_ge _ _)) by done. rewrite validNamespace_id by done.
  cbn [mbind result_bind]. pose proof (slotId_length slot Hs).
  rewrite (proj2 (Nat.eqb_neq _ _)) by lia. by rewrite (proj2 (Nat.ltb_ge _ _)) by lia.
Qed.
End Seeds.

(** C24. Leases exclude each other: however the calls of the tabs, the answers
    of the lock manager, releases and the ends of callbacks interleave, two
    leases that are held at once under locks differ in namespace or in their slot
    or leader name, and the seeds that two tabs then derive from one base seed
    for their slots are the digests of different byte strings. *)
Theorem instance_leases_exclusive `{Sha256} b i j namespace namespace' instanceId instanceId' place place' :
  reachable b -> i <> j ->
  calls b !! i = Some (Lease namespace instanceId place) -> calls b !! j = Some (Lease namespace' instanceId' place') ->
  place <> Unlocked -> place' <> Unlocked ->
  (namespace, place) <> (namespace', place') /\
  forall slot slot' baseSeed, place = Slot slot -> place' = Slot slot' -> (16 <= length baseSeed)%nat ->
    deriveMeshInstanceSeed baseSeed namespace instanceId = Ok (sha256 (seedMaterial baseSeed namespace instanceId)) /\
    deriveMeshInstanceSeed baseSeed namespace' instanceId' = Ok (sha256 (seedMaterial baseSeed namespace' instanceId')) /\
    seedMaterial baseSeed namespace instanceId <> seedMaterial baseSeed namespace' instanceId'.
Proof.
  intros Hinv%reachable_invariant Hne Hi Hj Hp Hp'.
  assert ((namespace, place) <> (namespace', place')) as Hdiff.
  { intros [= <- <-]. destruct (attemptNames_main namespace [] place Hp) as (name & _ & Hmain & _). apply Hne. by eapply leases_exclude. }
  split; [done|]. intros slot slot' baseSeed -> -> Hb.
  destruct (proj2 Hinv _ _ Hi) as ([Hn Hs] & _ & ->), (proj2 Hinv _ _ Hj) as ([Hn' Hs'] & _ & ->). cbn [leaseId].
  split_and!; [by apply derive_slot..|]. intros Heq. apply seedMaterial_inj in Heq as [-> ->]; [|done..]. by apply Hdiff.
Qed.

Module InstanceSample.
Fixpoint runAll (events : list Event) (b : Browser) : option Browser :=
  match events with [] => Some b | event :: rest => b' ← step event b; runAll rest b' end.

Lemma runAll_reachable events b b' : reachable b -> runAll events b = Some b' -> reachable b'.
Proof.
  revert b. induction events as [|event rest IH]; intros b Hb; cbn; [by intros [= <-]|].
  intros (b1 & Hstep & Hrest)%bind_Some. eapply IH; [by eapply reach_step|done].
Qed.

Definition tab (preferred : option (list N)) : LeaseOptions := mkLeaseOptions (js " match ") (Some [js "match:old"]) true preferred (Some 4%Z).

(** Two tabs ask for the first slot; the second, between whose requests the
    first gets its locks, is denied and goes on to the next slot. *)
Definition events : list Event :=
  [Acquire (tab None) (js "a"); Acquire (tab (Some (js "slot-00"))) (js "b"); Answer 0; Answer 1; Answer 0; Answer 1].
Definition browser : Browser := default (mkBrowser [] []) (runAll events (mkBrowser [] [])).

Lemma browser_reachable : reachable browser.
Proof. apply (runAll_reachable events (mkBrowser [] [])); [constructor|vm_compute; reflexivity]. Qed.
End InstanceSample.

Lemma instance_leases_exclusive_witness :
  calls InstanceSample.browser !! 0%nat = Some (Lease (js "match") (js "slot-0") (Slot 0)) /\
  calls InstanceSample.browser !! 1%nat = Some (Lease (js "match") (js "slot-1") (Slot 1)) /\
  seedMaterial (replicate 16 7%N) (js "match") (js "slot-0") <> seedMaterial (replicate 16 7%N) (js "match") (js "slot-1").
Proof.
  assert (calls InstanceSample.browser !! 0%nat = Some (Lease (js "match") (js "slot-0") (Slot 0))) as H0 by (vm_compute; reflexivity).
  assert (calls InstanceSample.browser !! 1%nat = Some (Lease (js "match") (js "slot-1") (Slot 1))) as H1 by (vm_compute; reflexivity).
  split; [exact H0|]. split; [exact H1|].
  refine (proj2 (proj2 (proj2 (instance_leases_exclusive (H := checksumSha256) _ 0 1 _ _ _ _ _ _ InstanceSample.browser_reachable _ H0 H1 _ _) 0%Z 1%Z (replicate 16 7%N) eq_refl eq_refl _)));
    [discriminate..|cbn; lia].
Defined.
