(* ===== verification/Blob.v ===== *)
(** * Blobs: descriptors and transfer

    [packages/mesh-blob/src/descriptor.ts] and [index.ts]: descriptors of
    files, the signed requests for their chunks and the answers, the transfer
    of a whole file over streams that may fail or be interrupted at any point,
    and the answering side.  The content hash is an operation of its own here;
    the streaming verifier and the store are in [BlobStream]. *)
From stdpp Require Import base numbers list sorting strings.
From Stdlib Require Import ZArith NArith Lia.
From S2P Require Import Prelude Unicode Json Js Base64 Digest Dates Envelope Certificates ProfileValue Profile Recovery Records Pairing FrameCodec.
Local Open Scope js_scope.

(** ** Descriptors *)
Definition MAX_BLOB_BYTES : Z := 8 * 1024 * 1024.
Definition BLOB_CHUNK_BYTES : Z := 256 * 1024.

(** [/[\u0000-\u001f\u007f]/] *)
Definition nameControl (u : N) : bool := (u <? 32)%N || (u =? 127)%N.

Definition normalizeName (v : value) : result (list N) :=
  text ← trimOf v;
  let name := take 180 (List.filter (fun u => negb (nameControl u)) text) in
  if (length name =? 0)%nat then Throw "Blob name is required" else Ok name.

(** Lower case, as far as a media type can have it: the one other character
    with an ASCII lower case is the Kelvin sign. *)
Definition lowerUnit (u : N) : N := if between 65 90 u then (u + 32)%N else if (u =? 0x212A)%N then 107%N else u.

(** [/[\w.+-]/] *)
Definition mediaUnit (u : N) : bool :=
  between 48 57 u || between 65 90 u || between 97 122 u || bool_decide (u ∈ js "_.+-").

(** [/^[\w.+-]+\/[\w.+-]+$/] *)
Fixpoint mediaPair (seen : bool) (s : list N) : bool :=
  match s with
  | [] => false
  | u :: rest =>
      if mediaUnit u then mediaPair true rest
      else (u =? 47)%N && seen && negb (length rest =? 0)%nat && forallb mediaUnit rest
  end.

Definition normalizeMediaType (v : value) : result (list N) :=
  text ← trimOf v;
  let mediaType := map lowerUnit text in
  Ok (if mediaPair false mediaType then take 120 mediaType else js "application/octet-stream").

Definition base64urlUnit (u : N) : bool :=
  between 48 57 u || between 65 90 u || between 97 122 u || (u =? 45)%N || (u =? 95)%N.
Definition hexUnit (u : N) : bool := between 48 57 u || between 65 70 u || between 97 102 u.

Definition isValidBlobId (v : value) : bool :=
  match v with
  | Str id =>
      (bool_decide (take 7 id = js "sha256:") && (length id =? 50)%nat && forallb base64urlUnit (drop 7 id)) ||
      (bool_decide (take 7 id = js "blake3:") && (length id =? 71)%nat && forallb hexUnit (drop 7 id))
  | _ => false
  end.

Definition isBlake (id : list N) : bool := bool_decide (take 7 id = js "blake3:").

Definition invalidDescriptor : string := "Invalid blob descriptor; files must be 1 byte–8 MiB".

Definition validateBlobDescriptor (descriptor : value) : result value :=
  if negb (isStr (js "blob") descriptor.["kind"]) || negb (isInt 1 descriptor.["version"]) ||
     negb (isValidBlobId descriptor.["blobId"]) ||
     match descriptor.["hash"] with
     | Undefined => false
     | hash => negb (isBlake (textOf descriptor.["blobId"])) || negb (isStr (drop 7 (textOf descriptor.["blobId"])) hash)
     end
  then Throw invalidDescriptor else
  name ← normalizeName descriptor.["name"];
  if negb (isStr name descriptor.["name"]) then Throw invalidDescriptor else
  mediaType ← normalizeMediaType descriptor.["mediaType"];
  if negb (isStr mediaType descriptor.["mediaType"]) then Throw invalidDescriptor else
  match safeInt descriptor.["size"] with
  | Some size => if (size <? 1)%Z || (MAX_BLOB_BYTES <? size)%Z then Throw invalidDescriptor else Ok descriptor
  | None => Throw invalidDescriptor
  end.

Definition createBlobDescriptorFromId (blobId : list N) (size : Z) (name mediaType : value) : result value :=
  name ← normalizeName name;
  mediaType ← normalizeMediaType mediaType;
  validateBlobDescriptor (Obj [(js "kind", Str (js "blob")); (js "version", Num (Int 1)); (js "blobId", Str blobId);
    (js "size", Num (Int size)); (js "name", Str name); (js "mediaType", Str mediaType)]).

(** ** Content *)
Class Blake3 := {
  (** [bytesToHex(blake3(bytes))] *)
  blake3HashFor : list N -> list N }.

(** A native blob engine; [verifyBlob] of bytes, and the blobs by hash. *)
Record BlobEngine := mkEngine {
  engine_verify : list N -> list N -> result bool;
  engine_create : list N -> list N -> list N -> result value }.

Definition BLOB_SIGNATURE_DOMAIN : list N := js "MESH-BLOB/1".
Definition BLOB_REQUEST_FRAME : list N := js "mesh-blob-request-v1".
Definition BLOB_RESPONSE_FRAME : list N := js "mesh-blob-response-v1".
Definition BLOB_ERROR_FRAME : list N := js "mesh-blob-error-v1".
Definition MAX_BLOB_RESPONSE_FRAME_BYTES : Z := (BLOB_CHUNK_BYTES + 2) / 3 * 4 + 4096.

(** [text.toLowerCase()] of hexadecimal digits *)
Definition lowerHex (text : list N) : list N := map lowerUnit text.

Section Content.
Context `{Sha256} `{Blake3}.

Definition blobIdFor (bytes : list N) : list N := js "sha256:" ++ sha256Base64Url bytes.

Definition fileSize (bytes : list N) : result unit :=
  if (length bytes <? 1)%nat || (MAX_BLOB_BYTES <? Z.of_nat (length bytes))%Z
  then Throw "File must be 1 byte–8 MiB" else Ok tt.

Definition createBlobDescriptor (bytes : list N) (name mediaType : value) : result value :=
  fileSize bytes;;
  createBlobDescriptorFromId (blobIdFor bytes) (Z.of_nat (length bytes)) name mediaType.

Definition createIrohBlobDescriptor (engine : BlobEngine) (bytes : list N) (name mediaType : value) : result value :=
  fileSize bytes;;
  name ← normalizeName name;
  mediaType ← normalizeMediaType mediaType;
  descriptor ← engine_create engine bytes name mediaType;
  validateBlobDescriptor descriptor.

(** The blob id names these bytes. *)
Definition named (blobId bytes : list N) (engine : option BlobEngine) : result bool :=
  if isBlake blobId then
    let hash := drop 7 blobId in
    match engine with
    | Some engine => engine_verify engine hash bytes
    | None => Ok (bool_decide (blake3HashFor bytes = lowerHex hash))
    end
  else Ok (bool_decide (blobIdFor bytes = blobId)).

Definition verifyBlobBytes (descriptor : value) (bytes : list N) (engine : option BlobEngine) : result (list N) :=
  validateBlobDescriptor descriptor;;
  if negb (isInt (Z.of_nat (length bytes)) descriptor.["size"]) then Throw "Blob content does not match descriptor" else
  matches ← named (textOf descriptor.["blobId"]) bytes engine;
  if (matches : bool) then Ok bytes else Throw "Blob content does not match descriptor".

(** What content that was verified without an engine has to do with its descriptor. *)
Definition content (descriptor : value) (bytes : list N) : Prop :=
  descriptor.["size"] = Num (Int (Z.of_nat (length bytes))) /\
  exists blobId, descriptor.["blobId"] = Str blobId /\
    (if isBlake blobId then blake3HashFor bytes = lowerHex (drop 7 blobId) else blobIdFor bytes = blobId).

Lemma validate_same descriptor d : validateBlobDescriptor descriptor = Ok d ->
  d = descriptor /\ (exists id, descriptor.["blobId"] = Str id /\ isValidBlobId (Str id) = true) /\
  exists size, descriptor.["size"] = Num (Int size) /\ (1 <= size <= MAX_BLOB_BYTES)%Z.
Proof.
  unfold validateBlobDescriptor. guard_passed as Hshape. intros (name & _ & Hr)%bind_ok. revert Hr. guard_passed as Hname.
  intros (mediaType & _ & Hr)%bind_ok. revert Hr. guard_passed as Hmedia.
  destruct (safeInt _) as [size|] eqn:Hs; [|done]. guard_passed as Hr. intros [= <-]. split; [done|]. bool_to_prop.
  split. { destruct descriptor.["blobId"]; eauto; done. }
  exists size. unfold safeInt in Hs. destruct descriptor.["size"] as [| | |[z| |]| | |]; try done. destruct (isSafeInteger z); [|done].
  injection Hs as ->. split; [done|]. lia.
Qed.

Lemma verifyBlobBytes_content descriptor bytes out :
  verifyBlobBytes descriptor bytes None = Ok out -> out = bytes /\ content descriptor bytes.
Proof.
  unfold verifyBlobBytes. intros (d & (_ & (id & Hid & _) & _)%validate_same & Hr)%bind_ok. revert Hr. guard_passed as Hsize.
  rewrite negb_false_iff, isInt_true in Hsize. intros (b & Hn & Hb)%bind_ok. destruct b; [|done]. injection Hb as <-.
  split; [done|]. split; [done|]. exists id. split; [done|]. rewrite Hid in Hn. cbn [textOf] in Hn. unfold named in Hn.
  destruct (isBlake id); apply (inj Ok), bool_decide_eq_true in Hn; done.
Qed.
End Content.

(** ** Requests and answers *)

(** [new TextDecoder().decode(bytes)], which replaces what is not UTF-8. *)
Class TextPlatform := {
  decodeLossy : list N -> list N;
  decodeLossy_valid bytes text : TextDecoder_decode bytes = Some text -> decodeLossy bytes = text }.

Record BlobRequestSigner := mkSigner { signer_personId : list N; signer_deviceId : list N; signer_sign : value -> result value }.

Definition encodeJson (v : value) : list N := encodeText (JSON_stringify v).

Section Requests.
Context `{Sha256} `{Ed25519} `{Calendar} `{TextPlatform}.

Definition decodeJson (bytes : list N) : result value :=
  match JSON_parse (decodeLossy bytes) with Some v => Ok v | None => Throw "Invalid blob transfer frame" end.

Definition request_payload (requestId conversationId blobId person device : list N) (offset length : Z) (createdAt : value) : value :=
  Obj [(js "kind", Str (js "blob-request")); (js "version", Num (Int 1)); (js "requestId", Str requestId);
       (js "conversationId", Str conversationId); (js "blobId", Str blobId); (js "requesterPersonId", Str person);
       (js "requesterDeviceId", Str device); (js "offset", Num (Int offset)); (js "length", Num (Int length)); (js "createdAt", createdAt)].

Definition createBlobRequest (profile : LocalProfile) (conversationId : list N) (blobId : value) (offset length : Z) (now : Z)
    (signing : option BlobRequestSigner) (requestId : list N) : result value :=
  if blank conversationId || negb (isValidBlobId blobId) || negb (isSafeInteger offset) || (offset <? 0)%Z ||
     negb (isSafeInteger length) || (length <? 1)%Z || (BLOB_CHUNK_BYTES <? length)%Z
  then Throw "Invalid blob request" else
  createdAt ← stamp now;
  let payload := request_payload requestId conversationId (textOf blobId) (personId (local_identity profile)) (local_deviceId profile)
    offset length createdAt in
  match signing with
  | Some signer =>
      if negb (bool_decide (signer_personId signer = personId (local_identity profile))) ||
         negb (bool_decide (signer_deviceId signer = local_deviceId profile))
      then Throw "Blob signer device does not match its profile" else signer_sign signer payload
  | None => signEnvelope (local_deviceKey profile) payload (local_deviceId profile) BLOB_SIGNATURE_DOMAIN
  end.

Definition verifyBlobRequest (request identity certificates : value) (conversationId : list N) (now : Z) : result value :=
  let payload := request.["payload"] in
  if negb (truthy payload) || negb (isStr (js "blob-request") payload.["kind"]) || negb (isInt 1 payload.["version"]) ||
     negb (isStr conversationId payload.["conversationId"]) then Throw "Invalid blob request" else
  person ← get (js "personId") identity;
  if negb (strictEqual payload.["requesterPersonId"] person) ||
     negb (strictEqual payload.["requesterDeviceId"] request.["signerKeyId"]) || negb (truthy payload.["requestId"]) ||
     negb (isValidBlobId payload.["blobId"]) ||
     match safeInt payload.["offset"] with Some offset => (offset <? 0)%Z | None => true end ||
     match safeInt payload.["length"] with Some length => (length <? 1)%Z || (BLOB_CHUNK_BYTES <? length)%Z | None => true end
  then Throw "Invalid blob request" else
  match parseDate (toText payload.["createdAt"]) with
  | None => Throw "Expired blob request"
  | Some timestamp =>
      if (5 * 60 * 1000 <? Z.abs (now - timestamp))%Z then Throw "Expired blob request" else
      verifySigned identity payload.["requesterDeviceId"] certificates request BLOB_SIGNATURE_DOMAIN "Invalid blob request signature";;
      Ok request
  end.

(** The numbers of a verified request. *)
Definition offsetOf (request : value) : Z := intOf request.["payload"].["offset"].
Definition lengthOf (request : value) : Z := intOf request.["payload"].["length"].

Definition response_value (requestId blobId : value) (offset : Z) (totalSize : value) (data : list N) : value :=
  Obj [(js "kind", Str (js "blob-response")); (js "version", Num (Int 1)); (js "requestId", requestId); (js "blobId", blobId);
       (js "offset", Num (Int offset)); (js "totalSize", totalSize); (js "data", Str data)].

(** Of a request that was verified. *)
Definition createBlobResponse (request descriptor : value) (bytes : list N) : result value :=
  validateBlobDescriptor descriptor;;
  let offset := offsetOf request in
  let length := lengthOf request in
  let size := intOf descriptor.["size"] in
  if negb (strictEqual request.["payload"].["blobId"] descriptor.["blobId"]) || (size <=? offset)%Z ||
     (length <? Z.of_nat (List.length bytes))%Z || negb (Z.of_nat (List.length bytes) =? Z.min length (size - offset))%Z
  then Throw "Invalid blob response range" else
  Ok (response_value request.["payload"].["requestId"] descriptor.["blobId"] offset descriptor.["size"] (toBase64Url bytes)).

(** Of a request this side made. *)
Definition verifyBlobResponse (response request descriptor : value) : result (list N) :=
  validateBlobDescriptor descriptor;;
  bytes ← fromBase64UrlOf (match response.["data"] with Null | Undefined => Str [] | data => data end);
  if negb (isStr (js "blob-response") response.["kind"]) || negb (isInt 1 response.["version"]) ||
     negb (strictEqual response.["requestId"] request.["payload"].["requestId"]) ||
     negb (strictEqual response.["blobId"] descriptor.["blobId"]) ||
     negb (strictEqual response.["offset"] request.["payload"].["offset"]) ||
     negb (strictEqual response.["totalSize"] descriptor.["size"]) ||
     negb (Z.of_nat (List.length bytes) =? Z.min (lengthOf request) (intOf descriptor.["size"] - offsetOf request))%Z
  then Throw "Invalid blob response" else Ok bytes.
End Requests.

(** ** The answering side

    Each step of the try block may throw; whatever it is, an error frame goes
    out instead of the answer, and the stream is closed. *)
Record Serving := mkServing {
  serve_secret : list N; serve_scopeId : list N; serve_identity : value; serve_certificates : value;
  serve_descriptor : value -> result (option value);
  serve_bytes : value -> result (option (list N)) }.

(** The stream of an answer: how the next sends and the closing end, and what was sent. *)
Record Answer := mkAnswer { send_fails : list (option string); close_fails : option string; sent : list (list N); closed : bool }.

Definition sendFrame (frame : list N) : M Answer unit := fun w =>
  let w' := mkAnswer (tail (send_fails w)) (close_fails w) (sent w ++ [frame]) (closed w) in
  match send_fails w with Some e :: _ => (Throw e, mkAnswer (tail (send_fails w)) (close_fails w) (sent w) (closed w)) | _ => (Ok tt, w') end.
Definition closeAnswer : M Answer unit := fun w =>
  (match close_fails w with Some e => Throw e | None => Ok tt end, mkAnswer (send_fails w) (close_fails w) (sent w) true).

Definition errorText (e : string) : list N := take 240 (js e).

Section Serve.
Context `{Sha256} `{Ed25519} `{Calendar} `{TextPlatform} `{Blake3}.
Variable codec : option PairingCodec.

(** The request of a frame and the answer to it. *)
Definition readRequest (frame : list N) (options : Serving) : result value :=
  bytes ← decodePairingFrame codec frame BLOB_REQUEST_FRAME (serve_secret options); decodeJson bytes.

Definition answerRequest (request : value) (options : Serving) (now : Z) : result (list N) :=
  verifyBlobRequest request (serve_identity options) (serve_certificates options) (serve_scopeId options) now;;
  descriptor ← serve_descriptor options request.["payload"].["blobId"];
  match descriptor with
  | None => Throw "Blob is not referenced by this workspace"
  | Some descriptor =>
      if negb (strictEqual descriptor.["blobId"] request.["payload"].["blobId"])
      then Throw "Blob is not referenced by this workspace" else
      bytes ← serve_bytes options descriptor;
      match bytes with
      | None => Throw "Blob is not available on this peer"
      | Some bytes =>
          verifyBlobBytes descriptor bytes None;;
          let size := Z.of_nat (length bytes) in
          let offset := offsetOf request in
          if (size <=? offset)%Z then Throw "Blob request range is outside the file" else
          let stop := Z.min (offset + lengthOf request) size in
          response ← createBlobResponse request descriptor (take (Z.to_nat (stop - offset)) (drop (Z.to_nat offset) bytes));
          encodePairingFrame codec BLOB_RESPONSE_FRAME (serve_secret options) (encodeJson response)
      end
  end.

(** [request?.payload?.requestId ?? ""], of no request where its frame cannot be read *)
Definition answeredId (request : result value) : value :=
  match request with
  | Ok request => match request.["payload"].["requestId"] with Null | Undefined => Str [] | id => id end
  | Throw _ => Str []
  end.

Definition respondToBlobRequest (frame : list N) (options : Serving) (now : Z) : M Answer unit := fun w =>
  let request := readRequest frame options in
  let attempt : M Answer unit :=
    request ← liftM request; frame ← liftM (answerRequest request options now); sendFrame frame in
  let '(outcome, w) := attempt w in
  let '(outcome, w) := match outcome with
    | Ok tt => (Ok tt, w)
    | Throw e =>
        match encodePairingFrame codec BLOB_ERROR_FRAME (serve_secret options)
          (encodeJson (Obj [(js "version", Num (Int 1)); (js "requestId", answeredId request); (js "message", Str (errorText e))])) with
        | Ok failure => sendFrame failure w
        | Throw e => (Throw e, w)
        end
    end in
  match closeAnswer w with (Throw e, w) => (Throw e, w) | (Ok tt, w) => (outcome, w) end.
End Serve.

(** ** The transfer

    The world of a transfer: how often the surroundings were looked at, and of
    each stream opened whether it can be reset and whether it was reset or its
    sending side closed.  At each look the surroundings say whether the transfer
    was aborted or its deadline passed, what the caller's own check answers,
    what time it is and which id is drawn; the peer answers each operation on
    a stream. *)
Record Stream := mkStream { stream_resets : bool; stream_ended : bool }.
Record Transfer := mkTransfer { looks : nat; streams : list Stream }.

Record Surroundings := mkSurroundings {
  interrupted : nat -> option string;
  ensureCurrent : option (nat -> result unit);
  clock : nat -> Z;
  uuid : nat -> list N }.

(** A peer: whether a stream opens and can be reset, how sending and closing
    end, and what is read after a request was sent. *)
Record Peer := mkPeer {
  peer_open : nat -> result bool;
  peer_send : nat -> result unit;
  peer_close : nat -> result unit;
  peer_read : nat -> list N -> result (list N) }.

Definition look : M Transfer nat := fun w => (Ok (looks w), mkTransfer (S (looks w)) (streams w)).
Definition endStream (id : nat) : M Transfer unit :=
  modifyM (fun w => mkTransfer (looks w) (alter (fun s => mkStream (stream_resets s) true) id (streams w))).

Section Transfers.
Context `{Sha256} `{Ed25519} `{Calendar} `{TextPlatform} `{Blake3}.
Variable codec : option PairingCodec.
Variable around : Surroundings.
Variable peer : Peer.

Definition checkInterrupt : M Transfer unit :=
  at_ ← look;
  match interrupted around at_ with Some e => throwM e | None => mret tt end.

(** If the transfer is interrupted while an operation runs, what the operation
    gives comes too late and goes to [onLate]. *)
Definition race {A} (operation : M Transfer A) (onLate : A -> M Transfer unit) : M Transfer A := fun w =>
  let '(outcome, w) := operation w in
  let meanwhile := interrupted around (looks w) in
  let w := mkTransfer (S (looks w)) (streams w) in
  match meanwhile, outcome with
  | None, _ => (outcome, w)
  | Some e, Ok a => (Throw e, (onLate a w).2)
  | Some e, Throw _ => (Throw e, w)
  end.

Definition awaitBlobOperation {A} (operation : M Transfer A) (onLate : A -> M Transfer unit) : M Transfer A :=
  checkInterrupt;;
  checkInterrupt;;
  race operation onLate.

Definition noLate {A} (_ : A) : M Transfer unit := mret tt.

Definition ensureBlobCurrent : M Transfer unit :=
  checkInterrupt;;
  match ensureCurrent around with
  | Some check => awaitBlobOperation (at_ ← look; liftM (check at_)) noLate
  | None => mret tt
  end;;
  checkInterrupt.

(** Streams that can be reset are; others have their sending side closed if it is not. *)
Definition releaseBlobStream (id : nat) (closeSend : bool) : M Transfer unit := fun w =>
  match streams w !! id with
  | Some s => if stream_resets s || closeSend then endStream id w else (Ok tt, w)
  | None => (Ok tt, w)
  end.

Definition openStream : M Transfer nat := fun w =>
  match peer_open peer (looks w) with
  | Ok resets => (Ok (length (streams w)), mkTransfer (S (looks w)) (streams w ++ [mkStream resets false]))
  | Throw e => (Throw e, mkTransfer (S (looks w)) (streams w))
  end.
Definition sendOn : M Transfer unit := at_ ← look; liftM (peer_send peer at_).
Definition closeSendOn (id : nat) : M Transfer unit := endStream id;; at_ ← look; liftM (peer_close peer at_).
Definition readOn (frame : list N) : M Transfer (list N) := at_ ← look; liftM (peer_read peer at_ frame).

(** [try ... finally]: what the last step throws replaces the outcome. *)
Definition finallyM {A} (body : M Transfer A) (last : M Transfer unit) : M Transfer A := fun w =>
  let '(outcome, w) := body w in
  match last w with (Throw e, w) => (Throw e, w) | (Ok tt, w) => (outcome, w) end.

Section Fetch.
Variable secret : list N.
Variable profile : LocalProfile.
Variable scopeId : list N.
Variable descriptor : value.
Variable signing : option BlobRequestSigner.

(** The answer in a frame: the bytes of a chunk, or the error the peer states. *)
Definition readAnswer (frame : list N) (request : value) : result (list N) :=
  if (MAX_BLOB_RESPONSE_FRAME_BYTES <? Z.of_nat (length frame))%Z then Throw "Blob response frame is too large" else
  '(type, _) ← inspectPairingFrame codec frame;
  if bool_decide (type = BLOB_ERROR_FRAME) then
    bytes ← decodePairingFrame codec frame BLOB_ERROR_FRAME secret;
    failure ← decodeJson bytes;
    message ← get (js "message") failure;
    Throw (match message with Str text => String.string_of_list_ascii (map Ascii.ascii_of_N text) | _ => "Blob transfer failed" end)
  else
    bytes ← decodePairingFrame codec frame BLOB_RESPONSE_FRAME secret;
    response ← decodeJson bytes;
    verifyBlobResponse response request descriptor.

(** The exchange on an open stream, until its sending side is closed, and after. *)
Definition sendRequest (id : nat) (request : value) : M Transfer (list N) :=
  ensureBlobCurrent;;
  frame ← awaitBlobOperation (
    frame ← liftM (encodePairingFrame codec BLOB_REQUEST_FRAME secret (encodeJson request)); sendOn;; mret frame) noLate;
  ensureBlobCurrent;;
  awaitBlobOperation (closeSendOn id) noLate;;
  mret frame.

Definition readResponse (frame : list N) (request : value) : M Transfer (list N) :=
  ensureBlobCurrent;;
  answer ← awaitBlobOperation (readOn frame) noLate;
  ensureBlobCurrent;;
  liftM (readAnswer answer request).

Definition onStream (request : value) (id : nat) : M Transfer (list N) := fun w =>
  match sendRequest id request w with
  | (Throw e, w) => finallyM (throwM e) (releaseBlobStream id true) w
  | (Ok frame, w) => finallyM (readResponse frame request) (releaseBlobStream id false) w
  end.

Definition withStream (request : value) : M Transfer (list N) :=
  id ← awaitBlobOperation openStream (fun id => releaseBlobStream id true);
  onStream request id.

Definition requestChunk (offset : Z) : M Transfer (list N) :=
  ensureBlobCurrent;;
  request ← awaitBlobOperation (at_ ← look;
    liftM (createBlobRequest profile scopeId descriptor.["blobId"] offset BLOB_CHUNK_BYTES (clock around at_) signing (uuid around at_))) noLate;
  ensureBlobCurrent;;
  withStream request.

(** [result.set(bytes, offset)] *)
Definition setAt (offset : nat) (bytes result : list N) : list N :=
  take offset result ++ bytes ++ drop (offset + length bytes) result.

Fixpoint fetchChunks (chunks : nat) (offset : Z) (result : list N) : M Transfer (list N) :=
  match chunks with
  | O => mret result
  | S chunks =>
      bytes ← requestChunk offset;
      fetchChunks chunks (offset + BLOB_CHUNK_BYTES) (setAt (Z.to_nat offset) bytes result)
  end.

(** The offsets below the size, a chunk apart. *)
Definition chunkCount (size : Z) : nat := Z.to_nat ((size + BLOB_CHUNK_BYTES - 1) / BLOB_CHUNK_BYTES).

Definition requestBlob (deadlineAt : option Z) : M Transfer (list N) :=
  liftM (validateBlobDescriptor descriptor);;
  match deadlineAt with
  | Some deadline => requireM (isSafeInteger deadline && (0 <=? deadline)%Z) "Invalid blob transfer deadline"
  | None => mret tt
  end;;
  let size := intOf descriptor.["size"] in
  result ← fetchChunks (chunkCount size) 0 (replicate (Z.to_nat size) 0%N);
  ensureBlobCurrent;;
  verified ← awaitBlobOperation (liftM (verifyBlobBytes descriptor result None)) noLate;
  ensureBlobCurrent;;
  mret verified.
End Fetch.
End Transfers.

(** ** Streams are always ended *)
Section Tidy.
Context `{Sha256} `{Ed25519} `{Calendar} `{TextPlatform} `{Blake3}.
Variable codec : option PairingCodec.
Variable around : Surroundings.
Variable peer : Peer.

(** Leaves the streams alone. *)
Definition quiet {A} (m : M Transfer A) : Prop := forall w, streams (m w).2 = streams w.

(** Opens only streams it ends. *)
Definition tidy {A} (m : M Transfer A) : Prop := forall w, exists opened,
  streams (m w).2 = streams w ++ opened /\ Forall (fun s => stream_ended s = true) opened.

Lemma quiet_bind {A B} (m : M Transfer A) (f : A -> M Transfer B) : quiet m -> (forall a, quiet (f a)) -> quiet (m ≫= f).
Proof. intros Hm Hf w. unfold mbind, M_bind. specialize (Hm w). destruct (m w) as [[a|e] w1]; cbn in *; [by rewrite Hf|done]. Qed.

Lemma tidy_bind {A B} (m : M Transfer A) (f : A -> M Transfer B) : tidy m -> (forall a, tidy (f a)) -> tidy (m ≫= f).
Proof.
  intros Hm Hf w. unfold mbind, M_bind. destruct (Hm w) as (l & Hl & He). destruct (m w) as [[a|e] w1]; cbn in *; [|by exists l].
  destruct (Hf a w1) as (k & Hk & Hek). exists (l ++ k). rewrite Hk, Hl, app_assoc. split; [done|]. by apply Forall_app.
Qed.

Lemma quiet_tidy {A} (m : M Transfer A) : quiet m -> tidy m.
Proof. intros Hm w. exists []. by rewrite Hm, app_nil_r. Qed.

Lemma quiet_lift {A} (r : result A) : quiet (liftM r).
Proof. done. Qed.
Lemma quiet_ret {A} (a : A) : quiet (mret a).
Proof. done. Qed.
Lemma quiet_look : quiet look.
Proof. done. Qed.

Lemma quiet_check : quiet (checkInterrupt around).
Proof. apply quiet_bind; [apply quiet_look|]. intros n. by destruct (interrupted around n). Qed.

Lemma quiet_race {A} (operation : M Transfer A) : quiet operation -> quiet (race around operation noLate).
Proof.
  intros Ho w. unfold race. specialize (Ho w). destruct (operation w) as [[a|e] w1]; cbn in *; by destruct (interrupted around (looks w1)).
Qed.

Lemma quiet_await {A} (operation : M Transfer A) : quiet operation -> quiet (awaitBlobOperation around operation noLate).
Proof. intros Ho. apply quiet_bind; [apply quiet_check|intros _]. apply quiet_bind; [apply quiet_check|intros _]. by apply quiet_race. Qed.

Lemma quiet_current : quiet (ensureBlobCurrent around).
Proof.
  apply quiet_bind; [apply quiet_check|intros _]. apply quiet_bind; [|intros _; apply quiet_check].
  destruct (ensureCurrent around); [|apply quiet_ret]. apply quiet_await, quiet_bind; [apply quiet_look|]. intros; apply quiet_lift.
Qed.

Definition ended (id : nat) (l : list Stream) : list Stream := alter (fun s => mkStream (stream_resets s) true) id l.

Lemma ended_twice id l : ended id (ended id l) = ended id l.
Proof. unfold ended. revert id. induction l as [|s l IH]; intros [|id]; cbn; [done..|]. f_equal. apply IH. Qed.

Lemma ended_last l s : ended (length l) (l ++ [s]) = l ++ [mkStream (stream_resets s) true].
Proof. unfold ended. induction l as [|s' l IH]; cbn; [done|]. f_equal. apply IH. Qed.

Lemma release_ends id (w : Transfer) : is_Some (streams w !! id) -> exists w', releaseBlobStream id true w = (Ok tt, w') /\ streams w' = ended id (streams w).
Proof. intros [s Hs]. unfold releaseBlobStream. rewrite Hs, orb_true_r. by eexists. Qed.

Lemma release_keeps id (w : Transfer) : ended id (streams w) = streams w -> exists w', releaseBlobStream id false w = (Ok tt, w') /\ streams w' = streams w.
Proof.
  intros He. unfold releaseBlobStream. destruct (streams w !! id) as [s|]; [|by eexists]. destruct (stream_resets s); cbn [orb]; by eexists.
Qed.

Lemma M_assoc {A B C} (m : M Transfer A) (g : A -> M Transfer B) (f : B -> M Transfer C) w :
  ((m ≫= g) ≫= f) w = (m ≫= fun a => g a ≫= f) w.
Proof. unfold mbind, M_bind. by destruct (m w) as [[a|e] w1]. Qed.

Lemma closeSendOn_eq id w :
  closeSendOn peer id w = (peer_close peer (looks w), mkTransfer (S (looks w)) (ended id (streams w))).
Proof. reflexivity. Qed.

Lemma quiet_then {A B} (m : M Transfer A) (f : A -> M Transfer B) (P : result B * Transfer -> Prop) w :
  quiet m -> (forall e w1, streams w1 = streams w -> P (Throw e, w1)) ->
  (forall a w1, streams w1 = streams w -> P (f a w1)) -> P ((m ≫= f) w).
Proof. intros Hm Ht Hf. unfold mbind, M_bind. specialize (Hm w). destruct (m w) as [[a|e] w1]; auto. Qed.

Lemma quiet_send secret request : quiet (frame ← liftM (encodePairingFrame codec BLOB_REQUEST_FRAME secret (encodeJson request)); sendOn peer;; mret frame).
Proof.
  apply quiet_bind; [apply quiet_lift|intros]. apply quiet_bind; [|intros; apply quiet_ret].
  apply quiet_bind; [apply quiet_look|]. intros; apply quiet_lift.
Qed.

(** After the sending part a stream is ended if that part returned. *)
Definition sentOn (id : nat) (w : Transfer) (r : result (list N) * Transfer) : Prop :=
  streams r.2 = ended id (streams w) \/ (streams r.2 = streams w /\ exists e, r.1 = Throw e).

Lemma send_streams secret id request w : sentOn id w (sendRequest codec around peer secret id request w).
Proof.
  unfold sendRequest. apply quiet_then; [apply quiet_current|right; eauto|]. intros _ w1 H1'.
  apply quiet_then; [apply quiet_await, quiet_send|right; split; [cbn; congruence|eauto]|]. intros frame w2 H2'.
  apply quiet_then; [apply quiet_current|right; split; [cbn; congruence|eauto]|]. intros _ w3 H3'.
  unfold awaitBlobOperation. rewrite M_assoc. apply quiet_then; [apply quiet_check|right; split; [cbn; congruence|eauto]|]. intros _ w4 H4'.
  rewrite M_assoc. apply quiet_then; [apply quiet_check|right; split; [cbn; congruence|eauto]|]. intros _ w5 H5'.
  left. replace (streams w) with (streams w5) by congruence. unfold sentOn, mbind at 1, M_bind at 1, race. rewrite closeSendOn_eq.
  by destruct (interrupted around _), (peer_close peer (looks w5)).
Qed.

Lemma stream_streams secret descriptor request id w : is_Some (streams w !! id) ->
  streams (onStream codec around peer secret descriptor request id w).2 = ended id (streams w).
Proof.
  intros Hs. unfold onStream. pose proof (send_streams secret id request w) as Hsend. unfold sentOn in Hsend.
  assert (forall w1, streams w1 = ended id (streams w) \/ streams w1 = streams w -> is_Some (streams w1 !! id)) as Hsome.
  { intros w1 [->| ->]; [|done]. unfold ended. by rewrite list_lookup_alter_eq, fmap_is_Some. }
  destruct (sendRequest codec around peer secret id request w) as [[frame|e] w1]; cbn [fst snd] in Hsend.
  - destruct Hsend as [Hw1|(_ & e & [=])]. unfold finallyM.
    assert (quiet (readResponse codec around peer secret descriptor frame request)) as Hq.
    { apply quiet_bind; [apply quiet_current|intros _]. apply quiet_bind; [apply quiet_await, quiet_bind; [apply quiet_look|intros; apply quiet_lift]|intros].
      apply quiet_bind; [apply quiet_current|intros _]. apply quiet_lift. }
    specialize (Hq w1). destruct (readResponse _ _ _ _ _ _ _ w1) as [outcome w2]; cbn [snd] in Hq.
    destruct (release_keeps id w2) as (w3 & -> & Hw3); [by rewrite Hq, Hw1, ended_twice|]. cbn [snd]. congruence.
  - unfold finallyM, throwM. destruct (release_ends id w1) as (w2 & -> & Hw2); [apply Hsome; tauto|]. cbn [snd]. rewrite Hw2.
    destruct Hsend as [-> |(-> & _)]; [apply ended_twice|done].
Qed.

Lemma tidy_withStream secret descriptor request : tidy (withStream codec around peer secret descriptor request).
Proof.
  assert (forall A (m : M Transfer A) (f : A -> M Transfer (list N)), quiet m -> (forall a, tidy (f a)) -> tidy (m ≫= f)) as Hquiet.
  { intros A m f Hm Hf. apply tidy_bind; [by apply quiet_tidy|done]. }
  intros w. unfold withStream, awaitBlobOperation. rewrite M_assoc. revert w. apply Hquiet; [apply quiet_check|intros _ w].
  rewrite M_assoc. revert w. apply Hquiet; [apply quiet_check|intros _ w].
  unfold mbind, M_bind, race, openStream. destruct (peer_open peer (looks w)) as [resets|e].
  2: { destruct (interrupted around _); exists []; cbn; by rewrite app_nil_r. }
  cbn [looks streams]. set (w1 := mkTransfer (S (S (looks w))) (streams w ++ [mkStream resets false])).
  assert (is_Some (streams w1 !! length (streams w))) as Hsome by (cbn; rewrite lookup_app_r, Nat.sub_diag by done; by eexists).
  exists [mkStream resets true]. split; [|by repeat constructor]. destruct (interrupted around (S (looks w))).
  - destruct (release_ends _ w1 Hsome) as (w2 & -> & Hw2). cbn [snd]. rewrite Hw2. apply ended_last.
  - rewrite stream_streams by done. apply ended_last.
Qed.

Lemma tidy_fetch secret profile scopeId descriptor signing chunks offset bytes :
  tidy (fetchChunks codec around peer secret profile scopeId descriptor signing chunks offset bytes).
Proof.
  revert offset bytes. induction chunks as [|chunks IH]; intros offset bytes; [apply quiet_tidy, quiet_ret|].
  cbn [fetchChunks]. apply tidy_bind; [|intros; apply IH]. unfold requestChunk.
  apply tidy_bind; [apply quiet_tidy, quiet_current|intros _].
  apply tidy_bind; [apply quiet_tidy, quiet_await, quiet_bind; [apply quiet_look|intros; apply quiet_lift]|intros request].
  apply tidy_bind; [apply quiet_tidy, quiet_current|intros _]. apply tidy_withStream.
Qed.

Lemma tidy_request secret profile scopeId descriptor signing deadlineAt :
  tidy (requestBlob codec around peer secret profile scopeId descriptor signing deadlineAt).
Proof.
  apply tidy_bind; [apply quiet_tidy, quiet_lift|intros _]. apply tidy_bind; [apply quiet_tidy; by destruct deadlineAt|intros _].
  apply tidy_bind; [apply tidy_fetch|intros bytes]. apply quiet_tidy.
  apply quiet_bind; [apply quiet_current|intros _]. apply quiet_bind; [apply quiet_await, quiet_lift|intros].
  apply quiet_bind; [apply quiet_current|intros _]. apply quiet_ret.
Qed.

(** What a call returns comes from the operation it awaited. *)
Lemma bindM_ok {A B} (m : M Transfer A) (f : A -> M Transfer B) b w :
  ((m ≫= f) w).1 = Ok b -> exists a w', (m w).1 = Ok a /\ (f a w').1 = Ok b.
Proof. unfold mbind, M_bind. destruct (m w) as [[a|e] w']; cbn; [eauto|done]. Qed.

Lemma await_ok {A} (r : result A) a w : (awaitBlobOperation around (liftM r) noLate w).1 = Ok a -> r = Ok a.
Proof.
  intros (_ & w1 & _ & Hr)%bindM_ok. apply bindM_ok in Hr as (_ & w2 & _ & Hr). unfold race, liftM in Hr.
  destruct (interrupted around _), r; done.
Qed.

Lemma request_content secret profile scopeId descriptor signing deadlineAt bytes w :
  (requestBlob codec around peer secret profile scopeId descriptor signing deadlineAt w).1 = Ok bytes -> content descriptor bytes.
Proof.
  intros (_ & w1 & _ & Hr)%bindM_ok. apply bindM_ok in Hr as (_ & w2 & _ & Hr). apply bindM_ok in Hr as (fetched & w3 & _ & Hr).
  apply bindM_ok in Hr as (_ & w4 & _ & Hr). apply bindM_ok in Hr as (verified & w5 & Hv & Hr).
  apply bindM_ok in Hr as (_ & w6 & _ & [= <-]). apply await_ok, verifyBlobBytes_content in Hv as [-> Hc]. done.
Qed.
End Tidy.

(** C27. A blob transfer is safe against its peer and its surroundings: whatever
    the peer answers and wherever the transfer is interrupted, bytes it returns have
    the size and the digest of the descriptor, and every stream it opened, also
    one that opened too late, was reset or had its sending side closed. *)
Theorem blob_transfer_safe `{Sha256} `{Ed25519} `{Calendar} `{TextPlatform} `{Blake3}
    codec around peer secret profile scopeId descriptor signing deadlineAt w :
  let r := requestBlob codec around peer secret profile scopeId descriptor signing deadlineAt w in
  (forall bytes, r.1 = Ok bytes -> content descriptor bytes) /\
  exists opened, streams r.2 = streams w ++ opened /\ Forall (fun s => stream_ended s = true) opened.
Proof. split; [intros bytes; apply request_content|apply tidy_request]. Qed.

(** ** Delivery *)
(** Returns, in any world, something of which [Q] holds. *)
Definition yields {A} (m : M Transfer A) (Q : A -> Prop) : Prop := forall w, exists a w', m w = (Ok a, w') /\ Q a.

Lemma yields_ret {A} (a : A) (Q : A -> Prop) : Q a -> yields (mret a) Q.
Proof. intros Ha w. by exists a, w. Qed.

Lemma yields_lift {A} (r : result A) a (Q : A -> Prop) : r = Ok a -> Q a -> yields (liftM r) Q.
Proof. intros -> Ha w. by exists a, w. Qed.

Lemma yields_bind {A B} (m : M Transfer A) (f : A -> M Transfer B) Q R :
  yields m Q -> (forall a, Q a -> yields (f a) R) -> yields (m ≫= f) R.
Proof.
  intros Hm Hf w. destruct (Hm w) as (a & w1 & He & Ha). destruct (Hf a Ha w1) as (b & w2 & Hb & HR).
  exists b, w2. unfold mbind, M_bind. by rewrite He.
Qed.

Lemma yields_look (Q : nat -> Prop) : (forall n, Q n) -> yields look Q.
Proof. intros HQ w. eexists _, _. split; [reflexivity|apply HQ]. Qed.

(** Nothing interrupts, and the caller's check passes. *)
Definition calm (around : Surroundings) : Prop :=
  (forall n, interrupted around n = None) /\
  match ensureCurrent around with Some check => forall n, check n = Ok tt | None => True end.

Section Calm.
Variable around : Surroundings.
Hypothesis Hcalm : calm around.

Lemma yields_check : yields (checkInterrupt around) (fun _ => True).
Proof.
  apply (yields_bind _ _ (fun _ => True)); [by apply yields_look|]. intros n _. destruct Hcalm as [-> _]. by apply yields_ret.
Qed.

Lemma yields_await {A} (operation : M Transfer A) late Q : yields operation Q -> yields (awaitBlobOperation around operation late) Q.
Proof.
  intros Ho. apply (yields_bind _ _ (fun _ => True)); [apply yields_check|intros _ _].
  apply (yields_bind _ _ (fun _ => True)); [apply yields_check|intros _ _]. intros w. unfold race.
  destruct (Ho w) as (a & w1 & -> & Ha). destruct Hcalm as [-> _]. by eexists _, _.
Qed.

Lemma yields_current : yields (ensureBlobCurrent around) (fun _ => True).
Proof.
  apply (yields_bind _ _ (fun _ => True)); [apply yields_check|intros _ _].
  apply (yields_bind _ _ (fun _ => True)); [|intros _ _; apply yields_check].
  destruct Hcalm as [_ Hc]. destruct (ensureCurrent around) as [check|]; [|by apply yields_ret].
  apply yields_await, (yields_bind _ _ (fun _ => True)); [by apply yields_look|]. intros n _. by eapply yields_lift.
Qed.
End Calm.

(** What a transfer relies on of a codec: the frames of requests and answers that
    leave room for the largest header read as what was framed, and the header is
    of at most 2048 bytes. *)
Definition transferFrames : list (list N) := [BLOB_REQUEST_FRAME; BLOB_RESPONSE_FRAME].

Definition faithfulCodec (codec : PairingCodec) (secret : list N) : Prop :=
  forall type bytes, type ∈ transferFrames -> (Z.of_nat (length bytes) <= MAX_RPC_FRAME_BYTES - MAX_PAIRING_HEADER_BYTES)%Z ->
  exists frame, codec_encode codec type secret bytes = Ok frame /\
    codec_inspect codec frame = Ok (Some type, Some secret) /\ codec_decode codec frame type secret = Ok bytes /\
    (Z.of_nat (length frame) <= Z.of_nat (length bytes) + 2048)%Z.

(** A secret of at least one character and without lone surrogates, whose
    header takes less than 2048 bytes. *)
Definition framable `{HeaderJson} (secret : list N) : Prop :=
  wellText secret /\ secret <> [] /\
  forall type, type ∈ transferFrames -> exists header, header_to_vec (headerOf type secret) = Some header /\ (length header < 2048)%nat.

(** The installed codec is such a codec. *)
Lemma wasm_faithful `{HeaderJson} secret : framable secret -> faithfulCodec WasmPairingCodec secret.
Proof.
  intros (Htext & Hne & Hheader) type bytes Htype Hlen. destruct (Hheader type Htype) as (header & Hh & Hsize).
  assert (pairing_frame_budget type = Some (mkBudget MAX_RPC_FRAME_BYTES (MAX_RPC_FRAME_BYTES - 1))) as Hbudget.
  { unfold transferFrames in Htype. apply elem_of_cons in Htype as [->| ->%list_elem_of_singleton]; vm_compute; reflexivity. }
  unfold MAX_RPC_FRAME_BYTES, MAX_PAIRING_HEADER_BYTES in Hlen.
  destruct (framed type secret header _ Hbudget (conj Htext Hne) Hh) with (payload := bytes) as (frame & He & Hi & Hd & Hf);
    [unfold FrameCodec.size, MAX_PAIRING_HEADER_BYTES, MAX_RPC_FRAME_BYTES; cbn [max_payload_bytes max_wire_bytes]; lia..|].
  exists frame. split_and!; [done..|]. unfold FrameCodec.size in Hf. lia.
Qed.

Section Peers.
Context `{Sha256} `{Ed25519} `{Calendar} `{TextPlatform} `{Blake3} `{HeaderJson}.

(** A peer that answers with [respondToBlobRequest]. *)
Definition servingPeer (codec : option PairingCodec) (options : Serving) (serverClock : nat -> Z) : Peer := {|
  peer_open := fun _ => Ok true; peer_send := fun _ => Ok tt; peer_close := fun _ => Ok tt;
  peer_read := fun at_ frame =>
    match sent (respondToBlobRequest codec frame options (serverClock at_) (mkAnswer [] None [] false)).2 with
    | answer :: _ => Ok answer
    | [] => Throw "Stream ended"
    end |}.

(** Two peers that can serve each other a blob. *)
Record serves (around : Surroundings) (serverClock : nat -> Z) (profile : LocalProfile)
    (scopeId : list N) (descriptor : value) (options : Serving) (bytes : list N) : Prop := {
  serves_frames : framable (serve_secret options);
  serves_lengths : (Z.of_nat (length scopeId + length (personId (local_identity profile)) + 2 * length (local_deviceId profile)) <= 500000)%Z;
  serves_signatures : forall message, (length (ed_sign (local_deviceKey profile) message) <= 64)%nat;
  serves_secret : blank (serve_secret options) = false;
  serves_calm : calm around;
  serves_clocks : forall n m, (Z.abs (clock around n) <= MAX_TIME)%Z /\ (Z.abs (serverClock m - clock around n) <= 5 * 60 * 1000)%Z;
  serves_ids : forall n, unescaped (uuid around n) = true /\ (1 <= length (uuid around n) <= 128)%nat;
  serves_scope : serve_scopeId options = scopeId /\ blank scopeId = false /\ units scopeId;
  serves_person : (serve_identity options).["personId"] = Str (personId (local_identity profile)) /\
    units (personId (local_identity profile)) /\ units (local_deviceId profile);
  serves_device : verifyDevice (serve_identity options) (Str (local_deviceId profile)) (serve_certificates options)
    = Ok (Str (toBase64Url (ed_public (local_deviceKey profile))));
  serves_descriptor : serve_descriptor options descriptor.["blobId"] = Ok (Some descriptor);
  serves_bytes : serve_bytes options descriptor = Ok (Some bytes);
  serves_content : verifyBlobBytes descriptor bytes None = Ok bytes;
  serves_octets : Forall isByte bytes }.
End Peers.

Section Delivery.
Context `{Sha256} `{Ed25519} `{Calendar} `{TextPlatform} `{Blake3} `{HeaderJson}.
Variables (codec : PairingCodec) (around : Surroundings) (serverClock : nat -> Z) (profile : LocalProfile)
  (scopeId : list N) (descriptor : value) (options : Serving) (bytes : list N).
Hypothesis Hs : serves around serverClock profile scopeId descriptor options bytes.
Hypothesis Hcodec : faithfulCodec codec (serve_secret options).

Lemma json_trip v : plain v -> (exists ms, v = Obj ms) -> decodeJson (encodeJson v) = Ok v.
Proof.
  intros Hp Ho. pose proof (encoded_plain v Hp Ho) as He. unfold decodeJson, encodeJson.
  destruct (TextDecoder_decode _) as [text|] eqn:Ht; [|done]. cbn [mbind option_bind] in He.
  by rewrite (decodeLossy_valid _ _ Ht), He.
Qed.

Lemma served_blob : exists blobId size, descriptor.["blobId"] = Str blobId /\ isValidBlobId (Str blobId) = true /\
  descriptor.["size"] = Num (Int size) /\ (1 <= size <= MAX_BLOB_BYTES)%Z /\ size = Z.of_nat (length bytes) /\
  validateBlobDescriptor descriptor = Ok descriptor.
Proof.
  pose proof (serves_content _ _ _ _ _ _ _ Hs) as Hc. pose proof Hc as Hc'. apply verifyBlobBytes_content in Hc' as [_ [Hsize _]].
  apply bind_ok in Hc as (d & Hv & _). pose proof Hv as Hv'. apply validate_same in Hv' as (-> & (id & Hid & Hvalid) & (size & Hz & Hr)).
  exists id, size. split_and!; try done; try lia. congruence.
Qed.

(** The hashes of blob ids are letters and digits. *)
Lemma blobId_text id : isValidBlobId (Str id) = true -> unescaped id = true /\ (length id <= 71)%nat.
Proof.
  assert (forall u, base64urlUnit u || hexUnit u = true -> printable u && negb (u =? 34)%N && negb (u =? 92)%N = true) as Hunit.
  { intros u Hu. unfold base64urlUnit, hexUnit, between in Hu. unfold printable.
    assert ((45 <= u <= 122)%N /\ u <> 92%N) as [Hr Hne].
    { repeat (apply orb_true_iff in Hu as [Hu|Hu]);
        try (apply andb_true_iff in Hu as [?%N.leb_le ?%N.leb_le]; lia); apply N.eqb_eq in Hu; lia. }
    rewrite (proj2 (N.leb_le _ _)), (proj2 (N.ltb_lt _ _)), !(proj2 (N.eqb_neq _ _)) by lia. done. }
  intros Hid. unfold isValidBlobId in Hid. rewrite <-(take_drop 7 id) at 1.
  apply orb_true_iff in Hid as [[[Hp%bool_decide_eq_true Hl%Nat.eqb_eq]%andb_true_iff Hall]%andb_true_iff|
    [[Hp%bool_decide_eq_true Hl%Nat.eqb_eq]%andb_true_iff Hall]%andb_true_iff]; rewrite Hp; (split; [|lia]); unfold unescaped; rewrite forallb_app;
    apply andb_true_iff; (split; [vm_compute; reflexivity|]); rewrite forallb_forall in Hall |- *; intros u Hu; apply Hunit;
    rewrite (Hall u Hu), ?orb_true_r; done.
Qed.

Lemma unescaped_units s : unescaped s = true -> units s.
Proof.
  intros Hall. apply Is_true_true, forallb_forall. unfold unescaped in Hall. rewrite forallb_forall in Hall.
  intros u Hu%Hall. apply N.ltb_lt. apply andb_true_iff in Hu as [[[_ Hu%N.ltb_lt]%andb_true_iff _]%andb_true_iff _]. lia.
Qed.

(** A request the transfer makes. *)
Definition made (offset : Z) (request : value) : Prop := exists n text signature blobId,
  toISOString (clock around n) = Some text /\ descriptor.["blobId"] = Str blobId /\ isValidBlobId (Str blobId) = true /\
  (Forall urlChar signature /\ (length signature <= 86)%nat) /\
  request = envelope_value (request_payload (uuid around n) scopeId blobId (personId (local_identity profile)) (local_deviceId profile)
    offset BLOB_CHUNK_BYTES (Str text)) (local_deviceId profile) signature /\
  verifyEnvelope request (Str (toBase64Url (ed_public (local_deviceKey profile)))) BLOB_SIGNATURE_DOMAIN = Ok true.

Lemma request_made offset n : (0 <= offset <= MAX_BLOB_BYTES)%Z -> exists request,
  createBlobRequest profile scopeId descriptor.["blobId"] offset BLOB_CHUNK_BYTES (clock around n) None (uuid around n) = Ok request /\
  made offset request.
Proof.
  intros Ho. destruct served_blob as (blobId & size & Hid & Hvalid & _). destruct (serves_scope _ _ _ _ _ _ _ Hs) as (_ & Hb & _).
  destruct (serves_clocks _ _ _ _ _ _ _ Hs n 0) as [Hclock _]. destruct (toISOString_some _ Hclock) as [text Ht].
  unfold createBlobRequest. rewrite Hid, Hb, Hvalid. unfold MAX_BLOB_BYTES in Ho.
  assert (isSafeInteger offset = true) as -> by (unfold isSafeInteger, MAX_SAFE_INTEGER; apply andb_true_iff; split; apply Z.leb_le; lia).
  rewrite (proj2 (Z.ltb_ge offset 0)) by lia. change (isSafeInteger BLOB_CHUNK_BYTES) with true. cbn [negb orb].
  change (BLOB_CHUNK_BYTES <? 1)%Z with false. change (BLOB_CHUNK_BYTES <? BLOB_CHUNK_BYTES)%Z with false. cbv iota.
  unfold stamp. rewrite Ht. cbn [mbind result_bind orb textOf].
  set (payload := request_payload _ _ _ _ _ _ _ _).
  destruct (sign_solid (local_deviceKey profile) payload (js "blob-request") (local_deviceId profile) BLOB_SIGNATURE_DOMAIN eq_refl eq_refl)
    as (signature & Hsign & Hchars).
  exists (envelope_value payload (local_deviceId profile) signature). split; [done|]. exists n, text, signature, blobId.
  split_and!; try done; [|by eapply sign_verifies]. destruct (sign_signature _ _ _ _ _ _ Hsign) as [message ->].
  rewrite toBase64Url_length by apply ed_sign_bytes. pose proof (serves_signatures _ _ _ _ _ _ _ Hs message).
  apply Nat.Div0.div_le_upper_bound. lia.
Qed.

Lemma safe_small z : (0 <= z <= MAX_BLOB_BYTES)%Z -> isSafeInteger z = true.
Proof. unfold MAX_BLOB_BYTES. intros Hz. unfold isSafeInteger, MAX_SAFE_INTEGER. apply andb_true_iff. split; apply Z.leb_le; lia. Qed.

Lemma request_plain offset request : (0 <= offset <= MAX_BLOB_BYTES)%Z -> made offset request -> plain request.
Proof.
  intros Ho (n & text & signature & blobId & Ht & _ & Hvalid & [Hchars _] & -> & _).
  destruct (serves_ids _ _ _ _ _ _ _ Hs n) as [Hu%unescaped_units _]. destruct (serves_scope _ _ _ _ _ _ _ Hs) as (_ & _ & Hscope).
  destruct (serves_person _ _ _ _ _ _ _ Hs) as (_ & Hperson & Hdevice). apply blobId_text in Hvalid as [Hid%unescaped_units _].
  apply urlChar_units in Hchars. pose proof (iso_units _ _ Ht) as Htext.
  unfold envelope_value, request_payload. cbn [plain forallb]. rewrite (safe_small _ Ho).
  repeat match goal with Hx : Is_true (units _) |- _ => apply Is_true_true in Hx; rewrite Hx; clear Hx end. done.
Qed.

Lemma request_verified offset request n : (0 <= offset <= MAX_BLOB_BYTES)%Z -> made offset request ->
  verifyBlobRequest request (serve_identity options) (serve_certificates options) (serve_scopeId options) (serverClock n) = Ok request.
Proof.
  intros Ho (m & text & signature & blobId & Ht & _ & Hvalid & _ & Hrequest & Hverify).
  destruct (serves_person _ _ _ _ _ _ _ Hs) as (Hperson & _). destruct (serves_scope _ _ _ _ _ _ _ Hs) as (Hscope & _).
  destruct (serves_clocks _ _ _ _ _ _ _ Hs m n) as [_ Hclock]. destruct (serves_ids _ _ _ _ _ _ _ Hs m) as [_ Hlen].
  assert (truthy (Str (uuid around m)) = true) as Huuid by (cbn; destruct (uuid around m); cbn in *; [lia|done]).
  unfold verifyBlobRequest. rewrite Hrequest at 1 2 3 4.
  assert (exists person, get (js "personId") (serve_identity options) = Ok person /\ person = Str (personId (local_identity profile))) as (person & -> & ->).
  { destruct (serve_identity options); try done. cbn [get getOpt] in *. eauto. }
  subst request. cbv zeta. cbn [mbind result_bind].
  set (payload := getOpt (js "payload") _).
  change (truthy payload) with true. change payload.["kind"] with (Str (js "blob-request")). change payload.["version"] with (Num (Int 1)).
  change payload.["conversationId"] with (Str scopeId). change payload.["requesterPersonId"] with (Str (personId (local_identity profile))).
  change payload.["requesterDeviceId"] with (Str (local_deviceId profile)). change payload.["requestId"] with (Str (uuid around m)).
  change payload.["blobId"] with (Str blobId). change payload.["offset"] with (Num (Int offset)). change payload.["length"] with (Num (Int BLOB_CHUNK_BYTES)).
  change payload.["createdAt"] with (Str text).
  match goal with |- context [getOpt (js "signerKeyId") ?e] => change (getOpt (js "signerKeyId") e) with (Str (local_deviceId profile)) end.
  rewrite Hscope, Huuid, Hvalid. cbn [isStr isInt strictEqual safeInt toText]. rewrite !bool_decide_eq_true_2 by done.
  rewrite (safe_small _ Ho). change (isSafeInteger BLOB_CHUNK_BYTES) with true. cbn [negb orb Z.eqb Pos.eqb].
  rewrite (proj2 (Z.ltb_ge offset 0)) by lia. change (BLOB_CHUNK_BYTES <? 1)%Z with false. change (BLOB_CHUNK_BYTES <? BLOB_CHUNK_BYTES)%Z with false.
  cbn [orb]. rewrite (parseDate_iso _ _ (isoTime_to _ _ Ht)). rewrite (proj2 (Z.ltb_ge _ _)) by lia.
  unfold verifySigned. rewrite (serves_device _ _ _ _ _ _ _ Hs). cbn [mbind result_bind]. by rewrite Hverify.
Qed.

Lemma joinTexts_length texts : (length (joinTexts 44 texts) <= sum_list_with length texts + length texts)%nat.
Proof. induction texts as [|t [|t' texts] IH]; cbn [joinTexts sum_list_with length] in *; rewrite ?length_app; cbn [length] in *; lia. Qed.

(** The members of a request's payload, as JSON prints them. *)
Definition requestTexts (requestId conversationId blobId person device text : list N) (offset : Z) : list (list N) :=
  [quote (js "kind") ++ [58%N] ++ quote (js "blob-request"); quote (js "version") ++ [58%N] ++ intText 1;
   quote (js "requestId") ++ [58%N] ++ quote requestId; quote (js "conversationId") ++ [58%N] ++ quote conversationId;
   quote (js "blobId") ++ [58%N] ++ quote blobId; quote (js "requesterPersonId") ++ [58%N] ++ quote person;
   quote (js "requesterDeviceId") ++ [58%N] ++ quote device; quote (js "offset") ++ [58%N] ++ intText offset;
   quote (js "length") ++ [58%N] ++ intText BLOB_CHUNK_BYTES; quote (js "createdAt") ++ [58%N] ++ quote text].

Definition envelopeTexts (payload signerKeyId signature : list N) : list (list N) :=
  [quote (js "payload") ++ [58%N] ++ payload; quote (js "signerKeyId") ++ [58%N] ++ quote signerKeyId;
   quote (js "signature") ++ [58%N] ++ quote signature].

(** Replaces the length of a quoted member name by its value. *)
Ltac name_lengths H :=
  repeat match type of H with context [length (quote (js ?s))] =>
    let v := eval vm_compute in (length (quote (js s))) in change (length (quote (js s))) with v in H end.

Lemma requestTexts_length requestId conversationId blobId person device text offset : isSafeInteger offset ->
  (length (joinTexts 44 (requestTexts requestId conversationId blobId person device text offset))
   <= 6 * (length requestId + length conversationId + length blobId + length person + length device + length text) + 250)%nat.
Proof.
  intros Ho%intText_length. pose proof (joinTexts_length (requestTexts requestId conversationId blobId person device text offset)) as Hj.
  unfold requestTexts in Hj at 2 3. cbn [sum_list_with length] in Hj. rewrite !length_app in Hj. cbn [length] in Hj. name_lengths Hj.
  change (length (intText 1)) with 1%nat in Hj. change (length (intText BLOB_CHUNK_BYTES)) with 6%nat in Hj.
  pose proof (quote_length requestId). pose proof (quote_length conversationId). pose proof (quote_length blobId).
  pose proof (quote_length person). pose proof (quote_length device). pose proof (quote_length text). lia.
Qed.

Lemma envelopeTexts_length payload signerKeyId signature :
  (length (joinTexts 44 (envelopeTexts payload signerKeyId signature)) <= length payload + 6 * (length signerKeyId + length signature) + 60)%nat.
Proof.
  pose proof (joinTexts_length (envelopeTexts payload signerKeyId signature)) as Hj. unfold envelopeTexts in Hj at 2 3.
  cbn [sum_list_with length] in Hj. rewrite !length_app in Hj. cbn [length] in Hj. name_lengths Hj.
  pose proof (quote_length signerKeyId). pose proof (quote_length signature). lia.
Qed.

(** A request leaves room for the header in a frame. *)
Lemma request_size offset request : (0 <= offset <= MAX_BLOB_BYTES)%Z -> made offset request ->
  (Z.of_nat (length (encodeJson request)) <= MAX_RPC_FRAME_BYTES - MAX_PAIRING_HEADER_BYTES)%Z.
Proof.
  intros Ho (n & text & signature & blobId & Ht & _ & Hvalid & [_ Hsig] & -> & _).
  destruct (serves_ids _ _ _ _ _ _ _ Hs n) as [_ Hid]. pose proof (serves_lengths _ _ _ _ _ _ _ Hs) as Hlen.
  apply blobId_text in Hvalid as [_ Hblob]. apply toISOString_length in Ht.
  set (person := personId (local_identity profile)) in *. set (device := local_deviceId profile) in *.
  set (request := envelope_value _ _ _).
  assert (JSON_stringify request = Some ([123%N] ++ joinTexts 44 (envelopeTexts
    ([123%N] ++ joinTexts 44 (requestTexts (uuid around n) scopeId blobId person device text offset) ++ [125%N]) device signature) ++ [125%N])) as Hj by reflexivity.
  unfold encodeJson, encodeText. rewrite Hj. cbn [default from_option id].
  match goal with |- context [TextEncoder_encode ?t] => pose proof (TextEncoder_length t) as He end.
  match type of He with context [joinTexts 44 (envelopeTexts ?p ?d ?s)] => pose proof (envelopeTexts_length p d s) as Hen end.
  pose proof (requestTexts_length (uuid around n) scopeId blobId person device text offset) as Hreq. rewrite (safe_small _ Ho) in Hreq. specialize (Hreq I).
  rewrite !length_app in He, Hen. cbn [length] in He, Hen. unfold MAX_RPC_FRAME_BYTES, MAX_PAIRING_HEADER_BYTES. lia.
Qed.

(** The part of the content a request asks for. *)
Definition part (offset : Z) : list N :=
  take (Z.to_nat (Z.min (offset + BLOB_CHUNK_BYTES) (Z.of_nat (length bytes)) - offset)) (drop (Z.to_nat offset) bytes).

Lemma part_length offset : (0 <= offset < Z.of_nat (length bytes))%Z ->
  Z.of_nat (length (part offset)) = Z.min BLOB_CHUNK_BYTES (Z.of_nat (length bytes) - offset).
Proof. intros Ho. unfold part. rewrite length_take, length_drop. unfold BLOB_CHUNK_BYTES. lia. Qed.

Lemma part_octets offset : Forall isByte (part offset).
Proof. apply Forall_take, Forall_drop, (serves_octets _ _ _ _ _ _ _ Hs). Qed.

Definition answerTo (request : value) (offset : Z) : value :=
  response_value request.["payload"].["requestId"] descriptor.["blobId"] offset descriptor.["size"] (toBase64Url (part offset)).

Lemma answer_plain offset request : (0 <= offset < Z.of_nat (length bytes))%Z -> made offset request -> plain (answerTo request offset).
Proof.
  intros Ho (m & text & signature & blobId & _ & Hid & Hvalid & _ & -> & _).
  destruct served_blob as (? & size & _ & _ & Hsize & Hrange & -> & _). destruct (serves_ids _ _ _ _ _ _ _ Hs m) as [Hu%unescaped_units _].
  apply blobId_text in Hvalid as [Hb%unescaped_units _].
  pose proof (urlChar_units _ (toBase64Url_chars _ (part_octets offset))) as Hd.
  unfold answerTo, response_value. change (getOpt (js "requestId") _) with (Str (uuid around m)). rewrite Hid, Hsize.
  cbn [plain forallb]. rewrite !safe_small by lia.
  repeat match goal with Hx : Is_true (units _) |- _ => apply Is_true_true in Hx; rewrite Hx; clear Hx end. done.
Qed.

Lemma unescaped_printable s : unescaped s = true -> forallb printable s = true.
Proof.
  unfold unescaped. rewrite !forallb_forall. intros Hall u Hu%Hall. by apply andb_true_iff in Hu as [[Hu _]%andb_true_iff _].
Qed.

(** The members of an answer, as JSON prints them. *)
Definition answerTexts (requestId blobId data : list N) (offset size : Z) : list (list N) :=
  [quote (js "kind") ++ [58%N] ++ quote (js "blob-response"); quote (js "version") ++ [58%N] ++ intText 1;
   quote (js "requestId") ++ [58%N] ++ quote requestId; quote (js "blobId") ++ [58%N] ++ quote blobId;
   quote (js "offset") ++ [58%N] ++ intText offset; quote (js "totalSize") ++ [58%N] ++ intText size;
   quote (js "data") ++ [58%N] ++ quote data].

Lemma joinTexts_printable texts : Forall (fun t => forallb printable t = true) texts -> forallb printable (joinTexts 44 texts) = true.
Proof.
  induction 1 as [|t texts Ht Hts IH]; [done|]. destruct texts as [|t' texts]; [done|].
  change (joinTexts 44 (t :: t' :: texts)) with (t ++ 44%N :: joinTexts 44 (t' :: texts)). rewrite forallb_app, Ht.
  cbn [forallb andb]. by rewrite IH.
Qed.

Lemma answer_size requestId blobId data offset size :
  unescaped requestId = true -> unescaped blobId = true -> unescaped data = true -> isSafeInteger offset = true -> isSafeInteger size = true ->
  (length (encodeJson (response_value (Str requestId) (Str blobId) offset (Num (Int size)) data))
   <= length requestId + length blobId + length data + 160)%nat.
Proof.
  intros Hr Hb Hd Ho Hz.
  assert (JSON_stringify (response_value (Str requestId) (Str blobId) offset (Num (Int size)) data)
    = Some ([123%N] ++ joinTexts 44 (answerTexts requestId blobId data offset size) ++ [125%N])) as Ht by reflexivity.
  assert (Forall (fun t => forallb printable t = true) (answerTexts requestId blobId data offset size)) as Hp.
  { unfold answerTexts. rewrite !(quote_unescaped requestId), !(quote_unescaped blobId), !(quote_unescaped data) by done.
    apply unescaped_printable in Hr, Hb, Hd. pose proof (intText_ascii offset) as Hao. pose proof (intText_ascii size) as Haz.
    fold printable in Hao, Haz. change (forallb printable (intText offset) = true) in Hao. change (forallb printable (intText size) = true) in Haz.
    repeat constructor; rewrite ?forallb_app; cbn [forallb app]; rewrite ?forallb_app, ?Hr, ?Hb, ?Hd, ?Hao, ?Haz; vm_compute; reflexivity. }
  unfold encodeJson, encodeText. rewrite Ht. cbn [default from_option id]. rewrite encode_length_ascii.
  2: { rewrite !forallb_app, joinTexts_printable by done. reflexivity. }
  rewrite !length_app. pose proof (joinTexts_length (answerTexts requestId blobId data offset size)) as Hj. unfold answerTexts in Hj |- *.
  rewrite !(quote_unescaped requestId), !(quote_unescaped blobId), !(quote_unescaped data) in * by done.
  apply Is_true_true in Ho, Hz. apply intText_length in Ho, Hz. cbn [sum_list_with length] in Hj. rewrite !length_app in Hj. cbn [length] in *. rewrite !length_app in Hj.
  name_lengths Hj. change (length (intText 1)) with 1%nat in Hj. cbn [length] in Hj. lia.
Qed.

Lemma answer_length offset request : (0 <= offset < Z.of_nat (length bytes))%Z -> made offset request ->
  (length (encodeJson (answerTo request offset)) <= 128 + 71 + Z.to_nat 349526 + 160)%nat.
Proof.
  intros Ho (m & text & signature & blobId & _ & Hid & Hvalid & _ & -> & _).
  destruct served_blob as (? & size & _ & _ & Hsize & Hrange & -> & _).
  destruct (serves_ids _ _ _ _ _ _ _ Hs m) as [Hu Hul]. destruct (blobId_text _ Hvalid) as [Hb Hbl].
  pose proof (toBase64Url_chars _ (part_octets offset)) as Hdata. unfold answerTo. rewrite Hid, Hsize.
  change (getOpt (js "requestId") _) with (Str (uuid around m)).
  pose proof (answer_size (uuid around m) blobId _ offset (Z.of_nat (length bytes)) Hu Hb (urlChar_unescaped _ Hdata)
    (safe_small offset ltac:(lia)) (safe_small (Z.of_nat (length bytes)) ltac:(lia))) as Hsz.
  assert (length (toBase64Url (part offset)) <= Z.to_nat 349526)%nat as Hdl; [|lia].
  rewrite toBase64Url_length by apply part_octets. pose proof (part_length offset Ho) as Hpl. unfold BLOB_CHUNK_BYTES in Hpl.
  apply Nat.Div0.div_le_upper_bound. lia.
Qed.

Lemma request_answered offset request n :
  (0 <= offset < Z.of_nat (length bytes))%Z -> made offset request -> exists frame,
  answerRequest (Some codec) request options (serverClock n) = Ok frame /\
  codec_encode codec BLOB_RESPONSE_FRAME (serve_secret options) (encodeJson (answerTo request offset)) = Ok frame /\
  codec_inspect codec frame = Ok (Some BLOB_RESPONSE_FRAME, Some (serve_secret options)) /\
  codec_decode codec frame BLOB_RESPONSE_FRAME (serve_secret options) = Ok (encodeJson (answerTo request offset)) /\
  (Z.of_nat (length frame) <= Z.of_nat (length (encodeJson (answerTo request offset))) + 2048)%Z.
Proof.
  intros Ho Hmade. destruct served_blob as (blobId & size & Hid & Hvalid & Hsize & Hrange & -> & Hval).
  destruct (Hcodec BLOB_RESPONSE_FRAME (encodeJson (answerTo request offset))) as (frame & He & Hi & Hd & Hl).
  { right. by left. }
  { pose proof (answer_length offset request Ho Hmade). unfold MAX_RPC_FRAME_BYTES, MAX_PAIRING_HEADER_BYTES. lia. }
  exists frame. split; [|done]. unfold answerRequest. rewrite (request_verified offset) by (done || lia). cbn [mbind result_bind].
  destruct Hmade as (m & text & signature & blobId' & _ & Hid' & _ & _ & Hrequest & _). rewrite Hid in Hid'. injection Hid' as <-.
  assert (request.["payload"].["blobId"] = Str blobId) as Hb by by subst. assert (offsetOf request = offset) as Hoff by by subst.
  assert (lengthOf request = BLOB_CHUNK_BYTES) as Hlen by by subst.
  rewrite Hb, <-Hid, (serves_descriptor _ _ _ _ _ _ _ Hs). cbn [mbind result_bind]. rewrite Hid. cbn [strictEqual].
  rewrite bool_decide_eq_true_2 by done. cbn [negb]. rewrite (serves_bytes _ _ _ _ _ _ _ Hs). cbn [mbind result_bind].
  rewrite (serves_content _ _ _ _ _ _ _ Hs). cbn [mbind result_bind]. rewrite Hoff, Hlen. rewrite (proj2 (Z.leb_gt _ _)) by lia.
  fold (part offset). unfold createBlobResponse. rewrite Hval, Hoff, Hlen, Hb, Hid, Hsize. cbn [mbind result_bind strictEqual intOf].
  rewrite bool_decide_eq_true_2 by done. cbn [negb orb]. rewrite (proj2 (Z.leb_gt _ _)) by lia. pose proof (part_length offset Ho) as Hp.
  rewrite (proj2 (Z.ltb_ge _ _)) by lia. rewrite (proj2 (Z.eqb_eq _ _)) by done. cbn [negb orb mbind result_bind].
  unfold encodePairingFrame, requiredPairingCodec. cbn [mbind result_bind]. unfold answerTo in He. by rewrite Hid, Hsize in He.
Qed.

Lemma served_frame offset request requestFrame n :
  (0 <= offset < Z.of_nat (length bytes))%Z -> made offset request ->
  codec_encode codec BLOB_REQUEST_FRAME (serve_secret options) (encodeJson request) = Ok requestFrame ->
  exists frame, peer_read (servingPeer (Some codec) options serverClock) n requestFrame = Ok frame /\
    readAnswer (Some codec) (serve_secret options) descriptor frame request = Ok (part offset).
Proof.
  intros Ho Hmade Hframe. destruct (request_answered offset request n Ho Hmade) as (frame & Ha & _ & Hi & Hd & Hl).
  destruct served_blob as (blobId & size & Hid & Hvalid & Hsize & Hrange & -> & Hval).
  exists frame. split.
  - destruct (Hcodec BLOB_REQUEST_FRAME (encodeJson request)) as (frame' & He & _ & Hdec & _); [by left|apply (request_size offset); [lia|done]|].
    rewrite Hframe in He. injection He as <-. cbn [servingPeer peer_read]. unfold respondToBlobRequest, readRequest, decodePairingFrame, requiredPairingCodec.
    cbn [mbind result_bind]. rewrite Hdec. cbn [mbind result_bind]. rewrite json_trip; [|apply (request_plain offset); [lia|done]|].
    2: { destruct Hmade as (? & ? & ? & ? & _ & _ & _ & _ & -> & _). by eexists. }
    unfold liftM, mbind, M_bind. rewrite Ha. done.
  - pose proof (answer_length offset request Ho Hmade) as Hlen.
    unfold readAnswer. change MAX_BLOB_RESPONSE_FRAME_BYTES with 353624%Z. rewrite (proj2 (Z.ltb_ge _ _)) by lia.
    unfold inspectPairingFrame, decodePairingFrame, requiredPairingCodec. cbn [mbind result_bind]. rewrite Hi. cbn [mbind result_bind default from_option id].
    change (bool_decide (BLOB_RESPONSE_FRAME ∈ pairingFrameTypes)) with true. rewrite (serves_secret _ _ _ _ _ _ _ Hs). cbn [negb orb mbind result_bind].
    change (bool_decide (BLOB_RESPONSE_FRAME = BLOB_ERROR_FRAME)) with false. cbv iota. rewrite Hd. cbn [mbind result_bind].
    rewrite json_trip; [|by apply answer_plain|by eexists]. cbn [mbind result_bind]. unfold verifyBlobResponse. rewrite Hval. cbn [mbind result_bind].
    assert (request.["payload"].["offset"] = Num (Int offset)) as Hoff by by destruct Hmade as (? & ? & ? & ? & _ & _ & _ & _ & -> & _).
    assert (lengthOf request = BLOB_CHUNK_BYTES) as Hln by by destruct Hmade as (? & ? & ? & ? & _ & _ & _ & _ & -> & _).
    assert (exists id, request.["payload"].["requestId"] = Str id) as [id Hrid] by (destruct Hmade as (? & ? & ? & ? & _ & _ & _ & _ & -> & _); by eexists).
    unfold answerTo, offsetOf. rewrite Hrid, Hid, Hsize, Hoff, Hln. set (answer := response_value _ _ _ _ _).
    change answer.["data"] with (Str (toBase64Url (part offset))). change answer.["kind"] with (Str (js "blob-response")).
    change answer.["version"] with (Num (Int 1)). change answer.["requestId"] with (Str id). change answer.["blobId"] with (Str blobId).
    change answer.["offset"] with (Num (Int offset)). change answer.["totalSize"] with (Num (Int (Z.of_nat (length bytes)))).
    cbn [fromBase64UrlOf]. rewrite from_toBase64Url by apply part_octets. cbn [mbind result_bind isStr isInt strictEqual intOf].
    rewrite !bool_decide_eq_true_2 by done. rewrite !Z.eqb_refl. cbn [negb orb]. rewrite (part_length offset Ho), Z.eqb_refl. done.
Qed.

Lemma chunk_fetched offset : (0 <= offset < Z.of_nat (length bytes))%Z ->
  yields (requestChunk (Some codec) around (servingPeer (Some codec) options serverClock) (serve_secret options) profile scopeId descriptor None offset)
    (fun chunk => chunk = part offset).
Proof.
  intros Ho. pose proof (serves_calm _ _ _ _ _ _ _ Hs) as Hcalm. destruct served_blob as (_ & size & _ & _ & _ & Hrange & -> & _).
  apply (yields_bind _ _ (fun _ => True)); [by apply yields_current|intros _ _]. apply (yields_bind _ _ (made offset)).
  { apply yields_await; [done|]. apply (yields_bind _ _ (fun _ => True)); [by apply yields_look|]. intros n _.
    destruct (request_made offset n) as (request & Hr & Hm); [lia|]. by eapply yields_lift. }
  intros request Hmade. apply (yields_bind _ _ (fun _ => True)); [by apply yields_current|intros _ _].
  destruct (Hcodec BLOB_REQUEST_FRAME (encodeJson request)) as (requestFrame & He & _); [by left|apply (request_size offset); [lia|done]|].
  apply (yields_bind _ _ (fun _ => True)).
  { apply yields_await; [done|]. intros w. by eexists _, _. }
  intros id _ w. unfold onStream.
  assert (yields (sendRequest (Some codec) around (servingPeer (Some codec) options serverClock) (serve_secret options) id request)
    (fun frame => frame = requestFrame)) as Hsend.
  { apply (yields_bind _ _ (fun _ => True)); [by apply yields_current|intros _ _]. apply (yields_bind _ _ (fun frame => frame = requestFrame)).
    - apply yields_await; [done|]. unfold encodePairingFrame, requiredPairingCodec. cbn [mbind result_bind]. rewrite He.
      intros w'. by eexists _, _.
    - intros frame ->. apply (yields_bind _ _ (fun _ => True)); [by apply yields_current|intros _ _].
      apply (yields_bind _ _ (fun _ => True)); [apply yields_await; [done|]; intros w'; by eexists _, _|intros _ _]. by apply yields_ret. }
  destruct (Hsend w) as (frame & w1 & -> & ->).
  assert (yields (readResponse (Some codec) around (servingPeer (Some codec) options serverClock) (serve_secret options) descriptor requestFrame request)
    (fun chunk => chunk = part offset)) as Hread.
  { apply (yields_bind _ _ (fun _ => True)); [by apply yields_current|intros _ _].
    apply (yields_bind _ _ (fun frame => readAnswer (Some codec) (serve_secret options) descriptor frame request = Ok (part offset))).
    - apply yields_await; [done|]. apply (yields_bind _ _ (fun _ => True)); [by apply yields_look|]. intros n _.
      destruct (served_frame offset request requestFrame n Ho Hmade He) as (frame & Hf & Hr). by eapply yields_lift.
    - intros frame Hr. apply (yields_bind _ _ (fun _ => True)); [by apply yields_current|intros _ _]. by eapply yields_lift. }
  unfold finallyM. destruct (Hread w1) as (chunk & w2 & -> & ->). unfold releaseBlobStream.
  destruct (streams w2 !! id) as [s|]; [|by eexists _, _]. destruct (stream_resets s || false); by eexists _, _.
Qed.

(** The chunks cover the content. *)
Lemma chunks_fetched chunks offset fetched :
  (0 <= offset)%Z -> length fetched = length bytes -> take (Z.to_nat offset) fetched = take (Z.to_nat offset) bytes ->
  (Z.of_nat (length bytes) <= offset + Z.of_nat chunks * BLOB_CHUNK_BYTES)%Z ->
  (chunks = O \/ (offset + (Z.of_nat chunks - 1) * BLOB_CHUNK_BYTES < Z.of_nat (length bytes))%Z) ->
  yields (fetchChunks (Some codec) around (servingPeer (Some codec) options serverClock) (serve_secret options) profile scopeId descriptor None
    chunks offset fetched) (fun result => result = bytes).
Proof.
  revert offset fetched. unfold BLOB_CHUNK_BYTES. induction chunks as [|chunks IH]; intros offset fetched Ho Hlen Htake Hcover Hlast.
  - apply yields_ret. rewrite !take_ge in Htake by lia. done.
  - cbn [fetchChunks]. apply (yields_bind _ _ (fun chunk => chunk = part offset)); [apply chunk_fetched; lia|]. intros chunk ->.
    pose proof (part_length offset ltac:(lia)) as Hpl. unfold BLOB_CHUNK_BYTES in Hpl.
    apply IH; [unfold BLOB_CHUNK_BYTES; lia| | |unfold BLOB_CHUNK_BYTES; lia|unfold BLOB_CHUNK_BYTES; lia].
    + unfold setAt. rewrite !length_app, length_take, length_drop. lia.
    + unfold setAt. rewrite Htake, app_assoc.
      assert (take (Z.to_nat offset) bytes ++ part offset = take (Z.to_nat offset + length (part offset)) bytes) as ->.
      { unfold part in Hpl |- *. rewrite take_take_drop. f_equal. rewrite !length_take, !length_drop in *. unfold BLOB_CHUNK_BYTES in *. lia. }
      destruct (decide (Z.of_nat (length (part offset)) = 256 * 1024)%Z) as [Hfull|Hpart].
      * unfold BLOB_CHUNK_BYTES. replace (Z.to_nat (offset + 256 * 1024)) with (Z.to_nat offset + length (part offset))%nat by lia.
        rewrite take_app_length'; [done|]. rewrite length_take. lia.
      * assert (Z.to_nat offset + length (part offset) = length bytes)%nat as Hend by lia. rewrite Hend, (drop_ge fetched), app_nil_r by lia.
        rewrite firstn_all. done.
Qed.
End Delivery.

(** ** Two peers to run the definitions with *)
#[local] Instance strictText : TextPlatform.
Proof.
  refine {| decodeLossy := fun bytes => default [] (TextDecoder_decode bytes) |}. by intros bytes text ->.
Defined.
#[local] Instance toyBlake3 : Blake3 := {| blake3HashFor := checksum |}.
#[local] Existing Instance jsonHeaders.

Module BlobSample.
#[local] Existing Instance checksumSha256.
#[local] Existing Instance toyEd25519.

Definition bytes : list N := [1; 2; 3]%N.
Definition descriptor : value := Eval vm_compute in People.orUndefined (createBlobDescriptor bytes (Str (js "notes.txt")) (Str (js "Text/Plain"))).
Definition profile : LocalProfile := People.profile 1 2.
Definition around : Surroundings := mkSurroundings (fun _ => None) None (fun _ => 1000%Z) (fun _ => js "u1").
Definition options : Serving := mkServing (js "secret") (js "scope") (identity_value (local_identity profile)) (Arr [local_certificate profile])
  (fun _ => Ok (Some descriptor)) (fun _ => Ok (Some bytes)).

Lemma secret_framable : framable (js "secret").
Proof.
  split; [by split; vm_compute|]. split; [discriminate|]. intros type Htype. eexists. split; [reflexivity|].
  unfold transferFrames in Htype. apply elem_of_cons in Htype as [->| ->%list_elem_of_singleton]; apply Nat.ltb_lt; vm_compute; reflexivity.
Qed.

Lemma sample_serves : serves (H := checksumSha256) (H0 := toyEd25519) around (fun _ => 2000%Z) profile (js "scope") descriptor options bytes.
Proof.
  split; try (vm_compute; reflexivity).
  - exact secret_framable.
  - apply Z.leb_le. vm_compute. reflexivity.
  - intros message. etransitivity; [apply Nat.eq_le_incl, (sha256_length (Sha256 := checksumSha256))|lia].
  - done.
  - intros n m. split; vm_compute; done.
  - intros n. split; [reflexivity|]. cbn. lia.
  - split_and!; [reflexivity..|vm_compute; exact I].
  - split_and!; [reflexivity|vm_compute; exact I..].
  - repeat constructor.
Qed.
End BlobSample.

(** A name whose cut to 180 characters leaves a blank at its end is refused,
    although the file could be shared under its trimmed name. *)
Theorem blob_name_cut_rejected :
  createBlobDescriptorFromId (textOf BlobSample.descriptor.["blobId"]) 3 (Str (replicate 179 97%N ++ js " report.txt")) (Str (js "text/plain"))
  = Throw invalidDescriptor.
Proof. vm_compute. reflexivity. Qed.

(** C26. Two sides of a transfer fit.  The requester and the answering side use
    the pairing codec of the repository, with its budgets.  If nothing interrupts
    the transfer, the clocks are within five minutes, the secret's header takes less
    than 2048 bytes, the ids of the scope, the person and the device have at most
    500,000 characters in all, request ids have 1 to 128 characters that JSON does
    not escape, signatures at most 64 bytes, and the other side holds the blob of the
    descriptor and knows the requester's device, then [requestBlob] against
    [respondToBlobRequest] returns the blob, chunk by chunk in frames that stay
    within the limits of the codec and of the reader. *)
Theorem blob_transfer_delivers `{Sha256} `{Ed25519} `{Calendar} `{TextPlatform} `{Blake3} `{HeaderJson}
    around serverClock profile scopeId descriptor options bytes w :
  serves around serverClock profile scopeId descriptor options bytes ->
  (requestBlob (Some WasmPairingCodec) around (servingPeer (Some WasmPairingCodec) options serverClock) (serve_secret options) profile scopeId descriptor None None w).1
  = Ok bytes.
Proof.
  intros Hs. pose proof (serves_calm _ _ _ _ _ _ _ Hs) as Hcalm. destruct (served_blob _ _ _ _ _ _ _ Hs) as (_ & size & _ & _ & Hz & Hr & He & Hv).
  enough (yields (requestBlob (Some WasmPairingCodec) around (servingPeer (Some WasmPairingCodec) options serverClock) (serve_secret options) profile scopeId descriptor None None)
    (fun result => result = bytes)) as Hy by (destruct (Hy w) as (? & w' & -> & ->); done).
  apply (yields_bind _ _ (fun _ => True)); [by eapply yields_lift|intros _ _]. apply (yields_bind _ _ (fun _ => True)); [by apply yields_ret|intros _ _].
  rewrite Hz. cbn [intOf]. apply (yields_bind _ _ (fun result => result = bytes)).
  - apply (chunks_fetched WasmPairingCodec around serverClock profile scopeId descriptor options bytes Hs (wasm_faithful _ (serves_frames _ _ _ _ _ _ _ Hs))).
    + done.
    + rewrite length_replicate. lia.
    + done.
    + unfold chunkCount, BLOB_CHUNK_BYTES. pose proof (Z.div_mod (size + 256 * 1024 - 1) (256 * 1024)). pose proof (Z.mod_pos_bound (size + 256 * 1024 - 1) (256 * 1024)). lia.
    + right. unfold chunkCount, BLOB_CHUNK_BYTES. pose proof (Z.div_mod (size + 256 * 1024 - 1) (256 * 1024)). pose proof (Z.mod_pos_bound (size + 256 * 1024 - 1) (256 * 1024)). lia.
  - intros result ->. apply (yields_bind _ _ (fun _ => True)); [by apply yields_current|intros _ _].
    apply (yields_bind _ _ (fun out => out = bytes)).
    + apply yields_await; [done|]. eapply yields_lift; [|done]. exact (serves_content _ _ _ _ _ _ _ Hs).
    + intros out ->. apply (yields_bind _ _ (fun _ => True)); [by apply yields_current|intros _ _]. by apply yields_ret.
Qed.

Lemma blob_transfer_delivers_witness :
  (requestBlob (H := checksumSha256) (H0 := toyEd25519) (H2 := strictText) (H3 := toyBlake3) (Some (WasmPairingCodec (H := jsonHeaders))) BlobSample.around
    (servingPeer (H := checksumSha256) (H0 := toyEd25519) (H1 := isoCalendar) (H2 := strictText) (H3 := toyBlake3) (Some (WasmPairingCodec (H := jsonHeaders))) BlobSample.options (fun _ => 2000%Z))
    (js "secret") BlobSample.profile (js "scope") BlobSample.descriptor None None (mkTransfer 0 [])).1 = Ok BlobSample.bytes.
Proof.
  exact (blob_transfer_delivers (H := checksumSha256) (H0 := toyEd25519) (H1 := isoCalendar) (H2 := strictText) (H3 := toyBlake3)
    (H4 := jsonHeaders) _ _ _ _ _ _ _ (mkTransfer 0 []) BlobSample.sample_serves).
Defined.
