(* ===== verification/BlobStream.v ===== *)
(** * Blobs in pieces

    [packages/mesh-blob/src/stream.ts], [streamStore.ts] and [MeshBlobStore] of
    [index.ts]: cutting a source into chunks, checking chunks as they pass,
    staging them in a store and publishing a manifest for them once the whole
    digest is right, and reading them back.  The store is any [AtomicStore], which
    may throw at any access and is shared with other writers; a source is the
    sequence of what its iteration gives, ended by what it throws, if it throws. *)
From stdpp Require Import base numbers list sorting strings.
From Stdlib Require Import ZArith NArith Lia.
From S2P Require Import Prelude Unicode Json Js Base64 Digest Envelope ProfileValue Profile Records MeshStore Pairing Blob.
Local Open Scope js_scope.

(** Code on one part of a larger state. *)
Definition onFst {W V A} (m : M W A) : M (W * V) A := fun '(w, v) => let '(r, w') := m w in (r, (w', v)).
Definition onSnd {W V A} (m : M V A) : M (W * V) A := fun '(w, v) => let '(r, v') := m v in (r, (w, v')).

Section Stream.
Context `{Sha256} `{Blake3}.

Definition BlobByteSource : Type := list (result Stored).

(** ** A check of chunks as they pass *)
Record Verifier := mkVerifier { v_captured : value; v_hashed : list N; v_size : Z; v_finished : bool }.

Definition createBlobStreamVerifier (descriptor : value) : result Verifier :=
  captured ← validateBlobDescriptor descriptor;
  if bool_decide (take 7 (textOf captured.["blobId"]) = js "sha256:") || isBlake (textOf captured.["blobId"])
  then Ok (mkVerifier captured [] 0 false) else Throw "Unsupported blob hash".

Definition verifier_update (bytes : list N) : M Verifier unit := fun v =>
  let length := Z.of_nat (length bytes) in
  if v_finished v then (Throw "Blob verifier is finished", v) else
  if (length <? 1)%Z || (BLOB_CHUNK_BYTES <? length)%Z then (Throw "Invalid blob chunk", v) else
  if (intOf (v_captured v).["size"] <? v_size v + length)%Z || (MAX_BLOB_BYTES <? v_size v + length)%Z
  then (Throw "Blob exceeds declared size", v) else
  (Ok tt, mkVerifier (v_captured v) (v_hashed v ++ bytes) (v_size v + length) false).

Definition verifier_finish : M Verifier unit := fun v =>
  if v_finished v then (Throw "Blob verifier is finished", v) else
  let done := mkVerifier (v_captured v) (v_hashed v) (v_size v) true in
  let blobId := textOf (v_captured v).["blobId"] in
  if negb (v_size v =? intOf (v_captured v).["size"])%Z then (Throw "Blob size mismatch", done) else
  let actual := if bool_decide (take 7 blobId = js "sha256:") then blobIdFor (v_hashed v)
                else js "blake3:" ++ blake3HashFor (v_hashed v) in
  let expected := if isBlake blobId then map lowerUnit blobId else blobId in
  if bool_decide (actual = expected) then (Ok tt, done) else (Throw "Blob digest mismatch", done).

(** ** Chunks of a source

    The chunks that the generator yields, and how it ends. *)
Fixpoint fillBuffer (fuel : nat) (buffer input : list N) : list (list N) * list N :=
  match fuel, input with
  | S fuel, _ :: _ =>
      let count := Z.to_nat (Z.min (BLOB_CHUNK_BYTES - Z.of_nat (length buffer)) (Z.of_nat (length input))) in
      let buffer := buffer ++ take count input in
      if (Z.of_nat (length buffer) =? BLOB_CHUNK_BYTES)%Z
      then let '(full, rest) := fillBuffer fuel [] (drop count input) in (buffer :: full, rest)
      else fillBuffer fuel buffer (drop count input)
  | _, _ => ([], buffer)
  end.

Fixpoint chunkLoop (source : BlobByteSource) (total : Z) (buffer : list N) : list (list N) * result unit :=
  match source with
  | [] =>
      if (total =? 0)%Z then ([], Throw "Blob source is empty") else (if (length buffer =? 0)%nat then [] else [buffer], Ok tt)
  | Throw e :: _ => ([], Throw e)
  | Ok (ByteRecord input) :: rest =>
      let length := Z.of_nat (length input) in
      if (length <? 1)%Z || (BLOB_CHUNK_BYTES <? length)%Z then ([], Throw "Invalid source chunk") else
      if (MAX_BLOB_BYTES <? total + length)%Z then ([], Throw "Blob source exceeds maximum size") else
      let '(full, buffer) := fillBuffer (List.length input) buffer input in
      let '(parts, ending) := chunkLoop rest (total + length) buffer in
      (full ++ parts, ending)
  | Ok _ :: _ => ([], Throw "Invalid source chunk")
  end.

Definition chunkBlobSource (source : BlobByteSource) : list (list N) * result unit := chunkLoop source 0 [].

Fixpoint sumChunks (size total : Z) (parts : list (list N)) (ending : result unit) : result Z :=
  match parts with
  | [] => ending;; Ok total
  | part :: rest =>
      let total := (total + Z.of_nat (length part))%Z in
      if (size <? total)%Z then Throw "Blob source exceeds declared size" else sumChunks size total rest ending
  end.

Definition createBlobStreamDescriptor (source : BlobByteSource) (size : Z) (name mediaType : value) : result value :=
  if negb (isSafeInteger size) || (size <? 1)%Z || (MAX_BLOB_BYTES <? size)%Z then Throw "Invalid blob size" else
  let '(parts, ending) := chunkBlobSource source in
  total ← sumChunks size 0 parts ending;
  if negb (total =? size)%Z then Throw "Blob source size mismatch" else
  createBlobDescriptorFromId (blobIdFor (concat parts)) size name mediaType.

(** ** Manifests *)
Record Manifest := mkManifest { m_blobId : list N; m_size : Z; m_transferId : list N; m_chunks : nat }.

Definition manifestKey (id : list N) : list N := js "mesh-blob-stream-v1:" ++ id.
Definition chunkKey (manifest : Manifest) (index : nat) : list N :=
  js "mesh-blob-chunk-v1:" ++ m_blobId manifest ++ js ":" ++ m_transferId manifest ++ js ":" ++ intText (Z.of_nat index).

Definition manifest_value (manifest : Manifest) : value :=
  Obj [(js "kind", Str (js "mesh-blob-stream")); (js "version", Num (Int 1)); (js "blobId", Str (m_blobId manifest));
       (js "size", Num (Int (m_size manifest))); (js "transferId", Str (m_transferId manifest));
       (js "chunks", Num (Int (Z.of_nat (m_chunks manifest))))].
Definition manifestText (manifest : Manifest) : list N := default [] (JSON_stringify (manifest_value manifest)).

(** [/^[A-Za-z0-9_-]{1,64}$/] *)
Definition transferToken (text : list N) : bool :=
  (1 <=? length text)%nat && (length text <=? 64)%nat && forallb base64urlUnit text.

Definition readManifest (v : Stored) (blobId : list N) : result Manifest :=
  let invalid := Throw "Invalid stored blob manifest" in
  match v with
  | TextRecord text =>
      if (1024 <? length text)%nat then invalid else
      match JSON_parse text with
      | Some (Obj members) =>
          let parsed := Obj members in
          match safeInt parsed.["size"], parsed.["transferId"] with
          | Some size, Str transferId =>
              if negb (length members =? 6)%nat || negb (isStr (js "mesh-blob-stream") parsed.["kind"]) || negb (isInt 1 parsed.["version"]) ||
                 negb (isStr blobId parsed.["blobId"]) || (size <? 1)%Z || (MAX_BLOB_BYTES <? size)%Z ||
                 negb (isInt (Z.of_nat (chunkCount size)) parsed.["chunks"]) || negb (transferToken transferId)
              then invalid else Ok (mkManifest blobId size transferId (chunkCount size))
          | _, _ => invalid
          end
      | _ => invalid
      end
  | _ => invalid
  end.
End Stream.

(** ** The store of streams *)
Section StreamStore.
Context `{Sha256} `{Blake3} {W : Type} `{!AtomicStore W}.
Variable name : list N.

(** What a write has done so far: the check, the chunks that are stored and the keys it has used. *)
Record Staging := mkStaging { g_verifier : Verifier; g_chunks : nat; g_staged : list (list N) }.

Definition onVerifier (m : M Verifier unit) : M Staging unit := fun g =>
  let '(r, v) := m (g_verifier g) in (r, mkStaging v (g_chunks g) (g_staged g)).
Definition pushStaged (key : list N) : M Staging unit :=
  modifyM (fun g => mkStaging (g_verifier g) (g_chunks g) (g_staged g ++ [key])).
Definition countChunk : M Staging unit := modifyM (fun g => mkStaging (g_verifier g) (S (g_chunks g)) (g_staged g)).

Section Put.
Variable ensureCurrent : M W unit.
(** The manifest with the chunks stored so far. *)
Variable manifest : nat -> Manifest.

Fixpoint stageParts (parts : list (list N)) : M (W * Staging) unit :=
  match parts with
  | [] => mret tt
  | part :: rest =>
      onFst ensureCurrent;;
      onSnd (onVerifier (verifier_update part));;
      g ← onSnd getM;
      let partKey := chunkKey (manifest (g_chunks g)) (g_chunks g) in
      onSnd (pushStaged partKey);;
      onFst (put name partKey (ByteRecord part));;
      onFst ensureCurrent;;
      onSnd countChunk;;
      stageParts rest
  end.

Definition publish (previous : option (list N)) (source : BlobByteSource) : M (W * Staging) unit :=
  let '(parts, ending) := chunkBlobSource source in
  stageParts parts;;
  liftM ending;;
  onSnd (onVerifier verifier_finish);;
  onFst ensureCurrent;;
  g ← onSnd getM;
  let key := manifestKey (m_blobId (manifest 0)) in
  swapped ← onFst (compareAndSwap [mkCondition name key previous]
    [PutOperation name key (TextRecord (manifestText (manifest (g_chunks g))))] ensureCurrent);
  requireM swapped "Blob stream publication conflict";;
  onFst ensureCurrent.

Fixpoint deleteAll (keys : list (list N)) : M W unit :=
  match keys with [] => mret tt | key :: rest => delete name key;; deleteAll rest end.

(** Errors of the clean-up are dropped. *)
Definition discardUnpublished (g : Staging) : M W unit := fun w =>
  let body :=
    found ← get name (manifestKey (m_blobId (manifest 0)));
    match found with
    | Some (TextRecord text) => if bool_decide (text = manifestText (manifest (g_chunks g))) then mret tt else deleteAll (g_staged g)
    | _ => deleteAll (g_staged g)
    end in
  (Ok tt, (body w).2).

(** [try ... catch]: what is not published is discarded. *)
Definition putParts (previous : option (list N)) (source : BlobByteSource) (verifier : Verifier) : M W unit := fun w =>
  match publish previous source (w, mkStaging verifier 0 []) with
  | (Ok _, (w', _)) => (Ok tt, w')
  | (Throw cause, (w', g)) => (discardUnpublished g;; throwM cause) w'
  end.
End Put.

Definition putBlobStream (descriptor : value) (source : BlobByteSource) (ensureCurrent : M W unit) (transferId : list N) : M W unit :=
  descriptor ← liftM (validateBlobDescriptor descriptor);
  verifier ← liftM (createBlobStreamVerifier descriptor);
  let blobId := textOf descriptor.["blobId"] in
  let manifest := mkManifest blobId (intOf descriptor.["size"]) transferId in
  ensureCurrent;;
  previous ← get name (manifestKey blobId);
  match previous with Some v => liftM (readManifest v blobId);; mret tt | None => mret tt end;;
  putParts ensureCurrent manifest (match previous with Some (TextRecord text) => Some text | _ => None end) source verifier.

(** ** Reading *)

(** What reading a stored blob goes through: bytes in one record, or chunks. *)
Inductive Reader := LegacyReader (bytes : list N) | ChunkReader (manifest : Manifest).

Definition readBlobStream (descriptor : value) : M W (option Reader) :=
  descriptor ← liftM (validateBlobDescriptor descriptor);
  let blobId := textOf descriptor.["blobId"] in
  raw ← get name (manifestKey blobId);
  match raw with
  | None =>
      legacy ← get name blobId;
      match legacy with
      | None => mret None
      | Some (ByteRecord bytes) =>
          requireM (isInt (Z.of_nat (length bytes)) descriptor.["size"]) "Stored blob size mismatch";;
          mret (Some (LegacyReader bytes))
      | Some _ => throwM "Stored blob size mismatch"
      end
  | Some raw =>
      manifest ← liftM (readManifest raw blobId);
      requireM (isInt (m_size manifest) descriptor.["size"]) "Stored blob size mismatch";;
      mret (Some (ChunkReader manifest))
  end.

Definition readChunk (manifest : Manifest) (index : nat) : M W (list N) :=
  part ← get name (chunkKey manifest index);
  match part with
  | Some (ByteRecord part) =>
      requireM (Z.of_nat (length part) =? Z.min BLOB_CHUNK_BYTES (m_size manifest - Z.of_nat index * BLOB_CHUNK_BYTES))%Z
        "Stored blob chunk size mismatch";;
      mret part
  | _ => throwM "Stored blob chunk unavailable"
  end.

Definition sliceAt (bytes : list N) (index : nat) : list N :=
  take (Z.to_nat BLOB_CHUNK_BYTES) (drop (index * Z.to_nat BLOB_CHUNK_BYTES) bytes).

Definition readerParts (reader : Reader) : list (M W (list N)) :=
  match reader with
  | LegacyReader bytes => map (fun index => mret (sliceAt bytes index)) (seq 0 (chunkCount (Z.of_nat (length bytes))))
  | ChunkReader manifest => map (readChunk manifest) (seq 0 (m_chunks manifest))
  end.

(** The parts that the iteration yields, and how it ends. *)
Fixpoint verifyParts (verifier : Verifier) (parts : list (M W (list N))) : M W (list (list N) * result unit) := fun w =>
  match parts with
  | [] => (Ok ([], (verifier_finish verifier).1), w)
  | part :: rest =>
      match part w with
      | (Throw e, w') => (Ok ([], Throw e), w')
      | (Ok bytes, w') =>
          match verifier_update bytes verifier with
          | (Throw e, _) => (Ok ([], Throw e), w')
          | (Ok _, verifier) => ('(yielded, ending) ← verifyParts verifier rest; mret (bytes :: yielded, ending)) w'
          end
      end
  end.

Definition iterate (descriptor : value) (reader : Reader) : M W (list (list N) * result unit) :=
  match createBlobStreamVerifier descriptor with
  | Ok verifier => verifyParts verifier (readerParts reader)
  | Throw e => mret ([], Throw e)
  end.

(** [for (const part of source) { output.set(part, offset); offset += part.length }] *)
Fixpoint fillOutput (output : list N) (offset : nat) (parts : list (list N)) : list N :=
  match parts with [] => output | part :: rest => fillOutput (setAt offset part output) (offset + length part) rest end.

Definition collectStoredBlob (blobId : list N) : M W (option (list N)) :=
  raw ← get name (manifestKey blobId);
  match raw with
  | None => mret None
  | Some raw =>
      manifest ← liftM (readManifest raw blobId);
      let descriptor := Obj [(js "kind", Str (js "blob")); (js "version", Num (Int 1)); (js "blobId", Str blobId);
        (js "size", Num (Int (m_size manifest))); (js "name", Str (js "blob")); (js "mediaType", Str (js "application/octet-stream"))] in
      source ← readBlobStream descriptor;
      match source with
      | None => throwM "source is undefined"
      | Some reader =>
          '(parts, ending) ← iterate descriptor reader;
          liftM ending;;
          mret (Some (fillOutput (repeat 0%N (Z.to_nat (m_size manifest))) 0 parts))
      end
  end.

(** ** MeshBlobStore *)

(** The blobs of a native engine, by hash. *)
Record EngineBlobs := mkBlobs {
  engine_checks : BlobEngine;
  putBlob : list N -> list N -> M W unit;
  getBlob : list N -> M W (option (list N));
  hasBlob : list N -> M W bool }.

Variable engine : option EngineBlobs.

(** [descriptor.hash ?? (blobId.startsWith("blake3:") ? blobId.replace("blake3:", "") : undefined)] *)
Definition engineHash (descriptor : value) : list N :=
  let blobId := textOf descriptor.["blobId"] in
  match descriptor.["hash"] with
  | Undefined | Null => if isBlake blobId then drop 7 blobId else []
  | hash => textOf hash
  end.

Definition store_put (descriptor : value) (bytes : list N) : M W unit :=
  liftM (verifyBlobBytes descriptor bytes (engine_checks <$> engine));;
  (match engine with
   | Some engine => if (length (engineHash descriptor) =? 0)%nat then mret tt else putBlob engine (engineHash descriptor) bytes
   | None => mret tt
   end);;
  put name (textOf descriptor.["blobId"]) (ByteRecord bytes).

Definition store_putUnsafe (blobId bytes : list N) : M W unit := put name blobId (ByteRecord bytes).

Definition store_get (blobId : list N) : M W (option Stored) :=
  streamed ← collectStoredBlob blobId;
  match streamed with
  | Some bytes => mret (Some (ByteRecord bytes))
  | None =>
      fromEngine ← match engine with
        | Some engine => getBlob engine (if isBlake blobId then drop 7 blobId else blobId)
        | None => mret None
        end;
      match fromEngine with
      | Some bytes => mret (Some (ByteRecord bytes))
      | None => get name blobId
      end
  end.

(** [!bytes]: nothing, or an empty string. *)
Definition absent (found : option Stored) : bool :=
  match found with None | Some (TextRecord []) => true | Some (DataRecord v) => negb (truthy v) | _ => false end.

(** A record that is not bytes has no byte length to match. *)
Definition store_getVerified (descriptor : value) : M W (option (list N)) :=
  found ← store_get (textOf descriptor.["blobId"]);
  found ← match absent found, descriptor.["hash"], engine with
    | true, Str (u :: hash), Some engine => bytes ← getBlob engine (u :: hash); mret (ByteRecord <$> bytes)
    | _, _, _ => mret found
    end;
  if absent found then mret None else
  match found with
  | Some (ByteRecord bytes) => verified ← liftM (verifyBlobBytes descriptor bytes (engine_checks <$> engine)); mret (Some verified)
  | _ => liftM (validateBlobDescriptor descriptor);; throwM "Blob content does not match descriptor"
  end.

Definition store_has (descriptor : value) : M W bool :=
  known ← match engine with
    | Some engine => if (length (engineHash descriptor) =? 0)%nat then mret false else hasBlob engine (engineHash descriptor)
    | None => mret false
    end;
  if (known : bool) then mret true else
  found ← store_getVerified descriptor;
  mret (bool_decide (is_Some found)).

Definition store_putStream (descriptor : value) (source : BlobByteSource) (ensureCurrent : M W unit) (transferId : list N) : M W unit :=
  captured ← liftM (validateBlobDescriptor descriptor);
  putBlobStream captured source ensureCurrent transferId.
Definition store_getStream (descriptor : value) : M W (option Reader) :=
  captured ← liftM (validateBlobDescriptor descriptor);
  readBlobStream captured.
End StreamStore.

(** ** Chunks *)
Section Chunks.
Variable C : nat.
Hypothesis HC : Z.of_nat C = BLOB_CHUNK_BYTES.

Lemma chunk_positive : (0 < C)%nat.
Proof. assert (0 < BLOB_CHUNK_BYTES)%Z by done. lia. Qed.

(** Parts of the size of a chunk, but for the last one. *)
Definition wellCut (parts : list (list N)) : Prop :=
  forall i part, parts !! i = Some part ->
    (0 < length part)%nat /\ Z.of_nat (length part) = Z.min BLOB_CHUNK_BYTES (Z.of_nat (length (concat parts)) - Z.of_nat i * BLOB_CHUNK_BYTES).

Lemma fillBuffer_spec fuel buffer input : (length buffer < C)%nat -> (length input <= fuel)%nat ->
  let '(full, rest) := fillBuffer fuel buffer input in
  concat full ++ rest = buffer ++ input /\ Forall (fun part => length part = C) full /\ (length rest < C)%nat.
Proof.
  pose proof chunk_positive as Hpos. revert buffer input. induction fuel as [|fuel IH]; intros buffer input Hb Hi.
  { destruct input; [|cbn in Hi; lia]. cbn. by rewrite app_nil_r. }
  destruct input as [|u input]; [cbn; by rewrite app_nil_r|]. cbn [fillBuffer]. rewrite <-HC.
  set (count := Z.to_nat _).
  assert (count = Nat.min (C - length buffer) (S (length input))) as Hcount by (unfold count; cbn [length]; lia).
  assert (length (take count (u :: input)) = count) as Htake by (rewrite length_take; cbn [length]; lia).
  destruct (Z.eqb_spec (Z.of_nat (length (buffer ++ take count (u :: input)))) (Z.of_nat C)) as [Heq|Hne];
    rewrite length_app, Htake in *.
  - specialize (IH [] (drop count (u :: input)) ltac:(cbn; lia) ltac:(rewrite length_drop; cbn [length] in *; lia)).
    destruct (fillBuffer fuel [] _) as [full rest]. destruct IH as (Hc & Hf & Hr). split; [|split; [|done]].
    + cbn [concat]. rewrite <-app_assoc, Hc. cbn [app]. by rewrite <-app_assoc, take_drop.
    + constructor; [|done]. rewrite length_app, Htake. lia.
  - specialize (IH (buffer ++ take count (u :: input)) (drop count (u :: input))).
    destruct (fillBuffer fuel (buffer ++ _) _) as [full rest].
    destruct IH as (Hc & Hf & Hr); [rewrite length_app, Htake; lia|rewrite length_drop; cbn [length] in *; lia|].
    split; [|done]. by rewrite Hc, <-app_assoc, take_drop.
Qed.

(** Full chunks and at most one shorter one. *)
Definition cut (parts : list (list N)) : Prop :=
  exists full rest, parts = full ++ (if (length rest =? 0)%nat then [] else [rest]) /\
    Forall (fun part => length part = C) full /\ (length rest < C)%nat.

Lemma length_full (full : list (list N)) : Forall (fun part => length part = C) full -> length (concat full) = (length full * C)%nat.
Proof. induction 1 as [|part full Hp Hf IH]; cbn; [done|]. rewrite length_app. lia. Qed.

Lemma cut_wellCut parts : cut parts -> wellCut parts.
Proof.
  pose proof chunk_positive as Hpos. intros (full & rest & -> & Hfull & Hrest) i part Hi. rewrite concat_app, length_app, length_full, <-HC by done.
  apply lookup_app_Some in Hi as [Hi|[Hlen Hi]].
  - pose proof Hi as Hlt%lookup_lt_Some. rewrite Forall_lookup in Hfull. rewrite (Hfull _ _ Hi). split; [lia|]. nia.
  - destruct (Nat.eqb_spec (length rest) 0) as [Hz|Hz]; [done|]. apply list_lookup_singleton_Some in Hi as [Hi <-].
    split; [lia|]. cbn [concat]. rewrite app_nil_r. nia.
Qed.

Fixpoint sourceBytes (source : BlobByteSource) : list N :=
  match source with Ok (ByteRecord input) :: rest => input ++ sourceBytes rest | _ => [] end.

Lemma chunkLoop_cut source total buffer parts : (length buffer < C)%nat -> chunkLoop source total buffer = (parts, Ok tt) ->
  concat parts = buffer ++ sourceBytes source /\ cut parts.
Proof.
  revert total buffer parts. induction source as [|[[text|input|data]|e] source IH]; intros total buffer parts Hb; cbn [chunkLoop]; try done.
  - destruct (total =? 0)%Z; [done|]. intros Heq. injection Heq as <-. cbn. rewrite app_nil_r. split.
    + by destruct buffer; cbn; rewrite ?app_nil_r.
    + exists [], buffer. split; [by destruct buffer|]. split; [constructor|done].
  - destruct (_ || _); [done|]. destruct (_ <? _)%Z; [done|]. pose proof (fillBuffer_spec (length input) buffer input Hb ltac:(done)) as Hf.
    destruct (fillBuffer (length input) buffer input) as [full rest]. destruct Hf as (Hc & Hfull & Hrest).
    destruct (chunkLoop source _ rest) as [parts' ending] eqn:Hl. intros Heq. injection Heq as <- ->.
    destruct (IH _ _ _ Hrest Hl) as (Hc' & full' & rest' & -> & Hfull' & Hrest'). split.
    + rewrite concat_app, Hc'. cbn [sourceBytes]. by rewrite app_assoc, Hc, <-app_assoc.
    + exists (full ++ full'), rest'. split; [by rewrite app_assoc|]. split; [by apply Forall_app|done].
Qed.

(** A source of byte chunks that fit is cut to its end. *)
Definition wellFed (source : BlobByteSource) : Prop :=
  source <> [] /\ Forall (fun item => exists input, item = Ok (ByteRecord input) /\ (1 <= length input <= C)%nat) source /\
  (Z.of_nat (length (sourceBytes source)) <= MAX_BLOB_BYTES)%Z.

Lemma chunkLoop_ends source total buffer :
  Forall (fun item => exists input, item = Ok (ByteRecord input) /\ (1 <= length input <= C)%nat) source ->
  (0 <= total)%Z -> (total + Z.of_nat (length (sourceBytes source)) <= MAX_BLOB_BYTES)%Z -> (0 < total)%Z \/ source <> [] ->
  exists parts, chunkLoop source total buffer = (parts, Ok tt).
Proof.
  intros Hs. revert total buffer. induction Hs as [|item source (input & -> & Hin) Hs IH]; intros total buffer Hpos Hmax Hne; cbn [chunkLoop].
  - destruct (Z.eqb_spec total 0); [|by eexists]. destruct Hne; [lia|done].
  - cbn [sourceBytes] in Hmax. rewrite length_app in Hmax. rewrite <-HC.
    destruct (Z.ltb_spec (Z.of_nat (length input)) 1); [lia|]. destruct (Z.ltb_spec (Z.of_nat C) (Z.of_nat (length input))); [lia|].
    destruct (Z.ltb_spec MAX_BLOB_BYTES (total + Z.of_nat (length input))); [lia|]. cbn [orb].
    destruct (fillBuffer (length input) buffer input) as [full rest].
    destruct (IH (total + Z.of_nat (length input))%Z rest) as [parts ->]; [lia|lia|left; lia|]. by eexists.
Qed.
End Chunks.

(** ** The check *)
Section Checked.
Context `{Sha256} `{Blake3}.

(** A check that these bytes have passed. *)
Definition fed (descriptor : value) (bytes : list N) (v : Verifier) : Prop :=
  v = mkVerifier descriptor bytes (Z.of_nat (length bytes)) false.

Lemma verifier_update_fed descriptor bytes part v v' : fed descriptor bytes v -> verifier_update part v = (Ok tt, v') ->
  fed descriptor (bytes ++ part) v' /\ (0 < length part)%nat /\ (Z.of_nat (length (bytes ++ part)) <= intOf descriptor.["size"])%Z.
Proof.
  intros ->. unfold verifier_update, fed. cbn [v_finished v_captured v_size v_hashed]. rewrite !length_app.
  destruct (Z.ltb_spec (Z.of_nat (length part)) 1); [done|]. destruct (BLOB_CHUNK_BYTES <? Z.of_nat (length part))%Z; [done|].
  destruct (Z.ltb_spec (intOf descriptor.["size"]) (Z.of_nat (length bytes) + Z.of_nat (length part))); [done|].
  destruct (MAX_BLOB_BYTES <? Z.of_nat (length bytes) + Z.of_nat (length part))%Z; [done|].
  intros Heq. injection Heq as <-. split_and!; [|lia|lia]. f_equal. lia.
Qed.

Lemma verifier_update_ok descriptor bytes part v : fed descriptor bytes v ->
  (0 < length part)%nat -> (Z.of_nat (length part) <= BLOB_CHUNK_BYTES)%Z ->
  (Z.of_nat (length (bytes ++ part)) <= intOf descriptor.["size"] <= MAX_BLOB_BYTES)%Z ->
  verifier_update part v = (Ok tt, mkVerifier descriptor (bytes ++ part) (Z.of_nat (length (bytes ++ part))) false).
Proof.
  intros -> Hpos Hchunk Hsize. unfold verifier_update. cbn [v_finished v_captured v_size v_hashed]. rewrite length_app in *.
  destruct (Z.ltb_spec (Z.of_nat (length part)) 1); [lia|]. destruct (Z.ltb_spec BLOB_CHUNK_BYTES (Z.of_nat (length part))); [lia|].
  destruct (Z.ltb_spec (intOf descriptor.["size"]) (Z.of_nat (length bytes) + Z.of_nat (length part))); [lia|].
  destruct (Z.ltb_spec MAX_BLOB_BYTES (Z.of_nat (length bytes) + Z.of_nat (length part))); [lia|]. cbn [orb].
  do 2 f_equal. lia.
Qed.

Lemma blobId_kinds id : isValidBlobId (Str id) = true ->
  id = js "sha256:" ++ drop 7 id /\ isBlake id = false \/ id = js "blake3:" ++ drop 7 id /\ isBlake id = true.
Proof.
  intros Hv. assert (id = take 7 id ++ drop 7 id) as Hid by by rewrite take_drop. unfold isValidBlobId, isBlake in *. bool_to_prop.
  apply orb_true_iff in Hv as [Hv|Hv]; apply andb_true_iff in Hv as [[Hv%bool_decide_eq_true _]%andb_true_iff _]; rewrite Hv in Hid |- *.
  - left. split; [exact Hid|]. reflexivity.
  - right. split; [exact Hid|]. reflexivity.
Qed.

Lemma verifier_finish_content descriptor bytes v d : validateBlobDescriptor descriptor = Ok d -> fed descriptor bytes v ->
  (verifier_finish v).1 = Ok tt <-> content descriptor bytes.
Proof.
  intros (_ & (id & Hid & Hvalid) & size & Hsize & _)%validate_same ->. unfold verifier_finish. cbn [v_finished v_captured v_size v_hashed].
  unfold content. rewrite Hsize, Hid. cbn [intOf textOf]. destruct (Z.eqb_spec (Z.of_nat (length bytes)) size) as [Hz|Hz]; cbn [negb].
  2: { split; [done|]. intros [Heq _]. congruence. }
  apply blobId_kinds in Hvalid as [[Heq Hb]|[Heq Hb]]; rewrite Hb.
  - assert (take 7 id = js "sha256:") as -> by (rewrite Heq; reflexivity). rewrite (bool_decide_eq_true_2 (js "sha256:" = js "sha256:")) by done.
    case_bool_decide as Hd; cbn [fst]; split; try done.
    + intros _. split; [congruence|]. exists id. split; [done|]. by rewrite Hb.
    + intros [_ (id' & Hi & Hd')]. assert (id' = id) as -> by congruence. rewrite Hb in Hd'. by rewrite Hd' in Hd.
  - assert (take 7 id = js "blake3:") as -> by (rewrite Heq; reflexivity). rewrite (bool_decide_eq_false_2 (js "blake3:" = js "sha256:")) by done.
    assert (map lowerUnit id = js "blake3:" ++ lowerHex (drop 7 id)) as -> by (rewrite Heq at 1; by rewrite map_app).
    case_bool_decide as Hd; cbn [fst]; split; try done.
    + intros _. split; [congruence|]. exists id. split; [done|]. rewrite Hb. by apply app_inv_head in Hd.
    + intros [_ (id' & Hi & Hd')]. assert (id' = id) as -> by congruence. rewrite Hb in Hd'. by rewrite Hd' in Hd.
Qed.

Lemma createVerifier_fed descriptor d : validateBlobDescriptor descriptor = Ok d ->
  exists v, createBlobStreamVerifier descriptor = Ok v /\ fed descriptor [] v.
Proof.
  intros Hv. pose proof Hv as (-> & (id & Hid & Hvalid) & _)%validate_same. unfold createBlobStreamVerifier. rewrite Hv. cbn [mbind result_bind].
  rewrite Hid. cbn [textOf]. exists (mkVerifier descriptor [] 0 false). split; [|done].
  apply blobId_kinds in Hvalid as [[Heq Hb]|[Heq Hb]]; rewrite Hb; [|by rewrite orb_true_r].
  by assert (take 7 id = js "sha256:") as -> by (rewrite Heq; reflexivity).
Qed.
End Checked.

(** ** Keys and manifests *)
Section Keys.
Lemma chunkKey_manifestKey manifest index id : chunkKey manifest index <> manifestKey id.
Proof. intros Heq. apply (f_equal (take 11)) in Heq. discriminate Heq. Qed.

Lemma chunkKey_inj blobId size transferId n n' i j : isSafeInteger (Z.of_nat i) -> isSafeInteger (Z.of_nat j) ->
  chunkKey (mkManifest blobId size transferId n) i = chunkKey (mkManifest blobId size transferId n') j -> i = j.
Proof.
  intros Hi Hj Heq. unfold chunkKey in Heq. cbn [m_blobId m_transferId] in Heq. do 5 apply app_inv_head in Heq.
  apply intText_inj in Heq; [lia|done|done].
Qed.

Lemma base64url_units text : forallb base64urlUnit text = true -> units text.
Proof.
  intros Ht. apply Is_true_true, forallb_forall. intros u Hu. rewrite forallb_forall in Ht. specialize (Ht u Hu).
  unfold base64urlUnit, ProfileValue.between in Ht. apply N.ltb_lt.
  repeat (apply orb_true_iff in Ht as [Ht|Ht]); try (apply andb_true_iff in Ht as [_ Ht%N.leb_le]; lia); apply N.eqb_eq in Ht; lia.
Qed.

Lemma hex_base64url u : hexUnit u = true -> base64urlUnit u = true.
Proof.
  unfold hexUnit, base64urlUnit, ProfileValue.between. rewrite !orb_true_iff, !andb_true_iff, !N.leb_le, !N.eqb_eq. lia.
Qed.

Lemma validId_units id : isValidBlobId (Str id) = true -> units id /\ (length id <= 71)%nat.
Proof.
  intros Hv. assert (units (drop 7 id) /\ (length id <= 71)%nat) as [Hu Hl].
  { unfold isValidBlobId in Hv. apply orb_true_iff in Hv as [Hv|Hv]; apply andb_true_iff in Hv as [[_ Hl%Nat.eqb_eq]%andb_true_iff Hu];
      (split; [apply base64url_units|lia]); [done|]. apply forallb_forall. intros u Hin. rewrite forallb_forall in Hu. by apply hex_base64url, Hu. }
  split; [|done]. apply blobId_kinds in Hv as [[Heq _]|[Heq _]]; rewrite Heq; unfold units; rewrite forallb_app; by apply andb_True.
Qed.

Lemma transferToken_units text : transferToken text = true -> units text /\ (length text <= 64)%nat.
Proof. unfold transferToken. intros [[_ Hl%Nat.leb_le]%andb_true_iff Ht]%andb_true_iff. split; [by apply base64url_units|done]. Qed.

Lemma manifest_plain manifest : units (m_blobId manifest) -> units (m_transferId manifest) ->
  isSafeInteger (m_size manifest) -> isSafeInteger (Z.of_nat (m_chunks manifest)) -> plain (manifest_value manifest).
Proof.
  intros Hb Ht Hs Hc. unfold manifest_value. apply plain_obj. split; [|by apply (bool_decide_unpack _)].
  repeat (apply Forall_cons; split; [split; [exact I|first [exact I|assumption]]|]). by apply Forall_nil.
Qed.

Lemma manifestText_inj manifest manifest' : plain (manifest_value manifest) -> plain (manifest_value manifest') ->
  manifestText manifest = manifestText manifest' -> m_chunks manifest = m_chunks manifest'.
Proof.
  intros (t & Ht & Hp)%stringify_plain (t' & Ht' & Hp')%stringify_plain. unfold manifestText. rewrite Ht, Ht'. cbn [default from_option id].
  intros ->. rewrite Hp in Hp'. apply (inj Some) in Hp'. apply (f_equal (getOpt (js "chunks"))) in Hp'.
  change (Num (Int (Z.of_nat (m_chunks manifest))) = Num (Int (Z.of_nat (m_chunks manifest')))) in Hp'. injection Hp' as Hp'. lia.
Qed.
End Keys.

(** ** A manifest is published for complete chunks only *)
Section Publish.
Context `{Sha256} `{Blake3} {W : Type} `{!AtomicStore W}.
Variables (name blobId transferId : list N) (descriptor : value) (size : Z) (ensureCurrent : M W unit) (source : BlobByteSource).
Hypothesis Hvalid : validateBlobDescriptor descriptor = Ok descriptor.
Hypothesis Hid : descriptor.["blobId"] = Str blobId.
Hypothesis Hsize : descriptor.["size"] = Num (Int size).
Hypothesis Htoken : transferToken transferId = true.

Abbreviation manifest := (mkManifest blobId size transferId).
Abbreviation ck := (chunkKey (mkManifest blobId size transferId 0)).

Definition ours (c : Contents) (n : nat) : Prop :=
  isSafeInteger (Z.of_nat n) /\ c name (manifestKey blobId) = Some (TextRecord (manifestText (manifest n))).
Definition vacant (c : Contents) : Prop := forall n, ~ ours c n.
Definition staged (parts : list (list N)) (c : Contents) : Prop := forall i part, parts !! i = Some part -> c name (ck i) = Some (ByteRecord part).

(** The chunks of the manifest with this count are there, and are the blob. *)
Definition complete (c : Contents) (n : nat) : Prop :=
  let parts := (chunkBlobSource source).1 in
  length parts = n /\ staged parts c /\ wellCut parts /\ content descriptor (concat parts).

(** Others leave the records of this transfer alone. *)
Hypothesis Hothers : forall c c', meddles c c' -> (forall i, c' name (ck i) = c name (ck i)) /\ (forall n, ours c' n -> ours c n).
Hypothesis Hquiet : forall w, same (contents w) (contents (ensureCurrent w).2).

Lemma vacant_meddles c c' : meddles c c' -> vacant c -> vacant c'.
Proof. intros [_ Ho]%Hothers Hv n Hn. by apply (Hv n), Ho. Qed.
Lemma staged_meddles parts c c' : meddles c c' -> staged parts c -> staged parts c'.
Proof. intros [Hc _]%Hothers Hs i part Hi. rewrite Hc. by apply Hs. Qed.
Lemma complete_meddles c c' n : meddles c c' -> complete c n -> complete c' n.
Proof. intros Hm (? & ? & ?). split; [done|]. eauto using staged_meddles. Qed.

(** Only the manifest with this count can be there, and only for complete chunks. *)
Definition settled (chunks : nat) (c : Contents) : Prop := forall n, ours c n -> n = chunks /\ complete c n.

Lemma settled_meddles chunks c c' : meddles c c' -> settled chunks c -> settled chunks c'.
Proof. intros Hm Hs n Hn. destruct (Hothers _ _ Hm) as [_ Ho]. destruct (Hs n) as [? ?]; [auto|]. eauto using complete_meddles. Qed.
Lemma vacant_settled chunks c : vacant c -> settled chunks c.
Proof. intros Hv n Hn. by destruct (Hv n). Qed.

Definition failed (s : W * Staging) : Prop := settled (g_chunks s.2) (contents s.1).

(** These parts have passed the check, the second ones are stored, and so many are counted. *)
Definition building (passed stored : list (list N)) (count : nat) (s : W * Staging) : Prop :=
  fed descriptor (concat passed) (g_verifier s.2) /\ Forall (fun part => 0 < length part)%nat passed /\
  (Z.of_nat (length (concat passed)) <= size)%Z /\ g_chunks s.2 = count /\ staged stored (contents s.1) /\ vacant (contents s.1).

Lemma building_failed passed stored count s : building passed stored count s -> failed s.
Proof. intros (_ & _ & _ & _ & _ & Hv). by apply vacant_settled. Qed.

Lemma building_meddles passed stored count w w' g :
  meddles (contents w) (contents w') -> building passed stored count (w, g) -> building passed stored count (w', g).
Proof. intros Hm (? & ? & ? & ? & ? & ?). split_and!; [done..|by eapply staged_meddles|by eapply vacant_meddles]. Qed.

Lemma guard_building passed stored count :
  triple (building passed stored count) (onFst ensureCurrent) (fun _ => building passed stored count) failed.
Proof.
  intros [w g] Hb. unfold onFst. pose proof (Hquiet w) as Hq. destruct (ensureCurrent w) as [[[]|e] w']; cbn in Hq;
    [|apply (building_failed passed stored count)]; (eapply building_meddles; [by apply meddles_same|done]).
Qed.

Lemma update_building passed stored count part :
  triple (building passed stored count) (onSnd (onVerifier (verifier_update part))) (fun _ => building (passed ++ [part]) stored count) failed.
Proof.
  intros [w g] (Hfed & Hpos & Hmax & Hg & Hs & Hv). unfold onSnd, onVerifier.
  destruct (verifier_update part (g_verifier g)) as [[[]|e] v] eqn:Hr; [|by apply vacant_settled].
  destruct (verifier_update_fed _ _ _ _ _ Hfed Hr) as (Hfed' & Hlen & Hmax'). unfold building. rewrite concat_app. cbn [concat]. rewrite app_nil_r.
  rewrite Hsize in Hmax'. split_and!; [done| |done..]. apply Forall_app. split; [done|by apply Forall_singleton].
Qed.

Lemma length_concat_ge (parts : list (list N)) : Forall (fun part => 0 < length part)%nat parts -> (length parts <= length (concat parts))%nat.
Proof. induction 1 as [|part parts Hp Hparts IH]; cbn; [lia|]. rewrite length_app. lia. Qed.

Lemma size_bounds : (1 <= size <= MAX_BLOB_BYTES)%Z.
Proof. apply validate_same in Hvalid as (_ & _ & size' & Hs & Hb). assert (size' = size) as -> by congruence. done. Qed.

Lemma count_safe (passed : list (list N)) i : Forall (fun part => 0 < length part)%nat passed -> (Z.of_nat (length (concat passed)) <= size)%Z ->
  (i <= length passed)%nat -> isSafeInteger (Z.of_nat i).
Proof.
  intros Hpos Hmax Hi. pose proof (length_concat_ge _ Hpos). pose proof size_bounds as Hs.
  apply Is_true_true, andb_true_iff. rewrite !Z.leb_le. unfold MAX_SAFE_INTEGER. assert (MAX_BLOB_BYTES < 9007199254740991)%Z by done. lia.
Qed.

Lemma writes_vacant key v c c' : key <> manifestKey blobId -> writes name key v c c' -> vacant c -> vacant c'.
Proof. intros Hk [_ Ho] Hv n Hn. apply (Hv n). destruct Hn as [Hn Htext]. split; [done|]. rewrite <-Htext, Ho; [done|]. congruence. Qed.

Lemma put_building passed part :
  triple (building (passed ++ [part]) passed (length passed)) (onFst (put name (ck (length passed)) (ByteRecord part)))
    (fun _ => building (passed ++ [part]) (passed ++ [part]) (length passed)) failed.
Proof.
  intros [w g] (Hfed & Hpos & Hmax & Hg & Hs & Hv). unfold onFst.
  destruct (put_atomic name (ck (length passed)) (ByteRecord part) w) as (c & c' & Hbefore & Hafter & Hcase).
  destruct (put name (ck (length passed)) (ByteRecord part) w) as [r w'] eqn:Hr. cbn [fst snd] in *.
  assert (vacant (contents w')) as Hv'.
  { eapply vacant_meddles; [exact Hafter|]. destruct Hcase as [Hw|[Hsame _]].
    - eapply writes_vacant; [apply chunkKey_manifestKey|exact Hw|by eapply vacant_meddles].
    - eapply vacant_meddles; [by apply meddles_same|by eapply vacant_meddles]. }
  destruct r as [[]|e]; [|by apply vacant_settled]. destruct Hcase as [[Hnew Hold]|[_ Hbad]]; [|done].
  split_and!; [done..| |done]. eapply staged_meddles; [exact Hafter|]. intros i p [Hi|[Hlen Hi]]%lookup_app_Some.
  - rewrite Hold; [by eapply staged_meddles|]. intros Heq. apply (f_equal snd) in Heq. cbn [snd] in Heq. apply lookup_lt_Some in Hi. apply chunkKey_inj in Heq; [lia|..];
      (apply (count_safe (passed ++ [part])); [done..|rewrite length_app; cbn; lia]).
  - apply list_lookup_singleton_Some in Hi as [Hi <-]. by replace i with (length passed) by lia.
Qed.

Lemma push_building passed stored count key :
  triple (building passed stored count) (onSnd (pushStaged key)) (fun _ => building passed stored count) failed.
Proof. by intros [w g] Hb. Qed.

Lemma count_building passed stored count :
  triple (building passed stored count) (onSnd countChunk) (fun _ => building passed stored (S count)) failed.
Proof. intros [w g] (? & ? & ? & Hg & ? & ?). split_and!; try done. cbn in *. by rewrite Hg. Qed.

Lemma triple_staging {A} (P : W * Staging -> Prop) (f : Staging -> M (W * Staging) A) Q E :
  (forall g, triple (fun s => P s /\ s.2 = g) (f g) Q E) -> triple P (onSnd getM ≫= f) Q E.
Proof. intros Hf [w g] Hs. by apply (Hf g). Qed.

#[local] Hint Resolve guard_building update_building put_building push_building count_building : triples.

Lemma stage_building passed parts :
  triple (building passed passed (length passed)) (stageParts name ensureCurrent manifest parts)
    (fun _ => building (passed ++ parts) (passed ++ parts) (length (passed ++ parts))) failed.
Proof.
  revert passed. induction parts as [|part parts IH]; intros passed; cbn [stageParts].
  { intros s Hs. by rewrite app_nil_r. }
  step_triple. step_triple. apply triple_staging. intros g. eapply (triple_pre _ (fun s => building (passed ++ [part]) passed (length passed) s /\ g_chunks g = length passed)).
  2: { intros s [Hb <-]. split; [done|apply Hb]. }
  apply triple_fact. intros ->. cbv zeta. do 4 step_triple.
  replace (passed ++ part :: parts) with ((passed ++ [part]) ++ parts) by by rewrite <-app_assoc.
  eapply triple_pre; [apply IH|]. intros s. by rewrite length_app, Nat.add_1_r.
Qed.

(** All parts are stored and counted, and they are the blob. *)
Definition verified (parts : list (list N)) (s : W * Staging) : Prop :=
  g_chunks s.2 = length parts /\ isSafeInteger (Z.of_nat (length parts)) /\ staged parts (contents s.1) /\ vacant (contents s.1) /\
  wellCut parts /\ content descriptor (concat parts).

Lemma verified_meddles parts w w' g : meddles (contents w) (contents w') -> verified parts (w, g) -> verified parts (w', g).
Proof. intros Hm (? & ? & ? & ? & ? & ?). split_and!; eauto using staged_meddles, vacant_meddles. Qed.

Lemma guard_verified parts : triple (verified parts) (onFst ensureCurrent) (fun _ => verified parts) failed.
Proof.
  intros [w g] Hb. unfold onFst. pose proof (Hquiet w) as Hq. destruct (ensureCurrent w) as [[[]|e] w']; cbn in Hq.
  - eapply verified_meddles; [by apply meddles_same|done].
  - apply vacant_settled. eapply vacant_meddles; [by apply meddles_same|apply Hb].
Qed.

Lemma finish_verified parts : wellCut parts ->
  triple (building parts parts (length parts)) (onSnd (onVerifier verifier_finish)) (fun _ => verified parts) failed.
Proof.
  intros Hcut [w g] (Hfed & Hpos & Hmax & Hg & Hs & Hv). unfold onSnd, onVerifier. cbn [fst snd] in *.
  pose proof (verifier_finish_content _ _ _ _ Hvalid Hfed) as Hf. destruct (verifier_finish (g_verifier g)) as [[[]|e] v]; cbn [fst] in Hf.
  - split; [done|]. split; [by apply (count_safe parts)|]. split; [done|]. split; [done|]. split; [done|]. by apply Hf.
  - by apply vacant_settled.
Qed.

(** At some moment since the manifest was there for the complete chunks. *)
Definition published (s : W * Staging) : Prop :=
  failed s /\ exists c, meddles c (contents s.1) /\ ours c (g_chunks s.2) /\ complete c (g_chunks s.2).

Lemma manifest_plain_of n : isSafeInteger (Z.of_nat n) -> plain (manifest_value (manifest n)).
Proof.
  intros Hn. pose proof Hvalid as (_ & (id & Hi & Hv) & _)%validate_same. assert (id = blobId) as -> by congruence.
  apply validId_units in Hv as [Hu _]. apply transferToken_units in Htoken as [Ht _]. apply manifest_plain; [done..| |done].
  pose proof size_bounds. cbn. apply Is_true_true, andb_true_iff. rewrite !Z.leb_le. unfold MAX_SAFE_INTEGER.
  assert (MAX_BLOB_BYTES < 9007199254740991)%Z by done. lia.
Qed.

Lemma swap_publishes parts c c' : parts = (chunkBlobSource source).1 -> isSafeInteger (Z.of_nat (length parts)) -> staged parts c -> wellCut parts -> content descriptor (concat parts) ->
  performsAll [PutOperation name (manifestKey blobId) (TextRecord (manifestText (manifest (length parts))))] c c' ->
  ours c' (length parts) /\ complete c' (length parts) /\ settled (length parts) c'.
Proof.
  intros Hparts Hn Hs Hcut Hcontent (c1 & [Hnew Hold] & Hsame).
  assert (complete c' (length parts)) as Hcomplete.
  { unfold complete. rewrite <-Hparts. split_and!; [done| |done|done]. intros i part Hi. rewrite Hsame, Hold; [by apply Hs|].
    intros Heq. apply (f_equal snd) in Heq. by apply chunkKey_manifestKey in Heq. }
  split; [split; [done|by rewrite Hsame]|]. split; [done|]. intros n [Hsafe Hours]. rewrite Hsame, Hnew in Hours.
  assert (n = length parts) as ->; [|done]. apply (inj Some), (inj TextRecord) in Hours.
  by apply manifestText_inj in Hours; [|by apply manifest_plain_of..].
Qed.

Lemma swap_published parts previous : parts = (chunkBlobSource source).1 ->
  triple (verified parts) (onFst (compareAndSwap [mkCondition name (manifestKey blobId) previous]
      [PutOperation name (manifestKey blobId) (TextRecord (manifestText (manifest (length parts))))] ensureCurrent))
    (fun swapped s => if (swapped : bool) then published s else failed s) failed.
Proof.
  intros Hparts [w g] (Hg & Hn & Hs & Hv & Hcut & Hcontent). unfold onFst. cbn [fst snd] in *.
  destruct (swap_atomic [mkCondition name (manifestKey blobId) previous]
    [PutOperation name (manifestKey blobId) (TextRecord (manifestText (manifest (length parts))))] ensureCurrent w Hquiet)
    as (c & c' & Hbefore & Hafter & Hcase).
  destruct (compareAndSwap _ _ _ w) as [r w']. cbn [fst snd] in *.
  assert (same c c' -> failed (w', g)) as Hkept.
  { intros Hsame. apply vacant_settled. eapply vacant_meddles; [exact Hafter|]. eapply vacant_meddles; [by apply meddles_same|]. by eapply vacant_meddles. }
  destruct Hcase as [(_ & Hp & Hr)|[Hsame Hr]]; [|destruct r as [[]|]; [done|by apply Hkept..]].
  destruct (swap_publishes parts c c' Hparts Hn) as (Ho & Hc & Hset); [by eapply staged_meddles|done..|].
  assert (failed (w', g)) as Hf by (unfold failed; cbn; rewrite Hg; by eapply settled_meddles).
  destruct r as [[]|]; [|done|done]. split; [done|]. exists c'. cbn. rewrite Hg. done.
Qed.

Lemma published_meddles w w' g : meddles (contents w) (contents w') -> published (w, g) -> published (w', g).
Proof.
  intros Hm [Hf (c & Hc & Ho)]. split; [by eapply settled_meddles|]. exists c. split; [by eapply meddles_trans|done].
Qed.

Lemma publish_published previous :
  triple (building [] [] 0) (publish name ensureCurrent manifest previous source) (fun _ => published) failed.
Proof.
  unfold publish. destruct (chunkBlobSource source) as [parts ending] eqn:Hsource.
  eapply triple_bind; [apply (stage_building [] parts)|intros ?]. cbn [app].
  eapply (triple_bind _ _ _ (fun _ s => building parts parts (length parts) s /\ wellCut parts)).
  { intros s Hb. unfold liftM. destruct ending as [[]|e]; [|by eapply building_failed]. split; [done|].
    unfold chunkBlobSource in Hsource. set (C := Z.to_nat BLOB_CHUNK_BYTES). assert (Z.of_nat C = BLOB_CHUNK_BYTES) as HC by (unfold C; by rewrite Z2Nat.id).
    clearbody C. apply (cut_wellCut C HC). eapply (chunkLoop_cut C HC); [|exact Hsource]. by apply chunk_positive. }
  intros ?. apply triple_fact. intros Hcut. eapply triple_bind; [by apply finish_verified|intros ?].
  eapply triple_bind; [apply guard_verified|intros ?]. apply triple_staging. intros g.
  eapply (triple_pre _ (fun s => verified parts s /\ g_chunks g = length parts)); [|intros s [Hb <-]; split; [done|apply Hb]].
  apply triple_fact. intros ->. cbv zeta. eapply triple_bind; [apply swap_published; by rewrite Hsource|intros swapped].
  eapply (triple_bind _ _ _ (fun _ => published)).
  { intros s Hs. unfold requireM. by destruct swapped. }
  intros ? [w g'] Hp. unfold onFst. pose proof (Hquiet w) as Hq. destruct (ensureCurrent w) as [[[]|e] w']; cbn in Hq;
    (eapply published_meddles in Hp; [|by apply meddles_same]); [done|apply Hp].
Qed.

(** Only chunk keys are staged. *)
Definition chunkKeys (s : W * Staging) : Prop := Forall (fun key => exists i, key = ck i) (g_staged s.2).

Lemma chunkKeys_fst {A} (m : M W A) : triple chunkKeys (onFst m) (fun _ => chunkKeys) chunkKeys.
Proof. intros [w g] Hg. unfold onFst. by destruct (m w) as [[?|?] ?]. Qed.
Lemma chunkKeys_verifier m : triple chunkKeys (onSnd (onVerifier m)) (fun _ => chunkKeys) chunkKeys.
Proof. intros [w g] Hg. unfold onSnd, onVerifier. by destruct (m (g_verifier g)) as [[?|?] ?]. Qed.
Lemma chunkKeys_lift {A} (r : result A) : triple chunkKeys (liftM r) (fun _ => chunkKeys) chunkKeys.
Proof. intros s Hs. by destruct r. Qed.

#[local] Hint Resolve chunkKeys_fst chunkKeys_verifier chunkKeys_lift : triples.

Lemma stage_keys parts : triple chunkKeys (stageParts name ensureCurrent manifest parts) (fun _ => chunkKeys) chunkKeys.
Proof.
  induction parts as [|part parts IH]; cbn [stageParts]; [by intros s|].
  do 2 step_triple. apply triple_staging. intros g. eapply triple_pre; [|by intros s [Hs _]].
  eapply (triple_bind _ _ _ (fun _ => chunkKeys)).
  { intros [w g'] Hs. apply Forall_app. split; [exact Hs|]. apply Forall_singleton. by eexists. }
  intros ?. do 2 step_triple. eapply (triple_bind _ _ _ (fun _ => chunkKeys)); [by intros [w g'] Hs|intros ?; exact IH].
Qed.

Lemma publish_keys previous : triple chunkKeys (publish name ensureCurrent manifest previous source) (fun _ => chunkKeys) chunkKeys.
Proof.
  unfold publish. destruct (chunkBlobSource source) as [parts ending].
  eapply triple_bind; [apply stage_keys|intros ?]. do 3 step_triple. apply triple_staging. intros g. eapply triple_pre; [|by intros s [Hs _]]. cbv zeta.
  step_triple. eapply triple_bind; [|intros ?; apply chunkKeys_fst]. intros s Hs. match goal with swapped : bool |- _ => by destruct swapped end.
Qed.

Lemma delete_vacant keys : Forall (fun key => exists i, key = ck i) keys ->
  triple (fun w => vacant (contents w)) (deleteAll name keys) (fun _ w => vacant (contents w)) (fun w => vacant (contents w)).
Proof.
  induction 1 as [|key keys [i ->] Hkeys IH]; cbn [deleteAll]; [by intros w|].
  eapply (triple_bind _ _ _ (fun _ w => vacant (contents w))); [|by intros _].
  intros w Hv. destruct (delete_atomic name (ck i) w) as (c & c' & Hbefore & Hafter & Hcase).
  enough (vacant (contents (delete name (ck i) w).2)) by by destruct (delete name (ck i) w) as [[]].
  eapply vacant_meddles; [exact Hafter|]. destruct Hcase as [Hw|[Hsame _]].
  - eapply writes_vacant; [apply chunkKey_manifestKey|exact Hw|by eapply vacant_meddles].
  - eapply vacant_meddles; [by apply meddles_same|by eapply vacant_meddles].
Qed.

(** The clean-up removes chunks only when their manifest is not there. *)
Lemma discard_settled g w : failed (w, g) -> chunkKeys (w, g) ->
  settled (g_chunks g) (contents (discardUnpublished name manifest g w).2).
Proof.
  intros Hf Hkeys. unfold chunkKeys in Hkeys. unfold discardUnpublished. cbn [fst snd] in *. unfold mbind, M_bind.
  destruct (get_atomic name (manifestKey (m_blobId (manifest 0))) w) as (c & Hbefore & Hafter & Hfound).
  destruct (get name (manifestKey (m_blobId (manifest 0))) w) as [r w1]. cbn [fst snd m_blobId] in *.
  assert (settled (g_chunks g) c) as Hc by by eapply settled_meddles.
  assert (settled (g_chunks g) (contents w1)) as H1 by by eapply settled_meddles.
  destruct r as [found|e]; [|done]. specialize (Hfound found eq_refl). subst found.
  assert (c name (manifestKey blobId) <> Some (TextRecord (manifestText (manifest (g_chunks g)))) ->
    settled (g_chunks g) (contents (deleteAll name (g_staged g) w1).2)) as Hdelete.
  { intros Hnot. apply vacant_settled. assert (vacant c) as Hv by (intros n Hn; destruct (Hc n Hn) as [-> _]; by apply Hnot, Hn).
    pose proof (delete_vacant _ Hkeys w1 (vacant_meddles _ _ Hafter Hv)) as Hd. by destruct (deleteAll name (g_staged g) w1) as [[] ?]. }
  destruct (c name (manifestKey blobId)) as [[text|bytes|data]|]; [|by apply Hdelete..].
  case_bool_decide as Htext; [done|]. apply Hdelete. congruence.
Qed.

Lemma putParts_settled previous verifier w : fed descriptor [] verifier -> vacant (contents w) ->
  let '(r, w') := putParts name ensureCurrent manifest previous source verifier w in
  (forall n, ours (contents w') n -> complete (contents w') n) /\
  (r = Ok tt -> exists c n, meddles c (contents w') /\ ours c n /\ complete c n).
Proof.
  intros Hfed Hv. unfold putParts. set (s := (w, mkStaging verifier 0 [])).
  assert (building [] [] 0 s) as Hb by (split_and!; try done; pose proof size_bounds; cbn; lia).
  pose proof (publish_published previous s Hb) as Hp. pose proof (publish_keys previous s (Forall_nil_2 _)) as Hk.
  destruct (publish name ensureCurrent manifest previous source s) as [[[]|cause] [w' g]].
  - destruct Hp as [Hf (c & Hm & Ho & Hc)]. split; [intros n Hn; by apply Hf|]. intros _. by exists c, (g_chunks g).
  - pose proof (discard_settled g w' Hp Hk) as Hd. unfold mbind, M_bind, throwM.
    destruct (discardUnpublished name manifest g w') as [r w2] eqn:Hr. unfold discardUnpublished in Hr. injection Hr as <- <-.
    cbn in Hd. cbn. split; [|done]. intros n Hn. by apply Hd.
Qed.

(** ** Other records are left alone *)
Section Frame.
Variables (store key : list N) (v : option Stored).
Hypothesis Hmanifest : (store, key) <> (name, manifestKey blobId).
Hypothesis Hchunks : forall i, (store, key) <> (name, ck i).
Hypothesis Hspared : forall c c', meddles c c' -> c' store key = c store key.

Definition untouched (w : W) : Prop := contents w store key = v.

Lemma untouched_meddles c w' : meddles c (contents w') -> c store key = v -> untouched w'.
Proof. intros Hm%Hspared. unfold untouched. congruence. Qed.

Lemma untouched_guard : triple untouched ensureCurrent (fun _ => untouched) untouched.
Proof.
  intros w Hw. pose proof (Hquiet w) as Hq. enough (untouched (ensureCurrent w).2) by by destruct (ensureCurrent w) as [[] ?].
  eapply untouched_meddles; [by apply meddles_same|exact Hw].
Qed.
Lemma untouched_get k : triple untouched (get name k) (fun _ => untouched) untouched.
Proof.
  intros w Hw. destruct (get_atomic name k w) as (c & Hb & Ha & _). enough (untouched (get name k w).2) by by destruct (get name k w) as [[] ?].
  eapply untouched_meddles; [exact Ha|]. rewrite (Hspared _ _ Hb). exact Hw.
Qed.
Lemma untouched_put i part : triple untouched (put name (ck i) part) (fun _ => untouched) untouched.
Proof.
  intros w Hw. destruct (put_atomic name (ck i) part w) as (c & c' & Hb & Ha & Hcase).
  enough (untouched (put name (ck i) part w).2) by by destruct (put name (ck i) part w) as [[] ?].
  eapply untouched_meddles; [exact Ha|]. destruct Hcase as [[_ Hold]|[Hs _]]; [rewrite Hold by apply Hchunks|rewrite Hs]; by rewrite (Hspared _ _ Hb).
Qed.
Lemma untouched_delete i : triple untouched (delete name (ck i)) (fun _ => untouched) untouched.
Proof.
  intros w Hw. destruct (delete_atomic name (ck i) w) as (c & c' & Hb & Ha & Hcase).
  enough (untouched (delete name (ck i) w).2) by by destruct (delete name (ck i) w) as [[] ?].
  eapply untouched_meddles; [exact Ha|]. destruct Hcase as [[_ Hold]|[Hs _]]; [rewrite Hold by apply Hchunks|rewrite Hs]; by rewrite (Hspared _ _ Hb).
Qed.
Lemma untouched_swap conditions text :
  triple untouched (compareAndSwap conditions [PutOperation name (manifestKey blobId) text] ensureCurrent) (fun _ => untouched) untouched.
Proof.
  intros w Hw. destruct (swap_atomic conditions [PutOperation name (manifestKey blobId) text] ensureCurrent w Hquiet) as (c & c' & Hb & Ha & Hcase).
  enough (untouched (compareAndSwap conditions [PutOperation name (manifestKey blobId) text] ensureCurrent w).2) by by destruct (compareAndSwap _ _ _ w) as [[] ?].
  eapply untouched_meddles; [exact Ha|].
  destruct Hcase as [(_ & (c1 & [_ Hold] & Hs) & _)|[Hs _]]; rewrite Hs, ?Hold by exact Hmanifest; by rewrite (Hspared _ _ Hb).
Qed.

Lemma untouched_fst {A} (m : M W A) : triple untouched m (fun _ => untouched) untouched ->
  triple (fun s : W * Staging => untouched s.1) (onFst m) (fun _ s => untouched s.1) (fun s => untouched s.1).
Proof. intros Hm [w g] Hw. unfold onFst. specialize (Hm w Hw). by destruct (m w) as [[] ?]. Qed.
Lemma untouched_snd {A} (m : M Staging A) :
  triple (fun s : W * Staging => untouched s.1) (onSnd m) (fun _ s => untouched s.1) (fun s => untouched s.1).
Proof. intros [w g] Hw. unfold onSnd. by destruct (m g) as [[] ?]. Qed.

#[local] Hint Resolve untouched_guard untouched_get untouched_put untouched_delete untouched_swap untouched_fst untouched_snd : triples.

Lemma untouched_publish previous : triple (fun s => untouched s.1) (publish name ensureCurrent manifest previous source)
  (fun _ s => untouched s.1) (fun s => untouched s.1).
Proof.
  unfold publish. destruct (chunkBlobSource source) as [parts ending]. eapply (triple_bind _ _ _ (fun _ s => untouched s.1)).
  { induction parts as [|part parts IH]; cbn [stageParts]; [by intros s|].
    do 6 step_triple. eapply triple_bind; [apply untouched_snd|intros ?; exact IH]. }
  intros ?. eapply (triple_bind _ _ _ (fun _ s => untouched s.1)); [by intros s Hs; destruct ending|intros ?]. do 4 step_triple.
  eapply (triple_bind _ _ _ (fun _ s => untouched s.1)); [intros s Hs; match goal with swapped : bool |- _ => by destruct swapped end|intros ?]. apply untouched_fst, untouched_guard.
Qed.

Lemma untouched_discard g w : chunkKeys (w, g) -> untouched w -> untouched (discardUnpublished name manifest g w).2.
Proof.
  intros Hkeys Hw. unfold chunkKeys in Hkeys. cbn [snd] in Hkeys.
  assert (triple untouched (deleteAll name (g_staged g)) (fun _ => untouched) untouched) as Hd.
  { clear Hw. induction Hkeys as [|k keys [i ->] Hkeys IH]; cbn [deleteAll]; [by intros w'|].
    eapply triple_bind; [apply untouched_delete|intros ?; exact IH]. }
  unfold discardUnpublished. cbn [snd].
  match goal with |- untouched (?m w).2 => assert (triple untouched m (fun _ => untouched) untouched) as Hm end.
  { eapply triple_bind; [apply untouched_get|intros [[text|bytes|data]|]]; try exact Hd. case_bool_decide; [by intros ?|exact Hd]. }
  specialize (Hm w Hw). match goal with |- untouched (?m w).2 => by destruct (m w) as [[] ?] end.
Qed.

Lemma untouched_putParts previous verifier :
  triple untouched (putParts name ensureCurrent manifest previous source verifier) (fun _ => untouched) untouched.
Proof.
  intros w Hw. unfold putParts. set (s := (w, mkStaging verifier 0 [])).
  pose proof (untouched_publish previous s Hw) as Hp. pose proof (publish_keys previous s (Forall_nil_2 _)) as Hk.
  destruct (publish name ensureCurrent manifest previous source s) as [[[]|cause] [w' g]]; [done|].
  pose proof (untouched_discard g w' Hk Hp) as Hd. unfold mbind, M_bind, throwM.
  by destruct (discardUnpublished name manifest g w') as [[?|?] ?].
Qed.
End Frame.
End Publish.

(** ** Writing to a store that works *)

(** A store whose operations return and that nobody else writes to. *)
Class CalmStore (W : Type) `{!AtomicStore W} := {
  calm_meddles c c' : meddles c c' -> same c c';
  calm_get store key w : exists w', get store key w = (Ok (contents w store key), w');
  calm_put store key v w : exists w', put store key v w = (Ok tt, w');
  calm_swap conditions operations w : NoDup (map conditionPlace conditions) -> Forall (MeshStore.holds (contents w)) conditions ->
    exists w', compareAndSwap conditions operations (mret tt) w = (Ok true, w') }.

#[export] Instance memoryCalm : CalmStore Stores.
Proof.
  split.
  - done.
  - intros store key w. by eexists.
  - intros store key v w. by eexists.
  - intros conditions operations w Hn Hc. cbn. unfold memory_compareAndSwap, transactionInput, liftM, mbind, M_bind.
    rewrite bool_decide_eq_true_2 by done. cbn. apply conditions_hold in Hc. rewrite Hc. by eexists.
Qed.

Section Calm.
Context `{Sha256} `{Blake3} {W : Type} `{!AtomicStore W} `{!CalmStore W}.
Variables (name blobId transferId : list N) (descriptor : value) (size : Z).
Hypothesis Hvalid : validateBlobDescriptor descriptor = Ok descriptor.
Hypothesis Hid : descriptor.["blobId"] = Str blobId.
Hypothesis Hsize : descriptor.["size"] = Num (Int size).

Abbreviation manifest := (mkManifest blobId size transferId).

Lemma calm_get_same store key w : exists w', get store key w = (Ok (contents w store key), w') /\ same (contents w) (contents w').
Proof.
  destruct (calm_get store key w) as [w' Hg]. exists w'. split; [done|]. destruct (get_atomic store key w) as (c & Hb%calm_meddles & Ha%calm_meddles & _).
  rewrite Hg in Ha. intros s k. by rewrite Ha, Hb.
Qed.

Lemma calm_put_writes store key v w : exists w', put store key v w = (Ok tt, w') /\ writes store key (Some v) (contents w) (contents w').
Proof.
  destruct (calm_put store key v w) as [w' Hp]. exists w'. split; [done|].
  destruct (put_atomic store key v w) as (c & c' & Hb%calm_meddles & Ha%calm_meddles & Hcase). rewrite Hp in Ha, Hcase. cbn in *.
  destruct Hcase as [[Hnew Hold]|[_ Hbad]]; [|done]. split; [by rewrite Ha|]. intros s k Hne. by rewrite Ha, Hold, Hb.
Qed.

Lemma fst_then {A B} (m : M W A) (f : A -> M (W * Staging) B) w w' g a : m w = (Ok a, w') -> (onFst m ≫= f) (w, g) = f a (w', g).
Proof. intros Hm. unfold mbind, M_bind, onFst. by rewrite Hm. Qed.
Lemma snd_then {A B} (m : M Staging A) (f : A -> M (W * Staging) B) w g g' a : m g = (Ok a, g') -> (onSnd m ≫= f) (w, g) = f a (w, g').
Proof. intros Hm. unfold mbind, M_bind, onSnd. by rewrite Hm. Qed.
Lemma verifier_then (m : M Verifier unit) g v : m (g_verifier g) = (Ok tt, v) -> onVerifier m g = (Ok tt, mkStaging v (g_chunks g) (g_staged g)).
Proof. intros Hm. unfold onVerifier. by rewrite Hm. Qed.

Lemma stage_returns parts passed (s : W * Staging) :
  fed descriptor (concat passed) (g_verifier s.2) -> (Z.of_nat (length (concat (passed ++ parts))) <= size <= MAX_BLOB_BYTES)%Z ->
  Forall (fun part => (0 < length part)%nat /\ (Z.of_nat (length part) <= BLOB_CHUNK_BYTES)%Z) parts ->
  exists s', stageParts name (mret tt) manifest parts s = (Ok tt, s') /\ fed descriptor (concat (passed ++ parts)) (g_verifier s'.2) /\
    contents s'.1 name (manifestKey blobId) = contents s.1 name (manifestKey blobId).
Proof.
  intros Hfed Hmax Hparts. revert passed s Hfed Hmax. induction Hparts as [|part parts [Hpos Hchunk] Hparts IH]; intros passed [w g] Hfed Hmax.
  { exists (w, g). rewrite app_nil_r. done. }
  cbn [stageParts]. cbn [fst snd] in *.
  assert (Z.of_nat (length (concat passed ++ part)) <= size)%Z as Hle.
  { rewrite concat_app in Hmax. cbn [concat] in Hmax. rewrite !length_app in Hmax. rewrite length_app. lia. }
  pose proof (verifier_update_ok descriptor (concat passed) part (g_verifier g) Hfed Hpos Hchunk) as Hu.
  rewrite Hsize in Hu. specialize (Hu ltac:(split; [exact Hle|apply Hmax])).
  destruct (calm_put_writes name (chunkKey (manifest (g_chunks g)) (g_chunks g)) (ByteRecord part) w) as (w' & Hp & Hw).
  rewrite (fst_then _ _ w w g tt) by done. rewrite (snd_then _ _ w _ _ tt (verifier_then _ _ _ Hu)).
  rewrite (snd_then getM _ w _ _ _ eq_refl). cbv zeta. rewrite (snd_then (pushStaged _) _ w _ _ tt eq_refl). cbn [g_chunks g_verifier g_staged].
  rewrite (fst_then _ _ _ _ _ _ Hp), (fst_then _ _ w' w' _ tt) by done. rewrite (snd_then countChunk _ w' _ _ tt eq_refl).
  cbn [g_chunks g_verifier g_staged].
  destruct (IH (passed ++ [part]) (w', mkStaging (mkVerifier descriptor (concat passed ++ part) (Z.of_nat (length (concat passed ++ part))) false)
    (S (g_chunks g)) (g_staged g ++ [chunkKey (manifest (g_chunks g)) (g_chunks g)]))) as (s' & Hs & Hf & Hkey).
  - cbn. unfold fed. rewrite concat_app. cbn [concat]. by rewrite app_nil_r.
  - by rewrite <-app_assoc.
  - exists s'. rewrite <-app_assoc in Hf. split; [exact Hs|]. split; [exact Hf|]. rewrite Hkey. cbn [fst]. apply Hw.
    intros Heq. apply (f_equal snd) in Heq. cbn [snd] in Heq. symmetry in Heq. by apply chunkKey_manifestKey in Heq.
Qed.

Lemma finish_ok bytes v : fed descriptor bytes v -> content descriptor bytes -> exists v', verifier_finish v = (Ok tt, v').
Proof.
  intros Hfed Hc. pose proof (verifier_finish_content _ _ _ _ Hvalid Hfed) as Hf. apply Hf in Hc.
  destruct (verifier_finish v) as [r v']. exists v'. cbn in Hc. by rewrite Hc.
Qed.

Lemma publish_returns previous source parts w verifier :
  chunkBlobSource source = (parts, Ok tt) -> Forall (fun part => (0 < length part)%nat /\ (Z.of_nat (length part) <= BLOB_CHUNK_BYTES)%Z) parts ->
  (size <= MAX_BLOB_BYTES)%Z -> content descriptor (concat parts) -> fed descriptor [] verifier ->
  contents w name (manifestKey blobId) = TextRecord <$> previous ->
  exists s', publish name (mret tt) manifest previous source (w, mkStaging verifier 0 []) = (Ok tt, s').
Proof.
  intros Hsource Hparts Hmax Hcontent Hfed Hkey. unfold publish. rewrite Hsource.
  assert (Z.of_nat (length (concat parts)) = size) as Hlen by (destruct Hcontent as [Hs _]; congruence).
  destruct (stage_returns parts [] (w, mkStaging verifier 0 [])) as ([w1 g1] & Hstage & Hfed1 & Hkey1); [done|cbn [app]; lia|done|].
  cbn [app fst snd] in *. destruct (finish_ok _ _ Hfed1 Hcontent) as [v' Hfinish].
  destruct (calm_swap [mkCondition name (manifestKey blobId) previous]
    [PutOperation name (manifestKey blobId) (TextRecord (manifestText (manifest (g_chunks g1))))] w1) as [w2 Hswap].
  { apply NoDup_singleton. }
  { apply Forall_singleton. unfold MeshStore.holds. cbn [c_store c_key c_expected]. by rewrite Hkey1. }
  exists (w2, mkStaging v' (g_chunks g1) (g_staged g1)).
  rewrite (bind_then _ _ _ _ _ Hstage). rewrite (bind_then (liftM (Ok tt)) _ _ _ _ eq_refl).
  rewrite (snd_then _ _ w1 _ _ tt (verifier_then _ _ _ Hfinish)), (fst_then _ _ w1 w1 _ tt) by done.
  rewrite (snd_then getM _ w1 _ _ _ eq_refl). cbv zeta. cbn [g_chunks g_staged m_blobId].
  rewrite (fst_then _ _ _ _ _ _ Hswap). reflexivity.
Qed.

Lemma put_returns source parts w :
  chunkBlobSource source = (parts, Ok tt) -> Forall (fun part => (0 < length part)%nat /\ (Z.of_nat (length part) <= BLOB_CHUNK_BYTES)%Z) parts ->
  content descriptor (concat parts) ->
  match contents w name (manifestKey blobId) with Some v => isOk (readManifest v blobId) | None => true end = true ->
  exists w', putBlobStream name descriptor source (mret tt) transferId w = (Ok tt, w').
Proof.
  intros Hsource Hparts Hcontent Hprevious. unfold putBlobStream. destruct (createVerifier_fed _ _ Hvalid) as (v & Hv & Hfed).
  pose proof (validate_same _ _ Hvalid) as (_ & _ & size' & Hs & _ & Hmax). assert (size' = size) as -> by congruence.
  rewrite (bind_then (liftM (validateBlobDescriptor descriptor)) _ w w descriptor) by (unfold liftM; by rewrite Hvalid).
  rewrite (bind_then (liftM (createBlobStreamVerifier descriptor)) _ w w v) by (unfold liftM; by rewrite Hv).
  cbv zeta. rewrite Hid, Hsize. cbn [textOf intOf]. rewrite (bind_then (mret tt) _ w w tt) by done.
  destruct (calm_get_same name (manifestKey blobId) w) as (w1 & Hget & Hsame). rewrite (bind_then _ _ _ _ _ Hget).
  rewrite (bind_then _ _ w1 w1 tt).
  2: { destruct (contents w name (manifestKey blobId)) as [stored|]; [|done]. unfold liftM, mbind, M_bind. by destruct (readManifest stored blobId). }
  destruct (publish_returns (match contents w name (manifestKey blobId) with Some (TextRecord text) => Some text | _ => None end) source parts w1 v)
    as [[w2 g] Hpublish]; [done..| |].
  - rewrite Hsame. destruct (contents w name (manifestKey blobId)) as [[text|bytes|data]|]; done.
  - exists w2. unfold putParts. by rewrite Hpublish.
Qed.
End Calm.

(** ** Reading what was written *)
Section ReadBack.
Context `{Sha256} `{Blake3} {W : Type} `{!AtomicStore W} `{!CalmStore W}.
Variables (name blobId transferId : list N) (descriptor : value) (size : Z).
Hypothesis Hvalid : validateBlobDescriptor descriptor = Ok descriptor.
Hypothesis Hid : descriptor.["blobId"] = Str blobId.
Hypothesis Hsize : descriptor.["size"] = Num (Int size).
Hypothesis Htoken : transferToken transferId = true.

Abbreviation manifest := (mkManifest blobId size transferId).

Lemma length_concat_le (parts : list (list N)) (bound : Z) : Forall (fun part => Z.of_nat (length part) <= bound)%Z parts ->
  (Z.of_nat (length (concat parts)) <= Z.of_nat (length parts) * bound)%Z.
Proof. induction 1 as [|part parts Hp Hparts IH]; cbn; [lia|]. rewrite length_app. lia. Qed.

Lemma wellCut_sizes parts : wellCut parts -> Forall (fun part => (0 < length part)%nat /\ (Z.of_nat (length part) <= BLOB_CHUNK_BYTES)%Z) parts.
Proof. intros Hcut. apply Forall_lookup. intros i part Hi. destruct (Hcut i part Hi). split; [done|]. lia. Qed.

Lemma wellCut_count parts : wellCut parts -> parts <> [] -> length parts = chunkCount (Z.of_nat (length (concat parts))).
Proof.
  intros Hcut Hne. unfold chunkCount. assert (0 < BLOB_CHUNK_BYTES)%Z as Hpos by done.
  assert (Z.of_nat (length (concat parts)) <= Z.of_nat (length parts) * BLOB_CHUNK_BYTES)%Z as Hupper.
  { apply length_concat_le. eapply Forall_impl; [by apply wellCut_sizes|]. by intros part [_ ?]. }
  destruct (last parts) as [part|] eqn:Hlast; [|by apply last_None in Hlast]. rewrite last_lookup in Hlast.
  destruct (Hcut _ _ Hlast) as [Hp Hmin]. assert (0 < length parts)%nat by (destruct parts; [done|cbn; lia]).
  apply Nat2Z.inj. rewrite Z2Nat.id by (apply Z.div_pos; lia). apply Z.div_unique with
    (r := (Z.of_nat (length (concat parts)) + BLOB_CHUNK_BYTES - 1 - BLOB_CHUNK_BYTES * Z.of_nat (length parts))%Z); nia.
Qed.

Lemma quote_length_unescaped s : unescaped s = true -> length (quote s) = (length s + 2)%nat.
Proof. intros Hs. rewrite quote_unescaped by done. cbn. rewrite length_app. cbn. lia. Qed.

Lemma base64url_unescaped s : forallb base64urlUnit s = true -> unescaped s = true.
Proof.
  intros Hs. apply forallb_forall. intros u Hu. rewrite forallb_forall in Hs. specialize (Hs u Hu).
  unfold base64urlUnit, ProfileValue.between in Hs. unfold printable.
  rewrite !orb_true_iff, !andb_true_iff, !N.leb_le, !N.eqb_eq in Hs. rewrite !andb_true_iff, !negb_true_iff, N.leb_le, N.ltb_lt, !N.eqb_neq. lia.
Qed.

Lemma blobId_unescaped : unescaped blobId = true.
Proof.
  pose proof Hvalid as (_ & (id & Hi & Hv) & _)%validate_same. assert (id = blobId) as -> by congruence.
  assert (unescaped (drop 7 blobId) = true) as Hd.
  { apply base64url_unescaped. unfold isValidBlobId in Hv. apply orb_true_iff in Hv as [Hv|Hv]; apply andb_true_iff in Hv as [_ Hv]; [done|].
    apply forallb_forall. intros u Hu. rewrite forallb_forall in Hv. by apply hex_base64url, Hv. }
  apply blobId_kinds in Hv as [[Heq _]|[Heq _]]; rewrite Heq; unfold unescaped; rewrite forallb_app; by apply andb_true_iff.
Qed.

(** A text with [~] for the double quote. *)
Definition dq (s : string) : list N := map (fun u => if (u =? 126)%N then 34%N else u) (js s).

Lemma manifestText_short n : isSafeInteger (Z.of_nat n) -> (length (manifestText (manifest n)) <= 1024)%nat.
Proof.
  intros Hn. pose proof (size_bounds descriptor size Hvalid Hsize) as Hb.
  assert (isSafeInteger size) as Hs.
  { apply Is_true_true, andb_true_iff. rewrite !Z.leb_le. unfold MAX_SAFE_INTEGER. assert (MAX_BLOB_BYTES < 9007199254740991)%Z by done. lia. }
  pose proof (intText_length _ Hn). pose proof (intText_length _ Hs).
  pose proof Hvalid as (_ & (id & Hi & Hv) & _)%validate_same. assert (id = blobId) as -> by congruence. apply validId_units in Hv as [_ Hv].
  pose proof (transferToken_units _ Htoken) as [_ Ht].
  assert (unescaped transferId = true) as Hu. { apply base64url_unescaped. unfold transferToken in Htoken. by apply andb_true_iff in Htoken as [_ Hu]. }
  pose proof (quote_length_unescaped _ blobId_unescaped) as Hq1. pose proof (quote_length_unescaped _ Hu) as Hq2.
  unfold manifestText, manifest_value. cbn [m_blobId m_size m_transferId m_chunks].
  assert (JSON_stringify (Obj [(js "kind", Str (js "mesh-blob-stream")); (js "version", Num (Int 1)); (js "blobId", Str blobId);
       (js "size", Num (Int size)); (js "transferId", Str transferId); (js "chunks", Num (Int (Z.of_nat n)))]) =
    Some ([123%N] ++ (dq "~kind~:~mesh-blob-stream~,~version~:1,~blobId~:" ++ quote blobId ++ dq ",~size~:" ++ intText size ++
      dq ",~transferId~:" ++ quote transferId ++ dq ",~chunks~:" ++ intText (Z.of_nat n)) ++ [125%N])) as -> by reflexivity.
  cbn [default from_option id]. rewrite !length_app.
  assert (forall s, length (dq s) = String.length s) as Hdq by (intros s; unfold dq, js; rewrite !length_map; by induction s; cbn; f_equal).
  rewrite !Hdq. cbn [length String.length]. lia.
Qed.

Lemma readManifest_text n : n = chunkCount size -> isSafeInteger (Z.of_nat n) ->
  readManifest (TextRecord (manifestText (manifest n))) blobId = Ok (manifest n).
Proof.
  intros Hn Hsafe. pose proof (manifestText_short n Hsafe) as Hshort.
  pose proof (manifest_plain_of blobId transferId descriptor size Hvalid Hid Hsize Htoken n Hsafe) as (text & Ht & Hp)%stringify_plain.
  unfold manifestText in *. rewrite Ht in *. cbn [default from_option id] in *. unfold readManifest.
  assert ((1024 <? length text)%nat = false) as -> by (apply Nat.ltb_ge; lia). rewrite Hp. unfold manifest_value. cbv zeta.
  cbn [m_blobId m_size m_transferId m_chunks]. pose proof (size_bounds descriptor size Hvalid Hsize) as Hb.
  match goal with |- context [safeInt ?v] => assert (safeInt v = Some size) as -> end.
  { change (safeInt (Num (Int size)) = Some size). cbn. assert (isSafeInteger size = true) as ->; [|done].
    apply andb_true_iff. rewrite !Z.leb_le. unfold MAX_SAFE_INTEGER. assert (MAX_BLOB_BYTES < 9007199254740991)%Z by done. lia. }
  match goal with |- context [getOpt (js "transferId") ?o] => change (getOpt (js "transferId") o) with (Str transferId) end. cbv beta iota.
  match goal with |- (if ?b then _ else _) = _ => assert (b = false) as ->; [|by subst n] end.
  repeat (apply orb_false_iff; split).
  - reflexivity.
  - reflexivity.
  - reflexivity.
  - change (negb (isStr blobId (Str blobId)) = false). unfold isStr. by rewrite bool_decide_eq_true_2.
  - apply Z.ltb_ge. lia.
  - apply Z.ltb_ge. lia.
  - change (negb (isInt (Z.of_nat (chunkCount size)) (Num (Int (Z.of_nat n)))) = false). rewrite <-Hn. cbn. by rewrite Z.eqb_refl.
  - by rewrite Htoken.
Qed.

Lemma readChunk_ok n i part w : contents w name (chunkKey (manifest 0) i) = Some (ByteRecord part) ->
  Z.of_nat (length part) = Z.min BLOB_CHUNK_BYTES (size - Z.of_nat i * BLOB_CHUNK_BYTES) ->
  exists w', readChunk name (manifest n) i w = (Ok part, w') /\ same (contents w) (contents w').
Proof.
  intros Hstored Hlen. destruct (calm_get_same name (chunkKey (manifest n) i) w) as (w' & Hget & Hsame). exists w'. split; [|done].
  unfold readChunk. rewrite (bind_then _ _ _ _ _ Hget). change (chunkKey (manifest n) i) with (chunkKey (manifest 0) i). rewrite Hstored. cbn [m_size].
  unfold requireM. by rewrite Hlen, Z.eqb_refl.
Qed.

Lemma same_trans c1 c2 c3 : same c1 c2 -> same c2 c3 -> same c1 c3.
Proof. intros H1 H2 store key. by rewrite H2. Qed.

(** Reading stored chunks from some point on. *)
Lemma verifyParts_ok n rest passed v w : fed descriptor (concat passed) v -> wellCut (passed ++ rest) -> content descriptor (concat (passed ++ rest)) ->
  staged name blobId transferId size (passed ++ rest) (contents w) ->
  exists w', verifyParts v (map (readChunk name (manifest n)) (seq (length passed) (length rest))) w = (Ok (rest, Ok tt), w') /\ same (contents w) (contents w').
Proof.
  intros Hfed Hcut Hcontent. assert (Z.of_nat (length (concat (passed ++ rest))) = size) as Htotal by (destruct Hcontent; congruence).
  revert passed v w Hfed Hcut Hcontent Htotal. induction rest as [|part rest IH]; intros passed v w Hfed Hcut Hcontent Htotal Hstaged.
  { rewrite app_nil_r in Hcontent. cbn. destruct (finish_ok descriptor Hvalid _ _ Hfed Hcontent) as [v' ->]. by exists w. }
  cbn [length seq map verifyParts]. assert ((passed ++ part :: rest) !! length passed = Some part) as Hat by by rewrite list_lookup_middle.
  destruct (Hcut _ _ Hat) as [Hpos Hmin]. rewrite Htotal in Hmin.
  destruct (readChunk_ok n (length passed) part w) as (w1 & Hread & Hsame); [by apply Hstaged|done|]. rewrite Hread.
  pose proof (size_bounds descriptor size Hvalid Hsize) as Hb.
  rewrite (verifier_update_ok descriptor (concat passed) part v Hfed Hpos) by
    (rewrite ?Hsize; cbn [intOf]; rewrite concat_app in Htotal; cbn [concat] in Htotal; rewrite !length_app in *; lia).
  replace (passed ++ part :: rest) with ((passed ++ [part]) ++ rest) in * by by rewrite <-app_assoc.
  destruct (IH (passed ++ [part]) (mkVerifier descriptor (concat passed ++ part) (Z.of_nat (length (concat passed ++ part))) false) w1)
    as (w2 & Hrest & Hsame2); [|done..| |].
  - unfold fed. rewrite concat_app. cbn [concat]. by rewrite app_nil_r.
  - intros i p Hi. rewrite Hsame. by apply Hstaged.
  - exists w2. split; [|by eapply same_trans]. replace (length (passed ++ [part])) with (S (length passed)) in Hrest by (rewrite length_app; cbn; lia).
    by rewrite (bind_then _ _ _ _ _ Hrest).
Qed.

Lemma fillOutput_concat parts output offset : length output = (offset + length (concat parts))%nat ->
  fillOutput output offset parts = take offset output ++ concat parts.
Proof.
  revert output offset. induction parts as [|part parts IH]; intros output offset Hlen; cbn [fillOutput concat] in *.
  { cbn in Hlen. rewrite take_ge by lia. by rewrite app_nil_r. }
  rewrite length_app in Hlen. unfold setAt. rewrite IH.
  - rewrite take_app_ge by (rewrite length_take; lia). rewrite length_take. replace (_ - _)%nat with (length part) by lia.
    rewrite take_app_le by lia. rewrite (take_ge part) by lia. by rewrite <-app_assoc.
  - rewrite !length_app, length_take, length_drop. lia.
Qed.

(** A manifest for complete chunks, found under the key of the blob. *)
Definition readableBlob (parts : list (list N)) (c : Contents) : Prop :=
  c name (manifestKey blobId) = Some (TextRecord (manifestText (manifest (length parts)))) /\
  isSafeInteger (Z.of_nat (length parts)) /\ staged name blobId transferId size parts c /\ wellCut parts /\ content descriptor (concat parts).

Lemma readable_count parts c : readableBlob parts c -> length parts = chunkCount size.
Proof.
  intros (_ & _ & _ & Hcut & Hcontent). pose proof (size_bounds descriptor size Hvalid Hsize) as Hb.
  assert (Z.of_nat (length (concat parts)) = size) as Htotal by (destruct Hcontent; congruence).
  rewrite <-Htotal. apply wellCut_count; [done|]. intros ->. cbn in Htotal. lia.
Qed.

Lemma read_back parts w : readableBlob parts (contents w) ->
  exists w1 w2, readBlobStream name descriptor w = (Ok (Some (ChunkReader (manifest (length parts)))), w1) /\
    iterate name descriptor (ChunkReader (manifest (length parts))) w1 = (Ok (parts, Ok tt), w2).
Proof.
  intros Hr. pose proof (readable_count _ _ Hr) as Hcount. destruct Hr as (Hkey & Hsafe & Hstaged & Hcut & Hcontent).
  destruct (calm_get_same name (manifestKey blobId) w) as (w1 & Hget & Hsame). destruct (createVerifier_fed _ _ Hvalid) as (v & Hv & Hfed).
  destruct (verifyParts_ok (length parts) parts [] v w1 Hfed Hcut Hcontent) as (w2 & Hall & _).
  { intros i part Hi. rewrite Hsame. by apply Hstaged. }
  exists w1, w2. split.
  - unfold readBlobStream. rewrite (bind_then (liftM _) _ w w descriptor) by (unfold liftM; by rewrite Hvalid).
    rewrite Hid. cbn [textOf]. rewrite (bind_then _ _ _ _ _ Hget), Hkey.
    rewrite (bind_then (liftM _) _ w1 w1 (manifest (length parts))) by (unfold liftM; by rewrite readManifest_text).
    rewrite Hsize. cbn [m_size isInt strictEqual]. unfold requireM. by rewrite Z.eqb_refl.
  - unfold iterate. rewrite Hv. exact Hall.
Qed.
End ReadBack.

Section Collect.
Context `{Sha256} `{Blake3} {W : Type} `{!AtomicStore W} `{!CalmStore W}.

(** The descriptor that collecting a blob checks it with. *)
Definition collectDescriptor (blobId : list N) (size : Z) : value :=
  Obj [(js "kind", Str (js "blob")); (js "version", Num (Int 1)); (js "blobId", Str blobId);
       (js "size", Num (Int size)); (js "name", Str (js "blob")); (js "mediaType", Str (js "application/octet-stream"))].

Lemma collectDescriptor_valid blobId size : isValidBlobId (Str blobId) = true -> (1 <= size <= MAX_BLOB_BYTES)%Z ->
  validateBlobDescriptor (collectDescriptor blobId size) = Ok (collectDescriptor blobId size).
Proof.
  intros Hid Hsize. unfold validateBlobDescriptor.
  match goal with |- (if ?b then _ else _) = _ => assert (b = false) as -> end.
  { change ((false || false || negb (isValidBlobId (Str blobId)) || false) = false). by rewrite Hid. }
  change (normalizeName (collectDescriptor blobId size).["name"]) with (Ok (js "blob")).
  change (normalizeMediaType (collectDescriptor blobId size).["mediaType"]) with (Ok (js "application/octet-stream")).
  cbn [mbind result_bind].
  change (isStr (js "blob") (collectDescriptor blobId size).["name"]) with true.
  change (isStr (js "application/octet-stream") (collectDescriptor blobId size).["mediaType"]) with true. cbn [negb].
  change ((collectDescriptor blobId size).["size"]) with (Num (Int size)). cbn [safeInt].
  assert (isSafeInteger size = true) as ->.
  { apply andb_true_iff. rewrite !Z.leb_le. unfold MAX_SAFE_INTEGER. assert (MAX_BLOB_BYTES < 9007199254740991)%Z by done. lia. }
  destruct (Z.ltb_spec size 1); [lia|]. destruct (Z.ltb_spec MAX_BLOB_BYTES size); [lia|]. done.
Qed.

Lemma collect_back name blobId transferId descriptor size parts w :
  validateBlobDescriptor descriptor = Ok descriptor -> descriptor.["blobId"] = Str blobId -> descriptor.["size"] = Num (Int size) ->
  transferToken transferId = true -> readableBlob name blobId transferId descriptor size parts (contents w) ->
  exists w', collectStoredBlob name blobId w = (Ok (Some (concat parts)), w').
Proof.
  intros Hvalid Hid Hsize Htoken Hr. pose proof (readable_count name blobId transferId descriptor size Hvalid Hsize _ _ Hr) as Hcount.
  pose proof Hvalid as (_ & (id & Hi & Hv) & _)%validate_same. assert (id = blobId) as -> by congruence.
  pose proof (size_bounds descriptor size Hvalid Hsize) as Hb. pose proof (collectDescriptor_valid blobId size Hv Hb) as Hvalid'.
  destruct Hr as (Hkey & Hsafe & Hstaged & Hcut & Hcontent).
  assert (content (collectDescriptor blobId size) (concat parts)) as Hcontent'.
  { destruct Hcontent as [Hs (b & Hb1 & Hb2)]. split; [by rewrite <-Hs, Hsize|]. exists blobId. split; [done|]. by replace blobId with b by congruence. }
  destruct (calm_get_same name (manifestKey blobId) w) as (w1 & Hget & Hsame).
  destruct (read_back name blobId transferId (collectDescriptor blobId size) size Hvalid' eq_refl eq_refl Htoken parts w1) as (w2 & w3 & Hread & Hiterate).
  { split_and!; [by rewrite Hsame|done| |done..]. intros i part Hi'. rewrite Hsame. by apply Hstaged. }
  exists w3. unfold collectStoredBlob. rewrite (bind_then _ _ _ _ _ Hget), Hkey.
  rewrite (bind_then (liftM _) _ w1 w1 (mkManifest blobId size transferId (length parts))) by
    (unfold liftM; by rewrite (readManifest_text blobId transferId descriptor size)).
  cbv zeta. cbn [m_size]. change (Obj [(js "kind", _); _; _; _; _; _]) with (collectDescriptor blobId size).
  rewrite (bind_then _ _ _ _ _ Hread), (bind_then _ _ _ _ _ Hiterate). rewrite (bind_then (liftM (Ok tt)) _ w3 w3 tt) by done.
  rewrite fillOutput_concat; [done|]. rewrite repeat_length. destruct Hcontent as [Hs _]. rewrite Hsize in Hs. injection Hs as Hs. lia.
Qed.
End Collect.

(** ** Theorems *)
Section Theorems.
Context `{Sha256} `{Blake3} {W : Type} `{!AtomicStore W}.
Variables (name blobId transferId : list N) (descriptor : value) (size : Z) (source : BlobByteSource) (ensureCurrent : M W unit).

Abbreviation manifest := (mkManifest blobId size transferId).

(** Others do not write the chunks of this transfer, nor put its manifest. *)
Definition spares : Prop := forall c c', meddles c c' ->
  (forall i, c' name (chunkKey (manifest 0) i) = c name (chunkKey (manifest 0) i)) /\
  (forall n, ours name blobId transferId size c' n -> ours name blobId transferId size c n).

(** What an outcome of the write means for the store: when the manifest is there,
    the chunks of the whole source are, and they are the blob; when the write
    returned, the manifest was there; and a record that is neither the manifest
    nor a chunk of this transfer is as it was, if others do not change it. *)
Definition publishes (w : W) (outcome : result unit * W) : Prop :=
  (forall n, ours name blobId transferId size (contents outcome.2) n -> complete name blobId transferId descriptor size source (contents outcome.2) n) /\
  (outcome.1 = Ok tt -> exists c n, meddles c (contents outcome.2) /\ ours name blobId transferId size c n /\
     complete name blobId transferId descriptor size source c n) /\
  (forall store key, (store, key) <> (name, manifestKey blobId) -> (forall i, (store, key) <> (name, chunkKey (manifest 0) i)) ->
     (forall c c', meddles c c' -> c' store key = c store key) -> contents outcome.2 store key = contents w store key).

Hypothesis Hvalid : validateBlobDescriptor descriptor = Ok descriptor.
Hypothesis Hid : descriptor.["blobId"] = Str blobId.
Hypothesis Hsize : descriptor.["size"] = Num (Int size).
Hypothesis Htoken : transferToken transferId = true.
Hypothesis Hspares : spares.
Hypothesis Hquiet : forall w, same (contents w) (contents (ensureCurrent w).2).

(** Nothing was done but by others. *)
Lemma publishes_early w w' e : vacant name blobId transferId size (contents w) -> meddles (contents w) (contents w') -> publishes w (Throw e, w').
Proof.
  intros Hv Hm. split_and!; [|done|auto]. intros n Hn. exfalso. by apply (vacant_meddles _ _ _ _ Hspares _ _ Hm Hv n).
Qed.

Lemma publishes_later w w1 outcome : meddles (contents w) (contents w1) -> publishes w1 outcome -> publishes w outcome.
Proof. intros Hm (? & ? & Hf). split_and!; [done..|]. intros store key Hk1 Hk2 Hk. rewrite Hf by done. by apply Hk. Qed.

Lemma putParts_publishes previous v w : fed descriptor [] v -> vacant name blobId transferId size (contents w) ->
  publishes w (putParts name ensureCurrent manifest previous source v w).
Proof.
  intros Hfed Hv.
  pose proof (putParts_settled name blobId transferId descriptor size ensureCurrent source Hvalid Hid Hsize Htoken Hspares Hquiet previous v w Hfed Hv) as Hp.
  assert (forall store key, (store, key) <> (name, manifestKey blobId) -> (forall i, (store, key) <> (name, chunkKey (manifest 0) i)) ->
    (forall c c', meddles c c' -> c' store key = c store key) ->
    contents (putParts name ensureCurrent manifest previous source v w).2 store key = contents w store key) as Hf.
  { intros store key Hk1 Hk2 Hk. pose proof (untouched_putParts name blobId transferId size ensureCurrent source Hquiet
      store key (contents w store key) Hk1 Hk2 Hk previous v w eq_refl) as Hu. by destruct (putParts _ _ _ _ _ _ _) as [[] ?]. }
  unfold publishes. destruct (putParts _ _ _ _ _ _ _) as [r w']. destruct Hp as [Hp1 Hp2]. done.
Qed.

Lemma putBlobStream_publishes w : vacant name blobId transferId size (contents w) ->
  publishes w (putBlobStream name descriptor source ensureCurrent transferId w).
Proof.
  intros Hv. unfold putBlobStream. destruct (createVerifier_fed _ _ Hvalid) as (v & Hcreate & Hfed).
  rewrite (bind_then (liftM _) _ w w descriptor) by (unfold liftM; by rewrite Hvalid).
  rewrite (bind_then (liftM _) _ w w v) by (unfold liftM; by rewrite Hcreate). cbv zeta. rewrite Hid, Hsize. cbn [textOf intOf].
  pose proof (Hquiet w) as Hq%meddles_same. unfold mbind, M_bind. destruct (ensureCurrent w) as [[[]|e] w1]; cbn [snd] in Hq; [|by apply publishes_early].
  apply (publishes_later _ w1); [done|]. apply (vacant_meddles _ _ _ _ Hspares _ _ Hq) in Hv.
  destruct (get_atomic name (manifestKey blobId) w1) as (c & Hbefore & Hafter & _). pose proof (meddles_trans _ _ _ Hbefore Hafter) as Hm.
  destruct (get name (manifestKey blobId) w1) as [[previous|e] w2]; cbn [snd] in Hm; [|by apply publishes_early].
  apply (publishes_later _ w2); [done|]. apply (vacant_meddles _ _ _ _ Hspares _ _ Hm) in Hv.
  destruct previous as [stored|]; [|by apply putParts_publishes].
  unfold liftM, mbind, M_bind. destruct (readManifest stored blobId); [by apply putParts_publishes|].
  apply publishes_early; [done|]. by apply meddles_same.
Qed.
End Theorems.

(** C21. Publication of a streamed blob.  Whatever the source gives, whichever
    store access or guard throws, even when a publication took effect but its
    answer was lost, and whatever others do to records of their own: after
    [putBlobStream], if its manifest is in the store then the chunks it names are
    all there, have the sizes the readers ask for, and are the content the
    descriptor names; if it returned, the manifest was published; and no record
    but the manifest and the chunks of this transfer was changed. *)
Theorem blob_stream_publication `{Sha256} `{Blake3} {W : Type} `{!AtomicStore W} (name blobId transferId : list N) (descriptor : value) (size : Z)
    (source : BlobByteSource) (ensureCurrent : M W unit) (w : W) :
  validateBlobDescriptor descriptor = Ok descriptor -> descriptor.["blobId"] = Str blobId -> descriptor.["size"] = Num (Int size) ->
  transferToken transferId = true -> spares name blobId transferId size -> (forall w, same (contents w) (contents (ensureCurrent w).2)) ->
  vacant name blobId transferId size (contents w) ->
  publishes name blobId transferId descriptor size source w (putBlobStream name descriptor source ensureCurrent transferId w).
Proof. intros. by apply putBlobStream_publishes. Qed.

(** C22. Streamed blobs round trip.  In a store that works, writing a source of
    chunks that are the content of the descriptor returns; reading the stream
    afterwards gives parts that together are the bytes of the source and ends
    without an error, and collecting the blob gives the same bytes. *)
Theorem blob_stream_roundtrip `{Sha256} `{Blake3} {W : Type} `{!AtomicStore W} `{!CalmStore W} (name blobId transferId : list N) (descriptor : value)
    (source : BlobByteSource) (w : W) :
  validateBlobDescriptor descriptor = Ok descriptor -> descriptor.["blobId"] = Str blobId -> transferToken transferId = true ->
  wellFed (Z.to_nat BLOB_CHUNK_BYTES) source -> content descriptor (sourceBytes source) ->
  match contents w name (manifestKey blobId) with Some v => isOk (readManifest v blobId) | None => true end = true ->
  vacant name blobId transferId (Z.of_nat (length (sourceBytes source))) (contents w) ->
  exists w1, putBlobStream name descriptor source (mret tt) transferId w = (Ok tt, w1) /\
    (exists reader w2 parts w3, readBlobStream name descriptor w1 = (Ok (Some reader), w2) /\
       iterate name descriptor reader w2 = (Ok (parts, Ok tt), w3) /\ concat parts = sourceBytes source) /\
    (exists w2, collectStoredBlob name blobId w1 = (Ok (Some (sourceBytes source)), w2)).
Proof.
  intros Hvalid Hid Htoken (Hne & Hfed & Hmax) Hcontent Hprevious Hv. pose proof Hcontent as [Hsize _].
  set (C := Z.to_nat BLOB_CHUNK_BYTES) in *. assert (Z.of_nat C = BLOB_CHUNK_BYTES) as HC by (unfold C; by rewrite Z2Nat.id). clearbody C.
  destruct (chunkLoop_ends C HC source 0 []) as [parts Hsource]; [done|lia|lia|by right|].
  destruct (chunkLoop_cut C HC source 0 [] parts) as [Hconcat Hcut%(cut_wellCut C HC)]; [by apply chunk_positive|done|]. cbn [app] in Hconcat.
  destruct (put_returns name blobId transferId descriptor _ Hvalid Hid Hsize source parts w) as [w1 Hput]; [done|by apply wellCut_sizes|by rewrite Hconcat|done|].
  exists w1. split; [done|].
  destruct (putBlobStream_publishes name blobId transferId descriptor _ source (mret tt) Hvalid Hid Hsize Htoken) with (w := w) as (_ & Hok & _).
  { intros c c' Hm%calm_meddles. split; [intros i; by rewrite Hm|]. intros n [Hn Ho]. split; [done|]. by rewrite <-Hm. }
  { by intros w' store key. }
  { done. }
  rewrite Hput in Hok. destruct (Hok eq_refl) as (c & n & Hm%calm_meddles & [Hn Ho] & Hlen & Hstaged & _ & Hc). cbn [snd fst] in *.
  unfold chunkBlobSource in *. rewrite Hsource in *. cbn [fst] in *. subst n.
  assert (readableBlob name blobId transferId descriptor (Z.of_nat (length (sourceBytes source))) parts (contents w1)) as Hr.
  { split_and!; [by rewrite Hm|done| |done|done]. intros i part Hi. rewrite Hm. by apply Hstaged. }
  destruct (read_back name blobId transferId descriptor _ Hvalid Hid Hsize Htoken parts w1 Hr) as (w2 & w3 & Hread & Hiterate).
  split; [by eauto 10|]. rewrite <-Hconcat. eapply collect_back; done.
Qed.

(** ** A store whose accesses fail *)
Inductive Fault := Works | Refuses | LosesAnswer.

Section Flaky.
Variable plan : nat -> Fault.

(** The memory store behind a connection: an access may be refused, or take
    effect without an answer. *)
Definition flaky {A} (operation : nat -> M Stores A) : M (nat * Stores) A := fun '(n, stores) =>
  match plan n with
  | Works => let '(r, stores') := operation n stores in (r, (S n, stores'))
  | Refuses => (Throw "refused", (S n, stores))
  | LosesAnswer => (Throw "no answer", (S n, (operation n stores).2))
  end.

Definition flakySwap (conditions : list MeshStoreCondition) (operations : list MeshStoreOperation) (guard : M (nat * Stores) unit) : M (nat * Stores) bool :=
  flaky (fun n => memory_compareAndSwap conditions operations (fun stores => let '(r, (_, stores')) := guard (n, stores) in (r, stores'))).

#[local] Instance flakyStore : AtomicStore (nat * Stores).
Proof.
  refine {| contents := fun w => contentsOf w.2; meddles := MeshStore.same;
    get := fun store key => flaky (fun _ => memory_get store key); put := fun store key v => flaky (fun _ => memory_put store key v);
    delete := fun store key => flaky (fun _ => memory_delete store key); compareAndSwap := flakySwap |}.
  - done.
  - intros c1 c2 c3 H12 H23 store key. by rewrite H23.
  - intros store key [n w]. exists (contentsOf w). split; [done|]. unfold flaky. destruct (plan n); cbn [fst snd]; split; try done.
    + apply contentsOf_open.
    + intros found Hf. by apply (inj Ok) in Hf.
    + apply contentsOf_open.
  - intros store key v [n w]. pose proof (applyOperation_performs (PutOperation store key v) w) as Hp. unfold flaky.
    exists (contentsOf w). destruct (plan n); cbn [fst snd].
    + exists (contentsOf (memory_put store key v w).2). by split_and!; [..|left].
    + exists (contentsOf w). by split_and!; [..|right].
    + exists (contentsOf (memory_put store key v w).2). by split_and!; [..|left].
  - intros store key [n w]. pose proof (applyOperation_performs (DeleteOperation store key) w) as Hp. unfold flaky.
    exists (contentsOf w). destruct (plan n); cbn [fst snd].
    + exists (contentsOf (memory_delete store key w).2). by split_and!; [..|left].
    + exists (contentsOf w). by split_and!; [..|right].
    + exists (contentsOf (memory_delete store key w).2). by split_and!; [..|left].
  - intros conditions operations guard [n w] Hguard. unfold flakySwap, flaky.
    set (guard' := fun stores => let '(r, (_, stores')) := guard (n, stores) in (r, stores')).
    destruct (swap_atomic (AtomicStore := memoryStore) conditions operations guard' w) as (c & c' & Hb & Ha & Hcase).
    { intros stores store key. unfold guard'. specialize (Hguard (n, stores) store key). by destruct (guard (n, stores)) as [? [??]]. }
    destruct (plan n); cbn [fst snd].
    + exists c, c'. change (compareAndSwap conditions operations guard' w) with (memory_compareAndSwap conditions operations guard' w) in *.
      destruct (memory_compareAndSwap conditions operations guard' w) as [r w']. done.
    + exists (contentsOf w), (contentsOf w). by split_and!; [..|right].
    + exists c, c'. split_and!; [done..|]. destruct Hcase as [(? & ? & _)|[? _]]; [left|right]; done.
Defined.
End Flaky.

(** ** A blob to run *)
#[local] Existing Instance checksumSha256.
#[local] Existing Instance toyBlake3.

Module StreamSample.
Definition bytes : list N := [1; 2; 3]%N.
Definition blobId : list N := blobIdFor bytes.
Definition descriptor : value := collectDescriptor blobId 3.
Definition source : BlobByteSource := [Ok (ByteRecord [1; 2]%N); Ok (ByteRecord [3]%N)].
Definition transferId : list N := js "0b5c".
(** The access that publishes, after one read and the write of one chunk, gets no answer. *)
Definition plan (n : nat) : Fault := if (n =? 2)%nat then LosesAnswer else Works.
Definition outcome : result unit * (nat * Stores) :=
  putBlobStream (AtomicStore0 := flakyStore plan) (js "blobs") descriptor source (mret tt) transferId (0%nat, []).
End StreamSample.

Lemma blob_stream_publication_witness :
  StreamSample.outcome.1 = Throw "no answer" /\
  ours (js "blobs") StreamSample.blobId StreamSample.transferId 3 (contentsOf StreamSample.outcome.2.2) 1 /\
  complete (js "blobs") StreamSample.blobId StreamSample.transferId StreamSample.descriptor 3 StreamSample.source (contentsOf StreamSample.outcome.2.2) 1.
Proof.
  split; [vm_compute; reflexivity|].
  assert (ours (js "blobs") StreamSample.blobId StreamSample.transferId 3 (contentsOf StreamSample.outcome.2.2) 1) as Hours
    by (split; vm_compute; [exact I|reflexivity]).
  split; [exact Hours|].
  refine (proj1 (blob_stream_publication (AtomicStore0 := flakyStore StreamSample.plan) (js "blobs") StreamSample.blobId StreamSample.transferId
    StreamSample.descriptor 3 StreamSample.source (mret tt) (0%nat, []) _ _ _ _ _ _ _) 1%nat Hours).
  - vm_compute. reflexivity.
  - reflexivity.
  - reflexivity.
  - reflexivity.
  - intros c c' Hm. split; [intros i; apply Hm|]. intros n [Hn Ho]. split; [exact Hn|]. rewrite <-(Hm (js "blobs") (manifestKey StreamSample.blobId)). exact Ho.
  - intros w store key. reflexivity.
  - intros n [_ Ho]. discriminate Ho.
Defined.

Lemma blob_stream_roundtrip_witness :
  exists w1, putBlobStream (js "blobs") StreamSample.descriptor StreamSample.source (mret tt) StreamSample.transferId ([] : Stores) = (Ok tt, w1) /\
    exists w2, collectStoredBlob (js "blobs") StreamSample.blobId w1 = (Ok (Some StreamSample.bytes), w2).
Proof.
  destruct (blob_stream_roundtrip (js "blobs") StreamSample.blobId StreamSample.transferId StreamSample.descriptor StreamSample.source ([] : Stores))
    as (w1 & Hput & _ & Hcollect).
  - vm_compute. reflexivity.
  - reflexivity.
  - reflexivity.
  - split; [discriminate|]. assert (Z.of_nat (Z.to_nat BLOB_CHUNK_BYTES) = BLOB_CHUNK_BYTES) as HC by by rewrite Z2Nat.id.
    assert (3 <= BLOB_CHUNK_BYTES)%Z as Hpos by done. assert (3 <= MAX_BLOB_BYTES)%Z as Hmax by done.
    set (C := Z.to_nat BLOB_CHUNK_BYTES) in *. clearbody C. split; [|exact Hmax].
    apply Forall_cons. split; [exists [1; 2]%N; split; [reflexivity|cbn; lia]|].
    apply Forall_cons. split; [exists [3]%N; split; [reflexivity|cbn; lia]|]. apply Forall_nil. exact I.
  - split; [reflexivity|]. exists StreamSample.blobId. split; [reflexivity|]. vm_compute. reflexivity.
  - reflexivity.
  - intros n [_ Ho]. discriminate Ho.
  - exists w1. split; [exact Hput|exact Hcollect].
Defined.
