(* ===== verification/Messaging.v ===== *)
(** * Conversations

    [packages/mesh-messaging/src/index.ts]: a conversation document with its
    participants, each but the creator admitted by a signed grant, and its
    signed messages. *)
From stdpp Require Import base numbers list sorting strings.
From Stdlib Require Import ZArith NArith Lia.
From S2P Require Import Prelude Unicode Json Js Base64 Digest Dates Envelope Certificates ProfileValue Profile Recovery Records.
From S2P Require Import Contact Blob.
Local Open Scope js_scope.

Definition MESSAGING_SIGNATURE_DOMAIN : list N := js "MESH-MESSAGING/1".
Definition MAX_MESSAGE_LENGTH : nat := 4000.
Definition MAX_ATTACHMENTS : nat := 4.

Definition normalizeTitle (v : value) : result (list N) :=
  trimmed ← trimOf v;
  let title := collapseBlank trimmed in
  if (length title =? 0)%nat || longer 120 title then Throw "Conversation title must contain 1–120 characters" else Ok title.

Definition normalizeBody (v : value) (hasAttachments : bool) : result (list N) :=
  body ← trimOf v;
  if ((length body =? 0)%nat && negb hasAttachments) || longer MAX_MESSAGE_LENGTH body
  then Throw "Message must contain 1–4,000 characters, or an attachment" else Ok body.

Definition participant_value (identity : value) (certificates : list value) (grant : value) : value :=
  Obj [(js "identity", identity); (js "certificates", Arr certificates); (js "grant", grant)].

(** [["member", "admin"].includes(v)] and the like *)
Definition oneOf (texts : list string) (v : value) : bool := existsb (fun text => isStr (js text) v) texts.

(** [object[v]]: a key is the text of a value.  The properties every object has
    are functions, of which no field is read successfully; they pass no test. *)
Definition memberOf (object v : value) : value := getOpt (toText v) object.

(** Attachments: an array with distinct blob ids. *)
Definition attachmentIds (attachments : list value) : result (list value) := mapR (get (js "blobId")) attachments.

Section Messaging.
Context `{Sha256} `{Ed25519} `{Calendar}.

Definition profileParticipant (profile : LocalProfile) (grant : value) : result value :=
  identity ← clone (identity_value (local_identity profile));
  certificate ← clone (local_certificate profile);
  grant ← clone grant;
  Ok (participant_value identity [certificate] grant).

Definition createConversationGrant (issuer : LocalProfile) (conversationId memberPersonId : list N) (role : list N) (now : Z) : result value :=
  createdAt ← stamp now;
  signEnvelope (local_deviceKey issuer) (Obj
    [(js "kind", Str (js "conversation-grant")); (js "version", Num (Int 1)); (js "conversationId", Str conversationId);
     (js "issuerPersonId", Str (personId (local_identity issuer))); (js "issuerDeviceId", Str (local_deviceId issuer));
     (js "memberPersonId", Str memberPersonId); (js "role", Str role); (js "createdAt", createdAt)])
    (local_deviceId issuer) MESSAGING_SIGNATURE_DOMAIN.

Definition verifyGrant (doc participant : value) : result unit :=
  let grant := participant.["grant"] in
  if negb (truthy grant) then Throw "Participant grant missing" else
  payload ← get (js "payload") grant;
  kind ← get (js "kind") payload;
  if negb (isStr (js "conversation-grant") kind) || negb (isInt 1 payload.["version"]) ||
     negb (strictEqual payload.["conversationId"] doc.["conversationId"])
  then Throw "Invalid participant grant" else
  member ← get (js "personId") participant.["identity"];
  if negb (strictEqual payload.["memberPersonId"] member) || negb (strictEqual grant.["signerKeyId"] payload.["issuerDeviceId"]) ||
     negb (oneOf ["member"; "admin"] payload.["role"])
  then Throw "Invalid participant grant" else
  let issuer := memberOf doc.["participants"] payload.["issuerPersonId"] in
  if negb (truthy issuer) then Throw "Participant grant issuer is not an admin" else
  allowed ← if strictEqual payload.["issuerPersonId"] doc.["creatorPersonId"] then Ok true else
    match issuer.["grant"] with
    | Null | Undefined => Ok false
    | issued => issuedPayload ← get (js "payload") issued; role ← get (js "role") issuedPayload; Ok (isStr (js "admin") role)
    end;
  if negb (allowed : bool) then Throw "Participant grant issuer is not an admin" else
  verifySigned issuer.["identity"] payload.["issuerDeviceId"] issuer.["certificates"] grant MESSAGING_SIGNATURE_DOMAIN
    "Invalid participant grant signature".

(** ** Messages *)
Definition attachmentField (attachments : list value) : list (list N * value) :=
  match attachments with [] => [] | _ => [(js "attachments", Arr attachments)] end.

Definition createMessage (profile : LocalProfile) (conversationId : list N) (body : value) (attachments : option (list value))
    (messageId : list N) (now : Z) : result value :=
  attachments ← mapR validateBlobDescriptor (default [] attachments);
  if (MAX_ATTACHMENTS <? length attachments)%nat || negb (distinctValues (map (getOpt (js "blobId")) attachments))
  then Throw "A message may contain up to 4 unique attachments" else
  body ← normalizeBody body (0 <? length attachments)%nat;
  createdAt ← stamp now;
  signEnvelope (local_deviceKey profile) (Obj (
    [(js "kind", Str (js "message")); (js "version", Num (Int 1)); (js "conversationId", Str conversationId);
     (js "messageId", Str messageId); (js "authorPersonId", Str (personId (local_identity profile)));
     (js "authorDeviceId", Str (local_deviceId profile)); (js "body", Str body)] ++ attachmentField attachments ++
    [(js "createdAt", createdAt)]))
    (local_deviceId profile) MESSAGING_SIGNATURE_DOMAIN.

Definition verifyMessage (doc message : value) (now : Z) : result unit :=
  let payload := message.["payload"] in
  let attachments := orEmpty payload.["attachments"] in
  if negb (truthy payload) || negb (isStr (js "message") payload.["kind"]) || negb (isInt 1 payload.["version"]) ||
     negb (strictEqual payload.["conversationId"] doc.["conversationId"]) || negb (truthy payload.["messageId"]) ||
     negb (strictEqual message.["signerKeyId"] payload.["authorDeviceId"])
  then Throw "Invalid message" else
  attached ← lengthOver 0 attachments;
  body ← normalizeBody payload.["body"] attached;
  if negb (isStr body payload.["body"]) || negb (isArray attachments) || (MAX_ATTACHMENTS <? length (items attachments))%nat
  then Throw "Invalid message" else
  ids ← attachmentIds (items attachments);
  if negb (distinctValues ids) then Throw "Invalid message" else
  match mapR validateBlobDescriptor (items attachments) with
  | Throw _ => Throw "Invalid message attachment"
  | Ok _ =>
      match parseDate (toText payload.["createdAt"]) with
      | None => Throw "Invalid message timestamp"
      | Some timestamp =>
          if (now + 5 * 60 * 1000 <? timestamp)%Z then Throw "Invalid message timestamp" else
          let author := memberOf doc.["participants"] payload.["authorPersonId"] in
          if negb (truthy author) then Throw "Message author is not a participant" else
          verifySigned author.["identity"] payload.["authorDeviceId"] author.["certificates"] message MESSAGING_SIGNATURE_DOMAIN
            "Invalid message signature"
      end
  end.

(** ** The document *)
Definition verifyCreator (doc : value) : result unit :=
  let creator := memberOf doc.["participants"] doc.["creatorPersonId"] in
  if negb (truthy creator) || negb (isNull creator.["grant"]) then Throw "Invalid conversation creator" else
  match creator.["certificates"] with
  | Null | Undefined => Throw "Cannot read properties of undefined"
  | certificates =>
      let first := match certificates with Arr (first :: _) => first | _ => Undefined end in
      id ← match first with Null | Undefined => Ok Undefined | _ => payloadId first end;
      verifyDevice creator.["identity"] id certificates;; Ok tt
  end.

Definition verifyParticipant (doc : value) (entry : list N * value) : result unit :=
  identity ← get (js "identity") entry.2;
  person ← get (js "personId") identity;
  if negb (isStr entry.1 person) then Throw "Invalid participant id" else
  if isStr entry.1 doc.["creatorPersonId"] then Ok tt else verifyGrant doc entry.2.

Definition verifyMessageEntry (doc : value) (now : Z) (entry : list N * value) : result unit :=
  payload ← get (js "payload") entry.2;
  messageId ← get (js "messageId") payload;
  if negb (isStr entry.1 messageId) then Throw "Invalid message id" else
  verifyMessage doc entry.2 now.

Definition verifyConversation (doc : value) (now : Z) : result unit :=
  if negb (truthy doc) || negb (isStr (js "conversation") doc.["kind"]) || negb (isInt 1 doc.["version"]) ||
     negb (oneOf ["direct"; "group"] doc.["roomKind"]) || negb (truthy doc.["conversationId"])
  then Throw "Invalid conversation" else
  title ← normalizeTitle doc.["title"];
  if negb (isStr title doc.["title"]) || negb (truthy doc.["participants"]) || negb (truthy doc.["messages"])
  then Throw "Invalid conversation" else
  verifyCreator doc;;
  foldR (fun _ => verifyParticipant doc) tt (entries doc.["participants"]);;
  foldR (fun _ => verifyMessageEntry doc now) tt (entries doc.["messages"]).

Context `{Automerge}.

Definition conversation_value (roomKind conversationId title creator : list N) (participants : value) : value :=
  Obj [(js "kind", Str (js "conversation")); (js "version", Num (Int 1)); (js "roomKind", Str roomKind);
       (js "conversationId", Str conversationId); (js "title", Str title); (js "creatorPersonId", Str creator);
       (js "participants", participants); (js "messages", Obj [])].

Definition createConversation (profile : LocalProfile) (title : value) (conversationId roomKind : list N) : result Doc :=
  title ← normalizeTitle title;
  creator ← profileParticipant profile Null;
  let person := personId (local_identity profile) in
  Ok (change init (conversation_value roomKind conversationId title person (Obj [(person, creator)]))).

Definition addParticipantDeviceCertificate (doc : Doc) (profile : LocalProfile) : result Doc :=
  let conversation := contents doc in
  let person := personId (local_identity profile) in
  participants ← get (js "participants") conversation;
  let participant := getOpt person participants in
  if negb (truthy participant) then Throw "Device owner is not a participant" else
  key ← get (js "publicKey") participant.["identity"];
  if negb (isStr (publicKey (local_identity profile)) key) then Throw "Participant identity does not match" else
  verifyDeviceCertificateChain (local_identity profile) (js "MATCH/1") (local_deviceId profile) [local_certificate profile];;
  match participant.["certificates"] with
  | Arr certificates =>
      present ← findDevice (Str (local_deviceId profile)) certificates;
      match present with
      | Some _ => Ok doc
      | None =>
          copy ← clone (local_certificate profile);
          Ok (change doc (setField (js "participants") (setField person
            (setField (js "certificates") (Arr (certificates ++ [copy])) participant) participants) conversation))
      end
  | _ => Throw "some is not a function"
  end.

(** The grant is checked with the newcomer among the participants. *)
Definition addConversationParticipant (doc : Doc) (participant grant : value) : result Doc :=
  copy ← clone participant;
  grant ← clone grant;
  let record := setField (js "grant") grant copy in
  probe ← clone (contents doc);
  participants ← get (js "participants") probe;
  identity ← get (js "identity") participant;
  person ← get (js "personId") identity;
  verifyGrant (setField (js "participants") (setField (toText person) record participants) probe) record;;
  Ok (change doc (setField (js "participants") (setField (toText person) record (contents doc).["participants"]) (contents doc))).

Definition appendMessage (doc : Doc) (message : value) (now : Z) : result Doc :=
  let conversation := contents doc in
  verifyConversation conversation now;;
  verifyMessage conversation message now;;
  let id := toText message.["payload"].["messageId"] in
  let existing := getOpt id conversation.["messages"] in
  if truthy existing || inherited id then
    stored ← canonicalizeJson existing;
    text ← canonicalizeJson message;
    if truthy existing && bool_decide (stored = text) then Ok doc else Throw "Message id already exists"
  else
    copy ← clone message;
    Ok (change doc (setField (js "messages") (setField id copy conversation.["messages"]) conversation)).

Definition mergeConversations (local : Doc) (remoteBytes : list N) (now : Z) : result Doc :=
  remote ← load remoteBytes;
  if negb (strictEqual (contents remote).["conversationId"] (contents local).["conversationId"]) ||
     negb (strictEqual (contents remote).["creatorPersonId"] (contents local).["creatorPersonId"])
  then Throw "Conversation does not match" else
  let candidate := merge local remote in
  verifyConversation (contents candidate) now;;
  Ok candidate.

Definition saveConversation (doc : Doc) : list N := save doc.
Definition loadConversation (bytes : list N) : result Doc := load bytes.
End Messaging.

(** By time, then by id; of messages that verify. *)
Definition messageOrder `{Collation} (a b : value) : bool :=
  let byTime := localeCompare (textOf a.["payload"].["createdAt"]) (textOf b.["payload"].["createdAt"]) in
  if (byTime =? 0)%Z then (localeCompare (textOf a.["payload"].["messageId"]) (textOf b.["payload"].["messageId"]) <=? 0)%Z else (byTime <? 0)%Z.
Definition conversationMessages `{Collation} (conversation : value) : list value :=
  sortBy messageOrder (map snd (entries conversation.["messages"])).

Section Facts.
Context `{Sha256} `{Ed25519} `{Calendar}.

(** A participant admitted by a grant for this person and this conversation,
    signed on a device of a participant who is the creator or is stated an
    admin by a grant of their own. *)
Definition granted (doc participant : value) : Prop :=
  let grant := participant.["grant"] in
  let payload := grant.["payload"] in
  let issuer := memberOf doc.["participants"] payload.["issuerPersonId"] in
  strictEqual payload.["conversationId"] doc.["conversationId"] = true /\
  strictEqual payload.["memberPersonId"] participant.["identity"].["personId"] = true /\
  (strictEqual payload.["issuerPersonId"] doc.["creatorPersonId"] = true \/
   issuer.["grant"].["payload"].["role"] = Str (js "admin")) /\
  authentic issuer.["identity"] payload.["issuerDeviceId"] (items issuer.["certificates"]) grant MESSAGING_SIGNATURE_DOMAIN.

Lemma verifyGrant_granted doc participant : verifyGrant doc participant = Ok tt -> granted doc participant.
Proof.
  unfold verifyGrant, granted. cbv zeta. guard_passed as Hg. intros (payload & <-%get_ok & Hr)%bind_ok.
  apply bind_ok in Hr as (kind & <-%get_ok & Hr). revert Hr. guard_passed as Hshape. intros (person & <-%get_ok & Hr)%bind_ok. revert Hr.
  guard_passed as Hmatch. guard_passed as Hissuer. intros (allowed & Hallowed & Hr)%bind_ok. revert Hr. guard_passed as Ha. intros Hs.
  bool_to_prop. subst allowed. split; [done|]. split; [done|]. split; [|by eapply verifySigned_authentic].
  destruct (strictEqual _ (doc.["creatorPersonId"])); [by left|right].
  destruct (memberOf _ _).["grant"] eqn:Hgrant; try done;
    (apply bind_ok in Hallowed as (issued & <-%get_ok & Hallowed); apply bind_ok in Hallowed as (role & <-%get_ok & Hrole);
     apply (inj Ok), isStr_true in Hrole; done).
Qed.

(** A message of a conversation: written for it by a participant, on a device
    whose certificates lead to that participant. *)
Definition posted (doc message : value) : Prop :=
  let payload := message.["payload"] in
  let author := memberOf doc.["participants"] payload.["authorPersonId"] in
  strictEqual payload.["conversationId"] doc.["conversationId"] = true /\ truthy author = true /\
  authentic author.["identity"] payload.["authorDeviceId"] (items author.["certificates"]) message MESSAGING_SIGNATURE_DOMAIN.

Lemma verifyMessage_posted doc message now : verifyMessage doc message now = Ok tt -> posted doc message.
Proof.
  unfold verifyMessage, posted. cbv zeta. guard_passed as Hshape. intros (attached & _ & Hr)%bind_ok. apply bind_ok in Hr as (body & _ & Hr). revert Hr.
  guard_passed as Hbody. intros (ids & _ & Hr)%bind_ok. revert Hr. guard_passed as Hids. destruct (mapR _ _) as [?|]; [|done].
  destruct (parseDate _) as [t|]; [|done]. guard_passed as Ht. guard_passed as Hauthor. intros Hs. bool_to_prop.
  split; [done|]. split; [done|]. by eapply verifySigned_authentic.
Qed.
End Facts.

Module MessagingSample.
#[local] Existing Instance checksumSha256.
#[local] Existing Instance toyEd25519.
#[local] Existing Instance plainAutomerge.
#[local] Existing Instance isoCalendar.

Definition creator : LocalProfile := People.profile 1 2.
Definition stranger : LocalProfile := People.profile 5 6.
Definition person : list N := personId (local_identity stranger).
Definition participant : value := Obj [(js "identity", identity_value (local_identity stranger)); (js "certificates", Arr [local_certificate stranger])].
Definition conversation : value := Eval vm_compute in People.orUndefined (createConversation creator (Str (js "Plans")) (js "c1") (js "group")).
Definition message : value := Eval vm_compute in People.orUndefined (createMessage creator (js "c1") (Str (js "Hello")) None (js "m1") 1000).
Definition posted_conversation : value := Eval vm_compute in People.orUndefined (appendMessage conversation message 2000).
(** A grant the stranger writes for themselves. *)
Definition selfGrant : value := Eval vm_compute in People.orUndefined (createConversationGrant stranger (js "c1") person (js "admin") 1000).
Definition joined : value := Eval vm_compute in People.orUndefined (addConversationParticipant conversation participant selfGrant).
End MessagingSample.

(** The grant of an admin need not lead back to the creator: someone who was
    never admitted signs a grant that makes them an admin themselves, and both
    the adding of a participant and the verification of the document accept it. *)
Theorem conversation_self_admission :
  verifyConversation (H := checksumSha256) (H0 := toyEd25519) (H1 := isoCalendar) MessagingSample.conversation 2000 = Ok tt /\
  truthy (getOpt MessagingSample.person MessagingSample.conversation.["participants"]) = false /\
  MessagingSample.selfGrant.["payload"].["issuerPersonId"] = Str MessagingSample.person /\
  MessagingSample.selfGrant.["payload"].["memberPersonId"] = Str MessagingSample.person /\
  addConversationParticipant (H := checksumSha256) (H0 := toyEd25519) (H2 := plainAutomerge) MessagingSample.conversation
    MessagingSample.participant MessagingSample.selfGrant = Ok MessagingSample.joined /\
  verifyConversation (H := checksumSha256) (H0 := toyEd25519) (H1 := isoCalendar) MessagingSample.joined 2000 = Ok tt.
Proof. split_and!; vm_compute; reflexivity. Qed.

(** C31. What a verified conversation holds is signed: each participant stands
    under their own id and is the creator, or has a grant for this conversation
    signed by a device of a participant who is the creator or an admin; each message
    stands under its own id, is for this conversation and is signed by a device
    of the participant it names as author. *)
Theorem conversation_authentic `{Sha256} `{Ed25519} `{Calendar} doc now :
  verifyConversation doc now = Ok tt ->
  (memberOf doc.["participants"] doc.["creatorPersonId"]).["grant"] = Null /\
  (forall person participant, (person, participant) ∈ entries doc.["participants"] ->
    participant.["identity"].["personId"] = Str person /\ (doc.["creatorPersonId"] = Str person \/ granted doc participant)) /\
  (forall id message, (id, message) ∈ entries doc.["messages"] ->
    message.["payload"].["messageId"] = Str id /\ posted doc message).
Proof.
  unfold verifyConversation. guard_passed as Hshape. intros (title & _ & Hr)%bind_ok. revert Hr. guard_passed as Htitle.
  intros ([] & Hcreator & Hr)%bind_ok. apply bind_ok in Hr as ([] & Hp & Hm).
  pose proof (proj1 (foldR_all _ _) Hp) as Hps. pose proof (proj1 (foldR_all _ _) Hm) as Hms. clear Hp Hm. split_and!.
  - unfold verifyCreator in Hcreator. revert Hcreator. guard_passed as Hg. bool_to_prop. intros _.
    by destruct (memberOf _ _).["grant"].
  - intros person participant Hin. specialize (Hps _ Hin). unfold verifyParticipant in Hps. cbn [fst snd] in Hps.
    apply bind_ok in Hps as (identity & <-%get_ok & Hps). apply bind_ok in Hps as (id & <-%get_ok & Hps). revert Hps.
    guard_passed as Hid. rewrite negb_false_iff, isStr_true in Hid. split; [done|].
    destruct (isStr person doc.["creatorPersonId"]) eqn:Hc; [left; by apply isStr_true|right]. by apply verifyGrant_granted.
  - intros id message Hin. specialize (Hms _ Hin). unfold verifyMessageEntry in Hms. cbn [fst snd] in Hms.
    apply bind_ok in Hms as (payload & <-%get_ok & Hms). apply bind_ok in Hms as (mid & <-%get_ok & Hms). revert Hms.
    guard_passed as Hid. rewrite negb_false_iff, isStr_true in Hid. split; [done|]. by eapply verifyMessage_posted.
Qed.

Lemma conversation_authentic_witness :
  verifyConversation (H := checksumSha256) (H0 := toyEd25519) (H1 := isoCalendar) MessagingSample.posted_conversation 2000 = Ok tt /\
  posted (H := checksumSha256) (H0 := toyEd25519) MessagingSample.posted_conversation MessagingSample.message.
Proof.
  assert (verifyConversation (H := checksumSha256) (H0 := toyEd25519) (H1 := isoCalendar) MessagingSample.posted_conversation 2000 = Ok tt)
    as Hv by (vm_compute; reflexivity).
  split; [exact Hv|]. destruct (conversation_authentic (H := checksumSha256) (H0 := toyEd25519) (H1 := isoCalendar) _ _ Hv) as (_ & _ & Hm).
  destruct (Hm (js "m1") MessagingSample.message) as [_ Hp]; [|exact Hp]. apply list_elem_of_singleton. reflexivity.
Defined.
