(* ===== verification/Calling.v ===== *)
(** * Calls

    [packages/mesh-calling/src/index.ts]: the state of a call on one device,
    and the signed signals that carry offers, answers and candidates between
    the members of a room. *)
From stdpp Require Import base numbers list sorting strings.
From Stdlib Require Import ZArith NArith Lia.
From S2P Require Import Prelude Unicode Json Js Base64 Digest Dates Envelope Certificates ProfileValue Profile Recovery Records.
From S2P Require Import Contact Blob Messaging.
Local Open Scope js_scope.

Definition CALL_SIGNATURE_DOMAIN : list N := js "MESH-CALLING/1".

(** ** The session *)
Inductive CallMedia := Audio | Video.
Inductive CallSessionState := Idle | Calling | Ringing | Connecting | Active | Failed.

#[export] Instance CallSessionState_eq_dec : EqDecision CallSessionState.
Proof. solve_decision. Defined.
#[export] Instance CallMedia_eq_dec : EqDecision CallMedia.
Proof. solve_decision. Defined.

Record CallSessionSnapshot := mkSnapshot {
  state : CallSessionState; callId : list N; peerId : list N; media : CallMedia; error : list N;
  microphoneMuted : bool; cameraDisabled : bool }.

Definition newSession : CallSessionSnapshot := mkSnapshot Idle [] [] Audio [] false false.

Definition Session : Type -> Type := M CallSessionSnapshot.

(** [this.snapshot()] *)
Definition snapshot : Session CallSessionSnapshot := getM.
Definition put (s : CallSessionSnapshot) : Session CallSessionSnapshot := modifyM (fun _ => s);; snapshot.
Definition setState (s : CallSessionState) (v : CallSessionSnapshot) : CallSessionSnapshot :=
  mkSnapshot s (callId v) (peerId v) (media v) (error v) (microphoneMuted v) (cameraDisabled v).

(** The media of a call is one of the two by its type; a missing one arrives as [None]. *)
Definition assertStart (call peer : list N) (kind : option CallMedia) : Session CallMedia :=
  v ← getM;
  requireM (bool_decide (state v = Idle)) "Call session is busy";;
  match kind with
  | Some kind => requireM (negb (length call =? 0)%nat && negb (length peer =? 0)%nat) "Invalid call session";; mret kind
  | None => throwM "Invalid call session"
  end.

Definition start (call peer : list N) (kind : option CallMedia) : Session CallSessionSnapshot :=
  kind ← assertStart call peer kind; put (mkSnapshot Calling call peer kind [] false false).
Definition ring (call peer : list N) (kind : option CallMedia) : Session CallSessionSnapshot :=
  kind ← assertStart call peer kind; put (mkSnapshot Ringing call peer kind [] false false).

Definition connecting : Session CallSessionSnapshot :=
  v ← getM;
  requireM (bool_decide (state v ∈ [Calling; Ringing; Connecting])) "Call session cannot connect";;
  put (setState Connecting v).

Definition connected : Session CallSessionSnapshot :=
  v ← getM;
  requireM (bool_decide (state v ∈ [Calling; Connecting; Active])) "Call session cannot become active";;
  put (setState Active v).

Definition fail (message : list N) : Session CallSessionSnapshot :=
  v ← getM;
  requireM (negb (bool_decide (state v = Idle))) "No call session";;
  put (mkSnapshot Failed (callId v) (peerId v) (media v)
    (if (length message =? 0)%nat then js "Call failed" else message) (microphoneMuted v) (cameraDisabled v)).

Definition setMicrophoneMuted (muted : bool) : Session CallSessionSnapshot :=
  v ← getM;
  requireM (negb (bool_decide (state v = Idle))) "No call session";;
  put (mkSnapshot (state v) (callId v) (peerId v) (media v) (error v) muted (cameraDisabled v)).

Definition setCameraDisabled (disabled : bool) : Session CallSessionSnapshot :=
  v ← getM;
  requireM (negb (bool_decide (state v = Idle)) && bool_decide (media v = Video)) "No video call session";;
  put (mkSnapshot (state v) (callId v) (peerId v) (media v) (error v) (microphoneMuted v) disabled).

(** [end] *)
Definition endCall : Session CallSessionSnapshot := put newSession.

(** The calls a user of a session makes. *)
Inductive Operation :=
| Start (call peer : list N) (kind : option CallMedia) | Ring (call peer : list N) (kind : option CallMedia)
| Connect | Connected | Fail_ (message : list N) | Mute (muted : bool) | Camera (disabled : bool) | End_.

Definition perform (operation : Operation) : Session CallSessionSnapshot :=
  match operation with
  | Start call peer kind => start call peer kind
  | Ring call peer kind => ring call peer kind
  | Connect => connecting
  | Connected => connected
  | Fail_ message => fail message
  | Mute muted => setMicrophoneMuted muted
  | Camera disabled => setCameraDisabled disabled
  | End_ => endCall
  end.

(** One call on a session, whether it returns or throws. *)
Inductive step : CallSessionSnapshot -> Operation -> CallSessionSnapshot -> Prop :=
| stepped s operation r s' : perform operation s = (r, s') -> step s operation s'.

Inductive reachable : CallSessionSnapshot -> Prop :=
| reachable_new : reachable newSession
| reachable_step s operation s' : reachable s -> step s operation s' -> reachable s'.

(** ** Signals *)
Section Signals.
Context `{Sha256} `{Ed25519} `{Calendar}.

Definition signal_payload (signalKind call room kind sender device target data : list N) (createdAt : value) : value :=
  Obj [(js "kind", Str (js "call-signal")); (js "version", Num (Int 1)); (js "signalKind", Str signalKind);
       (js "callId", Str call); (js "roomId", Str room); (js "media", Str kind); (js "senderPersonId", Str sender);
       (js "senderDeviceId", Str device); (js "targetPersonId", Str target); (js "data", Str data); (js "createdAt", createdAt)].

Definition createCallSignal (profile : LocalProfile) (signalKind call room kind target data : list N) (now : Z) : result value :=
  createdAt ← stamp now;
  if (length call =? 0)%nat || (length room =? 0)%nat || (length target =? 0)%nat || (128000 <? Z.of_nat (length data))%Z
  then Throw "Invalid call signal" else
  signEnvelope (local_deviceKey profile)
    (signal_payload signalKind call room kind (personId (local_identity profile)) (local_deviceId profile) target data createdAt)
    (local_deviceId profile) CALL_SIGNATURE_DOMAIN.

Definition verifyCallSignal (signal room : value) (recipientPersonId : list N) (now : Z) : result value :=
  let payload := signal.["payload"] in
  if negb (truthy payload) || negb (isStr (js "call-signal") payload.["kind"]) || negb (isInt 1 payload.["version"]) ||
     negb (oneOf ["offer"; "answer"; "ice"; "reject"; "end"] payload.["signalKind"]) ||
     negb (oneOf ["audio"; "video"] payload.["media"]) || negb (strictEqual payload.["roomId"] room.["conversationId"]) ||
     negb (isStr recipientPersonId payload.["targetPersonId"]) ||
     negb (strictEqual payload.["senderDeviceId"] signal.["signerKeyId"]) || negb (truthy payload.["callId"])
  then Throw "Invalid call signal" else
  long ← lengthOver 128000 payload.["data"];
  if (long : bool) then Throw "Invalid call signal" else
  match parseDate (toText payload.["createdAt"]) with
  | None => Throw "Expired call signal"
  | Some timestamp =>
      if (5 * 60 * 1000 <? Z.abs (now - timestamp))%Z then Throw "Expired call signal" else
      participants ← get (js "participants") room;
      let participant := memberOf participants payload.["senderPersonId"] in
      if negb (truthy participant) || negb (truthy (getOpt recipientPersonId participants))
      then Throw "Caller is not a room member" else
      verifySigned participant.["identity"] payload.["senderDeviceId"] participant.["certificates"] signal CALL_SIGNATURE_DOMAIN
        "Invalid call signature";;
      Ok signal
  end.
End Signals.

(** ** The life of a session *)

(** A session is idle and blank, or about one call with one peer; only a
    failed call has an error, and only a video call a camera to disable. *)
Definition session_ok (s : CallSessionSnapshot) : Prop :=
  (state s = Idle -> s = newSession) /\
  (state s <> Idle -> callId s <> [] /\ peerId s <> []) /\
  (state s = Failed <-> error s <> []) /\ (media s = Audio -> cameraDisabled s = false).

(** How an operation that returns may change the state. *)
Definition allowed (before : CallSessionState) (operation : Operation) (after : CallSessionState) : Prop :=
  match operation with
  | Start _ _ _ => before = Idle /\ after = Calling
  | Ring _ _ _ => before = Idle /\ after = Ringing
  | Connect => before ∈ [Calling; Ringing; Connecting] /\ after = Connecting
  | Connected => before ∈ [Calling; Connecting; Active] /\ after = Active
  | Fail_ _ => before <> Idle /\ after = Failed
  | Mute _ | Camera _ => before <> Idle /\ after = before
  | End_ => after = Idle
  end.

Ltac run_session :=
  unfold start, ring, assertStart, connecting, connected, fail, setMicrophoneMuted, setCameraDisabled, endCall, put, snapshot, getM, modifyM,
    requireM, require, liftM, throwM, mbind, M_bind, mret, M_ret;
  repeat (case_bool_decide || case_match); intros [= <- <-]; simplify_eq/=; try done.

Lemma perform_cases operation s r s' : perform operation s = (r, s') ->
  match r with
  | Ok snap => snap = s' /\ allowed (state s) operation (state s') /\
      (state s <> Idle -> state s' <> Idle -> callId s' = callId s /\ peerId s' = peerId s /\ media s' = media s)
  | Throw _ => s' = s
  end.
Proof.
  destruct operation as [call peer kind|call peer kind| | |message|muted|disabled|]; cbn [perform];
    run_session; bool_to_prop; cbn in *;
    try (split_and!; done); repeat case_bool_decide; try done; split_and!; try done; try naive_solver; destruct s; cbn in *; congruence.
Qed.

Lemma nonempty {A} (l : list A) : (length l =? 0)%nat = false -> l <> [].
Proof. by destruct l. Qed.

Lemma session_kept operation s r s' : session_ok s -> perform operation s = (r, s') -> session_ok s'.
Proof.
  intros (Hidle & Hcall & Hfail & Hcamera).
  assert (forall l : list CallSessionState, state s ∈ l -> ~ Idle ∈ l -> ~ Failed ∈ l -> (callId s <> [] /\ peerId s <> []) /\ ~ error s <> []) as Hlive.
  { intros l Hin Hi Hf. rewrite <-Hfail. split; [apply Hcall; by intros He; rewrite He in Hin|by intros He; rewrite He in Hin]. }
  destruct operation as [call peer kind|call peer kind| | |message|muted|disabled|]; cbn [perform]; run_session; bool_to_prop;
    unfold session_ok; cbn; try match goal with Hin : state s ∈ ?l |- _ => destruct (Hlive l Hin) as [Hids He]; [by apply (bool_decide_eq_false_1 _)..|] end.
  - by split_and!; [|intros _; split; apply nonempty| |].
  - by split_and!; [|intros _; split; apply nonempty| |].
  - by split_and!.
  - by split_and!.
  - by split_and!; [|intros _; apply Hcall| |].
  - split_and!; [done|intros _; by apply Hcall| |done]. split; [intros _; by apply nonempty|done].
  - split_and!; [done|done|done|congruence].
Qed.

Lemma reachable_ok s : reachable s -> session_ok s.
Proof.
  induction 1 as [|s operation s' _ IH Hstep].
  - unfold session_ok, newSession. cbn. by split_and!.
  - inversion Hstep as [s1 o r s2 Hp]; subst. exact (session_kept _ _ _ _ IH Hp).
Qed.

Lemma signal_authentic `{Sha256} `{Ed25519} `{Calendar} signal room recipient now out :
  verifyCallSignal signal room recipient now = Ok out ->
  let participant := memberOf room.["participants"] signal.["payload"].["senderPersonId"] in
  out = signal /\ strictEqual signal.["payload"].["roomId"] room.["conversationId"] = true /\
  signal.["payload"].["targetPersonId"] = Str recipient /\ truthy participant = true /\
  truthy (getOpt recipient room.["participants"]) = true /\
  authentic participant.["identity"] signal.["payload"].["senderDeviceId"] (items participant.["certificates"]) signal CALL_SIGNATURE_DOMAIN.
Proof.
  unfold verifyCallSignal. cbv zeta. guard_passed as Hshape. intros (long & _ & Hr)%bind_ok. destruct long; [done|].
  destruct (parseDate _) as [t|]; [|done]. revert Hr. guard_passed as Ht. intros (participants & <-%get_ok & Hr)%bind_ok. revert Hr.
  guard_passed as Hm. intros ([] & Hs & [= <-])%bind_ok. bool_to_prop. apply verifySigned_authentic in Hs.
  match goal with Ht : isStr recipient _ = true |- _ => apply isStr_true in Ht end. done.
Qed.

(** C34. A call session is about one call at a time: in every state a session can
    reach it is idle and blank, or has a call and a peer; it shows an error
    exactly when the call failed; an operation that throws changes nothing; one
    that returns shows the new state, moves as the call protocol allows, and changes
    the call, the peer or the media only between idle and a call. *)
Theorem call_session_lifecycle s :
  reachable s -> session_ok s /\
  forall operation r s', perform operation s = (r, s') ->
    match r with
    | Ok snap => snap = s' /\ allowed (state s) operation (state s') /\
        (state s <> Idle -> state s' <> Idle -> callId s' = callId s /\ peerId s' = peerId s /\ media s' = media s)
    | Throw _ => s' = s
    end.
Proof. intros Hr. split; [by apply reachable_ok|]. intros operation r s'. apply perform_cases. Qed.

Lemma call_session_lifecycle_witness :
  session_ok (mkSnapshot Active (js "call") (js "peer") Video [] false false).
Proof.
  assert (reachable (mkSnapshot Active (js "call") (js "peer") Video [] false false)) as Hr.
  { apply (reachable_step (mkSnapshot Calling (js "call") (js "peer") Video [] false false) Connected);
      [apply (reachable_step newSession (Start (js "call") (js "peer") (Some Video))); [apply reachable_new|]|]; by eapply stepped. }
  exact (proj1 (call_session_lifecycle _ Hr)).
Defined.
