(* ===== verification/ReadBudget.v ===== *)
(** * Ingress read budget

    Models [packages/mesh-transport/src/readBudget.ts]: the budget of bytes and
    payload frames that all reads of one peer share, the leases the reads hold
    and the queue of reads that wait for capacity.  Lease objects live in a
    heap ([b_heap]): a lease that was released keeps its last reservation, as
    the JavaScript object does.  A promise is named by a number; what an
    operation does to pending promises is the list of [Settlement]s it
    returns. *)
From stdpp Require Import base numbers list gmap strings.
From Stdlib Require Import ZArith Lia.
From S2P Require Import Prelude.
Local Open Scope Z_scope.


(** ** Data *)
Record Limits := mkLimits {
  lim_bytes : Z; lim_frames : Z; lim_headers : Z; lim_deadlineMs : Z }.

Record Reservation := mkReservation { res_bytes : Z; res_payload : bool }.

Record ReadLease := mkLease { lease_staged : bool; lease_reservation : Reservation }.

Record Waiter := mkWaiter {
  w_promise : nat; w_lease : nat; w_target : Reservation; w_timeoutMs : Z }.

Record MeshReadBudget := mkBudget {
  b_lastUsed : Z;
  b_bytes : Z;
  b_frames : Z;
  b_leases : list nat;
  b_waiting : list Waiter;
  b_heap : gmap nat ReadLease;
  b_next : nat }.

Inductive Settlement :=
| Resolved (promise : nat)
| Rejected (promise : nat) (message : string).

Inductive Reply :=
| ReplyResolved
| ReplyRejected (message : string)
| ReplyPending (promise : nat).

Definition emptyReservation : Reservation := mkReservation 0 false.

Definition newBudget (now : Z) : MeshReadBudget := mkBudget now 0 0 [] [] ∅ 0.

(** The field [lease.reservation] and [lease.staged] of a lease object. *)
Definition reservation (b : MeshReadBudget) (lease : nat) : Reservation :=
  match b_heap b !! lease with
  | Some object => lease_reservation object
  | None => emptyReservation
  end.

Definition staged (b : MeshReadBudget) (lease : nat) : bool :=
  match b_heap b !! lease with
  | Some object => lease_staged object
  | None => false
  end.

Section Operations.
Context (limits : Limits).

Definition idle (b : MeshReadBudget) : bool :=
  bool_decide (length (b_leases b) = 0%nat).

Definition sameKind (b : MeshReadBudget) (kind : bool) : list nat :=
  List.filter (fun lease => Bool.eqb (staged b lease) kind) (b_leases b).

Definition create (kind : bool) (b : MeshReadBudget) : result (nat * MeshReadBudget) :=
  if (if kind then lim_headers limits else lim_frames limits * 2)
       <=? Z.of_nat (length (sameKind b kind))
  then Throw "Mesh stream concurrency limit exceeded"
  else
    let lease := b_next b in
    Ok (lease, mkBudget (b_lastUsed b) (b_bytes b) (b_frames b)
                 (b_leases b ++ [lease]) (b_waiting b)
                 (<[lease := mkLease kind emptyReservation]> (b_heap b))
                 (S lease)).

Definition available (b : MeshReadBudget) (lease : nat) (target : Reservation) : bool :=
  (b_bytes b - res_bytes (reservation b lease) + res_bytes target <=? lim_bytes limits) &&
  (b_frames b - Number_of_bool (res_payload (reservation b lease))
     + Number_of_bool (res_payload target) <=? lim_frames limits).

Definition set_reservation (lease : nat) (target : Reservation)
    (heap : gmap nat ReadLease) : gmap nat ReadLease :=
  alter (fun object => mkLease (lease_staged object) target) lease heap.

Definition assign (now : Z) (lease : nat) (target : Reservation)
    (b : MeshReadBudget) : MeshReadBudget :=
  mkBudget now
    (b_bytes b + (res_bytes target - res_bytes (reservation b lease)))
    (b_frames b + (Number_of_bool (res_payload target)
                   - Number_of_bool (res_payload (reservation b lease))))
    (b_leases b) (b_waiting b)
    (set_reservation lease target (b_heap b)) (b_next b).

Definition with_waiting (waiting : list Waiter) (b : MeshReadBudget) : MeshReadBudget :=
  mkBudget (b_lastUsed b) (b_bytes b) (b_frames b) (b_leases b) waiting
    (b_heap b) (b_next b).

Definition request (now : Z) (lease : nat) (target : Reservation)
    (b : MeshReadBudget) : Reply * MeshReadBudget :=
  if negb (bool_decide (lease ∈ b_leases b))
  then (ReplyRejected "Mesh stream read was cancelled", b)
  else if lim_bytes limits <? res_bytes target
  then (ReplyRejected "Mesh frame exceeds peer read budget", b)
  else if available b lease target
  then (ReplyResolved, assign now lease target b)
  else
    let promise := b_next b in
    let waiter := mkWaiter promise lease target (lim_deadlineMs limits * 2) in
    (ReplyPending promise,
     mkBudget (b_lastUsed b) (b_bytes b) (b_frames b) (b_leases b)
       (b_waiting b ++ [waiter]) (b_heap b) (S promise)).

(** [for (let index = this.waiting.length - 1; index >= 0; index--)]: the
    argument [n] is [index + 1]. *)
Fixpoint cancel_loop (lease : nat) (error : string) (n : nat)
    (waiting : list Waiter) (out : list Settlement) : list Waiter * list Settlement :=
  match n with
  | O => (waiting, out)
  | S index =>
      match waiting !! index with
      | None => (waiting, out)
      | Some waiter =>
          if negb (bool_decide (w_lease waiter = lease))
          then cancel_loop lease error index waiting out
          else cancel_loop lease error index (delete index waiting)
                 (out ++ [Rejected (w_promise waiter) error])
      end
  end.

Definition cancel (lease : nat) (error : string) (b : MeshReadBudget)
    : list Settlement * MeshReadBudget :=
  let '(waiting, out) := cancel_loop lease error (length (b_waiting b)) (b_waiting b) [] in
  (out, with_waiting waiting b).

(** [for (let index = 0; index < this.waiting.length;)]; every turn either
    advances [index] or removes a waiter, so [length waiting] turns are
    enough. *)
Fixpoint release_loop (now : Z) (fuel index : nat) (b : MeshReadBudget)
    (out : list Settlement) : list Settlement * MeshReadBudget :=
  match fuel with
  | O => (out, b)
  | S fuel =>
      match b_waiting b !! index with
      | None => (out, b)
      | Some waiter =>
          if negb (available b (w_lease waiter) (w_target waiter))
          then release_loop now fuel (S index) b out
          else
            release_loop now fuel index
              (assign now (w_lease waiter) (w_target waiter)
                 (with_waiting (delete index (b_waiting b)) b))
              (out ++ [Resolved (w_promise waiter)])
      end
  end.

Definition release (now : Z) (lease : nat) (b : MeshReadBudget)
    : list Settlement * MeshReadBudget :=
  if negb (bool_decide (lease ∈ b_leases b)) then ([], b)
  else
    let b1 := mkBudget (b_lastUsed b) (b_bytes b) (b_frames b)
                (List.filter (fun l => negb (bool_decide (l = lease))) (b_leases b))
                (b_waiting b) (b_heap b) (b_next b) in
    let '(out, b2) := cancel lease "Mesh stream read was cancelled" b1 in
    let b3 := mkBudget now
                (b_bytes b2 - res_bytes (reservation b2 lease))
                (b_frames b2 - Number_of_bool (res_payload (reservation b2 lease)))
                (b_leases b2) (b_waiting b2) (b_heap b2) (b_next b2) in
    release_loop now (length (b_waiting b3)) 0 b3 out.

(** The methods of [ReadLease]. *)
Definition lease_reserve (now : Z) (lease : nat) (bytes : Z) (payload : bool)
    (b : MeshReadBudget) : Reply * MeshReadBudget :=
  request now lease (mkReservation bytes payload) b.
Definition lease_cancel := cancel.
Definition lease_release := release.

End Operations.

(** ** What holds of every reachable budget *)
Section Invariant.
Context (limits : Limits).

Definition total_bytes (b : MeshReadBudget) : Z :=
  sumZ (map (fun l => res_bytes (reservation b l)) (b_leases b)).
Definition total_frames (b : MeshReadBudget) : Z :=
  sumZ (map (fun l => Number_of_bool (res_payload (reservation b l))) (b_leases b)).

Record wf (b : MeshReadBudget) : Prop := {
  wf_nodup : NoDup (b_leases b);
  wf_heap : forall l, l ∈ b_leases b -> is_Some (b_heap b !! l);
  wf_fresh : forall l, is_Some (b_heap b !! l) -> (l < b_next b)%nat;
  wf_bytes : b_bytes b = total_bytes b;
  wf_frames : b_frames b = total_frames b;
  wf_nonneg : forall l, 0 <= res_bytes (reservation b l);
  wf_bytes_le : b_bytes b <= lim_bytes limits;
  wf_frames_le : b_frames b <= lim_frames limits;
  wf_waiting : Forall (fun w => w_lease w ∈ b_leases b /\
                 0 <= res_bytes (w_target w) <= lim_bytes limits) (b_waiting b);
  wf_headers : Z.of_nat (length (sameKind b true)) <= lim_headers limits;
  wf_unstaged : Z.of_nat (length (sameKind b false)) <= lim_frames limits * 2 }.

(** [upgrade old new]: the lease asks for at least what it already holds. *)
Definition upgrade (old new : Reservation) : Prop :=
  res_bytes old <= res_bytes new /\ (res_payload old = true -> res_payload new = true).

(** Every queued request asks for at least what its lease holds, and none of
    them could be granted now. *)
Definition upgrades_only (b : MeshReadBudget) : Prop :=
  Forall (fun w => upgrade (reservation b (w_lease w)) (w_target w)) (b_waiting b).
Definition work_conserving (b : MeshReadBudget) : Prop :=
  Forall (fun w => available limits b (w_lease w) (w_target w) = false) (b_waiting b).

(** The transitions of a budget: what a connection may call, and the timer of
    a queued request.  [allowed] restricts which reservations are asked for. *)
Inductive step (allowed : MeshReadBudget -> nat -> Reservation -> Prop)
    : MeshReadBudget -> MeshReadBudget -> Prop :=
| step_create kind lease b b' :
    create limits kind b = Ok (lease, b') -> step allowed b b'
| step_request now lease bytes payload b :
    allowed b lease (mkReservation bytes payload) ->
    step allowed b (snd (lease_reserve limits now lease bytes payload b))
| step_cancel lease error b : step allowed b (snd (lease_cancel lease error b))
| step_deadline waiter b :
    waiter ∈ b_waiting b ->
    step allowed b (snd (cancel (w_lease waiter)
      "Mesh stream read deadline exceeded while queued: stage=stream" b))
| step_release now lease b : step allowed b (snd (lease_release limits now lease b)).

(** Any non-negative reservation. *)
Definition any_request (b : MeshReadBudget) (lease : nat) (target : Reservation) : Prop :=
  0 <= res_bytes target.

(** The requests of [meshNetworkConnection]: a lease has one outstanding request
    at a time, and a request never gives back part of what the lease holds. *)
Definition ordered_request (b : MeshReadBudget) (lease : nat) (target : Reservation) : Prop :=
  0 <= res_bytes target /\ upgrade (reservation b lease) target /\
  Forall (fun w => w_lease w <> lease) (b_waiting b).

(** *** Reading a reservation after an update *)
Lemma reservation_assign now l t b l' :
  is_Some (b_heap b !! l) ->
  reservation (assign now l t b) l' = if decide (l = l') then t else reservation b l'.
Proof.
  intros [x Hx]. unfold reservation, assign, set_reservation; cbn.
  destruct (decide (l = l')) as [->|].
  - by rewrite lookup_alter_eq, Hx.
  - by rewrite lookup_alter_ne.
Qed.

Lemma staged_assign now l t b l' : staged (assign now l t b) l' = staged b l'.
Proof.
  unfold staged, assign, set_reservation; cbn.
  destruct (decide (l = l')) as [->|]; [rewrite lookup_alter_eq|by rewrite lookup_alter_ne].
  by destruct (b_heap b !! l').
Qed.

Lemma heap_assign now l t b l' :
  is_Some (b_heap (assign now l t b) !! l') <-> is_Some (b_heap b !! l').
Proof.
  unfold assign, set_reservation; cbn.
  destruct (decide (l = l')) as [->|]; [rewrite lookup_alter_eq|by rewrite lookup_alter_ne].
  destruct (b_heap b !! l'); cbn; split; intros []; (done || eauto).
Qed.

Lemma sameKind_ext b b' kind :
  b_leases b' = b_leases b -> (forall l, staged b' l = staged b l) ->
  sameKind b' kind = sameKind b kind.
Proof.
  intros Hl Hs. unfold sameKind. rewrite Hl. apply filter_ext. intros l. by rewrite Hs.
Qed.

(** Granting an available request keeps the invariant. *)
Lemma wf_assign now l t b :
  wf b -> l ∈ b_leases b -> 0 <= res_bytes t -> available limits b l t = true ->
  wf (assign now l t b).
Proof.
  intros Hwf Hl Ht [Hb Hf]%andb_true_iff.
  assert (Hs : is_Some (b_heap b !! l)) by by apply wf_heap.
  assert (Hres := reservation_assign now l t b).
  assert (Hb' : total_bytes (assign now l t b)
                = total_bytes b + (res_bytes t - res_bytes (reservation b l))).
  { unfold total_bytes; cbn. rewrite (sumZ_map_update (fun l => res_bytes (reservation b l))
      (fun l' => res_bytes (reservation (assign now l t b) l')) l); try apply Hwf; try done.
    - rewrite Hres, decide_True by done. lia.
    - intros y _ Hy. by rewrite Hres, decide_False by done. }
  assert (Hf' : total_frames (assign now l t b)
                = total_frames b + (Number_of_bool (res_payload t)
                                    - Number_of_bool (res_payload (reservation b l)))).
  { unfold total_frames; cbn.
    rewrite (sumZ_map_update (fun l => Number_of_bool (res_payload (reservation b l)))
      (fun l' => Number_of_bool (res_payload (reservation (assign now l t b) l'))) l);
      try apply Hwf; try done.
    - rewrite Hres, decide_True by done. lia.
    - intros y _ Hy. by rewrite Hres, decide_False by done. }
  destruct Hwf; split; try done; rewrite ?Hb', ?Hf'; try (cbn; lia).
  - intros k Hk. apply heap_assign; eauto.
  - intros k Hk. by apply wf_fresh0, (heap_assign now l t).
  - intros k. rewrite Hres by done. case_decide; auto.
  - by rewrite (sameKind_ext b) by (done || apply staged_assign).
  - by rewrite (sameKind_ext b) by (done || apply staged_assign).
Qed.

(** Removing waiters keeps the invariant. *)
Lemma wf_with_waiting ws b :
  wf b -> (forall w, w ∈ ws -> w ∈ b_waiting b) -> wf (with_waiting ws b).
Proof.
  intros [] Hws. split; try done; cbn.
  apply Forall_forall. intros w Hw. eapply Forall_forall in wf_waiting0; eauto.
Qed.

(** *** [cancel] against its specification *)
Lemma cancel_loop_spec lease error n ws out :
  (n <= length ws)%nat ->
  cancel_loop lease error n ws out =
    (List.filter (fun w => negb (bool_decide (w_lease w = lease))) (take n ws) ++ drop n ws,
     out ++ map (fun w => Rejected (w_promise w) error)
              (reverse (List.filter (fun w => bool_decide (w_lease w = lease)) (take n ws)))).
Proof.
  revert ws out. induction n as [|n IH]; intros ws out Hn; cbn.
  { by rewrite drop_0, take_0, app_nil_r. }
  destruct (lookup_lt_is_Some_2 ws n) as [w Hw]; [lia|]. rewrite Hw.
  rewrite (take_S_r ws n w Hw), !lfilter_app; cbn.
  case_bool_decide as Hd; cbn.
  - rewrite IH by (rewrite length_delete; [lia|eauto]).
    rewrite delete_take_drop, take_app_le, drop_app_ge by (rewrite length_take; lia).
    rewrite take_take, Nat.min_id, length_take, Nat.min_l by lia.
    replace (n - n)%nat with 0%nat by lia. rewrite drop_0, app_nil_r.
    by rewrite reverse_app, <- app_assoc.
  - rewrite IH by lia. rewrite <- app_assoc, app_nil_r; cbn. by rewrite drop_S with (x := w).
Qed.

Lemma cancel_spec lease error b :
  cancel lease error b =
    (map (fun w => Rejected (w_promise w) error)
       (reverse (List.filter (fun w => bool_decide (w_lease w = lease)) (b_waiting b))),
     with_waiting (List.filter (fun w => negb (bool_decide (w_lease w = lease))) (b_waiting b)) b).
Proof.
  unfold cancel. rewrite cancel_loop_spec by done.
  by rewrite drop_all, firstn_all, app_nil_r.
Qed.

Lemma wf_cancel lease error b : wf b -> wf (snd (cancel lease error b)).
Proof.
  intros Hwf. rewrite cancel_spec; cbn. apply wf_with_waiting; [done|].
  intros w [? _]%elem_of_lfilter. done.
Qed.

Lemma wf_create kind lease b b' :
  wf b -> create limits kind b = Ok (lease, b') -> wf b'.
Proof.
  unfold create. intros Hwf H. case_match eqn:Hlim; [done|]. injection H as <- <-.
  apply Z.leb_gt in Hlim.
  assert (Hfresh : b_heap b !! b_next b = None).
  { destruct (b_heap b !! b_next b) eqn:E; [|done].
    assert (b_next b < b_next b)%nat; [|lia]. apply Hwf. eauto. }
  assert (Hnew : b_next b ∉ b_leases b).
  { intros Hin. apply (wf_heap _ Hwf) in Hin as [? ?]. congruence. }
  set (b' := mkBudget _ _ _ _ _ _ _).
  assert (Hres : forall l, reservation b' l = reservation b l).
  { intros l. unfold reservation, b'; cbn. destruct (decide (b_next b = l)) as [<-|];
      [by rewrite lookup_insert_eq, Hfresh|by rewrite lookup_insert_ne]. }
  assert (Hst : forall l, l ∈ b_leases b -> staged b' l = staged b l).
  { intros l Hl. unfold staged, b'; cbn. rewrite lookup_insert_ne; [done|]. congruence. }
  assert (Hnew' : staged b' (b_next b) = kind).
  { unfold staged, b'; cbn. by rewrite lookup_insert_eq. }
  assert (Hkind : forall k, length (sameKind b' k) =
            (length (sameKind b k) + if Bool.eqb kind k then 1 else 0)%nat).
  { intros k. unfold sameKind at 1. cbn [b_leases b']. rewrite lfilter_app, length_app.
    cbn [List.filter]. rewrite Hnew'. f_equal; [|by destruct (Bool.eqb kind k)].
    unfold sameKind. f_equal. apply filter_ext_in. intros l Hl%list_elem_of_In. by rewrite Hst. }
  assert (Hsum : forall g : Reservation -> Z, g emptyReservation = 0 ->
      sumZ (map (fun l => g (reservation b' l)) (b_leases b'))
      = sumZ (map (fun l => g (reservation b l)) (b_leases b))).
  { intros g Hg. cbn [b_leases b']. rewrite map_app, sumZ_app; cbn [map sumZ].
    rewrite (sumZ_map_ext _ (fun l => g (reservation b l))) by (intros; by rewrite Hres).
    rewrite Hres. unfold reservation. rewrite Hfresh, Hg. lia. }
  destruct Hwf; split; try done.
  - apply NoDup_app. split; [done|]. split; [set_solver|]. apply NoDup_singleton.
  - cbn. intros l [Hl| ->%list_elem_of_singleton]%elem_of_app; [|rewrite lookup_insert_eq; eauto].
    rewrite lookup_insert_ne; [auto|]. congruence.
  - cbn. intros l. destruct (decide (b_next b = l)) as [<-|]; [lia|].
    rewrite lookup_insert_ne by done. intros Hl. apply wf_fresh0 in Hl. lia.
  - unfold total_bytes. by rewrite (Hsum res_bytes).
  - unfold total_frames. by rewrite (Hsum (fun r => Number_of_bool (res_payload r))).
  - intros l. by rewrite Hres.
  - eapply Forall_impl; [done|]. intros w [? ?]. cbn. split; [set_solver|done].
  - rewrite Hkind. destruct kind; cbn; lia.
  - rewrite Hkind. destruct kind; cbn; lia.
Qed.

Lemma wf_request now lease target b :
  wf b -> 0 <= res_bytes target -> wf (snd (request limits now lease target b)).
Proof.
  intros Hwf Ht. unfold request.
  case_match eqn:E1; [done|]. case_match eqn:E2; [done|]. case_match eqn:E3; cbn.
  all: apply negb_false_iff, bool_decide_eq_true in E1.
  - by apply wf_assign.
  - apply Z.ltb_ge in E2. destruct Hwf; split; try done; cbn.
    + intros l Hl%wf_fresh0. lia.
    + apply Forall_app; split; [done|]. by repeat constructor; cbn.
Qed.

Lemma wf_release_loop now fuel : forall index b out,
  wf b -> wf (snd (release_loop limits now fuel index b out)).
Proof.
  induction fuel as [|fuel IH]; intros index b out Hwf; [done|]. cbn [release_loop].
  case_match eqn:E; [|done]. case_match eqn:E2; [by apply IH|].
  apply IH. apply negb_false_iff in E2.
  assert (Hw : w ∈ b_waiting b) by by eapply list_elem_of_lookup_2.
  assert (Hin := Hw). eapply Forall_forall in Hin; [|apply Hwf]; cbn in Hin.
  apply wf_assign; [|cbn; tauto|lia|done].
  apply wf_with_waiting; [done|]. intros w' Hw'.
  by eapply list_elem_of_delete_inv.
Qed.

(** The budget just before the queue is served: the released lease is gone. *)
Definition released (now : Z) (lease : nat) (b : MeshReadBudget) : MeshReadBudget :=
  mkBudget now (b_bytes b - res_bytes (reservation b lease))
    (b_frames b - Number_of_bool (res_payload (reservation b lease)))
    (List.filter (fun l => negb (bool_decide (l = lease))) (b_leases b))
    (List.filter (fun w => negb (bool_decide (w_lease w = lease))) (b_waiting b))
    (b_heap b) (b_next b).

Lemma release_live now lease b :
  lease ∈ b_leases b ->
  snd (release limits now lease b) =
    snd (release_loop limits now (length (b_waiting (released now lease b))) 0
           (released now lease b)
           (map (fun w => Rejected (w_promise w) "Mesh stream read was cancelled")
              (reverse (List.filter (fun w => bool_decide (w_lease w = lease)) (b_waiting b))))).
Proof.
  intros Hl. unfold release. rewrite bool_decide_eq_true_2 by done. cbn [negb].
  rewrite cancel_spec. reflexivity.
Qed.

Lemma release_dead now lease b :
  lease ∉ b_leases b -> release limits now lease b = ([], b).
Proof. intros Hl. unfold release. by rewrite bool_decide_eq_false_2. Qed.

Lemma wf_released now lease b : wf b -> lease ∈ b_leases b -> wf (released now lease b).
Proof.
  intros Hwf Hl.
  assert (Hb : total_bytes (released now lease b) = total_bytes b - res_bytes (reservation b lease)).
  { unfold total_bytes; cbn [b_leases released].
    by rewrite (sumZ_map_remove (fun l => res_bytes (reservation b l))) by (done || apply Hwf). }
  assert (Hf : total_frames (released now lease b)
               = total_frames b - Number_of_bool (res_payload (reservation b lease))).
  { unfold total_frames; cbn [b_leases released].
    by rewrite (sumZ_map_remove (fun l => Number_of_bool (res_payload (reservation b l))))
      by (done || apply Hwf). }
  assert (Hkind : forall k, (length (sameKind (released now lease b) k) <= length (sameKind b k))%nat).
  { intros k. unfold sameKind; cbn [b_leases released].
    change (staged (released now lease b)) with (staged b). generalize (staged b). clear. intros f.
    induction (b_leases b) as [|a l IH]; cbn; [lia|].
    destruct (negb _), (Bool.eqb (f a) k) eqn:E; cbn; rewrite ?E; cbn; lia. }
  destruct Hwf; split; rewrite ?Hb, ?Hf; try done.
  - by apply NoDup_lfilter.
  - intros l [? _]%elem_of_lfilter. cbn. auto.
  - cbn. lia.
  - cbn. lia.
  - specialize (wf_nonneg0 lease). cbn. lia.
  - cbn. destruct (res_payload (reservation b lease)); cbn; lia.
  - apply Forall_forall. intros w [Hw Hne]%elem_of_lfilter.
    eapply Forall_forall in wf_waiting0 as [??]; [|done]. split; [|done].
    apply elem_of_lfilter. done.
  - specialize (Hkind true). lia.
  - specialize (Hkind false). lia.
Qed.

Lemma wf_release now lease b : wf b -> wf (snd (release limits now lease b)).
Proof.
  intros Hwf. destruct (decide (lease ∈ b_leases b)) as [Hl|Hl].
  - rewrite release_live by done. by apply wf_release_loop, wf_released.
  - by rewrite release_dead.
Qed.

Lemma wf_step allowed b b' :
  (forall b l t, allowed b l t -> 0 <= res_bytes t) -> step allowed b b' -> wf b -> wf b'.
Proof.
  intros Hallowed Hstep Hwf. destruct Hstep.
  - by eapply wf_create.
  - apply wf_request; eauto.
  - by apply wf_cancel.
  - by apply wf_cancel.
  - by apply wf_release.
Qed.

Lemma wf_new now : 0 <= lim_bytes limits -> 0 <= lim_frames limits -> 0 <= lim_headers limits ->
  wf (newBudget now).
Proof.
  intros. split; try done; cbn; try lia; try set_solver.
  - constructor.
  - intros l [? ?]; set_solver.
Qed.

(** *** No read waits for capacity that is free *)
Lemma available_assign_mono now l t b l' t' :
  is_Some (b_heap b !! l) -> upgrade (reservation b l) t ->
  available limits (assign now l t b) l' t' = true -> available limits b l' t' = true.
Proof.
  intros Hl [Hb Hp]. unfold available. rewrite reservation_assign by done. cbn.
  rewrite !andb_true_iff, !Z.leb_le.
  destruct (decide (l = l')) as [<-|]; destruct (res_payload t), (res_payload (reservation b l));
    cbn in *; try (specialize (Hp eq_refl); done); lia.
Qed.

Lemma available_with_waiting ws b l t :
  available limits (with_waiting ws b) l t = available limits b l t.
Proof. done. Qed.

(** Serving the queue leaves no request that could be granted, when every
    queued request is an upgrade of a different lease. *)
Lemma release_loop_conserving now fuel : forall index b out,
  wf b -> upgrades_only b -> NoDup (map w_lease (b_waiting b)) ->
  (length (b_waiting b) <= index + fuel)%nat ->
  Forall (fun w => available limits b (w_lease w) (w_target w) = false) (take index (b_waiting b)) ->
  let b' := snd (release_loop limits now fuel index b out) in
  work_conserving b' /\ upgrades_only b' /\ NoDup (map w_lease (b_waiting b')).
Proof.
  induction fuel as [|fuel IH]; intros index b out Hwf Hup Hnd Hlen Hpre; cbn [release_loop].
  { cbn. repeat split; try done. unfold work_conserving.
    rewrite take_ge in Hpre by lia. done. }
  case_match eqn:E.
  2: { cbn. repeat split; try done. apply lookup_ge_None in E.
       unfold work_conserving. rewrite take_ge in Hpre by lia. done. }
  case_match eqn:E2.
  - apply negb_true_iff in E2. apply IH; try done; [lia|].
    rewrite (take_S_r _ _ w E). apply Forall_app. by repeat constructor.
  - apply negb_false_iff in E2.
    assert (Hw : w ∈ b_waiting b) by by eapply list_elem_of_lookup_2.
    assert (Hin := Hw). eapply Forall_forall in Hin; [|apply Hwf]. cbn in Hin.
    assert (Hupw := Hw). eapply Forall_forall in Hupw; [|exact Hup]. cbn in Hupw.
    set (ws := delete index (b_waiting b)).
    set (b1 := with_waiting ws b).
    assert (Hsub : forall w', w' ∈ ws -> w' ∈ b_waiting b)
      by (intros w'; apply list_elem_of_delete_inv).
    assert (Hheap : is_Some (b_heap b1 !! w_lease w)) by (apply (wf_heap _ Hwf); tauto).
    assert (Hnd' : NoDup (w_lease w :: map w_lease ws)).
    { rewrite <- (take_drop_middle _ _ _ E), map_app in Hnd. cbn in Hnd.
      rewrite <- Permutation_middle in Hnd. unfold ws.
      by rewrite delete_take_drop, map_app. }
    apply NoDup_cons in Hnd' as [Hnotin Hnd'].
    assert (Hlenw : length ws = (length (b_waiting b) - 1)%nat)
      by (apply length_delete; eauto).
    assert (index < length (b_waiting b))%nat by by eapply lookup_lt_Some.
    apply IH.
    + apply wf_assign; [by apply wf_with_waiting|tauto|lia|done].
    + apply Forall_forall. intros w' Hw'. rewrite reservation_assign by done.
      rewrite decide_False. { eapply Forall_forall in Hup; [exact Hup|auto]. }
      intros Heq. apply Hnotin. rewrite Heq. by apply list_elem_of_fmap_2.
    + done.
    + cbn. rewrite Hlenw. lia.
    + cbn [b_waiting assign b1 with_waiting]. unfold ws.
      rewrite delete_take_drop, take_app_le by (rewrite length_take; lia).
      rewrite take_take, Nat.min_id.
      eapply Forall_impl; [exact Hpre|]. intros w' Hw'; cbv beta in *.
      apply not_true_iff_false. intros Ea.
      apply available_assign_mono in Ea; [|exact Hheap|exact Hupw].
      change (available limits b (w_lease w') (w_target w') = true) in Ea. congruence.
Qed.

(** What the ordered use of a budget keeps besides [wf]. *)
Definition orderly (b : MeshReadBudget) : Prop :=
  work_conserving b /\ upgrades_only b /\ NoDup (map w_lease (b_waiting b)).

Lemma orderly_filter (f : Waiter -> bool) b :
  orderly b -> orderly (with_waiting (List.filter f (b_waiting b)) b).
Proof.
  intros (Hwc & Hup & Hnd). repeat split; try by apply Forall_lfilter.
  cbn. clear - Hnd. induction (b_waiting b) as [|w ws IH]; [done|]. cbn in *.
  apply NoDup_cons in Hnd as [Hw Hnd]. destruct (f w); cbn; [|auto].
  apply NoDup_cons. split; [|auto]. intros Hin. apply Hw.
  apply list_elem_of_fmap in Hin as (w' & -> & [? _]%elem_of_lfilter).
  by apply list_elem_of_fmap_2.
Qed.

Lemma orderly_request now lease target b :
  wf b -> orderly b -> ordered_request b lease target ->
  orderly (snd (request limits now lease target b)).
Proof.
  intros Hwf (Hwc & Hup & Hnd) (Ht & Hu & Hne). unfold request.
  case_match eqn:E1; [done|]. case_match eqn:E2; [done|].
  apply negb_false_iff, bool_decide_eq_true in E1.
  assert (Hheap : is_Some (b_heap b !! lease)) by by apply (wf_heap _ Hwf).
  case_match eqn:E3; cbn [snd].
  - split; [|split]; [| |done]; apply Forall_forall; intros w Hw; cbn in Hw.
    + eapply Forall_forall in Hwc; [|done]. cbn in Hwc.
      apply not_true_iff_false. intros Ea.
      apply available_assign_mono in Ea; [|done..]. congruence.
    + rewrite reservation_assign by done. eapply Forall_forall in Hne; [|done].
      rewrite decide_False by done. eapply Forall_forall in Hup; done.
  - split; [|split].
    + apply Forall_app. split; [done|]. by apply Forall_singleton.
    + apply Forall_app. split; [done|]. by apply Forall_singleton.
    + cbn. rewrite map_app. apply NoDup_app. split; [done|].
      split; [|apply NoDup_singleton].
      intros l (w & -> & Hw)%list_elem_of_fmap Hl%list_elem_of_singleton; cbn in Hl.
      eapply Forall_forall in Hne; done.
Qed.

Lemma orderly_release now lease b :
  wf b -> orderly b -> orderly (snd (release limits now lease b)).
Proof.
  intros Hwf Ho. destruct (decide (lease ∈ b_leases b)) as [Hl|Hl];
    [|by rewrite release_dead].
  rewrite release_live by done.
  eapply orderly_filter in Ho as (Hwc & Hup & Hnd).
  apply release_loop_conserving; [by apply wf_released|exact Hup|exact Hnd|cbn; lia|].
  rewrite take_0. constructor.
Qed.

Lemma orderly_step b b' :
  step ordered_request b b' -> wf b -> orderly b -> orderly b'.
Proof.
  intros Hstep Hwf Ho. destruct Hstep as [kind lease b b' H|now lease bytes payload b H|lease e b|w b Hw|now lease b].
  - assert (Hwf' := wf_create _ _ _ _ Hwf H).
    unfold create in H. case_match; [done|]. injection H as <- <-.
    assert (Hres : forall l, reservation (mkBudget (b_lastUsed b) (b_bytes b) (b_frames b)
       (b_leases b ++ [b_next b]) (b_waiting b)
       (<[b_next b := mkLease kind emptyReservation]> (b_heap b)) (S (b_next b))) l = reservation b l).
    { intros l. unfold reservation; cbn. destruct (decide (b_next b = l)) as [<-|];
        [|by rewrite lookup_insert_ne]. rewrite lookup_insert_eq; cbn.
      destruct (b_heap b !! b_next b) eqn:E; [|done].
      assert (b_next b < b_next b)%nat by (apply Hwf; eauto). lia. }
    destruct Ho as (Hwc & Hup & Hnd). split; [|split]; [| |done];
      apply Forall_forall; intros w Hw; cbn in Hw.
    + eapply Forall_forall in Hwc; [|done]. unfold available in *. by rewrite Hres.
    + rewrite Hres. eapply Forall_forall in Hup; done.
  - by apply orderly_request.
  - unfold lease_cancel. rewrite cancel_spec. by apply orderly_filter.
  - rewrite cancel_spec. by apply orderly_filter.
  - by apply orderly_release.
Qed.

(** *** Settlements: a queued promise leaves the queue exactly when it settles *)
Definition settled (s : Settlement) : nat :=
  match s with Resolved p => p | Rejected p _ => p end.

Definition promises (b : MeshReadBudget) : list nat := map w_promise (b_waiting b).

Lemma filter_split_perm {A} (f : A -> bool) (l : list A) :
  List.filter f l ++ List.filter (fun x => negb (f x)) l ≡ₚ l.
Proof.
  induction l as [|x l IH]; cbn; [done|]. destruct (f x); cbn.
  - by rewrite IH.
  - by rewrite <- Permutation_middle, IH.
Qed.

Lemma cancel_settles lease error b :
  map settled (fst (cancel lease error b)) ++ promises (snd (cancel lease error b)) ≡ₚ promises b.
Proof.
  rewrite cancel_spec. unfold promises; cbn. rewrite map_map. cbn.
  rewrite <- (filter_split_perm (fun w => bool_decide (w_lease w = lease)) (b_waiting b)) at 3.
  rewrite map_app. apply Permutation_app_tail, Permutation_map, reverse_Permutation.
Qed.

Lemma release_loop_settles now fuel : forall index b out,
  map settled (fst (release_loop limits now fuel index b out)) ++
    promises (snd (release_loop limits now fuel index b out))
  ≡ₚ map settled out ++ promises b.
Proof.
  induction fuel as [|fuel IH]; intros index b out; [done|]. cbn [release_loop].
  case_match eqn:E; [|done]. case_match; [apply IH|].
  rewrite IH, map_app, <- app_assoc. apply Permutation_app_head.
  unfold promises; cbn. rewrite <- (take_drop_middle _ _ _ E) at 2.
  rewrite delete_take_drop, !map_app; cbn. apply Permutation_middle.
Qed.

Lemma release_settles now lease b :
  map settled (fst (release limits now lease b)) ++ promises (snd (release limits now lease b))
  ≡ₚ promises b.
Proof.
  unfold release. case_match; [done|]. destruct (cancel _ _ _) as [out b2] eqn:Ec.
  rewrite release_loop_settles.
  assert (Hc := cancel_settles lease "Mesh stream read was cancelled"
    (mkBudget (b_lastUsed b) (b_bytes b) (b_frames b)
       (List.filter (fun l => negb (bool_decide (l = lease))) (b_leases b))
       (b_waiting b) (b_heap b) (b_next b))).
  rewrite Ec in Hc. exact Hc.
Qed.

(** *** Draining *)
Lemma release_loop_leases now fuel : forall index b out,
  b_leases (snd (release_loop limits now fuel index b out)) = b_leases b.
Proof.
  induction fuel as [|fuel IH]; intros index b out; [done|]. cbn [release_loop].
  case_match; [|done]. case_match; by rewrite IH.
Qed.

Lemma release_leases now lease b :
  b_leases (snd (release limits now lease b)) =
  List.filter (fun l => negb (bool_decide (l = lease))) (b_leases b).
Proof.
  destruct (decide (lease ∈ b_leases b)) as [Hl|Hl].
  - by rewrite release_live, release_loop_leases.
  - rewrite release_dead by done; cbn. induction (b_leases b) as [|a l IH]; [done|]; cbn.
    rewrite bool_decide_eq_false_2 by set_solver. cbn. f_equal. apply IH. set_solver.
Qed.

Definition release_all (now : Z) (leases : list nat) (b : MeshReadBudget) : MeshReadBudget :=
  foldl (fun b lease => snd (lease_release limits now lease b)) b leases.

Lemma release_all_wf now leases : forall b, wf b -> wf (release_all now leases b).
Proof. induction leases as [|l leases IH]; intros b H; [done|]. by apply IH, wf_release. Qed.

Lemma release_all_leases now leases : forall b l,
  l ∈ b_leases (release_all now leases b) -> l ∈ b_leases b /\ l ∉ leases.
Proof.
  induction leases as [|x leases IH]; intros b l Hl; [set_solver|].
  apply IH in Hl as [Hl Hn]. unfold lease_release in Hl. rewrite release_leases in Hl.
  apply elem_of_lfilter in Hl as [Hl Hx]. bool_to_prop. set_solver.
Qed.

Lemma wf_idle b : wf b -> b_leases b = [] -> b_bytes b = 0 /\ b_frames b = 0 /\ b_waiting b = [].
Proof.
  intros [] Hl. rewrite wf_bytes0, wf_frames0. unfold total_bytes, total_frames.
  rewrite Hl. repeat split. destruct (b_waiting b) as [|w ws]; [done|].
  apply Forall_cons in wf_waiting0 as [[Hw _] _]. rewrite Hl in Hw. set_solver.
Qed.

(** A queued request of an orderly budget waits for a reservation that another
    lease holds. *)
Lemma waiter_blocked_by_other b w :
  wf b -> work_conserving b -> 1 <= lim_frames limits -> w ∈ b_waiting b ->
  exists l, l ∈ b_leases b /\ l <> w_lease w /\
    (0 < res_bytes (reservation b l) \/ res_payload (reservation b l) = true).
Proof.
  intros Hwf Hwc Hlim Hw.
  destruct (decide (Forall (fun l => l = w_lease w \/
      (res_bytes (reservation b l) = 0 /\ res_payload (reservation b l) = false)) (b_leases b)))
    as [Hall|Hex].
  2: { apply not_Forall_Exists in Hex; [|apply _]. apply Exists_exists in Hex as (l & Hl & Hn).
       exists l. split; [done|]. assert (Hnn := wf_nonneg _ Hwf l).
       destruct (decide (l = w_lease w)); [by destruct Hn; left|]. split; [done|].
       destruct (res_payload (reservation b l)) eqn:Ep; [by right|]. left.
       destruct (decide (res_bytes (reservation b l) = 0)); [by destruct Hn; right|lia]. }
  exfalso. eapply Forall_forall in Hwc; [|done]. cbn in Hwc.
  assert (Hww := Hw). eapply Forall_forall in Hww; [|apply Hwf]. destruct Hww as [Hl Ht].
  apply not_true_iff_false in Hwc. apply Hwc. unfold available.
  rewrite (wf_bytes _ Hwf), (wf_frames _ Hwf), andb_true_iff, !Z.leb_le.
  assert (Hsum : forall g : Reservation -> Z,
      (forall r, res_bytes r = 0 -> res_payload r = false -> g r = 0) ->
      sumZ (map (fun l => g (reservation b l)) (b_leases b)) = g (reservation b (w_lease w))).
  { intros g Hg. rewrite (sumZ_map_update (fun _ => 0)
      (fun l => g (reservation b l)) (w_lease w)); [|apply Hwf|done|].
    - assert (sumZ (map (fun _ => 0) (b_leases b)) = 0) as -> by
        (clear; induction (b_leases b); cbn in *; lia). lia.
    - intros y Hy Hne. eapply Forall_forall in Hall; [|done]. naive_solver. }
  unfold total_bytes, total_frames.
  rewrite (Hsum res_bytes) by auto.
  rewrite (Hsum (fun r => Number_of_bool (res_payload r))) by (intros r _ ->; done).
  destruct (res_payload (w_target w)); cbn; lia.
Qed.
End Invariant.

(** ** Properties *)

(** C6. Accounting and bounds.  Whatever sequence of creations, reservations,
    cancellations, deadline timers and releases a budget goes through, its
    byte and frame counters are exactly the sums over the live leases, they
    never exceed the limits, the numbers of staged and unstaged leases stay
    bounded, and every queued request belongs to a live lease and fits the
    budget by itself. *)
Theorem read_budget_accounting limits now b :
  0 <= lim_bytes limits -> 0 <= lim_frames limits -> 0 <= lim_headers limits ->
  rtc (step limits any_request) (newBudget now) b ->
  b_bytes b = sumZ (map (fun l => res_bytes (reservation b l)) (b_leases b)) /\
  b_frames b = sumZ (map (fun l => Number_of_bool (res_payload (reservation b l))) (b_leases b)) /\
  0 <= b_bytes b <= lim_bytes limits /\ 0 <= b_frames b <= lim_frames limits /\
  Z.of_nat (length (sameKind b true)) <= lim_headers limits /\
  Z.of_nat (length (sameKind b false)) <= lim_frames limits * 2 /\
  Forall (fun w => w_lease w ∈ b_leases b /\
            0 <= res_bytes (w_target w) <= lim_bytes limits) (b_waiting b).
Proof.
  intros Hb Hf Hh Hsteps.
  assert (Hwf : wf limits b).
  { revert b Hsteps. apply (rtc_ind_r (wf limits)); [by apply wf_new|].
    intros b b' _ Hs Hw. eapply wf_step; eauto. by intros. }
  destruct Hwf; repeat split; try done; try lia.
  - rewrite wf_bytes0. apply sumZ_nonneg, Forall_forall.
    intros z (l & -> & _)%list_elem_of_fmap. apply wf_nonneg0.
  - rewrite wf_frames0. apply sumZ_nonneg, Forall_forall.
    intros z (l & -> & _)%list_elem_of_fmap. by destruct (res_payload _).
Qed.

(** C7. No lost wake-up and no deadlock.  When every connection has at most one
    outstanding request per lease and only asks for more than the lease holds,
    no queued request could be granted, and each of them waits for a
    reservation held by another live lease. *)
Theorem read_budget_no_lost_wakeup limits now b w :
  0 <= lim_bytes limits -> 1 <= lim_frames limits -> 0 <= lim_headers limits ->
  rtc (step limits ordered_request) (newBudget now) b ->
  w ∈ b_waiting b ->
  available limits b (w_lease w) (w_target w) = false /\
  exists l, l ∈ b_leases b /\ l <> w_lease w /\
    (0 < res_bytes (reservation b l) \/ res_payload (reservation b l) = true).
Proof.
  intros Hb Hf Hh Hsteps Hw.
  assert (wf limits b /\ orderly limits b) as [Hwf Ho].
  { revert b Hsteps Hw. intros b Hsteps _. revert b Hsteps.
    apply (rtc_ind_r (fun b => wf limits b /\ orderly limits b)).
    - split; [apply wf_new; lia|]. repeat split; constructor.
    - intros b b' _ Hs [Hwf Ho]. split.
      + eapply wf_step; eauto. by intros ??? [? _].
      + by eapply orderly_step. }
  split.
  - destruct Ho as [Hwc _]. eapply Forall_forall in Hwc; done.
  - eapply waiter_blocked_by_other; eauto. apply Ho.
Qed.

(** Every queued read settles exactly once: cancelling or releasing a lease
    moves promises from the queue to the settlements, duplicating and losing
    none. *)
Theorem read_budget_settles_once limits now lease error b :
  (map settled (fst (cancel lease error b)) ++ promises (snd (cancel lease error b))
     ≡ₚ promises b) /\
  (map settled (fst (release limits now lease b)) ++ promises (snd (release limits now lease b))
     ≡ₚ promises b) /\
  promises (snd (cancel lease error b)) =
    map w_promise (List.filter (fun w => negb (bool_decide (w_lease w = lease))) (b_waiting b)).
Proof.
  split; [apply cancel_settles|]. split; [apply release_settles|].
  rewrite cancel_spec. done.
Qed.

(** A budget drains: once every live lease is released, no byte and no frame
    is accounted any more, no read is left waiting, and the budget is idle. *)
Theorem read_budget_drains limits now now' b :
  0 <= lim_bytes limits -> 0 <= lim_frames limits -> 0 <= lim_headers limits ->
  rtc (step limits any_request) (newBudget now) b ->
  let b' := release_all limits now' (b_leases b) b in
  b_bytes b' = 0 /\ b_frames b' = 0 /\ b_waiting b' = [] /\ idle b' = true.
Proof.
  intros Hb Hf Hh Hsteps b'.
  assert (Hwf : wf limits b').
  { apply release_all_wf. revert b Hsteps b'. intros b Hsteps _. revert b Hsteps.
    apply (rtc_ind_r (wf limits)); [by apply wf_new|].
    intros c c' _ Hs Hw. eapply wf_step; eauto. by intros. }
  assert (Hl : b_leases b' = []).
  { destruct (b_leases b') as [|l ls] eqn:E; [done|].
    destruct (release_all_leases limits now' (b_leases b) b l); [|done].
    fold b'. rewrite E. set_solver. }
  destruct (wf_idle _ _ Hwf Hl) as (? & ? & ?). unfold idle. by rewrite Hl.
Qed.

(** *** Witnesses: two reads of 60 bytes share a budget of 100 *)
Definition demo_limits : Limits := mkLimits 100 2 4 1000.
Definition demo_two : MeshReadBudget :=
  snd (lease_reserve demo_limits 6 1 60 true
    (mkBudget 5 60 1 [0%nat; 1%nat] []
      (<[1%nat := mkLease false emptyReservation]> {[0%nat := mkLease false (mkReservation 60 true)]}) 2)).

Lemma demo_reachable allowed :
  (forall b l, b_waiting b = [] -> reservation b l = emptyReservation ->
     allowed b l (mkReservation 60 true)) ->
  rtc (step demo_limits allowed) (newBudget 0) demo_two.
Proof.
  intros Ha.
  eapply rtc_l; [eapply (step_create _ _ false); reflexivity|].
  eapply rtc_l; [eapply (step_request _ _ 5 0%nat 60 true); by apply Ha|].
  eapply rtc_l; [eapply (step_create _ _ false); reflexivity|].
  eapply rtc_l; [eapply (step_request _ _ 6 1%nat 60 true); by apply Ha|].
  apply rtc_refl.
Qed.

Lemma read_budget_accounting_witness :
  length (b_waiting demo_two) = 1%nat /\ b_bytes demo_two = 60 /\ b_frames demo_two <= 2.
Proof.
  split; [reflexivity|]. split; [reflexivity|].
  assert (H := read_budget_accounting demo_limits 0 demo_two).
  apply H; [done|done|done|]. apply demo_reachable. done.
Defined.

Lemma read_budget_no_lost_wakeup_witness :
  exists l, l ∈ b_leases demo_two /\ l <> 1%nat.
Proof.
  destruct (read_budget_no_lost_wakeup demo_limits 0 demo_two
    (mkWaiter 2 1 (mkReservation 60 true) 2000)) as (_ & l & Hl & Hne & _).
  - done.
  - done.
  - done.
  - apply demo_reachable. intros b l Hw Hr. split; [done|]. rewrite Hr, Hw.
    split; [done|constructor].
  - vm_compute. left.
  - by exists l.
Defined.

Lemma read_budget_drains_witness :
  b_waiting (release_all demo_limits 9 (b_leases demo_two) demo_two) = [].
Proof.
  apply (read_budget_drains demo_limits 0 9 demo_two); [done|done|done|].
  apply demo_reachable. done.
Defined.
