(* ===== verification/ReplicaEngine.v ===== *)
(** * Replica engine

    Models [packages/mesh-replication/src/replicaEngine.ts]: the durable
    outbox/cursor algorithm that pulls remote objects into the host and pushes
    local content to a blind store.  The host adapters ([ReplicaPorts]) are
    parameters: each port is a function of an environment [E] that may throw.
    The repository is the durable [ReplicaState] itself, replaced by
    compare-and-swap on its generation; a commit can fail before or after it
    took effect, which is what an uncertain reply or a crash looks like.  The
    log records what the engine did to the outside world, in order. *)
From stdpp Require Import base numbers list gmap strings sorting.
From Stdlib Require Import ZArith Lia.
From S2P Require Import Prelude.
Local Open Scope Z_scope.

(** ** Data *)

(** A pending entry has an object by its type; the source also checks that what
    it read has one. *)
Record ReplicaPending (Object : Type) := mkPending {
  p_requestId : list N;
  p_observedSequence : option Z;
  p_hash : list N;
  p_bytes : Z;
  p_object : Object;
  p_revision : option (list N);
  p_identity : option (list N) }.
Arguments mkPending {Object}.
Arguments p_requestId {Object}.
Arguments p_observedSequence {Object}.
Arguments p_hash {Object}.
Arguments p_bytes {Object}.
Arguments p_object {Object}.
Arguments p_revision {Object}.
Arguments p_identity {Object}.

Record ReplicaState (Object : Type) := mkState {
  s_version : Z;
  s_binding : list N;
  s_generation : Z;
  s_cursor : Z;
  s_lastUploaded : list N;
  s_uploadedRevision : option (list N);
  s_contentIdentity : option (list N);
  s_pending : option (ReplicaPending Object) }.
Arguments mkState {Object}.
Arguments s_version {Object}.
Arguments s_binding {Object}.
Arguments s_generation {Object}.
Arguments s_cursor {Object}.
Arguments s_lastUploaded {Object}.
Arguments s_uploadedRevision {Object}.
Arguments s_contentIdentity {Object}.
Arguments s_pending {Object}.

(** The counts an inventory may carry beside its entries are not read. *)
Record InventoryEntry := mkEntry { e_objectId : list N; e_sequence : Z }.
Record ReplicaInventory := mkInventory {
  i_objects : list InventoryEntry; i_cursor : Z; i_hasMore : bool }.
Record ReplicaContent (Payload : Type) := mkContent {
  c_hash : list N; c_bytes : Z; c_payload : Payload; c_identity : option (list N) }.
Arguments mkContent {Payload}.
Arguments c_hash {Payload}.
Arguments c_bytes {Payload}.
Arguments c_payload {Payload}.
Arguments c_identity {Payload}.
Record Admission := mkAdmission { a_hash : list N; a_identity : option (list N) }.

(** ** Validation *)
Definition positiveCounter (value : Z) : bool := isSafeInteger value && (0 <=? value).
Definition token (value : list N) : bool :=
  (0 <? length value)%nat && (Z.of_nat (length value) <=? 1024 * 1024).
Definition optionalToken (value : option (list N)) : bool :=
  match value with None => true | Some v => token v end.
Definition maximumContentBytes : Z := 16 * 1024 * 1024 - 16.

Definition longer (value : list N) (bound : Z) : bool := bound <? Z.of_nat (length value).

Definition validatePending {Object} (pending : ReplicaPending Object) : result unit :=
  if negb (token (p_requestId pending)) || longer (p_requestId pending) 128 ||
     negb (token (p_hash pending)) || longer (p_hash pending) 128 ||
     negb (positiveCounter (p_bytes pending)) || (maximumContentBytes <? p_bytes pending) ||
     negb (optionalToken (p_revision pending)) || negb (optionalToken (p_identity pending)) ||
     match p_observedSequence pending with
     | Some n => negb (positiveCounter n) | None => false end
  then Throw "Invalid durable replica outbox" else Ok tt.

Definition validateState {Object} (state : ReplicaState Object) (binding : list N) : result unit :=
  if negb (s_version state =? 1) || negb (token (s_binding state)) ||
     negb (bool_decide (s_binding state = binding)) ||
     negb (positiveCounter (s_generation state)) || negb (positiveCounter (s_cursor state))
  then Throw "Invalid or changed replica binding"
  else if longer (s_lastUploaded state) 128 || negb (optionalToken (s_uploadedRevision state)) ||
          negb (optionalToken (s_contentIdentity state))
  then Throw "Invalid replica acknowledgment"
  else match s_pending state with
  | None => Ok tt
  | Some pending =>
      validatePending pending ;;
      if s_cursor state <? default 0 (p_observedSequence pending)
      then Throw "Outbox sequence exceeds admitted replica progress" else Ok tt
  end.

Definition emptyReplicaState {Object} (binding : list N) (cursor : Z) (lastUploaded : list N)
    : result (ReplicaState Object) :=
  let state := mkState 1 binding 0 cursor lastUploaded None None None in
  validateState state binding ;; Ok state.

Definition parseReplicaState {Object} (value : ReplicaState Object) (binding : list N)
    : result (ReplicaState Object) :=
  validateState value binding ;; Ok value.

Fixpoint validateEntries (entries : list InventoryEntry) (previous : Z) : result Z :=
  match entries with
  | [] => Ok previous
  | entry :: rest =>
      if negb (token (e_objectId entry)) || negb (positiveCounter (e_sequence entry)) ||
         (e_sequence entry <=? previous)
      then Throw "Invalid replica inventory sequence"
      else validateEntries rest (e_sequence entry)
  end.

Definition validateInventory (inventory : ReplicaInventory) (after : Z) : result unit :=
  if (128 <? length (i_objects inventory))%nat then Throw "Invalid replica inventory"
  else
    previous ← validateEntries (i_objects inventory) after;
    if negb (i_cursor inventory =? previous) ||
       (i_hasMore inventory && (length (i_objects inventory) =? 0)%nat)
    then Throw "Invalid replica inventory cursor" else Ok tt.

(** ** The shared world: repository history and log of effects *)

(** What the hosts did to the outside world, newest first. *)
Inductive Event (Object : Type) :=
| EvAdmitted (object : Object) (sequence : Z) (admitted : Admission)
| EvUploaded (object : Object) (requestId : list N) (observed : Z)
| EvVerified (object : Object) (requestId : list N).
Arguments EvAdmitted {Object}.
Arguments EvUploaded {Object}.
Arguments EvVerified {Object}.

(** The repository holds [sh_current]; [sh_past] are the states it replaced. *)
Record Shared (Object : Type) := mkShared {
  sh_current : ReplicaState Object;
  sh_past : list (ReplicaState Object);
  sh_log : list (Event Object) }.
Arguments mkShared {Object}.
Arguments sh_current {Object}.
Arguments sh_past {Object}.
Arguments sh_log {Object}.

Definition history {Object} (sh : Shared Object) : list (ReplicaState Object) :=
  sh_current sh :: sh_past sh.

(** ** Ports *)
Inductive CommitReply := CommitOk | CommitLost (message : string) | CommitUncertain (message : string).

Class ReplicaPorts (Payload Object Receipt E : Type) := {
  port_read : E -> result unit * E;
  port_commit : E -> CommitReply * E;
  port_revision : E -> result (option (list N)) * E;
  port_capture : E -> result (ReplicaContent Payload) * E;
  port_seal : Payload -> E -> result Object * E;
  port_inventory : Z -> E -> result ReplicaInventory * E;
  port_download : list N -> E -> result Object * E;
  port_upload : Object -> list N -> Z -> E -> result Receipt * E;
  port_admit : Object -> Z -> E -> result Admission * E;
  port_verifyReceipt : Receipt -> Object -> list N -> E -> result unit * E;
  port_guard : E -> result unit * E;
  port_observe : string -> Z -> E -> result unit * E;
  port_randomUUID : E -> list N * E;
  (** what other hosts of the same repository do while this one waits *)
  port_others : Shared Object -> E -> Shared Object * E }.

Section Engine.
Context {Payload Object Receipt E : Type} {ports : ReplicaPorts Payload Object Receipt E}.
Variable binding : list N.

Record World := mkWorld {
  w_env : E;
  w_shared : Shared Object;
  w_received : option Admission;
  w_inventory : option ReplicaInventory }.

Definition call {A} (port : E -> result A * E) : M World A := fun w =>
  let '(r, e) := port (w_env w) in
  (r, mkWorld e (w_shared w) (w_received w) (w_inventory w)).

Definition with_shared (f : Shared Object -> Shared Object) (w : World) : World :=
  mkWorld (w_env w) (f (w_shared w)) (w_received w) (w_inventory w).

Definition record_event (ev : Event Object) : M World unit :=
  modifyM (with_shared (fun sh => mkShared (sh_current sh) (sh_past sh) (ev :: sh_log sh))).

(** Other hosts may act while a repository call is awaited. *)
Definition others : M World unit := fun w =>
  let '(sh, e) := port_others (w_shared w) (w_env w) in
  (Ok tt, mkWorld e sh (w_received w) (w_inventory w)).

Definition guard : M World unit := call port_guard.

Definition repository_read : M World (ReplicaState Object) :=
  others;; call port_read;; w ← getM; mret (sh_current (w_shared w)).

Definition repository_replace (next : ReplicaState Object) : M World unit :=
  modifyM (with_shared (fun sh => mkShared next (history sh) (sh_log sh))).

(** The documented contract of [repository.commit]: atomically require the
    expected generation and the current binding before replacing progress. *)
Definition repository_commit (expectedGeneration : Z) (next : ReplicaState Object) : M World unit :=
  others;;
  reply ← call (fun e => let '(c, e') := port_commit e in (Ok c, e'));
  w ← getM;
  let current := sh_current (w_shared w) in
  let applies := (s_generation current =? expectedGeneration) &&
                 bool_decide (s_binding current = s_binding next) in
  match reply with
  | CommitLost e => throwM e
  | CommitOk => if applies then repository_replace next else throwM "Replica progress changed"
  | CommitUncertain e => (if applies then repository_replace next else mret tt);; throwM e
  end.

(** ** ReplicaEngine *)
Definition state : M World (ReplicaState Object) :=
  guard;;
  st ← repository_read;
  liftM (validateState st binding);;
  guard;;
  mret st.

Definition commit (previous next : ReplicaState Object) : M World (ReplicaState Object) :=
  let changed := mkState (s_version next) (s_binding next) (s_generation previous + 1)
    (s_cursor next) (s_lastUploaded next) (s_uploadedRevision next) (s_contentIdentity next)
    (s_pending next) in
  liftM (validateState changed binding);;
  requireM (negb (s_cursor changed <? s_cursor previous)) "Replica cursor cannot move backwards";;
  guard;;
  repository_commit (s_generation previous) changed;;
  guard;;
  mret changed.

Definition with_cursor (st : ReplicaState Object) (cursor : Z) : ReplicaState Object :=
  mkState (s_version st) (s_binding st) (s_generation st) cursor (s_lastUploaded st)
    (s_uploadedRevision st) (s_contentIdentity st) (s_pending st).

Definition with_pending (st : ReplicaState Object) (p : ReplicaPending Object) : ReplicaState Object :=
  mkState (s_version st) (s_binding st) (s_generation st) (s_cursor st) (s_lastUploaded st)
    (s_uploadedRevision st) (s_contentIdentity st) (Some p).

Definition acknowledged (st : ReplicaState Object) (hash : list N)
    (revision identity : option (list N)) (pending : option (ReplicaPending Object))
    : ReplicaState Object :=
  mkState (s_version st) (s_binding st) (s_generation st) (s_cursor st) hash revision identity
    pending.

Definition admitObject (object : Object) (sequence : Z) : M World Admission :=
  admitted ← call (port_admit object sequence);
  record_event (EvAdmitted object sequence admitted);;
  mret admitted.

Fixpoint pullEntries (entries : list InventoryEntry) (st : ReplicaState Object)
    : M World (ReplicaState Object) :=
  match entries with
  | [] => mret st
  | entry :: rest =>
      object ← call (port_download (e_objectId entry));
      guard;;
      admitted ← admitObject object (e_sequence entry);
      guard;;
      st' ← commit st (with_cursor st (e_sequence entry));
      modifyM (fun w => mkWorld (w_env w) (w_shared w) (Some admitted) (w_inventory w));;
      pullEntries rest st'
  end.

Fixpoint pullPages (pages : nat) (st : ReplicaState Object) : M World bool :=
  match pages with
  | O => mret false
  | S pages' =>
      guard;;
      inventory ← call (port_inventory (s_cursor st));
      liftM (validateInventory inventory (s_cursor st));;
      guard;;
      st' ← pullEntries (i_objects inventory) st;
      modifyM (fun w => mkWorld (w_env w) (w_shared w) (w_received w) (Some inventory));;
      if i_hasMore inventory then pullPages pages' st' else mret true
  end.

Definition pullNow : M World bool := st ← state; pullPages 8 st.

Definition observe (phase : string) (bytes : Z) : M World unit := fun w =>
  let '(_, w') := call (port_observe phase bytes) w in (Ok tt, w').

Definition verifyReceipt (receipt : Receipt) (object : Object) (requestId : list N) : M World unit :=
  call (port_verifyReceipt receipt object requestId);;
  record_event (EvVerified object requestId).

(** The request leaves the host before its outcome is known. *)
Definition upload (object : Object) (requestId : list N) (observed : Z) : M World Receipt :=
  record_event (EvUploaded object requestId observed);;
  call (port_upload object requestId observed).

Definition deliver (st : ReplicaState Object) (inspectRevision : bool) : M World bool :=
  match s_pending st with
  | None => guard;; throwM "Cannot read properties of undefined"
  | Some pending =>
      guard;;
      receipt ← upload (p_object pending) (p_requestId pending)
                  (default 0 (p_observedSequence pending));
      guard;;
      verifyReceipt receipt (p_object pending) (p_requestId pending);;
      guard;;
      commit st (acknowledged st (p_hash pending) (p_revision pending) (p_identity pending) None);;
      observe "uploaded" (p_bytes pending);;
      if negb inspectRevision then mret true else
        revision ← call port_revision;
        guard;;
        mret (bool_decide (revision = None) || bool_decide (p_revision pending = revision))
  end.

(** A string or [undefined] as a condition. *)
Definition truthy (s : option (list N)) : bool :=
  match s with Some (_ :: _) => true | _ => false end.

(** [r && await revision() === r ? r : undefined] *)
Definition stillAt (revision : option (list N)) : M World (option (list N)) :=
  if truthy revision then
    again ← call port_revision;
    mret (if bool_decide (again = revision) then revision else None)
  else mret None.

Definition alreadyStored (st : ReplicaState Object) (received : option Admission)
    (content : ReplicaContent Payload) : bool :=
  bool_decide (c_hash content = s_lastUploaded st) ||
  bool_decide (Some (c_hash content) = a_hash <$> received) ||
  (truthy (c_identity content) &&
   (bool_decide (s_contentIdentity st = c_identity content) ||
    bool_decide (received ≫= a_identity = c_identity content))).

Definition pushNow : M World bool :=
  st ← state;
  if bool_decide (is_Some (s_pending st)) then deliver st true else
  revision ← call port_revision;
  guard;;
  if truthy revision && (0 <? length (s_lastUploaded st))%nat &&
     bool_decide (revision = s_uploadedRevision st)
  then observe "unchanged" 0;; mret true else
  captured ← call port_capture;
  guard;;
  stableRevision ← stillAt revision;
  requireM (negb (negb (token (c_hash captured)) || longer (c_hash captured) 128 ||
                  negb (positiveCounter (c_bytes captured)) ||
                  (maximumContentBytes <? c_bytes captured)))
    "Replica content exceeds the supported size or hash bounds";;
  w ← getM;
  if alreadyStored st (w_received w) captured then
    commit st (acknowledged st (c_hash captured) stableRevision (c_identity captured) (s_pending st));;
    observe "already-stored" (c_bytes captured);;
    mret (bool_decide (is_Some stableRevision) || bool_decide (revision = None))
  else
  object ← call (port_seal (c_payload captured));
  guard;;
  finalRevision ← stillAt stableRevision;
  requestId ← call (fun e => let '(u, e') := port_randomUUID e in (Ok u, e'));
  st' ← commit st (with_pending st (mkPending requestId (Some (s_cursor st)) (c_hash captured)
          (c_bytes captured) object finalRevision (c_identity captured)));
  deliver st' true.

Definition drainPending : M World bool :=
  st ← state;
  if bool_decide (is_Some (s_pending st)) then deliver st false else mret true.

Definition sync : M World bool :=
  original ← state;
  if bool_decide (is_Some (s_pending original)) then deliver original false;; mret false else
  caughtUp ← pullNow;
  uploaded ← pushNow;
  mret (caughtUp && uploaded).

(** The engine's queue runs one operation at a time, each after the previous
    one settled, whatever its outcome.  A restart loses what was only in
    memory. *)
Inductive Operation := Pull | Push | DrainPending | Sync | Restart.

Definition run_operation (op : Operation) : M World bool :=
  match op with
  | Pull => pullNow
  | Push => pushNow
  | DrainPending => drainPending
  | Sync => sync
  | Restart => fun w => (Ok true, mkWorld (w_env w) (w_shared w) None None)
  end.

Fixpoint enqueue (ops : list Operation) (w : World) : list (result bool) * World :=
  match ops with
  | [] => ([], w)
  | op :: rest =>
      let '(r, w1) := run_operation op w in
      let '(rs, w2) := enqueue rest w1 in
      (r :: rs, w2)
  end.

End Engine.

(** ** The outbox protocol

    The abstract specification: what may happen to the repository and to the
    outside world, over all hosts of one repository. *)
Section Protocol.
Context {Object : Type}.
Variable binding : list N.
Implicit Types (sh : Shared Object) (st next : ReplicaState Object) (p : ReplicaPending Object).

Definition next_generation st : ReplicaState Object :=
  mkState (s_version st) (s_binding st) (s_generation st + 1) (s_cursor st) (s_lastUploaded st)
    (s_uploadedRevision st) (s_contentIdentity st) (s_pending st).

(** Content that needs no upload: the repository's acknowledged content, or
    content that an admitted object carried. *)
Definition known_content (log : list (Event Object)) st (hash : list N) (identity : option (list N)) : Prop :=
  hash = s_lastUploaded st \/ (is_Some identity /\ identity = s_contentIdentity st) \/
  exists o q a, EvAdmitted o q a ∈ log /\
    (hash = a_hash a \/ is_Some identity /\ identity = a_identity a).

Inductive commit_step (log : list (Event Object)) (cur : ReplicaState Object) : ReplicaState Object -> Prop :=
| commit_advance o q a :
    EvAdmitted o q a ∈ log -> s_cursor cur < q ->
    commit_step log cur (next_generation (with_cursor cur q))
| commit_enqueue p :
    s_pending cur = None -> p_observedSequence p = Some (s_cursor cur) ->
    commit_step log cur (next_generation (with_pending cur p))
| commit_acknowledge p :
    s_pending cur = Some p -> EvVerified (p_object p) (p_requestId p) ∈ log ->
    commit_step log cur
      (next_generation (acknowledged cur (p_hash p) (p_revision p) (p_identity p) None))
| commit_known hash revision identity :
    s_pending cur = None -> known_content log cur hash identity ->
    commit_step log cur (next_generation (acknowledged cur hash revision identity None)).

Inductive dstep sh : Shared Object -> Prop :=
| d_admitted o q a :
    dstep sh (mkShared (sh_current sh) (sh_past sh) (EvAdmitted o q a :: sh_log sh))
| d_uploaded st p :
    st ∈ history sh -> s_pending st = Some p ->
    dstep sh (mkShared (sh_current sh) (sh_past sh)
      (EvUploaded (p_object p) (p_requestId p) (default 0 (p_observedSequence p)) :: sh_log sh))
| d_verified o r n :
    EvUploaded o r n ∈ sh_log sh ->
    dstep sh (mkShared (sh_current sh) (sh_past sh) (EvVerified o r :: sh_log sh))
| d_committed next :
    commit_step (sh_log sh) (sh_current sh) next -> validateState next binding = Ok tt ->
    dstep sh (mkShared next (history sh) (sh_log sh)).

(** The generation of the repository identifies its state. *)
Definition newer st st' : Prop := s_generation st > s_generation st'.
Definition coherent sh : Prop := StronglySorted newer (history sh).

Lemma commit_step_generation log cur next :
  commit_step log cur next -> s_generation next = s_generation cur + 1.
Proof. by destruct 1. Qed.

Lemma coherent_current_max sh st :
  coherent sh -> st ∈ history sh -> s_generation st <= s_generation (sh_current sh).
Proof.
  unfold coherent, history. intros Hc Hin. apply StronglySorted_inv in Hc as [_ Hc].
  rewrite Forall_forall in Hc. apply elem_of_cons in Hin as [->|Hin]; [lia|].
  specialize (Hc _ Hin). unfold newer in Hc. lia.
Qed.

(** Compare-and-swap on the generation compares the whole state. *)
Lemma coherent_cas sh st :
  coherent sh -> st ∈ history sh -> s_generation (sh_current sh) = s_generation st ->
  st = sh_current sh.
Proof.
  unfold coherent, history. intros Hc Hin Hg. apply StronglySorted_inv in Hc as [_ Hc].
  rewrite Forall_forall in Hc. apply elem_of_cons in Hin as [->|Hin]; [done|].
  specialize (Hc _ Hin). unfold newer in Hc. lia.
Qed.

Lemma dstep_coherent sh sh' : dstep sh sh' -> coherent sh -> coherent sh'.
Proof.
  destruct 1 as [| | |next Hs Hv]; [done..|]. intros Hc.
  apply commit_step_generation in Hs. unfold coherent, history at 1; cbn.
  constructor; [done|]. apply Forall_forall. intros st Hst.
  eapply coherent_current_max in Hst; [|done]. unfold newer. lia.
Qed.

Lemma dsteps_coherent sh sh' : rtc dstep sh sh' -> coherent sh -> coherent sh'.
Proof. induction 1; eauto using dstep_coherent. Qed.

(** What has happened stays happened. *)
Definition extends sh sh' : Prop :=
  sh_log sh ⊆ sh_log sh' /\ history sh ⊆ history sh'.

Lemma dstep_extends sh sh' : dstep sh sh' -> extends sh sh'.
Proof. destruct 1; split; unfold history; cbn; set_solver. Qed.

Lemma dsteps_extends sh sh' : rtc dstep sh sh' -> extends sh sh'.
Proof.
  induction 1 as [|x y z Hxy _ IH]; [by split|].
  apply dstep_extends in Hxy as [??]. destruct IH as [??]. split; etrans; eauto.
Qed.

(** *** Consequences of the protocol *)

Lemma dstep_progress sh sh' :
  dstep sh sh' ->
  s_cursor (sh_current sh) <= s_cursor (sh_current sh') /\
  s_generation (sh_current sh') - Z.of_nat (length (sh_past sh'))
    = s_generation (sh_current sh) - Z.of_nat (length (sh_past sh)).
Proof.
  destruct 1 as [| | |next Hs Hv]; cbn [sh_current sh_past]; [lia..|].
  split; [destruct Hs; cbn; lia|].
  apply commit_step_generation in Hs. unfold history; cbn [length]. lia.
Qed.

Lemma dsteps_progress sh sh' :
  rtc dstep sh sh' ->
  s_cursor (sh_current sh) <= s_cursor (sh_current sh') /\
  s_generation (sh_current sh') - Z.of_nat (length (sh_past sh'))
    = s_generation (sh_current sh) - Z.of_nat (length (sh_past sh)).
Proof.
  induction 1 as [|x y z Hxy _ IH]; [lia|]. apply dstep_progress in Hxy. lia.
Qed.

(** The cursor only names objects that were durably admitted. *)
Definition cursor_admitted (c0 : Z) sh : Prop :=
  s_cursor (sh_current sh) = c0 \/
  exists o a, EvAdmitted o (s_cursor (sh_current sh)) a ∈ sh_log sh.

Lemma dstep_cursor_admitted c0 sh sh' :
  dstep sh sh' -> cursor_admitted c0 sh -> cursor_admitted c0 sh'.
Proof.
  unfold cursor_admitted.
  destruct 1 as [| | |next Hs Hv]; cbn; [set_solver..|].
  destruct Hs; cbn; [|done..]. eauto.
Qed.

Lemma dsteps_cursor_admitted c0 sh sh' :
  rtc dstep sh sh' -> cursor_admitted c0 sh -> cursor_admitted c0 sh'.
Proof. induction 1; eauto using dstep_cursor_admitted. Qed.

(** A queued request leaves the outbox only after its receipt was verified. *)
Definition kept p sh : Prop :=
  s_pending (sh_current sh) = Some p \/ EvVerified (p_object p) (p_requestId p) ∈ sh_log sh.

Lemma dstep_kept p sh sh' : dstep sh sh' -> kept p sh -> kept p sh'.
Proof.
  unfold kept. destruct 1 as [| | |next Hs Hv]; cbn; [set_solver..|].
  intros [Hp|]; [|by right]. destruct Hs; cbn; [by left|congruence| |congruence].
  right. congruence.
Qed.

Lemma dsteps_kept p sh sh' : rtc dstep sh sh' -> kept p sh -> kept p sh'.
Proof. induction 1; eauto using dstep_kept. Qed.

(** Every upload carried a request that was durable before it left. *)
Definition uploads_durable sh : Prop :=
  forall o r n, EvUploaded o r n ∈ sh_log sh ->
  exists st p, st ∈ history sh /\ s_pending st = Some p /\
    o = p_object p /\ r = p_requestId p /\ n = default 0 (p_observedSequence p).

Lemma dstep_uploads_durable sh sh' : dstep sh sh' -> uploads_durable sh -> uploads_durable sh'.
Proof.
  unfold uploads_durable. intros Hd Hu o r n Hin.
  assert (EvUploaded o r n ∈ sh_log sh \/ exists st p, st ∈ history sh /\ s_pending st = Some p /\
    o = p_object p /\ r = p_requestId p /\ n = default 0 (p_observedSequence p)) as Hcase.
  { destruct Hd; cbn in *; [set_solver| |set_solver|by left].
    apply elem_of_cons in Hin as [[= -> -> ->]|]; [right|by left]. eauto 10. }
  assert (exists st p, st ∈ history sh /\ s_pending st = Some p /\
    o = p_object p /\ r = p_requestId p /\ n = default 0 (p_observedSequence p))
    as (st & p & Hst & Hrest).
  { destruct Hcase as [Hcase|]; [|done]. eauto. }
  exists st, p. split; [|done]. by apply (dstep_extends _ _ Hd).
Qed.

Lemma dsteps_uploads_durable sh sh' :
  rtc dstep sh sh' -> uploads_durable sh -> uploads_durable sh'.
Proof. induction 1; eauto using dstep_uploads_durable. Qed.
End Protocol.

(** ** The engine implements the protocol

    [follows sh m Q]: run after the shared world has reached [sh], [m] moves the
    world only by protocol steps, whatever its outcome, and if it returns [a]
    then [Q a] holds of the world it returns in. *)
Section Refinement.
Context {Payload Object Receipt E : Type} {ports : ReplicaPorts Payload Object Receipt E}.
Variable binding : list N.
(** The other hosts of the repository follow the same protocol. *)
Hypothesis others_follow : forall (sh : Shared Object) (e : E),
  rtc (dstep binding) sh (port_others sh e).1.
Implicit Types (sh : Shared Object) (w : World (Object := Object) (E := E)).

Definition received_admitted w : Prop :=
  forall a, w_received w = Some a -> exists o q, EvAdmitted o q a ∈ sh_log (w_shared w).

Definition inv w : Prop := coherent (w_shared w) /\ received_admitted w.

Definition follows {A} sh (m : M World A) (Q : A -> Shared Object -> Prop) : Prop :=
  forall w, inv w -> extends sh (w_shared w) ->
  rtc (dstep binding) (w_shared w) (w_shared (m w).2) /\ inv (m w).2 /\
  forall a, (m w).1 = Ok a -> Q a (w_shared (m w).2).

Lemma extends_trans sh1 sh2 sh3 : extends sh1 sh2 -> extends sh2 sh3 -> extends sh1 sh3.
Proof. intros [??] [??]. split; etrans; eauto. Qed.

Lemma extends_history sh sh' st : st ∈ history sh -> extends sh sh' -> st ∈ history sh'.
Proof. intros ? [_ H]. by apply H. Qed.

Lemma extends_log sh sh' ev : ev ∈ sh_log sh -> extends sh sh' -> ev ∈ sh_log sh'.
Proof. intros ? [H _]. by apply H. Qed.

Lemma follows_ret {A} sh (a : A) (Q : A -> Shared Object -> Prop) :
  (forall sh', extends sh sh' -> Q a sh') -> follows sh (mret a) Q.
Proof.
  intros HQ w Hi He. split_and!; [apply rtc_refl|done|]. intros ? [= <-]. by apply HQ.
Qed.

Lemma follows_throw {A} sh e (Q : A -> Shared Object -> Prop) : follows sh (throwM e) Q.
Proof. intros w Hi He. by split_and!; [apply rtc_refl|done|]. Qed.

Lemma follows_lift {A} sh (r : result A) : follows sh (liftM r) (fun a _ => r = Ok a).
Proof. intros w Hi He. by split_and!; [apply rtc_refl|done|]. Qed.

Lemma follows_bind {A B} sh (m : M World A) (f : A -> M World B) Q R :
  follows sh m Q ->
  (forall a sh', extends sh sh' -> Q a sh' -> follows sh' (f a) R) ->
  follows sh (m ≫= f) R.
Proof.
  intros Hm Hf w Hi He. destruct (Hm w Hi He) as (Hs & Hi' & HQ).
  unfold mbind, M_bind. destruct (m w) as [[a|e] w1]; cbn in *; [|done].
  destruct (Hf a (w_shared w1)) with w1 as (Hs' & Hi'' & HR); auto.
  - eapply extends_trans; [done|]. by eapply dsteps_extends.
  - split; done.
  - split_and!; [by etrans|done..].
Qed.

Lemma follows_weaken {A} sh (m : M World A) (Q R : A -> Shared Object -> Prop) :
  follows sh m Q -> (forall a sh', extends sh sh' -> Q a sh' -> R a sh') -> follows sh m R.
Proof.
  intros Hm HQR w Hi He. destruct (Hm w Hi He) as (Hs & Hi' & HQ).
  split_and!; [done..|]. intros a Ha. apply HQR; [|by apply HQ].
  eapply extends_trans; [done|]. by eapply dsteps_extends.
Qed.

Lemma follows_call {A} sh (port : E -> result A * E) : follows sh (call port) (fun _ _ => True).
Proof.
  intros w Hi He. unfold call. destruct (port (w_env w)); cbn.
  by split_and!; [apply rtc_refl|done|].
Qed.

Lemma follows_get sh :
  follows sh getM (fun w sh' => received_admitted w /\ w_shared w = sh').
Proof. intros w Hi He. split_and!; [apply rtc_refl|done|]. intros ? [= <-]. by split; [apply Hi|]. Qed.

Lemma received_mono w w' :
  received_admitted w -> w_received w' = w_received w ->
  extends (w_shared w) (w_shared w') -> received_admitted w'.
Proof.
  intros Hr Heq He a Ha. rewrite Heq in Ha. destruct (Hr a Ha) as (o & q & ?).
  exists o, q. by eapply extends_log.
Qed.

(** A computation that always returns and moves the world by protocol steps. *)
Lemma follows_dsteps {A} sh (m : M World A) (a : World -> A) (Q : A -> Shared Object -> Prop) :
  (forall w, inv w -> extends sh (w_shared w) ->
    (m w).1 = Ok (a w) /\ w_received (m w).2 = w_received w /\
    rtc (dstep binding) (w_shared w) (w_shared (m w).2) /\ Q (a w) (w_shared (m w).2)) ->
  follows sh m Q.
Proof.
  intros H w [Hc Hr] He. destruct (H w) as (H1 & H2 & H3 & H4); [done..|].
  split_and!; [done| |congruence].
  split; [by eapply dsteps_coherent|]. eapply received_mono; [done..|]. by eapply dsteps_extends.
Qed.

Lemma follows_event sh ev :
  (forall sh', extends sh sh' ->
     dstep binding sh' (mkShared (sh_current sh') (sh_past sh') (ev :: sh_log sh'))) ->
  follows sh (record_event ev) (fun _ sh' => ev ∈ sh_log sh').
Proof.
  intros Hd. apply (follows_dsteps _ _ (fun _ => tt)). intros w Hi He.
  split_and!; [done..| |cbn; set_solver]. apply rtc_once, Hd, He.
Qed.

Lemma follows_others sh : follows sh others (fun _ _ => True).
Proof.
  apply (follows_dsteps _ _ (fun _ => tt)). intros w Hi He. unfold others.
  pose proof (others_follow (w_shared w) (w_env w)) as Ho.
  by destruct (port_others (w_shared w) (w_env w)).
Qed.

Lemma follows_current sh :
  follows sh (w ← getM; mret (sh_current (w_shared w))) (fun st sh' => st ∈ history sh').
Proof.
  apply (follows_dsteps _ _ (fun w => sh_current (w_shared w))). intros w Hi He.
  split_and!; [done..|apply rtc_refl|]. cbn. set_solver.
Qed.

Ltac step_with lem := eapply follows_bind; [apply lem|]; cbv beta;
  let a := fresh "a" in let s := fresh "sh" in let He := fresh "He" in let Hq := fresh "Hq" in
  intros a s He Hq.

Lemma follows_state sh :
  follows sh (state binding) (fun st sh' => st ∈ history sh' /\ validateState st binding = Ok tt).
Proof.
  unfold state, guard, repository_read. step_with @follows_call.
  eapply follows_bind with (Q := fun st sh' => st ∈ history sh').
  { step_with follows_others. step_with @follows_call. apply follows_current. }
  intros st sh1 He1 Hst. step_with @follows_lift. step_with @follows_call.
  apply follows_ret. intros sh' Hsh'. split; [|by destruct a0].
  eauto using extends_history.
Qed.

Lemma known_content_mono log log' st hash identity :
  log ⊆ log' -> known_content log st hash identity -> known_content (Object := Object) log' st hash identity.
Proof. unfold known_content. intros Hl [?|[?|(o & q & a & ? & ?)]]; eauto 10. Qed.

Lemma commit_step_mono log log' (cur next : ReplicaState Object) :
  log ⊆ log' -> commit_step log cur next -> commit_step log' cur next.
Proof.
  intros Hl []; [eapply commit_advance; [apply Hl; eassumption|done]
    |by apply commit_enqueue|apply commit_acknowledge; auto
    |apply commit_known; eauto using known_content_mono].
Qed.

(** Replacing the state that was read by a protocol successor of it: the
    compare-and-swap makes it a protocol step of the repository. *)
Lemma replace_step w (st next : ReplicaState Object) :
  inv w -> st ∈ history (w_shared w) -> s_generation (sh_current (w_shared w)) = s_generation st ->
  commit_step (sh_log (w_shared w)) st next -> validateState next binding = Ok tt ->
  let w' := with_shared (fun sh => mkShared next (history sh) (sh_log sh)) w in
  rtc (dstep binding) (w_shared w) (w_shared w') /\ inv w' /\ next ∈ history (w_shared w').
Proof.
  intros Hi Hst Hg Hs Hv w'. pose proof Hi as [Hc Hr].
  apply coherent_cas in Hg as ->; [|done..].
  assert (dstep binding (w_shared w) (w_shared w')) as Hd by by constructor.
  split_and!; [by apply rtc_once|split|].
  - by eapply dstep_coherent.
  - eapply received_mono; [done..|]. by eapply dstep_extends.
  - cbn. set_solver.
Qed.

Lemma follows_repository_commit sh (st next : ReplicaState Object) :
  st ∈ history sh -> commit_step (sh_log sh) st next -> validateState next binding = Ok tt ->
  follows sh (repository_commit (s_generation st) next) (fun _ sh' => next ∈ history sh').
Proof.
  intros Hst Hs Hv. unfold repository_commit. step_with follows_others. step_with @follows_call.
  intros w Hi He'. unfold mbind, M_bind, getM; cbn [fst snd].
  assert (extends sh (w_shared w)) as Hx by eauto using extends_trans.
  destruct ((_ =? _) && _) eqn:Happ.
  - apply andb_true_iff in Happ as [Hg%Z.eqb_eq _].
    destruct (replace_step w st next) as (Hd & Hi' & Hn);
      [done|by eapply extends_history|done|eapply commit_step_mono; [apply Hx|done]|done|].
    destruct a0; cbn; [done| |]; by split_and!; [try apply rtc_refl|done|].
  - destruct a0; cbn; by split_and!; [apply rtc_refl|done|].
Qed.

Lemma follows_commit sh (st next : ReplicaState Object) :
  st ∈ history sh -> s_generation next = s_generation st ->
  commit_step (sh_log sh) st (next_generation next) ->
  follows sh (commit binding st next)
    (fun st' sh' => st' = next_generation next /\ st' ∈ history sh').
Proof.
  intros Hst Hg Hs. unfold commit, requireM, guard. rewrite <- Hg. fold (next_generation next).
  step_with @follows_lift. step_with @follows_lift. step_with @follows_call.
  eapply follows_bind.
  { rewrite Hg. apply (follows_repository_commit _ st).
    - eauto using extends_history.
    - eapply commit_step_mono; [|done]. eapply extends_trans; [done|]. by eapply extends_trans.
    - by destruct a. }
  cbv beta. intros _ sh3 He3 Hn. step_with @follows_call. apply follows_ret.
  eauto using extends_history.
Qed.

(** *** The operations *)
Definition ascending (previous : Z) (entries : list InventoryEntry) : Prop :=
  is_ok (validateEntries entries previous).

Lemma ascending_cons previous entry rest :
  ascending previous (entry :: rest) ->
  previous < e_sequence entry /\ ascending (e_sequence entry) rest.
Proof.
  unfold ascending; cbn. destruct (_ || _) eqn:Hb; [done|].
  apply orb_false_iff in Hb as [_ Hb%Z.leb_gt]. done.
Qed.

Lemma follows_set_received sh admitted o q :
  EvAdmitted o q admitted ∈ sh_log sh ->
  follows sh (modifyM (fun w => mkWorld (w_env w) (w_shared w) (Some admitted) (w_inventory w)))
    (fun _ _ => True).
Proof.
  intros Hin w [Hc Hr] He. split_and!; [apply rtc_refl|split; [done|]|done].
  intros a [= <-]. exists o, q. by eapply extends_log.
Qed.

Lemma follows_pullEntries entries sh (st : ReplicaState Object) :
  st ∈ history sh -> ascending (s_cursor st) entries ->
  follows sh (pullEntries binding entries st) (fun st' sh' => st' ∈ history sh').
Proof.
  revert sh st. induction entries as [|entry rest IH]; intros sh st Hst Ha.
  { apply follows_ret. eauto using extends_history. }
  apply ascending_cons in Ha as [Hlt Ha]. cbn [pullEntries]. unfold guard.
  step_with @follows_call. step_with @follows_call.
  eapply follows_bind with (Q := fun ad sh' => EvAdmitted a (e_sequence entry) ad ∈ sh_log sh').
  { unfold admitObject. step_with @follows_call. eapply follows_bind.
    { apply follows_event. intros. constructor. }
    cbv beta. intros ? sh3 ? Hin. apply follows_ret. eauto using extends_log. }
  cbv beta. intros admitted sh2 He2 Hin. step_with @follows_call.
  eapply follows_bind.
  { apply follows_commit; [eauto using extends_history|done|].
    eapply commit_advance; [by eapply extends_log|done]. }
  cbv beta. intros st' sh4 He4 [-> Hin4]. eapply follows_bind.
  { eapply follows_set_received. eauto using extends_log. }
  cbv beta. intros _ sh5 He5 _. apply IH; [by eapply extends_history|done].
Qed.

Lemma validateInventory_ascending inventory after :
  validateInventory inventory after = Ok tt -> ascending after (i_objects inventory).
Proof.
  unfold validateInventory, ascending. case_match; [done|].
  intros (? & -> & _)%bind_ok. done.
Qed.

Lemma follows_pullPages pages sh (st : ReplicaState Object) :
  st ∈ history sh -> follows sh (pullPages binding pages st) (fun _ _ => True).
Proof.
  revert sh st. induction pages as [|pages IH]; intros sh st Hst; [by apply follows_ret|].
  cbn [pullPages]. unfold guard. step_with @follows_call. step_with @follows_call. step_with @follows_lift.
  step_with @follows_call. eapply follows_bind.
  { apply follows_pullEntries; [eauto 6 using extends_history|].
    destruct a1. by apply validateInventory_ascending. }
  cbv beta. intros st' sh4 He4 Hst'. eapply follows_bind with (Q := fun _ _ => True).
  { apply (follows_dsteps _ _ (fun _ => tt)). intros w Hi Hw. by split_and!; [..|apply rtc_refl|]. }
  cbv beta. intros _ sh5 He5 _. destruct (i_hasMore a0).
  - apply IH. by eapply extends_history.
  - by apply follows_ret.
Qed.

Lemma follows_pullNow sh : follows sh (pullNow binding) (fun _ _ => True).
Proof.
  unfold pullNow. step_with follows_state. apply follows_pullPages. naive_solver.
Qed.

Lemma follows_observe sh phase bytes : follows sh (observe phase bytes) (fun _ _ => True).
Proof.
  apply (follows_dsteps _ _ (fun _ => tt)). intros w Hi Hw. unfold observe, call.
  destruct (port_observe phase bytes (w_env w)). by split_and!; [..|apply rtc_refl|].
Qed.

Lemma follows_deliver sh (st : ReplicaState Object) inspect :
  st ∈ history sh -> follows sh (deliver binding st inspect) (fun _ _ => True).
Proof.
  intros Hst. unfold deliver, guard. destruct (s_pending st) as [p|] eqn:Hp;
    [|step_with @follows_call; apply follows_throw].
  step_with @follows_call. eapply follows_bind with 
    (Q := fun _ sh' => EvUploaded (p_object p) (p_requestId p) (default 0 (p_observedSequence p)) ∈ sh_log sh').
  { unfold upload. eapply follows_bind.
    { apply follows_event. intros sh2 He2. eapply d_uploaded; [|done].
      eauto using extends_history. }
    cbv beta. intros [] sh2 He2 Hup. eapply follows_weaken; [apply follows_call|]. eauto using extends_log. }
  cbv beta. intros receipt sh2 He2 Hup. step_with @follows_call.
  eapply follows_bind with 
    (Q := fun _ sh' => EvVerified (p_object p) (p_requestId p) ∈ sh_log sh').
  { unfold verifyReceipt. step_with @follows_call. apply follows_event. intros.
    eapply d_verified. eauto using extends_log. }
  cbv beta. intros _ sh4 He4 Hver. step_with @follows_call. eapply follows_bind.
  { apply follows_commit; [eauto 8 using extends_history|done|].
    apply commit_acknowledge; [done|]. by eapply extends_log. }
  cbv beta. intros st' sh6 He6 _. step_with follows_observe. destruct inspect; cbn [negb]; [|by apply follows_ret].
  step_with @follows_call. step_with @follows_call. by apply follows_ret.
Qed.

Lemma follows_stillAt sh revision : follows sh (stillAt revision) (fun _ _ => True).
Proof.
  unfold stillAt. destruct (truthy revision); [|by apply follows_ret].
  step_with @follows_call. by apply follows_ret.
Qed.

Lemma alreadyStored_known sh (st : ReplicaState Object) w (content : ReplicaContent Payload) :
  received_admitted w -> extends (w_shared w) sh -> alreadyStored st (w_received w) content ->
  known_content (sh_log sh) st (c_hash content) (c_identity content).
Proof.
  intros Hr He. unfold alreadyStored, known_content.
  intros [[H|H]%orb_prop_elim|[Ht H]%andb_prop_elim]%orb_prop_elim.
  - apply bool_decide_unpack in H. by left.
  - apply bool_decide_unpack in H. destruct (w_received w) as [a|] eqn:Hw; [|done].
    injection H as ->. destruct (Hr a Hw) as (o & q & ?).
    right; right. exists o, q, a. eauto using extends_log.
  - assert (is_Some (c_identity content)) by (destruct (c_identity content); [eauto|done]).
    apply orb_prop_elim in H as [H|H]; apply bool_decide_unpack in H; [by right; left|].
    destruct (w_received w) as [a|] eqn:Hw; cbn in H; [|by rewrite <- H in *; destruct H0].
    destruct (Hr a Hw) as (o & q & ?). right; right. exists o, q, a.
    eauto using extends_log.
Qed.

Lemma follows_pushNow sh : follows sh (pushNow binding) (fun _ _ => True).
Proof.
  unfold pushNow, guard, requireM. step_with follows_state. destruct Hq as [Hst _].
  destruct (s_pending a) as [p|] eqn:Hp; cbn [bool_decide]; [by apply follows_deliver|].
  step_with @follows_call. step_with @follows_call. destruct (_ && _).
  { step_with follows_observe. by apply follows_ret. }
  step_with @follows_call. step_with @follows_call. step_with follows_stillAt. step_with @follows_lift.
  eapply follows_bind; [apply follows_get|]. cbv beta. intros w sh' He' [Hr <-].
  assert (a ∈ history (w_shared w)) as Hw by eauto 10 using extends_history.
  destruct (alreadyStored a (w_received w) a2) eqn:Has.
  - eapply follows_bind.
    { apply follows_commit; [done..|]. apply commit_known; [done|].
      eapply alreadyStored_known; [done|by split|by rewrite Has]. }
    cbv beta. intros. step_with follows_observe. by apply follows_ret.
  - step_with @follows_call. step_with @follows_call. step_with follows_stillAt. step_with @follows_call.
    eapply follows_bind.
    { apply follows_commit; [eauto 6 using extends_history|done|]. by apply commit_enqueue. }
    cbv beta. intros st' sh'' He'' [_ Hst']. by apply follows_deliver.
Qed.

Lemma follows_drainPending sh : follows sh (drainPending binding) (fun _ _ => True).
Proof.
  unfold drainPending. step_with follows_state. destruct (bool_decide _); [|by apply follows_ret].
  apply follows_deliver. naive_solver.
Qed.

Lemma follows_sync sh : follows sh (sync binding) (fun _ _ => True).
Proof.
  unfold sync. step_with follows_state. destruct (bool_decide _).
  - eapply follows_bind; [apply follows_deliver; naive_solver|]. intros. by apply follows_ret.
  - step_with follows_pullNow. step_with follows_pushNow. by apply follows_ret.
Qed.

Lemma follows_operation sh op : follows sh (run_operation binding op) (fun _ _ => True).
Proof.
  destruct op; [apply follows_pullNow|apply follows_pushNow|apply follows_drainPending|apply follows_sync|].
  intros w [Hc Hr] He. split_and!; [apply rtc_refl| |done]. by split.
Qed.

Lemma enqueue_follows ops w :
  inv w -> rtc (dstep binding) (w_shared w) (w_shared (enqueue binding ops w).2) /\
  inv (enqueue binding ops w).2.
Proof.
  revert w. induction ops as [|op ops IH]; intros w Hi; cbn; [by split; [apply rtc_refl|]|].
  destruct (follows_operation (w_shared w) op w) as (Hd & Hi' & _); [done|by split|].
  destruct (run_operation binding op w) as [r w1]; cbn in *.
  specialize (IH w1 Hi') as [Hd' Hi'']. destruct (enqueue binding ops w1) as [rs w2]; cbn in *.
  split; [by etrans|done].
Qed.
End Refinement.

(** ** Theorems *)

(** A host that starts on a repository holding [st]. *)
Definition started {Object E : Type} (e : E) (st : ReplicaState Object) : World :=
  mkWorld e (mkShared st [] []) None None.

Lemma started_inv {Object E} (e : E) (st : ReplicaState Object) : inv (started e st).
Proof. split; [repeat constructor|done]. Qed.

(** C1. The engine implements the outbox protocol.  Whatever the ports do
    (throw at any call, lose a commit or leave it uncertain, let other hosts
    of the same repository act in between), any sequence of pull, push, sync,
    drain and restart moves the repository and the outside world only by steps
    of the protocol [dstep]: a cursor moves forward only over an admitted
    object, only a durably queued request is uploaded, only an empty outbox is
    filled, and only a verified receipt empties it. *)
Theorem replica_engine_refines {Payload Object Receipt E : Type}
    {ports : ReplicaPorts Payload Object Receipt E} (binding : list N) (e : E)
    (st : ReplicaState Object) (ops : list Operation) :
  (forall (sh : Shared Object) (e : E), rtc (dstep binding) sh (port_others sh e).1) ->
  rtc (dstep binding) (mkShared st [] [])
    (w_shared (enqueue binding ops (started e st)).2).
Proof. intros Ho. apply (enqueue_follows binding Ho ops (started e st)), started_inv. Qed.

(** C2. An uncertain upload is never replaced or dropped.  Every upload that
    ever left carried the object, request id and sequence of a request that
    was in the repository before; and a request in the outbox stays there,
    across failures, restarts and other hosts, until a receipt for exactly that
    object and request id was verified. *)
Theorem replica_outbox_never_dropped {Payload Object Receipt E : Type}
    {ports : ReplicaPorts Payload Object Receipt E} (binding : list N) (e : E)
    (st : ReplicaState Object) (before after : list Operation) :
  (forall (sh : Shared Object) (e : E), rtc (dstep binding) sh (port_others sh e).1) ->
  let w1 := (enqueue binding before (started e st)).2 in
  let w2 := (enqueue binding after w1).2 in
  uploads_durable (w_shared w2) /\
  forall p, s_pending (sh_current (w_shared w1)) = Some p ->
    s_pending (sh_current (w_shared w2)) = Some p \/
    EvVerified (p_object p) (p_requestId p) ∈ sh_log (w_shared w2).
Proof.
  intros Ho w1 w2.
  destruct (enqueue_follows binding Ho before (started e st)) as [H1 Hi]; [apply started_inv|].
  destruct (enqueue_follows binding Ho after w1 Hi) as [H2 _]. fold w1 in H1. fold w2 in H2.
  split.
  - eapply dsteps_uploads_durable; [exact H2|]. eapply dsteps_uploads_durable; [exact H1|].
    intros o r n. cbn. set_solver.
  - intros p Hp. apply (dsteps_kept binding p _ _ H2). by left.
Qed.

(** C11. Replica progress is monotone and backed by admissions.  The cursor
    never moves backwards and, once moved, is the sequence of an object whose
    durable admission completed; the generation of the repository is the number
    of commits since the start, so no commit overwrites an unseen one. *)
Theorem replica_cursor_only_admitted {Payload Object Receipt E : Type}
    {ports : ReplicaPorts Payload Object Receipt E} (binding : list N) (e : E)
    (st : ReplicaState Object) (ops : list Operation) :
  (forall (sh : Shared Object) (e : E), rtc (dstep binding) sh (port_others sh e).1) ->
  let sh := w_shared (enqueue binding ops (started e st)).2 in
  s_cursor st <= s_cursor (sh_current sh) /\
  (s_cursor (sh_current sh) = s_cursor st \/
   exists o a, EvAdmitted o (s_cursor (sh_current sh)) a ∈ sh_log sh) /\
  s_generation (sh_current sh) = s_generation st + Z.of_nat (length (sh_past sh)).
Proof.
  intros Ho sh.
  destruct (enqueue_follows binding Ho ops (started e st)) as [H _]; [apply started_inv|].
  fold sh in H. pose proof (dsteps_progress _ _ _ H) as [Hc Hg].
  cbn [w_shared started sh_current sh_past length] in *. split_and!; [done| |lia].
  apply (dsteps_cursor_admitted binding (s_cursor st) _ _ H). by left.
Qed.

(** *** A host whose first commit is uncertain while another host admits *)
#[local] Instance flaky_ports : ReplicaPorts unit unit unit nat := {
  port_read e := (Ok tt, e);
  port_commit e := (match e with O => CommitUncertain "timeout" | _ => CommitOk end, S e);
  port_revision e := (Ok (Some (js "r1")), e);
  port_capture e := (Ok (mkContent (js "hash") 10 tt None), e);
  port_seal _ e := (Ok tt, e);
  port_inventory cursor e := (Ok (mkInventory [] cursor false), e);
  port_download _ e := (Ok tt, e);
  port_upload _ _ _ e := (Ok tt, e);
  port_admit _ _ e := (Ok (mkAdmission (js "other") None), e);
  port_verifyReceipt _ _ _ e := (Ok tt, e);
  port_guard e := (Ok tt, e);
  port_observe _ _ e := (Ok tt, e);
  port_randomUUID e := (js "uuid", e);
  port_others sh e :=
    (mkShared (sh_current sh) (sh_past sh)
       (EvAdmitted tt 7 (mkAdmission (js "x") None) :: sh_log sh), e) }.

Lemma flaky_others (sh : Shared unit) (e : nat) : rtc (dstep (js "b")) sh (port_others sh e).1.
Proof. apply rtc_once. cbn. apply d_admitted. Defined.

Definition flaky_state : ReplicaState unit := mkState 1 (js "b") 0 0 [] None None None.

Lemma replica_engine_refines_witness :
  rtc (dstep (js "b")) (mkShared flaky_state [] [])
    (w_shared (enqueue (js "b") [Push; Restart; Sync] (started 0%nat flaky_state)).2).
Proof. apply (replica_engine_refines (ports := flaky_ports)), flaky_others. Defined.

Lemma replica_outbox_never_dropped_witness :
  let w1 := (enqueue (js "b") [Push] (started 0%nat flaky_state)).2 in
  let w2 := (enqueue (js "b") [Restart; Sync] w1).2 in
  uploads_durable (w_shared w2) /\ is_Some (s_pending (sh_current (w_shared w1))).
Proof.
  split; [|vm_compute; eauto].
  apply (replica_outbox_never_dropped (ports := flaky_ports) (js "b") 0%nat flaky_state [Push]
    [Restart; Sync]), flaky_others.
Defined.

Lemma replica_cursor_only_admitted_witness :
  let sh := w_shared (enqueue (js "b") [Push; Restart; Sync] (started 0%nat flaky_state)).2 in
  s_generation (sh_current sh) = 0 + Z.of_nat (length (sh_past sh)) /\ length (sh_past sh) = 2%nat.
Proof.
  split; [|vm_compute; reflexivity].
  apply (replica_cursor_only_admitted (ports := flaky_ports) (js "b") 0%nat flaky_state
    [Push; Restart; Sync]), flaky_others.
Defined.
