(* ===== verification/ReplicaProgress.v ===== *)
(** * Replica engine: progress

    With a store that answers and a session that stays authorised, the
    operations of [ReplicaEngine.v] do their work: a pull admits every object
    the store has after the cursor (up to its eight pages of 128), a push
    publishes the captured content, and a sync that starts with an uncertain
    upload resolves exactly that request.  These are total statements: the
    operation returns. *)
From stdpp Require Import base numbers list gmap strings sorting.
From Stdlib Require Import ZArith Lia.
From S2P Require Import Prelude ReplicaEngine.
Local Open Scope Z_scope.

(** ** Total correctness *)
Section Progress.
Context {Payload Object Receipt E : Type} {ports : ReplicaPorts Payload Object Receipt E}.
Variable binding : list N.
Implicit Types (sh : Shared Object) (w : World (Object := Object) (E := E)) (st : ReplicaState Object).

(** Worlds that differ only in the environment of the ports. *)
Definition similar w w' : Prop :=
  w_shared w' = w_shared w /\ w_received w' = w_received w.

Lemma returns_call {A} (port : E -> result A * E) w (P : A -> Prop) (Q : A -> World -> Prop) :
  (forall e, exists a, (port e).1 = Ok a /\ P a) ->
  (forall a w', P a -> similar w w' -> Q a w') -> returns (call port) w Q.
Proof.
  intros Hp HQ. destruct (Hp (w_env w)) as (a & Ha & HP). unfold returns, call.
  destruct (port (w_env w)) as [r e]; cbn in Ha; subst r. eexists a, _. split; [done|].
  by apply HQ.
Qed.

(** The store answers, no other host acts, and the session stays authorised. *)
Class Quiet : Prop := {
  quiet_guard e : (port_guard e).1 = Ok tt;
  quiet_read e : (port_read e).1 = Ok tt;
  quiet_commit e : (port_commit e).1 = CommitOk;
  quiet_others (sh : Shared Object) e : (port_others sh e).1 = sh }.
Context {quiet : Quiet}.

Lemma returns_guard w (Q : unit -> World -> Prop) :
  (forall w', similar w w' -> Q tt w') -> returns guard w Q.
Proof.
  intros HQ. apply (returns_call _ _ (fun _ => True)); [eauto using quiet_guard|].
  intros [] w' _. apply HQ.
Qed.

Lemma returns_others w (Q : unit -> World -> Prop) :
  (forall w', similar w w' -> Q tt w') -> returns others w Q.
Proof.
  intros HQ. unfold returns, others. pose proof (quiet_others (w_shared w) (w_env w)) as Ho.
  destruct (port_others _ _) as [sh e]; cbn in Ho; subst sh. eexists tt, _. split; [done|].
  by apply HQ.
Qed.

Lemma similar_trans w1 w2 w3 : similar w1 w2 -> similar w2 w3 -> similar w1 w3.
Proof. unfold similar. intuition congruence. Qed.

Lemma returns_state w (Q : ReplicaState Object -> World -> Prop) :
  validateState (sh_current (w_shared w)) binding = Ok tt ->
  (forall w', similar w w' -> Q (sh_current (w_shared w)) w') -> returns (state binding) w Q.
Proof.
  intros Hv HQ. unfold state, repository_read.
  apply returns_bind, returns_guard. intros w1 H1.
  apply returns_bind, returns_bind, returns_others. intros w2 H2.
  apply returns_bind, (returns_call _ _ (fun _ => True)); [eauto using quiet_read|].
  intros _ w3 _ H3. apply returns_bind. exists w3, w3. split; [done|]. apply returns_ret.
  assert (similar w w3) as Hs by eauto using similar_trans.
  assert (w_shared w3 = w_shared w) as -> by apply Hs.
  apply returns_bind. eapply returns_lift; [done|]. apply returns_bind, returns_guard.
  intros w4 H4. apply returns_ret. eauto using similar_trans.
Qed.

(** A commit of the current state's successor takes effect. *)
Lemma returns_commit w st next (Q : ReplicaState Object -> World -> Prop) :
  sh_current (w_shared w) = st -> s_generation next = s_generation st ->
  s_binding next = s_binding st -> s_cursor st <= s_cursor next ->
  validateState (next_generation next) binding = Ok tt ->
  (forall w', w_shared w' = mkShared (next_generation next) (history (w_shared w)) (sh_log (w_shared w)) ->
    w_received w' = w_received w -> Q (next_generation next) w') ->
  returns (commit binding st next) w Q.
Proof.
  intros Hcur Hg Hb Hc Hv HQ. unfold commit, requireM. rewrite <- Hg. fold (next_generation next).
  apply returns_bind. eapply returns_lift; [done|].
  apply returns_bind. eapply returns_lift.
  { cbn [s_cursor next_generation]. assert ((s_cursor next <? s_cursor st) = false) as -> by lia. done. }
  apply returns_bind, returns_guard. intros w1 H1.
  apply returns_bind. unfold repository_commit. apply returns_bind, returns_others. intros w2 H2.
  apply returns_bind, (returns_call _ _ (fun c => c = CommitOk)).
  { intros e. pose proof (quiet_commit e). destruct (port_commit e); cbn in *. eauto. }
  intros _ w3 -> H3.
  assert (similar w w3) as [Hs Hr] by eauto using similar_trans.
  apply returns_bind. exists w3, w3. split; [done|].
  rewrite Hs, Hcur. cbn [s_binding next_generation]. rewrite Hg, Hb, Z.eqb_refl, bool_decide_eq_true_2 by done.
  cbn [andb]. eexists tt, _. split; [done|].
  apply returns_bind, returns_guard. intros w4 [H4 H4'].
  apply returns_ret. apply HQ; cbn in *; congruence.
Qed.

(** *** Pull *)
Lemma validateState_inv st :
  validateState st binding = Ok tt ->
  s_version st = 1 /\ token (s_binding st) /\ s_binding st = binding /\
  positiveCounter (s_generation st) /\ positiveCounter (s_cursor st) /\
  longer (s_lastUploaded st) 128 = false /\ optionalToken (s_uploadedRevision st) /\
  optionalToken (s_contentIdentity st) /\
  forall p, s_pending st = Some p ->
    validatePending p = Ok tt /\ default 0 (p_observedSequence p) <= s_cursor st.
Proof.
  unfold validateState. case_match eqn:H1; [done|]. case_match eqn:H2; [done|]. bool_to_prop. intros Hp.
  split_and!; try done; try by apply Is_true_true.
  intros p Heq. rewrite Heq in Hp. apply bind_ok in Hp as ([] & Hvp & Hlt).
  split; [done|]. case_match; [done|lia].
Qed.

Lemma validateState_intro st :
  s_version st = 1 -> token (s_binding st) -> s_binding st = binding ->
  positiveCounter (s_generation st) -> positiveCounter (s_cursor st) ->
  longer (s_lastUploaded st) 128 = false -> optionalToken (s_uploadedRevision st) ->
  optionalToken (s_contentIdentity st) ->
  (forall p, s_pending st = Some p ->
    validatePending p = Ok tt /\ default 0 (p_observedSequence p) <= s_cursor st) ->
  validateState st binding = Ok tt.
Proof.
  intros H1 H2%Is_true_true H3 H4%Is_true_true H5%Is_true_true H6 H7%Is_true_true H8%Is_true_true H9.
  unfold validateState. rewrite H1, H2, H4, H5, H6, H7, H8, bool_decide_eq_true_2 by done. cbn.
  destruct (s_pending st) as [p|]; [|done]. destruct (H9 p eq_refl) as [-> Hle]. cbn.
  assert ((s_cursor st <? default 0 (p_observedSequence p)) = false) as -> by lia. done.
Qed.

Lemma positiveCounter_spec z : positiveCounter z <-> 0 <= z <= MAX_SAFE_INTEGER.
Proof. unfold positiveCounter, isSafeInteger, MAX_SAFE_INTEGER. rewrite !andb_True, !Is_true_true. lia. Qed.

Lemma validate_advance st q :
  validateState st binding = Ok tt -> s_cursor st < q -> positiveCounter q ->
  s_generation st < MAX_SAFE_INTEGER ->
  validateState (next_generation (with_cursor st q)) binding = Ok tt.
Proof.
  intros (? & ? & ? & Hg%positiveCounter_spec & ? & ? & ? & ? & Hp)%validateState_inv Hq Hpq Hmax.
  apply validateState_intro; cbn; try done.
  - apply positiveCounter_spec. lia.
  - intros p Heq. destruct (Hp p Heq). split; [done|lia].
Qed.

(** The states a pull goes through. *)
Fixpoint advances st (entries : list InventoryEntry) : ReplicaState Object :=
  match entries with
  | [] => st
  | entry :: rest => advances (next_generation (with_cursor st (e_sequence entry))) rest
  end.

Definition ev_sequence (ev : Event Object) : option Z :=
  match ev with EvAdmitted _ q _ => Some q | _ => None end.

(** After [w], exactly the objects of [entries] were admitted, in order. *)
Definition admitted_all (entries : list InventoryEntry) w w' : Prop :=
  exists evs, sh_log (w_shared w') = rev evs ++ sh_log (w_shared w) /\
    map ev_sequence evs = map (fun e => Some (e_sequence e)) entries.

Hypothesis download_ok : forall id e, is_ok (port_download id e).1.
Hypothesis admit_ok : forall (object : Object) q e, is_ok (port_admit object q e).1.

Lemma returns_pullEntries entries w st (Q : ReplicaState Object -> World -> Prop) :
  sh_current (w_shared w) = st -> validateState st binding = Ok tt ->
  ascending (s_cursor st) entries ->
  s_generation st + Z.of_nat (length entries) <= MAX_SAFE_INTEGER ->
  (forall w', sh_current (w_shared w') = advances st entries -> admitted_all entries w w' ->
    validateState (advances st entries) binding = Ok tt -> Q (advances st entries) w') ->
  returns (pullEntries binding entries st) w Q.
Proof.
  revert w st Q. induction entries as [|entry rest IH]; intros w st Q Hcur Hv Ha Hg HQ.
  { apply returns_ret, HQ; [done|by exists []|done]. }
  pose proof Ha as [Hlt Ha']%ascending_cons.
  assert (positiveCounter (e_sequence entry)) as Hpc.
  { revert Ha. unfold ascending; cbn. destruct (positiveCounter (e_sequence entry)); [done|].
    by rewrite orb_true_r. }
  cbn [length] in Hg. cbn [pullEntries].
  apply returns_bind, (returns_call _ _ (fun _ => True)).
  { intros e. specialize (download_ok (e_objectId entry) e).
    destruct (port_download (e_objectId entry) e).1; [eauto|done]. }
  intros object w1 _ H1. apply returns_bind, returns_guard. intros w2 H2.
  apply returns_bind. unfold admitObject. apply returns_bind, (returns_call _ _ (fun _ => True)).
  { intros e. specialize (admit_ok object (e_sequence entry) e).
    destruct (port_admit object (e_sequence entry) e).1; [eauto|done]. }
  intros ad w3 _ H3. apply returns_bind. eexists tt, _. split; [done|]. apply returns_ret.
  apply returns_bind, returns_guard. intros w4 [H4 H4'].
  assert (similar w w3) as [Hs Hr] by eauto using similar_trans.
  cbn in H4. rewrite Hs in H4.
  apply returns_bind, returns_commit; cbn [with_cursor s_generation s_binding s_cursor];
    [by rewrite H4|done..|lia|apply validate_advance; [done..|lia]|].
  intros w5 H5 H5'. apply returns_bind. eexists tt, _. split; [done|].
  apply IH; cbn [w_shared]; [by rewrite H5|apply validate_advance; [done..|lia]|done|cbn; lia|].
  intros w6 H6 (evs & Hlog & Hevs) Hv6. apply HQ; [done| |done].
  exists (EvAdmitted object (e_sequence entry) ad :: evs). cbn in *.
  rewrite Hlog, H5, H4; cbn. rewrite <- app_assoc. cbn. by rewrite Hevs.
Qed.

(** A store that holds the objects [remote], in ascending sequence, and serves
    those after a cursor in pages of 128. *)
Definition later (cursor : Z) (remote : list InventoryEntry) : list InventoryEntry :=
  List.filter (fun entry => cursor <? e_sequence entry) remote.

Definition page (cursor : Z) (remote : list InventoryEntry) : ReplicaInventory :=
  let objects := take 128 (later cursor remote) in
  mkInventory objects (default cursor (e_sequence <$> last objects))
    (128 <? length (later cursor remote))%nat.

Lemma ascending_app previous l k :
  ascending previous (l ++ k) <->
  ascending previous l /\ ascending (default previous (e_sequence <$> last l)) k.
Proof.
  revert previous. induction l as [|entry l IH]; intros previous; [by cbn; intuition|].
  unfold ascending in *. cbn [validateEntries app]. destruct (_ || _); [cbn; tauto|].
  rewrite IH. destruct l as [|x l]; [done|]. rewrite last_cons_cons.
  destruct (last (x :: l)) eqn:Hl; [done|]. by apply last_None in Hl.
Qed.

Lemma ascending_bounds previous l :
  ascending previous l -> Forall (fun e => previous < e_sequence e) l /\
    Forall (fun e => e_sequence e <= default previous (e_sequence <$> last l)) l.
Proof.
  revert previous. induction l as [|entry l IH]; intros previous H; [done|].
  apply ascending_cons in H as [Hlt [H1 H2]%IH]. destruct l as [|x l].
  - by repeat constructor.
  - rewrite last_cons_cons. destruct (last (x :: l)) eqn:Hl; [|by apply last_None in Hl].
    cbn [default] in *. split.
    + constructor; [lia|]. eapply Forall_impl; [exact H1|]. intros; cbn in *; lia.
    + constructor; [|done]. apply Forall_cons in H1 as [? _], H2 as [? _]. cbn in *. lia.
Qed.

Lemma lfilter_all {A} (f : A -> bool) l : Forall (fun x => f x = true) l -> List.filter f l = l.
Proof. induction 1 as [|x l Hx _ IH]; cbn; [done|]. by rewrite Hx, IH. Qed.

Lemma lfilter_none {A} (f : A -> bool) l : Forall (fun x => f x = false) l -> List.filter f l = [].
Proof. induction 1 as [|x l Hx _ IH]; cbn; [done|]. by rewrite Hx. Qed.

Lemma later_ascending c0 cursor remote :
  ascending c0 remote -> c0 <= cursor -> ascending cursor (later cursor remote).
Proof.
  revert c0. induction remote as [|entry rest IH]; intros c0 Ha Hc; [done|].
  unfold later; cbn. destruct (cursor <? e_sequence entry) eqn:Hlt.
  - rewrite lfilter_all.
    + revert Ha. unfold ascending; cbn. destruct (negb _ || negb _); [done|]. cbn.
      assert ((e_sequence entry <=? cursor) = false) as -> by lia. by case_match.
    + apply ascending_cons in Ha as [_ [Ha _]%ascending_bounds].
      eapply Forall_impl; [exact Ha|]. cbn. intros; lia.
  - apply (IH (e_sequence entry)); [by apply ascending_cons in Ha as [_ ?]|lia].
Qed.

Lemma later_later cursor c remote :
  cursor <= c -> later c (later cursor remote) = later c remote.
Proof.
  intros Hc. unfold later. induction remote as [|x r IH]; cbn; [done|].
  destruct (cursor <? e_sequence x) eqn:Hx; cbn; [by rewrite IH|].
  assert ((c <? e_sequence x) = false) as -> by lia. done.
Qed.

(** The page after the last object of a page. *)
Lemma later_next c0 cursor remote k :
  ascending c0 remote -> c0 <= cursor ->
  later (default cursor (e_sequence <$> last (take k (later cursor remote)))) remote
  = drop k (later cursor remote).
Proof.
  intros Ha Hc. pose proof (later_ascending _ _ _ Ha Hc) as Hl.
  set (l := later cursor remote) in *. set (c := default _ _).
  rewrite <- (take_drop k l) in Hl. apply ascending_app in Hl as [H1 H2]. fold c in H2.
  apply ascending_bounds in H1 as [H1 H1'], H2 as [H2 _]. fold c in H1'.
  assert (cursor <= c) as Hcc.
  { unfold c. destruct (last (take k l)) as [x|] eqn:Hx; cbn; [|lia].
    rewrite Forall_forall in H1. apply last_Some_elem_of in Hx. apply H1 in Hx. lia. }
  rewrite <- (later_later cursor c remote Hcc). fold l.
  rewrite <- (take_drop k l) at 1. unfold later. rewrite lfilter_app.
  rewrite lfilter_none, lfilter_all; [done| |].
  - eapply Forall_impl; [exact H2|]. cbn; intros; lia.
  - eapply Forall_impl; [exact H1'|]. cbn; intros; lia.
Qed.

Lemma page_valid c0 cursor remote :
  ascending c0 remote -> c0 <= cursor -> validateInventory (page cursor remote) cursor = Ok tt.
Proof.
  intros Ha Hc. pose proof (later_ascending _ _ _ Ha Hc) as Hl.
  rewrite <- (take_drop 128 (later cursor remote)) in Hl. apply ascending_app in Hl as [Hl _].
  unfold validateInventory, page. cbn [i_objects i_cursor i_hasMore].
  assert ((128 <? length (take 128 (later cursor remote)))%nat = false) as ->.
  { rewrite length_take. apply Nat.ltb_ge. lia. }
  unfold ascending in Hl. set (objects := take 128 _) in *.
  assert (validateEntries objects cursor = Ok (default cursor (e_sequence <$> last objects))) as Hve.
  { clearbody objects. clear - Hl. revert cursor Hl. induction objects as [|x o IH]; intros cursor Hl; [done|].
    cbn in *. destruct (_ || _); [done|]. rewrite IH by done. destruct o as [|y o]; [done|].
    rewrite last_cons_cons. destruct (last (y :: o)) eqn:Hy; [done|by apply last_None in Hy]. }
  rewrite Hve. unfold mbind, result_bind. rewrite Z.eqb_refl. cbn [negb orb].
  destruct (128 <? length (later cursor remote))%nat eqn:Hm; [|done]. apply Nat.ltb_lt in Hm.
  assert (length objects = 128)%nat as -> by (unfold objects; rewrite length_take; lia). done.
Qed.

Variable remote : list InventoryEntry.
Hypothesis remote_ascending : ascending 0 remote.
Hypothesis inventory_ok : forall cursor e, (port_inventory cursor e).1 = Ok (page cursor remote).

Lemma advances_app st l k : advances st (l ++ k) = advances (advances st l) k.
Proof. revert st. induction l as [|x l IH]; intros st; cbn; [done|]. apply IH. Qed.

Lemma advances_cursor st l :
  s_cursor (advances st l) = default (s_cursor st) (e_sequence <$> last l) /\
  s_generation (advances st l) = s_generation st + Z.of_nat (length l).
Proof.
  revert st. induction l as [|x l IH]; intros st; [cbn; split; [done|lia]|].
  cbn [advances]. destruct (IH (next_generation (with_cursor st (e_sequence x)))) as [-> ->].
  cbn [length s_generation next_generation with_cursor s_cursor]. split; [|lia].
  destruct l as [|y l]; [done|]. rewrite last_cons_cons.
  destruct (last (y :: l)) eqn:Hy; [done|by apply last_None in Hy].
Qed.

Lemma advances_pending st l : s_pending (advances st l) = s_pending st.
Proof. revert st. induction l as [|x l IH]; intros st; cbn; [done|]. by rewrite IH. Qed.

Lemma admitted_all_app l k w1 w2 w3 :
  admitted_all l w1 w2 -> admitted_all k w2 w3 -> admitted_all (l ++ k) w1 w3.
Proof.
  intros (e1 & H1 & H1') (e2 & H2 & H2'). exists (e1 ++ e2).
  rewrite H2, H1, rev_app_distr, app_assoc. split; [done|]. by rewrite !map_app, H1', H2'.
Qed.

Lemma returns_pullPages pages w st :
  let todo := later (s_cursor st) remote in
  (pages = O -> todo <> []) ->
  sh_current (w_shared w) = st -> validateState st binding = Ok tt -> 
  s_generation st + Z.of_nat (length todo) <= MAX_SAFE_INTEGER ->
  returns (pullPages binding pages st) w (fun done w' =>
    done = (length todo <=? 128 * pages)%nat /\
    sh_current (w_shared w') = advances st (take (128 * pages) todo) /\
    admitted_all (take (128 * pages) todo) w w' /\
    validateState (sh_current (w_shared w')) binding = Ok tt).
Proof.
  revert w st. induction pages as [|pages IH]; intros w st todo Hne Hcur Hv Hg.
  { apply returns_ret. destruct todo; [by destruct (Hne eq_refl)|]. cbn.
    split_and!; [done|done|by exists []|congruence]. }
  assert (0 <= s_cursor st) as Hc.
  { apply validateState_inv in Hv as (_&_&_&_&H&_). apply positiveCounter_spec in H. lia. }
  assert (ascending (s_cursor st) (take 128 todo)) as Hasc.
  { pose proof (later_ascending _ _ _ remote_ascending Hc) as Hl. fold todo in Hl.
    rewrite <- (take_drop 128 todo) in Hl. by apply ascending_app in Hl as [? _]. }
  cbn [pullPages]. apply returns_bind, returns_guard. intros w1 H1.
  apply returns_bind, (returns_call _ _ (fun i => i = page (s_cursor st) remote)); [eauto|].
  intros _ w2 -> H2. apply returns_bind.
  eapply returns_lift; [by eapply page_valid|].
  apply returns_bind, returns_guard. intros w3 H3. cbn [i_objects i_hasMore page]. fold todo.
  assert (similar w w3) as [Hs Hr] by eauto using similar_trans.
  apply returns_bind, returns_pullEntries; [by rewrite Hs|done..| |].
  { rewrite length_take. lia. }
  intros w4 H4 Hall Hv4. apply returns_bind. eexists tt, _. split; [done|].
  assert (admitted_all (take 128 todo) w w4) as Hall'.
  { destruct Hall as (evs & Hl & ?). exists evs. by rewrite Hl, Hs. }
  destruct (advances_cursor st (take 128 todo)) as [Hcur' Hgen'].
  assert (later (s_cursor (advances st (take 128 todo))) remote = drop 128 todo) as Hnext.
  { rewrite Hcur'. by apply (later_next 0). }
  replace (128 * S pages)%nat with (128 + 128 * pages)%nat by lia.
  destruct (128 <? length todo)%nat eqn:Hmore.
  - apply Nat.ltb_lt in Hmore. eapply returns_weaken.
    { apply IH; rewrite ?Hnext, ?Hgen', ?length_drop, ?length_take; cbn [w_shared]; [|done..|lia].
      intros _ Hd. apply (f_equal length) in Hd. rewrite length_drop in Hd. cbn in Hd. lia. }
    cbv beta. rewrite Hnext. intros b w' (-> & Hc' & Ha' & Hv').
    rewrite <- (take_take_drop todo 128 (128 * pages)), advances_app. split_and!; [|done| |done].
    + rewrite length_drop. apply eq_true_iff_eq. rewrite !Nat.leb_le. lia.
    + eapply admitted_all_app; [exact Hall'|done].
  - apply Nat.ltb_ge in Hmore. apply returns_ret. cbn [w_shared].
    rewrite (take_ge todo (128 + _)) by lia. rewrite (take_ge todo 128) in * by lia.
    split_and!; [|done..|by rewrite H4]. symmetry. apply Nat.leb_le. lia.
Qed.
End Progress.

Section Publish.
Context {Payload Object Receipt E : Type} {ports : ReplicaPorts Payload Object Receipt E}.
Variable binding : list N.
Context {quiet : Quiet}.
Implicit Types (w : World (Object := Object) (E := E)) (st : ReplicaState Object).

Hypothesis upload_ok : forall (object : Object) r n e, is_ok (port_upload object r n e).1.
Hypothesis verify_ok : forall receipt (object : Object) r e, (port_verifyReceipt receipt object r e).1 = Ok tt.

Lemma validatePending_inv (p : ReplicaPending Object) :
  validatePending p = Ok tt ->
  longer (p_hash p) 128 = false /\ optionalToken (p_revision p) /\ optionalToken (p_identity p).
Proof.
  unfold validatePending. case_match eqn:H1; [done|]. bool_to_prop. intros _.
  split_and!; try done; by apply Is_true_true.
Qed.

(** Replacing the acknowledgment of a state keeps it valid. *)
Lemma validate_acknowledged st hash revision identity :
  validateState st binding = Ok tt -> s_generation st < MAX_SAFE_INTEGER ->
  longer hash 128 = false -> optionalToken revision -> optionalToken identity ->
  validateState (next_generation (acknowledged st hash revision identity None)) binding = Ok tt.
Proof.
  intros (? & ? & ? & Hg%positiveCounter_spec & ? & ? & ? & ? & Hp)%validateState_inv ? ? ? ?.
  apply validateState_intro; cbn; try done. apply positiveCounter_spec. lia.
Qed.

Definition delivered_log (p : ReplicaPending Object) (log : list (Event Object)) : list (Event Object) :=
  EvVerified (p_object p) (p_requestId p) ::
  EvUploaded (p_object p) (p_requestId p) (default 0 (p_observedSequence p)) :: log.

Definition delivered (p : ReplicaPending Object) st : ReplicaState Object :=
  next_generation (acknowledged st (p_hash p) (p_revision p) (p_identity p) None).

Lemma returns_observe w phase bytes (Q : unit -> World -> Prop) :
  (forall w', similar w w' -> Q tt w') -> returns (observe phase bytes) w Q.
Proof.
  intros HQ. unfold returns, observe, call. destruct (port_observe phase bytes (w_env w)) as [r e].
  eexists tt, _. split; [done|]. by apply HQ.
Qed.

Lemma returns_deliver w st p inspect revision (Q : bool -> World -> Prop) :
  sh_current (w_shared w) = st -> validateState st binding = Ok tt ->
  s_pending st = Some p -> s_generation st < MAX_SAFE_INTEGER ->
  (inspect = true -> forall e, (port_revision e).1 = Ok revision) ->
  (forall w', w_shared w' = mkShared (delivered p st) (history (w_shared w))
                              (delivered_log p (sh_log (w_shared w))) ->
    Q (negb inspect || bool_decide (revision = None) || bool_decide (p_revision p = revision)) w') ->
  returns (deliver binding st inspect) w Q.
Proof.
  intros Hcur Hv Hp Hg Hrev HQ. unfold deliver. rewrite Hp.
  apply returns_bind, returns_guard. intros w1 H1. unfold upload.
  apply returns_bind, returns_bind. eexists tt, _. split; [done|].
  apply (returns_call _ _ (fun _ => True)).
  { intros e. specialize (upload_ok (p_object p) (p_requestId p) (default 0 (p_observedSequence p)) e).
    destruct (port_upload _ _ _ e).1; [eauto|done]. }
  intros receipt w2 _ H2. apply returns_bind, returns_guard. intros w3 H3. unfold verifyReceipt.
  apply returns_bind, returns_bind, (returns_call _ _ (fun _ => True)); [eauto|].
  intros _ w4 _ H4. eexists tt, _. split; [done|]. apply returns_bind, returns_guard. intros w5 [H5 H5'].
  assert (w_shared w5 = mkShared st (sh_past (w_shared w)) (delivered_log p (sh_log (w_shared w)))) as Hw5.
  { rewrite H5. destruct H1 as [H1 _], H2 as [H2 _], H3 as [H3 _], H4 as [H4 _]; cbn in *.
    by rewrite H4, H3, H2; cbn; rewrite H1, Hcur. }
  apply returns_bind, returns_commit; [exact _|by rewrite Hw5|done..| |].
  { pose proof Hv as (_&_&_&_&_&_&_&_&Hvp)%validateState_inv.
    destruct (Hvp p Hp) as [(?&?&?)%validatePending_inv _]. by apply validate_acknowledged. }
  intros w6 H6 _. apply returns_bind, returns_observe. intros w7 [H7 _].
  rewrite Hw5 in H6. unfold history in H6; cbn [sh_current sh_past sh_log] in H6.
  rewrite <- Hcur in H6 at 2. destruct inspect; cbn [negb].
  - apply returns_bind, (returns_call _ _ (fun r => r = revision)); [eauto|].
    intros _ w8 -> [H8 _]. apply returns_bind, returns_guard. intros w9 [H9 _].
    apply returns_ret, HQ. rewrite H9, H8, H7. done.
  - apply returns_ret, HQ. by rewrite H7.
Qed.

Lemma returns_sync_pending w p :
  validateState (sh_current (w_shared w)) binding = Ok tt ->
  s_pending (sh_current (w_shared w)) = Some p ->
  s_generation (sh_current (w_shared w)) < MAX_SAFE_INTEGER ->
  returns (sync binding) w (fun full w' => full = false /\
    w_shared w' = mkShared (delivered p (sh_current (w_shared w))) (history (w_shared w))
                    (delivered_log p (sh_log (w_shared w)))).
Proof.
  intros Hv Hp Hg. unfold sync. apply returns_bind, returns_state; [exact _|done|]. intros w1 [H1 _].
  rewrite Hp. cbn [bool_decide decide].
  apply returns_bind. eapply (returns_deliver _ _ p _ None); [by rewrite H1|done..|].
  intros w2 H2. apply returns_ret. by rewrite H2, H1.
Qed.

(** *** Push of stable content *)
Variable content : ReplicaContent Payload.
Variable rev : list N.
Hypothesis revision_ok : forall e, (port_revision e).1 = Ok (Some rev).
Hypothesis capture_ok : forall e, (port_capture e).1 = Ok content.
Hypothesis seal_ok : forall e, is_ok (port_seal (c_payload content) e).1.
Hypothesis uuid_ok : forall e, token (port_randomUUID e).1 && negb (longer (port_randomUUID e).1 128).
Hypothesis rev_token : token rev.
Hypothesis content_valid :
  token (c_hash content) && negb (longer (c_hash content) 128) && positiveCounter (c_bytes content) &&
  (c_bytes content <=? maximumContentBytes) && optionalToken (c_identity content).

Lemma content_valid_inv :
  token (c_hash content) = true /\ longer (c_hash content) 128 = false /\
  positiveCounter (c_bytes content) = true /\ (maximumContentBytes <? c_bytes content) = false /\
  optionalToken (c_identity content) = true.
Proof.
  pose proof content_valid as H. rewrite !andb_True, !Is_true_true, negb_true_iff in H.
  destruct H as ((((? & ?) & ?) & ?) & ?). split_and!; try done. lia.
Qed.

Lemma rev_truthy : truthy (Some rev) = true.
Proof. pose proof rev_token as H. unfold token in H. by destruct rev. Qed.

Lemma returns_stillAt w (Q : option (list N) -> World -> Prop) :
  (forall w', similar w w' -> Q (Some rev) w') -> returns (stillAt (Some rev)) w Q.
Proof.
  intros HQ. unfold stillAt. rewrite rev_truthy.
  apply returns_bind, (returns_call _ _ (fun r => r = Some rev)); [eauto|]. intros _ w' -> Hs.
  apply returns_ret. rewrite bool_decide_eq_true_2 by done. by apply HQ.
Qed.

Lemma validate_enqueued st requestId (object : Object) :
  validateState st binding = Ok tt -> s_generation st < MAX_SAFE_INTEGER ->
  token requestId && negb (longer requestId 128) ->
  validateState (next_generation (with_pending st (mkPending requestId (Some (s_cursor st))
    (c_hash content) (c_bytes content) object (Some rev) (c_identity content)))) binding = Ok tt.
Proof.
  intros (? & ? & ? & Hg%positiveCounter_spec & Hc & ? & ? & ? & Hp)%validateState_inv ? Hid.
  rewrite andb_True, !Is_true_true, negb_true_iff in Hid. destruct Hid as [Hid1 Hid2].
  destruct content_valid_inv as (V1 & V2 & V3 & V4 & V5).
  apply validateState_intro; cbn; try done; [apply positiveCounter_spec; lia|].
  intros p [= <-]. split; [|cbn; lia]. unfold validatePending; cbn.
  pose proof rev_token as Hr. apply Is_true_true in Hr, Hc.
  by rewrite Hid1, Hid2, V1, V2, V3, V4, V5, Hr, Hc.
Qed.

(** The outcome of a push: the revision is acknowledged, nothing is pending,
    and content that is not already stored was uploaded and its receipt
    verified. *)
Definition published w (result : bool) (w' : World (Object := Object) (E := E)) : Prop :=
  let st := sh_current (w_shared w) in
  let st' := sh_current (w_shared w') in
  result = true /\ s_pending st' = None /\ s_uploadedRevision st' = Some rev /\
  (s_uploadedRevision st = Some rev /\ s_lastUploaded st <> [] \/
   s_lastUploaded st' = c_hash content /\ s_contentIdentity st' = c_identity content /\
   (alreadyStored st (w_received w) content = false ->
    exists p, p_hash p = c_hash content /\ p_observedSequence p = Some (s_cursor st) /\
      sh_log (w_shared w') = delivered_log p (sh_log (w_shared w)))).

Lemma returns_push w :
  let st := sh_current (w_shared w) in
  validateState st binding = Ok tt -> s_pending st = None ->
  s_generation st + 2 <= MAX_SAFE_INTEGER ->
  returns (pushNow binding) w (published w).
Proof.
  intros st Hv Hp Hg. destruct content_valid_inv as (V1 & V2 & V3 & V4 & V5).
  unfold pushNow, requireM. apply returns_bind, returns_state; [exact _|done|]. intros w1 H1.
  fold st. rewrite Hp. cbn [bool_decide decide is_Some_dec].
  apply returns_bind, (returns_call _ _ (fun r => r = Some rev)); [eauto|]. intros _ w2 -> H2.
  apply returns_bind, returns_guard. intros w3 H3. rewrite rev_truthy.
  destruct (true && (0 <? length (s_lastUploaded st))%nat &&
    bool_decide (Some rev = s_uploadedRevision st)) eqn:Hsame.
  { apply returns_bind, returns_observe. intros w4 H4. apply returns_ret.
    apply andb_true_iff in Hsame as [Hlast Hsame%bool_decide_eq_true].
    assert (w_shared w4 = w_shared w) as Heq.
    { apply (similar_trans _ w1); [done|]. eauto using similar_trans. }
    unfold published. rewrite Heq. fold st. split_and!; [done..|]. left. split; [done|].
    destruct (s_lastUploaded st); [|done]. done. }
  apply returns_bind, (returns_call _ _ (fun c => c = content)); [eauto|]. intros _ w4 -> H4.
  apply returns_bind, returns_guard. intros w5 H5.
  apply returns_bind, returns_stillAt. intros w6 H6.
  apply returns_bind. eapply returns_lift; [by rewrite V1, V2, V3, V4|].
  assert (similar w w6) as [Hw6 Hr6] by eauto 8 using similar_trans.
  apply returns_bind. exists w6, w6. split; [done|]. rewrite Hr6.
  destruct (alreadyStored st (w_received w) content) eqn:Has.
  - apply returns_bind, returns_commit; [exact _|by rewrite Hw6|done..| |].
    { apply validate_acknowledged; [done|lia|done| |by apply Is_true_true].
      apply rev_token. }
    intros w7 H7 _. apply returns_bind, returns_observe. intros w8 [H8 _]. apply returns_ret.
    unfold published. rewrite H8, H7. cbn. split_and!; [done..|]. right.
    split_and!; [done..|]. intros Hno. unfold st in Has. congruence.
  - apply returns_bind, (returns_call _ _ (fun _ => True)).
    { intros e. pose proof (seal_ok e) as Hs. destruct (port_seal _ e).1; [eauto|done]. }
    intros object w7 _ H7. apply returns_bind, returns_guard. intros w8 H8.
    apply returns_bind, returns_stillAt. intros w9 H9.
    apply returns_bind, (returns_call _ _ (fun u => token u && negb (longer u 128))).
    { intros e. pose proof (uuid_ok e). destruct (port_randomUUID e); cbn in *. eauto. }
    intros requestId w10 Hid H10.
    assert (w_shared w10 = w_shared w) as Hw10.
    { rewrite <- Hw6. apply (similar_trans _ w7); [done|]. eauto using similar_trans. }
    assert (s_generation st < MAX_SAFE_INTEGER) as Hg' by lia.
    pose proof (validate_enqueued st requestId object Hv Hg' Hid) as Hv'.
    apply returns_bind, returns_commit; [exact _|by rewrite Hw10|done|done|cbn; lia|exact Hv'|].
    intros w11 H11 _.
    eapply (returns_deliver _ _ _ _ (Some rev)); [by rewrite H11|exact Hv'|reflexivity|cbn; lia|eauto|].
    intros w12 H12. cbn [negb orb p_revision].
    unfold published. rewrite H12, H11, Hw10. cbn. rewrite bool_decide_eq_true_2 by done.
    split_and!; [done..|]. right. split_and!; [done..|]. intros _.
    eexists. split_and!; [| |reflexivity]; done.
Qed.
End Publish.

(** ** A store with three objects *)
Definition demo_remote : list InventoryEntry :=
  [mkEntry (js "a") 3; mkEntry (js "b") 5; mkEntry (js "c") 9].

Definition demo_content : ReplicaContent unit := mkContent (js "hash") 10 tt (Some (js "heads")).

#[local] Instance demo_store : ReplicaPorts unit unit unit unit := {
  port_read e := (Ok tt, e);
  port_commit e := (CommitOk, e);
  port_revision e := (Ok (Some (js "r1")), e);
  port_capture e := (Ok demo_content, e);
  port_seal _ e := (Ok tt, e);
  port_inventory cursor e := (Ok (page cursor demo_remote), e);
  port_download _ e := (Ok tt, e);
  port_upload _ _ _ e := (Ok tt, e);
  port_admit _ _ e := (Ok (mkAdmission (js "other") None), e);
  port_verifyReceipt _ _ _ e := (Ok tt, e);
  port_guard e := (Ok tt, e);
  port_observe _ _ e := (Throw "diagnostics down", e);
  port_randomUUID e := (js "uuid", e);
  port_others sh e := (sh, e) }.

#[local] Instance demo_quiet : Quiet (ports := demo_store).
Proof. by split. Qed.

Definition demo_state : ReplicaState unit := mkState 1 (js "b") 4 3 [] None None None.
Definition demo_pending : ReplicaPending unit :=
  mkPending (js "uuid") (Some 3) (js "hash") 10 tt (Some (js "r1")) None.
Definition demo_uncertain : ReplicaState unit :=
  mkState 1 (js "b") 4 3 [] None None (Some demo_pending).

Definition demo_world (st : ReplicaState unit) : World (Object := unit) (E := unit) :=
  mkWorld tt (mkShared st [] []) None None.

(** ** Theorems *)



(** C13. Push publishes.  While the content and its revision are stable and
    the store answers, a push from a valid state with an empty outbox returns
    [true] with the revision acknowledged and the outbox empty again; unless
    that revision was already acknowledged, the acknowledged hash and identity
    are the content's; and content that was not already stored went out in
    one upload whose receipt was verified. *)
Theorem replica_push_publishes {Payload Object Receipt E : Type}
    {ports : ReplicaPorts Payload Object Receipt E} (binding : list N) (quiet : Quiet (ports := ports))
    (content : ReplicaContent Payload) (rev : list N) (w : World (Object := Object) (E := E)) :
  (forall (object : Object) r n e, is_ok (port_upload object r n e).1) ->
  (forall receipt (object : Object) r e, (port_verifyReceipt receipt object r e).1 = Ok tt) ->
  (forall e, (port_revision e).1 = Ok (Some rev)) ->
  (forall e, (port_capture e).1 = Ok content) ->
  (forall e, is_ok (port_seal (c_payload content) e).1) ->
  (forall e, token (port_randomUUID e).1 && negb (longer (port_randomUUID e).1 128)) ->
  token rev ->
  token (c_hash content) && negb (longer (c_hash content) 128) && positiveCounter (c_bytes content) &&
    (c_bytes content <=? maximumContentBytes) && optionalToken (c_identity content) ->
  validateState (sh_current (w_shared w)) binding = Ok tt ->
  s_pending (sh_current (w_shared w)) = None ->
  s_generation (sh_current (w_shared w)) + 2 <= MAX_SAFE_INTEGER ->
  exists w', pushNow binding w = (Ok true, w') /\ published content rev w true w'.
Proof.
  intros Hu Hvr Hrev Hcap Hseal Hid Hrt Hcv Hv Hp Hg.
  destruct (returns_push binding Hu Hvr content rev Hrev Hcap Hseal Hid Hrt Hcv w Hv Hp Hg)
    as (b & w' & Hrun & Hpub).
  exists w'. assert (b = true) as -> by apply Hpub. done.
Qed.

Lemma replica_push_publishes_witness :
  exists w', pushNow (js "b") (demo_world demo_state) = (Ok true, w') /\
    published demo_content (js "r1") (demo_world demo_state) true w'.
Proof.
  apply (replica_push_publishes (ports := demo_store) (js "b") demo_quiet demo_content (js "r1"));
    vm_compute; done.
Defined.

(** Sync resolves an uncertain upload first.  A sync that starts with a
    request in the outbox sends exactly that request once more, with the same
    object and request id, verifies its receipt, acknowledges it and does
    nothing else: no pull, no capture of newer content; it reports [false]. *)
Theorem replica_sync_resolves_pending {Payload Object Receipt E : Type}
    {ports : ReplicaPorts Payload Object Receipt E} (binding : list N) (quiet : Quiet (ports := ports))
    (w : World (Object := Object) (E := E)) (p : ReplicaPending Object) :
  (forall (object : Object) r n e, is_ok (port_upload object r n e).1) ->
  (forall receipt (object : Object) r e, (port_verifyReceipt receipt object r e).1 = Ok tt) ->
  validateState (sh_current (w_shared w)) binding = Ok tt ->
  s_pending (sh_current (w_shared w)) = Some p ->
  s_generation (sh_current (w_shared w)) < MAX_SAFE_INTEGER ->
  exists w', sync binding w = (Ok false, w') /\
    w_shared w' = mkShared (delivered p (sh_current (w_shared w))) (history (w_shared w))
                    (delivered_log p (sh_log (w_shared w))).
Proof.
  intros Hu Hvr Hv Hp Hg.
  destruct (returns_sync_pending binding Hu Hvr w p Hv Hp Hg) as (b & w' & Hrun & -> & Hw).
  by exists w'.
Qed.

Lemma replica_sync_resolves_pending_witness :
  exists w', sync (js "b") (demo_world demo_uncertain) = (Ok false, w') /\
    s_pending (sh_current (w_shared w')) = None /\
    sh_log (w_shared w') = [EvVerified tt (js "uuid"); EvUploaded tt (js "uuid") 3].
Proof.
  destruct (replica_sync_resolves_pending (ports := demo_store) (js "b") demo_quiet
    (demo_world demo_uncertain) demo_pending) as (w' & H1 & H2);
    [done..|vm_compute; done|].
  exists w'. split; [exact H1|]. rewrite H2. split; reflexivity.
Defined.
