(* ===== verification/Archive.v ===== *)
(** * History archive: pages, building, reading

    Models [packages/mesh-replication/src/historyArchive.ts]: an immutable
    search tree of JSON pages addressed by their SHA-256, built from a strictly
    ordered source with one bucket per level, and read back by range queries
    against a store that need not be trusted.  Inputs that the code validates
    at run time are JSON values here.  The object store is an interface: two
    effectful operations over a world [W]. *)
From stdpp Require Import base numbers list gmap strings.
From Stdlib Require Import ZArith NArith Lia.
From S2P Require Import Prelude Unicode Json Base64 Digest.
Local Open Scope Z_scope.

Definition MAX_ARCHIVE_PAGE_BYTES : Z := 64 * 1024.
Definition MAX_ARCHIVE_CHILDREN : Z := 64.
Definition MAX_ARCHIVE_DEPTH : Z := 32.
Definition MAX_ARCHIVE_KEY_BYTES : Z := 512.
Definition MAX_ARCHIVE_PART_BYTES : Z := 256 * 1024.

Record ArchiveTreeContext := mkContext {
  ctx_workspaceId : list N; ctx_historyEpoch : Z; ctx_indexId : list N }.
Inductive ObjectKind := KindPage | KindRecord | KindPart.
Record ArchiveObjectReadBinding := mkBinding {
  rb_context : ArchiveTreeContext; rb_objectKind : ObjectKind; rb_partIndex : Z; rb_partCount : Z }.
Record ArchiveIndexEntry := mkIndexEntry { ent_key : list N; ent_objectId : list N }.
Record ArchiveIndexRoot := mkRoot {
  root_objectId : list N; root_height : Z; root_count : Z;
  root_first : option (list N); root_last : option (list N) }.
Record ArchiveIndexQuery := mkQuery {
  q_after : option (list N); q_prefix : option (list N); q_limit : Z }.
Record ArchiveIndexResult := mkResult {
  res_entries : list ArchiveIndexEntry; res_nextAfter : option (list N) }.
Record ArchiveBytesReference := mkBytesReference {
  bytes_root : ArchiveIndexRoot; bytes_byteLength : Z; bytes_partCount : Z }.

Inductive IndexPage :=
| LeafPage (context : ArchiveTreeContext) (entries : list ArchiveIndexEntry)
| BranchPage (context : ArchiveTreeContext) (height : Z) (children : list ArchiveIndexRoot).

#[export] Instance context_eq_dec : EqDecision ArchiveTreeContext.
Proof. solve_decision. Defined.
#[export] Instance entry_eq_dec : EqDecision ArchiveIndexEntry.
Proof. solve_decision. Defined.
#[export] Instance root_eq_dec : EqDecision ArchiveIndexRoot.
Proof. solve_decision. Defined.

(** The object store as the archive sees it. *)
Class ArchiveObjectStore (W : Type) := {
  store_read : list N -> Z -> option ArchiveObjectReadBinding -> M W (option (list N));
  store_write : list N -> list N -> M W unit }.

(** ** The records as JSON values *)
Definition int (z : Z) : value := Num (Int z).
Definition nullable (s : option (list N)) : value := match s with Some t => Str t | None => Null end.

Definition context_value (c : ArchiveTreeContext) : value :=
  Obj [(js "workspaceId", Str (ctx_workspaceId c)); (js "historyEpoch", int (ctx_historyEpoch c));
       (js "indexId", Str (ctx_indexId c))].
Definition entry_value (e : ArchiveIndexEntry) : value :=
  Obj [(js "key", Str (ent_key e)); (js "objectId", Str (ent_objectId e))].
Definition root_value (r : ArchiveIndexRoot) : value :=
  Obj [(js "objectId", Str (root_objectId r)); (js "height", int (root_height r));
       (js "count", int (root_count r)); (js "first", nullable (root_first r));
       (js "last", nullable (root_last r))].

Definition header (context : ArchiveTreeContext) (height : Z) : list (list N * value) :=
  [(js "kind", Str (js "workspace-history-index-page")); (js "version", int 1);
   (js "context", context_value context); (js "height", int height)].

Definition page_value (p : IndexPage) : value :=
  match p with
  | LeafPage context entries =>
      Obj (header context 0 ++ [(js "entries", Arr (map entry_value entries))])
  | BranchPage context height children =>
      Obj (header context height ++ [(js "children", Arr (map root_value children))])
  end.

(** [encoder.encode(canonicalizeJson(value))] of data without non-finite
    numbers. *)
Definition canonicalBytes (v : value) : list N := TextEncoder_encode (canonText str_leb v).
Definition byteLength (bytes : list N) : Z := Z.of_nat (length bytes).

(** ** Validation *)
Definition exact (v : value) (keys : list (list N)) : result (list (list N * value)) :=
  match v with
  | Obj members =>
      if (length members =? length keys)%nat &&
         forallb (fun key => bool_decide (key ∈ map fst members)) keys
      then Ok members else Throw "Invalid archive schema"
  | _ => Throw "Invalid archive schema"
  end.

Definition text (v : value) (maximum : Z) (empty : bool) : result (list N) :=
  match v with
  | Str s =>
      if (negb empty && (length s =? 0)%nat) || (maximum <? Z.of_nat (length s)) ||
         (maximum <? byteLength (TextEncoder_encode s)) || existsb isSurrogate (codePoints s)
      then Throw "Invalid archive key or context string" else Ok s
  | _ => Throw "Invalid archive key or context string"
  end.

Definition validateArchiveObjectId (v : value) : result (list N) :=
  match v with
  | Str s => if digestPattern s then Ok s else Throw "Invalid archive object hash"
  | _ => Throw "Invalid archive object hash"
  end.

Definition captureContext (input : value) : result ArchiveTreeContext :=
  v ← exact input [js "workspaceId"; js "historyEpoch"; js "indexId"];
  workspaceId ← text (member (js "workspaceId") v) 256 false;
  indexId ← text (member (js "indexId") v) 128 false;
  match member (js "historyEpoch") v with
  | Num (Int z) =>
      if isSafeInteger z && negb (z <? 1) then Ok (mkContext workspaceId z indexId)
      else Throw "Invalid archive context epoch"
  | _ => Throw "Invalid archive context epoch"
  end.

Definition captureEntry (input : value) : result ArchiveIndexEntry :=
  v ← exact input [js "key"; js "objectId"];
  key ← text (member (js "key") v) MAX_ARCHIVE_KEY_BYTES false;
  objectId ← validateArchiveObjectId (member (js "objectId") v);
  Ok (mkIndexEntry key objectId).

Definition captureRoot (input : value) : result ArchiveIndexRoot :=
  v ← exact input [js "objectId"; js "height"; js "count"; js "first"; js "last"];
  objectId ← validateArchiveObjectId (member (js "objectId") v);
  height ← match member (js "height") v with
           | Num (Int z) => if (z <? 0) || (MAX_ARCHIVE_DEPTH <=? z)
                            then Throw "Invalid archive tree height" else Ok z
           | _ => Throw "Invalid archive tree height"
           end;
  count ← match member (js "count") v with
          | Num (Int z) => if negb (isSafeInteger z) || (z <? 0)
                           then Throw "Invalid archive root count" else Ok z
          | _ => Throw "Invalid archive root count"
          end;
  if count =? 0 then
    match member (js "first") v, member (js "last") v with
    | Null, Null =>
        if negb (height =? 0) then Throw "Invalid empty archive root metadata"
        else Ok (mkRoot objectId height count None None)
    | _, _ => Throw "Invalid empty archive root metadata"
    end
  else
    first ← text (member (js "first") v) MAX_ARCHIVE_KEY_BYTES false;
    last ← text (member (js "last") v) MAX_ARCHIVE_KEY_BYTES false;
    if str_ltb last first then Throw "Invalid archive root range"
    else Ok (mkRoot objectId height count (Some first) (Some last)).

Definition pageRoot (page : IndexPage) (objectId : list N) : result ArchiveIndexRoot :=
  match page with
  | LeafPage _ entries =>
      Ok (mkRoot objectId 0 (Z.of_nat (length entries)) (ent_key <$> head entries)
            (ent_key <$> last entries))
  | BranchPage _ height children =>
      let count := sumZ (map root_count children) in
      if negb (isSafeInteger count) then Throw "Archive count exceeds safe integer bound"
      else Ok (mkRoot objectId height count (head children ≫= root_first) (last children ≫= root_last))
  end.

Definition page_height (p : IndexPage) : Z :=
  match p with LeafPage _ _ => 0 | BranchPage _ height _ => height end.

(** ** buildArchiveIndex *)
Record Bucket (T : Type) := mkBucket { items : list T; bucket_bytes : Z }.
Arguments mkBucket {T}.
Arguments items {T}.
Arguments bucket_bytes {T}.

Record Builder := mkBuilder {
  b_leaf : Bucket ArchiveIndexEntry;
  b_levels : list (option (Bucket ArchiveIndexRoot));
  b_previous : option (list N) }.

Section Archive.
Context `{Sha256} {W : Type} {store : ArchiveObjectStore W}.

Definition persist (page : IndexPage) : M W ArchiveIndexRoot :=
  requireM (negb (MAX_ARCHIVE_DEPTH <=? page_height page)) "Archive tree depth limit exceeded";;
  let bytes := canonicalBytes (page_value page) in
  requireM (negb (MAX_ARCHIVE_PAGE_BYTES <? byteLength bytes)) "Archive page exceeds byte limit";;
  let objectId := sha256Base64Url bytes in
  store_write objectId bytes;;
  liftM (pageRoot page objectId).

Definition separator {T} (bucket : Bucket T) : Z := if (length (items bucket) =? 0)%nat then 0 else 1.

Definition fits {T} (to_value : T -> value) (bucket : Bucket T) (item : T) : bool :=
  (Z.of_nat (length (items bucket)) <? MAX_ARCHIVE_CHILDREN) &&
  (bucket_bytes bucket + byteLength (canonicalBytes (to_value item)) + separator bucket
     <=? MAX_ARCHIVE_PAGE_BYTES).

Definition append {T} (to_value : T -> value) (bucket : Bucket T) (item : T) : Bucket T :=
  mkBucket (items bucket ++ [item])
    (bucket_bytes bucket + (byteLength (canonicalBytes (to_value item)) + separator bucket)).

Section Build.
Variable context : ArchiveTreeContext.

Definition emptyLevel (level : nat) : Bucket ArchiveIndexRoot :=
  mkBucket [] (byteLength (canonicalBytes (page_value (BranchPage context (Z.of_nat level + 1) [])))).

Definition leafBase : Z := byteLength (canonicalBytes (page_value (LeafPage context []))).

(** [push level root] works on [levels[level]] and the levels above it: the
    argument [upper] is [levels.slice(level)], whose head is [levels[level]]
    (absent when the array ends there).  Its call of [flushLevel] empties that
    level and pushes to the next, which is at most [MAX_ARCHIVE_DEPTH]; the
    fuel counts the levels left. *)
Fixpoint push (fuel : nat) (level : nat) (root : ArchiveIndexRoot)
    (upper : list (option (Bucket ArchiveIndexRoot)))
    : M W (list (option (Bucket ArchiveIndexRoot))) :=
  match fuel with
  | O => throwM "Archive tree depth limit exceeded"
  | S fuel =>
      if MAX_ARCHIVE_DEPTH <=? Z.of_nat level then throwM "Archive tree depth limit exceeded"
      else
        let flush (bucket : Bucket ArchiveIndexRoot) (above : list (option (Bucket ArchiveIndexRoot))) :=
          root' ← persist (BranchPage context (Z.of_nat level + 1) (items bucket));
          push fuel (S level) root' above in
        let bucket := default (emptyLevel level) (mjoin (head upper)) in
        let above := tail upper in
        '(bucket, above) ←
          (if negb (length (items bucket) =? 0)%nat && negb (fits root_value bucket root)
           then above' ← flush bucket above; mret (emptyLevel level, above')
           else mret (bucket, above));
        let bucket := append root_value bucket root in
        if Z.of_nat (length (items bucket)) =? MAX_ARCHIVE_CHILDREN
        then above' ← flush bucket above; mret (None :: above')
        else mret (Some bucket :: above)
  end.

Definition depthFuel : nat := 33.

Definition flushLevel (level : nat) (levels : list (option (Bucket ArchiveIndexRoot)))
    : M W (list (option (Bucket ArchiveIndexRoot))) :=
  match mjoin (levels !! level) with
  | None => throwM "Cannot read properties of undefined"
  | Some bucket =>
      root ← persist (BranchPage context (Z.of_nat level + 1) (items bucket));
      upper ← push depthFuel (S level) root (drop (S level) levels);
      mret (take level levels ++ None :: upper)
  end.

Definition flushLeaf (b : Builder) : M W Builder :=
  root ← persist (LeafPage context (items (b_leaf b)));
  levels ← push depthFuel 0 root (b_levels b);
  mret (mkBuilder (mkBucket [] leafBase) levels (b_previous b)).

(** One round of [for await (const candidate of source)]. *)
Definition feed (b : Builder) (candidate : value) : M W Builder :=
  entry ← liftM (captureEntry candidate);
  requireM (match b_previous b with Some previous => negb (str_leb (ent_key entry) previous) | None => true end)
    "Archive keys must have strict unique order";;
  let b := mkBuilder (b_leaf b) (b_levels b) (Some (ent_key entry)) in
  b ← (if fits entry_value (b_leaf b) entry then mret b else flushLeaf b);
  let b := mkBuilder (append entry_value (b_leaf b) entry) (b_levels b) (b_previous b) in
  if Z.of_nat (length (items (b_leaf b))) =? MAX_ARCHIVE_CHILDREN then flushLeaf b else mret b.

Fixpoint feedAll (b : Builder) (source : list value) : M W Builder :=
  match source with
  | [] => mret b
  | candidate :: rest => b' ← feed b candidate; feedAll b' rest
  end.

Definition levelEmpty (bucket : option (Bucket ArchiveIndexRoot)) : bool :=
  match bucket with Some b => (length (items b) =? 0)%nat | None => true end.

Fixpoint findLevel (levels : list (option (Bucket ArchiveIndexRoot))) : option nat :=
  match levels with
  | [] => None
  | bucket :: rest => if levelEmpty bucket then S <$> findLevel rest else Some O
  end.

(** The closing loop flushes the lowest non-empty level until one root is
    left; every round raises that level, so the fuel counts levels. *)
Fixpoint closing (fuel : nat) (levels : list (option (Bucket ArchiveIndexRoot))) : M W ArchiveIndexRoot :=
  match fuel with
  | O => throwM "Archive tree depth limit exceeded"
  | S fuel =>
      match findLevel levels with
      | None => throwM "Cannot read properties of undefined"
      | Some level =>
          match mjoin (levels !! level) with
          | None => throwM "Cannot read properties of undefined"
          | Some bucket =>
              match items bucket with
              | [root] =>
                  if forallb levelEmpty (drop (S level) levels) then mret root
                  else levels' ← flushLevel level levels; closing fuel levels'
              | _ => levels' ← flushLevel level levels; closing fuel levels'
              end
          end
      end
  end.

Definition startBuilder : Builder := mkBuilder (mkBucket [] leafBase) [] None.

Definition finish (b : Builder) : M W ArchiveIndexRoot :=
  b ← (if negb (length (items (b_leaf b)) =? 0)%nat || forallb levelEmpty (b_levels b)
       then flushLeaf b else mret b);
  closing depthFuel (b_levels b).
End Build.

Definition buildArchiveIndex (contextInput : value) (source : list value) : M W ArchiveIndexRoot :=
  context ← liftM (captureContext contextInput);
  b ← feedAll context (startBuilder context) source;
  finish context b.

(** ** Reading *)
Definition queryKeys : list (list N) := [js "after"; js "prefix"; js "limit"].

Definition optionalText (v : value) : result (option (list N)) :=
  match v with
  | Undefined => Ok None
  | _ => s ← text v MAX_ARCHIVE_KEY_BYTES true; Ok (Some s)
  end.

Definition captureQuery (input : value) : result ArchiveIndexQuery :=
  match input with
  | Obj members =>
      if negb (forallb (fun key => bool_decide (key ∈ queryKeys)) (map fst members))
      then Throw "Invalid archive query" else
      after ← optionalText (member (js "after") members);
      prefix ← optionalText (member (js "prefix") members);
      match member (js "limit") members with
      | Undefined | Null => Ok (mkQuery after prefix 64)
      | Num (Int limit) =>
          if (limit <? 1) || (256 <? limit) then Throw "Invalid archive query limit"
          else Ok (mkQuery after prefix limit)
      | _ => Throw "Invalid archive query limit"
      end
  | _ => Throw "Invalid archive query"
  end.

(** [a > b] on strings, for an optional lower bound that is absent. *)
Fixpoint orderedKeys (entries : list ArchiveIndexEntry) : bool :=
  match entries with
  | e :: ((e' :: _) as rest) => str_ltb (ent_key e) (ent_key e') && orderedKeys rest
  | _ => true
  end.

(** The loop over the children of a branch page: [seen] is the set of object
    ids so far, [previous] the child before. *)
Fixpoint checkChildren (height : Z) (children : list ArchiveIndexRoot)
    (previous : option ArchiveIndexRoot) (seen : list (list N)) : result unit :=
  match children with
  | [] => Ok tt
  | child :: rest =>
      if negb (root_height child =? height - 1) || (root_count child <? 1) ||
         bool_decide (root_objectId child ∈ seen)
      then Throw "Invalid archive child metadata"
      else if match previous with
              | Some p => str_leb (default [] (root_first child)) (default [] (root_last p))
              | None => false end
      then Throw "Invalid overlapping archive child ranges"
      else checkChildren height rest (Some child) (root_objectId child :: seen)
  end.

Definition parsePage (v : value) (context : ArchiveTreeContext) : result IndexPage :=
  match v with
  | Obj raw =>
      match member (js "kind") raw, member (js "version") raw with
      | Str kind, Num (Int 1) =>
          if negb (bool_decide (kind = js "workspace-history-index-page"))
          then Throw "Unsupported archive page schema/version" else
          let leaf := match member (js "height") raw with Num (Int 0) => true | _ => false end in
          exact v [js "kind"; js "version"; js "context"; js "height";
                   if leaf then js "entries" else js "children"];;
          actualContext ← captureContext (member (js "context") raw);
          if negb (bool_decide (canonText str_leb (context_value actualContext)
                                = canonText str_leb (context_value context)))
          then Throw "Archive page context does not match scope" else
          match member (js "height") raw with
          | Num (Int height) =>
              if (height <? 0) || (MAX_ARCHIVE_DEPTH <=? height) then Throw "Invalid archive page height"
              else if height =? 0 then
                match member (js "entries") raw with
                | Arr values =>
                    if MAX_ARCHIVE_CHILDREN <? Z.of_nat (length values) then Throw "Invalid archive leaf size" else
                    entries ← mapR captureEntry values;
                    if negb (orderedKeys entries) then Throw "Invalid archive key order"
                    else Ok (LeafPage context entries)
                | _ => Throw "Invalid archive leaf size"
                end
              else
                match member (js "children") raw with
                | Arr values =>
                    if (length values =? 0)%nat || (MAX_ARCHIVE_CHILDREN <? Z.of_nat (length values))
                    then Throw "Invalid archive branch size" else
                    children ← mapR captureRoot values;
                    checkChildren height children None [];;
                    Ok (BranchPage context height children)
                | _ => Throw "Invalid archive branch size"
                end
          | _ => Throw "Invalid archive page height"
          end
      | _, _ => Throw "Unsupported archive page schema/version"
      end
  | _ => Throw "Invalid archive page schema"
  end.

(** What [loadPage] makes of the bytes it read. *)
Definition checkPage (context : ArchiveTreeContext) (root : ArchiveIndexRoot) (bytes : list N)
    : result IndexPage :=
  if MAX_ARCHIVE_PAGE_BYTES <? byteLength bytes then Throw "Archive page exceeds byte limit"
  else if negb (bool_decide (sha256Base64Url bytes = root_objectId root))
  then Throw "Archive page hash integrity failure"
  else match TextDecoder_decode bytes ≫= JSON_parse with
  | None => Throw "Invalid archive page JSON"
  | Some v =>
      page ← parsePage v context;
      if negb (bool_decide (canonicalBytes (page_value page) = bytes))
      then Throw "Non-canonical archive page encoding" else
      actual ← pageRoot page (root_objectId root);
      if negb (bool_decide (canonText str_leb (root_value actual) = canonText str_leb (root_value root)))
      then Throw "Archive root metadata does not match its page"
      else Ok page
  end.

Definition loadPage (context : ArchiveTreeContext) (root : ArchiveIndexRoot) : M W IndexPage :=
  saved ← store_read (root_objectId root) MAX_ARCHIVE_PAGE_BYTES
            (Some (mkBinding context KindPage 0 1));
  match saved with
  | None => throwM "Archive page unavailable or missing"
  | Some bytes => liftM (checkPage context root bytes)
  end.

Definition readArchiveIndexPage (contextInput rootInput : value) : M W IndexPage :=
  context ← liftM (captureContext contextInput);
  root ← liftM (captureRoot rootInput);
  loadPage context root.

Section Query.
Variable context : ArchiveTreeContext.
Variable query : ArchiveIndexQuery.

Definition matches (entry : ArchiveIndexEntry) : bool :=
  match q_after query with Some after => str_ltb after (ent_key entry) | None => true end &&
  match q_prefix query with Some prefix => startsWith (ent_key entry) prefix | None => true end.

Definition intersects (child : ArchiveIndexRoot) : bool :=
  let first := default [] (root_first child) in
  let last := default [] (root_last child) in
  (0 <? root_count child) &&
  match q_after query with Some after => str_ltb after last | None => true end &&
  match q_prefix query with
  | Some prefix => str_leb prefix last && (str_leb first prefix || startsWith first prefix)
  | None => true
  end.

Definition overLimit (entries : list ArchiveIndexEntry) : bool :=
  q_limit query <? Z.of_nat (length entries).

(** The loop over the entries of a leaf, with its [break]. *)
Fixpoint visitEntries (page : list ArchiveIndexEntry) (entries : list ArchiveIndexEntry)
    : list ArchiveIndexEntry :=
  match page with
  | [] => entries
  | entry :: rest =>
      let entries := if matches entry then entries ++ [entry] else entries in
      if overLimit entries then entries else visitEntries rest entries
  end.

(** The loop over the children of a branch, with its [break]. *)
Section VisitChildren.
Variable visit : ArchiveIndexRoot -> list ArchiveIndexEntry * list (list N) ->
  M W (list ArchiveIndexEntry * list (list N)).
Fixpoint visitChildren (children : list ArchiveIndexRoot)
    (st : list ArchiveIndexEntry * list (list N)) : M W (list ArchiveIndexEntry * list (list N)) :=
  match children with
  | [] => mret st
  | child :: rest =>
      st' ← (if intersects child then visit child st else mret st);
      if overLimit st'.1 then mret st' else visitChildren rest st'
  end.
End VisitChildren.

(** [visit] goes one height down per call, so the fuel counts heights. *)
Fixpoint visit (fuel : nat) (ref : ArchiveIndexRoot) (st : list ArchiveIndexEntry * list (list N))
    : M W (list ArchiveIndexEntry * list (list N)) :=
  match fuel with
  | O => throwM "Archive traversal too deep"
  | S fuel =>
      let '(entries, seen) := st in
      requireM (negb (bool_decide (root_objectId ref ∈ seen) ||
                      (MAX_ARCHIVE_DEPTH * (q_limit query + 1) + 1 <=? Z.of_nat (length seen))))
        "Archive traversal cycle or page budget exceeded";;
      let seen := root_objectId ref :: seen in
      page ← loadPage context ref;
      match page with
      | LeafPage _ pageEntries => mret (visitEntries pageEntries entries, seen)
      | BranchPage _ _ children => visitChildren (visit fuel) children (entries, seen)
      end
  end.
End Query.

Definition resultOf (query : ArchiveIndexQuery) (entries : list ArchiveIndexEntry) : ArchiveIndexResult :=
  let limit := Z.to_nat (q_limit query) in
  mkResult (take limit entries)
    (if overLimit query entries then ent_key <$> entries !! (limit - 1)%nat else None).

Definition readArchiveIndex (contextInput rootInput queryInput : value) : M W ArchiveIndexResult :=
  context ← liftM (captureContext contextInput);
  root ← liftM (captureRoot rootInput);
  query ← liftM (captureQuery queryInput);
  st ← visit context query (S (Z.to_nat (root_height root))) root ([], []);
  mret (resultOf query st.1).

(** ** Byte archives *)
Fixpoint hexText (fuel : nat) (n : N) : list N :=
  match fuel with
  | O => []
  | S fuel => if (n <? 16)%N then [hexDigit n] else hexText fuel (n / 16) ++ [hexDigit (n mod 16)]
  end.

(** [index.toString(16).padStart(16, "0")] *)
Definition partKey (index : Z) : list N :=
  let digits := hexText 14 (Z.to_N index) in
  replicate (16 - length digits) 48%N ++ digits.

(** The state of [writeArchiveBytes]: counters, the part buffer and the index
    builder the generator feeds. *)
Record Writer := mkWriter {
  wr_byteLength : Z; wr_partCount : Z; wr_buffer : list N; wr_builder : Builder }.

Section WriteBytes.
Variable context : ArchiveTreeContext.

Definition save (bytes : list N) (w : Writer) : M W Writer :=
  let objectId := sha256Base64Url bytes in
  store_write objectId bytes;;
  builder ← feed context (wr_builder w)
              (entry_value (mkIndexEntry (partKey (wr_partCount w)) objectId));
  mret (mkWriter (wr_byteLength w) (wr_partCount w + 1) [] builder).

(** [for (let offset = 0; offset < bytes.length;)]: every round consumes at
    least one byte, so the length of the chunk bounds the rounds. *)
Fixpoint fill (fuel : nat) (bytes : list N) (w : Writer) : M W Writer :=
  match fuel with
  | O => mret w
  | S fuel =>
      if (length bytes =? 0)%nat then mret w else
      let length := Nat.min (length bytes) (Z.to_nat MAX_ARCHIVE_PART_BYTES - length (wr_buffer w)) in
      let buffer := wr_buffer w ++ take length bytes in
      let w := mkWriter (wr_byteLength w) (wr_partCount w) buffer (wr_builder w) in
      w ← (if byteLength buffer =? MAX_ARCHIVE_PART_BYTES then save buffer w else mret w);
      fill fuel (drop length bytes) w
  end.

Fixpoint writeChunks (source : list (list N)) (w : Writer) : M W Writer :=
  match source with
  | [] => mret w
  | bytes :: rest =>
      requireM (negb (MAX_ARCHIVE_PART_BYTES <? byteLength bytes)) "Archive source chunk exceeds part bound";;
      let total := wr_byteLength w + byteLength bytes in
      requireM (isSafeInteger total) "Archive byte length exceeds safe integer bound";;
      w ← fill (length bytes) bytes (mkWriter total (wr_partCount w) (wr_buffer w) (wr_builder w));
      writeChunks rest w
  end.
End WriteBytes.

Definition writeArchiveBytes (contextInput : value) (source : list (list N)) : M W ArchiveBytesReference :=
  context ← liftM (captureContext contextInput);
  w ← writeChunks context source (mkWriter 0 0 [] (startBuilder context));
  w ← (if (length (wr_buffer w) =? 0)%nat then mret w else save context (wr_buffer w) w);
  root ← finish context (wr_builder w);
  mret (mkBytesReference root (wr_byteLength w) (wr_partCount w)).

Definition bytes_value (r : ArchiveBytesReference) : value :=
  Obj [(js "kind", Str (js "workspace-history-bytes")); (js "version", int 1);
       (js "root", root_value (bytes_root r)); (js "byteLength", int (bytes_byteLength r));
       (js "partCount", int (bytes_partCount r))].

(** [Math.ceil(n / MAX_ARCHIVE_PART_BYTES)] *)
Definition partsFor (n : Z) : Z := (n + MAX_ARCHIVE_PART_BYTES - 1) / MAX_ARCHIVE_PART_BYTES.

Definition captureBytesReference (input : value) : result ArchiveBytesReference :=
  ref ← exact input [js "kind"; js "version"; js "root"; js "byteLength"; js "partCount"];
  match member (js "kind") ref, member (js "version") ref with
  | Str kind, Num (Int 1) =>
      if negb (bool_decide (kind = js "workspace-history-bytes"))
      then Throw "Unsupported archive byte reference schema/version" else
      match member (js "byteLength") ref, member (js "partCount") ref with
      | Num (Int total), Num (Int partCount) =>
          if negb (isSafeInteger total) || (total <? 0) || negb (isSafeInteger partCount) ||
             negb (partCount =? partsFor total)
          then Throw "Invalid archive byte reference length/count" else
          root ← captureRoot (member (js "root") ref);
          if negb (root_count root =? partCount) ||
             ((0 <? partCount) &&
              (negb (bool_decide (root_first root = Some (partKey 0))) ||
               negb (bool_decide (root_last root = Some (partKey (partCount - 1))))))
          then Throw "Archive parts root count/range does not match reference"
          else Ok (mkBytesReference root total partCount)
      | _, _ => Throw "Invalid archive byte reference length/count"
      end
  | _, _ => Throw "Unsupported archive byte reference schema/version"
  end.

Section ReadBytes.
Variable context : ArchiveTreeContext.
Variable reference : ArchiveBytesReference.
(** What the consumer of the iteration does with a part before it asks for the next. *)
Variable visit : list N -> M W unit.

(** The loop over the entries of one result: [index] and [length] are the
    counters, [out] the parts yielded so far. *)
Fixpoint readParts (entries : list ArchiveIndexEntry) (index total : Z) (out : list (list N))
    : M W (Z * Z * list (list N)) :=
  match entries with
  | [] => mret (index, total, out)
  | entry :: rest =>
      requireM (negb (negb (bool_decide (ent_key entry = partKey index)) ||
                      (bytes_partCount reference <=? index)))
        "Archive part order/count does not match reference";;
      saved ← store_read (ent_objectId entry) MAX_ARCHIVE_PART_BYTES
                (Some (mkBinding context KindPart index (bytes_partCount reference)));
      match saved with
      | None => throwM "Archive evidence part unavailable or missing"
      | Some bytes =>
          let expectedLength := Z.min MAX_ARCHIVE_PART_BYTES (bytes_byteLength reference - total) in
          requireM (byteLength bytes =? expectedLength)
            "Archive evidence part length does not match reference";;
          requireM (bool_decide (sha256Base64Url bytes = ent_objectId entry))
            "Archive evidence part hash integrity failure";;
          visit bytes;;
          readParts rest (index + 1) (total + byteLength bytes) (out ++ [bytes])
      end
  end.

Definition after_value (after : option (list N)) : value :=
  Obj [(js "after", match after with Some s => Str s | None => Undefined end)].

(** The [do ... while] over result pages; a page that is not the last yields
    64 parts, so the part count bounds the rounds. *)
Fixpoint readPages (fuel : nat) (after : option (list N)) (index total : Z) (out : list (list N))
    : M W (Z * Z * list (list N)) :=
  match fuel with
  | O => throwM "Archive evidence length/count is incomplete"
  | S fuel =>
      page ← readArchiveIndex (context_value context) (root_value (bytes_root reference)) (after_value after);
      '(index, total, out) ← readParts (res_entries page) index total out;
      match res_nextAfter page with
      | Some after => readPages fuel (Some after) index total out
      | None => mret (index, total, out)
      end
  end.
End ReadBytes.

(** [for await (const part of await readArchiveBytes(...))] with the body [visit]. *)
Definition forArchiveBytes (visit : list N -> M W unit) (contextInput referenceInput : value) : M W (list (list N)) :=
  context ← liftM (captureContext contextInput);
  reference ← liftM (captureBytesReference referenceInput);
  '(index, total, out) ← readPages context reference visit (S (Z.to_nat (bytes_partCount reference))) None 0 0 [];
  requireM (negb (negb (index =? bytes_partCount reference) || negb (total =? bytes_byteLength reference)))
    "Archive evidence length/count is incomplete";;
  mret out.

(** Draining the iterator. *)
Definition readArchiveBytes : value -> value -> M W (list (list N)) := forArchiveBytes (fun _ => mret tt).
End Archive.
