(* ===== verification/ArchiveSize.v ===== *)
(** * History archive: the size of pages

    The encoded size of a page is the size of the empty page plus the sizes of
    its items and separators, which is what the builder's byte counters track;
    and bounds on the sizes of items, from which a bucket that refuses an item
    holds more than four. *)
From stdpp Require Import base numbers list gmap strings.
From Stdlib Require Import ZArith NArith Lia.
From S2P Require Import Prelude Unicode Json Base64 Digest Archive.
Local Open Scope Z_scope.

(** ** Encoded length of texts *)
Definition ulen (t : list N) : Z := byteLength (TextEncoder_encode t).

Lemma codePoints_cons_unit u t : isSurrogate u = false -> codePoints (u :: t) = u :: codePoints t.
Proof.
  intros Hu. destruct t as [|v t]; [done|]. cbn. destruct (isHigh u) eqn:Hh; [|done].
  apply surrogate_high in Hh. congruence.
Qed.

Lemma codePoints_app_clean a b : clean a -> codePoints (a ++ b) = codePoints a ++ codePoints b.
Proof.
  induction 1 as [|u t _ Hs _ IH|u v t Hp _ IH]; [done| |].
  - cbn [app]. rewrite !codePoints_cons_unit by done. by rewrite IH.
  - cbn [app codePoints]. by rewrite Hp, IH.
Qed.

Lemma encode_app a b :
  clean a -> TextEncoder_encode (a ++ b) = TextEncoder_encode a ++ TextEncoder_encode b.
Proof.
  intros Ha. unfold TextEncoder_encode, encodePoints. rewrite codePoints_app_clean by done.
  by rewrite !map_app, concat_app.
Qed.

Lemma ulen_app a b : clean a -> ulen (a ++ b) = ulen a + ulen b.
Proof. intros Ha. unfold ulen, byteLength. rewrite encode_app, length_app by done. lia. Qed.

Lemma ulen_nonneg t : 0 <= ulen t.
Proof. unfold ulen, byteLength. lia. Qed.

Lemma ulen_ascii t :
  forallb (fun u => (32 <=? u) && (u <? 128))%N t = true -> ulen t = Z.of_nat (length t).
Proof.
  induction t as [|u t IH]; [done|]. intros H. pose proof H as Hc. cbn in H.
  rewrite !andb_true_iff, N.leb_le, N.ltb_lt in H. destruct H as [[H1 H2] Ht].
  change (u :: t) with ([u] ++ t). rewrite ulen_app.
  - rewrite IH by done. unfold ulen, TextEncoder_encode, encodePoints, byteLength. cbn [codePoints map].
    unfold replacement. assert (isSurrogate u = false) as ->.
    { unfold isSurrogate. apply andb_false_iff. left. apply N.leb_gt. lia. }
    unfold utf8Point. rewrite (proj2 (N.ltb_lt u 128)) by done. cbn. lia.
  - apply clean_ascii. cbn. rewrite !andb_true_iff, N.leb_le, N.ltb_lt. done.
Qed.

Lemma ulen_join texts :
  Forall clean texts ->
  ulen (joinTexts 44 texts) = sumZ (map ulen texts) + Z.of_nat (pred (length texts)).
Proof.
  induction 1 as [|t texts Ht Hts IH]; [done|]. destruct texts as [|t2 texts].
  - cbn. lia.
  - change (joinTexts 44 (t :: t2 :: texts)) with (t ++ [44%N] ++ joinTexts 44 (t2 :: texts)).
    rewrite ulen_app by done. rewrite ulen_app by by apply clean_ascii.
    rewrite IH, (ulen_ascii [44%N]) by done. cbn. lia.
Qed.

(** Escaping a well-formed string takes at most six bytes for each of its
    bytes. *)
Lemma ulen_unit_pos u : isSurrogate u = false -> 1 <= ulen [u].
Proof.
  intros Hs. unfold ulen, TextEncoder_encode, encodePoints, byteLength. cbn [codePoints map concat].
  destruct (utf8Point_nonempty (replacement u)) as (b & l & ->). cbn. lia.
Qed.

Lemma wellFormed_unit u s :
  codePoints (u :: s) = u :: codePoints s -> wellFormed (u :: s) -> isSurrogate u = false /\ wellFormed s.
Proof.
  unfold wellFormed. intros ->. cbn. rewrite andb_True, Is_true_true, negb_true_iff. done.
Qed.

Lemma ulen_quoteBody s : units s -> wellFormed s -> ulen (quoteBody s) <= 6 * ulen s.
Proof.
  induction s as [|u v s Hp IH|u s Heq Hm IH] using codePoints_ind; [done| |].
  - rewrite !units_cons. intros (_ & _ & Hs) Hw. cbn [quoteBody]. rewrite Hp.
    assert (wellFormed s) as Hw' by (revert Hw; unfold wellFormed; cbn; rewrite Hp; cbn; by rewrite andb_True; intros [_ ?]).
    change (u :: v :: quoteBody s) with ([u; v] ++ quoteBody s). change (u :: v :: s) with ([u; v] ++ s).
    assert (clean [u; v]) by by repeat constructor.
    rewrite !ulen_app by done. specialize (IH Hs Hw'). pose proof (ulen_nonneg [u; v]). lia.
  - rewrite units_cons. intros [Hu Hs] Hw. apply wellFormed_unit in Hw as [Hsu Hw]; [|done].
    specialize (IH Hs Hw). rewrite quoteBody_unit by done.
    assert (ulen (u :: s) = ulen [u] + ulen s) as ->.
    { unfold ulen, TextEncoder_encode, encodePoints, byteLength. rewrite Heq. cbn [codePoints map concat].
      rewrite app_nil_r, length_app. lia. }
    pose proof (ulen_unit_pos u Hsu) as Hpos.
    assert (clean (default [u] (escapeOf u)) /\ ulen (default [u] (escapeOf u)) <= 6 * ulen [u]) as [Hc Hl].
    { unfold escapeOf.
      repeat match goal with |- context [(u =? ?c)%N] => destruct (N.eqb_spec u c) as [->|];
        [split; [by apply clean_ascii|done]|] end.
      rewrite Hsu. destruct (N.ltb_spec u 32).
      - split; [apply clean_escapeUnit|]. cbn [default from_option id].
        rewrite ulen_ascii by apply escapeUnit_ascii. cbn. lia.
      - cbn. split; [constructor; [lia|done|constructor]|lia]. }
    rewrite ulen_app by done. lia.
Qed.

Lemma ulen_quote s : units s -> wellFormed s -> ulen (quote s) <= 6 * ulen s + 2.
Proof.
  intros Hu Hw. unfold quote. rewrite ulen_app by by apply clean_ascii.
  rewrite ulen_app by by apply clean_quoteBody. rewrite !(ulen_ascii [34%N]) by done.
  pose proof (ulen_quoteBody s Hu Hw). cbn. lia.
Qed.

(** ** Valid records *)
Definition goodText (s : list N) (maximum : Z) : Prop :=
  units s /\ wellFormed s /\ ulen s <= maximum /\ text (Str s) maximum false = Ok s.

Lemma text_inv v maximum empty s : text v maximum empty = Ok s -> v = Str s.
Proof. unfold text. destruct v; try done. case_match; by intros; simplify_eq. Qed.

Lemma text_good s maximum : units s -> text (Str s) maximum false = Ok s -> goodText s maximum.
Proof.
  intros Hu Ht. split_and!; [done| | |done]; unfold text in Ht; destruct (_ || _) eqn:Hb in Ht; try done;
    bool_to_prop.
  - unfold wellFormed. apply Is_true_true, forallb_forall. intros c Hc. apply negb_true_iff.
    apply not_true_iff_false. intros Hsur.
    enough (existsb isSurrogate (codePoints s) = true) by congruence.
    apply existsb_exists. eauto.
  - unfold ulen. lia.
Qed.

Record context_ok (c : ArchiveTreeContext) : Prop := {
  ok_workspaceId : goodText (ctx_workspaceId c) 256;
  ok_indexId : goodText (ctx_indexId c) 128;
  ok_epoch : 1 <= ctx_historyEpoch c <= MAX_SAFE_INTEGER }.

Record entry_ok (e : ArchiveIndexEntry) : Prop := {
  ok_key : goodText (ent_key e) 512;
  ok_entry_id : digestPattern (ent_objectId e) }.

Record root_ok (r : ArchiveIndexRoot) : Prop := {
  ok_root_id : digestPattern (root_objectId r);
  ok_height : 0 <= root_height r < 32;
  ok_count : 1 <= root_count r <= MAX_SAFE_INTEGER;
  ok_first : exists k, root_first r = Some k /\ goodText k 512;
  ok_last : exists k, root_last r = Some k /\ goodText k 512 }.

Lemma digestPattern_chars s : digestPattern s -> length s = 43%nat /\
  forallb (fun u => (32 <=? u) && (u <? 128))%N s = true.
Proof.
  unfold digestPattern. rewrite !andb_True, !Is_true_true, Nat.eqb_eq, forallb_forall.
  intros [[Hl Hc] Hlast]. split; [done|].
  destruct (last s) as [c|] eqn:Hs; [|done]. apply last_Some in Hs as [l' ->].
  rewrite length_app in Hl. cbn in Hl.
  assert (take 42 (l' ++ [c]) = l') as Ht by (apply take_app_length'; lia). rewrite Ht in Hc.
  rewrite forallb_app. apply andb_true_iff. split.
  - apply forallb_forall. intros u Hu. specialize (Hc u Hu). unfold urlChar in Hc.
    rewrite !orb_true_iff, !andb_true_iff, !N.leb_le, !N.eqb_eq in Hc.
    apply andb_true_iff. rewrite N.leb_le, N.ltb_lt. lia.
  - unfold lastDigestChar in Hlast. apply bool_decide_eq_true in Hlast.
    rewrite list_elem_of_In in Hlast. cbn in Hlast.
    repeat destruct Hlast as [<-|Hlast]; done.
Qed.

Lemma ascii_units s : forallb (fun u => (32 <=? u) && (u <? 128))%N s = true -> units s.
Proof.
  intros H%clean_ascii. by apply clean_wellFormed in H as [? _].
Qed.

Lemma ascii_quote s : forallb (fun u => (32 <=? u) && (u <? 128))%N s = true -> ulen (quote s) <= 6 * Z.of_nat (length s) + 2.
Proof.
  intros H. pose proof (clean_ascii s H) as (Hu & Hw & _)%clean_wellFormed.
  pose proof (ulen_quote s Hu Hw) as Hq. by rewrite (ulen_ascii s H) in Hq.
Qed.

(** ** Texts of the records *)
Definition entryText (e : ArchiveIndexEntry) : list N := canonText str_leb (entry_value e).
Definition rootText (r : ArchiveIndexRoot) : list N := canonText str_leb (root_value r).

Lemma goodText_units s m : goodText s m -> units s.
Proof. by intros (? & _). Qed.

Lemma goodText_quote s m : goodText s m -> ulen (quote s) <= 6 * m + 2.
Proof. intros (Hu & Hw & Hl & _). pose proof (ulen_quote s Hu Hw). lia. Qed.

Lemma isSafe_bounds z : - MAX_SAFE_INTEGER <= z <= MAX_SAFE_INTEGER -> isSafeInteger z.
Proof. intros Hz. unfold isSafeInteger. apply andb_True. split; apply Is_true_true; lia. Qed.

Lemma plain_context c : context_ok c -> plain (context_value c).
Proof.
  intros [Hw Hi He]. apply plain_obj. cbn [map fst context_value]. split; [|by vm_compute; repeat constructor; set_solver].
  repeat constructor; cbn [fst snd]; try done; [by eapply goodText_units| |by eapply goodText_units].
  apply isSafe_bounds. unfold MAX_SAFE_INTEGER in *. lia.
Qed.


Lemma plain_entry e : entry_ok e -> plain (entry_value e).
Proof.
  intros [Hk Hi]. apply digestPattern_chars in Hi as [_ Hi%ascii_units].
  apply plain_obj. cbn [map fst entry_value]. split; [|by vm_compute; repeat constructor; set_solver].
  repeat constructor; cbn [fst snd]; try done. by eapply goodText_units.
Qed.

Lemma plain_root r : root_ok r -> plain (root_value r).
Proof.
  intros [Hi Hh Hc (f & Hf & Hgf) (l & Hl & Hgl)]. apply digestPattern_chars in Hi as [_ Hi%ascii_units].
  apply plain_obj. unfold root_value. rewrite Hf, Hl. cbn [map fst nullable].
  split; [|by vm_compute; repeat constructor; set_solver].
  unfold MAX_SAFE_INTEGER in *.
  repeat constructor; cbn [fst snd]; try done; try (apply isSafe_bounds; unfold MAX_SAFE_INTEGER; lia);
    by eapply goodText_units.
Qed.

(** The members of a record, in canonical order. *)
Definition objText (kts : list (list N * list N)) : list N :=
  [123%N] ++ joinTexts 44 (map memberText kts) ++ [125%N].

Lemma entryText_eq e :
  entryText e = objText [(js "key", quote (ent_key e)); (js "objectId", quote (ent_objectId e))].
Proof. reflexivity. Qed.

Lemma rootText_eq r :
  rootText r = objText [(js "count", intText (root_count r));
    (js "first", canonText str_leb (nullable (root_first r)));
    (js "height", intText (root_height r));
    (js "last", canonText str_leb (nullable (root_last r)));
    (js "objectId", quote (root_objectId r))].
Proof. unfold rootText, root_value. destruct (root_first r), (root_last r); reflexivity. Qed.

Lemma contextText_eq c :
  canonText str_leb (context_value c)
  = objText [(js "historyEpoch", intText (ctx_historyEpoch c)); (js "indexId", quote (ctx_indexId c));
             (js "workspaceId", quote (ctx_workspaceId c))].
Proof. reflexivity. Qed.

Definition arrText (texts : list (list N)) : list N := [91%N] ++ joinTexts 44 texts ++ [93%N].

Lemma clean_member k t : units k -> clean t -> clean (memberText (k, t)).
Proof.
  intros Hk Ht. unfold memberText; cbn [fst snd]. apply clean_app; [by apply clean_quote|].
  apply (clean_app [58%N]); [by apply clean_ascii|done].
Qed.

Lemma ulen_member k t : units k -> clean t -> ulen (memberText (k, t)) = ulen (quote k) + 1 + ulen t.
Proof.
  intros Hk Ht. unfold memberText; cbn [fst snd]. rewrite ulen_app by by apply clean_quote.
  rewrite ulen_app by by apply clean_ascii. rewrite (ulen_ascii [58%N]) by done. cbn [length]. lia.
Qed.

Definition clean_members (kts : list (list N * list N)) : Prop :=
  Forall (fun kt => units kt.1 /\ clean kt.2) kts.

Lemma clean_members_nil : clean_members [].
Proof. constructor. Qed.

Lemma clean_members_cons k t kts :
  units k -> clean t -> clean_members kts -> clean_members ((k, t) :: kts).
Proof. by constructor. Qed.

Ltac each_member := repeat (apply clean_members_cons; [try done| |]); [..|apply clean_members_nil].

Lemma clean_memberTexts kts : clean_members kts -> Forall clean (map memberText kts).
Proof.
  intros H. apply Forall_map. eapply Forall_impl; [exact H|]. intros [k t] [Hk Ht].
  by apply clean_member.
Qed.

Lemma objText_clean kts : clean_members kts -> clean (objText kts).
Proof.
  intros H. unfold objText. apply clean_app; [by apply clean_ascii|]. apply clean_app; [|by apply clean_ascii].
  by apply clean_join, clean_memberTexts.
Qed.

Lemma ulen_objText kts :
  clean_members kts ->
  ulen (objText kts) = 2 + sumZ (map (fun kt => ulen (quote kt.1) + 1 + ulen kt.2) kts)
                       + Z.of_nat (pred (length kts)).
Proof.
  intros H. unfold objText. rewrite ulen_app by by apply clean_ascii.
  rewrite ulen_app by by apply clean_join, clean_memberTexts.
  rewrite ulen_join by by apply clean_memberTexts.
  rewrite length_map, map_map, !(ulen_ascii [_]) by done. cbn [length].
  rewrite (sumZ_map_ext _ (fun kt => ulen (quote kt.1) + 1 + ulen kt.2)); [lia|].
  intros [k t] Hin. unfold clean_members in H. rewrite Forall_forall in H.
  destruct (H _ Hin) as [Hk Ht]. by apply ulen_member.
Qed.

Lemma clean_arrText texts : Forall clean texts -> clean (arrText texts).
Proof.
  intros H. apply clean_app; [by apply clean_ascii|]. apply clean_app; [|by apply clean_ascii].
  by apply clean_join.
Qed.

Lemma ulen_arrText texts :
  Forall clean texts -> ulen (arrText texts) = 2 + sumZ (map ulen texts) + Z.of_nat (pred (length texts)).
Proof.
  intros H. unfold arrText. rewrite ulen_app by by apply clean_ascii.
  rewrite ulen_app by by apply clean_join. rewrite ulen_join, !(ulen_ascii [_]) by done. cbn [length]. lia.
Qed.

(** ** Texts of the pages *)
Definition pageTail (height : Z) : list (list N * list N) :=
  [(js "height", intText height); (js "kind", quote (js "workspace-history-index-page"));
   (js "version", intText 1)].

Definition leafText (c : ArchiveTreeContext) (texts : list (list N)) : list N :=
  objText ((js "context", canonText str_leb (context_value c)) :: (js "entries", arrText texts) :: pageTail 0).

Definition branchText (c : ArchiveTreeContext) (height : Z) (texts : list (list N)) : list N :=
  objText ((js "children", arrText texts) :: (js "context", canonText str_leb (context_value c)) ::
           pageTail height).

Lemma canonText_page_obj c height field v :
  plain v ->
  canonText str_leb (Obj (header c height ++ [(field, v)]))
  = match mapR (fun '(key, item) => match canonicalizeJsonWithOrder str_leb item with
        | Throw e => Throw e | Ok text => Ok (key, text) end)
        (header c height ++ [(field, v)]) with
    | Throw _ => []
    | Ok texts => [123%N] ++ joinTexts 44 (map (fun '(key, text) => quote key ++ [58%N] ++ default (js "undefined") text)
         (sortBy (fun a b => str_leb a.1 b.1) texts)) ++ [125%N]
    end.
Proof. intros Hv. unfold canonText. cbn [canonicalizeJsonWithOrder]. by destruct (mapR _ _). Qed.

Lemma leafText_eq c entries :
  Forall entry_ok entries ->
  canonText str_leb (page_value (LeafPage c entries)) = leafText c (map entryText entries).
Proof.
  intros He.
  assert (plain (Arr (map entry_value entries))) as Hp.
  { apply plain_items, Forall_map. eapply Forall_impl; [exact He|]. apply plain_entry. }
  cbn [page_value]. rewrite canonText_page_obj by done. cbn [header app mapR].
  rewrite (canonical_total str_leb _ Hp), canonText_arr, map_map by done. reflexivity.
Qed.

Lemma branchText_eq c height children :
  Forall root_ok children ->
  canonText str_leb (page_value (BranchPage c height children)) = branchText c height (map rootText children).
Proof.
  intros He.
  assert (plain (Arr (map root_value children))) as Hp.
  { apply plain_items, Forall_map. eapply Forall_impl; [exact He|]. apply plain_root. }
  cbn [page_value]. rewrite canonText_page_obj by done. cbn [header app mapR].
  rewrite (canonical_total str_leb _ Hp), canonText_arr, map_map by done. reflexivity.
Qed.

(** ** Sizes *)
Lemma clean_entryText e : entry_ok e -> clean (entryText e).
Proof. intros He. by apply clean_canonText, plain_entry. Qed.

Lemma clean_rootText r : root_ok r -> clean (rootText r).
Proof. intros Hr. by apply clean_canonText, plain_root. Qed.

Lemma clean_contextText c : context_ok c -> clean (canonText str_leb (context_value c)).
Proof. intros Hc. by apply clean_canonText, plain_context. Qed.

Lemma clean_pageTail height : clean_members (pageTail height).
Proof.
  unfold pageTail. each_member; [apply clean_intText|by apply clean_ascii..].
Qed.

Lemma leafText_clean c texts : context_ok c -> Forall clean texts ->
  clean_members ((js "context", canonText str_leb (context_value c)) :: (js "entries", arrText texts) :: pageTail 0).
Proof.
  intros Hc Ht. apply clean_members_cons; [done|by apply clean_contextText|].
  apply clean_members_cons; [done|by apply clean_arrText|]. apply clean_pageTail.
Qed.

Lemma branchText_clean c height texts : context_ok c -> Forall clean texts ->
  clean_members ((js "children", arrText texts) :: (js "context", canonText str_leb (context_value c)) ::
                 pageTail height).
Proof.
  intros Hc Ht. apply clean_members_cons; [done|by apply clean_arrText|].
  apply clean_members_cons; [done|by apply clean_contextText|]. apply clean_pageTail.
Qed.

Lemma canonicalBytes_ulen v : byteLength (canonicalBytes v) = ulen (canonText str_leb v).
Proof. done. Qed.

(** The encoded size of a list of items with their separators. *)
Definition itemsSize (texts : list (list N)) : Z := sumZ (map ulen texts) + Z.of_nat (pred (length texts)).

Lemma itemsSize_snoc texts t :
  itemsSize (texts ++ [t]) = itemsSize texts + ulen t + (if (length texts =? 0)%nat then 0 else 1).
Proof.
  unfold itemsSize. rewrite map_app, sumZ_app, length_app. cbn.
  destruct texts; cbn; lia.
Qed.

Lemma leaf_size c entries :
  context_ok c -> Forall entry_ok entries ->
  byteLength (canonicalBytes (page_value (LeafPage c entries)))
  = leafBase c + itemsSize (map entryText entries).
Proof.
  intros Hc He. unfold leafBase. rewrite !canonicalBytes_ulen, !leafText_eq by done. unfold leafText.
  assert (Forall clean (map entryText entries)) as Ht.
  { apply Forall_map. eapply Forall_impl; [exact He|]. apply clean_entryText. }
  rewrite !ulen_objText by by apply leafText_clean. cbn [map sumZ fst snd length pageTail].
  rewrite !ulen_arrText by done. unfold itemsSize. cbn [map sumZ length pred]. lia.
Qed.

Lemma branch_size c level children :
  context_ok c -> Forall root_ok children ->
  byteLength (canonicalBytes (page_value (BranchPage c (Z.of_nat level + 1) children)))
  = bucket_bytes (emptyLevel c level) + itemsSize (map rootText children).
Proof.
  intros Hc He. unfold emptyLevel. cbn [bucket_bytes]. rewrite !canonicalBytes_ulen, !branchText_eq by done.
  unfold branchText.
  assert (Forall clean (map rootText children)) as Ht.
  { apply Forall_map. eapply Forall_impl; [exact He|]. apply clean_rootText. }
  rewrite !ulen_objText by by apply branchText_clean. cbn [map sumZ fst snd length pageTail].
  rewrite !ulen_arrText by done. unfold itemsSize. cbn [map sumZ length pred]. lia.
Qed.

(** *** Bounds *)
Ltac compute_keys :=
  repeat match goal with
  | |- context [ulen (quote (js ?s))] =>
      let v := eval vm_compute in (ulen (quote (js s))) in change (ulen (quote (js s))) with v
  end.

Lemma ulen_intText z : isSafeInteger z -> ulen (intText z) <= 17.
Proof. intros Hz. rewrite ulen_ascii by apply intText_ascii. apply intText_length in Hz. lia. Qed.

Lemma ulen_entryText e : entry_ok e -> ulen (entryText e) <= 3500.
Proof.
  intros [Hk Hi]. rewrite entryText_eq. pose proof (goodText_quote _ _ Hk) as Hq.
  pose proof (goodText_units _ _ Hk) as Hu.
  apply digestPattern_chars in Hi as [Hl Hi]. pose proof (ascii_quote _ Hi) as Hqi. rewrite Hl in Hqi.
  rewrite ulen_objText.
  - cbn [map sumZ fst snd length]. compute_keys. cbn [pred]. lia.
  - each_member; apply clean_quote; [done|by apply ascii_units].
Qed.

Lemma ulen_rootText r : root_ok r -> ulen (rootText r) <= 7000.
Proof.
  intros [Hi Hh Hc (f & Hf & Hgf) (l & Hl & Hgl)]. rewrite rootText_eq, Hf, Hl. cbn [nullable].
  change (canonText str_leb (Str f)) with (quote f). change (canonText str_leb (Str l)) with (quote l).
  pose proof (goodText_quote _ _ Hgf). pose proof (goodText_quote _ _ Hgl).
  pose proof (goodText_units _ _ Hgf). pose proof (goodText_units _ _ Hgl).
  apply digestPattern_chars in Hi as [Hli Hi]. pose proof (ascii_quote _ Hi) as Hqi. rewrite Hli in Hqi.
  pose proof (ulen_intText (root_count r) ltac:(apply isSafe_bounds; lia)).
  pose proof (ulen_intText (root_height r) ltac:(apply isSafe_bounds; unfold MAX_SAFE_INTEGER; lia)).
  rewrite ulen_objText.
  - cbn [map sumZ fst snd length]. compute_keys. cbn [pred]. lia.
  - each_member; try apply clean_intText; apply clean_quote; try done. by apply ascii_units.
Qed.

Lemma ulen_contextText c : context_ok c -> ulen (canonText str_leb (context_value c)) <= 2500.
Proof.
  intros [Hw Hi He]. rewrite contextText_eq.
  pose proof (goodText_quote _ _ Hw). pose proof (goodText_quote _ _ Hi).
  pose proof (goodText_units _ _ Hw). pose proof (goodText_units _ _ Hi).
  pose proof (ulen_intText (ctx_historyEpoch c) ltac:(apply isSafe_bounds; lia)).
  rewrite ulen_objText.
  - cbn [map sumZ fst snd length]. compute_keys. cbn [pred]. lia.
  - each_member; try apply clean_intText; by apply clean_quote.
Qed.

Lemma leafBase_bound c : context_ok c -> 0 <= leafBase c <= 3000.
Proof.
  intros Hc. unfold leafBase. rewrite canonicalBytes_ulen, leafText_eq by done.
  split; [apply ulen_nonneg|]. unfold leafText. rewrite ulen_objText by by apply leafText_clean.
  pose proof (ulen_contextText c Hc). cbn [map sumZ fst snd length pageTail].
  rewrite ulen_arrText by done. change (ulen (intText 1)) with 1. change (ulen (intText 0)) with 1.
  cbn [map sumZ length]. compute_keys. cbn [pred]. lia.
Qed.

Lemma emptyLevel_bound c level : context_ok c -> (level < 40)%nat -> 0 <= bucket_bytes (emptyLevel c level) <= 3000.
Proof.
  intros Hc Hl. unfold emptyLevel. cbn [bucket_bytes]. rewrite canonicalBytes_ulen, branchText_eq by done.
  split; [apply ulen_nonneg|]. unfold branchText. rewrite ulen_objText by by apply branchText_clean.
  pose proof (ulen_contextText c Hc).
  pose proof (ulen_intText (Z.of_nat level + 1) ltac:(apply isSafe_bounds; unfold MAX_SAFE_INTEGER; lia)).
  cbn [map sumZ fst snd length pageTail].
  rewrite ulen_arrText by done. change (ulen (intText 1)) with 1. change (ulen (intText 0)) with 1.
  cbn [map sumZ length]. compute_keys. cbn [pred]. lia.
Qed.

(** ** Captured values *)
Lemma exact_ok members keys :
  length members = length keys -> forallb (fun key => bool_decide (key ∈ map fst members)) keys = true ->
  exact (Obj members) keys = Ok members.
Proof. intros Hl Hk. unfold exact. by rewrite Hl, Nat.eqb_refl, Hk. Qed.

Lemma safe_in z : 0 <= z <= MAX_SAFE_INTEGER -> isSafeInteger z = true.
Proof. intros Hz. apply Is_true_eq_true, isSafe_bounds. unfold MAX_SAFE_INTEGER in *. lia. Qed.

Lemma captureContext_value c : context_ok c -> captureContext (context_value c) = Ok c.
Proof.
  intros [(_ & _ & _ & Hw) (_ & _ & _ & Hi) He]. destruct c as [w e i]. cbn [ctx_workspaceId ctx_indexId ctx_historyEpoch] in *.
  unfold captureContext, context_value. rewrite exact_ok by done. cbn [mbind result_bind].
  change (member (js "workspaceId") _) with (Str w). change (member (js "indexId") _) with (Str i).
  change (member (js "historyEpoch") _) with (Num (Int e)).
  cbn [ctx_workspaceId ctx_indexId ctx_historyEpoch] in *. rewrite Hw. cbn [mbind result_bind]. rewrite Hi. cbn [mbind result_bind].
  rewrite safe_in by lia. by rewrite (proj2 (Z.ltb_ge _ _)) by lia.
Qed.

Lemma captureEntry_value e : entry_ok e -> captureEntry (entry_value e) = Ok e.
Proof.
  intros [(_ & _ & _ & Hk) Hi]. destruct e as [k i]. cbn [ent_key ent_objectId] in *.
  unfold captureEntry, entry_value. rewrite exact_ok by done. cbn [mbind result_bind].
  change (member (js "key") _) with (Str k). change (member (js "objectId") _) with (Str i).
  unfold MAX_ARCHIVE_KEY_BYTES. rewrite Hk. cbn [mbind result_bind validateArchiveObjectId].
  by rewrite (Is_true_eq_true _ Hi).
Qed.

Lemma captureRoot_value r :
  root_ok r -> (forall f l, root_first r = Some f -> root_last r = Some l -> str_leb f l) ->
  captureRoot (root_value r) = Ok r.
Proof.
  intros [Hi Hh Hc (f & Hf & _ & _ & _ & Htf) (l & Hl & _ & _ & _ & Htl)] Hord.
  destruct r as [i h c f' l']. cbn [root_objectId root_height root_count root_first root_last] in *. subst f' l'.
  specialize (Hord f l eq_refl eq_refl).
  unfold captureRoot, root_value. rewrite exact_ok by done. cbn [mbind result_bind].
  change (member (js "objectId") _) with (Str i). change (member (js "height") _) with (Num (Int h)).
  change (member (js "count") _) with (Num (Int c)). change (member (js "first") _) with (Str f).
  change (member (js "last") _) with (Str l). unfold validateArchiveObjectId. rewrite (Is_true_eq_true _ Hi).
  cbn [mbind result_bind]. unfold MAX_ARCHIVE_DEPTH, MAX_ARCHIVE_KEY_BYTES.
  rewrite (proj2 (Z.ltb_ge _ _)), (proj2 (Z.leb_gt _ _)) by lia. cbn [orb mbind result_bind].
  rewrite safe_in by lia. rewrite (proj2 (Z.ltb_ge _ _)) by lia. cbn [orb negb mbind result_bind].
  rewrite (proj2 (Z.eqb_neq _ _)) by lia. rewrite Htf. cbn [mbind result_bind]. rewrite Htl. cbn [mbind result_bind].
  rewrite str_ltb_leb. by rewrite (Is_true_eq_true _ Hord).
Qed.
