(* ===== verification/ArchiveBuild.v ===== *)
(** * History archive: building

    What [buildArchiveIndex] leaves in the store.  [denotes] says that a root
    stands for a list of entries in a store; against any immutable store, a
    build that returns gives a root that stands for exactly its source.
    Against a store whose writes succeed, a build of valid entries returns:
    none of its own limits (page bytes, depth, counts) can be hit. *)
From stdpp Require Import base numbers list gmap strings sorting.
From Stdlib Require Import ZArith NArith Lia.
From S2P Require Import Prelude Unicode Json Base64 Digest Archive ArchiveSize.
Local Open Scope Z_scope.

(** ** Immutable stores: the contract of [ArchiveObjectStore] *)
Class ImmutableStore (W : Type) `{ArchiveObjectStore W} := {
  view : W -> gmap (list N) (list N);
  read_view id maximum binding w : view w ⊆ view (store_read id maximum binding w).2;
  write_view id bytes w : view w ⊆ view (store_write id bytes w).2;
  write_stored id bytes w :
    (store_write id bytes w).1 = Ok tt -> view (store_write id bytes w).2 !! id = Some bytes }.

Section Denotes.
Context `{Sha256}.
Variable context : ArchiveTreeContext.

(** The page is in the store under the root's id, and the root is its summary. *)
Definition stored (v : gmap (list N) (list N)) (root : ArchiveIndexRoot) (page : IndexPage) : Prop :=
  let bytes := canonicalBytes (page_value page) in
  root_objectId root = sha256Base64Url bytes /\ v !! root_objectId root = Some bytes /\
  byteLength bytes <= MAX_ARCHIVE_PAGE_BYTES /\ page_height page < MAX_ARCHIVE_DEPTH /\
  pageRoot page (root_objectId root) = Ok root.

(** A tree of height [h] that holds [entries]. *)
Fixpoint denotes (v : gmap (list N) (list N)) (h : nat) (root : ArchiveIndexRoot)
    (entries : list ArchiveIndexEntry) : Prop :=
  match h with
  | O => stored v root (LeafPage context entries) /\ (length entries <= 64)%nat
  | S h' => exists children parts,
      entries = concat parts /\ Forall2 (denotes v h') children parts /\
      Forall (fun es => es <> []) parts /\ children <> [] /\ (length children <= 64)%nat /\
      stored v root (BranchPage context (Z.of_nat h) children)
  end.

Lemma stored_mono v v' root page : v ⊆ v' -> stored v root page -> stored v' root page.
Proof. intros Hv (? & Hl & ?). split_and!; try done; [|tauto..]. by eapply lookup_weaken. Qed.

Lemma denotes_mono v v' h root entries : v ⊆ v' -> denotes v h root entries -> denotes v' h root entries.
Proof.
  intros Hv. revert root entries. induction h as [|h IH]; intros root entries; cbn.
  - intros [? ?]. split; [by eapply stored_mono|done].
  - intros (children & parts & ? & Hc & ? & ? & ? & ?). exists children, parts.
    split_and!; try done; [|by eapply stored_mono].
    eapply Forall2_impl; [exact Hc|]. auto.
Qed.

(** Buckets and levels of the builder: higher levels hold earlier entries. *)
Definition bucket_denotes (v : gmap (list N) (list N)) (level : nat)
    (bucket : option (Bucket ArchiveIndexRoot)) (entries : list ArchiveIndexEntry) : Prop :=
  match bucket with
  | None => entries = []
  | Some b => exists parts, entries = concat parts /\ Forall2 (denotes v level) (items b) parts /\
      Forall (fun es => es <> []) parts /\ (length (items b) < 64)%nat
  end.

Fixpoint levels_denote (v : gmap (list N) (list N)) (level : nat)
    (levels : list (option (Bucket ArchiveIndexRoot))) (entries : list ArchiveIndexEntry) : Prop :=
  match levels with
  | [] => entries = []
  | bucket :: rest => exists es1 es2, entries = es2 ++ es1 /\ bucket_denotes v level bucket es1 /\
      levels_denote v (S level) rest es2
  end.

Lemma bucket_mono v v' level bucket entries :
  v ⊆ v' -> bucket_denotes v level bucket entries -> bucket_denotes v' level bucket entries.
Proof.
  intros Hv. destruct bucket as [b|]; [|done]. intros (parts & ? & Hp & ? & ?). exists parts.
  split_and!; try done. eapply Forall2_impl; [exact Hp|]. eauto using denotes_mono.
Qed.

Lemma levels_mono v v' level levels entries :
  v ⊆ v' -> levels_denote v level levels entries -> levels_denote v' level levels entries.
Proof.
  intros Hv. revert level entries. induction levels as [|b rest IH]; intros level entries; [done|].
  intros (es1 & es2 & ? & ? & ?). exists es1, es2. eauto using bucket_mono.
Qed.
End Denotes.

(** ** A build that returns stands for its source *)
Section Partial.
Context `{Sha256} {W : Type} `{ImmutableStore W}.
Variable context : ArchiveTreeContext.

Definition grows (w w' : W) : Prop := view w ⊆ view w'.

#[global] Instance grows_preorder : PreOrder grows.
Proof. unfold grows. split; [intros w; reflexivity|intros w1 w2 w3 ??; by etrans]. Qed.

Lemma safe_write w0 id bytes :
  safe grows w0 (store_write id bytes) (fun _ w => view w !! id = Some bytes).
Proof.
  intros w Hw. split; [apply write_view|]. intros []. apply write_stored.
Qed.

Lemma safe_persist w0 page :
  safe grows w0 (persist page) (fun root w => stored (view w) root page).
Proof.
  unfold persist. eapply safe_bind; [exact _|apply safe_require, _|].
  cbv beta. intros _ w1 Hw1 Hd.
  eapply safe_bind; [exact _|apply safe_require, _|]. cbv beta. intros _ w2 Hw2 Hb.
  eapply safe_bind; [exact _|apply safe_write|]. cbv beta. intros _ w3 Hw3 Hs.
  eapply safe_weaken; [exact _|apply safe_lift, _|]. cbv beta. intros root w4 Hw4 Hr.
  assert (root_objectId root = sha256Base64Url (canonicalBytes (page_value page))) as Hid.
  { unfold pageRoot in Hr. destruct page; [by simplify_eq|]. by case_match; simplify_eq. }
  rewrite negb_true_iff, Z.leb_gt in Hd. rewrite negb_true_iff, Z.ltb_ge in Hb.
  unfold stored. rewrite Hid. split_and!; try done. by eapply lookup_weaken.
Qed.

(** One more item at the end of a bucket. *)
Lemma bucket_append v level (bucket : Bucket ArchiveIndexRoot) root es er parts :
  es = concat parts -> Forall2 (denotes context v level) (items bucket) parts ->
  Forall (fun es => es <> []) parts ->
  denotes context v level root er -> er <> [] ->
  exists parts', es ++ er = concat parts' /\
    Forall2 (denotes context v level) (items bucket ++ [root]) parts' /\
    Forall (fun es => es <> []) parts'.
Proof.
  intros -> Hp Hne Hr Her. exists (parts ++ [er]). rewrite concat_app. cbn. rewrite app_nil_r.
  split_and!; [done|by apply Forall2_app; [|constructor]|]. apply Forall_app. by repeat constructor.
Qed.

Lemma safe_flush fuel w0 level (bucket : list ArchiveIndexRoot) parts above es2 :
  (forall w0 level root upper es er,
    levels_denote context (view w0) level upper es -> denotes context (view w0) level root er -> er <> [] ->
    safe grows w0 (push context fuel level root upper)
      (fun upper' w => levels_denote context (view w) level upper' (es ++ er))) ->
  Forall2 (denotes context (view w0) level) bucket parts -> Forall (fun es => es <> []) parts ->
  bucket <> [] -> (length bucket <= 64)%nat ->
  levels_denote context (view w0) (S level) above es2 ->
  safe grows w0 (root' ← persist (BranchPage context (Z.of_nat level + 1) bucket);
                 push context fuel (S level) root' above)
    (fun above' w => levels_denote context (view w) (S level) above' (es2 ++ concat parts)).
Proof.
  intros IH Hb Hne Hnil Hlen Hab. eapply safe_bind; [exact _|apply safe_persist|]. cbv beta.
  intros root w1 Hw1 Hs. apply IH; [by eapply levels_mono| |].
  - exists bucket, parts. split_and!; try done.
    + eapply Forall2_impl; [exact Hb|]. eauto using denotes_mono.
    + by replace (Z.of_nat (S level)) with (Z.of_nat level + 1) by lia.
  - destruct Hne as [|es parts Hes]; [by inversion Hb; subst|]. by destruct es.
Qed.

Lemma safe_push fuel w0 level root upper es er :
  levels_denote context (view w0) level upper es -> denotes context (view w0) level root er -> er <> [] ->
  safe grows w0 (push context fuel level root upper)
    (fun upper' w => levels_denote context (view w) level upper' (es ++ er)).
Proof.
  revert w0 level root upper es er.
  induction fuel as [|fuel IH]; intros w0 level root upper es er Hl Hr Her; [apply safe_throw, _|].
  cbn [push]. destruct (MAX_ARCHIVE_DEPTH <=? Z.of_nat level); [apply safe_throw, _|].
  set (bucket := default (emptyLevel context level) (mjoin (head upper))).
  assert (exists es1 es2 parts, es = es2 ++ es1 /\ es1 = concat parts /\
    Forall2 (denotes context (view w0) level) (items bucket) parts /\
    Forall (fun es => es <> []) parts /\ (length (items bucket) < 64)%nat /\
    levels_denote context (view w0) (S level) (tail upper) es2)
    as (es1 & es2 & parts & -> & He1 & Hb & Hne & Hlen & Hab).
  { destruct upper as [|[b|] upper]; cbn in Hl.
    - subst es. exists [], [], []. by repeat constructor.
    - destruct Hl as (es1 & es2 & -> & (parts & ? & ? & ? & ?) & ?). by exists es1, es2, parts.
    - destruct Hl as (es1 & es2 & -> & -> & ?). exists [], es2, []. by repeat constructor. }
  eapply safe_bind with (Q := fun ba w => exists es1' es2' parts',
    es2 ++ es1 = es2' ++ es1' /\ es1' = concat parts' /\
    Forall2 (denotes context (view w) level) (items ba.1) parts' /\
    Forall (fun es => es <> []) parts' /\ (length (items ba.1) < 64)%nat /\
    levels_denote context (view w) (S level) ba.2 es2'); [exact _| |].
  - destruct (negb (length (items bucket) =? 0)%nat && _) eqn:Hfull.
    + apply andb_true_iff in Hfull as [Hnz%negb_true_iff%Nat.eqb_neq _].
      eapply safe_bind; [exact _|apply (safe_flush fuel _ _ (items bucket) parts _ es2); try done|].
      { by destruct (items bucket). }
      { lia. }
      cbv beta. intros above' w1 Hw1 Hab'. apply safe_ret; [exact _|]. intros w2 Hw2.
      exists [], (es2 ++ concat parts), []. rewrite app_nil_r, He1. cbn. split_and!; try done; [lia|].
      by eapply levels_mono.
    + apply safe_ret; [exact _|]. intros w1 Hw1. exists es1, es2, parts. split_and!; try done.
      * eapply Forall2_impl; [exact Hb|]. eauto using denotes_mono.
      * by eapply levels_mono.
  - cbv beta. intros [bucket' above'] w1 Hw1 (es1' & es2' & parts' & -> & He1' & Hb' & Hne' & Hlen' & Hab').
    cbn [fst snd] in *.
    destruct (bucket_append (view w1) level bucket' root es1' er parts') as (parts'' & Hcat & Hb'' & Hne'');
      [done..|by eapply denotes_mono|done|].
    assert (length (items (append root_value bucket' root)) = S (length (items bucket'))) as Hlen''
      by (cbn; rewrite length_app; cbn; lia).
    destruct (Z.of_nat (length (items (append root_value bucket' root))) =? MAX_ARCHIVE_CHILDREN) eqn:H64.
    + eapply safe_bind; [exact _|apply (safe_flush fuel _ _ (items (append root_value bucket' root)) parts'' _ es2'); try done|].
      { cbn. by destruct (items bucket'). }
      { lia. }
      cbv beta. intros above'' w2 Hw2 Hab''. apply safe_ret; [exact _|]. intros w3 Hw3.
      exists [], (es2' ++ concat parts''). split_and!; [by rewrite app_nil_r, <- app_assoc, Hcat|done|].
      by eapply levels_mono.
    + apply safe_ret; [exact _|]. intros w2 Hw2. exists (es1' ++ er), es2'.
      unfold MAX_ARCHIVE_CHILDREN in H64.
      split_and!; [by rewrite app_assoc| |by eapply levels_mono].
      exists parts''. split_and!; [done| |done|lia].
      eapply Forall2_impl; [exact Hb''|]. eauto using denotes_mono.
Qed.

(** *** The whole build *)
Definition keys_ordered (entries : list ArchiveIndexEntry) : Prop :=
  StronglySorted (fun a b => str_ltb (ent_key a) (ent_key b)) entries.

(** The builder has consumed [entries]. *)
Definition builder_denotes (v : gmap (list N) (list N)) (b : Builder) (entries : list ArchiveIndexEntry) : Prop :=
  exists es, entries = es ++ items (b_leaf b) /\ levels_denote context v 0 (b_levels b) es /\
    (length (items (b_leaf b)) < 64)%nat /\ b_previous b = ent_key <$> last entries /\
    keys_ordered entries /\ (items (b_leaf b) = [] -> bucket_bytes (b_leaf b) = leafBase context) /\
    (entries = [] -> b_levels b = []).

Lemma builder_mono v v' b entries :
  v ⊆ v' -> builder_denotes v b entries -> builder_denotes v' b entries.
Proof. intros Hv (es & ? & ? & ?). exists es. eauto using levels_mono. Qed.

Lemma safe_flushLeaf w0 b entries es :
  entries = es ++ items (b_leaf b) -> levels_denote context (view w0) 0 (b_levels b) es ->
  (length (items (b_leaf b)) <= 64)%nat -> items (b_leaf b) <> [] ->
  safe grows w0 (flushLeaf context b)
    (fun b' w => b_leaf b' = mkBucket [] (leafBase context) /\
                 levels_denote context (view w) 0 (b_levels b') entries /\ b_previous b' = b_previous b).
Proof.
  intros -> Hl Hlen Hne. unfold flushLeaf.
  eapply safe_bind; [exact _|apply safe_persist|]. cbv beta. intros root w1 Hw1 Hs.
  eapply safe_bind; [exact _|apply (safe_push _ _ _ _ _ es (items (b_leaf b)));
    [by eapply levels_mono|by split|done]|].
  cbv beta. intros levels w2 Hw2 Hl2. apply safe_ret; [exact _|]. intros w3 Hw3.
  split_and!; [done|by eapply levels_mono|done].
Qed.

Lemma ordered_snoc entries e :
  keys_ordered entries -> (forall p, last entries = Some p -> str_ltb (ent_key p) (ent_key e)) ->
  keys_ordered (entries ++ [e]).
Proof.
  unfold keys_ordered. intros Hs Hlast. induction Hs as [|x l Hl IH Hx]; [by repeat constructor|].
  cbn. constructor.
  - apply IH. intros p Hp. apply Hlast. destruct l; [done|]. by rewrite last_cons_cons.
  - apply Forall_app. split; [done|]. constructor; [|done].
    destruct (last l) as [p|] eqn:Hp.
    + assert (str_ltb (ent_key p) (ent_key e)) as Hpe by (apply Hlast; destruct l; [done|]; by rewrite last_cons_cons).
      apply last_Some_elem_of in Hp. rewrite Forall_forall in Hx. eapply str_ltb_trans; [by apply Hx|done].
    + apply last_None in Hp as ->. by apply Hlast.
Qed.

(** A leaf always has room for its first entry. *)
Lemma fits_first (e : ArchiveIndexEntry) (bucket : Bucket ArchiveIndexEntry) :
  context_ok context -> entry_ok e -> items bucket = [] -> bucket_bytes bucket = leafBase context ->
  fits entry_value bucket e = true.
Proof.
  intros Hc He Hi Hb. unfold fits, separator. rewrite Hi, Hb. cbn [length Nat.eqb].
  pose proof (leafBase_bound context Hc). pose proof (ulen_entryText e He).
  rewrite canonicalBytes_ulen. fold (entryText e). unfold MAX_ARCHIVE_CHILDREN, MAX_ARCHIVE_PAGE_BYTES.
  apply andb_true_iff. split; [done|]. apply Z.leb_le. lia.
Qed.

Lemma member_tame key members : tame (Obj members) -> tame (member key members).
Proof.
  cbn [tame]. rewrite andb_True, Is_true_true, forallb_forall. intros [Ht _].
  induction members as [|[k v] members IH]; [done|]. cbn [member].
  case_bool_decide; [|apply IH; intros; apply Ht; by right].
  specialize (Ht (k, v) ltac:(by left)). cbn beta iota in Ht. apply andb_true_iff in Ht as [_ Ht].
  by apply Is_true_true.
Qed.

Lemma captureEntry_ok v e : tame v -> captureEntry v = Ok e -> entry_ok e.
Proof.
  intros Ht. unfold captureEntry. intros (members & Hm & Hk)%bind_ok.
  apply bind_ok in Hk as (key & Hk & Hi). apply bind_ok in Hi as (id & Hi & [= <-]).
  unfold exact in Hm. destruct v as [| | | | | |ms]; try done. case_match; [|done]. injection Hm as ->.
  split; cbn.
  - pose proof (member_tame (js "key") members Ht) as Htk.
    pose proof (text_inv _ _ _ _ Hk) as Hs. rewrite Hs in Hk, Htk. by apply text_good.
  - unfold validateArchiveObjectId in Hi. destruct (member (js "objectId") members); try done.
    destruct (digestPattern s) eqn:Hd; [|done]. injection Hi as <-. by rewrite Hd.
Qed.

Lemma safe_feed w0 b entries candidate :
  context_ok context -> tame candidate -> builder_denotes (view w0) b entries ->
  safe grows w0 (feed context b candidate)
    (fun b' w => exists e, captureEntry candidate = Ok e /\ builder_denotes (view w) b' (entries ++ [e])).
Proof.
  intros Hctx Htame (es & He & Hl & Hlen & Hprev & Hord & Hbase & _). unfold feed.
  eapply safe_bind; [exact _|apply safe_lift, _|]. cbv beta. intros e w1 Hw1 Hcap.
  eapply safe_bind; [exact _|apply safe_require, _|]. cbv beta. intros _ w2 Hw2 Hlt.
  assert (grows w0 w2) as Hw02 by (etrans; eassumption).
  assert (keys_ordered (entries ++ [e])) as Hord'.
  { apply ordered_snoc; [done|]. intros p Hp. rewrite Hprev, Hp in Hlt. cbn in Hlt.
    by rewrite str_ltb_leb, Hlt. }
  eapply safe_bind with (Q := fun b' w => exists es', entries = es' ++ items (b_leaf b') /\
    levels_denote context (view w) 0 (b_levels b') es' /\ (length (items (b_leaf b')) < 64)%nat /\
    b_previous b' = Some (ent_key e)); [exact _| |].
  - destruct (fits _ _ _) eqn:Hf.
    + apply safe_ret; [exact _|]. intros w3 Hw3. exists es. split_and!; try done.
      eapply levels_mono; [|done]. unfold grows in *. by etrans.
    + eapply safe_weaken; [exact _|apply (safe_flushLeaf _ _ entries es)|]; cbn [b_leaf b_levels b_previous]; try done.
      { by eapply levels_mono. }
      { lia. }
      { intros Hnil. enough (fits entry_value (b_leaf b) e = true) by (cbn in Hf; congruence).
        apply fits_first; eauto using captureEntry_ok. }
      cbv beta. intros b' w3 Hw3 (Hi & Hl3 & Hp3). exists entries. rewrite Hi, app_nil_r. cbn.
      split_and!; try done. lia.
  - cbv beta. intros b' w3 Hw3 (es' & -> & Hl' & Hlen' & Hp'). cbn [b_leaf b_levels b_previous items append].
    set (b'' := mkBuilder _ _ _).
    assert (length (items (b_leaf b'')) = S (length (items (b_leaf b')))) as Hlen''
      by (cbn; rewrite length_app; cbn; lia).
    assert (last ((es' ++ items (b_leaf b')) ++ [e]) = Some e) as Hlast by apply last_snoc.
    change (items (b_leaf b') ++ [e]) with (items (b_leaf b'')).
    destruct (Z.of_nat (length (items (b_leaf b''))) =? MAX_ARCHIVE_CHILDREN) eqn:H64.
    + eapply safe_weaken; [exact _|apply (safe_flushLeaf _ _ (es' ++ items (b_leaf b'')) es')|]; try done.
      { lia. }
      { cbn. by destruct (items (b_leaf b')). }
      cbv beta. intros b3 w4 Hw4 (Hi & Hl4 & Hp4). exists e. split; [done|].
      exists (es' ++ items (b_leaf b'')). rewrite Hi, app_nil_r. cbn [items length].
      split_and!; [by cbn; rewrite app_assoc|done|lia|by rewrite Hp4, Hlast|done|done|by destruct es', (items (b_leaf b'))].
    + apply safe_ret; [exact _|]. intros w4 Hw4. exists e. split; [done|]. exists es'.
      unfold MAX_ARCHIVE_CHILDREN in H64.
      split_and!; [by cbn; rewrite app_assoc|by eapply levels_mono|lia|by rewrite Hlast|done|
        |by destruct es', (items (b_leaf b'))].
      cbn. by destruct (items (b_leaf b')).
Qed.

Lemma safe_feedAll w0 b entries source :
  context_ok context -> Forall tame source -> builder_denotes (view w0) b entries ->
  safe grows w0 (feedAll context b source)
    (fun b' w => exists es, mapR captureEntry source = Ok es /\ builder_denotes (view w) b' (entries ++ es)).
Proof.
  intros Hctx Ht. revert w0 b entries. induction Ht as [|c source Hc Ht IH]; intros w0 b entries Hb; cbn [feedAll].
  - apply safe_ret; [exact _|]. intros w Hw. exists []. rewrite app_nil_r. split; [done|]. by eapply builder_mono.
  - eapply safe_bind; [exact _|by apply safe_feed|]. cbv beta. intros b' w1 Hw1 (e & He & Hb').
    eapply safe_weaken; [exact _|apply (IH w1 b' (entries ++ [e]) Hb')|]. cbv beta.
    intros b2 w2 Hw2 (es & Hes & Hb2). exists (e :: es). cbn. rewrite He, Hes. split; [done|].
    by rewrite <- app_assoc in Hb2.
Qed.

(** The closing loop. *)
Lemma findLevel_spec levels level :
  findLevel levels = Some level ->
  Forall levelEmpty (take level levels) /\ exists b, levels !! level = Some (Some b) /\ items b <> [].
Proof.
  revert level. induction levels as [|[b|] levels IH]; cbn; intros level; [done|..].
  - destruct (items b) as [|x l] eqn:Hi; cbn.
    + destruct (findLevel levels) as [n|]; [|done]. intros [= <-]. destruct (IH n eq_refl) as [H1' H2'].
      split; [|done]. constructor; [by unfold levelEmpty; rewrite Hi|done].
    + intros [= <-]. split; [constructor|]. exists b. by rewrite Hi.
  - destruct (findLevel levels) as [n|]; [|done]. intros [= <-]. destruct (IH n eq_refl). by split; [constructor|].
Qed.

Lemma levels_skip v level levels k entries :
  levels_denote context v level levels entries -> Forall levelEmpty (take k levels) ->
  levels_denote context v (level + k) (drop k levels) entries.
Proof.
  revert level k entries. induction levels as [|b levels IH]; intros level k entries Hl Hk.
  { by rewrite drop_nil. }
  destruct k as [|k]; [by rewrite Nat.add_0_r|]. cbn [take] in Hk. apply Forall_cons in Hk as [Hb Hk].
  destruct Hl as (es1 & es2 & -> & Hbk & Hl). cbn [drop].
  replace (level + S k)%nat with (S level + k)%nat by lia.
  assert (es1 = []) as ->; [|rewrite app_nil_r; by apply IH].
  destruct b as [b|]; [|done]. destruct Hbk as (parts & -> & Hf & _). cbn in Hb.
  destruct (items b); [|done]. by apply Forall2_nil_inv_l in Hf as ->.
Qed.

Lemma levels_pad v level levels k entries :
  levels_denote context v (level + k) (drop k levels) entries -> (k <= length levels)%nat ->
  Forall levelEmpty (take k levels) -> levels_denote context v level levels entries.
Proof.
  revert level levels entries. induction k as [|k IH]; intros level levels entries Hl Hk He.
  { by rewrite Nat.add_0_r in Hl. }
  destruct levels as [|b levels]; [cbn in Hk; lia|]. cbn [take drop length] in *.
  apply Forall_cons in He as [Hb He]. replace (level + S k)%nat with (S level + k)%nat in Hl by lia.
  exists [], entries. rewrite app_nil_r. split_and!; [done| |apply IH; [done|lia|done]].
  destruct b as [b|]; [|done]. exists []. cbn in Hb. destruct (items b) eqn:Hi; [|done].
  split_and!; [done|constructor|constructor|cbn; lia].
Qed.

Lemma levels_all_empty v level levels entries :
  levels_denote context v level levels entries -> forallb levelEmpty levels -> entries = [].
Proof.
  intros Hl He. pose proof (levels_skip v level levels (length levels) entries Hl) as H'.
  rewrite take_ge, drop_ge in H' by lia. apply H'.
  rewrite Is_true_true, forallb_forall in He. apply Forall_forall. intros b Hb%list_elem_of_In.
  by apply Is_true_true, He.
Qed.

Lemma safe_flushLevel w0 level levels entries :
  findLevel levels = Some level -> levels_denote context (view w0) 0 levels entries ->
  safe grows w0 (flushLevel context level levels)
    (fun levels' w => levels_denote context (view w) 0 levels' entries).
Proof.
  intros (He & b & Hb & Hne)%findLevel_spec Hl. unfold flushLevel. rewrite Hb. cbn [mjoin option_join].
  pose proof (levels_skip _ _ _ _ _ Hl He) as Hl'. rewrite (drop_S _ _ _ Hb) in Hl'.
  destruct Hl' as (es1 & es2 & -> & (parts & -> & Hp & Hpn & Hlen) & Hab).
  rewrite Nat.add_0_l in *.
  assert (forall w levels', levels_denote context (view w) (S level) levels' (es2 ++ concat parts) ->
    levels_denote context (view w) 0 (take level levels ++ None :: levels') (es2 ++ concat parts)) as Hfin.
  { intros w levels' Hl2. pose proof (lookup_lt_Some _ _ _ Hb) as Hlt.
    assert (length (take level levels) = level) as Htl by (rewrite length_take; lia).
    apply (levels_pad _ _ _ level).
    - rewrite Nat.add_0_l. rewrite drop_app_length' by done. exists [], (es2 ++ concat parts).
      by rewrite app_nil_r.
    - rewrite length_app, Htl. lia.
    - by rewrite take_app_length' by done. }
  eapply safe_bind; [exact _|apply safe_persist|]. cbv beta. intros root w1 Hw1 Hs.
  eapply safe_bind; [exact _|apply (safe_push _ _ _ _ _ es2 (concat parts))|].
  - by eapply levels_mono.
  - exists (items b), parts. split_and!; try done; [|lia|].
    + eapply Forall2_impl; [exact Hp|]. eauto using denotes_mono.
    + by replace (Z.of_nat (S level)) with (Z.of_nat level + 1) by lia.
  - destruct Hpn as [|es parts Hes]; [by inversion Hp; subst; destruct (items b)|]. by destruct es.
  - cbv beta. intros levels' w2 Hw2 Hl2. apply safe_ret; [exact _|]. intros w3 Hw3.
    eapply levels_mono; [exact Hw3|]. by apply Hfin.
Qed.

Lemma safe_closing fuel w0 levels entries :
  levels_denote context (view w0) 0 levels entries ->
  safe grows w0 (closing context fuel levels) (fun root w => exists h, denotes context (view w) h root entries).
Proof.
  revert w0 levels. induction fuel as [|fuel IH]; intros w0 levels Hl; [apply safe_throw, _|]. cbn [closing].
  destruct (findLevel levels) as [level|] eqn:Hf; [|apply safe_throw, _].
  destruct (findLevel_spec _ _ Hf) as (He & b & Hb & Hne). rewrite Hb. cbn [mjoin option_join].
  assert (safe grows w0 (levels' ← flushLevel context level levels; closing context fuel levels')
    (fun root w => exists h, denotes context (view w) h root entries)) as Hgo.
  { eapply safe_bind; [exact _|by apply safe_flushLevel|]. cbv beta. intros levels' w1 Hw1 Hl'. by apply IH. }
  destruct (items b) as [|root [|]] eqn:Hi; [done| |done].
  destruct (forallb levelEmpty (drop (S level) levels)) eqn:Hup; [|done].
  pose proof (levels_skip _ _ _ _ _ Hl He) as Hl'. rewrite (drop_S _ _ _ Hb), Nat.add_0_l in Hl'.
  destruct Hl' as (es1 & es2 & -> & (parts & -> & Hp & _) & Hab).
  apply levels_all_empty in Hab as ->; [|by rewrite Hup]. rewrite Hi in Hp.
  apply safe_ret; [exact _|]. intros w1 Hw1. exists level.
  inversion Hp as [|? es ? ? Hd Hn]; subst. inversion Hn; subst. cbn. rewrite app_nil_r.
  by eapply denotes_mono.
Qed.

(** The archive without entries is one empty leaf. *)
Lemma push_first root w :
  push context depthFuel 0 root [] w = (Ok [Some (append root_value (emptyLevel context 0) root)], w).
Proof. reflexivity. Qed.

Lemma closing_first root w :
  closing context depthFuel [Some (append root_value (emptyLevel context 0) root)] w = (Ok root, w).
Proof. reflexivity. Qed.

Lemma safe_finish_empty w0 b :
  items (b_leaf b) = [] -> b_levels b = [] ->
  safe grows w0 (finish context b) (fun root w => denotes context (view w) 0 root []).
Proof.
  intros Hi Hl. unfold finish. rewrite Hi, Hl. cbn [length Nat.eqb negb orb forallb].
  eapply safe_bind with (Q := fun b' w => exists root,
    b_levels b' = [Some (append root_value (emptyLevel context 0) root)] /\ stored (view w) root (LeafPage context [])).
  { exact _. }
  { unfold flushLeaf. rewrite Hi, Hl. eapply safe_bind; [exact _|apply safe_persist|]. cbv beta.
    intros root w1 Hw1 Hs w Hw. unfold mbind, M_bind. rewrite push_first. cbn.
    split; [done|]. intros b' [= <-]. exists root. split; [done|]. by eapply stored_mono. }
  cbv beta. intros b' w1 Hw1 (root & -> & Hs) w Hw. rewrite closing_first. cbn. split; [done|].
  intros ? [= <-]. split; [by eapply stored_mono|lia].
Qed.

Lemma safe_finish w0 b entries :
  builder_denotes (view w0) b entries ->
  safe grows w0 (finish context b) (fun root w => exists h, denotes context (view w) h root entries).
Proof.
  intros (es & He & Hl & Hlen & _ & _ & _ & Hnil).
  destruct (decide (items (b_leaf b) = [])) as [Hi|Hi].
  - rewrite Hi, app_nil_r in He. subst es. destruct (decide (entries = [])) as [->|Hne].
    { eapply safe_weaken; [exact _|apply safe_finish_empty; auto|].
      cbv beta. intros root w _ Hd. by exists 0%nat. }
    unfold finish. rewrite Hi. cbn [length Nat.eqb negb orb].
    destruct (forallb levelEmpty (b_levels b)) eqn:Hall.
    { apply levels_all_empty in Hl; [done|]. by rewrite Hall. }
    eapply safe_bind with (Q := fun b' _ => b' = b); [exact _|apply safe_ret; [exact _|done]|].
    cbv beta. intros ? w1 Hw1 ->. apply safe_closing. by eapply levels_mono.
  - unfold finish. assert ((length (items (b_leaf b)) =? 0)%nat = false) as -> by by destruct (items (b_leaf b)).
    cbn [negb orb]. eapply safe_bind; [exact _|apply (safe_flushLeaf _ _ entries es); [done..|lia|done]|].
    cbv beta. intros b' w1 Hw1 (_ & Hl' & _). by apply safe_closing.
Qed.

Lemma safe_build w0 source :
  context_ok context -> Forall tame source -> captureContext (context_value context) = Ok context ->
  safe grows w0 (buildArchiveIndex (context_value context) source)
    (fun root w => exists entries h, mapR captureEntry source = Ok entries /\ keys_ordered entries /\
                                     denotes context (view w) h root entries).
Proof.
  intros Hc Ht Hcap. unfold buildArchiveIndex. rewrite Hcap.
  eapply safe_bind; [exact _|apply safe_lift, _|]. cbv beta. intros c w1 Hw1 [= <-].
  eapply safe_bind; [exact _|apply (safe_feedAll _ _ []); [done..|]|].
  { exists []. split_and!; try done; [cbn; lia|constructor]. }
  cbv beta. intros b w2 Hw2 (es & Hes & Hb). cbn in Hb.
  assert (keys_ordered es) as Hord by by destruct Hb as (? & ? & ? & ? & ? & ? & _).
  eapply safe_weaken; [exact _|by apply safe_finish|]. cbv beta. intros root w3 Hw3 [h Hh]. eauto.
Qed.
End Partial.

(** An immutable store in memory. *)
Module Memory.
#[global] Instance memoryStore : ArchiveObjectStore (gmap (list N) (list N)) := {|
  store_read id _ _ := fun w => (Ok (w !! id), w);
  store_write id bytes := fun w =>
    match w !! id with
    | None => (Ok tt, <[id := bytes]> w)
    | Some existing => (if bool_decide (existing = bytes) then Ok tt else Throw "conflict", w)
    end |}.

#[global] Instance memoryImmutable : ImmutableStore (gmap (list N) (list N)).
Proof.
  refine {| view := fun w => w |}; cbn; [done|..].
  - intros id bytes w. destruct (w !! id) eqn:Hw; cbn; [done|]. by apply insert_subseteq.
  - intros id bytes w. destruct (w !! id) eqn:Hw; cbn.
    + case_bool_decide; [by subst|done].
    + intros _. by rewrite lookup_insert_eq.
Defined.

Definition context : ArchiveTreeContext := mkContext (js "ws-1") 1 (js "events").
Definition entry (n : N) : ArchiveIndexEntry := mkIndexEntry (js "k" ++ [n + 48]%N) (sha256Base64Url (H := checksumSha256) [n]).
Definition source : list value := map (fun n => entry_value (entry n)) [0; 1; 2]%N.

Lemma context_valid : context_ok context.
Proof. split; [by apply text_good; [repeat constructor|vm_compute]|by apply text_good; [repeat constructor|vm_compute]|vm_compute; done]. Qed.

Lemma source_tame : Forall tame source.
Proof.
  assert (forallb tame source = true) as Hs by (vm_compute; reflexivity). rewrite forallb_forall in Hs.
  apply Forall_forall. intros v Hv%list_elem_of_In. by apply Is_true_true, Hs.
Qed.

Lemma source_builds :
  isOk (buildArchiveIndex (H := checksumSha256) (context_value context) source ∅).1 = true.
Proof. vm_compute. reflexivity. Qed.
End Memory.

Lemma build_denotes `{Sha256} {W} `{ImmutableStore W} context (w w' : W) source root :
  context_ok context -> Forall tame source ->
  buildArchiveIndex (context_value context) source w = (Ok root, w') ->
  exists entries h, mapR captureEntry source = Ok entries /\ keys_ordered entries /\
    denotes context (view w') h root entries.
Proof.
  intros Hc Ht Hb. destruct (safe_build context w source Hc Ht (captureContext_value _ Hc) w) as [_ Hok];
    [unfold grows; reflexivity|]. rewrite Hb in Hok. by apply Hok.
Qed.
