(* ===== verification/ArchiveTotal.v ===== *)
(** * History archive: builds do not fail by themselves

    For a valid context and valid, strictly ordered entries (at most
    [Number.MAX_SAFE_INTEGER] of them), [buildArchiveIndex] fails only if a
    write of the store throws: every page it makes is within the byte limit,
    and the tree stays within the depth limit.  The depth argument weighs a
    root of height [h] with [8 ^ h]: a full bucket holds at least eight roots,
    so pushing it up does not increase the weight, which is therefore at most
    the number of entries; the closing loop adds less than [8 ^ (level + 1)]. *)
From stdpp Require Import base numbers list gmap strings sorting.
From Stdlib Require Import ZArith NArith Lia.
From S2P Require Import Prelude Unicode Json Base64 Digest Archive ArchiveSize ArchiveBuild.
Local Open Scope Z_scope.

Section Total.
Context `{Sha256} {W : Type} `{ArchiveObjectStore W}.
Variable context : ArchiveTreeContext.
Hypothesis context_valid : context_ok context.

(** Errors that a write of the store throws. *)
Definition storeFails (e : string) : Prop :=
  exists id bytes (w : W), (store_write id bytes w).1 = Throw e.

Definition levelItems (bucket : option (Bucket ArchiveIndexRoot)) : list ArchiveIndexRoot :=
  match bucket with Some b => items b | None => [] end.

Record bucket_ok (level : nat) (b : Bucket ArchiveIndexRoot) : Prop := {
  bucket_roots : Forall root_ok (items b);
  bucket_heights : Forall (fun r => root_height r = Z.of_nat level) (items b);
  bucket_size : bucket_bytes b = bucket_bytes (emptyLevel context level) + itemsSize (map rootText (items b));
  bucket_bound : bucket_bytes b <= MAX_ARCHIVE_PAGE_BYTES;
  bucket_room : (length (items b) < 64)%nat }.

Fixpoint levels_ok (level : nat) (levels : list (option (Bucket ArchiveIndexRoot))) : Prop :=
  match levels with
  | [] => True
  | b :: rest => match b with Some b => bucket_ok level b | None => True end /\ levels_ok (S level) rest
  end.

Fixpoint weight (level : nat) (levels : list (option (Bucket ArchiveIndexRoot))) : Z :=
  match levels with
  | [] => 0
  | b :: rest => Z.of_nat (length (levelItems b)) * 8 ^ Z.of_nat level + weight (S level) rest
  end.

Definition counts (roots : list ArchiveIndexRoot) : Z := sumZ (map root_count roots).

Fixpoint total (levels : list (option (Bucket ArchiveIndexRoot))) : Z :=
  match levels with [] => 0 | b :: rest => counts (levelItems b) + total rest end.

Lemma eight_pos n : 0 < 8 ^ Z.of_nat n.
Proof. apply Z.pow_pos_nonneg; lia. Qed.

Lemma eight_succ n : 8 ^ Z.of_nat (S n) = 8 * 8 ^ Z.of_nat n.
Proof. rewrite Nat2Z.inj_succ, Z.pow_succ_r by lia. done. Qed.

Lemma eight_small n k : 8 ^ Z.of_nat n < 8 ^ Z.of_nat k -> (n < k)%nat.
Proof. intros Hlt. apply Z.pow_lt_mono_r_iff in Hlt; lia. Qed.

Lemma weight_nonneg level levels : 0 <= weight level levels.
Proof.
  revert level. induction levels as [|b rest IH]; intros level; cbn; [lia|].
  specialize (IH (S level)). pose proof (eight_pos level). nia.
Qed.

Lemma counts_ok roots : Forall root_ok roots -> Z.of_nat (length roots) <= counts roots.
Proof.
  unfold counts. induction 1 as [|r roots Hr _ IH]; cbn; [lia|]. destruct Hr as [_ _ Hc _ _]. lia.
Qed.

Lemma total_nonneg level levels : levels_ok level levels -> 0 <= total levels.
Proof.
  revert level. induction levels as [|b rest IH]; intros level; cbn; [lia|]. intros [Hb Hr].
  apply IH in Hr. apply Z.add_nonneg_nonneg; [|done].
  destruct b as [b|]; [|done]. destruct Hb as [Hb _ _ _ _]. apply counts_ok in Hb. cbn [levelItems]. lia.
Qed.

Lemma emptyLevel_ok level : (level < 40)%nat -> bucket_ok level (emptyLevel context level).
Proof.
  intros Hl. pose proof (emptyLevel_bound context level context_valid Hl).
  split; cbn [items emptyLevel map length]; [constructor|constructor| |unfold MAX_ARCHIVE_PAGE_BYTES; lia|lia].
  change (itemsSize []) with 0. lia.
Qed.

(** Roots of persisted pages are valid. *)
Lemma runs_persist page w (Q : ArchiveIndexRoot -> W -> Prop) root :
  page_height page < MAX_ARCHIVE_DEPTH -> byteLength (canonicalBytes (page_value page)) <= MAX_ARCHIVE_PAGE_BYTES ->
  pageRoot page (sha256Base64Url (canonicalBytes (page_value page))) = Ok root ->
  (forall w', Q root w') -> runs storeFails (persist page) w Q.
Proof.
  intros Hh Hb Hr HQ. unfold persist.
  apply runs_bind, runs_require; [by rewrite negb_true_iff, Z.leb_gt|].
  apply runs_bind, runs_require; [by rewrite negb_true_iff, Z.ltb_ge|].
  apply runs_bind. unfold runs at 1.
  destruct (store_write _ _ w) as [[[]|e] w'] eqn:Hw; [by eapply runs_lift|].
  eexists _, _, w. by rewrite Hw.
Qed.

Lemma branch_root_ok level children root :
  children <> [] -> Forall root_ok children -> counts children <= MAX_SAFE_INTEGER -> (level < 31)%nat ->
  root = mkRoot (sha256Base64Url (canonicalBytes (page_value (BranchPage context (Z.of_nat level + 1) children))))
           (Z.of_nat level + 1) (counts children) (head children ≫= root_first) (last children ≫= root_last) ->
  root_ok root.
Proof.
  intros Hne Hok Hc Hl ->. pose proof (counts_ok children Hok) as Hlen.
  assert (1 <= length children)%nat as Hone by (destruct children; [done|cbn; lia]).
  assert (forall r, r ∈ children -> root_ok r) as Hin by by rewrite <- Forall_forall.
  split; cbn [root_objectId root_height root_count root_first root_last];
    [apply sha256Base64Url_pattern|lia|lia|..].
  - destruct children as [|c children]; [done|]. cbn. apply (ok_first c), Hin. set_solver.
  - destruct (last children) as [c|] eqn:Hlast; [|by apply last_None in Hlast].
    cbn. apply (ok_last c), Hin. by apply last_Some_elem_of.
Qed.

Lemma runs_persist_branch level children w (Q : ArchiveIndexRoot -> W -> Prop) :
  children <> [] -> Forall root_ok children -> counts children <= MAX_SAFE_INTEGER -> (level < 31)%nat ->
  bucket_bytes (emptyLevel context level) + itemsSize (map rootText children) <= MAX_ARCHIVE_PAGE_BYTES ->
  (forall root w', root_ok root -> root_height root = Z.of_nat (S level) ->
    root_count root = counts children -> Q root w') ->
  runs storeFails (persist (BranchPage context (Z.of_nat level + 1) children)) w Q.
Proof.
  intros Hne Hok Hc Hl Hsize HQ. eapply runs_persist.
  - cbn. unfold MAX_ARCHIVE_DEPTH. lia.
  - by rewrite branch_size.
  - cbn [pageRoot]. fold (counts children). rewrite (Is_true_true_1 (isSafeInteger (counts children))); [done|].
    pose proof (counts_ok children Hok). apply isSafe_bounds. unfold MAX_SAFE_INTEGER in *. lia.
  - intros w'. apply HQ; [|cbn; lia|done]. by eapply branch_root_ok.
Qed.

(** [root] goes in at [level] without failing, at no more than its weight. *)
Definition pushes (fuel : nat) : Prop := forall level root upper (w : W) Q,
  (33 <= fuel + level)%nat -> levels_ok level upper -> root_ok root -> root_height root = Z.of_nat level ->
  weight level upper + 8 ^ Z.of_nat level < 8 ^ 19 -> total upper + root_count root <= MAX_SAFE_INTEGER ->
  (forall upper' w', levels_ok level upper' -> weight level upper' <= weight level upper + 8 ^ Z.of_nat level ->
    total upper' = total upper + root_count root -> Q upper' w') ->
  runs storeFails (push context fuel level root upper) w Q.

Lemma runs_flush fuel level (children : list ArchiveIndexRoot) above (w : W) Q :
  pushes fuel -> (33 <= fuel + S level)%nat -> children <> [] -> Forall root_ok children ->
  bucket_bytes (emptyLevel context level) + itemsSize (map rootText children) <= MAX_ARCHIVE_PAGE_BYTES ->
  levels_ok (S level) above -> weight (S level) above + 8 ^ Z.of_nat (S level) < 8 ^ 19 ->
  counts children + total above <= MAX_SAFE_INTEGER ->
  (forall above' w', levels_ok (S level) above' ->
    weight (S level) above' <= weight (S level) above + 8 ^ Z.of_nat (S level) ->
    total above' = total above + counts children -> Q above' w') ->
  runs storeFails (root' ← persist (BranchPage context (Z.of_nat level + 1) children);
                   push context fuel (S level) root' above) w Q.
Proof.
  intros Hpush Hfuel Hne Hok Hsize Hab Hw Htot HQ. apply runs_bind.
  pose proof (total_nonneg _ _ Hab). pose proof (weight_nonneg (S level) above).
  assert (S level < 19)%nat by (apply eight_small; change (8 ^ Z.of_nat 19) with (8 ^ 19); lia).
  apply runs_persist_branch; [done|done|lia|lia|done|].
  intros root w' Hr Hh Hc. apply Hpush; [done|done|done|done|done|lia|]. rewrite Hc. exact (fun u w => HQ u w).
Qed.

Lemma fits_item level b root :
  (level < 40)%nat -> bucket_ok level b -> root_ok root -> fits root_value b root = false -> (8 <= length (items b))%nat.
Proof.
  intros Hl [Hr Hh Hs Hb Hn] Hroot Hf. pose proof (emptyLevel_bound context level context_valid Hl) as Hbase.
  assert (sumZ (map ulen (map rootText (items b))) <= 7000 * Z.of_nat (length (items b))) as Hsum.
  { clear - Hr. induction Hr as [|r l Hr _ IH]; [done|]. cbn [map sumZ length].
    pose proof (ulen_rootText r Hr). lia. }
  unfold fits in Hf. rewrite andb_false_iff, Z.ltb_ge, Z.leb_gt in Hf. unfold MAX_ARCHIVE_CHILDREN, MAX_ARCHIVE_PAGE_BYTES in Hf.
  rewrite canonicalBytes_ulen in Hf by by apply plain_root.
  pose proof (ulen_rootText root Hroot) as Hu. unfold rootText in Hu. rewrite Hs in Hf.
  unfold itemsSize in Hf. rewrite length_map in Hf. unfold separator in Hf.
  destruct Hf as [Hf|Hf]; [lia|]. destruct (_ =? 0)%nat; lia.
Qed.

Lemma append_ok level b root :
  (level < 40)%nat -> bucket_ok level b -> root_ok root -> root_height root = Z.of_nat level ->
  items b = [] \/ fits root_value b root = true ->
  let b' := append root_value b root in
  Forall root_ok (items b') /\ Forall (fun r => root_height r = Z.of_nat level) (items b') /\ bucket_bytes b' <= MAX_ARCHIVE_PAGE_BYTES /\
  bucket_bytes b' = bucket_bytes (emptyLevel context level) + itemsSize (map rootText (items b')).
Proof.
  intros Hl [Hr Hh Hs Hb Hn] Hroot Hheight Hf. cbn [append items bucket_bytes].
  pose proof (ulen_rootText root Hroot) as Hu. pose proof (emptyLevel_bound context level context_valid Hl) as Hbase.
  rewrite map_app. cbn [map]. rewrite itemsSize_snoc, length_map, Hs.
  rewrite canonicalBytes_ulen by by apply plain_root. fold (rootText root). unfold separator.
  split_and!; [by apply Forall_app; split; [|constructor]|by apply Forall_app; split; [|constructor]| |lia].
  destruct Hf as [Hf|Hf].
  - rewrite Hf. cbn [map length Nat.eqb]. change (itemsSize []) with 0. unfold MAX_ARCHIVE_PAGE_BYTES. lia.
  - unfold fits in Hf. apply andb_true_iff in Hf as [_ Hf]. apply Z.leb_le in Hf.
    rewrite Hs, canonicalBytes_ulen in Hf by by apply plain_root. fold (rootText root) in Hf. unfold separator in Hf. lia.
Qed.

Lemma levels_uncons level upper :
  levels_ok level upper -> (level < 40)%nat ->
  let b := default (emptyLevel context level) (mjoin (head upper)) in
  bucket_ok level b /\ levels_ok (S level) (tail upper) /\ total upper = counts (items b) + total (tail upper) /\
  weight level upper = Z.of_nat (length (items b)) * 8 ^ Z.of_nat level + weight (S level) (tail upper).
Proof.
  intros Hu Hl. destruct upper as [|[b|] upper]; cbn [head mjoin option_join default tail levels_ok weight total levelItems] in *.
  - split_and!; [by apply emptyLevel_ok|done|done|done].
  - by destruct Hu.
  - destruct Hu. split_and!; [by apply emptyLevel_ok|done|done|done].
Qed.

(** The second half of [push]: the root goes into a bucket with room for it. *)
Lemma runs_append fuel level b root above (w : W) (Q : list (option (Bucket ArchiveIndexRoot)) -> W -> Prop) :
  pushes fuel -> (33 <= S fuel + level)%nat -> (level < 19)%nat ->
  bucket_ok level b -> root_ok root -> root_height root = Z.of_nat level ->
  items b = [] \/ fits root_value b root = true ->
  levels_ok (S level) above ->
  Z.of_nat (length (items b)) * 8 ^ Z.of_nat level + weight (S level) above + 8 ^ Z.of_nat level < 8 ^ 19 ->
  counts (items b) + total above + root_count root <= MAX_SAFE_INTEGER ->
  (forall upper' w', levels_ok level upper' ->
    weight level upper' <= Z.of_nat (length (items b)) * 8 ^ Z.of_nat level + weight (S level) above + 8 ^ Z.of_nat level ->
    total upper' = counts (items b) + total above + root_count root -> Q upper' w') ->
  runs storeFails
    (let bucket := append root_value b root in
     if Z.of_nat (length (items bucket)) =? MAX_ARCHIVE_CHILDREN
     then above' ← (root' ← persist (BranchPage context (Z.of_nat level + 1) (items bucket));
                    push context fuel (S level) root' above); mret (None :: above')
     else mret (Some bucket :: above)) w Q.
Proof.
  intros Hpush Hfuel Hl Hb Hroot Hheight Hfit Hab Hw Htot HQ.
  destruct (append_ok level b root ltac:(lia) Hb Hroot Hheight Hfit) as (Hr & Hhs & Hmax & Hsize).
  assert (counts (items (append root_value b root)) = counts (items b) + root_count root) as Hc.
  { unfold counts. cbn [append items]. rewrite map_app, sumZ_app. cbn. lia. }
  assert (length (items (append root_value b root)) = S (length (items b))) as Hlen.
  { cbn [append items]. rewrite length_app. cbn. lia. }
  pose proof (bucket_room _ _ Hb). pose proof (eight_pos level). cbv zeta. unfold MAX_ARCHIVE_CHILDREN.
  destruct (Z.eqb_spec (Z.of_nat (length (items (append root_value b root)))) 64) as [Heq|Hneq].
  - apply runs_bind. rewrite Hlen in Heq. apply runs_flush; [done|lia| |done|lia|done| |lia|].
    + intros Hnil. by rewrite Hnil in Hlen.
    + rewrite eight_succ. nia.
    + intros above' w' Hok' Hw' Ht'. apply runs_ret, HQ; [done| |cbn [total levelItems]; unfold counts at 1; cbn; lia].
      cbn [weight levelItems length]. rewrite eight_succ in Hw'. nia.
  - apply runs_ret, HQ.
    + split; [|done]. split; [done|done|done|done|]. lia.
    + cbn [weight levelItems]. rewrite Hlen. nia.
    + cbn [total levelItems]. lia.
Qed.

Lemma runs_push fuel : pushes fuel.
Proof.
  induction fuel as [|fuel IH]; intros level root upper w Q Hfuel Hu Hroot Hheight Hw Htot HQ;
    pose proof (weight_nonneg level upper);
    assert (level < 19)%nat as Hl by (apply eight_small; change (8 ^ Z.of_nat 19) with (8 ^ 19); lia); [lia|].
  destruct (levels_uncons level upper Hu ltac:(lia)) as (Hb & Hab & Ht & Hwt).
  cbn [push]. unfold MAX_ARCHIVE_DEPTH. rewrite (proj2 (Z.leb_gt _ _)) by lia.
  set (b := default (emptyLevel context level) (mjoin (head upper))) in *.
  pose proof (eight_pos level). apply runs_bind.
  destruct (negb (length (items b) =? 0)%nat && negb (fits root_value b root)) eqn:Hc.
  - apply andb_true_iff in Hc as [Hne Hf]. apply negb_true_iff in Hf. apply negb_true_iff, Nat.eqb_neq in Hne.
    pose proof (fits_item level b root ltac:(lia) Hb Hroot Hf).
    apply runs_bind. destruct Hb as [Hr Hhs Hs Hmax Hroom]. pose proof (ok_count _ Hroot) as Hcount.
    apply runs_flush; [done|lia|by intros Hnil; rewrite Hnil in Hne|done|lia|done| |lia|].
    { rewrite eight_succ. nia. }
    intros above' w' Hab' Hw' Ht'. apply runs_ret. rewrite eight_succ in Hw'.
    change (counts (items (emptyLevel context level))) with 0.
    apply runs_append; [done|done|done|apply emptyLevel_ok; lia|done|done|by left|done| | |];
      cbn [emptyLevel items length]; change (counts []) with 0; [nia|lia|].
    intros upper' w'' Hu' Hwu Htu. apply HQ; [done|nia|lia].
  - apply runs_ret. apply runs_append; [done|done|done|done|done|done| |done|lia|lia|].
    + apply andb_false_iff in Hc as [Hc|Hc]; apply negb_false_iff in Hc; [left|by right].
      apply Nat.eqb_eq in Hc. by apply nil_length_inv.
    + intros upper' w'' Hu' Hwu Htu. apply HQ; [done|lia|lia].
Qed.

(** *** Feeding entries *)
Record leaf_ok (b : Bucket ArchiveIndexEntry) : Prop := {
  leaf_entries : Forall entry_ok (items b);
  leaf_bytes : bucket_bytes b = leafBase context + itemsSize (map entryText (items b));
  leaf_bound : bucket_bytes b <= MAX_ARCHIVE_PAGE_BYTES }.

(** [n] entries were consumed. *)
Record builder_ok (n : Z) (b : Builder) : Prop := {
  builder_leaf : leaf_ok (b_leaf b);
  builder_room : (length (items (b_leaf b)) < 64)%nat;
  builder_levels : levels_ok 0 (b_levels b);
  builder_weight : weight 0 (b_levels b) <= total (b_levels b);
  builder_count : total (b_levels b) + Z.of_nat (length (items (b_leaf b))) = n }.

Lemma startLeaf_ok : leaf_ok (mkBucket [] (leafBase context)).
Proof.
  pose proof (leafBase_bound context context_valid).
  split; cbn [items bucket_bytes map]; [constructor|change (itemsSize []) with 0; lia|unfold MAX_ARCHIVE_PAGE_BYTES; lia].
Qed.

Lemma leaf_root_ok entries (id : list N) :
  entries <> [] -> Forall entry_ok entries -> (length entries <= 64)%nat -> digestPattern id ->
  root_ok (mkRoot id 0 (Z.of_nat (length entries)) (ent_key <$> head entries) (ent_key <$> last entries)).
Proof.
  intros Hne He Hlen Hid. rewrite Forall_forall in He.
  assert (1 <= length entries)%nat by (destruct entries; [done|cbn; lia]).
  split; cbn [root_objectId root_height root_count root_first root_last];
    [done|lia|unfold MAX_SAFE_INTEGER; lia|..].
  - destruct entries as [|e entries]; [done|]. exists (ent_key e). split; [done|]. apply ok_key, He. set_solver.
  - destruct (last entries) as [e|] eqn:Hl; [|by apply last_None in Hl].
    exists (ent_key e). split; [done|]. by apply ok_key, He, last_Some_elem_of.
Qed.

Lemma runs_flushLeaf n b w Q :
  n <= MAX_SAFE_INTEGER -> leaf_ok (b_leaf b) -> items (b_leaf b) <> [] -> (length (items (b_leaf b)) <= 64)%nat ->
  levels_ok 0 (b_levels b) -> weight 0 (b_levels b) <= total (b_levels b) ->
  total (b_levels b) + Z.of_nat (length (items (b_leaf b))) = n ->
  (forall b' w', builder_ok n b' -> b_leaf b' = mkBucket [] (leafBase context) -> b_previous b' = b_previous b -> Q b' w') ->
  runs storeFails (flushLeaf context b) w Q.
Proof.
  intros Hn [He Hs Hmax] Hne Hlen Hl Hw Hc HQ. unfold flushLeaf.
  assert (1 <= length (items (b_leaf b)))%nat as Hone by (destruct (items (b_leaf b)); [done|cbn; lia]).
  apply runs_bind. eapply runs_persist; [done| |done|].
  { rewrite leaf_size by done. lia. }
  intros w1. apply runs_bind, runs_push; [done|done| |done| | |].
  - apply leaf_root_ok; try done. apply sha256Base64Url_pattern.
  - change (8 ^ Z.of_nat 0) with 1. unfold MAX_SAFE_INTEGER in Hn. lia.
  - cbn [root_count]. lia.
  - intros levels w2 Hl2 Hw2 Ht2. change (8 ^ Z.of_nat 0) with 1 in Hw2. cbn [root_count] in Ht2.
    apply runs_ret, HQ; [|done|done].
    split; cbn [b_leaf b_levels items length]; [apply startLeaf_ok|lia|done|lia|lia].
Qed.

Lemma leaf_append b e :
  leaf_ok b -> entry_ok e -> fits entry_value b e = true -> leaf_ok (append entry_value b e).
Proof.
  intros [He Hs Hmax] Hentry Hf. unfold fits in Hf. apply andb_true_iff in Hf as [_ Hf]. apply Z.leb_le in Hf.
  split; cbn [append items bucket_bytes]; [by apply Forall_app; split; [|constructor]| |lia].
  rewrite map_app. cbn [map]. rewrite itemsSize_snoc, length_map, Hs.
  rewrite canonicalBytes_ulen. fold (entryText e). unfold separator. lia.
Qed.

Lemma runs_feed n b candidate e w Q :
  builder_ok n b -> n + 1 <= MAX_SAFE_INTEGER -> tame candidate -> captureEntry candidate = Ok e ->
  (forall p, b_previous b = Some p -> str_ltb p (ent_key e)) ->
  (forall b' w', builder_ok (n + 1) b' -> b_previous b' = Some (ent_key e) -> Q b' w') ->
  runs storeFails (feed context b candidate) w Q.
Proof.
  intros [Hleaf Hroom Hl Hw Hc] Hn Ht Hcap Hprev HQ. pose proof (captureEntry_ok _ _ Ht Hcap) as He.
  unfold feed. apply runs_bind. eapply runs_lift; [exact Hcap|]. apply runs_bind, runs_require.
  { destruct (b_previous b) as [p|]; [|done]. rewrite <- str_ltb_leb. by apply Is_true_eq_true, Hprev. }
  apply runs_bind. eapply runs_weaken with (Q := fun b' _ => builder_ok n b' /\ fits entry_value (b_leaf b') e = true /\
    b_previous b' = Some (ent_key e)).
  - cbn [b_leaf]. destruct (fits entry_value (b_leaf b) e) eqn:Hf; [by apply runs_ret; split_and!|].
    eapply (runs_flushLeaf n); cbn [b_leaf b_levels]; try done; [lia| |lia|].
    + intros Hnil. rewrite (fits_first context) in Hf; [done|done|done|done|].
      destruct Hleaf as [_ Hs _]. rewrite Hs, Hnil. cbn [map]. change (itemsSize []) with 0. lia.
    + intros b' w' Hb' Hempty Hp. cbn in Hp. split_and!; [done| |done]. rewrite Hempty. by apply (fits_first context).
  - intros b' w' ([Hleaf' Hroom' Hl' Hw' Hc'] & Hf' & Hp').
    assert (length (items (append entry_value (b_leaf b') e)) = S (length (items (b_leaf b')))) as Hlen.
    { cbn [append items]. rewrite length_app. cbn. lia. }
    pose proof (leaf_append _ _ Hleaf' He Hf') as Hap. cbv zeta. cbn [b_leaf].
    unfold MAX_ARCHIVE_CHILDREN.
    destruct (Z.eqb_spec (Z.of_nat (length (items (append entry_value (b_leaf b') e)))) 64) as [H64|H64].
    + apply (runs_flushLeaf (n + 1)); cbn [b_leaf b_levels]; try done; [|lia|lia|].
      * intros Hnil. by rewrite Hnil in Hlen.
      * intros b2 w2 Hb2 _ Hp2. apply HQ; [done|]. by rewrite Hp2.
    + apply runs_ret, HQ; [|done]. split; cbn [b_leaf b_levels]; try done; lia.
Qed.

Lemma runs_feedAll source n b entries w Q :
  builder_ok n b -> n + Z.of_nat (length source) <= MAX_SAFE_INTEGER -> Forall tame source ->
  mapR captureEntry source = Ok entries -> keys_ordered entries ->
  (forall p e, b_previous b = Some p -> head entries = Some e -> str_ltb p (ent_key e)) ->
  (forall b' w', builder_ok (n + Z.of_nat (length source)) b' -> Q b' w') ->
  runs storeFails (feedAll context b source) w Q.
Proof.
  intros Hb Hn Ht. revert n b entries w Hb Hn.
  induction Ht as [|c source Hc Ht IH]; intros n b entries w Hb Hn Hcap Hord Hprev HQ; cbn [feedAll].
  { apply runs_ret, HQ. by rewrite Z.add_0_r. }
  cbn [mapR] in Hcap. apply bind_ok in Hcap as (e & He & Hcap). apply bind_ok in Hcap as (es & Hes & [= <-]).
  cbn [length] in *. inversion Hord as [|? ? Hord' Hall]; subst.
  apply runs_bind. eapply runs_feed; [done|lia|done|done|by intros p Hp; apply Hprev|].
  intros b' w' Hb' Hp'. eapply (IH (n + 1)); [done|lia|done|done| |].
  - rewrite Hp'. intros p e' [= <-] Hhead. destruct es; [done|]. injection Hhead as ->. by inversion Hall.
  - intros b2 w2 Hb2. apply HQ. by replace (n + Z.of_nat (S (length source))) with (n + 1 + Z.of_nat (length source)) by lia.
Qed.

(** *** The closing loop *)
Lemma levelEmpty_nil c : levelEmpty c -> levelItems c = [].
Proof. destruct c as [c|]; [|done]. unfold levelEmpty. cbn [levelItems]. by destruct (items c). Qed.

Lemma total_empty levels : forallb levelEmpty levels = true -> total levels = 0.
Proof.
  induction levels as [|c levels IH]; [done|]. cbn [forallb total]. intros [Hc Hl]%andb_true_iff.
  rewrite IH, levelEmpty_nil by (done || by rewrite Hc). done.
Qed.

Lemma levels_at level levels k b :
  levels_ok level levels -> levels !! k = Some (Some b) -> Forall levelEmpty (take k levels) ->
  bucket_ok (level + k) b /\ levels_ok (S (level + k)) (drop (S k) levels) /\
  total levels = counts (items b) + total (drop (S k) levels) /\
  weight level levels = Z.of_nat (length (items b)) * 8 ^ Z.of_nat (level + k) + weight (S (level + k)) (drop (S k) levels).
Proof.
  revert level k. induction levels as [|c levels IH]; intros level k Hl Hk He; [done|]. destruct Hl as [Hc Hl].
  destruct k as [|k].
  - injection Hk as ->. by rewrite Nat.add_0_r.
  - cbn [take] in He. apply Forall_cons in He as [Hce He].
    destruct (IH (S level) k Hl Hk He) as (H1 & H2 & H3 & H4).
    replace (level + S k)%nat with (S level + k)%nat by lia. cbn [drop total weight].
    pose proof (levelEmpty_nil c Hce) as Hnil.
    rewrite Hnil. change (counts []) with 0. cbn [length]. split_and!; [done|done|lia|lia].
Qed.

Lemma levels_put level levels k upper :
  levels_ok level levels -> (k < length levels)%nat -> Forall levelEmpty (take k levels) ->
  levels_ok (S (level + k)) upper ->
  levels_ok level (take k levels ++ None :: upper) /\ total (take k levels ++ None :: upper) = total upper /\
  weight level (take k levels ++ None :: upper) = weight (S (level + k)) upper.
Proof.
  revert level k. induction levels as [|c levels IH]; intros level k Hl Hk He Hu; [cbn in Hk; lia|].
  destruct Hl as [Hc Hl]. destruct k as [|k].
  - rewrite Nat.add_0_r in *. by cbn [take app levels_ok total weight levelItems length].
  - cbn [take length] in *. apply Forall_cons in He as [Hce He].
    replace (level + S k)%nat with (S level + k)%nat in * by lia.
    destruct (IH (S level) k Hl ltac:(lia) He Hu) as (H1 & H2 & H3).
    pose proof (levelEmpty_nil c Hce) as Hnil.
    cbn [app levels_ok total weight]. rewrite Hnil, H2, H3. change (counts []) with 0. cbn [length].
    split_and!; [done|done|lia|lia].
Qed.

Lemma weight_nonempty level levels :
  forallb levelEmpty levels = false -> 8 ^ Z.of_nat level <= weight level levels.
Proof.
  revert level. induction levels as [|c levels IH]; intros level He; [done|]. cbn [forallb weight] in *.
  pose proof (weight_nonneg (S level) levels). pose proof (eight_pos level).
  destruct (levelEmpty c) eqn:Hc.
  - apply (IH (S level)) in He. rewrite eight_succ in He. nia.
  - destruct c as [c|]; [|done]. cbn [levelEmpty levelItems] in *. apply Nat.eqb_neq in Hc. nia.
Qed.

Lemma findLevel_some level levels : levels_ok level levels -> 1 <= total levels -> exists k, findLevel levels = Some k.
Proof.
  revert level. induction levels as [|c levels IH]; intros level Hl Ht; [cbn in Ht; lia|].
  destruct Hl as [Hc Hl]. cbn [findLevel total] in *. destruct (levelEmpty c) eqn:He; [|by eexists].
  pose proof (levelEmpty_nil c ltac:(by rewrite He)) as Hnil.
  rewrite Hnil in Ht. change (counts []) with 0 in Ht.
  destruct (IH (S level) Hl ltac:(lia)) as [k ->]. by exists (S k).
Qed.

Lemma runs_flushLevel level levels b N w Q :
  levels_ok 0 levels -> levels !! level = Some (Some b) -> items b <> [] -> Forall levelEmpty (take level levels) ->
  1 <= N <= MAX_SAFE_INTEGER -> total levels <= MAX_SAFE_INTEGER ->
  weight 0 levels <= N + 8 ^ Z.of_nat level - 1 -> 8 ^ Z.of_nat level <= N ->
  (forall levels' w', levels_ok 0 levels' -> total levels' = total levels ->
    Forall levelEmpty (take (S level) levels') ->
    weight 0 levels' <= N + 8 ^ Z.of_nat (S level) - 1 -> Q levels' w') ->
  runs storeFails (flushLevel context level levels) w Q.
Proof.
  intros Hl Hb Hne He HN Ht Hw H4 HQ. unfold flushLevel. rewrite Hb. cbn [mjoin option_join].
  destruct (levels_at 0 levels level b Hl Hb He) as ([Hr _ Hs Hmax _] & Hab & Htot & Hwt). rewrite Nat.add_0_l in *.
  assert (1 <= length (items b))%nat as Hone by (destruct (items b); [done|cbn; lia]).
  pose proof (eight_pos level). pose proof (total_nonneg _ _ Hab). pose proof (weight_nonneg (S level) (drop (S level) levels)).
  assert (level < 18)%nat as Hlev.
  { apply eight_small. change (8 ^ Z.of_nat 18) with (8 ^ 18). unfold MAX_SAFE_INTEGER in HN. lia. }
  apply runs_bind, runs_persist_branch; [done|done|lia|lia|lia|].
  intros root w1 Hroot Hheight Hcount. apply runs_bind, runs_push; [unfold depthFuel; lia|done|done|done| |lia|].
  { rewrite eight_succ. unfold MAX_SAFE_INTEGER in *. nia. }
  intros upper w2 Hu Hwu Htu. apply runs_ret.
  pose proof (lookup_lt_Some _ _ _ Hb) as Hlt.
  destruct (levels_put 0 levels level upper Hl Hlt He Hu) as (Hok & Htp & Hwp). rewrite Nat.add_0_l in Hwp.
  apply HQ; [done|lia| |].
  - rewrite firstn_app, length_take, Nat.min_l, firstn_all2 by (rewrite ?length_take; lia).
    replace (S level - level)%nat with 1%nat by lia. apply Forall_app. split; [done|]. by repeat constructor.
  - rewrite Hwp. rewrite eight_succ in *. nia.
Qed.

Lemma runs_closing fuel L N levels w :
  (33 <= fuel + L)%nat -> levels_ok 0 levels -> Forall levelEmpty (take L levels) ->
  1 <= N <= MAX_SAFE_INTEGER -> 1 <= total levels <= MAX_SAFE_INTEGER ->
  weight 0 levels <= N + 8 ^ Z.of_nat L - 1 -> 8 ^ Z.of_nat L <= 8 * N ->
  runs storeFails (closing context fuel levels) w (fun root _ => root_count root = total levels /\ 0 <= root_height root <= 18).
Proof.
  revert L levels w. induction fuel as [|fuel IH]; intros L levels w Hfuel Hl HL HN Ht Hw H4.
  { assert (L < 19)%nat; [|lia]. apply eight_small. change (8 ^ Z.of_nat 19) with (8 ^ 19).
    unfold MAX_SAFE_INTEGER in HN. lia. }
  cbn [closing]. destruct (findLevel_some 0 levels Hl ltac:(lia)) as [level Hf]. rewrite Hf.
  destruct (findLevel_spec _ _ Hf) as (He & b & Hb & Hne). rewrite Hb. cbn [mjoin option_join].
  assert (L <= level)%nat as HLl.
  { destruct (decide (L <= level)%nat); [done|]. exfalso. rewrite Forall_forall in HL.
    assert (Some b ∈ take L levels) as Hin.
    { apply list_elem_of_lookup. exists level. rewrite lookup_take. by rewrite decide_True by lia. }
    apply HL in Hin. unfold levelEmpty in Hin. by destruct (items b). }
  destruct (levels_at 0 levels level b Hl Hb He) as (Hbk & _ & Htot & Hwt). rewrite Nat.add_0_l in *.
  assert (8 ^ Z.of_nat L <= 8 ^ Z.of_nat level) as Hmono by (apply Z.pow_le_mono_r; lia).
  pose proof (weight_nonneg (S level) (drop (S level) levels)) as Hnn. pose proof (eight_pos level) as Hpos.
  assert (8 ^ Z.of_nat level <= N -> runs storeFails
    (levels' ← flushLevel context level levels; closing context fuel levels') w
    (fun root _ => root_count root = total levels /\ 0 <= root_height root <= 18)) as Hgo.
  { intros HlN. apply runs_bind. eapply (runs_flushLevel level levels b N); try done; [lia|lia|].
    intros levels' w' Hl' Ht' He' Hw'. rewrite <- Ht'. apply (IH (S level)); try done; [lia|lia|].
    rewrite eight_succ. lia. }
  destruct (items b) as [|root [|]] eqn:Hi; [done| |].
  - destruct (forallb levelEmpty (drop (S level) levels)) eqn:Hall.
    + apply runs_ret. unfold counts in Htot. cbn in Htot.
      rewrite (total_empty _ Hall) in Htot. split; [lia|].
      pose proof (bucket_heights _ _ Hbk) as Hh. rewrite Hi in Hh. apply Forall_cons in Hh as [-> _].
      assert (level < 19)%nat; [|lia]. apply eight_small. change (8 ^ Z.of_nat 19) with (8 ^ 19).
      cbn [length] in Hwt. unfold MAX_SAFE_INTEGER in HN. lia.
    + apply Hgo. apply (weight_nonempty (S level)) in Hall. rewrite eight_succ in Hall. cbn [length] in Hwt. lia.
  - apply Hgo. cbn [length] in Hwt. nia.
Qed.

Lemma runs_finish n b w :
  builder_ok n b -> 1 <= n <= MAX_SAFE_INTEGER ->
  runs storeFails (finish context b) w (fun root _ => root_count root = n /\ 0 <= root_height root <= 18).
Proof.
  intros [Hleaf Hroom Hl Hw Hc] Hn. unfold finish. apply runs_bind.
  apply runs_weaken with (Q := fun b' _ => levels_ok 0 (b_levels b') /\ weight 0 (b_levels b') <= total (b_levels b') /\
    total (b_levels b') = n).
  - destruct (decide (items (b_leaf b) = [])) as [Hi|Hi].
    + rewrite Hi in Hc |- *. cbn [length Nat.eqb negb orb] in *.
      destruct (forallb levelEmpty (b_levels b)) eqn:Hall; [rewrite total_empty in Hc by done; lia|].
      apply runs_ret. split_and!; [done|done|lia].
    + assert ((length (items (b_leaf b)) =? 0)%nat = false) as -> by by destruct (items (b_leaf b)).
      cbn [negb orb]. apply (runs_flushLeaf n); try done; [lia|lia|].
      intros b' w' [_ _ Hl' Hw' Hc'] Hempty _. rewrite Hempty in Hc'. cbn in Hc'. split_and!; [done|done|lia].
  - intros b' w' (Hl' & Hw' & Ht'). rewrite <- Ht'.
    apply (runs_closing _ 0 n); [done|done|constructor|done|lia|change (8 ^ Z.of_nat 0) with 1; lia|].
    change (8 ^ Z.of_nat 0) with 1. lia.
Qed.

Lemma runs_finish_empty b w :
  items (b_leaf b) = [] -> b_levels b = [] ->
  runs storeFails (finish context b) w (fun root _ => root_count root = 0 /\ 0 <= root_height root <= 18).
Proof.
  intros Hi Hl. unfold finish. rewrite Hi, Hl. cbn [length Nat.eqb negb orb forallb].
  apply runs_bind. unfold flushLeaf. apply runs_bind. rewrite Hi, Hl.
  eapply runs_persist; [done| |done|].
  { pose proof (leafBase_bound context context_valid). change (leafBase context <= 65536). lia. }
  intros w1. unfold runs at 1, mbind, M_bind. rewrite push_first. cbn [mret M_ret]. unfold runs. cbn [b_levels].
  by rewrite closing_first.
Qed.

Lemma runs_build source entries (w : W) :
  Forall tame source -> mapR captureEntry source = Ok entries -> keys_ordered entries ->
  Z.of_nat (length source) <= MAX_SAFE_INTEGER ->
  runs storeFails (buildArchiveIndex (context_value context) source) w
    (fun root _ => root_count root = Z.of_nat (length source) /\ 0 <= root_height root <= 18).
Proof.
  intros Ht Hcap Hord Hn.
  unfold buildArchiveIndex. apply runs_bind. eapply runs_lift; [by apply captureContext_value|]. apply runs_bind.
  destruct source as [|c source]; [by apply runs_ret, runs_finish_empty|].
  eapply (runs_feedAll _ 0); [|lia|done|done|done|done|].
  - split; cbn [startBuilder b_leaf b_levels items length]; [apply startLeaf_ok|lia|done|done|done].
  - intros b w' Hb. apply runs_finish; [done|]. cbn [length] in *. lia.
Qed.

(** C17. A build of a valid context and valid, strictly ordered entries, at
    most [Number.MAX_SAFE_INTEGER] of them, returns a root that counts them
    all and is at most 18 levels high, unless a write of the store throws: the page-size, depth and
    safe-integer limits of the builder are never what stops it. *)
Theorem archive_build_total source entries (w : W) :
  Forall tame source -> mapR captureEntry source = Ok entries -> keys_ordered entries ->
  Z.of_nat (length source) <= MAX_SAFE_INTEGER ->
  match buildArchiveIndex (context_value context) source w with
  | (Ok root, _) => root_count root = Z.of_nat (length source) /\ 0 <= root_height root <= 18
  | (Throw e, _) => storeFails e
  end.
Proof. apply runs_build. Qed.
End Total.

Lemma archive_build_total_witness :
  match buildArchiveIndex (H := checksumSha256) (context_value Memory.context) Memory.source ∅ with
  | (Ok root, _) => root_count root = 3 /\ 0 <= root_height root <= 18
  | (Throw e, _) => storeFails (W := gmap (list N) (list N)) e
  end.
Proof.
  apply (archive_build_total (H := checksumSha256) Memory.context Memory.context_valid Memory.source
    (map Memory.entry [0; 1; 2]%N) ∅).
  - apply Memory.source_tame.
  - vm_compute. reflexivity.
  - repeat constructor.
  - vm_compute. discriminate.
Defined.
