(* ===== verification/ArchiveRead.v ===== *)
(** * History archive: reading back

    [readArchiveIndex] over what [buildArchiveIndex] left in the store: the
    pages load, every check passes, and the result is the selected part of the
    entries, cut at the limit.  The page budget of the traversal is enough,
    because at most one page per level is visited without contributing. *)
From stdpp Require Import base numbers list gmap strings sorting.
From Stdlib Require Import ZArith NArith Lia.
From S2P Require Import Prelude Unicode Json Base64 Digest Archive ArchiveSize ArchiveBuild ArchiveTotal.
Local Open Scope Z_scope.

(** ** Pages parse back *)
Section Pages.
Context `{Sha256}.
Variable context : ArchiveTreeContext.
Hypothesis context_valid : context_ok context.

Definition root_range (r : ArchiveIndexRoot) : Prop :=
  forall f l, root_first r = Some f -> root_last r = Some l -> str_leb f l.

Definition page_ok (page : IndexPage) : Prop :=
  match page with
  | LeafPage c entries =>
      c = context /\ Forall entry_ok entries /\ keys_ordered entries /\ (length entries <= 64)%nat
  | BranchPage c height children =>
      c = context /\ 1 <= height < 32 /\ Forall root_ok children /\ Forall root_range children /\
      children <> [] /\ (length children <= 64)%nat /\ checkChildren height children None [] = Ok tt
  end.

Lemma plain_page page : page_ok page -> plain (page_value page).
Proof.
  destruct page as [c entries|c height children]; cbn [page_ok page_value].
  - intros (-> & He & _). apply plain_obj. cbn [header app map fst].
    split; [|by vm_compute; repeat constructor; set_solver].
    repeat (apply Forall_cons; split); cbn [fst snd]; [by split|by split|by split; [|apply plain_context]|by split| |constructor].
    split; [done|]. apply plain_items, Forall_map. eapply Forall_impl; [exact He|]. apply plain_entry.
  - intros (-> & Hh & He & _). apply plain_obj. cbn [header app map fst].
    split; [|by vm_compute; repeat constructor; set_solver].
    repeat (apply Forall_cons; split); cbn [fst snd]; [by split|by split|by split; [|apply plain_context]| | |constructor].
    + split; [done|]. apply isSafe_bounds. unfold MAX_SAFE_INTEGER. lia.
    + split; [done|]. apply plain_items, Forall_map. eapply Forall_impl; [exact He|]. apply plain_root.
Qed.

Lemma mapR_values {A} (capture : value -> result A) (to_value : A -> value) (ok : A -> Prop) l :
  (forall a, ok a -> capture (normal str_leb (to_value a)) = Ok a) -> Forall ok l ->
  mapR capture (map (normal str_leb) (map to_value l)) = Ok l.
Proof. intros Hc. induction 1 as [|a l Ha _ IH]; [done|]. cbn [map mapR]. by rewrite (Hc a Ha), IH. Qed.

Lemma orderedKeys_ok entries : keys_ordered entries -> orderedKeys entries = true.
Proof.
  unfold keys_ordered. induction 1 as [|e l Hl IH He]; [done|]. destruct l as [|e' l]; [done|].
  change (orderedKeys (e :: e' :: l)) with (str_ltb (ent_key e) (ent_key e') && orderedKeys (e' :: l)).
  rewrite IH, andb_true_r. apply Forall_cons in He as [He _]. by apply Is_true_eq_true.
Qed.

Lemma capture_normal_entry e : entry_ok e -> captureEntry (normal str_leb (entry_value e)) = Ok e.
Proof. exact (captureEntry_value e). Qed.

Lemma capture_normal_root r : root_ok r /\ root_range r -> captureRoot (normal str_leb (root_value r)) = Ok r.
Proof.
  intros [Hr Hrange]. rewrite <- (captureRoot_value r Hr Hrange). by destruct r as [i h c [f|] [l|]].
Qed.

Lemma capture_normal_context c : context_ok c -> captureContext (normal str_leb (context_value c)) = Ok c.
Proof. intros Hc. rewrite <- (captureContext_value c Hc). reflexivity. Qed.

Lemma normal_page page :
  normal str_leb (page_value page) =
  match page with
  | LeafPage c entries => Obj
      [(js "context", normal str_leb (context_value c)); (js "entries", Arr (map (normal str_leb) (map entry_value entries)));
       (js "height", int 0); (js "kind", Str (js "workspace-history-index-page")); (js "version", int 1)]
  | BranchPage c height children => Obj
      [(js "children", Arr (map (normal str_leb) (map root_value children))); (js "context", normal str_leb (context_value c));
       (js "height", int height); (js "kind", Str (js "workspace-history-index-page")); (js "version", int 1)]
  end.
Proof. by destruct page. Qed.

Lemma parse_page page : page_ok page -> parsePage (normal str_leb (page_value page)) context = Ok page.
Proof.
  intros Hok. rewrite normal_page. destruct page as [c entries|c height children]; cbn [page_ok] in Hok.
  - destruct Hok as (-> & He & Hord & Hlen). unfold parsePage.
    change (member (js "context") _) with (normal str_leb (context_value context)).
    change (member (js "entries") _) with (Arr (map (normal str_leb) (map entry_value entries))).
    change (member (js "height") _) with (int 0).
    change (member (js "kind") _) with (Str (js "workspace-history-index-page")).
    change (member (js "version") _) with (int 1). cbn [int]. rewrite bool_decide_eq_true_2 by done. cbn [negb].
    rewrite exact_ok by done. cbn [mbind result_bind]. rewrite capture_normal_context by done. cbn [mbind result_bind].
    rewrite bool_decide_eq_true_2 by done. cbn [negb]. cbn [Z.ltb Z.leb Z.compare orb Z.eqb MAX_ARCHIVE_DEPTH].
    rewrite !length_map. unfold MAX_ARCHIVE_CHILDREN. rewrite (proj2 (Z.ltb_ge _ _)) by lia.
    rewrite (mapR_values _ _ entry_ok); [|apply capture_normal_entry|done]. cbn [mbind result_bind].
    by rewrite orderedKeys_ok.
  - destruct Hok as (-> & Hh & He & Hr & Hne & Hlen & Hcheck). unfold parsePage.
    change (member (js "context") _) with (normal str_leb (context_value context)).
    change (member (js "children") _) with (Arr (map (normal str_leb) (map root_value children))).
    change (member (js "height") _) with (int height).
    change (member (js "kind") _) with (Str (js "workspace-history-index-page")).
    change (member (js "version") _) with (int 1). cbn [int]. rewrite bool_decide_eq_true_2 by done. cbn [negb].
    assert (forall (A : Type) (a b : A), match height with 0 => a | _ => b end = b) as Hmatch by by intros; destruct height; [lia|..].
    rewrite Hmatch. rewrite exact_ok by done. cbn [mbind result_bind]. rewrite capture_normal_context by done. cbn [mbind result_bind].
    rewrite bool_decide_eq_true_2 by done. cbn [negb]. unfold MAX_ARCHIVE_DEPTH, MAX_ARCHIVE_CHILDREN.
    rewrite (proj2 (Z.ltb_ge _ _)), (proj2 (Z.leb_gt _ _)), (proj2 (Z.eqb_neq _ _)) by lia. cbn [orb].
    rewrite !length_map. assert ((length children =? 0)%nat = false) as -> by by destruct children.
    rewrite (proj2 (Z.ltb_ge _ _)) by lia. cbn [orb].
    rewrite (mapR_values _ _ (fun r => root_ok r /\ root_range r)); [|apply capture_normal_root|by apply Forall_and].
    cbn [mbind result_bind]. by rewrite Hcheck.
Qed.

Lemma decode_page page : page_ok page ->
  TextDecoder_decode (canonicalBytes (page_value page)) ≫= JSON_parse = Some (normal str_leb (page_value page)).
Proof.
  intros Hok. pose proof (plain_page page Hok) as Hp. unfold canonicalBytes.
  pose proof (clean_canonText str_leb _ Hp) as (Hu & Hw & _)%clean_wellFormed.
  rewrite decode_encode; [by apply JSON_parse_canonical|done|done|].
  destruct page; cbn [page_value]; by rewrite canonText_obj.
Qed.
Lemma page_inj p p' : page_ok p -> page_ok p' ->
  canonicalBytes (page_value p) = canonicalBytes (page_value p') -> p = p'.
Proof.
  intros Hp Hp' Heq. pose proof (decode_page p Hp) as Hd. rewrite Heq, (decode_page p' Hp') in Hd.
  injection Hd as Hd. pose proof (parse_page p Hp) as Hparse. rewrite <- Hd, (parse_page p' Hp') in Hparse. congruence.
Qed.

(** ** Trees of readable pages *)
Definition readable (v : gmap (list N) (list N)) (root : ArchiveIndexRoot) : Prop :=
  exists page, stored v root page /\ page_ok page.

Lemma readable_inj v r r' : readable v r -> readable v r' -> root_objectId r = root_objectId r' -> r = r'.
Proof.
  intros (p & (_ & Hb & _ & _ & Hr) & Hp) (p' & (_ & Hb' & _ & _ & Hr') & Hp') Hid.
  rewrite Hid in Hb, Hr. assert (p = p') as -> by (apply page_inj; congruence). congruence.
Qed.

Definition summary (h : nat) (root : ArchiveIndexRoot) (entries : list ArchiveIndexEntry) : Prop :=
  root_ok root /\ root_height root = Z.of_nat h /\ root_count root = Z.of_nat (length entries) /\
  root_first root = ent_key <$> head entries /\ root_last root = ent_key <$> last entries.

Definition below (k : list N) (entries : list ArchiveIndexEntry) : Prop :=
  Forall (fun e => str_ltb k (ent_key e)) entries.

Lemma ordered_app es es' : keys_ordered (es ++ es') ->
  keys_ordered es /\ keys_ordered es' /\ (forall e, e ∈ es -> below (ent_key e) es').
Proof.
  unfold keys_ordered. rewrite StronglySorted_app. intros (Hlt & Ho & Ho'). split; [done|]. split; [done|].
  intros e He. apply Forall_forall. intros e' He'. by apply Hlt.
Qed.

Lemma ordered_first_last entries f l :
  keys_ordered entries -> head entries = Some f -> last entries = Some l -> str_leb (ent_key f) (ent_key l).
Proof.
  intros Ho Hf Hl. destruct entries as [|e entries]; [done|]. injection Hf as ->.
  apply last_Some in Hl as [es' Hes]. destruct es' as [|e' es']; injection Hes as -> ->.
  { apply str_leb_refl. }
  unfold keys_ordered in Ho. apply StronglySorted_inv in Ho as [_ Ho]. rewrite Forall_forall in Ho.
  specialize (Ho l ltac:(set_solver)). by apply str_ltb_le.
Qed.

Lemma checkChildren_ok v h children parts previous seen :
  Forall2 (fun c es => readable v c /\ summary h c es) children parts -> Forall (fun es => es <> []) parts ->
  keys_ordered (concat parts) ->
  (forall p, previous = Some p -> exists l, root_last p = Some l /\ below l (concat parts)) ->
  (forall id, id ∈ seen -> exists r f, root_objectId r = id /\ readable v r /\ root_first r = Some f /\ below f (concat parts)) ->
  checkChildren (Z.of_nat (S h)) children previous seen = Ok tt.
Proof.
  intros Hc. revert previous seen.
  induction Hc as [|c es children parts [Hread (Hok & Hh & Hn & Hf & Hl)] Hc IH]; intros previous seen Hne Ho Hprev Hseen; [done|].
  cbn [checkChildren concat] in *. apply Forall_cons in Hne as [Hes Hne].
  destruct (ordered_app _ _ Ho) as (Ho1 & Ho2 & Hbelow).
  destruct es as [|e es]; [done|]. cbn [head fmap option_fmap option_map] in Hf.
  destruct (last (e :: es)) as [l|] eqn:Hlast; [|by apply last_None in Hlast]. cbn in Hl.
  rewrite Hh. rewrite (proj2 (Z.eqb_eq _ _)) by lia. rewrite (proj2 (Z.ltb_ge _ _)) by (rewrite Hn; cbn; lia).
  cbn [negb orb]. rewrite bool_decide_eq_false_2.
  2: { intros (r & f & Hid & Hr & Hrf & Hb)%Hseen. assert (r = c) as -> by by eapply readable_inj.
       assert (f = ent_key e) as -> by congruence. apply Forall_cons in Hb as [Hb _]. by rewrite str_ltb_irrefl in Hb. }
  rewrite Hf. cbn [default from_option].
  assert (match previous with Some p => str_leb (ent_key e) (default [] (root_last p)) | None => false end = false) as Hp.
  { destruct previous as [p|]; [|done]. destruct (Hprev p eq_refl) as (k & -> & Hk). apply Forall_cons in Hk as [Hk _].
    cbn. rewrite str_ltb_leb in Hk. apply negb_prop_elim in Hk. by destruct (str_leb _ _); [destruct Hk|]. }
  change (id (ent_key e)) with (ent_key e). rewrite Hp. apply IH; [done|done|..].
  - intros p [= <-]. exists (ent_key l). split; [done|]. apply Hbelow. by apply last_Some_elem_of.
  - intros i [->|Hi]%elem_of_cons.
    + exists c, (ent_key e). split_and!; try done. apply Hbelow. set_solver.
    + destruct (Hseen i Hi) as (r & f & ? & ? & ? & Hb). exists r, f. split_and!; try done.
      apply Forall_app in Hb. by destruct Hb.
Qed.

Lemma Forall2_parts {A} (P Q : A -> list ArchiveIndexEntry -> Prop) children parts :
  Forall2 P children parts -> keys_ordered (concat parts) -> Forall entry_ok (concat parts) ->
  (forall c es, keys_ordered es -> Forall entry_ok es -> es ∈ parts -> P c es -> Q c es) -> Forall2 Q children parts.
Proof.
  induction 1 as [|c es children parts Hp _ IH]; intros Ho He HPQ; [constructor|].
  cbn [concat] in *. apply ordered_app in Ho as (Ho1 & Ho2 & _). apply Forall_app in He as [He1 He2].
  constructor; [apply HPQ; try done; set_solver|]. apply IH; [done|done|]. intros. apply HPQ; try done. set_solver.
Qed.

Lemma parts_length v h children parts :
  Forall2 (fun c es => readable v c /\ summary h c es) children parts ->
  sumZ (map root_count children) = Z.of_nat (length (concat parts)).
Proof.
  induction 1 as [|c es children parts [_ (_ & _ & Hn & _)] _ IH]; [done|].
  cbn [map sumZ concat]. rewrite length_app, IH, Hn. lia.
Qed.

Lemma parts_first v h children parts :
  Forall2 (fun c es => readable v c /\ summary h c es) children parts -> Forall (fun es => es <> []) parts ->
  head children ≫= root_first = ent_key <$> head (concat parts) /\
  last children ≫= root_last = ent_key <$> last (concat parts).
Proof.
  intros Hc Hne. split.
  - destruct Hc as [|c es children parts [_ (_ & _ & _ & Hf & _)] Hc]; [done|]. apply Forall_cons in Hne as [Hne _].
    cbn. rewrite Hf. by destruct es.
  - induction Hc as [|c es children parts [_ (_ & _ & _ & _ & Hl)] Hc IH]; [done|]. apply Forall_cons in Hne as [Hes Hne].
    cbn [concat]. destruct Hc as [|c' es' children parts Hc' Hc].
    + cbn. by rewrite app_nil_r.
    + rewrite last_cons_cons, IH by done. rewrite last_app. apply Forall_cons in Hne as [Hne _].
      destruct (last (concat (es' :: parts))) eqn:Hlast; [done|]. apply last_None in Hlast. by destruct es'.
Qed.

Lemma ends_good entries :
  entries <> [] -> Forall entry_ok entries ->
  (exists k, ent_key <$> head entries = Some k /\ goodText k 512) /\
  (exists k, ent_key <$> last entries = Some k /\ goodText k 512).
Proof.
  intros Hne He. rewrite Forall_forall in He. split.
  - destruct entries as [|e entries]; [done|]. exists (ent_key e). split; [done|]. apply ok_key, He. set_solver.
  - destruct (last entries) as [e|] eqn:Hl; [|by apply last_None in Hl].
    exists (ent_key e). split; [done|]. by apply ok_key, He, last_Some_elem_of.
Qed.

Lemma summary_range h root entries : keys_ordered entries -> summary h root entries -> root_range root.
Proof.
  intros Ho (_ & _ & _ & Hf & Hl) f l. rewrite Hf, Hl.
  destruct (head entries) eqn:Hh, (last entries) eqn:Hla; cbn; intros [= <-] [= <-]. by eapply ordered_first_last.
Qed.

Lemma branch_page_ok v h children parts :
  Forall2 (fun c es => readable v c /\ summary h c es) children parts -> Forall (fun es => es <> []) parts ->
  keys_ordered (concat parts) -> children <> [] -> (length children <= 64)%nat -> Z.of_nat (S h) < 32 ->
  page_ok (BranchPage context (Z.of_nat (S h)) children).
Proof.
  intros Hsum Hne Ho Hnil Hlen Hdepth. cbn [page_ok]. split; [done|]. split; [lia|]. split_and!; [| |done|done|].
  - clear - Hsum. induction Hsum as [|c es children parts [_ [Hok _]] _ IH]; by constructor.
  - clear - Hsum Ho context_valid. induction Hsum as [|c es children parts [_ Hsm] _ IH]; [constructor|].
    cbn [concat] in Ho. apply ordered_app in Ho as (Ho1 & Ho2 & _).
    constructor; [exact (summary_range h c es Ho1 Hsm)|by apply IH].
  - eapply checkChildren_ok; [exact Hsum|done|done|done|]. intros id Hin. by apply not_elem_of_nil in Hin.
Qed.

(** A tree in the store is made of readable pages, and its root sums it up. *)
Lemma denotes_readable v h root entries :
  keys_ordered entries -> Forall entry_ok entries -> denotes context v h root entries ->
  readable v root /\ root_height root = Z.of_nat h /\ (entries <> [] -> summary h root entries).
Proof.
  revert root entries. induction h as [|h IH]; intros root entries Ho He.
  - intros [Hs Hlen]. pose proof Hs as (Hid & _ & _ & _ & [= Hr]).
    split; [exists (LeafPage context entries); by split|]. split; [by rewrite <- Hr|]. intros Hne.
    destruct (ends_good entries Hne He) as [Hf Hl].
    assert (1 <= length entries)%nat by (destruct entries; [done|cbn; lia]).
    split; [|by rewrite <- Hr]. split; [rewrite Hid; apply sha256Base64Url_pattern|..]; rewrite <- Hr; cbn;
      [lia|unfold MAX_SAFE_INTEGER; lia|done|done].
  - intros (children & parts & -> & Hc & Hne & Hnil & Hlen & Hs).
    assert (Forall2 (fun c es => readable v c /\ summary h c es) children parts) as Hsum.
    { eapply Forall2_parts; [exact Hc|done|done|]. intros c es Ho' He' Hin Hd.
      destruct (IH c es Ho' He' Hd) as (? & _ & Hsm). split; [done|]. apply Hsm. rewrite Forall_forall in Hne. by apply Hne. }
    pose proof Hs as (Hid & _ & _ & Hdepth & Hr). cbn [pageRoot] in Hr. case_match eqn:Hsafe; [done|]. injection Hr as Hr.
    apply negb_false_iff in Hsafe. unfold MAX_ARCHIVE_DEPTH in Hdepth. cbn [page_height] in Hdepth.
    destruct (parts_first _ _ _ _ Hsum Hne) as [Hf Hl]. rewrite (parts_length _ _ _ _ Hsum) in Hr, Hsafe. rewrite Hf, Hl in Hr.
    assert (concat parts <> []) as Hcat.
    { destruct Hsum as [|c es ? parts' _ _]; [done|]. apply Forall_cons in Hne as [Hes _]. by destruct es. }
    destruct (ends_good _ Hcat He) as [Hgf Hgl].
    assert (1 <= length (concat parts))%nat by (destruct (concat parts); [done|cbn; lia]).
    split_and!; [|by rewrite <- Hr|intros _; split; [|by rewrite <- Hr]].
    + exists (BranchPage context (Z.of_nat (S h)) children). split; [done|]. eapply branch_page_ok; try done.
    + split; [rewrite Hid; apply sha256Base64Url_pattern|..]; rewrite <- Hr; cbn [root_height root_count root_first root_last];
        [lia| |done|done]. unfold isSafeInteger, MAX_SAFE_INTEGER in *. apply andb_true_iff in Hsafe as [_ Hsafe].
      apply Z.leb_le in Hsafe. lia.
Qed.

Lemma denotes_branch v h root children parts :
  keys_ordered (concat parts) -> Forall entry_ok (concat parts) -> Forall2 (denotes context v h) children parts ->
  Forall (fun es => es <> []) parts -> children <> [] -> (length children <= 64)%nat ->
  stored v root (BranchPage context (Z.of_nat (S h)) children) ->
  page_ok (BranchPage context (Z.of_nat (S h)) children).
Proof.
  intros Ho He Hc Hne Hnil Hlen (_ & _ & _ & Hdepth & _). eapply branch_page_ok; try done.
  eapply Forall2_parts; [exact Hc|done|done|]. intros c es Ho' He' Hin Hd.
  destruct (denotes_readable v h c es Ho' He' Hd) as (? & _ & Hsm). split; [done|]. apply Hsm. rewrite Forall_forall in Hne. by apply Hne.
Qed.

Lemma checkPage_ok v root page :
  page_ok page -> stored v root page -> checkPage context root (canonicalBytes (page_value page)) = Ok page.
Proof.
  intros Hp (Hid & _ & Hsize & _ & Hr). unfold checkPage. rewrite (proj2 (Z.ltb_ge _ _)) by done.
  rewrite bool_decide_eq_true_2 by done. cbn [negb]. rewrite decode_page, parse_page by done. cbn [mbind result_bind].
  rewrite bool_decide_eq_true_2 by done. cbn [negb]. rewrite Hr. cbn [mbind result_bind].
  by rewrite bool_decide_eq_true_2 by done.
Qed.
End Pages.

(** ** Selection *)
Section Select.
Variable query : ArchiveIndexQuery.

(** Keys before the ones the query can return. *)
Definition low (key : list N) : bool :=
  match q_after query with Some after => str_leb key after | None => false end ||
  match q_prefix query with Some prefix => str_ltb key prefix | None => false end.

Definition straddles (entries : list ArchiveIndexEntry) : bool :=
  existsb (fun e => low (ent_key e)) entries && existsb (fun e => negb (low (ent_key e))) entries.

Definition selected (entries : list ArchiveIndexEntry) : list ArchiveIndexEntry := List.filter (matches query) entries.

Lemma low_mono k k' : str_ltb k k' -> low k' -> low k.
Proof.
  intros Hlt. unfold low. rewrite !orb_True. destruct (q_after query) as [a|], (q_prefix query) as [p|];
    intros [Hl|Hl]; try done; [left|right|left|right];
    eauto using str_leb_trans, str_ltb_le, str_ltb_trans.
Qed.

Lemma matches_high e : matches query e -> ~ low (ent_key e).
Proof.
  unfold matches, low. rewrite andb_True, orb_True. intros [Ha Hp] [Hl|Hl].
  - destruct (q_after query); [|done]. by apply str_lt_not_le in Ha.
  - destruct (q_prefix query); [|done]. apply str_lt_not_le in Hl. apply Hl. by apply startsWith_le.
Qed.

Section Root.
Variables (h : nat) (root : ArchiveIndexRoot) (entries : list ArchiveIndexEntry).
Variables (f l : ArchiveIndexEntry).
Hypothesis sum : summary h root entries.
Hypothesis ordered : keys_ordered entries.
Hypothesis first_entry : head entries = Some f.
Hypothesis last_entry : last entries = Some l.

Lemma first_least e : e ∈ entries -> str_leb (ent_key f) (ent_key e).
Proof.
  destruct entries as [|e' es]; [done|]. injection first_entry as ->. intros [->|Hin]%elem_of_cons; [apply str_leb_refl|].
  apply StronglySorted_inv in ordered as [_ Ho]. rewrite Forall_forall in Ho. by apply str_ltb_le, Ho.
Qed.

Lemma last_greatest e : e ∈ entries -> str_leb (ent_key e) (ent_key l).
Proof.
  apply last_Some in last_entry as [es ->]. destruct (ordered_app _ _ ordered) as (_ & _ & Ho).
  intros [Hin| ->%list_elem_of_singleton]%elem_of_app; [|apply str_leb_refl].
  apply Ho in Hin. apply Forall_cons in Hin as [Hin _]. by apply str_ltb_le.
Qed.

Lemma intersects_eq :
  intersects query root =
  match q_after query with Some after => str_ltb after (ent_key l) | None => true end &&
  match q_prefix query with
  | Some prefix => str_leb prefix (ent_key l) && (str_leb (ent_key f) prefix || startsWith (ent_key f) prefix)
  | None => true end.
Proof.
  destruct sum as (Hok & _ & Hn & Hf & Hl). unfold intersects. rewrite Hf, Hl, first_entry, last_entry. cbn [fmap option_fmap option_map default from_option].
  destruct Hok as [_ _ Hc _ _]. by rewrite (proj2 (Z.ltb_lt _ _)) by lia.
Qed.

(** Subtrees that are skipped hold nothing the query asks for. *)
Lemma skipped_empty : intersects query root = false -> selected entries = [].
Proof.
  intros Hi. destruct (selected entries) as [|e es] eqn:Hs; [done|]. exfalso.
  assert (e ∈ entries /\ matches query e) as [Hin Hm].
  { assert (e ∈ selected entries) as He by (rewrite Hs; set_solver). apply elem_of_lfilter in He as [? Hm]. by rewrite Hm. }
  pose proof (first_least e Hin) as Hf. pose proof (last_greatest e Hin) as Hl. rewrite intersects_eq in Hi.
  unfold matches in Hm. rewrite andb_True in Hm. destruct Hm as [Ha Hp]. apply andb_false_iff in Hi as [Hi|Hi].
  - destruct (q_after query) as [a|]; [|done]. apply not_true_iff_false in Hi. apply Hi, Is_true_eq_true. by eapply str_ltb_leb_trans.
  - destruct (q_prefix query) as [p|]; [|done]. pose proof (startsWith_le _ _ Hp) as Hpe.
    apply andb_false_iff in Hi as [Hi|Hi].
    + apply not_true_iff_false in Hi. apply Hi, Is_true_eq_true. by eapply str_leb_trans.
    + apply orb_false_iff in Hi as [Hi1 Hi2]. apply not_true_iff_false in Hi2. apply Hi2, Is_true_eq_true.
      eapply startsWith_between; [exact Hp| |done]. apply str_ltb_le, str_lt_not_le. rewrite Hi1. by intros [].
Qed.

(** A visited subtree without a match starts before the range and ends in it. *)
Lemma visited_straddles : intersects query root = true -> selected entries = [] -> straddles entries.
Proof.
  intros Hi Hs.
  assert (forall e, e ∈ entries -> ~ matches query e) as Hno.
  { intros e He Hm. assert (e ∈ selected entries) as Hin by by apply elem_of_lfilter; split; [|apply Is_true_eq_true]. rewrite Hs in Hin. by apply elem_of_nil in Hin. }
  assert (f ∈ entries) as Hfin by (by apply head_Some_elem_of). assert (l ∈ entries) as Hlin by by apply last_Some_elem_of.
  rewrite intersects_eq in Hi. apply andb_true_iff in Hi as [Ha Hp].
  unfold straddles. rewrite andb_True. split; apply Is_true_true, existsb_exists.
  - exists f. split; [by apply list_elem_of_In|]. destruct (low (ent_key f)) eqn:Hlow; [done|]. exfalso.
    apply (Hno f Hfin). unfold low in Hlow. apply orb_false_iff in Hlow as [Hla Hlp]. unfold matches. rewrite andb_True. split.
    + destruct (q_after query); [|done]. apply str_lt_not_le. rewrite Hla. by intros [].
    + destruct (q_prefix query) as [p|]; [|done]. apply andb_true_iff in Hp as [_ Hp]. apply orb_true_iff in Hp as [Hp|Hp]; [|by rewrite Hp].
      assert (ent_key f = p) as ->; [|by apply startsWith_self].
      apply str_leb_antisym; [by rewrite Hp|]. apply str_nlt_le. rewrite Hlp. by intros [].
  - exists l. split; [by apply list_elem_of_In|]. apply negb_true_iff. unfold low. apply orb_false_iff. split.
    + destruct (q_after query) as [a|]; [|done]. apply not_true_iff_false. intros Hle.
      assert (str_ltb a (ent_key l)) as Hlt by by rewrite Ha. apply str_lt_not_le in Hlt. apply Hlt. by rewrite Hle.
    + destruct (q_prefix query) as [p|]; [|done]. apply andb_true_iff in Hp as [Hp _]. rewrite str_ltb_leb. by rewrite Hp.
Qed.
End Root.

(** *** The entries collected so far, cut one past the limit *)
Abbreviation limit := (Z.to_nat (q_limit query)).
Hypothesis limit_pos : 1 <= q_limit query.

Definition clip (entries : list ArchiveIndexEntry) : list ArchiveIndexEntry := take (S limit) entries.

Lemma overLimit_spec entries : overLimit query entries = true <-> (limit < length entries)%nat.
Proof. unfold overLimit. rewrite Z.ltb_lt. lia. Qed.

Lemma clip_short l k : (length l <= limit)%nat -> clip (l ++ k) = l ++ take (S limit - length l) k.
Proof. intros Hl. unfold clip. rewrite firstn_app, firstn_all2 by lia. done. Qed.

Lemma clip_clip l k : (length (clip l) <= limit)%nat -> clip (clip l ++ k) = clip (l ++ k).
Proof.
  intros Hl. unfold clip in *. rewrite length_take in Hl. rewrite (firstn_all2 l) by lia. done.
Qed.

Lemma clip_full l k : (limit < length (clip l))%nat -> clip (l ++ k) = clip l.
Proof.
  intros Hl. unfold clip in *. rewrite length_take in Hl. rewrite firstn_app.
  replace (S limit - length l)%nat with 0%nat by lia. by rewrite app_nil_r.
Qed.

Lemma visitEntries_eq page acc :
  (length acc <= limit)%nat -> visitEntries query page acc = clip (acc ++ selected page).
Proof.
  revert acc. induction page as [|e page IH]; intros acc Hacc; cbn [visitEntries].
  { unfold selected. cbn. unfold clip. by rewrite app_nil_r, firstn_all2 by lia. }
  unfold selected in *. cbn [List.filter]. destruct (matches query e).
  - destruct (overLimit query (acc ++ [e])) eqn:Hover.
    + apply overLimit_spec in Hover. rewrite length_app in Hover. cbn in Hover.
      rewrite clip_short by done. replace (S limit - length acc)%nat with 1%nat by lia. done.
    + apply not_true_iff_false in Hover. rewrite overLimit_spec, length_app in Hover. cbn in Hover.
      rewrite IH by (rewrite length_app; cbn; lia). by rewrite <- app_assoc.
  - destruct (overLimit query acc) eqn:Hover; [apply overLimit_spec in Hover; lia|]. by apply IH.
Qed.

Definition gain (acc entries : list ArchiveIndexEntry) : nat := (length (clip (acc ++ selected entries)) - length acc)%nat.

Lemma gain_spec acc entries :
  (length acc <= limit)%nat -> length (clip (acc ++ selected entries)) = (length acc + gain acc entries)%nat.
Proof. intros Hacc. unfold gain. rewrite clip_short by done. rewrite length_app, length_take. lia. Qed.

Lemma gain_pos acc entries : (length acc <= limit)%nat -> selected entries <> [] -> (1 <= gain acc entries)%nat.
Proof.
  intros Hacc Hs. unfold gain. rewrite clip_short by done. rewrite length_app, length_take.
  destruct (selected entries); [done|]. cbn. lia.
Qed.

Lemma selected_app es es' : selected (es ++ es') = selected es ++ selected es'.
Proof. apply lfilter_app. Qed.

Lemma gain_app acc es es' :
  (length acc <= limit)%nat -> (length (clip (acc ++ selected es)) <= limit)%nat ->
  gain acc (es ++ es') = (gain acc es + gain (clip (acc ++ selected es)) es')%nat.
Proof.
  intros Hacc Hc. unfold gain. rewrite clip_clip by done. rewrite selected_app, app_assoc.
  pose proof (gain_spec acc es Hacc) as Hg. rewrite <- (clip_clip (acc ++ selected es)) by done.
  rewrite (clip_short (clip (acc ++ selected es))) by done. rewrite length_app. lia.
Qed.

Lemma gain_app_full acc es es' :
  (limit < length (clip (acc ++ selected es)))%nat -> gain acc (es ++ es') = gain acc es.
Proof. intros Hc. unfold gain. by rewrite selected_app, app_assoc, clip_full. Qed.

(** *** Straddling subtrees *)
Definition straddle_cost (n : nat) (entries : list ArchiveIndexEntry) : nat := if straddles entries then n else 0%nat.

Lemma straddle_split n es es' :
  keys_ordered (es ++ es') -> (straddle_cost n es + straddle_cost n es' <= straddle_cost n (es ++ es'))%nat.
Proof.
  intros (_ & _ & Ho)%ordered_app. unfold straddle_cost, straddles. rewrite !existsb_app.
  destruct (existsb (fun e => low (ent_key e)) es) eqn:H1, (existsb (fun e => negb (low (ent_key e))) es) eqn:H2,
    (existsb (fun e => low (ent_key e)) es') eqn:H3, (existsb (fun e => negb (low (ent_key e))) es') eqn:H4;
    cbn [andb orb]; try lia.
  exfalso. apply existsb_exists in H2 as (e & He%list_elem_of_In & Hlow). apply existsb_exists in H3 as (e' & He'%list_elem_of_In & Hlow').
  specialize (Ho e He). unfold below in Ho. rewrite Forall_forall in Ho. specialize (Ho e' He').
  apply negb_true_iff in Hlow. pose proof (low_mono _ _ Ho ltac:(by rewrite Hlow')) as Hl. by rewrite Hlow in Hl.
Qed.
End Select.

(** ** The traversal *)

(** Stores whose objects can be read. *)
Class AvailableStore (W : Type) `{ImmutableStore W} :=
  read_available id maximum binding w bytes :
    view w !! id = Some bytes -> byteLength bytes <= maximum <= MAX_ARCHIVE_PART_BYTES ->
    (store_read id maximum binding w).1 = Ok (Some bytes).

Section Traversal.
Context `{Sha256} {W : Type} `{AvailableStore W}.
Variable context : ArchiveTreeContext.
Hypothesis context_valid : context_ok context.
Variable query : ArchiveIndexQuery.
Hypothesis limit_pos : 1 <= q_limit query.
Variable v : gmap (list N) (list N).

Abbreviation limit := (Z.to_nat (q_limit query)).
Abbreviation budget := (32 * (limit + 1) + 1)%nat.

Lemma page_part : MAX_ARCHIVE_PAGE_BYTES <= MAX_ARCHIVE_PART_BYTES.
Proof. unfold MAX_ARCHIVE_PAGE_BYTES, MAX_ARCHIVE_PART_BYTES. lia. Qed.

Lemma returns_loadPage w root page Q :
  v ⊆ view w -> stored v root page -> page_ok context page ->
  (forall w', v ⊆ view w' -> Q page w') -> returns (loadPage context root) w Q.
Proof.
  intros Hv Hs Hp HQ. unfold loadPage. pose proof Hs as (Hid & Hb & Hsize & _).
  pose proof (read_available (root_objectId root) MAX_ARCHIVE_PAGE_BYTES (Some (mkBinding context KindPage 0 1)) w
    _ (lookup_weaken _ _ _ _ Hb Hv) (conj Hsize page_part)) as Hr.
  pose proof (read_view (root_objectId root) MAX_ARCHIVE_PAGE_BYTES (Some (mkBinding context KindPage 0 1)) w) as Hw.
  unfold returns, mbind, M_bind. destruct (store_read _ _ _ w) as [r w1]. cbn in Hr, Hw. subst r.
  unfold liftM. rewrite (checkPage_ok context context_valid v) by done.
  exists page, w1. split; [done|]. apply HQ. by etrans.
Qed.

(** No page seen so far is one of a tree of height [h] over [entries]. *)
Definition seen_ok (h : nat) (entries : list ArchiveIndexEntry) (seen : list (list N)) : Prop :=
  forall id, id ∈ seen -> exists r, readable context v r /\ root_objectId r = id /\
    (Z.of_nat h < root_height r \/ exists f, root_first r = Some f /\ below f entries).

(** The pages seen since are pages of such a tree. *)
Definition seen_within (h : nat) (entries : list ArchiveIndexEntry) (seen seen' : list (list N)) : Prop :=
  forall id, id ∈ seen' -> id ∈ seen \/ exists r e, readable context v r /\ root_objectId r = id /\
    root_height r <= Z.of_nat h /\ root_first r = Some (ent_key e) /\ e ∈ entries.

Lemma seen_ok_skip h es es' seen : seen_ok h (es ++ es') seen -> seen_ok h es' seen.
Proof.
  intros Hs id Hid. destruct (Hs id Hid) as (r & Hr & Hrid & [Hh|(f & Hf & Hb)]); exists r; split_and!; auto.
  right. exists f. split; [done|]. by apply Forall_app in Hb as [_ Hb].
Qed.

Lemma seen_ok_take h es es' seen : seen_ok h (es ++ es') seen -> seen_ok h es seen.
Proof.
  intros Hs id Hid. destruct (Hs id Hid) as (r & Hr & Hrid & [Hh|(f & Hf & Hb)]); exists r; split_and!; auto.
  right. exists f. split; [done|]. by apply Forall_app in Hb as [Hb _].
Qed.

Lemma seen_ok_next h es es' seen seen' :
  keys_ordered (es ++ es') -> seen_ok h (es ++ es') seen -> seen_within h es seen seen' -> seen_ok h es' seen'.
Proof.
  intros (_ & _ & Ho)%ordered_app Hs Hw id [Hid|(r & e & Hr & Hrid & _ & Hf & He)]%Hw.
  - exact (seen_ok_skip h es es' seen Hs id Hid).
  - exists r. split_and!; [done|done|]. right. exists (ent_key e). auto.
Qed.

Lemma seen_within_trans h es es' seen seen' seen'' :
  seen_within h es seen seen' -> seen_within h es' seen' seen'' -> seen_within h (es ++ es') seen seen''.
Proof.
  intros Hw1 Hw2 id [[Hid|(r & e & ? & ? & ? & ? & ?)]%Hw1|(r & e & ? & ? & ? & ? & ?)]%Hw2; [by left|right..];
    exists r, e; split_and!; try done; set_solver.
Qed.

Lemma seen_fresh h root entries seen :
  readable context v root -> summary h root entries -> entries <> [] -> seen_ok h entries seen ->
  root_objectId root ∉ seen.
Proof.
  intros Hr (_ & Hh & _ & Hf & _) Hne Hs (r & Hread & Hid & Hcase)%Hs.
  assert (r = root) as -> by by eapply readable_inj. destruct Hcase as [Hlt|(f & Hf' & Hb)]; [lia|].
  destruct entries as [|e es]; [done|]. rewrite Hf in Hf'. injection Hf' as <-.
  apply Forall_cons in Hb as [Hb _]. by rewrite str_ltb_irrefl in Hb.
Qed.

(** Pages below a root of height [h]: one straddling page per level, and one
    per level for each entry collected. *)
Definition pages (h : nat) (acc entries : list ArchiveIndexEntry) : nat :=
  (straddle_cost query h entries + h * gain query acc entries)%nat.

(** The result of visiting a subtree, or some children of one. *)
Definition visited (h n : nat) (acc entries : list ArchiveIndexEntry) (seen : list (list N))
    (st : list ArchiveIndexEntry * list (list N)) (w : W) : Prop :=
  v ⊆ view w /\ st.1 = clip query (acc ++ selected query entries) /\ seen_within h entries seen st.2 /\
  (length st.2 <= length seen + n)%nat.

(** [visit] of a tree of height [h] returns, within its page count. *)
Definition visits (h : nat) (visit : ArchiveIndexRoot -> list ArchiveIndexEntry * list (list N) ->
    M W (list ArchiveIndexEntry * list (list N))) : Prop :=
  forall root entries acc seen w,
    v ⊆ view w -> keys_ordered entries -> Forall entry_ok entries -> entries <> [] ->
    denotes context v h root entries -> (length acc <= limit)%nat -> seen_ok h entries seen ->
    (length seen + 1 + pages h acc entries <= budget)%nat ->
    returns (visit root (acc, seen)) w (visited h (1 + pages h acc entries) acc entries seen).

Lemma returns_visitChildren h vis children parts acc seen w :
  visits h vis -> v ⊆ view w -> Forall2 (denotes context v h) children parts -> Forall (fun es => es <> []) parts ->
  keys_ordered (concat parts) -> Forall entry_ok (concat parts) -> (length acc <= limit)%nat ->
  seen_ok h (concat parts) seen -> (length seen + pages (S h) acc (concat parts) <= budget)%nat ->
  returns (visitChildren query vis children (acc, seen)) w
    (visited h (pages (S h) acc (concat parts)) acc (concat parts) seen).
Proof.
  intros Hvis Hv Hc. revert acc seen w Hv.
  induction Hc as [|c es children parts Hd Hc IH]; intros acc seen w Hv Hne Ho He Hacc Hs Hb.
  { apply returns_ret. split_and!; [done| | |cbn; lia].
    - cbn. unfold clip. by rewrite app_nil_r, firstn_all2 by lia.
    - intros id Hid. by left. }
  cbn [visitChildren concat] in *. apply Forall_cons in Hne as [Hes Hne]. apply Forall_app in He as [He He'].
  pose proof (straddle_split query (S h) _ _ Ho) as Hstr. destruct (ordered_app _ _ Ho) as (Ho1 & Ho2 & _).
  destruct (denotes_readable context context_valid v h c es Ho1 He Hd) as (Hread & _ & Hsum). specialize (Hsum Hes).
  assert (exists f l, head es = Some f /\ last es = Some l) as (f & l & Hf & Hl).
  { destruct es as [|f es]; [done|]. exists f. destruct (last (f :: es)) as [l|] eqn:Hl; [by exists l|by apply last_None in Hl]. }
  assert (S h * gain query acc es + straddle_cost query (S h) es <= pages (S h) acc (es ++ concat parts))%nat as Hfirst.
  { unfold pages. destruct (decide (length (clip query (acc ++ selected query es)) <= limit)%nat).
    - rewrite gain_app by done. lia.
    - rewrite gain_app_full by lia. lia. }
  apply returns_bind. apply returns_weaken with
    (Q := visited h (S h * gain query acc es + straddle_cost query (S h) es) acc es seen).
  - destruct (intersects query c) eqn:Hi.
    + assert (1 + pages h acc es <= S h * gain query acc es + straddle_cost query (S h) es)%nat as Hcost.
      { unfold pages. destruct (decide (selected query es = [])) as [Hnil|Hsel].
        - assert (straddles query es) as Hst by (eapply visited_straddles; eassumption). unfold straddle_cost.
          destruct (straddles query es); [lia|done].
        - pose proof (gain_pos query limit_pos acc es Hacc Hsel). unfold straddle_cost. destruct (straddles query es); lia. }
      eapply returns_weaken; [apply (Hvis c es); try done; [exact (seen_ok_take h es (concat parts) seen Hs)|lia]|].
      intros st w' (? & ? & ? & ?). split_and!; [done|done|done|lia].
    + apply returns_ret. assert (selected query es = []) as Hnil by (eapply skipped_empty; eassumption).
      split_and!; [done| |by intros id Hid; left|cbn; lia].
      rewrite Hnil, app_nil_r. unfold clip. by rewrite firstn_all2 by (cbn; lia).
  - intros [acc' seen'] w' (Hv' & Hacc' & Hw & Hlen). cbn [fst snd] in *.
    destruct (overLimit query acc') eqn:Hover.
    + apply overLimit_spec in Hover; [|done]. apply returns_ret. split_and!; cbn [fst snd]; [done| | |lia].
      * rewrite selected_app, app_assoc, clip_full; try done. by rewrite <- Hacc'.
      * intros id [Hid|(r & e & ? & ? & ? & ? & ?)]%Hw; [by left|right]. exists r, e. split_and!; try done. set_solver.
    + apply not_true_iff_false in Hover. rewrite overLimit_spec in Hover by done.
      assert (pages (S h) acc (es ++ concat parts) >= S h * gain query acc es + straddle_cost query (S h) es +
        pages (S h) acc' (concat parts))%nat as Hsplit.
      { unfold pages. rewrite gain_app, <- Hacc' by (try rewrite <- Hacc'; lia). lia. }
      eapply returns_weaken; [apply IH; try done; [lia|exact (seen_ok_next h es (concat parts) seen seen' Ho Hs Hw)|lia]|].
      intros st w2 (Hv2 & Hst2 & Hw2 & Hlen2). split_and!; [done| |by eapply seen_within_trans|lia].
      rewrite Hst2, Hacc', clip_clip by (try rewrite <- Hacc'; lia). by rewrite selected_app, app_assoc.
Qed.

Lemma visit_visits fuel h : (h < fuel)%nat -> visits h (visit context query fuel).
Proof.
  revert h. induction fuel as [|fuel IH]; intros h Hfuel; [lia|].
  intros root entries acc seen w Hv Ho He Hne Hd Hacc Hs Hb. cbn [visit].
  destruct (denotes_readable context context_valid v h root entries Ho He Hd) as ((page & Hst & Hp) & Hheight & Hsum).
  specialize (Hsum Hne). pose proof (seen_fresh h root entries seen ltac:(by exists page) Hsum Hne Hs) as Hfresh.
  apply returns_bind, returns_require.
  { rewrite bool_decide_eq_false_2 by done. cbn [orb]. apply negb_true_iff, Z.leb_gt. unfold MAX_ARCHIVE_DEPTH. lia. }
  assert (seen_within h entries seen (root_objectId root :: seen)) as Hself.
  { intros id [->|Hid]%elem_of_cons; [right|by left]. destruct Hsum as (_ & _ & _ & Hf & _). destruct entries as [|e es]; [done|].
    exists root, e. split_and!; [by exists page|done|lia|done|set_solver]. }
  destruct h as [|h].
  - destruct Hd as [Hleaf Hlen]. apply returns_bind. eapply (returns_loadPage w root (LeafPage context entries)); try done.
    intros w' Hv'. apply returns_ret. split_and!; cbn [fst snd]; [done|by apply visitEntries_eq|done|cbn; lia].
  - destruct Hd as (children & parts & -> & Hc & Hparts & Hnil & Hlen & Hst'). apply returns_bind.
    eapply (returns_loadPage w root (BranchPage context (Z.of_nat (S h)) children)); [done|done| |].
    { by eapply denotes_branch. }
    intros w' Hv'. eapply returns_weaken; [apply (returns_visitChildren h (visit context query fuel) children parts); try done|].
    + apply IH. lia.
    + intros id [->|Hid]%elem_of_cons.
      * exists root. split_and!; [by exists page|done|left; lia].
      * destruct (Hs id Hid) as (r & ? & ? & [?|?]); exists r; split_and!; auto. left. lia.
    + cbn [length]. lia.
    + intros st w2 (Hv2 & Hst2 & Hw2 & Hlen2). split_and!; [done|done| |cbn [length] in *; lia].
      intros id [Hid|(r & e & ? & ? & ? & ? & ?)]%Hw2; [by apply Hself|right]. exists r, e. split_and!; try done. lia.
Qed.

(** What a query returns of the entries. *)
Definition answer (entries : list ArchiveIndexEntry) : ArchiveIndexResult :=
  let sel := selected query entries in
  mkResult (take limit sel) (if (limit <? length sel)%nat then ent_key <$> sel !! (limit - 1)%nat else None).

Lemma resultOf_clip entries : resultOf query (clip query (selected query entries)) = answer entries.
Proof.
  unfold resultOf, answer, clip. rewrite take_take, Nat.min_l by lia. f_equal.
  unfold overLimit. rewrite length_take. destruct (Nat.ltb_spec limit (length (selected query entries))).
  - rewrite (proj2 (Z.ltb_lt _ _)) by lia. by rewrite lookup_take_lt by lia.
  - by rewrite (proj2 (Z.ltb_ge _ _)) by lia.
Qed.

Lemma returns_visit_empty w root fuel :
  v ⊆ view w -> denotes context v 0 root [] ->
  returns (visit context query (S fuel) root ([], [])) w (fun st w' => st.1 = [] /\ v ⊆ view w').
Proof.
  intros Hv [Hs _]. cbn [visit]. apply returns_bind, returns_require.
  { rewrite bool_decide_eq_false_2 by apply not_elem_of_nil. cbn [orb]. apply negb_true_iff, Z.leb_gt.
    unfold MAX_ARCHIVE_DEPTH. cbn [length]. lia. }
  apply returns_bind. eapply returns_loadPage; [done|exact Hs|by split_and!; [|constructor|constructor|cbn; lia]|].
  intros w' Hv'. by apply returns_ret.
Qed.

Lemma denotes_nil h root : denotes context v h root [] -> h = 0%nat.
Proof.
  destruct h as [|h]; [done|]. intros (children & parts & Heq & Hc & Hne & Hnil & _). exfalso.
  destruct Hc as [|c es children parts Hc _]; [done|]. apply Forall_cons in Hne as [Hes _]. by destruct es.
Qed.

Lemma capture_denoted h root entries :
  keys_ordered entries -> Forall entry_ok entries -> denotes context v h root entries ->
  captureRoot (root_value root) = Ok root.
Proof.
  intros Ho He Hd. destruct (decide (entries = [])) as [->|Hne].
  - pose proof (denotes_nil h root Hd) as ->.
    destruct Hd as [(Hid & _ & _ & _ & [= Hr]) _]. rewrite <- Hr. unfold captureRoot, root_value.
    cbn [root_objectId root_height root_count root_first root_last nullable fmap option_fmap option_map head last length Z.of_nat].
    rewrite exact_ok by done. cbn [mbind result_bind].
    change (member (js "objectId") _) with (Str (root_objectId root)). unfold validateArchiveObjectId.
    rewrite Hid, (Is_true_eq_true _ (sha256Base64Url_pattern _)). reflexivity.
  - destruct (denotes_readable context context_valid v h root entries Ho He Hd) as (_ & _ & Hsum). specialize (Hsum Hne).
    apply captureRoot_value; [by destruct Hsum|]. by eapply summary_range.
Qed.

Lemma returns_read w h root entries queryInput :
  v ⊆ view w -> keys_ordered entries -> Forall entry_ok entries -> denotes context v h root entries -> (h <= 18)%nat ->
  captureQuery queryInput = Ok query ->
  returns (readArchiveIndex (context_value context) (root_value root) queryInput) w (fun result w' => result = answer entries /\ v ⊆ view w').
Proof.
  intros Hv Ho He Hd Hh Hq. unfold readArchiveIndex.
  apply returns_bind. eapply returns_lift; [by apply captureContext_value|].
  apply returns_bind. eapply returns_lift; [by eapply capture_denoted|].
  apply returns_bind. eapply returns_lift; [exact Hq|]. apply returns_bind.
  destruct (denotes_readable context context_valid v h root entries Ho He Hd) as (_ & Hheight & _).
  rewrite Hheight, Nat2Z.id. destruct (decide (entries = [])) as [->|Hne].
  - pose proof (denotes_nil h root Hd) as ->.
    eapply returns_weaken; [by apply returns_visit_empty|]. cbv beta. intros st w' [Hst Hv']. apply returns_ret.
    by rewrite Hst, <- resultOf_clip.
  - eapply returns_weaken; [apply (visit_visits (S h) h); try done; [lia|cbn; lia| |]|].
    + intros id Hid. by apply not_elem_of_nil in Hid.
    + cbn [length]. pose proof (gain_spec query limit_pos [] entries) as Hg. cbn [length app] in Hg.
      unfold clip in Hg. rewrite length_take in Hg. unfold pages, straddle_cost. destruct (straddles query entries); nia.
    + intros st w' (Hv' & Hst & _). apply returns_ret. rewrite Hst. cbn [app]. split; [apply resultOf_clip|done].
Qed.
End Traversal.

Lemma captureQuery_limit input query : captureQuery input = Ok query -> 1 <= q_limit query <= 256.
Proof.
  unfold captureQuery. destruct input as [| | | | | |members]; try done. case_match; [done|].
  intros (after & _ & Hk)%bind_ok. apply bind_ok in Hk as (prefix & _ & Hk).
  destruct (member (js "limit") members) as [| | |[z| |]| | |]; try done; try (injection Hk as <-; cbn; lia).
  case_match eqn:Hz; [done|]. injection Hk as <-. apply orb_false_iff in Hz as [H1%Z.ltb_ge H2%Z.ltb_ge]. cbn. lia.
Qed.

Lemma mapR_entries_ok source entries :
  Forall tame source -> mapR captureEntry source = Ok entries -> Forall entry_ok entries.
Proof.
  intros Ht. revert entries. induction Ht as [|c source Hc Ht IH]; intros entries; cbn [mapR]; [by intros [= <-]|].
  intros (e & He & Hk)%bind_ok. apply bind_ok in Hk as (es & Hes & [= <-]). constructor; [by eapply captureEntry_ok|auto].
Qed.

#[global] Instance memoryAvailable : AvailableStore (gmap (list N) (list N)).
Proof. intros id maximum binding w bytes Hv _. cbn in *. by rewrite Hv. Qed.

(** C14. An archive index reads back what was built into it.  After a build of
    at most [Number.MAX_SAFE_INTEGER] entries that returned a root, and
    whatever else is written to the store since, every valid query on that
    root returns: its entries are the built ones after [after] and with
    [prefix], in order, cut at [limit], and [nextAfter] is the last key
    returned exactly when more entries follow.  No check on the way fails, and
    the traversal stays within its page budget. *)
Theorem archive_index_roundtrip `{Sha256} {W} `{AvailableStore W} context source (w w1 w2 : W) root queryInput query :
  context_ok context -> Forall tame source -> Z.of_nat (length source) <= MAX_SAFE_INTEGER ->
  buildArchiveIndex (context_value context) source w = (Ok root, w1) -> view w1 ⊆ view w2 ->
  captureQuery queryInput = Ok query ->
  exists entries w3, mapR captureEntry source = Ok entries /\
    readArchiveIndex (context_value context) (root_value root) queryInput w2 = (Ok (answer query entries), w3).
Proof.
  intros Hc Ht Hlen Hb Hv Hq.
  destruct (build_denotes context w w1 source root Hc Ht Hb) as (entries & h & Hes & Ho & Hd).
  pose proof (runs_build context Hc source entries w Ht Hes Ho Hlen) as Hr. unfold runs in Hr. rewrite Hb in Hr.
  pose proof (mapR_entries_ok _ _ Ht Hes) as He.
  destruct (denotes_readable context Hc (view w1) h root entries Ho He Hd) as (_ & Hheight & _).
  destruct (returns_read context Hc query (proj1 (captureQuery_limit _ _ Hq)) (view w1) w2 h root entries queryInput)
    as (result & w3 & Hread & -> & _); try done; [lia|]. by exists entries, w3.
Qed.

Lemma archive_index_roundtrip_witness :
  match buildArchiveIndex (H := checksumSha256) (context_value Memory.context) Memory.source ∅ with
  | (Ok root, w1) => exists entries w3, mapR captureEntry Memory.source = Ok entries /\
      readArchiveIndex (H := checksumSha256) (context_value Memory.context) (root_value root)
        (Obj [(js "limit", Num (Int 2)); (js "after", Str (js "k0"))]) w1
      = (Ok (answer (mkQuery (Some (js "k0")) None 2) entries), w3)
  | _ => False
  end.
Proof.
  destruct (buildArchiveIndex (H := checksumSha256) (context_value Memory.context) Memory.source ∅) as [[root|e] w1] eqn:Hb.
  - apply (archive_index_roundtrip (H := checksumSha256) Memory.context Memory.source ∅ w1 w1 root
      (Obj [(js "limit", Num (Int 2)); (js "after", Str (js "k0"))]) (mkQuery (Some (js "k0")) None 2)
      Memory.context_valid Memory.source_tame).
    + vm_compute. discriminate.
    + exact Hb.
    + reflexivity.
    + vm_compute. reflexivity.
  - pose proof Memory.source_builds as Hok. rewrite Hb in Hok. discriminate Hok.
Defined.
