(* ===== verification/ArchiveTrust.v ===== *)
(** * History archive: untrusted stores

    A root that was built names its content: a reader who takes pages from a
    store it does not trust gets an error or exactly what was built, as long
    as that store does not answer with a second preimage of a page. *)
From stdpp Require Import base numbers list gmap strings sorting.
From Stdlib Require Import ZArith NArith Lia.
From S2P Require Import Prelude Unicode Json Base64 Digest Archive ArchiveSize ArchiveBuild ArchiveTotal ArchiveRead.
Local Open Scope Z_scope.

Section Agreement.
Context `{Sha256} {W : Type} `{ArchiveObjectStore W}.
Variable context : ArchiveTreeContext.
Variable query : ArchiveIndexQuery.
Variable v : gmap (list N) (list N).

(** The store never passes other bytes off as one of the objects of [v]. *)
Definition noSecondPreimage : Prop := forall id maximum binding (w : W) bytes bytes',
  (store_read id maximum binding w).1 = Ok (Some bytes) -> v !! id = Some bytes' ->
  sha256Base64Url bytes = sha256Base64Url bytes' -> bytes = bytes'.
Hypothesis resistant : noSecondPreimage.

(** [m] in the memory of [v] and [m'] in the store give the same value if both give one. *)
Definition agrees {A} (m : M (gmap (list N) (list N)) A) (m' : M W A) : Prop :=
  forall a v1 a' w w1, m v = (Ok a, v1) -> m' w = (Ok a', w1) -> v1 = v /\ a = a'.

Lemma agrees_ret {A} (a : A) : agrees (mret a) (mret a).
Proof. intros ?????. cbn. unfold mret, M_ret. by intros; simplify_eq. Qed.

Lemma agrees_lift {A} (r : result A) : agrees (liftM r) (liftM r).
Proof. intros ?????. unfold liftM. by intros; simplify_eq. Qed.

Lemma agrees_require b e : agrees (requireM b e) (requireM b e).
Proof. destruct b; [apply agrees_ret|by intros ?????]. Qed.

Lemma agrees_bind {A B} (m : M _ A) m' (k : A -> M _ B) (k' : A -> M _ B) :
  agrees m m' -> (forall a, agrees (k a) (k' a)) -> agrees (m ≫= k) (m' ≫= k').
Proof.
  intros Hm Hk b v1 b' w w1. unfold mbind, M_bind.
  destruct (m v) as [[a|] v2] eqn:H1; [|done]. destruct (m' w) as [[a'|] w2] eqn:H2; [|done].
  destruct (Hm _ _ _ _ _ H1 H2) as [-> ->]. apply Hk.
Qed.

Lemma checkPage_digest root bytes page :
  checkPage context root bytes = Ok page -> sha256Base64Url bytes = root_objectId root.
Proof.
  unfold checkPage. case_match; [done|]. case_match eqn:Hd; [done|]. intros _.
  by apply negb_false_iff, bool_decide_eq_true in Hd.
Qed.

Lemma agrees_loadPage root : agrees (loadPage context root) (loadPage context root).
Proof.
  intros page v1 page' w w1. unfold loadPage, mbind, M_bind. cbn [store_read Memory.memoryStore].
  destruct (v !! root_objectId root) as [bytes|] eqn:Hb; [|done].
  destruct (store_read _ _ _ w) as [[[bytes'|]|] w2] eqn:Hr; [|done..]. unfold liftM.
  destruct (checkPage context root bytes) as [p|] eqn:Hp; [|done].
  destruct (checkPage context root bytes') as [p'|] eqn:Hp'; [|done].
  assert (bytes' = bytes) as ->; [|rewrite Hp in Hp'; by intros; simplify_eq].
  eapply resistant; [by rewrite Hr|exact Hb|].
  by rewrite (checkPage_digest _ _ _ Hp), (checkPage_digest _ _ _ Hp').
Qed.

Lemma agrees_visitChildren vis vis' children st :
  (forall root st, agrees (vis root st) (vis' root st)) ->
  agrees (visitChildren query vis children st) (visitChildren query vis' children st).
Proof.
  intros Hv. revert st. induction children as [|c children IH]; intros st; cbn [visitChildren]; [apply agrees_ret|].
  apply agrees_bind; [destruct (intersects query c); [apply Hv|apply agrees_ret]|].
  intros st'. destruct (overLimit query st'.1); [apply agrees_ret|apply IH].
Qed.

Lemma agrees_visit fuel root st : agrees (visit context query fuel root st) (visit context query fuel root st).
Proof.
  revert root st. induction fuel as [|fuel IH]; intros root [entries seen]; cbn [visit].
  { intros ?????. done. }
  apply agrees_bind; [apply agrees_require|]. intros _. apply agrees_bind; [apply agrees_loadPage|].
  intros [|]; [apply agrees_ret|]. by apply agrees_visitChildren.
Qed.
End Agreement.

Lemma agrees_read `{Sha256} {W} `{ArchiveObjectStore W} v (contextInput rootInput queryInput : value) :
  noSecondPreimage (W := W) v ->
  agrees v (readArchiveIndex contextInput rootInput queryInput)
    (readArchiveIndex (W := W) contextInput rootInput queryInput).
Proof.
  intros Hres. unfold readArchiveIndex. do 3 (apply agrees_bind; [apply agrees_lift|intros ?]).
  apply agrees_bind; [by apply agrees_visit|]. intros st. apply agrees_ret.
Qed.

(** A store that serves a fixed set of objects and garbage for all others. *)
Definition fixedStore (v : gmap (list N) (list N)) : ArchiveObjectStore unit := {|
  store_read id _ _ := mret (Some (default [0%N] (v !! id)));
  store_write _ _ := throwM "read only" |}.

Lemma fixedStore_reads :
  match buildArchiveIndex (H := checksumSha256) (context_value Memory.context) Memory.source ∅ with
  | (Ok root, w1) =>
      isOk (readArchiveIndex (H := checksumSha256) (store := fixedStore w1) (context_value Memory.context) (root_value root)
              (Obj [(js "prefix", Str (js "k1"))]) tt).1
  | _ => false
  end = true.
Proof. vm_compute. reflexivity. Qed.

(** C15. A root authenticates its content.  After a build that returned
    [root], a query on that root against any other store either fails or
    returns exactly the built entries the query selects, unless that store
    answers with different bytes of the same digest as one of the built
    pages. *)
Theorem archive_read_authenticated `{Sha256} {W W'} `{ImmutableStore W} (untrusted : ArchiveObjectStore W')
    context source (w w1 : W) (u u1 : W') root queryInput query result :
  context_ok context -> Forall tame source -> Z.of_nat (length source) <= MAX_SAFE_INTEGER ->
  buildArchiveIndex (context_value context) source w = (Ok root, w1) ->
  noSecondPreimage (W := W') (view w1) -> captureQuery queryInput = Ok query ->
  readArchiveIndex (context_value context) (root_value root) queryInput u = (Ok result, u1) ->
  exists entries, mapR captureEntry source = Ok entries /\ result = answer query entries.
Proof.
  intros Hc Ht Hlen Hb Hres Hq Hread.
  destruct (build_denotes context w w1 source root Hc Ht Hb) as (entries & h & Hes & Ho & Hd).
  pose proof (runs_build context Hc source entries w Ht Hes Ho Hlen) as Hr. unfold runs in Hr. rewrite Hb in Hr.
  pose proof (mapR_entries_ok _ _ Ht Hes) as He.
  destruct (denotes_readable context Hc (view w1) h root entries Ho He Hd) as (_ & Hheight & _).
  destruct (returns_read (W := gmap (list N) (list N)) context Hc query (proj1 (captureQuery_limit _ _ Hq)) (view w1) (view w1)
    h root entries queryInput) as (expected & v1 & Hmem & -> & _); try done; [lia|].
  exists entries. split; [done|]. by destruct (agrees_read (view w1) _ _ _ Hres _ _ _ _ _ Hmem Hread).
Qed.

Lemma archive_read_authenticated_witness :
  match buildArchiveIndex (H := checksumSha256) (context_value Memory.context) Memory.source ∅ with
  | (Ok root, w1) =>
      match readArchiveIndex (H := checksumSha256) (store := fixedStore w1) (context_value Memory.context) (root_value root)
              (Obj [(js "prefix", Str (js "k1"))]) tt with
      | (Ok result, _) => exists entries, mapR captureEntry Memory.source = Ok entries /\
          result = answer (mkQuery None (Some (js "k1")) 64) entries
      | _ => False
      end
  | _ => False
  end.
Proof.
  destruct (buildArchiveIndex (H := checksumSha256) (context_value Memory.context) Memory.source ∅) as [[root|e] w1] eqn:Hb.
  - destruct (readArchiveIndex (store := fixedStore w1) _ _ _ tt) as [[result|e] u1] eqn:Hr.
    + apply (archive_read_authenticated (H := checksumSha256) (fixedStore w1) Memory.context Memory.source ∅ w1 tt u1 root
        (Obj [(js "prefix", Str (js "k1"))]) (mkQuery None (Some (js "k1")) 64) result
        Memory.context_valid Memory.source_tame).
      * vm_compute. discriminate.
      * exact Hb.
      * intros id maximum binding u bytes bytes' Hread Hv _. cbn in Hread, Hv. rewrite Hv in Hread. by injection Hread.
      * vm_compute. reflexivity.
      * exact Hr.
    + pose proof fixedStore_reads as Hok. rewrite Hb, Hr in Hok. discriminate Hok.
  - pose proof Memory.source_builds as Hok. rewrite Hb in Hok. discriminate Hok.
Defined.
