(* ===== verification/ArchiveBytes.v ===== *)
(** * History archive: byte streams

    [writeArchiveBytes] cuts a stream of chunks into parts of
    [MAX_ARCHIVE_PART_BYTES], stores them and indexes them under their number;
    [readArchiveBytes] yields the same bytes again. *)
From stdpp Require Import base numbers list gmap strings sorting.
From Stdlib Require Import ZArith NArith Lia.
From S2P Require Import Prelude Unicode Json Base64 Digest Archive ArchiveSize ArchiveBuild ArchiveTotal ArchiveRead.
Local Open Scope Z_scope.

(** ** Part keys *)
Section Keys.
Local Open Scope N_scope.

(** [n] in [width] hexadecimal digits. *)
Fixpoint hexFixed (width : nat) (n : N) : list N :=
  match width with O => [] | S width => hexFixed width (n / 16) ++ [hexDigit (n mod 16)] end.

Lemma hexFixed_length width n : length (hexFixed width n) = width.
Proof. revert n. induction width as [|width IH]; intros n; [done|]. cbn. rewrite length_app, IH. cbn. lia. Qed.

Lemma hexFixed_zero width : hexFixed width 0 = replicate width 48.
Proof.
  induction width as [|width IH]; [done|]. cbn [hexFixed]. change (0 / 16) with 0. rewrite IH.
  by rewrite <- replicate_cons_app.
Qed.

Lemma hexText_fixed fuel width n :
  n < 16 ^ N.of_nat fuel -> (fuel <= width)%nat -> (0 < fuel)%nat ->
  (length (hexText fuel n) <= width)%nat /\ replicate (width - length (hexText fuel n)) 48 ++ hexText fuel n = hexFixed width n.
Proof.
  revert width n. induction fuel as [|fuel IH]; intros width n Hn Hw Hf; [lia|].
  destruct width as [|width]; [lia|]. cbn [hexText hexFixed]. destruct (N.ltb_spec n 16) as [Hlt|Hge].
  - rewrite (N.div_small n 16), (N.mod_small n 16), hexFixed_zero by lia. cbn [length]. split; [lia|]. by rewrite Nat.sub_succ, Nat.sub_0_r.
  - rewrite Nat2N.inj_succ, N.pow_succ_r' in Hn.
    assert (n / 16 < 16 ^ N.of_nat fuel) as Hq by (apply N.Div0.div_lt_upper_bound; lia).
    assert (0 < fuel)%nat as Hf' by (destruct fuel; [cbn in Hn; lia|lia]).
    destruct (IH width (n / 16) Hq ltac:(lia) Hf') as [Hl He]. rewrite length_app. cbn [length].
    rewrite <- He, app_assoc. split; [lia|]. do 3 f_equal. lia.
Qed.

Lemma hexDigit_mono a b : a < b -> b < 16 -> hexDigit a < hexDigit b.
Proof. intros. unfold hexDigit. destruct (N.ltb_spec a 10), (N.ltb_spec b 10); lia. Qed.

Lemma compareUnits_snoc a b x y :
  length a = length b ->
  compareUnits (a ++ [x]) (b ++ [y]) = match compareUnits a b with Eq => x ?= y | c => c end.
Proof.
  revert b. induction a as [|u a IH]; intros [|t b] Hl; try done; cbn.
  - by destruct (x ?= y).
  - destruct (u ?= t); [|done..]. apply IH. by injection Hl.
Qed.

Lemma hexFixed_compare width a b :
  a < 16 ^ N.of_nat width -> b < 16 ^ N.of_nat width -> a < b -> str_ltb (hexFixed width a) (hexFixed width b).
Proof.
  unfold str_ltb. revert a b. induction width as [|width IH]; intros a b Ha Hb Hab; [cbn in *; lia|].
  rewrite Nat2N.inj_succ, N.pow_succ_r' in Ha, Hb. cbn [hexFixed].
  rewrite compareUnits_snoc by by rewrite !hexFixed_length.
  assert (a / 16 < 16 ^ N.of_nat width) by (apply N.Div0.div_lt_upper_bound; lia).
  assert (b / 16 < 16 ^ N.of_nat width) by (apply N.Div0.div_lt_upper_bound; lia).
  pose proof (N.Div0.div_mod a 16). pose proof (N.Div0.div_mod b 16).
  pose proof (N.mod_lt a 16 ltac:(lia)). pose proof (N.mod_lt b 16 ltac:(lia)).
  destruct (N.lt_ge_cases (a / 16) (b / 16)) as [Hlt|Hge].
  - specialize (IH (a / 16) (b / 16)). destruct (compareUnits _ _); [|done|]; by exfalso; apply IH.
  - assert (a / 16 = b / 16) as Hq by (apply N.le_antisymm; [apply N.Div0.div_le_mono; lia|done]).
    rewrite Hq, (proj2 (compareUnits_eq _ _)) by done.
    assert (hexDigit (a mod 16) < hexDigit (b mod 16)) as Hd by (apply hexDigit_mono; lia).
    by rewrite (proj2 (N.compare_lt_iff _ _) Hd).
Qed.

Lemma hexFixed_ascii width n : forallb (fun u => (32 <=? u) && (u <? 128)) (hexFixed width n) = true.
Proof.
  revert n. induction width as [|width IH]; intros n; [done|]. cbn [hexFixed]. rewrite forallb_app, IH. cbn.
  pose proof (hexDigit_bounds (n mod 16) ltac:(apply N.mod_lt; lia)).
  by rewrite (proj2 (N.leb_le _ _)), (proj2 (N.ltb_lt _ _)) by lia.
Qed.
End Keys.

Lemma partKey_fixed i : 0 <= i <= MAX_SAFE_INTEGER -> partKey i = hexFixed 16 (Z.to_N i).
Proof.
  intros Hi. unfold partKey. apply hexText_fixed; [|lia|lia].
  change (16 ^ N.of_nat 14)%N with 72057594037927936%N. unfold MAX_SAFE_INTEGER in Hi. lia.
Qed.

Lemma partKey_lt i j : 0 <= i < j -> j <= MAX_SAFE_INTEGER -> str_ltb (partKey i) (partKey j).
Proof.
  intros Hi Hj. rewrite !partKey_fixed by lia. unfold MAX_SAFE_INTEGER in Hj.
  apply hexFixed_compare; [| |lia]; change (16 ^ N.of_nat 16)%N with 18446744073709551616%N; lia.
Qed.

(** ** Writing *)
Fixpoint entries_from `{Sha256} (index : Z) (parts : list (list N)) : list ArchiveIndexEntry :=
  match parts with
  | [] => []
  | part :: parts => mkIndexEntry (partKey index) (sha256Base64Url part) :: entries_from (index + 1) parts
  end.

Definition part_entries `{Sha256} (parts : list (list N)) : list ArchiveIndexEntry := entries_from 0 parts.

Lemma entries_from_app `{Sha256} i parts parts' :
  entries_from i (parts ++ parts') = entries_from i parts ++ entries_from (i + Z.of_nat (length parts)) parts'.
Proof.
  revert i. induction parts as [|p parts IH]; intros i; cbn [entries_from app length]; [by rewrite Z.add_0_r|].
  rewrite IH. do 3 f_equal. lia.
Qed.

Lemma length_entries_from `{Sha256} i parts : length (entries_from i parts) = length parts.
Proof. revert i. induction parts as [|p parts IH]; intros i; [done|]. cbn. by rewrite IH. Qed.

Abbreviation partMax := (Z.to_nat MAX_ARCHIVE_PART_BYTES).

Lemma lookup_entries_from `{Sha256} i parts k :
  entries_from i parts !! k = (fun part => mkIndexEntry (partKey (i + Z.of_nat k)) (sha256Base64Url part)) <$> parts !! k.
Proof.
  revert i k. induction parts as [|p parts IH]; intros i k; [done|]. destruct k as [|k]; cbn [entries_from lookup list_lookup].
  - by rewrite Z.add_0_r.
  - rewrite IH. by replace (i + 1 + Z.of_nat k) with (i + Z.of_nat (S k)) by lia.
Qed.

Lemma ascii_good s maximum :
  forallb (fun u => (32 <=? u) && (u <? 128))%N s = true -> (0 < length s)%nat -> Z.of_nat (length s) <= maximum ->
  goodText s maximum.
Proof.
  intros Ha Hl Hm. pose proof (ulen_ascii s Ha) as Hu. pose proof (clean_ascii s Ha) as (Hun & Hw & _)%clean_wellFormed.
  apply text_good; [done|]. unfold text. fold (ulen s). change (byteLength (TextEncoder_encode s)) with (ulen s). rewrite Hu.
  rewrite (proj2 (Z.ltb_ge _ _)) by lia. destruct (length s) eqn:Hlen; [lia|]. cbn [negb andb Nat.eqb orb].
  destruct (existsb isSurrogate (codePoints s)) eqn:Hs; [|done]. exfalso.
  unfold wellFormed in Hw. apply existsb_exists in Hs as (c & Hin & Hc).
  apply Is_true_true in Hw. rewrite forallb_forall in Hw. apply Hw in Hin. by rewrite Hc in Hin.
Qed.

Section WriteParts.
Context `{Sha256} {W : Type} `{ImmutableStore W}.
Variable context : ArchiveTreeContext.
Hypothesis context_valid : context_ok context.

Lemma part_entry_ok i part : 0 <= i <= MAX_SAFE_INTEGER -> entry_ok (mkIndexEntry (partKey i) (sha256Base64Url part)).
Proof.
  intros Hi. split; cbn [ent_key ent_objectId]; [|apply sha256Base64Url_pattern]. rewrite partKey_fixed by done.
  apply ascii_good; [apply hexFixed_ascii|rewrite hexFixed_length; lia|rewrite hexFixed_length; lia].
Qed.

Lemma tame_entry e : entry_ok e -> tame (entry_value e).
Proof. intros He. apply plain_tame. by apply plain_entry. Qed.

(** The parts are in the store and in the index. *)
Record parts_ok (w : W) (parts : list (list N)) (wr : Writer) : Prop := {
  parts_count : wr_partCount wr = Z.of_nat (length parts);
  parts_stored : Forall (fun part => view w !! sha256Base64Url part = Some part) parts;
  parts_builder : builder_ok context (Z.of_nat (length parts)) (wr_builder wr);
  parts_index : builder_denotes context (view w) (wr_builder wr) (part_entries parts) }.

Lemma part_entries_snoc parts part :
  part_entries (parts ++ [part]) =
  part_entries parts ++ [mkIndexEntry (partKey (Z.of_nat (length parts))) (sha256Base64Url part)].
Proof. unfold part_entries. by rewrite entries_from_app. Qed.

Lemma parts_mono w w' parts wr : view w ⊆ view w' -> parts_ok w parts wr -> parts_ok w' parts wr.
Proof.
  intros Hv [Hc Hs Hb Hi]. split; [done| |done|exact (builder_mono context _ _ _ _ Hv Hi)].
  eapply Forall_impl; [exact Hs|]. intros part Hp. cbv beta in *. by eapply lookup_weaken.
Qed.

Lemma runs_save w parts part wr Q :
  parts_ok w parts wr -> Z.of_nat (length parts) + 1 <= MAX_SAFE_INTEGER ->
  (forall wr' w', parts_ok w' (parts ++ [part]) wr' -> wr_buffer wr' = [] -> wr_byteLength wr' = wr_byteLength wr -> Q wr' w') ->
  runs (storeFails (W := W)) (save context part wr) w Q.
Proof.
  intros Hp Hn HQ. unfold save. apply runs_bind. unfold runs at 1.
  destruct (store_write (sha256Base64Url part) part w) as [[[]|e] w1] eqn:Hw; [|by eexists _, _, w; rewrite Hw].
  pose proof (write_view (sha256Base64Url part) part w) as Hgrow. pose proof (write_stored (sha256Base64Url part) part w) as Hst.
  rewrite Hw in Hgrow, Hst. cbn in Hgrow, Hst. specialize (Hst eq_refl).
  pose proof (parts_mono w w1 parts wr Hgrow Hp) as [Hc Hs Hb Hi]. rewrite Hc.
  pose proof (part_entry_ok (Z.of_nat (length parts)) part ltac:(lia)) as He.
  apply runs_bind. eapply runs_weaken; [eapply (runs_safe grows);
    [eapply (runs_feed context context_valid _ _ _ _ _ (fun b' _ => builder_ok context (Z.of_nat (length parts) + 1) b'));
      [exact Hb|lia|by apply tame_entry|by apply captureEntry_value| |done]
    |by apply safe_feed; [|apply tame_entry|]]|].
  - intros p Hprev. destruct Hi as (es & _ & _ & _ & Hlast & _). rewrite Hlast in Hprev.
    destruct parts as [|part' parts _] using rev_ind; [done|]. rewrite part_entries_snoc, last_snoc in Hprev.
    injection Hprev as <-. cbn. rewrite length_app in *. cbn in *. apply partKey_lt; lia.
  - cbv beta. intros b' w2 (Hb' & (e & Hcap & Hi') & Hgrow2). rewrite captureEntry_value in Hcap by done.
    injection Hcap as <-. apply runs_ret, HQ; [|done|done]. split; cbn [wr_partCount wr_builder].
    + rewrite length_app. cbn. lia.
    + apply Forall_app. split; [|repeat constructor; by eapply lookup_weaken].
      eapply Forall_impl; [exact Hs|]. intros p Hps. cbv beta in *. by eapply lookup_weaken.
    + rewrite length_app. cbn [length]. by replace (Z.of_nat (length parts + 1)) with (Z.of_nat (length parts) + 1) by lia.
    + by rewrite part_entries_snoc.
Qed.

(** All parts but the last one have the full size. *)
Definition full (parts : list (list N)) : Prop := Forall (fun part => length part = partMax) parts.

Lemma partMax_pos : (0 < partMax)%nat.
Proof. unfold MAX_ARCHIVE_PART_BYTES. lia. Qed.

Lemma full_length parts : full parts -> length (concat parts) = (length parts * partMax)%nat.
Proof. induction 1 as [|p parts Hp _ IH]; [done|]. cbn [concat]. rewrite length_app, IH, Hp. cbn [length]. lia. Qed.

Lemma full_count parts : full parts -> (length parts <= length (concat parts))%nat.
Proof. intros Hf. rewrite full_length by done. pose proof partMax_pos. nia. Qed.

Lemma runs_fill fuel bytes w parts wr Q :
  (length bytes <= fuel)%nat -> parts_ok w parts wr -> full parts -> (length (wr_buffer wr) < partMax)%nat ->
  Z.of_nat (length (concat parts ++ wr_buffer wr ++ bytes)) <= MAX_SAFE_INTEGER ->
  (forall parts' wr' w', parts_ok w' parts' wr' -> full parts' -> (length (wr_buffer wr') < partMax)%nat ->
    concat parts' ++ wr_buffer wr' = concat parts ++ wr_buffer wr ++ bytes -> wr_byteLength wr' = wr_byteLength wr -> Q wr' w') ->
  runs (storeFails (W := W)) (fill context fuel bytes wr) w Q.
Proof.
  revert bytes w parts wr. induction fuel as [|fuel IH]; intros bytes w parts wr Hfuel Hp Hf Hb Hn HQ; cbn [fill].
  { destruct bytes; [|cbn in Hfuel; lia]. apply runs_ret. eapply HQ; try done. by rewrite app_nil_r. }
  destruct (Nat.eqb_spec (length bytes) 0) as [Hz|Hnz].
  { apply nil_length_inv in Hz as ->. apply runs_ret. eapply HQ; try done. by rewrite app_nil_r. }
  set (n := Nat.min (length bytes) (partMax - length (wr_buffer wr))).
  assert (1 <= n <= length bytes)%nat as Hn1 by lia.
  assert (take n bytes ++ drop n bytes = bytes) as Hcut by apply take_drop.
  set (buffer := wr_buffer wr ++ take n bytes). assert (length buffer = length (wr_buffer wr) + n)%nat as Hlen.
  { unfold buffer. rewrite length_app, length_take. lia. }
  rewrite !length_app in Hn. pose proof (full_count parts Hf). cbv zeta. apply runs_bind.
  destruct (Z.eqb_spec (byteLength buffer) MAX_ARCHIVE_PART_BYTES) as [Heq|Hneq]; unfold byteLength in *.
  - apply (runs_save w parts); [by destruct Hp|lia|]. intros wr' w' Hp' Hb' Hl'. cbn [wr_byteLength] in Hl'.
    eapply (IH _ _ (parts ++ [buffer])); [rewrite length_drop; lia|done| | | |].
    + apply Forall_app. split; [done|]. constructor; [lia|done].
    + rewrite Hb'. apply partMax_pos.
    + rewrite concat_app, Hb'. cbn [concat app]. rewrite app_nil_r, !length_app, length_drop, Hlen. lia.
    + intros parts2 wr2 w2 Hp2 Hf2 Hb2 Hc2 Hl2. eapply HQ; [done|done|done| |congruence].
      rewrite Hc2, concat_app, Hb'. cbn [concat app]. unfold buffer. rewrite app_nil_r, <- !app_assoc. by rewrite Hcut.
  - apply runs_ret. eapply (IH _ _ parts); cbn [wr_buffer]; [rewrite length_drop; lia|by destruct Hp|done|lia| |].
    + rewrite !length_app, length_drop, Hlen. lia.
    + intros parts2 wr2 w2 Hp2 Hf2 Hb2 Hc2 Hl2. eapply HQ; [done|done|done| |done].
      rewrite Hc2. unfold buffer. rewrite <- app_assoc. by rewrite Hcut.
Qed.

Lemma runs_writeChunks source w parts wr Q :
  Forall (fun chunk => byteLength chunk <= MAX_ARCHIVE_PART_BYTES) source ->
  parts_ok w parts wr -> full parts -> (length (wr_buffer wr) < partMax)%nat ->
  wr_byteLength wr = byteLength (concat parts ++ wr_buffer wr) ->
  byteLength (concat parts ++ wr_buffer wr ++ concat source) <= MAX_SAFE_INTEGER ->
  (forall parts' wr' w', parts_ok w' parts' wr' -> full parts' -> (length (wr_buffer wr') < partMax)%nat ->
    concat parts' ++ wr_buffer wr' = concat parts ++ wr_buffer wr ++ concat source ->
    wr_byteLength wr' = byteLength (concat parts' ++ wr_buffer wr') -> Q wr' w') ->
  runs (storeFails (W := W)) (writeChunks context source wr) w Q.
Proof.
  intros Hs. revert w parts wr. induction Hs as [|chunk source Hc _ IH]; intros w parts wr Hp Hf Hb Hl Hn HQ; cbn [writeChunks].
  { apply runs_ret. eapply HQ; try done. cbn. by rewrite app_nil_r. }
  cbn [concat] in *. unfold byteLength in *. rewrite !length_app in Hn. rewrite length_app in Hl.
  apply runs_bind, runs_require; [by apply negb_true_iff, Z.ltb_ge|]. cbv zeta.
  apply runs_bind, runs_require; [apply safe_in; lia|]. apply runs_bind.
  eapply (runs_fill _ _ _ parts); cbn [wr_buffer wr_byteLength]; [done|by destruct Hp|done|done|rewrite !length_app; lia|].
  intros parts' wr' w' Hp' Hf' Hb' Hc' Hl'. cbn [wr_byteLength] in Hl'.
  assert (length (concat parts') + length (wr_buffer wr') = length (concat parts) + (length (wr_buffer wr) + length chunk))%nat as Hlen'.
  { by rewrite <- !length_app, Hc'. }
  apply (IH w' parts'); [done|done|done|rewrite length_app; lia|rewrite !length_app; lia|].
  intros parts2 wr2 w2 Hp2 Hf2 Hb2 Hc2 Hl2. apply (HQ parts2); try done. by rewrite Hc2, app_assoc, Hc', <- !app_assoc.
Qed.

(** The parts of a stream: full ones, and a shorter last one. *)
Definition chopped (parts : list (list N)) : Prop :=
  exists fulls rest, parts = fulls ++ rest /\ full fulls /\
    (rest = [] \/ exists part, rest = [part] /\ (0 < length part < partMax)%nat).

Record written (w : W) (source : list (list N)) (ref : ArchiveBytesReference) (parts : list (list N)) : Prop := {
  written_bytes : concat parts = concat source;
  written_parts : chopped parts;
  written_stored : Forall (fun part => view w !! sha256Base64Url part = Some part) parts;
  written_order : keys_ordered (part_entries parts);
  written_index : exists h, denotes context (view w) h (bytes_root ref) (part_entries parts);
  written_height : 0 <= root_height (bytes_root ref) <= 18;
  written_count : bytes_partCount ref = Z.of_nat (length parts);
  written_length : bytes_byteLength ref = byteLength (concat source) }.

Lemma runs_finish_parts w parts wr Q :
  parts_ok w parts wr -> Z.of_nat (length parts) <= MAX_SAFE_INTEGER ->
  (forall root h w', denotes context (view w') h root (part_entries parts) -> 0 <= root_height root <= 18 ->
    view w ⊆ view w' -> Q root w') ->
  runs (storeFails (W := W)) (finish context (wr_builder wr)) w Q.
Proof.
  intros [Hc Hs Hb Hi] Hn HQ. eapply runs_weaken; [eapply (runs_safe grows) with (Q := fun root _ => 0 <= root_height root <= 18);
    [|by apply (safe_finish context w (wr_builder wr) (part_entries parts))]|].
  - destruct parts as [|part parts].
    + destruct Hi as (es & Hes & _ & _ & _ & _ & _ & Hnil).
      eapply runs_weaken; [apply (runs_finish_empty context context_valid)|]; [by destruct es|by apply Hnil|].
      intros root w' Hr. exact (proj2 Hr).
    + eapply runs_weaken; [apply (runs_finish context context_valid (Z.of_nat (length (part :: parts)))); [done|cbn in *; lia]|].
      intros root w' Hr. exact (proj2 Hr).
  - cbv beta. intros root w' (Hh & (h & Hd) & Hg). by eapply HQ.
Qed.

Lemma parts_ordered w parts wr : parts_ok w parts wr -> keys_ordered (part_entries parts).
Proof. intros [_ _ _ (es & _ & _ & _ & _ & Ho & _)]. done. Qed.

Lemma runs_write source w :
  Forall (fun chunk => byteLength chunk <= MAX_ARCHIVE_PART_BYTES) source ->
  byteLength (concat source) <= MAX_SAFE_INTEGER ->
  runs (storeFails (W := W)) (writeArchiveBytes (context_value context) source) w
    (fun ref w' => exists parts, written w' source ref parts).
Proof.
  intros Hs Hn. unfold writeArchiveBytes.
  apply runs_bind. eapply runs_lift; [by apply captureContext_value|]. apply runs_bind.
  eapply (runs_writeChunks _ _ []); [done| |constructor|apply partMax_pos|done|done|].
  { split; cbn [wr_partCount wr_builder]; [done|constructor| |].
    - split; cbn [startBuilder b_leaf b_levels items length]; [by apply startLeaf_ok|lia|done|done|done].
    - exists []. split_and!; try done; [cbn; lia|constructor]. }
  intros parts wr w1 Hp Hf Hb Hc Hl. cbn [concat app wr_buffer] in Hc. apply runs_bind.
  eapply runs_weaken with (Q := fun wr' w' => exists parts', parts_ok w' parts' wr' /\ chopped parts' /\
    concat parts' = concat source /\ wr_byteLength wr' = byteLength (concat source)).
  - destruct (Nat.eqb_spec (length (wr_buffer wr)) 0) as [Hz|Hnz].
    + apply nil_length_inv in Hz as Hz. rewrite Hz, app_nil_r in Hc, Hl. apply runs_ret. exists parts. split_and!; try done.
      * exists parts, []. split_and!; [by rewrite app_nil_r|done|by left].
      * congruence.
    + pose proof (full_count parts Hf) as Hfc. assert (length (concat parts) + length (wr_buffer wr) = length (concat source))%nat as Hlen
        by by rewrite <- length_app, Hc. unfold byteLength in Hn.
      apply (runs_save w1 parts); [done|lia|]. intros wr' w2 Hp' _ Hl'. exists (parts ++ [wr_buffer wr]).
      split_and!; [done| |by rewrite concat_app; cbn; rewrite app_nil_r|congruence].
      exists parts, [wr_buffer wr]. split_and!; [done|done|]. right. eexists. split; [done|lia].
  - intros wr' w2 (parts' & Hp' & Hch & Hcat & Hl').
    assert (length parts' <= length (concat parts'))%nat as Hcount.
    { destruct Hch as (fulls & rest & -> & Hfull & Hrest). pose proof (full_count fulls Hfull).
      rewrite concat_app, !length_app. destruct Hrest as [->|(part & -> & Hpart)]; cbn; [lia|]. rewrite app_nil_r. lia. }
    rewrite Hcat in Hcount. unfold byteLength in Hn.
    apply runs_bind. apply (runs_finish_parts w2 parts'); [done|lia|]. intros root h w3 Hd Hh Hg. apply runs_ret.
    exists parts'. pose proof (parts_ordered _ _ _ Hp') as Ho. apply (parts_mono _ _ _ _ Hg) in Hp' as [Hpc Hps _ _].
    by split; cbn [bytes_root bytes_partCount bytes_byteLength]; eauto.
Qed.
End WriteParts.

(** ** Reading *)
Section ReadParts.
Context `{Sha256} {W : Type} `{AvailableStore W}.
Variable context : ArchiveTreeContext.
Hypothesis context_valid : context_ok context.
Variables (w0 : W) (source : list (list N)) (ref : ArchiveBytesReference) (parts : list (list N)).
Hypothesis ready : written context w0 source ref parts.
Hypothesis total_bound : byteLength (concat source) <= MAX_SAFE_INTEGER.

Lemma chopped_part pre part post :
  chopped (pre ++ part :: post) ->
  byteLength part = Z.min MAX_ARCHIVE_PART_BYTES (byteLength (concat (part :: post))).
Proof.
  intros (fulls & rest & Heq & Hf & Hrest). cbn [concat]. unfold byteLength. rewrite length_app.
  assert (fulls = pre ++ part :: post /\ rest = [] \/
    (exists x, rest = [x] /\ (0 < length x < partMax)%nat /\
      ((post = [] /\ part = x) \/ exists post', post = post' ++ [x] /\ fulls = pre ++ part :: post'))) as Hcase.
  { destruct Hrest as [->|(x & -> & Hx)]; [left; by rewrite app_nil_r in Heq|right]. exists x. split; [done|]. split; [done|].
    destruct post as [|y post _] using rev_ind.
    - left. by apply app_inj_tail in Heq as [_ ->].
    - right. exists post. rewrite app_comm_cons, app_assoc in Heq. by apply app_inj_tail in Heq as [<- ->]. }
  assert (Z.of_nat partMax = MAX_ARCHIVE_PART_BYTES) as HP by (unfold MAX_ARCHIVE_PART_BYTES; lia).
  destruct Hcase as [[-> _]|(x & _ & Hx & [[-> ->]|(post' & -> & ->)])].
  - apply Forall_app in Hf as [_ Hf]. apply Forall_cons in Hf as [-> _]. lia.
  - cbn. lia.
  - apply Forall_app in Hf as [_ Hf]. apply Forall_cons in Hf as [-> _]. lia.
Qed.

Lemma chopped_count : chopped parts -> Z.of_nat (length parts) = partsFor (byteLength (concat parts)).
Proof.
  intros (fulls & rest & -> & Hf & Hrest). unfold partsFor, byteLength. rewrite concat_app, !length_app, (full_length _ Hf).
  pose proof partMax_pos. assert (Z.of_nat partMax = MAX_ARCHIVE_PART_BYTES) as HP by (unfold MAX_ARCHIVE_PART_BYTES; lia).
  destruct Hrest as [->|(part & -> & Hp)]; cbn [concat length app]; rewrite ?app_nil_r, !Nat2Z.inj_add, Nat2Z.inj_mul, HP.
  - apply (Z.div_unique _ _ _ (MAX_ARCHIVE_PART_BYTES - 1)); lia.
  - apply (Z.div_unique _ _ _ (Z.of_nat (length part) - 1)); lia.
Qed.

Lemma part_count_bound : Z.of_nat (length parts) <= MAX_SAFE_INTEGER.
Proof.
  destruct ready as [Hb Hp _ _ _ _ _ _]. pose proof (chopped_count Hp) as Hc. rewrite Hb in Hc. rewrite Hc. unfold partsFor.
  unfold byteLength, MAX_ARCHIVE_PART_BYTES, MAX_SAFE_INTEGER in *. apply Z.div_le_upper_bound; lia.
Qed.

Lemma parts_entries_ok : Forall entry_ok (part_entries parts).
Proof.
  pose proof part_count_bound as Hn. unfold part_entries. revert Hn.
  enough (forall i, 0 <= i -> i + Z.of_nat (length parts) <= MAX_SAFE_INTEGER -> Forall entry_ok (entries_from i parts)) as Hall
    by (intros; apply Hall; lia).
  clear. induction parts as [|p ps IH]; intros i Hi Hn; [constructor|]. cbn [length entries_from] in *.
  constructor; [apply part_entry_ok; lia|apply IH; lia].
Qed.

Lemma captureBytes_ok : captureBytesReference (bytes_value ref) = Ok ref.
Proof.
  destruct ready as [Hb Hp Hs Ho [h Hd] Hh Hc Hl]. pose proof part_count_bound as Hn. pose proof (chopped_count Hp) as Hpc.
  rewrite Hb in Hpc. pose proof parts_entries_ok as He.
  pose proof (capture_denoted context context_valid (view w0) h (bytes_root ref) _ Ho He Hd) as Hcap.
  destruct (denotes_readable context context_valid (view w0) h (bytes_root ref) _ Ho He Hd) as (_ & _ & Hsum).
  unfold captureBytesReference, bytes_value. rewrite exact_ok by done. cbn [mbind result_bind].
  change (member (js "kind") _) with (Str (js "workspace-history-bytes")). change (member (js "version") _) with (int 1).
  change (member (js "byteLength") _) with (int (bytes_byteLength ref)).
  change (member (js "partCount") _) with (int (bytes_partCount ref)).
  change (member (js "root") _) with (root_value (bytes_root ref)). cbn [int].
  rewrite bool_decide_eq_true_2 by done. cbn [negb]. rewrite Hl, Hc.
  rewrite (safe_in (byteLength (concat source))) by (unfold byteLength in *; lia). rewrite safe_in by lia.
  rewrite (proj2 (Z.ltb_ge _ _)) by (unfold byteLength; lia). rewrite (proj2 (Z.eqb_eq _ _) Hpc). cbn [negb orb].
  rewrite Hcap. cbn [mbind result_bind].
  destruct ref as [root total count]. cbn [bytes_root bytes_byteLength bytes_partCount] in *. subst total count.
  destruct (decide (parts = [])) as [Hnil|Hne].
  - rewrite Hnil in *. pose proof (denotes_nil context (view w0) h root Hd) as ->.
    destruct Hd as [(_ & _ & _ & _ & [= Hr]) _]. rewrite <- Hr. cbn. by rewrite Hr.
  - assert (part_entries parts <> []) as Hpe by by destruct parts.
    destruct (Hsum Hpe) as (_ & _ & Hcount & Hfirst & Hlast). unfold part_entries in Hcount. rewrite length_entries_from in Hcount.
    rewrite Hcount, Z.eqb_refl. cbn [negb orb].
    assert (root_first root = Some (partKey 0)) as -> by by (rewrite Hfirst; destruct parts).
    assert (root_last root = Some (partKey (Z.of_nat (length parts) - 1))) as ->.
    { rewrite Hlast. destruct parts as [|p ps _] using rev_ind; [done|]. rewrite part_entries_snoc, last_snoc.
      cbn [fmap option_fmap option_map ent_key]. rewrite length_app. cbn [length]. do 2 f_equal. lia. }
    rewrite !bool_decide_eq_true_2 by done. cbn [negb orb]. by rewrite andb_false_r.
Qed.

(** *** One result page of parts *)
Lemma returns_readParts seg pre post w out Q :
  parts = pre ++ seg ++ post -> view w0 ⊆ view w ->
  (forall w', view w0 ⊆ view w' ->
    Q (Z.of_nat (length (pre ++ seg)), byteLength (concat (pre ++ seg)), out ++ seg) w') ->
  returns (readParts context ref (fun _ => mret tt) (entries_from (Z.of_nat (length pre)) seg) (Z.of_nat (length pre))
             (byteLength (concat pre)) out) w Q.
Proof.
  destruct ready as [Hb Hp Hs Ho _ _ Hc Hl]. revert pre w out.
  induction seg as [|part seg IH]; intros pre w out Hparts Hv HQ; cbn [entries_from readParts].
  { apply returns_ret. specialize (HQ w Hv). by rewrite !app_nil_r in HQ. }
  rewrite Hc. cbn [ent_key ent_objectId].
  apply returns_bind, returns_require.
  { rewrite bool_decide_eq_true_2 by done. cbn [negb orb]. apply negb_true_iff, Z.leb_gt. rewrite Hparts, !length_app. cbn. lia. }
  rewrite Hparts in Hp. cbn [app] in Hp. pose proof (chopped_part _ _ _ Hp) as Hlen.
  assert (view w0 !! sha256Base64Url part = Some part) as Hpart.
  { rewrite Forall_forall in Hs. apply Hs. rewrite Hparts. set_solver. }
  pose proof (read_available (sha256Base64Url part) MAX_ARCHIVE_PART_BYTES
    (Some (mkBinding context KindPart (Z.of_nat (length pre)) (Z.of_nat (length parts)))) w part
    (lookup_weaken _ _ _ _ Hpart Hv) ltac:(lia)) as Hread.
  pose proof (read_view (sha256Base64Url part) MAX_ARCHIVE_PART_BYTES
    (Some (mkBinding context KindPart (Z.of_nat (length pre)) (Z.of_nat (length parts)))) w) as Hgrow.
  apply returns_bind. destruct (store_read _ _ _ w) as [r w1] eqn:Hr. cbn in Hread, Hgrow. subst r.
  exists (Some part), w1. split; [done|]. cbv zeta. apply returns_bind, returns_require.
  { apply Z.eqb_eq. rewrite Hl, <- Hb, Hparts, concat_app. unfold byteLength in *. rewrite length_app. cbn [app] in *. lia. }
  apply returns_bind, returns_require; [by apply bool_decide_eq_true_2|]. apply returns_bind, returns_ret.
  assert (Z.of_nat (length pre) + 1 = Z.of_nat (length (pre ++ [part]))) as -> by (rewrite length_app; cbn; lia).
  assert (byteLength (concat pre) + byteLength part = byteLength (concat (pre ++ [part]))) as ->.
  { unfold byteLength. rewrite concat_app, length_app. cbn. rewrite app_nil_r. lia. }
  apply IH.
  - by rewrite Hparts, <- app_assoc.
  - by etrans.
  - intros w' Hv'. rewrite <- !app_assoc. cbn [app]. by apply HQ.
Qed.

(** *** The pages of the index *)
Definition afterOf (done_parts : nat) : option (list N) :=
  match done_parts with O => None | S n => Some (partKey (Z.of_nat n)) end.

Lemma captureQuery_after n :
  Z.of_nat n <= MAX_SAFE_INTEGER -> captureQuery (after_value (afterOf n)) = Ok (mkQuery (afterOf n) None 64).
Proof.
  intros Hn. destruct n as [|n]; [reflexivity|]. unfold captureQuery, after_value. cbn [afterOf].
  change (forallb _ _) with true. cbn [negb].
  change (member (js "after") _) with (Str (partKey (Z.of_nat n))). change (member (js "prefix") _) with Undefined.
  change (member (js "limit") _) with Undefined. cbn [optionalText].
  pose proof (part_entry_ok (Z.of_nat n) [] ltac:(lia)) as [(_ & _ & _ & Ht) _]. cbn [ent_key] in Ht.
  unfold text in *. change MAX_ARCHIVE_KEY_BYTES with 512. cbn [negb andb orb] in *.
  destruct (length (partKey (Z.of_nat n)) =? 0)%nat; [done|]. cbn [orb] in Ht. by destruct (_ || _).
Qed.

Lemma selected_after pre seg :
  Z.of_nat (length (pre ++ seg)) <= MAX_SAFE_INTEGER ->
  selected (mkQuery (afterOf (length pre)) None 64) (entries_from 0 (pre ++ seg))
  = entries_from (Z.of_nat (length pre)) seg.
Proof.
  intros Hn. rewrite length_app in Hn. rewrite entries_from_app, selected_app. cbn [Z.add].
  assert (forall i qs, 0 <= i -> i + Z.of_nat (length qs) <= Z.of_nat (length pre) ->
    selected (mkQuery (afterOf (length pre)) None 64) (entries_from i qs) = []) as Hlow.
  { intros i qs. revert i. induction qs as [|q qs IH]; intros i Hi Hq; [done|]. cbn [entries_from length] in *.
    unfold selected, matches in *. cbn [List.filter q_after q_prefix ent_key]. destruct (length pre) as [|k] eqn:Hk; [lia|].
    cbn [afterOf]. rewrite andb_true_r. rewrite IH by lia. destruct (decide (i = Z.of_nat k)) as [->|].
    - by rewrite str_ltb_irrefl.
    - pose proof (partKey_lt i (Z.of_nat k) ltac:(lia) ltac:(lia)) as Hlt. destruct (str_ltb (partKey (Z.of_nat k)) (partKey i)) eqn:Hgt; [|done].
      exfalso. pose proof (str_ltb_trans _ _ _ Hlt ltac:(by rewrite Hgt)) as Hirr. by rewrite str_ltb_irrefl in Hirr. }
  assert (forall i qs, Z.of_nat (length pre) <= i -> i + Z.of_nat (length qs) <= MAX_SAFE_INTEGER ->
    selected (mkQuery (afterOf (length pre)) None 64) (entries_from i qs) = entries_from i qs) as Hhigh.
  { intros i qs. revert i. induction qs as [|q qs IH]; intros i Hi Hq; [done|]. cbn [entries_from length] in *.
    unfold selected, matches in *. cbn [List.filter q_after q_prefix ent_key]. rewrite IH by lia.
    destruct (length pre) as [|k] eqn:Hk; [done|]. cbn [afterOf]. rewrite andb_true_r.
    by rewrite (Is_true_eq_true _ (partKey_lt (Z.of_nat k) i ltac:(lia) ltac:(lia))). }
  by rewrite Hlow, Hhigh by lia.
Qed.

Lemma returns_readPages fuel pre rest w Q :
  parts = pre ++ rest -> (length rest < fuel)%nat -> view w0 ⊆ view w ->
  (forall w', Q (Z.of_nat (length parts), byteLength (concat parts), parts) w') ->
  returns (readPages context ref (fun _ => mret tt) fuel (afterOf (length pre)) (Z.of_nat (length pre)) (byteLength (concat pre)) pre) w Q.
Proof.
  revert pre rest w. induction fuel as [|fuel IH]; intros pre rest w Hparts Hfuel Hv HQ; [lia|]. cbn [readPages].
  pose proof part_count_bound as Hn. pose proof parts_entries_ok as He.
  destruct ready as [_ _ _ Ho [h Hd] Hh _ _].
  destruct (denotes_readable context context_valid (view w0) h (bytes_root ref) _ Ho He Hd) as (_ & Hheight & _).
  apply returns_bind. rewrite Hparts in Hn.
  eapply returns_weaken; [eapply (returns_read context context_valid (mkQuery (afterOf (length pre)) None 64) ltac:(done) (view w0));
    [done|exact Ho|exact He|exact Hd|lia|apply captureQuery_after; rewrite length_app in Hn; lia]|].
  cbv beta. intros page w1 [-> Hv1]. unfold answer. cbn [q_limit res_entries res_nextAfter].
  unfold part_entries. rewrite Hparts, selected_after, length_entries_from by done. change (Z.to_nat 64) with 64%nat.
  set (seg := take 64 rest). assert (rest = seg ++ drop 64 rest) as Hrest by (symmetry; apply take_drop).
  assert (take 64 (entries_from (Z.of_nat (length pre)) rest) = entries_from (Z.of_nat (length pre)) seg) as ->.
  { rewrite Hrest at 1. rewrite entries_from_app. destruct (decide (length rest <= 64)%nat) as [Hle|Hgt].
    - rewrite (drop_ge rest) by done. cbn [entries_from]. rewrite app_nil_r. apply firstn_all2. rewrite length_entries_from.
      unfold seg. rewrite length_take. lia.
    - apply take_app_length'. rewrite length_entries_from. unfold seg. rewrite length_take. lia. }
  apply returns_bind. eapply (returns_readParts seg pre (drop 64 rest)); [congruence|done|]. intros w2 Hv2.
  destruct (Nat.ltb_spec 64 (length rest)) as [Hlt|Hge].
  - assert (length seg = 64%nat) as Hseg by (unfold seg; rewrite length_take; lia).
    assert (ent_key <$> entries_from (Z.of_nat (length pre)) rest !! (64 - 1)%nat = afterOf (length (pre ++ seg))) as Hnext.
    { rewrite lookup_entries_from. destruct (rest !! (64 - 1)%nat) as [part|] eqn:Hp; [|apply lookup_ge_None in Hp; lia].
      rewrite length_app, Hseg, Nat.add_comm. cbn [fmap option_fmap option_map ent_key afterOf Nat.add Nat.sub]. do 2 f_equal. lia. }
    rewrite Hnext. destruct (afterOf (length (pre ++ seg))) as [key|] eqn:Hkey; [|rewrite length_app in Hkey; by rewrite Hseg, Nat.add_comm in Hkey].
    rewrite <- Hkey. apply (IH (pre ++ seg) (drop 64 rest)); [by rewrite <- app_assoc, <- Hrest|rewrite length_drop; lia|done|].
    exact HQ.
  - assert (pre ++ seg = parts) as ->; [|apply returns_ret; apply HQ].
    rewrite Hparts. f_equal. unfold seg. by apply firstn_all2.
Qed.
End ReadParts.

Lemma returns_readBytes `{Sha256} {W} `{AvailableStore W} context (w0 w : W) source ref parts :
  context_ok context -> written context w0 source ref parts -> byteLength (concat source) <= MAX_SAFE_INTEGER ->
  view w0 ⊆ view w ->
  returns (readArchiveBytes (context_value context) (bytes_value ref)) w (fun out _ => out = parts).
Proof.
  intros Hc Hw Hn Hv. unfold readArchiveBytes, forArchiveBytes. apply returns_bind. eapply returns_lift; [by apply captureContext_value|].
  apply returns_bind. eapply returns_lift; [by eapply captureBytes_ok|]. apply returns_bind.
  pose proof (written_length _ _ _ _ _ Hw) as Hl. pose proof (written_count _ _ _ _ _ Hw) as Hcount.
  apply (returns_readPages context Hc w0 source ref parts Hw Hn _ [] parts); [done|rewrite Hcount; lia|done|].
  intros w'. apply returns_bind, returns_require; [|by apply returns_ret].
  rewrite Hcount, Hl, (written_bytes _ _ _ _ _ Hw), !Z.eqb_refl. done.
Qed.

(** C16. Byte archives are exact.  Writing chunks of at most a part each, and
    [Number.MAX_SAFE_INTEGER] bytes in all, fails only if the store does; the
    reference it returns then reads back, whatever was written since, as the
    same bytes: the yielded parts concatenate to the chunks, and all parts but
    the last have the full size. *)
Theorem archive_bytes_roundtrip `{Sha256} {W} `{AvailableStore W} context source (w : W) :
  context_ok context -> Forall (fun chunk => byteLength chunk <= MAX_ARCHIVE_PART_BYTES) source ->
  byteLength (concat source) <= MAX_SAFE_INTEGER ->
  match writeArchiveBytes (context_value context) source w with
  | (Throw e, _) => storeFails (W := W) e
  | (Ok ref, w1) => bytes_byteLength ref = byteLength (concat source) /\
      exists parts, concat parts = concat source /\ chopped parts /\
        forall w2, view w1 ⊆ view w2 -> exists w3,
          readArchiveBytes (context_value context) (bytes_value ref) w2 = (Ok parts, w3)
  end.
Proof.
  intros Hc Hs Hn. pose proof (runs_write context Hc source w Hs Hn) as Hr. unfold runs in Hr.
  destruct (writeArchiveBytes (context_value context) source w) as [[ref|e] w1]; [|done].
  destruct Hr as [parts Hw]. split; [by destruct Hw|]. exists parts. split; [by destruct Hw|]. split; [by destruct Hw|].
  intros w2 Hv. destruct (returns_readBytes context w1 w2 source ref parts Hc Hw Hn Hv) as (out & w3 & Hread & ->). by exists w3.
Qed.

Lemma archive_bytes_roundtrip_witness :
  match writeArchiveBytes (H := checksumSha256) (context_value Memory.context) [js "some "; js "bytes"] ∅ with
  | (Throw e, _) => storeFails (W := gmap (list N) (list N)) e
  | (Ok ref, w1) => bytes_byteLength ref = 10 /\
      exists parts, concat parts = js "some bytes" /\ chopped parts /\
        forall w2, view w1 ⊆ view w2 -> exists w3,
          readArchiveBytes (H := checksumSha256) (context_value Memory.context) (bytes_value ref) w2 = (Ok parts, w3)
  end.
Proof.
  apply (archive_bytes_roundtrip (H := checksumSha256) Memory.context [js "some "; js "bytes"] ∅ Memory.context_valid).
  - repeat constructor; vm_compute; discriminate.
  - vm_compute. discriminate.
Defined.
