(* ===== verification/ArchiveStore.v ===== *)
(** * History archive: the object store

    [packages/mesh-replication/src/historyArchiveStore.ts]: archive objects as
    canonical JSON records under write-once keys of the host's key-value
    persistence, and the proof that it is the immutable store the archive
    code asks for. *)
From stdpp Require Import base numbers list gmap strings.
From Stdlib Require Import ZArith NArith Lia.
From S2P Require Import Prelude Unicode Json Base64 Digest Archive ArchiveSize ArchiveBuild ArchiveTotal ArchiveRead.
Local Open Scope Z_scope.

(** The host's persistence and its guard, with whatever else happens to the
    world meanwhile. *)
Class ArchiveObjectPersistence (W : Type) := {
  persistence_read : list N -> M W (option (list N));
  persistence_compareAndSwap : list N -> option (list N) -> list N -> M W bool;
  ensureCurrent : M W unit }.

Definition objectFields : list (list N) := [js "kind"; js "version"; js "objectId"; js "data"].

Definition object_value (objectId data : list N) : value :=
  Obj [(js "kind", Str (js "workspace-history-object")); (js "version", Num (Int 1));
       (js "objectId", Str objectId); (js "data", Str data)].

Section Objects.
Context `{Sha256}.

Definition parseObject (raw objectId : list N) (maximumBytes : Z) : result (list N) :=
  if (maximumBytes + 2) / 3 * 4 + 512 <? Z.of_nat (length raw)
  then Throw "Stored archive object exceeds size bound" else
  match JSON_parse raw with
  | None => Throw "Invalid stored archive object encoding"
  | Some (Obj record) =>
      if negb (length record =? length objectFields)%nat ||
         existsb (fun key => negb (bool_decide (key ∈ map fst record))) objectFields ||
         negb (match member (js "kind") record with
               | Str kind => bool_decide (kind = js "workspace-history-object") | _ => false end) ||
         negb (match member (js "version") record with Num (Int version) => version =? 1 | _ => false end) ||
         negb (match member (js "objectId") record with Str id => bool_decide (id = objectId) | _ => false end)
      then Throw "Invalid stored archive object schema" else
      match member (js "data") record with
      | Str data =>
          if negb (forallb urlChar data) then Throw "Invalid stored archive object schema" else
          if negb (bool_decide (canonicalizeJson (Obj record) = Ok (Some raw)))
          then Throw "Non-canonical stored archive object encoding" else
          match fromBase64Url data with
          | Throw _ => Throw "Invalid stored archive object encoding"
          | Ok bytes =>
              if maximumBytes <? byteLength bytes then Throw "Stored archive object exceeds size limit" else
              if negb (bool_decide (toBase64Url bytes = data))
              then Throw "Non-canonical stored archive object encoding" else
              if negb (bool_decide (sha256Base64Url bytes = objectId))
              then Throw "Stored archive object hash integrity failure" else Ok bytes
          end
      | _ => Throw "Invalid stored archive object schema"
      end
  | Some _ => Throw "Invalid stored archive object schema"
  end.

(** The check of [createArchiveObjectStore] on its partition. *)
Definition validPartition (partition : list N) : bool :=
  negb (length partition =? 0)%nat && (byteLength (TextEncoder_encode partition) <=? 2048) &&
  negb (existsb isSurrogate (codePoints partition)).

Section Store.
Context {W : Type} `{ArchiveObjectPersistence W}.
Variable partition : list N.

(** [namespace] caches the digest of the partition. *)
Definition namespace : list N :=
  sha256Base64Url (TextEncoder_encode (js "MESH-HISTORY/1/store-partition" ++ [0%N] ++ partition)).

Definition objectKey (id : list N) : list N :=
  js "meta-mesh.history-archive.object.v1." ++ namespace ++ js "." ++ id.

Definition keyFor (id : list N) : M W (list N) := ensureCurrent;; mret (objectKey id).

Definition confirm (raw id expected : list N) : M W unit :=
  liftM (parseObject raw id MAX_ARCHIVE_PART_BYTES);;
  ensureCurrent;;
  requireM (bool_decide (raw = expected)) "Immutable archive object conflict".

Definition objectStore_read (objectId : list N) (maximumBytes : Z) : M W (option (list N)) :=
  liftM (validateArchiveObjectId (Str objectId));;
  requireM (negb ((maximumBytes <? 0) || (MAX_ARCHIVE_PART_BYTES <? maximumBytes)))
    "Invalid archive object read limit";;
  ensureCurrent;;
  key ← keyFor objectId;
  raw ← persistence_read key;
  ensureCurrent;;
  match raw with
  | None => mret None
  | Some raw =>
      bytes ← liftM (parseObject raw objectId maximumBytes);
      ensureCurrent;;
      mret (Some bytes)
  end.

Definition objectText (objectId bytes : list N) : list N :=
  canonText str_leb (object_value objectId (toBase64Url bytes)).

(** [input instanceof Uint8Array] of a list of numbers: all are bytes. *)
Definition objectStore_write (objectId input : list N) : M W unit :=
  liftM (validateArchiveObjectId (Str objectId));;
  requireM (negb (negb (forallb isByte input) || (MAX_ARCHIVE_PART_BYTES <? byteLength input)))
    "Archive object exceeds part size bound";;
  ensureCurrent;;
  requireM (bool_decide (sha256Base64Url input = objectId)) "Archive object hash integrity failure";;
  ensureCurrent;;
  key ← keyFor objectId;
  let expected := objectText objectId input in
  existing ← persistence_read key;
  ensureCurrent;;
  match existing with
  | Some existing => confirm existing objectId expected
  | None =>
      stored ← persistence_compareAndSwap key None expected;
      ensureCurrent;;
      if (stored : bool) then mret tt else
      winner ← persistence_read key;
      ensureCurrent;;
      match winner with
      | None => throwM "Archive object changed during immutable publication"
      | Some winner => confirm winner objectId expected
      end
  end.

Definition createArchiveObjectStore : ArchiveObjectStore W := {|
  store_read objectId maximumBytes _ := objectStore_read objectId maximumBytes;
  store_write := objectStore_write |}.
End Store.
End Objects.

(** ** The records of objects *)
Section Records.
Context `{Sha256}.

Lemma object_plain objectId data : units objectId -> units data -> plain (object_value objectId data).
Proof.
  intros Hi Hd. apply plain_obj. cbn [map fst]. split; [|by vm_compute; repeat constructor; set_solver].
  by repeat (apply Forall_cons; split).
Qed.

Lemma url_units s : Forall urlChar s -> units s.
Proof.
  intros Hs. apply ascii_units, forallb_forall. intros c Hc%list_elem_of_In. rewrite Forall_forall in Hs. apply Hs in Hc.
  unfold urlChar in Hc. rewrite !orb_True, !andb_True, !Is_true_true, !N.leb_le, !N.eqb_eq in Hc.
  rewrite andb_true_iff, N.leb_le, N.ltb_lt. lia.
Qed.

Lemma object_text_eq objectId data :
  canonText str_leb (object_value objectId data) =
  objText [(js "data", quote data); (js "kind", quote (js "workspace-history-object"));
           (js "objectId", quote objectId); (js "version", js "1")].
Proof. reflexivity. Qed.

Lemma url_unescaped c : urlChar c -> isHigh c = false /\ escapeOf c = None.
Proof.
  intros Hc. unfold urlChar in Hc. rewrite !orb_True, !andb_True, !Is_true_true, !N.leb_le, !N.eqb_eq in Hc.
  unfold isHigh, escapeOf, isSurrogate. split.
  - apply andb_false_iff. rewrite N.leb_gt. lia.
  - repeat match goal with |- context [(c =? ?n)%N] => rewrite (proj2 (N.eqb_neq c n)) by lia end.
    rewrite (proj2 (N.ltb_ge _ _)), (proj2 (N.leb_gt _ _)) by lia. done.
Qed.

Lemma quote_url s : Forall urlChar s -> quote s = [34%N] ++ s ++ [34%N].
Proof.
  intros Hs. unfold quote. f_equal. f_equal. induction Hs as [|c s Hc _ IH]; [done|].
  destruct (url_unescaped c Hc) as [Hh He]. cbn [quoteBody]. destruct s as [|d s]; [by rewrite He|].
  rewrite Hh, He. cbn [andb default from_option]. by rewrite IH.
Qed.

Lemma object_text_length objectId data :
  Forall urlChar objectId -> Forall urlChar data -> length objectId = 43%nat ->
  (length (canonText str_leb (object_value objectId data)) <= length data + 200)%nat.
Proof.
  intros Hi Hd Hl. rewrite object_text_eq. unfold objText, memberText. cbn [map fst snd joinTexts].
  rewrite (quote_url data), (quote_url objectId) by done. 
  repeat (rewrite length_app || cbn [length]).
  repeat match goal with
  | |- context [length (quote (js ?s))] =>
      let v := eval vm_compute in (length (quote (js s))) in change (length (quote (js s))) with v
  end. change (length (js "1")) with 1%nat. rewrite Hl. lia.
Qed.

Lemma parseObject_text bytes maximum :
  Forall isByte bytes -> byteLength bytes <= maximum ->
  parseObject (objectText (sha256Base64Url bytes) bytes) (sha256Base64Url bytes) maximum = Ok bytes.
Proof.
  intros Hb Hmax. unfold parseObject, objectText. set (id := sha256Base64Url bytes).
  pose proof (toBase64Url_chars bytes Hb) as Hd. assert (Forall urlChar id) as Hi by apply toBase64Url_chars, sha256_bytes.
  assert (length id = 43%nat) as Hid by by (unfold id, sha256Base64Url; rewrite toBase64Url_length, sha256_length by apply sha256_bytes).
  pose proof (object_text_length id (toBase64Url bytes) Hi Hd Hid) as Hlen. rewrite toBase64Url_length in Hlen by done.
  pose proof (object_plain id (toBase64Url bytes) (url_units _ Hi) (url_units _ Hd)) as Hp.
  rewrite (proj2 (Z.ltb_ge _ _)).
  2: { unfold byteLength in Hmax. pose proof (Z.div_mod (maximum + 2) 3 ltac:(done)). pose proof (Z.mod_pos_bound (maximum + 2) 3 ltac:(lia)).
       pose proof (Nat.Div0.div_mod (length bytes * 4 + 2) 3). pose proof (Nat.mod_upper_bound (length bytes * 4 + 2) 3 ltac:(lia)). lia. }
  rewrite JSON_parse_canonical by done.
  change (normal str_leb (object_value id (toBase64Url bytes))) with
    (Obj [(js "data", Str (toBase64Url bytes)); (js "kind", Str (js "workspace-history-object"));
          (js "objectId", Str id); (js "version", Num (Int 1))]). cbv beta iota.
  change (member (js "kind") _) with (Str (js "workspace-history-object")). change (member (js "version") _) with (Num (Int 1)).
  change (member (js "objectId") _) with (Str id). change (member (js "data") _) with (Str (toBase64Url bytes)).
  change (length _ =? length objectFields)%nat with true. change (existsb _ objectFields) with false.
  rewrite !bool_decide_eq_true_2 by done. cbn [negb orb Z.eqb Pos.eqb].
  assert (forallb urlChar (toBase64Url bytes) = true) as ->.
  { apply forallb_forall. intros c Hc%list_elem_of_In. rewrite Forall_forall in Hd. by apply Is_true_eq_true, Hd. }
  cbn [negb]. rewrite from_toBase64Url by done.
  rewrite (proj2 (Z.ltb_ge _ _)) by done. by rewrite ?bool_decide_eq_true_2 by done.
Qed.

(** Whatever the record says, the bytes it gives have the digest asked for. *)
Lemma parseObject_authentic raw id maximum bytes :
  parseObject raw id maximum = Ok bytes -> sha256Base64Url bytes = id /\ byteLength bytes <= maximum.
Proof.
  unfold parseObject. guard_passed as Hraw. destruct (JSON_parse raw) as [[| | | | | |record]|]; try done.
  guard_passed as Hschema. destruct (member (js "data") record) as [| | | |data| |]; try done.
  guard_passed as Hdata. guard_passed as Hcanon. destruct (fromBase64Url data) as [b|]; [|done].
  guard_passed as Hmax. guard_passed as Hurl. guard_passed as Hsha. intros [= <-].
  apply negb_false_iff, bool_decide_eq_true in Hsha. apply Z.ltb_ge in Hmax. done.
Qed.

Lemma parseObject_mono raw id m m' bytes :
  m <= m' -> parseObject raw id m = Ok bytes -> parseObject raw id m' = Ok bytes.
Proof.
  intros Hm. unfold parseObject. guard_passed as Hraw. apply Z.ltb_ge in Hraw.
  assert ((m + 2) / 3 <= (m' + 2) / 3) by (apply Z.div_le_mono; lia).
  rewrite (proj2 (Z.ltb_ge ((m' + 2) / 3 * 4 + 512) _)) by lia.
  destruct (JSON_parse raw) as [[| | | | | |record]|]; try done.
  guard_passed as Hschema. destruct (member (js "data") record) as [| | | |data| |]; try done.
  guard_passed as Hdata. guard_passed as Hcanon. destruct (fromBase64Url data) as [b|]; [|done].
  guard_passed as Hmax. apply Z.ltb_ge in Hmax. by rewrite (proj2 (Z.ltb_ge _ _)) by lia.
Qed.
End Records.

(** ** The store is immutable *)

(** Keys of the host's persistence that are only ever created, by whomever. *)
Class WriteOnce (W : Type) `{ArchiveObjectPersistence W} := {
  records : W -> gmap (list N) (list N);
  read_keeps key w : records w ⊆ records (persistence_read key w).2;
  read_current key w raw :
    (persistence_read key w).1 = Ok raw -> records (persistence_read key w).2 !! key = raw;
  create_keeps key next w : records w ⊆ records (persistence_compareAndSwap key None next w).2;
  create_stored key next w :
    (persistence_compareAndSwap key None next w).1 = Ok true ->
    records (persistence_compareAndSwap key None next w).2 !! key = Some next;
  guard_keeps w : records w ⊆ records (ensureCurrent w).2 }.

Section Immutable.
Context `{Sha256} {W : Type} `{WriteOnce W}.
Variable partition : list N.

Definition keyPrefix : list N := js "meta-mesh.history-archive.object.v1." ++ namespace partition ++ js ".".

Lemma objectKey_prefix id : objectKey partition id = keyPrefix ++ id.
Proof. unfold objectKey, keyPrefix. by rewrite <- !app_assoc. Qed.

(** The object a record holds, when the record is the text of one. *)
Definition objectOf (kr : list N * list N) : option (list N * list N) :=
  let id := drop (length keyPrefix) kr.1 in
  if bool_decide (kr.1 = keyPrefix ++ id) then
    match parseObject kr.2 id MAX_ARCHIVE_PART_BYTES with
    | Ok bytes => if bool_decide (kr.2 = objectText id bytes) && forallb isByte bytes then Some (id, bytes) else None
    | Throw _ => None
    end
  else None.

Definition objects (w : W) : gmap (list N) (list N) := list_to_map (omap objectOf (map_to_list (records w))).

Lemma objectOf_spec key raw id bytes :
  objectOf (key, raw) = Some (id, bytes) <->
  key = objectKey partition id /\ raw = objectText id bytes /\ Forall isByte bytes /\
  sha256Base64Url bytes = id /\ byteLength bytes <= MAX_ARCHIVE_PART_BYTES.
Proof.
  unfold objectOf. cbn [fst snd]. rewrite objectKey_prefix. split.
  - case_bool_decide as Hk; [|done]. destruct (parseObject _ _ _) as [b|] eqn:Hp; [|done].
    destruct (bool_decide _ && _) eqn:Hc; [|done]. intros [= <- <-]. apply andb_true_iff in Hc as [Ht Hb].
    apply bool_decide_eq_true in Ht. destruct (parseObject_authentic _ _ _ _ Hp). split_and!; try done.
    apply Forall_forall. intros x Hx. rewrite forallb_forall in Hb. by apply Is_true_true, Hb, list_elem_of_In.
  - intros (-> & -> & Hb & <- & Hm). rewrite drop_app_length, bool_decide_eq_true_2 by done.
    rewrite parseObject_text by done. rewrite bool_decide_eq_true_2 by done. cbn [andb].
    assert (forallb isByte bytes = true) as ->; [|done]. apply forallb_forall. intros x Hx%list_elem_of_In.
    rewrite Forall_forall in Hb. by apply Is_true_eq_true, Hb.
Qed.

Lemma objects_lookup w id bytes :
  objects w !! id = Some bytes <->
  records w !! objectKey partition id = Some (objectText id bytes) /\ Forall isByte bytes /\
  sha256Base64Url bytes = id /\ byteLength bytes <= MAX_ARCHIVE_PART_BYTES.
Proof.
  unfold objects. rewrite <- elem_of_list_to_map.
  - rewrite list_elem_of_omap. split.
    + intros ([key raw] & Hin & (-> & -> & ?)%objectOf_spec). apply elem_of_map_to_list in Hin. done.
    + intros (Hr & ?). exists (objectKey partition id, objectText id bytes). rewrite elem_of_map_to_list, objectOf_spec. done.
  - pose proof (NoDup_fst_map_to_list (records w)) as Hn. revert Hn.
    induction (map_to_list (records w)) as [|[key raw] l IH]; cbn; [constructor|].
    intros [Hnotin Hn]%NoDup_cons. destruct (objectOf (key, raw)) as [[i b]|] eqn:Ho; [|by apply IH].
    apply objectOf_spec in Ho as (-> & _). cbn. constructor; [|by apply IH].
    intros ([i' b'] & Hi & ([key' raw'] & Hin & (Hk & _)%objectOf_spec)%list_elem_of_omap)%list_elem_of_fmap.
    cbn in Hi. subst i'. apply Hnotin. apply list_elem_of_fmap. exists (key', raw'). by subst key'.
Qed.

Lemma objects_mono w w' : records w ⊆ records w' -> objects w ⊆ objects w'.
Proof.
  intros Hr. apply map_subseteq_spec. intros id bytes. rewrite !objects_lookup. intros (Hk & ?). split; [|done].
  by eapply lookup_weaken.
Qed.

Definition keeps (w w' : W) : Prop := records w ⊆ records w'.

#[local] Instance keeps_preorder : PreOrder keeps.
Proof. unfold keeps. split; [intros w; reflexivity|intros w1 w2 w3 ??; by etrans]. Qed.

Lemma safe_guard w0 : safe keeps w0 ensureCurrent (fun _ _ => True).
Proof. intros w Hw. split; [apply guard_keeps|done]. Qed.

Lemma safe_stored_read w0 key :
  safe keeps w0 (persistence_read key) (fun raw w => records w !! key = raw).
Proof. intros w Hw. split; [apply read_keeps|]. intros raw Hr. by apply read_current. Qed.

Lemma safe_create w0 key next :
  safe keeps w0 (persistence_compareAndSwap key None next) (fun created w => created = true -> records w !! key = Some next).
Proof. intros w Hw. split; [apply create_keeps|]. intros created Hr ->. by apply create_stored. Qed.

Ltac safe_step := eapply safe_bind; [exact _|first [apply safe_guard|apply safe_require, _|apply safe_lift, _]|]; cbv beta.

Lemma safe_keyFor w0 id : safe keeps w0 (keyFor partition id) (fun key _ => key = objectKey partition id).
Proof. unfold keyFor. safe_step. intros _ w1 _ _. apply safe_ret; [exact _|done]. Qed.

Lemma safe_confirm w0 raw id expected key :
  records w0 !! key = Some raw ->
  safe keeps w0 (confirm raw id expected) (fun _ w => records w !! key = Some expected).
Proof.
  intros Hr. unfold confirm. safe_step. intros _ w1 Hw1 _. safe_step. intros _ w2 Hw2 _.
  eapply safe_weaken; [exact _|apply safe_require, _|]. cbv beta. intros _ w3 Hw3 ->%bool_decide_eq_true.
  unfold keeps in *. eapply lookup_weaken; [exact Hr|]. by do 2 (etrans; [eassumption|]).
Qed.

Lemma safe_objectStore_write w0 id input :
  safe keeps w0 (objectStore_write partition id input) (fun _ w => objects w !! id = Some input).
Proof.
  unfold objectStore_write. safe_step. intros _ w1 _ _. safe_step. intros _ w2 _ Hsize. safe_step. intros _ w3 _ _.
  safe_step. intros _ w4 _ Hsha%bool_decide_eq_true. safe_step. intros _ w5 _ _.
  eapply safe_bind; [exact _|apply safe_keyFor|]. cbv beta zeta. intros key w6 _ ->.
  apply negb_true_iff, orb_false_iff in Hsize as [Hbytes Hsize%Z.ltb_ge]. apply negb_false_iff in Hbytes.
  eapply safe_weaken with (Q := fun _ w => records w !! objectKey partition id = Some (objectText id input)); [exact _| |].
  2: { cbv beta. intros _ w _ Hr. apply objects_lookup. split_and!; try done.
       apply Forall_forall. intros x Hx. rewrite forallb_forall in Hbytes. by apply Is_true_true, Hbytes, list_elem_of_In. }
  eapply safe_bind; [exact _|apply safe_stored_read|]. cbv beta. intros existing w7 _ Hread. safe_step. intros _ w8 Hw8 _.
  destruct existing as [raw|].
  { apply safe_confirm. unfold keeps in Hw8. eapply lookup_weaken; [exact Hread|done]. }
  eapply safe_bind; [exact _|apply safe_create|]. cbv beta. intros created w9 _ Hcreated. safe_step. intros _ w10 Hw10 _.
  destruct created.
  { apply safe_ret; [exact _|]. intros w Hw. unfold keeps in *. eapply lookup_weaken; [by apply Hcreated|]. by etrans. }
  eapply safe_bind; [exact _|apply safe_stored_read|]. cbv beta. intros winner w11 _ Hwin. safe_step. intros _ w12 Hw12 _.
  destruct winner as [raw|]; [|apply safe_throw, _]. apply safe_confirm.
  unfold keeps in Hw12. eapply lookup_weaken; [exact Hwin|done].
Qed.

Lemma safe_objectStore_read w0 id maximum :
  safe keeps w0 (objectStore_read partition id maximum) (fun read w => match read with
    | Some bytes => sha256Base64Url bytes = id /\ byteLength bytes <= maximum /\
        exists raw, records w !! objectKey partition id = Some raw /\ parseObject raw id maximum = Ok bytes
    | None => records w0 !! objectKey partition id = None
    end).
Proof.
  unfold objectStore_read. safe_step. intros _ u1 Hu1 _. safe_step. intros _ u2 Hu2 _. safe_step. intros _ u3 Hu3 _.
  eapply safe_bind; [exact _|apply safe_keyFor|]. cbv beta. intros key w1 Hw1 ->.
  eapply safe_bind; [exact _|apply safe_stored_read|]. cbv beta. intros raw w2 Hw2 Hraw. safe_step. intros _ w3 Hw3 _.
  assert (keeps w0 w2) as Hw02 by by do 4 (etrans; [eassumption|]).
  destruct raw as [raw|].
  - safe_step. intros bytes w4 Hw4 Hp. safe_step. intros _ w5 Hw5 _.
    apply safe_ret; [exact _|]. intros w Hw. destruct (parseObject_authentic _ _ _ _ Hp). split_and!; [done|done|].
    exists raw. split; [|done]. eapply lookup_weaken; [exact Hraw|]. unfold keeps in *. by do 3 (etrans; [eassumption|]).
  - apply safe_ret; [exact _|]. intros w Hw. by eapply lookup_weaken_None.
Qed.

#[global] Instance objectStore_immutable : @ImmutableStore W (createArchiveObjectStore partition).
Proof.
  refine {| view := objects |}; cbn [store_read store_write createArchiveObjectStore].
  - intros id maximum _ w. apply objects_mono. by destruct (safe_objectStore_read w id maximum w ltac:(reflexivity)).
  - intros id bytes w. apply objects_mono. by destruct (safe_objectStore_write w id bytes w ltac:(reflexivity)).
  - intros id bytes w Hw. destruct (safe_objectStore_write w id bytes w ltac:(reflexivity)) as [_ Hs]. by apply (Hs tt).
Defined.

(** C18. Objects are written once.  After a write of [bytes] under [objectId]
    returned, and for as long as the persistence keeps what it has, a read of
    that object that returns gives exactly [bytes], whose digest is the id;
    and a later write under the same id returns only for the same bytes. *)
Theorem archive_store_write_once objectId bytes (w w1 w2 : W) :
  objectStore_write partition objectId bytes w = (Ok tt, w1) -> records w1 ⊆ records w2 ->
  sha256Base64Url bytes = objectId /\
  (forall maximum read w3, objectStore_read partition objectId maximum w2 = (Ok read, w3) -> read = Some bytes) /\
  (forall bytes' w3, objectStore_write partition objectId bytes' w2 = (Ok tt, w3) -> bytes' = bytes).
Proof.
  intros Hw Hr. destruct (safe_objectStore_write w objectId bytes w ltac:(reflexivity)) as [_ Hs].
  rewrite Hw in Hs. specialize (Hs tt eq_refl). cbn [snd] in Hs.
  pose proof (lookup_weaken _ _ _ _ Hs (objects_mono _ _ Hr)) as Hobj. apply objects_lookup in Hobj as Hrec.
  destruct Hrec as (Hrec & Hb & Hsha & Hlen). split; [done|]. split.
  - intros maximum read w3 Hread. destruct (safe_objectStore_read w2 objectId maximum w2 ltac:(reflexivity)) as [Hk Hq].
    rewrite Hread in Hk, Hq. specialize (Hq read eq_refl). cbn [snd] in Hk, Hq. destruct read as [b|]; [|congruence].
    destruct Hq as (_ & Hmax & raw & Hraw & Hp). unfold keeps in Hk. rewrite (lookup_weaken _ _ _ _ Hrec Hk) in Hraw.
    injection Hraw as <-. f_equal. apply (parseObject_mono _ _ _ (Z.max maximum MAX_ARCHIVE_PART_BYTES)) in Hp; [|lia].
    rewrite <- Hsha, parseObject_text in Hp by (done || lia). congruence.
  - intros bytes' w3 Hw3. destruct (safe_objectStore_write w2 objectId bytes' w2 ltac:(reflexivity)) as [Hk Hs'].
    rewrite Hw3 in Hk, Hs'. specialize (Hs' tt eq_refl). cbn [snd] in Hk, Hs'.
    rewrite (lookup_weaken _ _ _ _ Hobj (objects_mono _ _ Hk)) in Hs'. congruence.
Qed.
End Immutable.

(** ** A store that responds *)
Class Responsive (W : Type) `{WriteOnce W} := {
  read_responds key w raw : records w !! key = Some raw -> (persistence_read key w).1 = Ok (Some raw);
  guard_passes w : (ensureCurrent w).1 = Ok tt }.

Section Responds.
Context `{Sha256} {W : Type} `{Responsive W}.
Variable partition : list N.

Lemma returns_ensureCurrent (w : W) Q :
  (forall w', records w ⊆ records w' -> Q tt w') -> returns ensureCurrent w Q.
Proof.
  intros HQ. pose proof (guard_passes w) as Hg. pose proof (guard_keeps w) as Hk.
  destruct (ensureCurrent w) as [r w'] eqn:Hw. cbn [fst snd] in Hg, Hk. subst r. exists tt, w'. auto.
Qed.

#[global] Instance objectStore_available :
  @AvailableStore W (createArchiveObjectStore partition) (objectStore_immutable partition).
Proof.
  intros id maximum binding w bytes Hv Hm. cbn [view objectStore_immutable store_read createArchiveObjectStore] in *.
  apply objects_lookup in Hv as (Hr & Hb & Hsha & Hlen).
  enough (returns (objectStore_read partition id maximum) w (fun read _ => read = Some bytes)) as (read & w' & -> & ->); [done|].
  assert (0 <= byteLength bytes) by (unfold byteLength; lia).
  unfold objectStore_read, keyFor. apply returns_bind. eapply returns_lift.
  { unfold validateArchiveObjectId. rewrite <- Hsha. by rewrite (Is_true_eq_true _ (sha256Base64Url_pattern bytes)). }
  apply returns_bind, returns_require.
  { apply negb_true_iff, orb_false_iff. rewrite !Z.ltb_ge. lia. }
  apply returns_bind, returns_ensureCurrent. intros w1 Hw1. apply returns_bind, returns_bind, returns_ensureCurrent. intros w2 Hw2.
  apply returns_ret, returns_bind.
  pose proof (read_responds (objectKey partition id) w2 _ (lookup_weaken _ _ _ _ Hr (transitivity Hw1 Hw2))) as Hread.
  destruct (persistence_read (objectKey partition id) w2) as [r w3] eqn:Hw3. cbn [fst] in Hread. subst r. exists (Some (objectText id bytes)), w3.
  split; [done|]. apply returns_bind, returns_ensureCurrent. intros w4 _. apply returns_bind. eapply returns_lift.
  { rewrite <- Hsha. apply parseObject_text; [done|lia]. }
  apply returns_bind, returns_ensureCurrent. intros w5 _. by apply returns_ret.
Qed.
End Responds.

(** Persistence in memory. *)
Module MemoryPersistence.
Definition W : Type := gmap (list N) (list N).

#[export] Instance persistence : ArchiveObjectPersistence W := {|
  persistence_read key := fun w => (Ok (w !! key), w);
  persistence_compareAndSwap key expected next := fun w =>
    if bool_decide (w !! key = expected) then (Ok true, <[key := next]> w) else (Ok false, w);
  ensureCurrent := mret tt |}.

#[export] Instance writeOnce : WriteOnce W.
Proof.
  refine {| records := fun w => w |}; cbn; try done.
  - by intros key w raw [= <-].
  - intros key next w. case_bool_decide; cbn; [by apply insert_subseteq|done].
  - intros key next w. case_bool_decide; cbn; [intros _; apply lookup_insert_eq|done].
Defined.

#[export] Instance responsive : Responsive W.
Proof. split; cbn; [intros key w raw Hr; by f_equal|done]. Qed.

Definition start : W := ∅.
Definition demoId : list N := sha256Base64Url (H := checksumSha256) [1; 2; 3]%N.
Definition demoWrite : result unit * W := objectStore_write (H := checksumSha256) (js "host") demoId [1; 2; 3]%N start.

Lemma demo_writes : isOk demoWrite.1 = true.
Proof. vm_compute. reflexivity. Qed.
End MemoryPersistence.

Lemma archive_store_write_once_witness :
  match MemoryPersistence.demoWrite with
  | (Ok _, w1) => forall read w3,
      objectStore_read (H := checksumSha256) (H0 := MemoryPersistence.persistence) (js "host") MemoryPersistence.demoId 100 w1
      = (Ok read, w3) -> read = Some [1; 2; 3]%N
  | _ => False
  end.
Proof.
  destruct MemoryPersistence.demoWrite as [[[]|e] w1] eqn:Hw.
  - intros read w3. apply (archive_store_write_once (H := checksumSha256) (H1 := MemoryPersistence.writeOnce) (js "host")
      MemoryPersistence.demoId [1; 2; 3]%N MemoryPersistence.start w1 w1 Hw). reflexivity.
  - pose proof MemoryPersistence.demo_writes as Hok. rewrite Hw in Hok. discriminate Hok.
Defined.
