(* ===== verification/Coverage.v ===== *)
(** * Archive coverage: receipts and summaries

    [packages/mesh-replication/src/historyArchiveCoverage.ts]: what a storage
    service attests about the objects of an archive.  A batch receipt lists up to
    64 objects; an aggregate receipt states the summary of a set, the root of a
    hash tree over batches.  Receipts come from the network and are JSON values
    until [captureArchiveCoverageChild] accepted them. *)
From stdpp Require Import base numbers list strings sets.
From Stdlib Require Import ZArith NArith Lia.
From S2P Require Import Prelude Unicode Json Base64 Digest Envelope Archive Js.
Local Open Scope js_scope.
Local Open Scope Z_scope.

Record ArchiveCoverageObject := mkCoverageObject { cov_objectId : list N; cov_keyEpoch : Z }.
Record ArchiveCoverageAuthority := mkCoverageAuthority {
  auth_servicePublicKey : list N; auth_scopeId : list N; auth_policyRevision : Z }.
Record ArchiveCoverageSummary := mkSummary {
  sum_height : Z; sum_objectCount : Z; sum_firstObjectId : list N; sum_lastObjectId : list N;
  sum_setDigest : list N; sum_rootCovered : bool }.
Record ReceiptHeader := mkReceiptHeader {
  hdr_serviceId : list N; hdr_scopeId : list N; hdr_policyRevision : Z; hdr_requestId : list N }.
Inductive ArchiveCoverageChild :=
| BatchReceipt (header : ReceiptHeader) (objects : list ArchiveCoverageObject) (signerKeyId signature : list N)
| AggregateReceipt (header : ReceiptHeader) (archiveRootId : list N) (summary : ArchiveCoverageSummary) (signerKeyId signature : list N).

#[export] Instance coverage_object_eq_dec : EqDecision ArchiveCoverageObject.
Proof. solve_decision. Defined.
#[export] Instance summary_eq_dec : EqDecision ArchiveCoverageSummary.
Proof. solve_decision. Defined.

(** ** The records as JSON values *)
Definition object_value (o : ArchiveCoverageObject) : value :=
  Obj [(js "objectId", Str (cov_objectId o)); (js "keyEpoch", Archive.int (cov_keyEpoch o))].
Definition authority_value (a : ArchiveCoverageAuthority) : value :=
  Obj [(js "servicePublicKey", Str (auth_servicePublicKey a)); (js "scopeId", Str (auth_scopeId a));
       (js "policyRevision", Archive.int (auth_policyRevision a))].
Definition summary_members (s : ArchiveCoverageSummary) : list (list N * value) :=
  [(js "height", Archive.int (sum_height s)); (js "objectCount", Archive.int (sum_objectCount s));
   (js "firstObjectId", Str (sum_firstObjectId s)); (js "lastObjectId", Str (sum_lastObjectId s));
   (js "setDigest", Str (sum_setDigest s)); (js "rootCovered", Bool (sum_rootCovered s))].
Definition summary_value (s : ArchiveCoverageSummary) : value := Obj (summary_members s).

Definition batchKind : list N := js "blind-archive-coverage-batch-receipt".
Definition aggregateKind : list N := js "blind-archive-coverage-aggregate-receipt".

Definition header_members (h : ReceiptHeader) : list (list N * value) :=
  [(js "version", Archive.int 1); (js "serviceId", Str (hdr_serviceId h)); (js "scopeId", Str (hdr_scopeId h));
   (js "policyRevision", Archive.int (hdr_policyRevision h)); (js "requestId", Str (hdr_requestId h))].
Definition child_payload (c : ArchiveCoverageChild) : value :=
  match c with
  | BatchReceipt header objects _ _ =>
      Obj (header_members header ++ [(js "kind", Str batchKind); (js "objects", Arr (map object_value objects))])
  | AggregateReceipt header archiveRootId summary _ _ =>
      Obj (header_members header ++ [(js "kind", Str aggregateKind); (js "archiveRootId", Str archiveRootId)] ++ summary_members summary)
  end.
Definition child_header (c : ArchiveCoverageChild) : ReceiptHeader :=
  match c with BatchReceipt header _ _ _ | AggregateReceipt header _ _ _ _ => header end.
Definition child_signer (c : ArchiveCoverageChild) : list N :=
  match c with BatchReceipt _ _ signer _ | AggregateReceipt _ _ _ signer _ => signer end.
Definition child_signature (c : ArchiveCoverageChild) : list N :=
  match c with BatchReceipt _ _ _ signature | AggregateReceipt _ _ _ _ signature => signature end.
Definition child_value (c : ArchiveCoverageChild) : value := envelope_value (child_payload c) (child_signer c) (child_signature c).

(** ** Checks *)
Definition invalidEvidence : string := "Invalid archive coverage evidence".

Definition summaryKeys : list (list N) :=
  [js "height"; js "objectCount"; js "firstObjectId"; js "lastObjectId"; js "setDigest"; js "rootCovered"].
Definition headerKeys : list (list N) :=
  [js "kind"; js "version"; js "serviceId"; js "scopeId"; js "policyRevision"; js "requestId"].

Definition exact (v : value) (keys : list (list N)) : result unit :=
  require (isRecord v && hasExactKeys v keys) invalidEvidence.

Definition positive (v : value) : result Z :=
  match safeInt v with
  | Some z => if z <? 1 then Throw invalidEvidence else Ok z
  | None => Throw invalidEvidence
  end.

(** [/^[A-Za-z0-9_-]{least,most}$/] *)
Definition urlText (least most : nat) (v : value) : result (list N) :=
  match v with
  | Str s => if (least <=? length s)%nat && (length s <=? most)%nat && forallb urlChar s then Ok s else Throw invalidEvidence
  | _ => Throw invalidEvidence
  end.
Definition scope : value -> result (list N) := urlText 1 128.
Definition requestId : value -> result (list N) := urlText 20 64.

Definition captureArchiveCoverageAuthority (input : value) : result ArchiveCoverageAuthority :=
  servicePublicKey ← validateArchiveObjectId input.["servicePublicKey"];
  scopeId ← scope input.["scopeId"];
  policyRevision ← positive input.["policyRevision"];
  Ok (mkCoverageAuthority servicePublicKey scopeId policyRevision).

Definition captureObject (entry : value) : result ArchiveCoverageObject :=
  exact entry [js "objectId"; js "keyEpoch"];;
  objectId ← validateArchiveObjectId entry.["objectId"];
  keyEpoch ← positive entry.["keyEpoch"];
  Ok (mkCoverageObject objectId keyEpoch).

(** [!objects.some((entry, i) => i > 0 && objects[i - 1].objectId >= entry.objectId)] *)
Fixpoint ascending (ids : list (list N)) : bool :=
  match ids with
  | [] => true
  | a :: rest => match rest with b :: _ => str_ltb a b && ascending rest | [] => true end
  end.

Definition captureArchiveCoverageObjects (input : value) : result (list ArchiveCoverageObject) :=
  require (isArray input && (1 <=? length (items input))%nat && (length (items input) <=? 64)%nat) invalidEvidence;;
  objects ← mapR captureObject (items input);
  require (ascending (map cov_objectId objects)) invalidEvidence;;
  Ok objects.

Definition summarySnapshot (input : value) : result ArchiveCoverageSummary :=
  exact input summaryKeys;;
  height ← match input.["height"] with
           | Num (Int z) => if (z <? 0) || (32 <=? z) then Throw invalidEvidence else Ok z
           | _ => Throw invalidEvidence
           end;
  objectCount ← positive input.["objectCount"];
  first ← validateArchiveObjectId input.["firstObjectId"];
  last ← validateArchiveObjectId input.["lastObjectId"];
  setDigest ← validateArchiveObjectId input.["setDigest"];
  match input.["rootCovered"] with
  | Bool rootCovered =>
      if str_ltb last first || negb (Bool.eqb (objectCount =? 1) (bool_decide (first = last))) || ((height =? 0) && (64 <? objectCount))
      then Throw invalidEvidence else Ok (mkSummary height objectCount first last setDigest rootCovered)
  | _ => Throw invalidEvidence
  end.

Definition validateRootRange (summary : ArchiveCoverageSummary) (root : list N) : result unit :=
  require (negb ((sum_rootCovered summary && (str_ltb root (sum_firstObjectId summary) || str_ltb (sum_lastObjectId summary) root)) ||
    (negb (sum_rootCovered summary) && (bool_decide (root = sum_firstObjectId summary) || bool_decide (root = sum_lastObjectId summary)))))
    invalidEvidence.

Definition captureArchiveCoverageChild (input : value) : result ArchiveCoverageChild :=
  exact input [js "payload"; js "signerKeyId"; js "signature"];;
  signerKeyId ← validateArchiveObjectId input.["signerKeyId"];
  signature ← match input.["signature"] with
              | Str s => if (length s =? 86)%nat then Ok s else Throw invalidEvidence
              | _ => Throw invalidEvidence
              end;
  bytes ← fromBase64Url signature;
  require ((length bytes =? 64)%nat && bool_decide (toBase64Url bytes = signature)) invalidEvidence;;
  let fields := input.["payload"] in
  require (isRecord fields) invalidEvidence;;
  (if isStr batchKind fields.["kind"] then exact fields (headerKeys ++ [js "objects"])
   else if isStr aggregateKind fields.["kind"] then exact fields (headerKeys ++ [js "archiveRootId"] ++ summaryKeys)
   else Throw invalidEvidence);;
  require (isInt 1 fields.["version"]) invalidEvidence;;
  serviceId ← validateArchiveObjectId fields.["serviceId"];
  scopeId ← scope fields.["scopeId"];
  policyRevision ← positive fields.["policyRevision"];
  request ← requestId fields.["requestId"];
  let header := mkReceiptHeader serviceId scopeId policyRevision request in
  child ← (if isStr batchKind fields.["kind"] then
             objects ← captureArchiveCoverageObjects fields.["objects"];
             Ok (BatchReceipt header objects signerKeyId signature)
           else
             archiveRootId ← validateArchiveObjectId fields.["archiveRootId"];
             summary ← summarySnapshot (Obj (map (fun key => (key, getOpt key fields)) summaryKeys));
             require (negb (sum_height summary =? 0)) invalidEvidence;;
             validateRootRange summary archiveRootId;;
             Ok (AggregateReceipt header archiveRootId summary signerKeyId signature));
  require (byteLength (canonicalBytes (child_value child)) <=? 8192) invalidEvidence;;
  Ok child.

(** ** Summaries of sets *)
Section Summaries.
Context `{Sha256}.

(** The bytes [digest] hashes: the domain, a zero and the canonical JSON. *)
Definition digestInput (v : value) : list N :=
  TextEncoder_encode (js "MESH-HISTORY/1/coverage-set" ++ [0%N] ++ canonText str_leb v).
Definition digest (v : value) : list N := sha256Base64Url (digestInput v).

Definition leaf_value (objects : list ArchiveCoverageObject) : value :=
  Obj [(js "kind", Str (js "archive-coverage-set-leaf")); (js "version", Archive.int 1); (js "objects", Arr (map object_value objects))].
Definition branch_value (root : list N) (children : list ArchiveCoverageSummary) : value :=
  Obj [(js "kind", Str (js "archive-coverage-set-branch")); (js "version", Archive.int 1); (js "archiveRootId", Str root);
       (js "children", Arr (map summary_value children))].

Definition idAt (id : option ArchiveCoverageObject) : list N := default [] (cov_objectId <$> id).

Definition archiveCoverageLeaf (input : value) (root : list N) : result ArchiveCoverageSummary :=
  validateArchiveObjectId (Str root);;
  objects ← captureArchiveCoverageObjects input;
  Ok (mkSummary 0 (Z.of_nat (length objects)) (idAt (head objects)) (idAt (last objects)) (digest (leaf_value objects))
        (existsb (fun object => bool_decide (cov_objectId object = root)) objects)).

(** The loop over the children: [previous] is the child before. *)
Fixpoint countChildren (root : list N) (height : Z) (previous : option ArchiveCoverageSummary) (objectCount : Z)
    (children : list ArchiveCoverageSummary) : result Z :=
  match children with
  | [] => Ok objectCount
  | child :: rest =>
      validateRootRange child root;;
      (if negb (sum_height child =? height) ||
          match previous with Some before => negb (str_ltb (sum_lastObjectId before) (sum_firstObjectId child)) | None => false end
       then Throw invalidEvidence else Ok tt);;
      objectCount ← positive (Archive.int (objectCount + sum_objectCount child));
      countChildren root height (Some child) objectCount rest
  end.

Definition archiveCoverageBranch (root : list N) (input : list value) : result ArchiveCoverageSummary :=
  validateArchiveObjectId (Str root);;
  require ((1 <=? length input)%nat && (length input <=? 8)%nat) invalidEvidence;;
  children ← mapR summarySnapshot input;
  let height := default 0 (sum_height <$> head children) in
  objectCount ← countChildren root height None 0 children;
  if 32 <=? height + 1 then Throw invalidEvidence else
  Ok (mkSummary (height + 1) objectCount (default [] (sum_firstObjectId <$> head children)) (default [] (sum_lastObjectId <$> last children))
        (digest (branch_value root children)) (existsb sum_rootCovered children)).

Definition verifyArchiveCoverageChild `{Ed25519} (input authorityInput : value) (root : list N) : result ArchiveCoverageSummary :=
  receipt ← captureArchiveCoverageChild input;
  validateArchiveObjectId (Str root);;
  authority ← captureArchiveCoverageAuthority authorityInput;
  serviceId ← publicKeyId (auth_servicePublicKey authority);
  let header := child_header receipt in
  if negb (bool_decide (child_signer receipt = serviceId)) || negb (bool_decide (hdr_serviceId header = serviceId)) ||
     negb (bool_decide (hdr_scopeId header = auth_scopeId authority)) || negb (hdr_policyRevision header =? auth_policyRevision authority)
  then Throw invalidEvidence else
  verified ← verifyEnvelope (child_value receipt) (Str (auth_servicePublicKey authority)) (js "RUSTY/2");
  if negb (verified : bool) then Throw invalidEvidence else
  match receipt with
  | BatchReceipt _ objects _ _ => archiveCoverageLeaf (Arr (map object_value objects)) root
  | AggregateReceipt _ archiveRootId summary _ _ =>
      if negb (bool_decide (archiveRootId = root)) then Throw invalidEvidence else summarySnapshot (summary_value summary)
  end.
End Summaries.

(** ** What the captures accept *)
Definition object_ok (o : ArchiveCoverageObject) : Prop :=
  digestPattern (cov_objectId o) = true /\ 1 <= cov_keyEpoch o <= MAX_SAFE_INTEGER.

Definition summary_ok (s : ArchiveCoverageSummary) : Prop :=
  0 <= sum_height s < 32 /\ 1 <= sum_objectCount s <= MAX_SAFE_INTEGER /\
  digestPattern (sum_firstObjectId s) = true /\ digestPattern (sum_lastObjectId s) = true /\ digestPattern (sum_setDigest s) = true /\
  str_ltb (sum_lastObjectId s) (sum_firstObjectId s) = false /\
  (sum_objectCount s = 1 <-> sum_firstObjectId s = sum_lastObjectId s) /\ (sum_height s = 0 -> sum_objectCount s <= 64).

Lemma validate_ok v id : validateArchiveObjectId v = Ok id <-> v = Str id /\ digestPattern id = true.
Proof.
  destruct v; cbn; try (split; [done|by intros [? _]]). destruct (digestPattern s) eqn:Hd.
  - split; [by intros [= <-]|by intros [[= ->] _]].
  - split; [done|]. intros [[= ->] ?]. congruence.
Qed.

Lemma validate_str id : digestPattern id = true -> validateArchiveObjectId (Str id) = Ok id.
Proof. intros. by apply validate_ok. Qed.

Lemma positive_ok v z : positive v = Ok z <-> v = Archive.int z /\ 1 <= z <= MAX_SAFE_INTEGER.
Proof.
  unfold positive, safeInt, Archive.int. destruct v as [| | |[y| |]| | |]; try (split; [done|by intros [? _]]).
  unfold isSafeInteger. destruct (- MAX_SAFE_INTEGER <=? y) eqn:H1, (y <=? MAX_SAFE_INTEGER) eqn:H2; cbn; try (split; [done|]; intros [[= ->] ?]; unfold MAX_SAFE_INTEGER in *; lia).
  destruct (y <? 1) eqn:H3; (split; [|intros [[= ->] ?]; try done; lia]); [done|]. intros [= <-]. split; [done|lia].
Qed.

Lemma positive_int z : 1 <= z <= MAX_SAFE_INTEGER -> positive (Archive.int z) = Ok z.
Proof. intros. by apply positive_ok. Qed.

Lemma urlText_ok least most v s : urlText least most v = Ok s <->
  v = Str s /\ (least <= length s <= most)%nat /\ forallb urlChar s = true.
Proof.
  destruct v as [| | | |t| |]; cbn; try (split; [done|by intros [? _]]).
  destruct (_ && _ && _) eqn:Hc.
  - split; [|by intros [[= ->] _]]. intros [= <-]. bool_to_prop. split; [done|]. split; [|done].
    split; by apply Nat.leb_le.
  - split; [done|]. intros (Heq & [Hl Hm] & Hu). injection Heq as ->. apply Nat.leb_le in Hl, Hm. by rewrite Hl, Hm, Hu in Hc.
Qed.

Lemma exact_record v keys u : exact v keys = Ok u <-> isRecord v = true /\ hasExactKeys v keys = true.
Proof. unfold exact. rewrite require_ok. apply andb_true_iff. Qed.

(** Opens the captures a computation known to return has made. *)
Ltac captured :=
  unbind; repeat match goal with
  | H : validateArchiveObjectId _ = Ok _ |- _ => apply validate_ok in H as [? ?]
  | H : positive _ = Ok _ |- _ => apply positive_ok in H as [? ?]
  | H : urlText _ _ _ = Ok _ |- _ => apply urlText_ok in H as (? & ? & ?)
  | H : scope _ = Ok _ |- _ => apply urlText_ok in H as (? & ? & ?)
  | H : requestId _ = Ok _ |- _ => apply urlText_ok in H as (? & ? & ?)
  | H : exact _ _ = Ok _ |- _ => apply exact_record in H as [? ?]
  end.

Lemma captureObject_value o : object_ok o -> captureObject (object_value o) = Ok o.
Proof.
  intros [Hid Hepoch]. unfold captureObject. change (exact (object_value o) _) with (Ok tt). cbn [mbind result_bind].
  change ((object_value o).["objectId"]) with (Str (cov_objectId o)).
  rewrite validate_str by done. cbn [mbind result_bind].
  change ((object_value o).["keyEpoch"]) with (Archive.int (cov_keyEpoch o)).
  rewrite positive_int by done. by destruct o.
Qed.

Lemma captureObject_ok v o : captureObject v = Ok o -> object_ok o.
Proof.
  unfold captureObject. intros H. captured. by subst.
Qed.

Lemma captureObjects_value objects : Forall object_ok objects -> ascending (map cov_objectId objects) = true ->
  (1 <= length objects <= 64)%nat -> captureArchiveCoverageObjects (Arr (map object_value objects)) = Ok objects.
Proof.
  intros Hok Hasc [Hl Hm]. unfold captureArchiveCoverageObjects. cbn [isArray items]. rewrite length_map.
  apply Nat.leb_le in Hl, Hm. rewrite Hl, Hm. cbn [andb require mbind result_bind].
  assert (mapR captureObject (map object_value objects) = Ok objects) as ->.
  { apply mapR_ok. clear Hasc Hl Hm. induction Hok; constructor; [by apply captureObject_value|done]. }
  cbn [mbind result_bind]. by rewrite Hasc.
Qed.

Lemma captureObjects_ok v objects : captureArchiveCoverageObjects v = Ok objects ->
  Forall object_ok objects /\ ascending (map cov_objectId objects) = true /\ (1 <= length objects <= 64)%nat /\ length (items v) = length objects.
Proof.
  unfold captureArchiveCoverageObjects. intros (? & Hn & H)%bind_ok. apply bind_ok in H as (? & Hmap%mapR_ok & H).
  apply bind_ok in H as (? & Hasc & [= ->]). apply require_ok in Hn, Hasc. bool_to_prop. apply Forall2_length in Hmap as Hlen.
  repeat match goal with H : (_ <=? _)%nat = true |- _ => apply Nat.leb_le in H end.
  split_and!; [|done|lia..]. clear -Hmap. induction Hmap; constructor; [by eapply captureObject_ok|done].
Qed.

Lemma summarySnapshot_value s : summary_ok s -> summarySnapshot (summary_value s) = Ok s.
Proof.
  intros (Hh & Hc & Hf & Hl & Hd & Ho & H1 & H0). unfold summarySnapshot. change (exact (summary_value s) summaryKeys) with (Ok tt). cbn [mbind result_bind].
  change ((summary_value s).["height"]) with (Num (Int (sum_height s))). cbv beta iota. change ((summary_value s).["objectCount"]) with (Archive.int (sum_objectCount s)).
  change ((summary_value s).["firstObjectId"]) with (Str (sum_firstObjectId s)). change ((summary_value s).["lastObjectId"]) with (Str (sum_lastObjectId s)).
  change ((summary_value s).["setDigest"]) with (Str (sum_setDigest s)). change ((summary_value s).["rootCovered"]) with (Bool (sum_rootCovered s)).
  rewrite (proj2 (Z.ltb_ge _ 0)), (proj2 (Z.leb_gt 32 _)) by lia. cbn [orb mbind result_bind].
  rewrite positive_int by done. cbn [mbind result_bind].
  rewrite !validate_str by done. cbn [mbind result_bind]. rewrite Ho. cbn [orb].
  assert (Bool.eqb (sum_objectCount s =? 1) (bool_decide (sum_firstObjectId s = sum_lastObjectId s)) = true) as ->.
  { apply eqb_true_iff, eq_iff_eq_true. rewrite bool_decide_eq_true, Z.eqb_eq. done. }
  destruct (sum_height s =? 0) eqn:Hz; cbn [negb orb andb].
  - apply Z.eqb_eq in Hz. rewrite (proj2 (Z.ltb_ge 64 _)) by auto. by destruct s.
  - by destruct s.
Qed.

Lemma summarySnapshot_ok v s : summarySnapshot v = Ok s -> summary_ok s.
Proof.
  unfold summarySnapshot. intros H. captured.
  match goal with H : match ?v with _ => _ end = Ok s |- _ => destruct v; try discriminate H; revert H end.
  guard_passed as Hg. intros [= <-]. bool_to_prop.
  match goal with H : match ?v with _ => _ end = Ok _ |- _ => destruct v as [| | |[y| |]| | |]; try discriminate H; revert H end.
  guard_passed as Hh. intros [= <-]. bool_to_prop. unfold summary_ok. cbn.
  match goal with H : Bool.eqb _ _ = true |- _ => apply eqb_prop in H as Heq end.
  split_and!; try done; try lia.
  rewrite <-Z.eqb_eq, Heq. apply bool_decide_eq_true.
Qed.

(** A receipt that was captured is captured as it is. *)
Lemma captureChild_ok input c : captureArchiveCoverageChild input = Ok c ->
  digestPattern (child_signer c) = true /\
  (length (child_signature c) = 86%nat /\ exists bytes, fromBase64Url (child_signature c) = Ok bytes /\ length bytes = 64%nat /\ toBase64Url bytes = child_signature c) /\
  (digestPattern (hdr_serviceId (child_header c)) = true /\ scope (Str (hdr_scopeId (child_header c))) = Ok (hdr_scopeId (child_header c)) /\
   1 <= hdr_policyRevision (child_header c) <= MAX_SAFE_INTEGER /\ requestId (Str (hdr_requestId (child_header c))) = Ok (hdr_requestId (child_header c))) /\
  match c with
  | BatchReceipt _ objects _ _ => Forall object_ok objects /\ ascending (map cov_objectId objects) = true /\ (1 <= length objects <= 64)%nat
  | AggregateReceipt _ archiveRootId s _ _ =>
      digestPattern archiveRootId = true /\ summary_ok s /\ sum_height s <> 0 /\ validateRootRange s archiveRootId = Ok tt
  end /\ byteLength (canonicalBytes (child_value c)) <= 8192.
Proof.
  unfold captureArchiveCoverageChild. intros H.
  apply bind_ok in H as (? & _ & H). apply bind_ok in H as (signer & [_ Hsigner]%validate_ok & H). apply bind_ok in H as (signature & Hsig & H).
  apply bind_ok in H as (bytes & Hbytes & H). apply bind_ok in H as (? & Hb%require_ok & H). apply bind_ok in H as (? & _ & H).
  apply bind_ok in H as (? & _ & H). apply bind_ok in H as (? & _ & H). apply bind_ok in H as (serviceId & [_ Hservice]%validate_ok & H).
  apply bind_ok in H as (scopeId & Hscope & H). apply bind_ok in H as (revision & [_ Hrevision]%positive_ok & H). apply bind_ok in H as (request & Hrequest & H).
  apply bind_ok in H as (child & Hchild & H). apply bind_ok in H as (? & Hsize%require_ok & [= <-]).
  assert (length signature = 86%nat) as H86.
  { destruct (input.["signature"]); try discriminate Hsig. destruct (length s =? 86)%nat eqn:Hl; [|done]. injection Hsig as <-. by apply Nat.eqb_eq. }
  apply urlText_ok in Hscope as (_ & Hs1 & Hs2), Hrequest as (_ & Hr1 & Hr2). bool_to_prop. apply Nat.eqb_eq in H.
  assert (scope (Str scopeId) = Ok scopeId) as Hscope by by apply urlText_ok. assert (requestId (Str request) = Ok request) as Hrequest by by apply urlText_ok.
  destruct (isStr batchKind _).
  - apply bind_ok in Hchild as (objects & (? & ? & ? & _)%captureObjects_ok & [= <-]). cbn [child_header child_signer child_signature hdr_serviceId hdr_scopeId hdr_policyRevision hdr_requestId].
    split_and!; first [done|lia|by exists bytes|idtac].
  - apply bind_ok in Hchild as (rootId & [_ ?]%validate_ok & Hc). apply bind_ok in Hc as (s & Hsum%summarySnapshot_ok & Hc).
    apply bind_ok in Hc as (? & Hz%require_ok & Hc). apply bind_ok in Hc as ([] & Hrange & [= <-]). cbn [child_header child_signer child_signature hdr_serviceId hdr_scopeId hdr_policyRevision hdr_requestId].
    bool_to_prop. apply Z.eqb_neq in Hz. split_and!; first [done|lia|by exists bytes|idtac].
Qed.

Lemma captureChild_again input c : captureArchiveCoverageChild input = Ok c -> captureArchiveCoverageChild (child_value c) = Ok c.
Proof.
  intros (Hsigner & (H86 & bytes & Hbytes & H64 & Hto) & (Hservice & Hscope & Hrevision & Hrequest) & Hc & Hsize)%captureChild_ok.
  unfold captureArchiveCoverageChild. change (exact (child_value c) _) with (Ok tt). cbn [mbind result_bind].
  change ((child_value c).["signerKeyId"]) with (Str (child_signer c)). rewrite validate_str by done. cbn [mbind result_bind].
  change ((child_value c).["signature"]) with (Str (child_signature c)). cbv beta iota. rewrite H86. cbn [Nat.eqb mbind result_bind].
  rewrite Hbytes. cbn [mbind result_bind]. rewrite H64, (bool_decide_eq_true_2 _ Hto). cbn [Nat.eqb andb require mbind result_bind].
  change ((child_value c).["payload"]) with (child_payload c). apply Z.leb_le in Hsize.
  destruct c as [[service scopeId revision request] objects signer signature|[service scopeId revision request] rootId s signer signature]; cbn [child_header child_signer child_signature hdr_serviceId hdr_scopeId hdr_policyRevision hdr_requestId] in *.
  - destruct Hc as (Hok & Hasc & Hlen). set (payload := child_payload _). change (isRecord payload) with true. change (isStr batchKind payload.["kind"]) with true.
    cbv beta iota. change (exact payload _) with (Ok tt). change (isInt 1 payload.["version"]) with true. cbn [require mbind result_bind].
    change (payload.["serviceId"]) with (Str service). change (payload.["scopeId"]) with (Str scopeId). change (payload.["policyRevision"]) with (Archive.int revision).
    change (payload.["requestId"]) with (Str request). rewrite validate_str, Hscope, positive_int, Hrequest by done. cbn [mbind result_bind].
    change (payload.["objects"]) with (Arr (map object_value objects)). rewrite captureObjects_value by done. cbn [mbind result_bind]. by rewrite Hsize.
  - destruct Hc as (Hroot & Hok & Hz & Hrange). set (payload := child_payload _). change (isRecord payload) with true. change (isStr batchKind payload.["kind"]) with false.
    change (isStr aggregateKind payload.["kind"]) with true.
    cbv beta iota. change (exact payload _) with (Ok tt). change (isInt 1 payload.["version"]) with true. cbn [require mbind result_bind].
    change (payload.["serviceId"]) with (Str service). change (payload.["scopeId"]) with (Str scopeId). change (payload.["policyRevision"]) with (Archive.int revision).
    change (payload.["requestId"]) with (Str request). rewrite validate_str, Hscope, positive_int, Hrequest by done. cbn [mbind result_bind].
    change (payload.["archiveRootId"]) with (Str rootId). rewrite validate_str by done. cbn [mbind result_bind].
    change (Obj (map (fun key => (key, getOpt key payload)) summaryKeys)) with (summary_value s). rewrite summarySnapshot_value by done. cbn [mbind result_bind].
    apply Z.eqb_neq in Hz. rewrite Hz. cbn [negb require mbind result_bind]. rewrite Hrange. cbn [mbind result_bind]. by rewrite Hsize.
Qed.

Lemma captureAuthority_again input a : captureArchiveCoverageAuthority input = Ok a -> captureArchiveCoverageAuthority (authority_value a) = Ok a.
Proof.
  unfold captureArchiveCoverageAuthority at 1. intros H. captured. subst. unfold captureArchiveCoverageAuthority.
  set (v := authority_value _). change (v.["servicePublicKey"]) with (Str x). change (v.["scopeId"]) with (Str x0). change (v.["policyRevision"]) with (Archive.int x1).
  rewrite validate_str, positive_int by done. unfold scope. by rewrite (proj2 (urlText_ok 1 128 (Str x0) x0)).
Qed.
