(* ===== verification/CoverageSet.v ===== *)
(** * Archive coverage: complete sets

    [packages/mesh-replication/src/historyArchiveCoverageSet.ts]: the summary of
    a whole set of objects, computed with one bucket per level from an ordered
    stream; having a service confirm it batch by batch; and comparing a signed
    summary with the set it should be about.  A source is what its iteration
    gives, ended by what it throws, if it throws. *)
From stdpp Require Import base numbers list strings sets sorting.
From Stdlib Require Import ZArith NArith Lia.
From S2P Require Import Prelude Unicode Json Base64 Digest Envelope Archive ArchiveSize Js Coverage.
Local Open Scope js_scope.
Local Open Scope Z_scope.

Definition ArchiveCoverageSource : Type := list value * result unit.

Record Node (T : Type) := mkNode { summary : ArchiveCoverageSummary; evidence : T }.
Arguments mkNode {T}.
Arguments summary {T}.
Arguments evidence {T}.

Record Factory (W T : Type) := mkFactory {
  leaf : list ArchiveCoverageObject -> ArchiveCoverageSummary -> M W T;
  branch : list (Node T) -> ArchiveCoverageSummary -> M W T }.
Arguments mkFactory {W T}.
Arguments leaf {W T}.
Arguments branch {W T}.

Definition incomplete : string := "Incomplete or invalid archive coverage set".

Definition sameSummary (left right : ArchiveCoverageSummary) : bool :=
  bool_decide (canonText str_leb (summary_value left) = canonText str_leb (summary_value right)).

(** [levels[height]], where a level that was never set is empty. *)
Definition bucketAt {A} (levels : list (list A)) (height : nat) : list A := default [] (levels !! height).
Definition setBucket {A} (levels : list (list A)) (height : nat) (bucket : list A) : list (list A) :=
  take height (levels ++ replicate (height - length levels) []) ++ bucket :: drop (S height) levels.

Section Reduce.
Context `{Sha256} {W T : Type}.
Variable root : list N.
Variable factory : Factory W T.

Definition combine (children : list (Node T)) : M W (Node T) :=
  summary ← liftM (archiveCoverageBranch root (map (fun child => summary_value (summary child)) children));
  evidence ← branch factory children summary;
  mret (mkNode summary evidence).

(** The loop of [push].  A branch is one level above its children and below
    level 32, so the loop ends within 32 rounds. *)
Fixpoint push (fuel : nat) (levels : list (list (Node T))) (node : Node T) : M W (list (list (Node T))) :=
  match fuel with
  | O => throwM "out of fuel"
  | S fuel =>
      let height := Z.to_nat (sum_height (summary node)) in
      let bucket := bucketAt levels height ++ [node] in
      if (length bucket <? 8)%nat then mret (setBucket levels height bucket) else
      node ← combine bucket;
      push fuel (setBucket levels height []) node
  end.

Definition pushNode : list (list (Node T)) -> Node T -> M W (list (list (Node T))) := push 33.

Definition flush (levels : list (list (Node T))) (batch : list ArchiveCoverageObject) : M W (list (list (Node T))) :=
  summary ← liftM (archiveCoverageLeaf (Arr (map object_value batch)) root);
  evidence ← leaf factory batch summary;
  pushNode levels (mkNode summary evidence).

(** The variables of the loop over the source. *)
Record Reading := mkReading { r_levels : list (list (Node T)); r_objects : list ArchiveCoverageObject; r_previous : option (list N) }.

Definition readEntry (r : Reading) (input : value) : M W Reading :=
  captured ← liftM (captureArchiveCoverageObjects (Arr [input]));
  match captured with
  | [] => throwM incomplete
  | entry :: _ =>
      requireM (match r_previous r with Some previous => str_ltb previous (cov_objectId entry) | None => true end) incomplete;;
      let objects := r_objects r ++ [entry] in
      if (length objects =? 64)%nat
      then levels ← flush (r_levels r) objects; mret (mkReading levels [] (Some (cov_objectId entry)))
      else mret (mkReading (r_levels r) objects (Some (cov_objectId entry)))
  end.

(** [for await (const input of source)] runs its body on what the source gives, and whatever the source does in between. *)
Definition Iteration : Type := (Reading -> value -> M W Reading) -> Reading -> M W Reading.

Fixpoint readEntries (body : Reading -> value -> M W Reading) (r : Reading) (source : list value) : M W Reading :=
  match source with
  | [] => mret r
  | input :: rest => r ← body r input; readEntries body r rest
  end.

(** A source that is known beforehand. *)
Definition iterate (source : ArchiveCoverageSource) : Iteration := fun body r =>
  r ← readEntries body r source.1;
  liftM source.2;;
  mret r.

(** The loop over the heights: [remaining] of them are left. *)
Fixpoint closing (remaining : nat) (height : nat) (levels : list (list (Node T))) : M W (Node T) :=
  match remaining with
  | O => throwM incomplete
  | S remaining =>
      match bucketAt levels height with
      | [] => closing remaining (S height) levels
      | node :: more =>
          if (0 <? height)%nat && (length more =? 0)%nat && forallb (fun level => (length level =? 0)%nat) (drop (S height) levels)
          then mret node else
          combined ← combine (node :: more);
          levels ← pushNode (setBucket levels height []) combined;
          closing remaining (S height) levels
      end
  end.

(** What follows the loop over the source. *)
Definition conclude (r : Reading) : M W (Node T) :=
  levels ← (if (length (r_objects r) =? 0)%nat then mret (r_levels r) else flush (r_levels r) (r_objects r));
  requireM (bool_decide (is_Some (r_previous r))) incomplete;;
  closing 32 0 levels.

Definition reduceSet (source : Iteration) : M W (Node T) :=
  liftM (validateArchiveObjectId (Str root));;
  r ← source readEntry (mkReading [] [] None);
  conclude r.
End Reduce.

Arguments iterate {W T} source body r.
Arguments mkReading {T}.
Arguments r_levels {T}.
Arguments r_objects {T}.
Arguments r_previous {T}.

Section Sets.
Context `{Sha256}.

Definition noEvidence {W} : Factory W unit := mkFactory (fun _ _ => mret tt) (fun _ _ => mret tt).

Definition deriveFrom {W} (root : list N) (source : Iteration (W := W)) : M W ArchiveCoverageSummary :=
  node ← reduceSet root noEvidence source;
  mret (summary node).

Definition deriveArchiveCoverageSet (root : list N) (source : ArchiveCoverageSource) : result ArchiveCoverageSummary :=
  (deriveFrom root (iterate source) tt).1.

Definition verifyCompleteArchiveCoverage `{Ed25519} (input authority : value) (root : list N) (source : ArchiveCoverageSource)
    : result ArchiveCoverageSummary :=
  receipt ← captureArchiveCoverageChild input;
  match receipt with
  | BatchReceipt _ _ _ _ => Throw incomplete
  | AggregateReceipt _ _ _ _ _ =>
      actual ← verifyArchiveCoverageChild (child_value receipt) authority root;
      expected ← deriveArchiveCoverageSet root source;
      if negb (sum_rootCovered expected) || negb (sameSummary actual expected) then Throw incomplete else Ok actual
  end.
End Sets.

(** The storage service as the client sees it. *)
Class ArchiveCoveragePort (W : Type) := {
  port_coverage : list ArchiveCoverageObject -> list N -> M W value;
  port_aggregate : list N -> list ArchiveCoverageChild -> list N -> M W value;
  port_ensureCurrent : M W unit }.

Section Confirm.
Context `{Sha256} `{Ed25519} {W : Type} `{ArchiveCoveragePort W}.
Variables (authority : ArchiveCoverageAuthority) (root transitionId : list N).

Definition challenge (s : ArchiveCoverageSummary) : list N :=
  sha256Base64Url (TextEncoder_encode (js "MESH-HISTORY/1/coverage-request" ++ [0%N] ++
    canonText str_leb (Obj [(js "authority", authority_value authority); (js "archiveRootId", Str root);
      (js "transitionId", Str transitionId); (js "summary", summary_value s)]))).

Definition verified (input : value) (s : ArchiveCoverageSummary) (request : list N) : M W ArchiveCoverageChild :=
  receipt ← liftM (captureArchiveCoverageChild input);
  requireM (bool_decide (hdr_requestId (child_header receipt) = request)) incomplete;;
  attested ← liftM (verifyArchiveCoverageChild (child_value receipt) (authority_value authority) root);
  requireM (sameSummary attested s) incomplete;;
  port_ensureCurrent;;
  mret receipt.

Definition isBatch (c : ArchiveCoverageChild) : bool := match c with BatchReceipt _ _ _ _ => true | _ => false end.

Definition confirmLeaf (objects : list ArchiveCoverageObject) (s : ArchiveCoverageSummary) : M W ArchiveCoverageChild :=
  let request := challenge s in
  port_ensureCurrent;;
  answer ← port_coverage objects request;
  receipt ← verified answer s request;
  requireM (isBatch receipt) incomplete;;
  mret receipt.

Definition confirmBranch (children : list (Node ArchiveCoverageChild)) (s : ArchiveCoverageSummary) : M W ArchiveCoverageChild :=
  let request := challenge s in
  port_ensureCurrent;;
  answer ← port_aggregate root (map evidence children) request;
  receipt ← verified answer s request;
  requireM (negb (isBatch receipt)) incomplete;;
  mret receipt.
End Confirm.

Definition confirmFrom `{Sha256} `{Ed25519} {W} `{ArchiveCoveragePort W} (authorityInput : value)
    (root transitionId : list N) (source : Iteration) : M W ArchiveCoverageChild :=
  authority ← liftM (captureArchiveCoverageAuthority authorityInput);
  liftM (validateArchiveObjectId (Str root));;
  requireM ((1 <=? length transitionId)%nat && (length transitionId <=? 128)%nat && forallb urlChar transitionId) incomplete;;
  port_ensureCurrent;;
  result ← reduceSet root (mkFactory (confirmLeaf authority root transitionId) (confirmBranch authority root transitionId)) source;
  requireM (sum_rootCovered (summary result) && negb (isBatch (evidence result))) incomplete;;
  port_ensureCurrent;;
  mret (evidence result).

Definition confirmArchiveCoverageSet `{Sha256} `{Ed25519} {W} `{ArchiveCoveragePort W} (authorityInput : value)
    (root transitionId : list N) (source : ArchiveCoverageSource) : M W ArchiveCoverageChild :=
  confirmFrom authorityInput root transitionId (iterate source).

(** ** Digests determine what they are of *)
Lemma encode_ascii_app p s : forallb (fun u => u <? 128)%N p = true -> TextEncoder_encode (p ++ s) = p ++ TextEncoder_encode s.
Proof.
  induction p as [|u p IH]; [done|]. cbn [forallb app]. rewrite andb_true_iff, N.ltb_lt. intros [Hu Hp]. rewrite <-(IH Hp).
  assert (codePoints (u :: p ++ s) = u :: codePoints (p ++ s)) as Hc.
  { cbn [codePoints]. assert (isHigh u = false) as -> by (unfold isHigh; apply andb_false_iff; left; apply N.leb_gt; lia). cbn [andb]. by destruct (p ++ s). }
  unfold TextEncoder_encode. rewrite Hc. cbn [map encodePoints concat]. unfold encodePoints. cbn [map concat].
  assert (replacement u = u) as ->.
  { unfold replacement, isSurrogate. assert ((0xD800 <=? u)%N = false) as -> by (apply N.leb_gt; lia). done. }
  unfold utf8Point. apply N.ltb_lt in Hu. by rewrite Hu.
Qed.

Lemma canonicalBytes_same v v' : plain v -> plain v' -> canonicalBytes v = canonicalBytes v' -> same v v'.
Proof.
  intros Hv Hv' H. apply canonText_normal; [done..|]. unfold canonicalBytes in H.
  pose proof (clean_canonText str_leb v Hv) as (Hu & Hw & _)%clean_wellFormed.
  pose proof (clean_canonText str_leb v' Hv') as (Hu' & Hw' & _)%clean_wellFormed. by apply encode_inj.
Qed.

Lemma digestInput_same v v' : plain v -> plain v' -> digestInput v = digestInput v' -> same v v'.
Proof.
  intros Hv Hv'. unfold digestInput. rewrite !(app_assoc _ [0%N]), !encode_ascii_app by done. intros H%app_inv_head.
  by apply canonicalBytes_same.
Qed.

Lemma digest_units id : digestPattern id = true -> units id.
Proof. intros H%Is_true_true. apply digestPattern_chars in H as [_ H]. by apply ascii_units. Qed.

Lemma safe_between z : - MAX_SAFE_INTEGER <= z <= MAX_SAFE_INTEGER -> isSafeInteger z.
Proof. intros [? ?]. apply Is_true_true. unfold isSafeInteger. apply andb_true_iff. by rewrite !Z.leb_le. Qed.

(** An object with concrete keys. *)
Ltac plain_record := apply plain_obj; split; [repeat first [apply Forall_nil_2|apply Forall_cons_2]; (split; [done|]); cbn [fst snd] |apply (bool_decide_unpack _); vm_compute; exact I].

Lemma coverage_object_plain o : object_ok o -> plain (object_value o).
Proof.
  intros [Hid Hep]. unfold object_value. plain_record; [by apply digest_units|].
  apply safe_between. unfold MAX_SAFE_INTEGER in *. lia.
Qed.

Lemma summary_plain s : summary_ok s -> plain (summary_value s).
Proof.
  intros (Hh & Hc & Hf & Hl & Hd & _). unfold summary_value, summary_members. plain_record; try done; try by apply digest_units.
  all: apply safe_between; unfold MAX_SAFE_INTEGER in *; lia.
Qed.

Lemma leaf_plain objects : Forall object_ok objects -> plain (leaf_value objects).
Proof.
  intros Hok. unfold leaf_value. plain_record; [done..|]. apply plain_items. apply Forall_fmap. eapply Forall_impl; [done|]. apply coverage_object_plain.
Qed.

Lemma branch_plain root children : digestPattern root = true -> Forall summary_ok children -> plain (branch_value root children).
Proof.
  intros Hr Hok. unfold branch_value. plain_record; [done..|by apply digest_units|]. apply plain_items. apply Forall_fmap. eapply Forall_impl; [done|]. apply summary_plain.
Qed.

Lemma normal_object_inj o o' : normal str_leb (object_value o) = normal str_leb (object_value o') -> o = o'.
Proof.
  change (normal str_leb (object_value ?x)) with (Obj [(js "keyEpoch", Archive.int (cov_keyEpoch x)); (js "objectId", Str (cov_objectId x))]).
  destruct o, o'. cbn. intros H. by injection H as -> ->.
Qed.

Lemma normal_summary_inj s s' : normal str_leb (summary_value s) = normal str_leb (summary_value s') -> s = s'.
Proof.
  intros H. assert (forall key, member key (members (normal str_leb (summary_value s))) = member key (members (normal str_leb (summary_value s')))) as Hm by by rewrite H.
  pose proof (Hm (js "height")) as H1. pose proof (Hm (js "objectCount")) as H2. pose proof (Hm (js "firstObjectId")) as H3.
  pose proof (Hm (js "lastObjectId")) as H4. pose proof (Hm (js "setDigest")) as H5. pose proof (Hm (js "rootCovered")) as H6.
  clear H Hm. destruct s, s'. injection H1 as ->. injection H2 as ->. injection H3 as ->. injection H4 as ->. injection H5 as ->. by injection H6 as ->.
Qed.

Lemma map_normal_inj {A} (f : A -> value) l l' : (forall x y, normal str_leb (f x) = normal str_leb (f y) -> x = y) ->
  same (Arr (map f l)) (Arr (map f l')) -> l = l'.
Proof.
  intros Hinj H. unfold same in H. cbn [normal] in H. injection H as H. revert l' H.
  induction l as [|x l IH]; intros [|y l']; cbn; try done. intros [= Hx Hl]. f_equal; [by apply Hinj|by apply IH].
Qed.

Lemma sameSummary_true s s' : summary_ok s -> summary_ok s' -> sameSummary s s' = true <-> s = s'.
Proof.
  intros Hs Hs'. unfold sameSummary. rewrite bool_decide_eq_true. split; [|by intros ->].
  intros H. apply canonText_normal in H; [|by apply summary_plain..]. by apply normal_summary_inj.
Qed.

Lemma leaf_input_inj objects objects' : Forall object_ok objects -> Forall object_ok objects' ->
  digestInput (leaf_value objects) = digestInput (leaf_value objects') -> objects = objects'.
Proof.
  intros Hok Hok' H. apply digestInput_same in H; [|by apply leaf_plain..].
  apply (same_get (js "objects")) in H; [|by apply leaf_plain..]. apply (map_normal_inj object_value); [apply normal_object_inj|done].
Qed.

Lemma branch_input_inj root children root' children' : digestPattern root = true -> digestPattern root' = true ->
  Forall summary_ok children -> Forall summary_ok children' ->
  digestInput (branch_value root children) = digestInput (branch_value root' children') -> children = children'.
Proof.
  intros Hr Hr' Hok Hok' H. apply digestInput_same in H; [|by apply branch_plain..].
  apply (same_get (js "children")) in H; [|by apply branch_plain..]. apply (map_normal_inj summary_value); [apply normal_summary_inj|done].
Qed.

(** ** The canonical tree

    Leaves of 64 objects and branches of eight nodes, each but the last of a
    level full: a node of height [h] stands for [segment h] consecutive objects. *)
Definition segment (h : nat) : nat := 64 * 8 ^ h.

Fixpoint groupsOf {A} (fuel n : nat) (l : list A) : list (list A) :=
  match fuel, l with
  | S fuel, _ :: _ => take n l :: groupsOf fuel n (drop n l)
  | _, _ => []
  end.
Definition groups {A} (n : nat) (l : list A) : list (list A) := groupsOf (length l) n l.

Section Canonical.
Context `{Sha256}.
Variable root : list N.

Definition describe (h : nat) (setDigest : list N) (objects : list ArchiveCoverageObject) : ArchiveCoverageSummary :=
  mkSummary (Z.of_nat h) (Z.of_nat (length objects)) (idAt (head objects)) (idAt (last objects)) setDigest
    (existsb (fun object => bool_decide (cov_objectId object = root)) objects).

Fixpoint canonDigest (h : nat) (objects : list ArchiveCoverageObject) : list N :=
  match h with
  | O => digest (leaf_value objects)
  | S h => digest (branch_value root (map (fun part => describe h (canonDigest h part) part) (groups (segment h) objects)))
  end.

Definition canon (h : nat) (objects : list ArchiveCoverageObject) : ArchiveCoverageSummary := describe h (canonDigest h objects) objects.
End Canonical.

(** Consecutive parts of length [n], of which the last may be shorter. *)
Inductive tiles {A} (n : nat) : list (list A) -> Prop :=
| tiles_last part : (0 < length part <= n)%nat -> tiles n [part]
| tiles_cons part parts : length part = n -> tiles n parts -> tiles n (part :: parts).

Lemma groups_tiles {A} n (parts : list (list A)) : (0 < n)%nat -> tiles n parts -> groups n (concat parts) = parts.
Proof.
  intros Hn Ht. unfold groups. generalize (Nat.le_refl (length (concat parts))). generalize (length (concat parts)) at 2 3 as fuel.
  induction Ht as [part Hp|part parts Hp Ht IH]; intros fuel Hf; cbn [concat] in *.
  - rewrite app_nil_r in *. destruct part as [|x part]; [cbn in Hp; lia|]. destruct fuel as [|fuel]; [cbn in Hf; lia|]. cbn [groupsOf].
    rewrite take_ge, drop_ge by lia. by destruct fuel.
  - rewrite length_app in Hf. destruct fuel as [|fuel]; [lia|]. destruct (part ++ concat parts) as [|x l] eqn:Hl.
    { apply (f_equal length) in Hl. rewrite length_app in Hl. cbn in Hl. lia. }
    cbn [groupsOf]. rewrite <-Hl, take_app_length', drop_app_length' by done. f_equal. apply IH. lia.
Qed.

Lemma tiles_snoc {A} n (parts : list (list A)) part : Forall (fun p => length p = n) parts -> (0 < length part <= n)%nat -> tiles n (parts ++ [part]).
Proof. intros Hf Hp. induction Hf; cbn; [by constructor|by apply tiles_cons]. Qed.

Lemma tiles_full {A} n (parts : list (list A)) : (0 < n)%nat -> Forall (fun p => length p = n) parts -> parts <> [] -> tiles n parts.
Proof. intros Hn Hf Hne. destruct parts as [|part parts _] using rev_ind; [done|]. apply Forall_app in Hf as [Hf [Hp _]%Forall_cons]. apply tiles_snoc; [done|lia]. Qed.

Lemma tiles_concat {A} n (parts : list (list A)) : (0 < n)%nat -> tiles n parts -> (0 < length (concat parts) <= length parts * n)%nat.
Proof. intros Hn. induction 1 as [part Hp|part parts Hp Ht IH]; cbn; rewrite ?app_nil_r, ?length_app; lia. Qed.

Lemma tiles_nonempty {A} n (parts : list (list A)) : (0 < n)%nat -> tiles n parts -> Forall (fun p => (0 < length p <= n)%nat) parts.
Proof. intros Hn. induction 1; constructor; [lia|done|lia|done]. Qed.

Lemma segment_pos h : (0 < segment h)%nat.
Proof. unfold segment. pose proof (Nat.pow_nonzero 8 h). lia. Qed.

Lemma segment_S h : segment (S h) = (8 * segment h)%nat.
Proof. unfold segment. cbn [Nat.pow]. lia. Qed.

(** ** Ordered objects *)
Definition before (a b : ArchiveCoverageObject) : Prop := str_ltb (cov_objectId a) (cov_objectId b).
Definition ordered : list ArchiveCoverageObject -> Prop := StronglySorted before.

Lemma ordered_ascending objects : ordered objects <-> ascending (map cov_objectId objects) = true.
Proof.
  induction objects as [|a objects IH]; [split; [done|constructor]|]. cbn [map ascending]. split.
  - intros [Hs Ha]%StronglySorted_inv. destruct objects as [|b objects]; [done|]. cbn [map]. apply andb_true_iff. split.
    + apply Forall_cons in Ha as [Ha _]. by apply Is_true_true.
    + by apply IH.
  - destruct objects as [|b objects]; [repeat constructor|]. cbn [map] in *. intros [Hab Hs]%andb_true_iff. apply IH in Hs. constructor; [done|].
    apply Is_true_true in Hab. constructor; [done|]. apply StronglySorted_inv in Hs as [_ Hs]. eapply Forall_impl; [exact Hs|]. intros c Hc. by eapply str_ltb_trans.
Qed.

Lemma ordered_append l k : ordered (l ++ k) <-> ordered l /\ ordered k /\ forall a b, a ∈ l -> b ∈ k -> before a b.
Proof.
  induction l as [|x l IH]; cbn [app]; [split; [intros; split_and!; [constructor|done|by intros ?? ?%not_elem_of_nil]|by intros (_ & ? & _)]|].
  split.
  - intros [(Hl & Hk & Hb)%IH Hx]%StronglySorted_inv. rewrite Forall_app, !Forall_forall in Hx. destruct Hx as [Hx Hxk].
    split_and!; [constructor; [done|by apply Forall_forall]|done|]. intros a b [->|Ha]%elem_of_cons ?; auto.
  - intros ([Hl Hx]%StronglySorted_inv & Hk & Hb). constructor; [apply IH; split_and!; [done|done|]; intros; apply Hb; [by right|done]|].
    rewrite Forall_app. split; [done|]. apply Forall_forall. intros b Hin. apply Hb; [by left|done].
Qed.

Lemma before_irrefl a : ~ before a a.
Proof. unfold before. rewrite str_ltb_irrefl. by intros []. Qed.

Lemma ordered_bounds objects o : ordered objects -> o ∈ objects ->
  (idAt (head objects) = cov_objectId o \/ str_ltb (idAt (head objects)) (cov_objectId o)) /\
  (idAt (last objects) = cov_objectId o \/ str_ltb (cov_objectId o) (idAt (last objects))).
Proof.
  intros Hs Ho. split.
  - destruct objects as [|a objects]; [by apply not_elem_of_nil in Ho|]. cbn. apply StronglySorted_inv in Hs as [_ Hs].
    apply elem_of_cons in Ho as [->|Ho]; [by left|]. rewrite Forall_forall in Hs. right. by apply Hs.
  - destruct objects as [|z objects _] using rev_ind; [by apply not_elem_of_nil in Ho|]. rewrite last_snoc. cbn.
    apply ordered_append in Hs as (_ & _ & Hs). apply elem_of_app in Ho as [Ho|[->|[]%not_elem_of_nil]%elem_of_cons]; [|by left]. right. apply Hs; [done|by left].
Qed.

(** ** Leaves and branches of the canonical tree are accepted *)
Section Accepted.
Context `{Sha256}.
Variable root : list N.
Hypothesis root_pattern : digestPattern root = true.

(** The objects of a node: in order, well formed, and few enough to count. *)
Definition countable (objects : list ArchiveCoverageObject) : Prop :=
  Forall object_ok objects /\ ordered objects /\ Z.of_nat (length objects) <= MAX_SAFE_INTEGER.

Lemma countable_app l k : countable (l ++ k) -> countable l /\ countable k.
Proof.
  intros ([Hl Hk]%Forall_app & (Ol & Ok & _)%ordered_append & Hn). rewrite length_app in Hn. unfold countable. split_and!; try done; lia.
Qed.

Lemma ends (objects : list ArchiveCoverageObject) : objects <> [] -> exists a z, head objects = Some a /\ last objects = Some z /\ a ∈ objects /\ z ∈ objects.
Proof.
  intros Hne. destruct objects as [|a objects]; [done|]. destruct (last (a :: objects)) as [z|] eqn:Hz; [|by apply last_None in Hz].
  exists a, z. split_and!; [done..|by left|by apply last_Some_elem_of].
Qed.

Lemma canon_ok h objects : countable objects -> objects <> [] -> (length objects <= segment h)%nat -> (h < 32)%nat -> summary_ok (canon root h objects).
Proof.
  intros (Hok & Hs & Hn) Hne Hseg Hh. destruct (ends objects Hne) as (a & z & Ha & Hz & Hain & Hzin).
  rewrite Forall_forall in Hok. unfold summary_ok, canon, describe. cbn [sum_height sum_objectCount sum_firstObjectId sum_lastObjectId sum_setDigest].
  rewrite Ha, Hz. cbn [idAt option_fmap option_map fmap default]. split_and!; try lia.
  - destruct objects; [done|cbn; lia].
  - apply Hok, Hain.
  - apply Hok, Hzin.
  - destruct h; apply Is_true_true, sha256Base64Url_pattern.
  - destruct (ordered_bounds objects z Hs Hzin) as [Hb _]. rewrite Ha in Hb. cbn in Hb. destruct Hb as [->|Hb]; [apply str_ltb_irrefl|].
    apply not_true_is_false. intros Hc%Is_true_true. pose proof (str_ltb_trans _ _ _ Hb Hc) as Hi. by rewrite str_ltb_irrefl in Hi.
  - destruct objects as [|x [|y objects]]; [done|cbn in *; by simplify_eq|]. split; [cbn; lia|]. intros Heq. exfalso. change (cov_objectId a = cov_objectId z) in Heq.
    apply StronglySorted_inv in Hs as [_ Hs]. rewrite Forall_forall in Hs. injection Ha as ->. rewrite last_cons_cons in Hz.
    pose proof (Hs z ltac:(by apply last_Some_elem_of)) as Hb. unfold before in Hb. by rewrite Heq, str_ltb_irrefl in Hb.
  - intros Hz0. assert (h = 0%nat) as -> by lia. unfold segment in Hseg. cbn in Hseg. lia.
Qed.

Lemma canon_range h objects : countable objects -> objects <> [] -> validateRootRange (canon root h objects) root = Ok tt.
Proof.
  intros (Hok & Hs & _) Hne. unfold validateRootRange, canon, describe. cbn [sum_rootCovered sum_firstObjectId sum_lastObjectId].
  destruct (ends objects Hne) as (a & z & Ha & Hz & Hain & Hzin). apply require_ok, negb_true_iff. rewrite Ha, Hz. cbn [idAt option_fmap option_map fmap default].
  assert (forall o, o ∈ objects -> cov_objectId o = root -> existsb (fun object => bool_decide (cov_objectId object = root)) objects = true) as Hin.
  { intros o Ho Heq. apply existsb_exists. exists o. split; [by apply list_elem_of_In|by apply bool_decide_eq_true]. }
  destruct (existsb _ objects) eqn:He; cbn [andb orb negb].
  - rewrite orb_false_r. apply existsb_exists in He as (o & Ho%list_elem_of_In & Heq%bool_decide_eq_true). subst root.
    destruct (ordered_bounds objects o Hs Ho) as [Hf Hl]. rewrite Ha in Hf. rewrite Hz in Hl. cbn in Hf, Hl. apply orb_false_iff.
    split; apply not_true_is_false; intros Hc%Is_true_true.
    + destruct Hf as [Hf|Hf]; [by rewrite Hf, str_ltb_irrefl in Hc|]. pose proof (str_ltb_trans _ _ _ Hf Hc) as Hi. by rewrite str_ltb_irrefl in Hi.
    + destruct Hl as [Hl|Hl]; [by rewrite Hl, str_ltb_irrefl in Hc|]. pose proof (str_ltb_trans _ _ _ Hl Hc) as Hi. by rewrite str_ltb_irrefl in Hi.
  - apply orb_false_iff. split; apply bool_decide_eq_false; intros Heq; [specialize (Hin a Hain (eq_sym Heq))|specialize (Hin z Hzin (eq_sym Heq))]; congruence.
Qed.

Lemma leaf_accepted objects : countable objects -> (0 < length objects <= 64)%nat ->
  archiveCoverageLeaf (Arr (map object_value objects)) root = Ok (canon root 0 objects).
Proof.
  intros (Hok & Hs & _) Hlen. unfold archiveCoverageLeaf. rewrite validate_str by done. cbn [mbind result_bind].
  by rewrite captureObjects_value by (try done; try lia; by apply ordered_ascending).
Qed.

Lemma count_accepted h previous count parts :
  countable (concat parts) -> Forall (fun part => part <> []) parts ->
  match previous with Some p => forall b, b ∈ concat parts -> str_ltb (sum_lastObjectId p) (cov_objectId b) | None => True end ->
  0 <= count -> count + Z.of_nat (length (concat parts)) <= MAX_SAFE_INTEGER ->
  countChildren root (Z.of_nat h) previous count (map (canon root h) parts) = Ok (count + Z.of_nat (length (concat parts))).
Proof.
  revert previous count. induction parts as [|part parts IH]; intros previous count Hc Hne Hp H0 Hmax; cbn [concat map countChildren length] in *.
  { f_equal. lia. }
  apply Forall_cons in Hne as [Hn Hne]. pose proof Hc as (_ & (_ & _ & Hb)%ordered_append & _). apply countable_app in Hc as [Hc1 Hc2].
  rewrite canon_range by done. cbn [mbind result_bind]. rewrite length_app in Hmax. destruct (ends part Hn) as (a & z & Ha & Hz & Hain & Hzin).
  assert (0 < length part)%nat by (destruct part; [done|cbn; lia]).
  change (sum_height (canon root h part)) with (Z.of_nat h). rewrite Z.eqb_refl. cbn [negb orb].
  assert (match previous with Some p => negb (str_ltb (sum_lastObjectId p) (sum_firstObjectId (canon root h part))) | None => false end = false) as ->.
  { destruct previous as [p|]; [|done]. unfold canon, describe. cbn [sum_firstObjectId]. rewrite Ha. cbn. apply negb_false_iff, Is_true_true, Hp. rewrite elem_of_app. by left. }
  cbn [mbind result_bind]. change (sum_objectCount (canon root h part)) with (Z.of_nat (length part)). rewrite positive_int by lia. cbn [mbind result_bind].
  rewrite IH; [f_equal; rewrite length_app; lia|done|done| |lia|lia]. unfold canon, describe. cbn [sum_lastObjectId]. rewrite Hz. cbn. intros b Hin. by apply Hb.
Qed.

Lemma head_concat {A} (parts : list (list A)) : Forall (fun part => part <> []) parts -> head (concat parts) = head parts ≫= head.
Proof. intros Hne. destruct parts as [|[|x part] parts]; [done| |done]. by apply Forall_cons in Hne as [? _]. Qed.

Lemma last_concat {A} (parts : list (list A)) : Forall (fun part => part <> []) parts -> last (concat parts) = last parts ≫= last.
Proof.
  intros Hne. destruct parts as [|part parts _] using rev_ind; [done|]. rewrite concat_app, last_snoc, last_app. cbn. rewrite app_nil_r.
  apply Forall_app in Hne as [_ [Hn _]%Forall_cons]. destruct (last part) eqn:Hl; [done|]. by apply last_None in Hl.
Qed.

Lemma branch_accepted h parts : tiles (segment h) parts -> (length parts <= 8)%nat -> countable (concat parts) -> (S h < 32)%nat ->
  archiveCoverageBranch root (map (fun part => summary_value (canon root h part)) parts) = Ok (canon root (S h) (concat parts)).
Proof.
  intros Ht H8 Hc Hh. pose proof (segment_pos h) as Hpos. pose proof (tiles_nonempty _ _ Hpos Ht) as Hsizes.
  assert (Forall (fun part => part <> []) parts) as Hne. { eapply Forall_impl; [exact Hsizes|]. intros [|] ?; [cbn in *; lia|done]. }
  unfold archiveCoverageBranch. rewrite validate_str by done. cbn [mbind result_bind]. rewrite length_map.
  assert (1 <= length parts)%nat as H1 by (inversion Ht; cbn; lia). apply Nat.leb_le in H1 as H1', H8. rewrite H1', H8. cbn [andb require mbind result_bind].
  assert (forall part, part ∈ parts -> countable part) as Hpc.
  { intros part (l1 & l2 & ->)%list_elem_of_split. rewrite concat_app in Hc. cbn [concat] in Hc. by apply countable_app in Hc as [_ [? _]%countable_app]. }
  assert (mapR summarySnapshot (map (fun part => summary_value (canon root h part)) parts) = Ok (map (canon root h) parts)) as ->.
  { apply mapR_ok. rewrite Forall_forall in Hsizes, Hne. assert (forall part, part ∈ parts -> summary_ok (canon root h part)) as Hok.
    { intros part Hin. apply canon_ok; [by apply Hpc|by apply Hne|by apply Hsizes|lia]. }
    clear -Hok. induction parts as [|part parts IH]; cbn; constructor; [apply summarySnapshot_value, Hok; by left|apply IH; intros; apply Hok; by right]. }
  cbn [mbind result_bind]. assert (default 0 (sum_height <$> head (map (canon root h) parts)) = Z.of_nat h) as -> by (destruct parts; [cbn in H1; lia|done]).
  rewrite count_accepted by (try done; destruct Hc as (_ & _ & ?); lia). cbn [mbind result_bind].
  rewrite (proj2 (Z.leb_gt 32 _)) by lia. f_equal. unfold canon at 5, describe. cbn [canonDigest]. rewrite groups_tiles by done. f_equal; [lia|..].
  - rewrite head_concat by done. destruct parts as [|part parts]; [done|]. done.
  - rewrite last_concat by done. rewrite fmap_last. by destruct (last parts).
  - clear. induction parts as [|part parts IH]; [done|]. cbn [map concat existsb]. by rewrite existsb_app, IH.
Qed.
End Accepted.

Lemma capture_single input o : captureArchiveCoverageObjects (Arr [input]) = Ok [o] <-> captureObject input = Ok o.
Proof. unfold captureArchiveCoverageObjects. cbn. destruct (captureObject input) as [o'|]; [|done]. cbn. split; by intros [= ->]. Qed.

(** ** The buckets as a counter

    Level [h] holds the nodes of the canonical tree of height [h] that are not
    part of a full branch yet. *)
Section Counter.
Context `{Sha256} {W T : Type}.
Variable root : list N.
Hypothesis root_pattern : digestPattern root = true.
Variable factory : Factory W T.
(** What the evidence of a node says about its summary, and the errors that making evidence may end in. *)
Variable attests : ArchiveCoverageSummary -> T -> Prop.
Variable errors : string -> Prop.
Hypothesis leaf_attests : forall batch (w : W), countable batch -> (0 < length batch <= 64)%nat ->
  runs errors (leaf factory batch (canon root 0 batch)) w (fun t _ => attests (canon root 0 batch) t).
Hypothesis branch_attests : forall h parts nodes (w : W), map summary nodes = map (canon root h) parts ->
  Forall (fun node => attests (summary node) (evidence node)) nodes ->
  tiles (segment h) parts -> (length parts <= 8)%nat -> (S h < 32)%nat -> countable (concat parts) ->
  runs errors (branch factory nodes (canon root (S h) (concat parts))) w (fun t _ => attests (canon root (S h) (concat parts)) t).

Definition holds (h : nat) (bucket : list (Node T)) (parts : list (list ArchiveCoverageObject)) : Prop :=
  map summary bucket = map (canon root h) parts /\ Forall (fun node => attests (summary node) (evidence node)) bucket.

Fixpoint full (h : nat) (levels : list (list (Node T))) (objects : list ArchiveCoverageObject) : Prop :=
  match levels with
  | [] => objects = []
  | bucket :: upper => exists pre parts, objects = pre ++ concat parts /\ holds h bucket parts /\
      Forall (fun part => length part = segment h) parts /\ (length parts < 8)%nat /\ full (S h) upper pre
  end.

(** The same with a last node, in the lowest bucket in use, that need not be full. *)
Fixpoint tailed (h : nat) (levels : list (list (Node T))) (objects : list ArchiveCoverageObject) : Prop :=
  match levels with
  | [] => False
  | [] :: upper => tailed (S h) upper objects /\ (segment h < length objects)%nat
  | bucket :: upper => exists pre parts, objects = pre ++ concat parts /\ holds h bucket parts /\
      tiles (segment h) parts /\ (length parts < 8)%nat /\ full (S h) upper pre
  end.

Lemma holds_length h bucket parts : holds h bucket parts -> length bucket = length parts.
Proof. intros [Hm _]. apply (f_equal length) in Hm. by rewrite !length_map in Hm. Qed.

Lemma holds_snoc h bucket parts node part : holds h bucket parts -> summary node = canon root h part -> attests (summary node) (evidence node) ->
  holds h (bucket ++ [node]) (parts ++ [part]).
Proof. intros [Hm Ha] Hs He. split; [rewrite !map_app; cbn; by rewrite Hm, Hs|]. apply Forall_app. split; [done|]. by constructor. Qed.

Lemma full_prefix_length h levels objects : full h levels objects -> objects <> [] -> (segment h <= length objects)%nat.
Proof.
  revert h objects. induction levels as [|bucket upper IH]; intros h objects; [done|]. intros (pre & parts & -> & _ & Hf & _ & Hu) Hne.
  rewrite length_app. destruct parts as [|part parts].
  - cbn [concat] in *. rewrite app_nil_r in Hne. specialize (IH _ _ Hu Hne). rewrite segment_S in IH. cbn [length]. lia.
  - apply Forall_cons in Hf as [Hp _]. cbn [concat]. rewrite length_app. lia.
Qed.

Lemma full_tailed h levels objects : full h levels objects -> objects <> [] -> tailed h levels objects.
Proof.
  revert h objects. induction levels as [|bucket upper IH]; intros h objects Hf Hne; [done|]. pose proof (segment_pos h) as Hpos.
  destruct Hf as (pre & parts & -> & Hh & Hf & H8 & Hu). pose proof (holds_length _ _ _ Hh) as Hl. destruct bucket as [|node bucket]; cbn [tailed].
  - destruct parts; [|done]. cbn [concat] in *. rewrite app_nil_r in *. split; [by apply IH|]. pose proof (full_prefix_length _ _ _ Hu Hne) as Hle. rewrite segment_S in Hle. lia.
  - exists pre, parts. split_and!; try done. apply tiles_full; [done|done|]. by destruct parts.
Qed.

Lemma full_empty h levels objects : full h levels objects -> forallb (fun level => (length level =? 0)%nat) levels = true <-> objects = [].
Proof.
  intros Hf. split.
  - revert h objects Hf. induction levels as [|bucket upper IH]; intros h objects Hf; [done|]. cbn [forallb]. rewrite andb_true_iff, Nat.eqb_eq. intros [Hb Hu'].
    destruct Hf as (pre & parts & -> & Hh & _ & _ & Hu). apply holds_length in Hh. destruct parts; [|cbn in *; lia]. by rewrite (IH _ _ Hu Hu').
  - revert h objects Hf. induction levels as [|bucket upper IH]; intros h objects Hf ->; [done|]. cbn [forallb]. rewrite andb_true_iff, Nat.eqb_eq.
    pose proof (segment_pos h) as Hpos. destruct Hf as (pre & parts & Hnil & Hh & Hf & _ & Hu). symmetry in Hnil. apply app_nil in Hnil as [-> Hnil]. split; [|by eapply IH].
    apply holds_length in Hh. rewrite Hh. destruct parts as [|part parts]; [done|]. apply Forall_cons in Hf as [Hp _]. cbn [concat] in Hnil. apply app_nil in Hnil as [-> _]. cbn [length] in Hp. lia.
Qed.

(** What fits below [Number.MAX_SAFE_INTEGER] objects is at most 15 levels high. *)
Lemma segment_bound h objects : (segment h <= length objects)%nat -> countable objects -> (h <= 15)%nat.
Proof.
  intros Hs (_ & _ & Hn). destruct (le_lt_dec h 15) as [|Hlt]; [done|]. exfalso.
  assert (18014398509481984 <= Z.of_nat (segment h))%Z as Hle.
  { unfold segment. rewrite Nat2Z.inj_mul, Nat2Z.inj_pow. change (Z.of_nat 64) with 64%Z. change (Z.of_nat 8) with 8%Z.
    assert (281474976710656 <= 8 ^ Z.of_nat h)%Z; [|lia]. change 281474976710656%Z with (8 ^ 16)%Z. apply Z.pow_le_mono_r; lia. }
  unfold MAX_SAFE_INTEGER in Hn. lia.
Qed.

Lemma combine_runs h bucket parts w : holds h bucket parts -> tiles (segment h) parts -> (length parts <= 8)%nat -> (S h < 32)%nat -> countable (concat parts) ->
  runs errors (combine root factory bucket) w (fun node _ => summary node = canon root (S h) (concat parts) /\ attests (summary node) (evidence node)).
Proof.
  intros [Hm Ha] Ht H8 Hh Hc. unfold combine. apply runs_bind. eapply runs_lift.
  { rewrite <-(map_map summary summary_value), Hm, map_map. by apply branch_accepted. }
  apply runs_bind. eapply runs_weaken; [by apply (branch_attests h parts)|]. intros t w' Ht'. by apply runs_ret.
Qed.

Lemma setBucket_take {A} (levels : list (list A)) h bucket : (h <= length levels)%nat -> take h (setBucket levels h bucket) = take h levels.
Proof.
  intros Hh. unfold setBucket. replace (h - length levels)%nat with 0%nat by lia. cbn [replicate]. rewrite app_nil_r.
  rewrite take_app_length'; [done|]. rewrite length_take. lia.
Qed.

Lemma setBucket_drop {A} (levels : list (list A)) h bucket : (h <= length levels)%nat -> drop h (setBucket levels h bucket) = bucket :: drop (S h) levels.
Proof.
  intros Hh. unfold setBucket. replace (h - length levels)%nat with 0%nat by lia. cbn [replicate]. rewrite app_nil_r.
  apply drop_app_length'. rewrite length_take. lia.
Qed.

Lemma setBucket_length {A} (levels : list (list A)) h bucket : (h <= length levels)%nat -> (h < length (setBucket levels h bucket))%nat.
Proof. intros Hh. unfold setBucket. rewrite length_app, length_take, length_app. cbn. lia. Qed.

Lemma bucketAt_drop {A} (levels : list (list A)) h : bucketAt levels h = match drop h levels with bucket :: _ => bucket | [] => [] end.
Proof. unfold bucketAt. rewrite <-(Nat.add_0_r h) at 1. rewrite <-lookup_drop. by destruct (drop h levels). Qed.

Lemma full_concat {A} n (parts : list (list A)) : Forall (fun part => length part = n) parts -> length (concat parts) = (length parts * n)%nat.
Proof. induction 1 as [|part parts Hp _ IH]; [done|]. cbn [concat length]. rewrite length_app, IH. lia. Qed.

(** What [push] leaves: the levels below as they were, and the node counted. *)
Definition pushed (h : nat) (levels : list (list (Node T))) (pre part : list ArchiveCoverageObject) (levels' : list (list (Node T))) : Prop :=
  take h levels' = take h levels /\ (h < length levels')%nat /\ tailed h (drop h levels') (pre ++ part) /\
  (length part = segment h -> full h (drop h levels') (pre ++ part)).

Lemma push_room h levels bucket pre parts part upper :
  (h <= length levels)%nat -> holds h bucket (parts ++ [part]) -> Forall (fun p => length p = segment h) parts -> (0 < length part <= segment h)%nat ->
  (length parts < 7)%nat -> full (S h) upper pre -> drop (S h) levels = upper ->
  pushed h levels (pre ++ concat parts) part (setBucket levels h bucket).
Proof.
  intros Hlen Hh Hf Hp H7 Hu Hd. assert (((pre ++ concat parts) ++ part) = pre ++ concat (parts ++ [part])) as Heq by (rewrite concat_app; cbn; by rewrite app_nil_r, app_assoc).
  split_and!; [by apply setBucket_take|by apply setBucket_length|..]; rewrite setBucket_drop, Hd, Heq by done.
  - cbn [tailed]. pose proof (holds_length _ _ _ Hh) as Hl. rewrite length_app in Hl. cbn in Hl. destruct bucket as [|node bucket]; [cbn in Hl; lia|].
    exists pre, (parts ++ [part]). split_and!; [done|done|by apply tiles_snoc|rewrite length_app; cbn; lia|done].
  - intros Hfull. cbn [full]. exists pre, (parts ++ [part]). split_and!; [done|done|apply Forall_app; by split; [|constructor]|rewrite length_app; cbn; lia|done].
Qed.

Lemma drop_take_S {A} h (l : list A) k : take (S h) l = take (S h) k -> (S h < length l)%nat -> take h l = take h k /\ head (drop h l) = head (drop h k) /\ drop h l = match head (drop h l) with Some x => [x] | None => [] end ++ drop (S h) l.
Proof.
  intros Ht Hl. split_and!.
  - apply (f_equal (take h)) in Ht. rewrite !take_take in Ht. by replace (h `min` S h)%nat with h in Ht by lia.
  - rewrite !head_lookup, !lookup_drop, Nat.add_0_r. rewrite <-(lookup_take_lt l (S h)), <-(lookup_take_lt k (S h)) by lia. by rewrite Ht.
  - destruct (lookup_lt_is_Some_2 l h ltac:(lia)) as [x Hx]. rewrite (drop_S l x h Hx). cbn. done.
Qed.

Lemma push_runs fuel h levels node pre part w :
  (h <= length levels)%nat -> full h (drop h levels) pre -> summary node = canon root h part -> attests (summary node) (evidence node) ->
  (0 < length part <= segment h)%nat -> countable (pre ++ part) -> (33 <= fuel + h)%nat -> (h <= 16)%nat ->
  runs errors (push root factory fuel levels node) w (fun levels' _ => pushed h levels pre part levels').
Proof.
  revert h levels node pre part w. induction fuel as [|fuel IH]; intros h levels node pre part w Hlen Hf Hs Ha Hp Hc Hfuel Hh; [lia|].
  cbn [push]. rewrite Hs. change (sum_height (canon root h part)) with (Z.of_nat h). rewrite Nat2Z.id, bucketAt_drop.
  destruct (drop h levels) as [|bucket upper] eqn:Hd.
  - cbn [full] in Hf. subst pre. cbn [app length Nat.ltb Nat.leb]. apply runs_ret.
    apply (push_room h levels [node] [] [] part []); [done|split; [cbn; by rewrite Hs|by constructor]|constructor|done|cbn; lia|done|].
    apply drop_ge. apply (f_equal length) in Hd. rewrite length_drop in Hd. cbn in Hd. lia.
  - destruct Hf as (pre0 & parts & -> & Hhold & Hfull & H8 & Hupper). pose proof (holds_length _ _ _ Hhold) as Hl.
    assert (drop (S h) levels = upper) as HdS. { apply (f_equal (drop 1)) in Hd. rewrite drop_drop in Hd. by replace (h + 1)%nat with (S h) in Hd by lia. }
    pose proof (holds_snoc _ _ _ _ _ Hhold Hs Ha) as Hsnoc. destruct (length (bucket ++ [node]) <? 8)%nat eqn:Hlt.
    + apply Nat.ltb_lt in Hlt. rewrite length_app in Hlt. cbn in Hlt. apply runs_ret. apply (push_room h levels (bucket ++ [node]) pre0 parts part upper); try done. lia.
    + apply Nat.ltb_ge in Hlt. rewrite length_app in Hlt. cbn in Hlt. set (all := parts ++ [part]) in *.
      assert (concat all = concat parts ++ part) as Hall by (unfold all; rewrite concat_app; cbn; by rewrite app_nil_r).
      rewrite <-app_assoc, <-Hall in Hc. pose proof (countable_app _ _ Hc) as [_ Hcc].
      assert (tiles (segment h) all) as Ht by by apply tiles_snoc.
      assert (7 * segment h < length (concat all))%nat as Hbig.
      { rewrite Hall, length_app. rewrite (full_concat _ _ Hfull). nia. }
      pose proof (segment_pos h) as Hpos. pose proof (segment_bound h (concat all) ltac:(lia) Hcc) as Hsmall.
      assert (length all = 8%nat) as H8' by (unfold all; rewrite length_app; cbn; lia).
      apply runs_bind. eapply runs_weaken; [apply (combine_runs h _ all); [done|done|lia|lia|done]|]. intros node' w' [Hs' Ha'].
      eapply runs_weaken; [apply (IH (S h) _ node' pre0 (concat all))|]; try done; try lia.
      * pose proof (setBucket_length levels h [] Hlen). lia.
      * pose proof (setBucket_drop levels h [] Hlen) as Hsd. apply (f_equal (drop 1)) in Hsd. rewrite drop_drop in Hsd. replace (h + 1)%nat with (S h) in Hsd by lia. rewrite Hsd. cbn [drop]. by rewrite HdS.
      * rewrite segment_S. pose proof (tiles_concat _ _ Hpos Ht) as Htc. rewrite H8' in Htc. lia.
      * intros levels' w'' (Htake & Hlt' & Htail & Hfl). destruct (drop_take_S _ _ _ Htake ltac:(lia)) as (Ht1 & Hhd & Hdrop).
        rewrite setBucket_drop in Hhd by done. cbn [head] in Hhd. rewrite Hhd in Hdrop. cbn in Hdrop.
        split_and!; [by rewrite Ht1, setBucket_take|lia|..]; rewrite Hdrop, <-app_assoc, <-Hall.
        -- cbn [tailed]. split; [done|]. rewrite length_app. lia.
        -- intros Hpf. cbn [full]. exists (pre0 ++ concat all), []. split_and!; [by rewrite app_nil_r|split; [done|constructor]|constructor|cbn; lia|].
           apply Hfl. rewrite segment_S. rewrite Hall, length_app, Hpf. rewrite (full_concat _ _ Hfull). nia.
Qed.

Lemma flush_runs levels pre batch w : full 0 levels pre -> (0 < length batch <= 64)%nat -> countable (pre ++ batch) ->
  runs errors (flush root factory levels batch) w (fun levels' _ => tailed 0 levels' (pre ++ batch) /\ (length batch = 64%nat -> full 0 levels' (pre ++ batch))).
Proof.
  intros Hf Hb Hc. pose proof (countable_app _ _ Hc) as [_ Hcb]. unfold flush. apply runs_bind. eapply runs_lift; [by apply leaf_accepted|].
  apply runs_bind. eapply runs_weaken; [by apply leaf_attests|]. intros t w' Ht.
  eapply runs_weaken; [apply (push_runs 33 0 levels (mkNode (canon root 0 batch) t) pre batch); try done; lia|].
  intros levels' _ (_ & _ & Htail & Hfull). by rewrite !drop_0 in *.
Qed.

(** The state of the loop over the source after the objects [pre ++ r_objects r]. *)
Definition reading (r : Reading (T := T)) (done : list ArchiveCoverageObject) : Prop :=
  exists pre, done = pre ++ r_objects r /\ full 0 (r_levels r) pre /\ (length (r_objects r) < 64)%nat /\ r_previous r = cov_objectId <$> last done.

Lemma readEntry_runs r seen input o w : reading r seen -> captureObject input = Ok o -> countable (seen ++ [o]) ->
  runs errors (readEntry root factory r input) w (fun r' _ => reading r' (seen ++ [o])).
Proof.
  intros (pre & -> & Hf & H64 & Hprev) Hcap Hc. pose proof Hc as (_ & (_ & _ & Hb)%ordered_append & _).
  unfold readEntry. apply runs_bind. eapply runs_lift; [by apply capture_single|]. cbv beta iota. apply runs_bind, runs_require.
  { rewrite Hprev. destruct (last (pre ++ r_objects r)) as [z|] eqn:Hz; [|done]. cbn. apply Is_true_true. apply Hb; [by apply last_Some_elem_of|by left]. }
  rewrite <-app_assoc in *. destruct (length (r_objects r ++ [o]) =? 64)%nat eqn:Hl.
  - apply Nat.eqb_eq in Hl. apply runs_bind. eapply runs_weaken; [apply (flush_runs _ pre); [done|lia|done]|].
    intros levels w' [_ Hfull]. apply runs_ret. exists (pre ++ r_objects r ++ [o]). cbn. split_and!; [by rewrite app_nil_r|by apply Hfull|lia|]. by rewrite app_assoc, last_snoc.
  - apply Nat.eqb_neq in Hl. apply runs_ret. exists pre. cbn. rewrite length_app in *. cbn in *. split_and!; [done|done|lia|]. by rewrite app_assoc, last_snoc.
Qed.

Lemma readEntries_runs r seen inputs objects w : reading r seen -> Forall2 (fun input o => captureObject input = Ok o) inputs objects -> countable (seen ++ objects) ->
  runs errors (readEntries (readEntry root factory) r inputs) w (fun r' _ => reading r' (seen ++ objects)).
Proof.
  intros Hr Hcap. revert r seen w Hr. induction Hcap as [|input o inputs objects Ho Hcap IH]; intros r seen w Hr Hc; cbn [readEntries].
  { rewrite app_nil_r. by apply runs_ret. }
  replace (seen ++ o :: objects) with ((seen ++ [o]) ++ objects) in * by by rewrite <-app_assoc.
  apply runs_bind. eapply runs_weaken; [apply (readEntry_runs r seen input o)|]; [done|done|by apply countable_app in Hc as [? _]|]. intros r' w' Hr'. by apply IH.
Qed.

(** The root is at the least height from 1 on whose segment takes all objects. *)
Definition topHeight (k : nat) (objects : list ArchiveCoverageObject) : Prop :=
  (1 <= k <= 16)%nat /\ (length objects <= segment k)%nat /\ (k = 1%nat \/ segment (pred k) < length objects)%nat.

Lemma closing_runs remaining h levels objects w :
  (h <= length levels)%nat -> tailed h (drop h levels) objects -> countable objects -> (remaining + h = 32)%nat ->
  (h <= 1 \/ segment (pred h) < length objects)%nat ->
  runs errors (closing root factory remaining h levels) w
    (fun node _ => exists k, topHeight k objects /\ summary node = canon root k objects /\ attests (summary node) (evidence node)).
Proof.
  revert h levels w. induction remaining as [|remaining IH]; intros h levels w Hlen Ht Hc Hrem Hleast.
  { exfalso. destruct Hleast as [?|Hlt]; [lia|]. pose proof (segment_bound (pred h) objects ltac:(lia) Hc). lia. }
  assert (h <= 16)%nat as H16 by (destruct Hleast as [?|Hlt]; [lia|]; pose proof (segment_bound (pred h) objects ltac:(lia) Hc); lia).
  cbn [closing]. rewrite bucketAt_drop. destruct (drop h levels) as [|[|node more] upper] eqn:Hd; [done|..].
  all: assert (drop (S h) levels = upper) as HdS by (apply (f_equal (drop 1)) in Hd; rewrite drop_drop in Hd; by replace (h + 1)%nat with (S h) in Hd by lia).
  all: assert (h < length levels)%nat as Hlt by (apply (f_equal length) in Hd; rewrite length_drop in Hd; cbn in Hd; lia).
  - destruct Ht as [Ht Hbig]. apply IH; [lia|by rewrite HdS|done|lia|by right].
  - destruct Ht as (pre & parts & -> & Hhold & Htiles & H8 & Hupper). pose proof (holds_length _ _ _ Hhold) as Hl. cbn [length] in Hl.
    pose proof (segment_pos h) as Hpos. rewrite HdS. destruct ((0 <? h)%nat && (length more =? 0)%nat && _) eqn:Htop.
    + apply andb_true_iff in Htop as [[H0%Nat.ltb_lt H1%Nat.eqb_eq]%andb_true_iff Hempty]. apply (full_empty _ _ _ Hupper) in Hempty as ->.
      destruct parts as [|part [|]]; [cbn in Hl; lia| |cbn in Hl; lia]. cbn [concat app] in *. rewrite app_nil_r in *. apply runs_ret. exists h.
      destruct Hhold as [Hsum [Ha _]%Forall_cons]. cbn in Hsum. injection Hsum as Hsum _. inversion Htiles as [p Hp|p ps Hp Hps]; subst; [|by inversion Hps].
      split_and!; [|done|done]. split_and!; lia.
    + assert (h = 0%nat \/ segment h < length (pre ++ concat parts))%nat as Hbig.
      { destruct h as [|h']; [by left|]. right. cbn [Nat.ltb Nat.leb andb] in Htop. rewrite length_app. pose proof (tiles_concat _ _ Hpos Htiles) as Hc1.
        apply andb_false_iff in Htop as [H1%Nat.eqb_neq|Hne].
        - destruct parts as [|p1 [|p2 parts]]; [cbn in Hl; lia|cbn in Hl; lia|]. inversion Htiles as [|? ? Hp1 Hrest]; subst. pose proof (tiles_concat _ _ Hpos Hrest). cbn [concat]. rewrite length_app. cbn [concat] in *. lia.
        - assert (pre <> []) as Hpre by (intros ->; by rewrite (proj2 (full_empty _ _ _ Hupper)) in Hne). pose proof (full_prefix_length _ _ _ Hupper Hpre) as Hle. rewrite segment_S in Hle. lia. }
      assert (h <= 15)%nat as H15 by (destruct Hbig as [?|?]; [lia|eapply segment_bound; [|exact Hc]; lia]).
      pose proof (countable_app _ _ Hc) as [_ Hcc]. apply runs_bind.
      eapply runs_weaken; [apply (combine_runs h _ parts); [done|done|lia|lia|done]|]. intros node' w' [Hs' Ha']. apply runs_bind.
      eapply runs_weaken; [apply (push_runs 33 (S h) _ node' pre (concat parts)); try done; try lia|].
      * pose proof (setBucket_length levels h [] Hlen). lia.
      * pose proof (setBucket_drop levels h [] Hlen) as Hsd. apply (f_equal (drop 1)) in Hsd. rewrite drop_drop in Hsd. replace (h + 1)%nat with (S h) in Hsd by lia. rewrite Hsd. cbn [drop]. by rewrite HdS.
      * rewrite segment_S. pose proof (tiles_concat _ _ Hpos Htiles) as Htc. nia.
      * intros levels' w'' (_ & Hlt' & Htail & _). apply IH; [lia|done|done|lia|]. destruct Hbig as [->|?]; [left; lia|by right].
Qed.

Lemma conclude_runs r objects w : reading r objects -> countable objects -> objects <> [] ->
  runs errors (conclude root factory r) w
    (fun node _ => exists k, topHeight k objects /\ summary node = canon root k objects /\ attests (summary node) (evidence node)).
Proof.
  intros (pre & Heq & Hf & H64 & Hprev) Hc Hne. unfold conclude. apply runs_bind.
  destruct (ends objects Hne) as (a & z & _ & Hz & _). rewrite Hz in Hprev.
  assert (runs errors (if (length (r_objects r) =? 0)%nat then mret (r_levels r) else flush root factory (r_levels r) (r_objects r)) w
    (fun levels _ => tailed 0 levels objects)) as Hlast.
  { destruct (length (r_objects r) =? 0)%nat eqn:H0.
    - apply Nat.eqb_eq, nil_length_inv in H0. rewrite H0, app_nil_r in Heq. subst pre. apply runs_ret. by apply full_tailed.
    - apply Nat.eqb_neq in H0. rewrite Heq. eapply runs_weaken; [apply (flush_runs _ pre); [done|lia|by rewrite <-Heq]|]. by intros ? _ [? _]. }
  eapply runs_weaken; [exact Hlast|]. intros levels w'' Htail. apply runs_bind, runs_require; [by rewrite Hprev|].
  apply closing_runs; [lia|by rewrite drop_0|done|lia|left; lia].
Qed.

Lemma reading_start : reading (mkReading [] [] None) [].
Proof. exists []. cbn. split_and!; done || lia. Qed.

(** On ordered well-formed objects the canonical tree is built. *)
Lemma reduceSet_runs inputs objects w : Forall2 (fun input o => captureObject input = Ok o) inputs objects -> countable objects -> objects <> [] ->
  runs errors (reduceSet root factory (iterate (inputs, Ok tt))) w
    (fun node _ => exists k, topHeight k objects /\ summary node = canon root k objects /\ attests (summary node) (evidence node)).
Proof.
  intros Hcap Hc Hne. unfold reduceSet. apply runs_bind. eapply runs_lift; [by apply validate_str|]. apply runs_bind. unfold iterate. cbn [fst snd]. apply runs_bind.
  eapply runs_weaken; [apply (readEntries_runs _ [] _ objects); [apply reading_start|done|done]|].
  intros r w' Hr. apply runs_bind. eapply runs_lift; [done|]. apply runs_ret. by apply conclude_runs.
Qed.
End Counter.

(** ** Sources *)

(** The objects a source gives, if its iteration ends normally and all of them are well formed. *)
Definition gives (source : ArchiveCoverageSource) (objects : list ArchiveCoverageObject) : Prop :=
  source.2 = Ok tt /\ Forall2 (fun input o => captureObject input = Ok o) source.1 objects.

Lemma gives_ok source objects : gives source objects -> Forall object_ok objects /\ length source.1 = length objects.
Proof.
  intros [_ Hcap]. split; [|by eapply Forall2_length]. induction Hcap; constructor; [by eapply captureObject_ok|done].
Qed.

Lemma gives_unique source objects objects' : gives source objects -> gives source objects' -> objects = objects'.
Proof.
  intros [_ H] [_ H']. revert objects' H'. induction H as [|input o inputs objects Ho _ IH]; intros objects' H'; inversion H' as [|? o' ? os' Ho' Hos]; subst; [done|].
  rewrite Ho in Ho'. injection Ho' as ->. by rewrite (IH os').
Qed.

(** Reading returns only on objects in order. *)
Section Read.
Context `{Sha256} {W T : Type} (root : list N) (factory : Factory W T).

Lemma readEntry_valid (r r' : Reading (T := T)) input w w' : readEntry root factory r input w = (Ok r', w') ->
  exists o, captureObject input = Ok o /\ r_previous r' = Some (cov_objectId o) /\
    match r_previous r with Some previous => Is_true (str_ltb previous (cov_objectId o)) | None => True end.
Proof.
  unfold readEntry, mbind, M_bind, liftM. destruct (captureArchiveCoverageObjects (Arr [input])) as [[|o [|]]|] eqn:Hcap; try done.
  2: { apply captureObjects_ok in Hcap as (_ & _ & _ & Hl). cbn in Hl. lia. }
  apply capture_single in Hcap. unfold requireM, require, liftM. destruct (match r_previous r with Some _ => _ | None => true end) eqn:Hp; [|done].
  destruct (_ =? 64)%nat.
  - destruct (flush _ _ _ _ _) as [[levels|] w1]; [|done]. intros [= <- <-]. exists o. split_and!; [done..|]. by destruct (r_previous r); [apply Is_true_true|].
  - intros [= <- <-]. exists o. split_and!; [done..|]. by destruct (r_previous r); [apply Is_true_true|].
Qed.

Lemma readEntries_valid (r r' : Reading (T := T)) inputs w w' : readEntries (readEntry root factory) r inputs w = (Ok r', w') ->
  exists objects, Forall2 (fun input o => captureObject input = Ok o) inputs objects /\ ordered objects /\
    (is_Some (r_previous r') -> is_Some (r_previous r) \/ objects <> []) /\
    match r_previous r with Some previous => Forall (fun o => Is_true (str_ltb previous (cov_objectId o))) objects | None => True end.
Proof.
  revert r w. induction inputs as [|input inputs IH]; intros r w; cbn [readEntries].
  { intros [= <- <-]. exists []. split_and!; [done|constructor|by left|]. by destruct (r_previous r). }
  unfold mbind, M_bind. destruct (readEntry _ _ _ _ _) as [[r1|] w1] eqn:H1; [|done]. intros H2.
  apply readEntry_valid in H1 as (o & Ho & Hprev & Hlt). apply IH in H2 as (objects & Hcap & Hord & _ & Hall). rewrite Hprev in Hall.
  exists (o :: objects). split_and!; [by constructor|by constructor|by right|]. destruct (r_previous r) as [previous|]; [|done].
  constructor; [done|]. eapply Forall_impl; [exact Hall|]. intros o' Ho'. by eapply str_ltb_trans.
Qed.

Lemma reduceSet_valid source node (w w' : W) : reduceSet root factory (iterate source) w = (Ok node, w') ->
  digestPattern root = true /\ exists objects, gives source objects /\ ordered objects /\ objects <> [].
Proof.
  unfold reduceSet. destruct source as [inputs ending]. unfold mbind, M_bind, liftM at 1.
  destruct (validateArchiveObjectId (Str root)) as [id|] eqn:Hroot; [|done]. apply validate_ok in Hroot as [[= <-] Hroot].
  destruct (iterate _ _ _ _) as [[r|] w1] eqn:Hread; [|done]. intros Hrest. unfold iterate, mbind, M_bind, liftM in Hread. cbn [fst snd] in Hread.
  destruct (readEntries _ _ _ _) as [[r1|] w2] eqn:Hentries; [|done]. destruct ending as [[]|]; [|done]. injection Hread as -> ->.
  apply readEntries_valid in Hentries as (objects & Hcap & Hord & Hsome & _). split; [done|]. exists objects. split_and!; [done|done|].
  unfold conclude, mbind, M_bind in Hrest. match type of Hrest with (let (_, _) := ?m in _) = _ => destruct m as [[levels|] w3]; [|done] end.
  unfold requireM, require, liftM in Hrest. destruct (bool_decide (is_Some (r_previous r))) eqn:Hp; [|done].
  apply bool_decide_eq_true in Hp. by destruct (Hsome Hp) as [[? ?]|].
Qed.
End Read.

Lemma segment_mono h k : (h <= k)%nat -> (segment h <= segment k)%nat.
Proof. intros Hle. unfold segment. apply Nat.mul_le_mono_l, Nat.pow_le_mono_r; lia. Qed.

Lemma topHeight_unique k k' objects : topHeight k objects -> topHeight k' objects -> k = k'.
Proof.
  intros ([H1 _] & Hle & Hl) ([H1' _] & Hle' & Hl'). destruct (lt_eq_lt_dec k k') as [[Hlt| ->]|Hlt]; [exfalso|done|exfalso].
  - destruct Hl' as [?|Hl']; [lia|]. pose proof (segment_mono k (pred k') ltac:(lia)). lia.
  - destruct Hl as [?|Hl]; [lia|]. pose proof (segment_mono k' (pred k) ltac:(lia)). lia.
Qed.

(** Deriving is exact: it returns the root of the canonical tree on objects that are well formed and in order, and on nothing else. *)
Lemma derive_exact `{Sha256} root source s : Z.of_nat (length source.1) <= MAX_SAFE_INTEGER ->
  deriveArchiveCoverageSet root source = Ok s <->
  digestPattern root = true /\ exists objects k, gives source objects /\ ordered objects /\ objects <> [] /\ topHeight k objects /\ s = canon root k objects.
Proof.
  intros Hmax. unfold deriveArchiveCoverageSet.
  assert (forall objects, digestPattern root = true -> gives source objects -> ordered objects -> objects <> [] ->
    exists k, topHeight k objects /\ (deriveFrom root (iterate source) tt).1 = Ok (canon root k objects)) as Hruns.
  { intros objects Hroot Hg Hord Hne. pose proof (gives_ok _ _ Hg) as [Hok Hlen]. destruct source as [inputs ending], Hg as [He Hcap]. cbn in He, Hcap, Hlen, Hmax. subst ending.
    pose proof (reduceSet_runs root Hroot (noEvidence (W := unit)) (fun _ _ => True) (fun _ => False) ltac:(intros; by apply runs_ret) ltac:(intros; by apply runs_ret)
      inputs objects tt Hcap ltac:(split_and!; [done|done|lia]) Hne) as Hr.
    unfold deriveFrom, mbind, M_bind. unfold runs in Hr. destruct (reduceSet root noEvidence (iterate (inputs, Ok tt)) tt) as [[node|] w]; [|done]. destruct Hr as (k & Hk & Hs & _). exists k. split; [done|]. cbn. by rewrite Hs. }
  split.
  - intros Hs. pose proof Hs as Hd. unfold deriveFrom, mbind, M_bind in Hs. destruct (reduceSet root noEvidence (iterate source) tt) as [[node|] w'] eqn:Hred; [|done].
    apply reduceSet_valid in Hred as (Hroot & objects & Hg & Hord & Hne). split; [done|]. destruct (Hruns objects) as (k & Hk & Hsum); try done.
    exists objects, k. split_and!; try done. congruence.
  - intros (Hroot & objects & k & Hg & Hord & Hne & Hk & ->). destruct (Hruns objects) as (k' & Hk' & Hsum); try done. by rewrite (topHeight_unique _ _ _ Hk Hk').
Qed.

(** ** A summary determines its set *)
Lemma groupsOf_parts {A} n fuel (l : list A) : (0 < n)%nat -> (length l <= fuel)%nat ->
  concat (groupsOf fuel n l) = l /\ Forall (fun part => (0 < length part <= n)%nat) (groupsOf fuel n l).
Proof.
  intros Hn. revert l. induction fuel as [|fuel IH]; intros [|x l] Hl; try (split; [done|constructor]); [cbn in Hl; lia|]. cbn [groupsOf concat].
  destruct (IH (drop n (x :: l))) as [Hc Hf]. { rewrite length_drop. cbn [length] in *. lia. }
  split; [by rewrite Hc, take_drop|]. constructor; [|done]. rewrite length_take. cbn [length]. lia.
Qed.

Lemma groups_parts {A} n (l : list A) : (0 < n)%nat -> concat (groups n l) = l /\ Forall (fun part => (0 < length part <= n)%nat) (groups n l).
Proof. intros Hn. by apply groupsOf_parts. Qed.

Lemma countable_part parts part : countable (concat parts) -> part ∈ parts -> countable part.
Proof. intros Hc (l1 & l2 & ->)%list_elem_of_split. rewrite concat_app in Hc. cbn [concat] in Hc. by apply countable_app in Hc as [_ [? _]%countable_app]. Qed.

Section Binding.
Context `{Sha256}.

(** The bytes that are hashed for a node of the canonical tree. *)
Fixpoint hashed (root : list N) (h : nat) (objects : list ArchiveCoverageObject) : list (list N) :=
  match h with
  | O => [digestInput (leaf_value objects)]
  | S h => digestInput (branch_value root (map (canon root h) (groups (segment h) objects))) ::
           concat (map (hashed root h) (groups (segment h) objects))
  end.

Definition noCollision (inputs inputs' : list (list N)) : Prop :=
  forall x y, x ∈ inputs -> y ∈ inputs' -> sha256Base64Url x = sha256Base64Url y -> x = y.

Lemma parts_ok root h objects : countable objects -> (S h < 32)%nat ->
  Forall (fun part => countable part /\ part <> [] /\ (length part <= segment h)%nat /\ summary_ok (canon root h part)) (groups (segment h) objects).
Proof.
  intros Hc Hh. destruct (groups_parts (segment h) objects (segment_pos h)) as [Hcat Hparts]. rewrite Forall_forall in *. intros part Hin. specialize (Hparts part Hin).
  assert (countable part) as Hcp by (eapply countable_part; [by rewrite Hcat|done]). assert (part <> []) by (intros ->; cbn in Hparts; lia).
  split_and!; [done|done|lia|]. apply canon_ok; [done|done|lia|lia].
Qed.

Lemma canon_binds root root' h objects objects' : digestPattern root = true -> digestPattern root' = true ->
  countable objects -> countable objects' -> (h < 32)%nat -> noCollision (hashed root h objects) (hashed root' h objects') ->
  canonDigest root h objects = canonDigest root' h objects' -> objects = objects'.
Proof.
  intros Hr Hr'. revert objects objects'. induction h as [|h IH]; intros objects objects' Hc Hc' Hh Hno Hd.
  { apply Hno in Hd; [|by left..]. apply leaf_input_inj in Hd; [done|apply Hc|apply Hc']. }
  pose proof (parts_ok root h objects Hc Hh) as Hp. pose proof (parts_ok root' h objects' Hc' Hh) as Hp'.
  apply Hno in Hd; [|by left..]. apply branch_input_inj in Hd; [|done|done|..].
  2: { apply Forall_fmap. eapply Forall_impl; [exact Hp|]. by intros part (_ & _ & _ & ?). }
  2: { apply Forall_fmap. eapply Forall_impl; [exact Hp'|]. by intros part (_ & _ & _ & ?). }
  rewrite <-(proj1 (groups_parts (segment h) objects (segment_pos h))), <-(proj1 (groups_parts (segment h) objects' (segment_pos h))). f_equal.
  assert (noCollision (concat (map (hashed root h) (groups (segment h) objects))) (concat (map (hashed root' h) (groups (segment h) objects')))) as Hno'.
  { intros x y Hx Hy. apply Hno; by right. }
  clear Hno Hc Hc'. revert Hd Hno' Hp'. generalize (groups (segment h) objects') as parts'. induction Hp as [|part parts (Hcp & _) _ IHp]; intros [|part' parts'] Hd Hno Hp'; try done.
  apply Forall_cons in Hp' as [(Hcp' & _) Hp']. cbn [map] in Hd. injection Hd as Hdig Hd. f_equal.
  - apply IH; [done|done|lia| |done]. intros x y Hx Hy. apply Hno; cbn [map concat]; apply elem_of_app; by left.
  - apply IHp; [done| |done]. intros x y Hx Hy. apply Hno; cbn [map concat]; apply elem_of_app; by right.
Qed.

Lemma top_binds root root' k k' objects objects' : digestPattern root = true -> digestPattern root' = true -> countable objects -> countable objects' ->
  topHeight k objects -> topHeight k' objects' -> noCollision (hashed root k objects) (hashed root' k' objects') ->
  canon root k objects = canon root' k' objects' -> objects = objects'.
Proof.
  intros Hr Hr' Hc Hc' Hk _ Hno Heq. unfold canon, describe in Heq. injection Heq as Hh _ _ _ Hd _. apply Nat2Z.inj in Hh as ->.
  apply (canon_binds root root' k'); [exact Hr|exact Hr'|exact Hc|exact Hc'|destruct Hk as [[_ ?] _]; lia|exact Hno|exact Hd].
Qed.
End Binding.

(** ** Receipts *)
Section Receipts.
Context `{Sha256} `{Ed25519}.

Lemma leaf_ok v root s : archiveCoverageLeaf v root = Ok s -> summary_ok s.
Proof.
  unfold archiveCoverageLeaf. intros (? & _ & H')%bind_ok. apply bind_ok in H' as (objects & Hcap & [= <-]).
  apply captureObjects_ok in Hcap as (Hok & Hasc & Hlen & _). apply (canon_ok root 0 objects).
  - split_and!; [done|by apply ordered_ascending|unfold MAX_SAFE_INTEGER; lia].
  - intros ->. cbn in Hlen. lia.
  - unfold segment. cbn. lia.
  - lia.
Qed.

Lemma verifyChild_ok input authorityInput root s : verifyArchiveCoverageChild input authorityInput root = Ok s -> summary_ok s.
Proof.
  unfold verifyArchiveCoverageChild. intros (receipt & _ & H')%bind_ok. apply bind_ok in H' as (? & _ & H'). apply bind_ok in H' as (authority & _ & H').
  apply bind_ok in H' as (serviceId & _ & H'). revert H'. guard_passed as Hg. intros (verified & _ & H')%bind_ok. revert H'. guard_passed as Hv.
  destruct receipt; [apply leaf_ok|]. guard_passed as Hr. apply summarySnapshot_ok.
Qed.

(** An accepted aggregate states its own root and summary. *)
Lemma verifyAggregate_ok header archiveRootId s signer signature authorityInput root s' :
  let receipt := AggregateReceipt header archiveRootId s signer signature in
  captureArchiveCoverageChild (child_value receipt) = Ok receipt ->
  verifyArchiveCoverageChild (child_value receipt) authorityInput root = Ok s' -> archiveRootId = root /\ s = s'.
Proof.
  intros receipt Hcap. unfold verifyArchiveCoverageChild. rewrite Hcap. cbn [mbind result_bind]. intros (? & _ & H')%bind_ok. apply bind_ok in H' as (authority & _ & H').
  apply bind_ok in H' as (serviceId & _ & H'). revert H'. guard_passed as Hg. intros (verified & _ & H')%bind_ok. revert H'. guard_passed as Hv.
  unfold receipt. guard_passed as Hr. apply negb_false_iff, bool_decide_eq_true in Hr. intros Hsnap. split; [done|].
  apply captureChild_ok in Hcap as (_ & _ & _ & (_ & Hok & _) & _). rewrite summarySnapshot_value in Hsnap by done. by injection Hsnap.
Qed.

Lemma derive_ok root source s : Z.of_nat (length source.1) <= MAX_SAFE_INTEGER -> deriveArchiveCoverageSet root source = Ok s -> summary_ok s.
Proof.
  intros Hmax (Hroot & objects & k & Hg & Hord & Hne & (Hk & Hle & _) & ->)%derive_exact; [|done]. pose proof (gives_ok _ _ Hg) as [Hok Hlen].
  apply canon_ok; [split_and!; [done|done|lia]|done|done|lia].
Qed.

Lemma complete_ok input authority root source s : Z.of_nat (length source.1) <= MAX_SAFE_INTEGER ->
  verifyCompleteArchiveCoverage input authority root source = Ok s <->
  exists receipt, captureArchiveCoverageChild input = Ok receipt /\ isBatch receipt = false /\
    verifyArchiveCoverageChild (child_value receipt) authority root = Ok s /\ deriveArchiveCoverageSet root source = Ok s /\ sum_rootCovered s = true.
Proof.
  intros Hmax. unfold verifyCompleteArchiveCoverage. split.
  - intros (receipt & Hcap & H')%bind_ok. exists receipt. destruct receipt as [|header rootId sum signer signature]; [done|].
    apply bind_ok in H' as (actual & Hactual & H'). apply bind_ok in H' as (expected & Hexp & H'). revert H'. guard_passed as Hg. intros [= ->].
    apply orb_false_iff in Hg as [Hcov%negb_false_iff Hsame%negb_false_iff].
    apply sameSummary_true in Hsame as ->; [|by eapply verifyChild_ok|by eapply derive_ok]. done.
  - intros (receipt & -> & Hb & Hv & Hd & Hcov). destruct receipt; [done|]. cbn [mbind result_bind]. rewrite Hv, Hd. cbn [mbind result_bind].
    rewrite Hcov, (proj2 (sameSummary_true s s (verifyChild_ok _ _ _ _ Hv) (verifyChild_ok _ _ _ _ Hv)) eq_refl). done.
Qed.
End Receipts.

Section Confirmed.
Context `{Sha256} `{Ed25519} {W : Type} `{ArchiveCoveragePort W}.
Variables (authority : ArchiveCoverageAuthority) (root transitionId : list N).

(** The service signed the summary. *)
Definition signedFor (s : ArchiveCoverageSummary) (receipt : ArchiveCoverageChild) : Prop :=
  captureArchiveCoverageChild (child_value receipt) = Ok receipt /\
  verifyArchiveCoverageChild (child_value receipt) (authority_value authority) root = Ok s.

Lemma verified_signed input s request (w : W) : summary_ok s ->
  runs (fun _ => True) (verified authority root input s request) w (fun receipt _ => signedFor s receipt).
Proof.
  intros Hok. unfold verified, runs, mbind, M_bind, liftM. destruct (captureArchiveCoverageChild input) as [receipt|] eqn:Hcap; [|done].
  unfold requireM, require, liftM. destruct (bool_decide _); [|done].
  destruct (verifyArchiveCoverageChild _ _ _) as [attested|] eqn:Hv; [|done]. destruct (sameSummary attested s) eqn:Hs; [|done].
  destruct (port_ensureCurrent w) as [[]]; [|done]. apply sameSummary_true in Hs as ->; [|by eapply verifyChild_ok|done].
  split; [by eapply captureChild_again|done].
Qed.

Lemma confirmLeaf_signed objects s (w : W) : summary_ok s ->
  runs (fun _ => True) (confirmLeaf authority root transitionId objects s) w (fun receipt _ => signedFor s receipt).
Proof.
  intros Hok. unfold confirmLeaf. apply runs_bind. unfold runs at 1. destruct (port_ensureCurrent w) as [[] w1]; [|done].
  apply runs_bind. unfold runs at 1. destruct (port_coverage _ _ w1) as [[answer|] w2]; [|done].
  apply runs_bind. eapply runs_weaken; [by apply verified_signed|]. intros receipt w3 Hr. unfold runs, mbind, M_bind, requireM, require, liftM. by destruct (isBatch receipt).
Qed.

Lemma confirmBranch_signed nodes s (w : W) : summary_ok s ->
  runs (fun _ => True) (confirmBranch authority root transitionId nodes s) w (fun receipt _ => signedFor s receipt).
Proof.
  intros Hok. unfold confirmBranch. apply runs_bind. unfold runs at 1. destruct (port_ensureCurrent w) as [[] w1]; [|done].
  apply runs_bind. unfold runs at 1. destruct (port_aggregate _ _ _ w1) as [[answer|] w2]; [|done].
  apply runs_bind. eapply runs_weaken; [by apply verified_signed|]. intros receipt w3 Hr. unfold runs, mbind, M_bind, requireM, require, liftM. by destruct (isBatch receipt).
Qed.

Lemma confirm_signed source node (w w' : W) : Z.of_nat (length source.1) <= MAX_SAFE_INTEGER ->
  reduceSet root (mkFactory (confirmLeaf authority root transitionId) (confirmBranch authority root transitionId)) (iterate source) w = (Ok node, w') ->
  deriveArchiveCoverageSet root source = Ok (summary node) /\ signedFor (summary node) (evidence node).
Proof.
  intros Hmax Hred. pose proof (reduceSet_valid _ _ _ _ _ _ Hred) as (Hroot & objects & Hg & Hord & Hne).
  pose proof (gives_ok _ _ Hg) as [Hok Hlen]. assert (countable objects) as Hc by (split_and!; [done|done|lia]).
  destruct source as [inputs ending], Hg as [He Hcap]. cbn in He. subst ending.
  pose proof (reduceSet_runs root Hroot (mkFactory (confirmLeaf authority root transitionId) (confirmBranch authority root transitionId)) signedFor (fun _ => True)) as Hruns.
  specialize (Hruns ltac:(intros batch w0 Hcb Hlb; apply confirmLeaf_signed, canon_ok; [done|intros ->; cbn in Hlb; lia|unfold segment; cbn; lia|lia])).
  specialize (Hruns ltac:(intros h parts nodes w0 _ _ Ht H8 Hh Hcp; apply confirmBranch_signed; pose proof (tiles_concat _ _ (segment_pos h) Ht) as Htc;
    apply canon_ok; [done|intros Hnil; rewrite Hnil in Htc; cbn in Htc; lia|rewrite segment_S; pose proof (segment_pos h); nia|lia])).
  specialize (Hruns inputs objects w Hcap Hc Hne). unfold runs in Hruns. rewrite Hred in Hruns. destruct Hruns as (k & Hk & Hs & Hsigned). split; [|done].
  apply derive_exact; [done|]. split; [done|]. by exists objects, k.
Qed.
End Confirmed.

(** C19. The summary of a coverage set is exact: on a source of at most
    [Number.MAX_SAFE_INTEGER] objects, [deriveArchiveCoverageSet] returns if and only
    if the iteration ends normally with one or more well-formed objects in
    strictly ascending order; the result is then the root of the canonical
    tree, of leaves of 64 and branches of eight, at the least height that takes all
    objects, and it states their number, the first and the last, and whether the archive root is among them. *)
Theorem coverage_set_exact `{Sha256} (root : list N) (source : ArchiveCoverageSource) (s : ArchiveCoverageSummary) :
  Z.of_nat (length source.1) <= MAX_SAFE_INTEGER ->
  (deriveArchiveCoverageSet root source = Ok s <->
   digestPattern root = true /\ exists objects k, gives source objects /\ ordered objects /\ objects <> [] /\ topHeight k objects /\ s = canon root k objects) /\
  (deriveArchiveCoverageSet root source = Ok s -> forall objects, gives source objects ->
   sum_objectCount s = Z.of_nat (length objects) /\ sum_firstObjectId s = idAt (head objects) /\ sum_lastObjectId s = idAt (last objects) /\
   (sum_rootCovered s = true <-> root ∈ map cov_objectId objects)).
Proof.
  intros Hmax. split; [by apply derive_exact|]. intros (_ & objects & k & Hg & _ & _ & _ & ->)%derive_exact objects' Hg'; [|done].
  rewrite (gives_unique _ _ _ Hg' Hg). unfold canon, describe. cbn [sum_objectCount sum_firstObjectId sum_lastObjectId sum_rootCovered]. split_and!; [done..|].
  rewrite existsb_exists, list_elem_of_fmap. split.
  - intros (o & Ho%list_elem_of_In & Heq%bool_decide_eq_true). by exists o.
  - intros (o & Heq & Ho). exists o. split; [by apply list_elem_of_In|by apply bool_decide_eq_true].
Qed.

(** C20. A complete coverage receipt is about one set: if the same receipt is
    accepted for two sources, whatever authority and root the two checks name, they
    give the same objects in the same key epochs under the same root, and the
    root is one of them, unless two of the byte strings hashed for the two trees collide. *)
Theorem coverage_receipt_binds `{Sha256} `{Ed25519} input authority authority' root root' source source' s s' objects objects' :
  Z.of_nat (length source.1) <= MAX_SAFE_INTEGER -> Z.of_nat (length source'.1) <= MAX_SAFE_INTEGER ->
  verifyCompleteArchiveCoverage input authority root source = Ok s ->
  verifyCompleteArchiveCoverage input authority' root' source' = Ok s' ->
  gives source objects -> gives source' objects' ->
  (forall k, topHeight k objects -> topHeight k objects' -> noCollision (hashed root k objects) (hashed root' k objects')) ->
  root = root' /\ objects = objects' /\ root ∈ map cov_objectId objects.
Proof.
  intros Hmax Hmax' Hv Hv' Hg Hg' Hno. apply complete_ok in Hv as (receipt & Hcap & Hb & Hs & Hd & Hcov), Hv' as (receipt' & Hcap' & _ & Hs' & Hd' & _); [|done..].
  rewrite Hcap in Hcap'. injection Hcap' as <-. destruct receipt as [|header rootId sum signer signature]; [done|]. apply captureChild_again in Hcap.
  destruct (verifyAggregate_ok _ _ _ _ _ _ _ _ Hcap Hs) as [Hr1 ->]. destruct (verifyAggregate_ok _ _ _ _ _ _ _ _ Hcap Hs') as [Hr2 ->]. split; [congruence|].
  apply derive_exact in Hd as (Hroot & objs & k & Hgo & Hord & Hne & Hk & ->), Hd' as (Hroot' & objs' & k' & Hgo' & Hord' & Hne' & Hk' & Heq); [|done..].
  rewrite <-(gives_unique _ _ _ Hg Hgo), <-(gives_unique _ _ _ Hg' Hgo') in *. pose proof (gives_ok _ _ Hg) as [Hok Hlen]. pose proof (gives_ok _ _ Hg') as [Hok' Hlen'].
  assert (k = k') as <-. { unfold canon, describe in Heq. injection Heq as Hh _. by apply Nat2Z.inj in Hh. }
  split.
  - apply (top_binds root root' k k); [exact Hroot|exact Hroot'|split_and!; [exact Hok|exact Hord|lia]|split_and!; [exact Hok'|exact Hord'|lia]|exact Hk|exact Hk'|exact (Hno k Hk Hk')|exact Heq].
  - unfold canon, describe in Hcov. cbn [sum_rootCovered] in Hcov. apply existsb_exists in Hcov as (o & Ho%list_elem_of_In & Ho'%bool_decide_eq_true). apply list_elem_of_fmap. by exists o.
Qed.

(** What [confirmArchiveCoverageSet] returns is evidence: whatever the
    service answers, a returned receipt is accepted by
    [verifyCompleteArchiveCoverage] for the same authority, root and source. *)
Theorem coverage_confirmed `{Sha256} `{Ed25519} {W} `{ArchiveCoveragePort W} authorityInput root transitionId source receipt (w w' : W) :
  Z.of_nat (length source.1) <= MAX_SAFE_INTEGER ->
  confirmArchiveCoverageSet authorityInput root transitionId source w = (Ok receipt, w') ->
  exists s, verifyCompleteArchiveCoverage (child_value receipt) authorityInput root source = Ok s.
Proof.
  intros Hmax. unfold confirmArchiveCoverageSet, confirmFrom, mbind, M_bind, liftM at 1. destruct (captureArchiveCoverageAuthority authorityInput) as [authority|] eqn:Ha; [|done].
  unfold liftM at 1. destruct (validateArchiveObjectId (Str root)); [|done]. unfold requireM, require, liftM. destruct (_ && _ && _); [|done].
  destruct (port_ensureCurrent w) as [[] w1]; [|done]. destruct (reduceSet _ _ _ w1) as [[node|] w2] eqn:Hred; [|done].
  destruct (sum_rootCovered (summary node) && negb (isBatch (evidence node))) eqn:Hend; [|done]. destruct (port_ensureCurrent w2) as [[] w3]; [|done].
  intros [= <- <-]. apply andb_true_iff in Hend as [Hcov Hb%negb_true_iff]. apply confirm_signed in Hred as [Hd [Hcap Hs]]; [|done]. exists (summary node).
  apply complete_ok; [done|]. exists (evidence node). split_and!; try done.
  revert Hs. unfold verifyArchiveCoverageChild. by rewrite Ha, (captureAuthority_again _ _ Ha).
Qed.

Module CoverageSample.
(** Signatures of 64 bytes to run the definitions with. *)
#[local] Instance wideEd25519 : Ed25519.
Proof.
  refine {| CryptoKey := N; ed_public := toyPublic; ed_sign := fun key message => toySign key message ++ toySign key message;
    ed_verify := fun public signature message => toyVerify public (take 32 signature) message |}.
  - done.
  - intros key. unfold toyPublic. apply Forall_app. split; [apply Forall_replicate; done|].
    apply Forall_singleton. unfold isByte. by apply Is_true_true, N.ltb_lt, N.mod_lt.
  - intros key message. apply Forall_app. split; apply (sha256_bytes (Sha256 := checksumSha256)).
  - intros key message. rewrite take_app_length' by exact (sha256_length (Sha256 := checksumSha256) ((key mod 256)%N :: message)). unfold toyVerify, toyPublic, toySign. rewrite last_last. by apply bool_decide_eq_true.
Defined.
#[local] Instance sampleSha : Sha256 := checksumSha256.

Definition serviceKey : list N := toBase64Url (toyPublic 9).
Definition serviceId : list N := match publicKeyId serviceKey with Ok id => id | Throw _ => [] end.
Definition authorityInput : value := authority_value (mkCoverageAuthority serviceKey (js "scope") 3).
Definition header (request : list N) : ReceiptHeader := mkReceiptHeader serviceId (js "scope") 3 request.

(** A service that signs what it is asked for, and adds up receipts it signed itself. *)
#[local] Instance samplePort : ArchiveCoveragePort unit := {|
  port_coverage objects request := liftM (signEnvelope (9%N : CryptoKey) (child_payload (BatchReceipt (header request) objects [] [])) serviceId (js "RUSTY/2"));
  port_aggregate root children request := liftM (
    summaries ← mapR (fun child => verifyArchiveCoverageChild (child_value child) authorityInput root) children;
    s ← archiveCoverageBranch root (map summary_value summaries);
    signEnvelope (9%N : CryptoKey) (child_payload (AggregateReceipt (header request) root s [] [])) serviceId (js "RUSTY/2"));
  port_ensureCurrent := mret tt |}.

Definition objectIds : list (list N) := map (fun c => replicate 42 65%N ++ [c]) (js "AEI").
Definition objects : list ArchiveCoverageObject := map (fun id => mkCoverageObject id 1) objectIds.
Definition source : ArchiveCoverageSource := (map object_value objects, Ok tt).
Definition root : list N := replicate 42 65%N ++ js "E".
Definition receipt : value := match (confirmArchiveCoverageSet authorityInput root (js "transition") source tt).1 with Ok child => child_value child | Throw _ => Null end.

Lemma source_gives : gives source objects.
Proof. split; [done|]. repeat constructor. Qed.

Lemma noCollision_check inputs inputs' :
  forallb (fun x => forallb (fun y => negb (bool_decide (sha256Base64Url x = sha256Base64Url y)) || bool_decide (x = y)) inputs') inputs = true ->
  noCollision inputs inputs'.
Proof.
  intros Hc x y Hx%list_elem_of_In Hy%list_elem_of_In Heq. rewrite forallb_forall in Hc. specialize (Hc x Hx). rewrite forallb_forall in Hc. specialize (Hc y Hy).
  rewrite bool_decide_eq_true_2 in Hc by done. by apply bool_decide_eq_true in Hc.
Qed.

Lemma objects_low k : topHeight k objects -> k = 1%nat.
Proof. intros Hk. apply (topHeight_unique k 1 objects Hk). split_and!; [lia|lia| |by left]. apply Nat.leb_le. by vm_compute. Qed.
End CoverageSample.

Lemma coverage_set_exact_witness :
  match deriveArchiveCoverageSet (H := checksumSha256) CoverageSample.root CoverageSample.source with
  | Ok s => sum_objectCount s = 3 | Throw _ => False end.
Proof.
  destruct (deriveArchiveCoverageSet _ _) as [s|] eqn:Hd; [|vm_compute in Hd; discriminate Hd].
  destruct (coverage_set_exact (H := checksumSha256) CoverageSample.root CoverageSample.source s ltac:(vm_compute; discriminate)) as [_ Hfields].
  exact (proj1 (Hfields Hd _ CoverageSample.source_gives)).
Defined.

Lemma coverage_confirmed_witness :
  match (confirmArchiveCoverageSet (H := checksumSha256) (H0 := CoverageSample.wideEd25519) (H1 := CoverageSample.samplePort)
     CoverageSample.authorityInput CoverageSample.root (js "transition") CoverageSample.source tt).1 with
  | Ok child => exists s, verifyCompleteArchiveCoverage (H := checksumSha256) (H0 := CoverageSample.wideEd25519) (child_value child) CoverageSample.authorityInput CoverageSample.root CoverageSample.source = Ok s
  | Throw _ => False
  end.
Proof.
  destruct (confirmArchiveCoverageSet _ _ _ _ tt) as [[child|] w] eqn:Hc; [|vm_compute in Hc; discriminate Hc].
  exact (coverage_confirmed (H := checksumSha256) (H0 := CoverageSample.wideEd25519) (H1 := CoverageSample.samplePort)
    CoverageSample.authorityInput CoverageSample.root (js "transition") CoverageSample.source child tt w ltac:(vm_compute; discriminate) Hc).
Defined.

Lemma coverage_receipt_binds_witness :
  match verifyCompleteArchiveCoverage (H := checksumSha256) (H0 := CoverageSample.wideEd25519) CoverageSample.receipt CoverageSample.authorityInput CoverageSample.root CoverageSample.source with
  | Ok s => CoverageSample.root ∈ map cov_objectId CoverageSample.objects | Throw _ => False end.
Proof.
  destruct (verifyCompleteArchiveCoverage _ _ _ _) as [s|] eqn:Hv; [|vm_compute in Hv; discriminate Hv].
  refine (proj2 (proj2 (coverage_receipt_binds (H := checksumSha256) (H0 := CoverageSample.wideEd25519) CoverageSample.receipt
    CoverageSample.authorityInput CoverageSample.authorityInput CoverageSample.root CoverageSample.root CoverageSample.source CoverageSample.source s s
    CoverageSample.objects CoverageSample.objects ltac:(vm_compute; discriminate) ltac:(vm_compute; discriminate) Hv Hv
    CoverageSample.source_gives CoverageSample.source_gives _))).
  intros k ->%CoverageSample.objects_low _. apply CoverageSample.noCollision_check. vm_compute. reflexivity.
Defined.
