(* ===== verification/ArchiveCrypto.v ===== *)
(** * Encrypted archive objects

    [packages/mesh-replication/src/historyArchiveCrypto.ts]: archive objects as
    AES-GCM ciphertexts that are bound to their place in an archive by
    the additional data, named by the hash of their JSON form, and checked against the
    hash of their plaintext when opened.  The key of a scope is raw bytes; the
    nonce is an argument. *)
From stdpp Require Import base numbers list strings sets.
From Stdlib Require Import ZArith NArith Lia.
From S2P Require Import Prelude Unicode Json Base64 Digest Envelope Profile Recovery Archive ArchiveSize Js Coverage CoverageSet.
Local Open Scope js_scope.
Local Open Scope Z_scope.

(** [crypto.subtle.importKey("raw", key, "AES-GCM", ...)] *)
Class RawKeys `{Wrapping} := importRaw : list N -> WrapKey.

Record ArchiveEncryptionScope := mkScope { scope_scopeId : list N; scope_keyEpoch : Z; scope_key : list N }.
Record ArchiveEncryptionBinding := mkEncryptionBinding {
  eb_context : ArchiveTreeContext; eb_objectId : list N; eb_objectKind : ObjectKind; eb_partIndex : Z; eb_partCount : Z }.
Record EncryptedArchiveObject := mkEncrypted {
  enc_scopeId : list N; enc_keyEpoch : Z; enc_nonce : list N; enc_ciphertext : list N }.
Record SealedArchiveObject := mkSealed { sealed_ciphertextId : list N; sealed_object : EncryptedArchiveObject }.

#[export] Instance kind_eq_dec : EqDecision ObjectKind.
Proof. solve_decision. Defined.
#[export] Instance encryption_binding_eq_dec : EqDecision ArchiveEncryptionBinding.
Proof. solve_decision. Defined.
#[export] Instance encrypted_eq_dec : EqDecision EncryptedArchiveObject.
Proof. solve_decision. Defined.

Definition kindText (kind : ObjectKind) : list N :=
  match kind with KindPage => js "page" | KindRecord => js "record" | KindPart => js "part" end.
Definition binding_members (b : ArchiveEncryptionBinding) : list (list N * value) :=
  [(js "workspaceId", Str (ctx_workspaceId (eb_context b))); (js "historyEpoch", Archive.int (ctx_historyEpoch (eb_context b)));
   (js "indexId", Str (ctx_indexId (eb_context b))); (js "objectId", Str (eb_objectId b)); (js "objectKind", Str (kindText (eb_objectKind b)));
   (js "partIndex", Archive.int (eb_partIndex b)); (js "partCount", Archive.int (eb_partCount b))].
Definition binding_value (b : ArchiveEncryptionBinding) : value := Obj (binding_members b).
Definition encrypted_value (o : EncryptedArchiveObject) : value :=
  Obj [(js "version", Archive.int 1); (js "scopeId", Str (enc_scopeId o)); (js "keyEpoch", Archive.int (enc_keyEpoch o));
       (js "nonce", Str (enc_nonce o)); (js "ciphertext", Str (enc_ciphertext o))].
Definition sealed_value (s : SealedArchiveObject) : value :=
  Obj [(js "ciphertextId", Str (sealed_ciphertextId s)); (js "object", encrypted_value (sealed_object s))].

Definition exact (v : value) (keys : list (list N)) : result unit :=
  require (isRecord v && hasExactKeys v keys) "Invalid encrypted archive schema".

Definition positive (v : value) : result Z :=
  match safeInt v with
  | Some z => if z <? 1 then Throw "Invalid archive encryption epoch or count" else Ok z
  | None => Throw "Invalid archive encryption epoch or count"
  end.

Definition text (v : value) (maximum : Z) : result (list N) :=
  match v with
  | Str s =>
      if (length s =? 0)%nat || (maximum <? Z.of_nat (length s)) || (maximum <? byteLength (TextEncoder_encode s)) || existsb isSurrogate (codePoints s)
      then Throw "Invalid archive encryption context" else Ok s
  | _ => Throw "Invalid archive encryption context"
  end.

(** [/^[A-Za-z0-9_-]{1,128}$/] *)
Definition scopePattern (s : list N) : bool := (1 <=? length s)%nat && (length s <=? 128)%nat && forallb urlChar s.

Definition scopeSnapshot (scope : ArchiveEncryptionScope) : result ArchiveEncryptionScope :=
  if negb (scopePattern (scope_scopeId scope)) || negb (length (scope_key scope) =? 32)%nat
  then Throw "Invalid archive encryption scope or key" else
  positive (Archive.int (scope_keyEpoch scope));;
  Ok scope.

Definition kindOf (v : value) : option ObjectKind :=
  if isStr (js "page") v then Some KindPage else if isStr (js "record") v then Some KindRecord
  else if isStr (js "part") v then Some KindPart else None.

Definition bindingSnapshot (input : value) : result ArchiveEncryptionBinding :=
  exact input [js "workspaceId"; js "historyEpoch"; js "indexId"; js "objectId"; js "objectKind"; js "partIndex"; js "partCount"];;
  workspaceId ← text input.["workspaceId"] 256;
  indexId ← text input.["indexId"] 128;
  historyEpoch ← positive input.["historyEpoch"];
  partCount ← positive input.["partCount"];
  objectId ← validateArchiveObjectId input.["objectId"];
  match kindOf input.["objectKind"], safeInt input.["partIndex"] with
  | Some kind, Some partIndex =>
      if (partIndex <? 0) || (partCount <=? partIndex) ||
         (negb (bool_decide (kind = KindPart)) && (negb (partIndex =? 0) || negb (partCount =? 1)))
      then Throw "Invalid archive encryption part binding"
      else Ok (mkEncryptionBinding (mkContext workspaceId historyEpoch indexId) objectId kind partIndex partCount)
  | _, _ => Throw "Invalid archive encryption part binding"
  end.

Definition maximum (binding : ArchiveEncryptionBinding) : Z :=
  match eb_objectKind binding with KindPart => MAX_ARCHIVE_PART_BYTES | _ => MAX_ARCHIVE_PAGE_BYTES end.

Definition aad (scope : ArchiveEncryptionScope) (binding : ArchiveEncryptionBinding) : list N :=
  TextEncoder_encode (js "MESH-HISTORY/1/archive-object" ++ [0%N] ++ canonText str_leb
    (Obj ([(js "purpose", Str (js "archive")); (js "scopeId", Str (scope_scopeId scope)); (js "keyEpoch", Archive.int (scope_keyEpoch scope))] ++
          binding_members binding))).

Definition decoded (v : value) (least most : Z) : result (list N) :=
  match v with
  | Str s =>
      if ((most + 2) / 3 * 4 <? Z.of_nat (length s)) || negb (forallb urlChar s) then Throw "Invalid archive ciphertext encoding or size limit" else
      bytes ← fromBase64Url s;
      if (byteLength bytes <? least) || (most <? byteLength bytes) || negb (bool_decide (toBase64Url bytes = s))
      then Throw "Non-canonical archive ciphertext encoding or size limit" else Ok bytes
  | _ => Throw "Invalid archive ciphertext encoding or size limit"
  end.

Definition captureEncryptedArchiveObject (input : value) (scopeId : list N) : result EncryptedArchiveObject :=
  exact input [js "version"; js "scopeId"; js "keyEpoch"; js "nonce"; js "ciphertext"];;
  if negb (isInt 1 input.["version"]) || negb (isStr scopeId input.["scopeId"]) || negb (scopePattern scopeId)
  then Throw "Encrypted archive object scope or version mismatch" else
  keyEpoch ← positive input.["keyEpoch"];
  decoded input.["nonce"] 12 12;;
  decoded input.["ciphertext"] 16 (MAX_ARCHIVE_PART_BYTES + 16);;
  Ok (mkEncrypted scopeId keyEpoch (textOf input.["nonce"]) (textOf input.["ciphertext"])).

Section Sealing.
Context `{Sha256} `{!Wrapping} `{!RawKeys}.

Definition ciphertextIdOf (object : EncryptedArchiveObject) : list N := sha256Base64Url (canonicalBytes (encrypted_value object)).

Definition sealArchiveObject (scopeInput : ArchiveEncryptionScope) (bindingInput : value) (bytes nonce : list N) : result SealedArchiveObject :=
  scope ← scopeSnapshot scopeInput;
  binding ← bindingSnapshot bindingInput;
  if maximum binding <? byteLength bytes then Throw "Archive plaintext exceeds size limit" else
  if negb (bool_decide (sha256Base64Url bytes = eb_objectId binding)) then Throw "Archive plaintext hash integrity failure" else
  let ciphertext := aesEncrypt (importRaw (scope_key scope)) nonce (aad scope binding) bytes in
  let object := mkEncrypted (scope_scopeId scope) (scope_keyEpoch scope) (toBase64Url nonce) (toBase64Url ciphertext) in
  Ok (mkSealed (ciphertextIdOf object) object).

Definition openArchiveObject (scopeInput : ArchiveEncryptionScope) (bindingInput : value) (ciphertextId : list N) (objectInput : value) : result (list N) :=
  scope ← scopeSnapshot scopeInput;
  binding ← bindingSnapshot bindingInput;
  object ← captureEncryptedArchiveObject objectInput (scope_scopeId scope);
  validateArchiveObjectId (Str ciphertextId);;
  if negb (enc_keyEpoch object =? scope_keyEpoch scope) then Throw "Encrypted archive object scope or version mismatch" else
  nonce ← decoded (Str (enc_nonce object)) 12 12;
  ciphertext ← decoded (Str (enc_ciphertext object)) 16 (maximum binding + 16);
  if negb (bool_decide (ciphertextIdOf object = ciphertextId)) then Throw "Archive ciphertext hash integrity failure" else
  match aesDecrypt (importRaw (scope_key scope)) nonce (aad scope binding) ciphertext with
  | None => Throw "Archive ciphertext authentication failed"
  | Some bytes => if negb (bool_decide (sha256Base64Url bytes = eb_objectId binding)) then Throw "Archive plaintext hash integrity failure" else Ok bytes
  end.
End Sealing.

(** ** What the captures accept *)
Definition binding_ok (b : ArchiveEncryptionBinding) : Prop :=
  text (Str (ctx_workspaceId (eb_context b))) 256 = Ok (ctx_workspaceId (eb_context b)) /\
  text (Str (ctx_indexId (eb_context b))) 128 = Ok (ctx_indexId (eb_context b)) /\
  1 <= ctx_historyEpoch (eb_context b) <= MAX_SAFE_INTEGER /\ digestPattern (eb_objectId b) = true /\
  1 <= eb_partCount b <= MAX_SAFE_INTEGER /\ 0 <= eb_partIndex b < eb_partCount b /\
  (eb_objectKind b <> KindPart -> eb_partIndex b = 0 /\ eb_partCount b = 1).

Definition scope_ok (s : ArchiveEncryptionScope) : Prop :=
  scopePattern (scope_scopeId s) = true /\ length (scope_key s) = 32%nat /\ 1 <= scope_keyEpoch s <= MAX_SAFE_INTEGER.

Definition encrypted_ok (o : EncryptedArchiveObject) : Prop :=
  scopePattern (enc_scopeId o) = true /\ 1 <= enc_keyEpoch o <= MAX_SAFE_INTEGER /\
  (exists nonce, decoded (Str (enc_nonce o)) 12 12 = Ok nonce) /\
  exists ciphertext, decoded (Str (enc_ciphertext o)) 16 (MAX_ARCHIVE_PART_BYTES + 16) = Ok ciphertext.

Lemma epoch_ok v z : positive v = Ok z <-> v = Archive.int z /\ 1 <= z <= MAX_SAFE_INTEGER.
Proof.
  rewrite <-Coverage.positive_ok. unfold positive, Coverage.positive. destruct (safeInt v) as [y|]; [|done]. by destruct (y <? 1).
Qed.

Lemma epoch_int z : 1 <= z <= MAX_SAFE_INTEGER -> positive (Archive.int z) = Ok z.
Proof. intros. by apply epoch_ok. Qed.

Lemma context_text_inv v m s : text v m = Ok s -> v = Str s.
Proof. unfold text. destruct v; try done. case_match; by intros; simplify_eq. Qed.

Lemma kindOf_text kind : kindOf (Str (kindText kind)) = Some kind.
Proof. by destruct kind. Qed.

Lemma kindOf_ok v kind : kindOf v = Some kind -> v = Str (kindText kind).
Proof.
  unfold kindOf. destruct (isStr (js "page") v) eqn:H1; [intros [= <-]; by apply isStr_true in H1 as ->|].
  destruct (isStr (js "record") v) eqn:H2; [intros [= <-]; by apply isStr_true in H2 as ->|].
  destruct (isStr (js "part") v) eqn:H3; [intros [= <-]; by apply isStr_true in H3 as ->|done].
Qed.

Lemma bindingSnapshot_value b : binding_ok b -> bindingSnapshot (binding_value b) = Ok b.
Proof.
  intros (Hw & Hi & He & Hid & Hc & Hp & Hk). unfold bindingSnapshot. set (v := binding_value b). change (exact v _) with (Ok tt). cbn [mbind result_bind].
  change (v.["workspaceId"]) with (Str (ctx_workspaceId (eb_context b))). change (v.["indexId"]) with (Str (ctx_indexId (eb_context b))).
  change (v.["historyEpoch"]) with (Archive.int (ctx_historyEpoch (eb_context b))). change (v.["partCount"]) with (Archive.int (eb_partCount b)).
  change (v.["objectId"]) with (Str (eb_objectId b)). change (v.["objectKind"]) with (Str (kindText (eb_objectKind b))). change (v.["partIndex"]) with (Archive.int (eb_partIndex b)).
  rewrite Hw, Hi. cbn [mbind result_bind]. rewrite !epoch_int, validate_str by done. cbn [mbind result_bind]. rewrite kindOf_text.
  unfold safeInt, Archive.int. assert (isSafeInteger (eb_partIndex b) = true) as -> by (apply Is_true_true, safe_between; unfold MAX_SAFE_INTEGER in *; lia).
  rewrite (proj2 (Z.ltb_ge _ 0)), (proj2 (Z.leb_gt _ _)) by lia. cbn [orb]. destruct b as [[ws ep idx] id kind pi pc]. cbn in *.
  destruct kind; cbn; [destruct Hk as [-> ->]; done|destruct Hk as [-> ->]; done|done].
Qed.

Lemma bindingSnapshot_ok v b : bindingSnapshot v = Ok b -> binding_ok b.
Proof.
  unfold bindingSnapshot. intros (? & _ & H)%bind_ok. apply bind_ok in H as (ws & Hws & H). apply bind_ok in H as (idx & Hidx & H).
  apply bind_ok in H as (ep & [_ Hep]%epoch_ok & H). apply bind_ok in H as (pc & [_ Hpc]%epoch_ok & H). apply bind_ok in H as (id & [_ Hid]%validate_ok & H).
  destruct (kindOf _) as [kind|]; [|done]. destruct (safeInt _) as [pi|]; [|done]. revert H. guard_passed as Hg. intros [= <-].
  apply context_text_inv in Hws as Hws', Hidx as Hidx'. rewrite Hws' in Hws. rewrite Hidx' in Hidx. apply orb_false_iff in Hg as [Hg Hk]. apply orb_false_iff in Hg as [H1%Z.ltb_ge H2%Z.leb_gt].
  unfold binding_ok. cbn. split_and!; try done; try lia; intros Hne; rewrite (bool_decide_eq_false_2 _ Hne) in Hk; cbn in Hk; apply orb_false_iff in Hk as [Hz%negb_false_iff Ho%negb_false_iff]; lia.
Qed.

Lemma scopeSnapshot_ok s s' : scopeSnapshot s = Ok s' <-> s' = s /\ scope_ok s.
Proof.
  unfold scopeSnapshot, scope_ok. destruct (scopePattern (scope_scopeId s)); cbn [negb orb]; [|split; [done|by intros (_ & ? & _)]].
  destruct (length (scope_key s) =? 32)%nat eqn:Hl; cbn [negb]; [|apply Nat.eqb_neq in Hl; split; [done|by intros (_ & _ & ? & _)]]. apply Nat.eqb_eq in Hl.
  split.
  - intros (z & [[= <-] Hz]%epoch_ok & [= <-])%bind_ok. done.
  - intros (-> & _ & _ & Hz). by rewrite epoch_int.
Qed.

Lemma decoded_ok least most v bytes : decoded v least most = Ok bytes ->
  exists s, v = Str s /\ toBase64Url bytes = s /\ least <= byteLength bytes <= most /\ forallb urlChar s = true.
Proof.
  unfold decoded. destruct v; try done. guard_passed as Hg. intros (b & Hb & H)%bind_ok. revert H. guard_passed as Hh. intros [= <-].
  apply orb_false_iff in Hg as [_ Hu%negb_false_iff]. apply orb_false_iff in Hh as [Hh Hs%negb_false_iff%bool_decide_eq_true]. apply orb_false_iff in Hh as [H1%Z.ltb_ge H2%Z.ltb_ge]. by exists s.
Qed.

Lemma decoded_bytes least most bytes : Forall isByte bytes -> least <= byteLength bytes <= most -> decoded (Str (toBase64Url bytes)) least most = Ok bytes.
Proof.
  intros Hb Hl. unfold decoded. rewrite toBase64Url_length by done. unfold byteLength in *.
  assert (((most + 2) / 3 * 4 <? Z.of_nat ((length bytes * 4 + 2) / 3)) = false) as ->.
  { apply Z.ltb_ge. rewrite Nat2Z.inj_div, Nat2Z.inj_add, Nat2Z.inj_mul. change (Z.of_nat 4) with 4. change (Z.of_nat 2) with 2. change (Z.of_nat 3) with 3.
    pose proof (Z.div_mod (most + 2) 3 ltac:(lia)). pose proof (Z.mod_pos_bound (most + 2) 3 ltac:(lia)).
    apply Z.lt_succ_r, Z.div_lt_upper_bound; lia. }
  assert (forallb urlChar (toBase64Url bytes) = true) as ->.
  { apply forallb_forall. intros c Hc%list_elem_of_In. pose proof (toBase64Url_chars bytes Hb) as Hu. rewrite Forall_forall in Hu. by apply Is_true_true, Hu. }
  cbn [negb orb]. rewrite from_toBase64Url by done. cbn [mbind result_bind]. rewrite !(proj2 (Z.ltb_ge _ _)) by lia. by rewrite bool_decide_eq_true_2.
Qed.

Lemma captureEncrypted_value o : encrypted_ok o -> captureEncryptedArchiveObject (encrypted_value o) (enc_scopeId o) = Ok o.
Proof.
  intros (Hs & He & [nonce Hn] & [ciphertext Hc]). unfold captureEncryptedArchiveObject. set (v := encrypted_value o). change (exact v _) with (Ok tt). cbn [mbind result_bind].
  change (isInt 1 v.["version"]) with true. change (v.["scopeId"]) with (Str (enc_scopeId o)). rewrite (proj2 (isStr_true _ _) eq_refl), Hs. cbn [negb orb].
  change (v.["keyEpoch"]) with (Archive.int (enc_keyEpoch o)). rewrite epoch_int by done. cbn [mbind result_bind].
  change (v.["nonce"]) with (Str (enc_nonce o)). change (v.["ciphertext"]) with (Str (enc_ciphertext o)). rewrite Hn, Hc. by destruct o.
Qed.

Lemma captureEncrypted_ok v scopeId o : captureEncryptedArchiveObject v scopeId = Ok o -> enc_scopeId o = scopeId /\ encrypted_ok o.
Proof.
  unfold captureEncryptedArchiveObject. intros (? & _ & H)%bind_ok. revert H. guard_passed as Hg. intros (epoch & [_ He]%epoch_ok & H)%bind_ok.
  apply bind_ok in H as (nonce & Hn & H). apply bind_ok in H as (ciphertext & Hc & [= <-]). unfold encrypted_ok. cbn [enc_scopeId enc_keyEpoch enc_nonce enc_ciphertext].
  apply orb_false_iff in Hg as [_ Hs%negb_false_iff]. apply decoded_ok in Hn as Hn', Hc as Hc'. destruct Hn' as (sn & Hsn & _), Hc' as (sc & Hsc & _).
  rewrite Hsn in Hn |- *. rewrite Hsc in Hc |- *. split; [done|]. split; [done|]. split; [done|]. split; [by exists nonce|by exists ciphertext].
Qed.

Lemma encrypted_plain o : encrypted_ok o -> plain (encrypted_value o).
Proof.
  intros (Hs & He & [nonce Hn] & [ciphertext Hc]). apply decoded_ok in Hn as (? & [= <-] & _ & _ & Hn), Hc as (? & [= <-] & _ & _ & Hc).
  unfold scopePattern in Hs. apply andb_true_iff in Hs as [_ Hs].
  assert (forall s, forallb urlChar s = true -> units s) as Hu.
  { intros s H. apply ascii_units. rewrite forallb_forall in *. intros c Hin. specialize (H c Hin). unfold urlChar in H.
    rewrite !orb_true_iff, !andb_true_iff, !N.leb_le, !N.eqb_eq in H. apply andb_true_iff. rewrite N.leb_le, N.ltb_lt. lia. }
  unfold encrypted_value. plain_record; [done|by apply Hu|apply safe_between; unfold MAX_SAFE_INTEGER in *; lia|by apply Hu|by apply Hu].
Qed.

(** ** Sealing and opening *)
Section Sealed.
Context `{Sha256} `{!Wrapping} `{!RawKeys}.

Lemma openArchive_ok scope bindingInput ciphertextId objectInput bytes :
  openArchiveObject scope bindingInput ciphertextId objectInput = Ok bytes ->
  exists binding object, bindingSnapshot bindingInput = Ok binding /\ captureEncryptedArchiveObject objectInput (scope_scopeId scope) = Ok object /\
    enc_keyEpoch object = scope_keyEpoch scope /\ sha256Base64Url bytes = eb_objectId binding /\ ciphertextIdOf object = ciphertextId.
Proof.
  unfold openArchiveObject. intros (s & [-> Hs]%scopeSnapshot_ok & Hrest)%bind_ok. apply bind_ok in Hrest as (binding & Hb & Hrest). apply bind_ok in Hrest as (object & Ho & Hrest).
  apply bind_ok in Hrest as (? & _ & Hrest). revert Hrest. guard_passed as He. intros (nonce & Hn & Hrest)%bind_ok. apply bind_ok in Hrest as (ciphertext & Hc & Hrest). revert Hrest. guard_passed as Hid.
  destruct (aesDecrypt _ _ _ _) as [text|]; [|done]. guard_passed as Hd. intros [= <-]. exists binding, object.
  apply negb_false_iff in He, Hid, Hd. apply bool_decide_eq_true in Hid, Hd. apply Z.eqb_eq in He. done.
Qed.

Lemma seal_total scope binding bytes nonce : scope_ok scope -> binding_ok binding -> Forall isByte bytes -> byteLength bytes <= maximum binding ->
  sha256Base64Url bytes = eb_objectId binding -> Forall isByte nonce -> length nonce = 12%nat ->
  exists sealed, sealArchiveObject scope (binding_value binding) bytes nonce = Ok sealed /\ encrypted_ok (sealed_object sealed) /\
    enc_scopeId (sealed_object sealed) = scope_scopeId scope /\ enc_keyEpoch (sealed_object sealed) = scope_keyEpoch scope /\
    sealed_ciphertextId sealed = ciphertextIdOf (sealed_object sealed) /\
    openArchiveObject scope (binding_value binding) (sealed_ciphertextId sealed) (encrypted_value (sealed_object sealed)) = Ok bytes.
Proof.
  intros Hs Hb Hbytes Hmax Hid Hn Hn12. unfold sealArchiveObject. rewrite (proj2 (scopeSnapshot_ok _ _) (conj eq_refl Hs)). cbn [mbind result_bind].
  rewrite bindingSnapshot_value by done. cbn [mbind result_bind]. rewrite (proj2 (Z.ltb_ge _ _)) by done. rewrite bool_decide_eq_true_2 by done. cbn [negb].
  set (ciphertext := aesEncrypt _ _ _ _). set (object := mkEncrypted _ _ _ _). eexists. split; [done|]. cbn [sealed_object sealed_ciphertextId].
  assert (byteLength ciphertext = byteLength bytes + 16) as Hlen by (unfold byteLength, ciphertext; rewrite aes_length; lia).
  assert (Forall isByte ciphertext) as Hcb by by apply aes_bytes.
  assert (16 <= byteLength ciphertext <= maximum binding + 16) as Hrange by (rewrite Hlen; unfold byteLength in *; lia).
  assert (maximum binding <= MAX_ARCHIVE_PART_BYTES) as Hm by by (unfold maximum; destruct (eb_objectKind binding)).
  assert (byteLength nonce = 12) as Hnl by (unfold byteLength; lia).
  assert (encrypted_ok object) as Hok.
  { split_and!; [apply Hs|apply Hs|apply Hs|exists nonce; apply decoded_bytes; [done|lia]|exists ciphertext; apply decoded_bytes; [done|lia]]. }
  split_and!; try done. unfold openArchiveObject. rewrite (proj2 (scopeSnapshot_ok _ _) (conj eq_refl Hs)). cbn [mbind result_bind].
  rewrite bindingSnapshot_value by done. cbn [mbind result_bind]. change (scope_scopeId scope) with (enc_scopeId object). rewrite captureEncrypted_value by done. cbn [mbind result_bind].
  rewrite validate_str by apply Is_true_true, sha256Base64Url_pattern. cbn [mbind result_bind]. change (enc_keyEpoch object) with (scope_keyEpoch scope). rewrite Z.eqb_refl. cbn [negb].
  change (enc_nonce object) with (toBase64Url nonce). change (enc_ciphertext object) with (toBase64Url ciphertext). rewrite !decoded_bytes by (done || lia). cbn [mbind result_bind].
  rewrite bool_decide_eq_true_2 by done. cbn [negb]. unfold ciphertext. rewrite aes_correct by done. by rewrite bool_decide_eq_true_2.
Qed.
End Sealed.
