(* ===== verification/ArchiveFrame.v ===== *)
(** * What archive code does to the world, whatever its ports do

    The functions of [Archive], [ArchiveStore] and [CoverageSet] touch the world only
    through their ports: an order that every port operation respects, they
    respect.  And whatever the store answers, a reference that
    [writeArchiveBytes] returns is a plain JSON value. *)
From stdpp Require Import base numbers list strings sets.
From Stdlib Require Import ZArith NArith Lia.
From S2P Require Import Prelude Unicode Json Base64 Digest Envelope Js Archive ArchiveSize ArchiveRead ArchiveBytes ArchiveStore Coverage CoverageSet.
Local Open Scope Z_scope.

Section Archives.
Context `{Sha256} {W : Type} {store : ArchiveObjectStore W} (le : W -> W -> Prop) `{!PreOrder le}.
Hypothesis write_moves : forall id bytes, moves le (store_write id bytes).
Hypothesis read_moves : forall id maximum binding, moves le (store_read id maximum binding).

Lemma persist_moves page : moves le (persist page).
Proof. unfold persist. moves. Qed.

Lemma push_moves context fuel level root upper : moves le (Archive.push context fuel level root upper).
Proof.
  pose proof persist_moves. revert level root upper. induction fuel as [|fuel IH]; intros level root upper; cbn [Archive.push]; moves.
Qed.

Lemma flushLevel_moves context level levels : moves le (flushLevel context level levels).
Proof. pose proof persist_moves. pose proof push_moves. unfold flushLevel. moves. Qed.

Lemma flushLeaf_moves context b : moves le (flushLeaf context b).
Proof. pose proof persist_moves. pose proof push_moves. unfold flushLeaf. moves. Qed.

Lemma feed_moves context b candidate : moves le (feed context b candidate).
Proof. pose proof flushLeaf_moves. unfold feed. moves. Qed.

Lemma closing_moves context fuel levels : moves le (Archive.closing context fuel levels).
Proof. pose proof flushLevel_moves. revert levels. induction fuel as [|fuel IH]; intros levels; cbn [Archive.closing]; moves. Qed.

Lemma finish_moves context b : moves le (finish context b).
Proof. pose proof flushLeaf_moves. pose proof closing_moves. unfold finish. moves. Qed.

Lemma save_moves context bytes wr : moves le (save context bytes wr).
Proof. pose proof feed_moves. unfold save. moves. Qed.

Lemma fill_moves context fuel bytes wr : moves le (fill context fuel bytes wr).
Proof. pose proof save_moves. revert bytes wr. induction fuel as [|fuel IH]; intros bytes wr; cbn [fill]; moves. Qed.

Lemma writeChunks_moves context source wr : moves le (writeChunks context source wr).
Proof. pose proof fill_moves. revert wr. induction source as [|bytes source IH]; intros wr; cbn [writeChunks]; moves. Qed.

Lemma writeArchiveBytes_moves context source : moves le (writeArchiveBytes context source).
Proof. pose proof writeChunks_moves. pose proof save_moves. pose proof finish_moves. unfold writeArchiveBytes. moves. Qed.

Lemma loadPage_moves context root : moves le (loadPage context root).
Proof. unfold loadPage. moves. Qed.

Lemma visitChildren_moves query (f : ArchiveIndexRoot -> list ArchiveIndexEntry * list (list N) -> M W (list ArchiveIndexEntry * list (list N))) children st :
  (forall root st, moves le (f root st)) -> moves le (visitChildren query f children st).
Proof. intros Hf. revert st. induction children as [|child children IH]; intros st; cbn [visitChildren]; moves. Qed.

Lemma visit_moves context query fuel root st : moves le (visit context query fuel root st).
Proof.
  pose proof loadPage_moves. revert root st. induction fuel as [|fuel IH]; intros root st; cbn [visit]; moves. by apply visitChildren_moves.
Qed.

Lemma readIndex_moves context root query : moves le (readArchiveIndex context root query).
Proof. pose proof visit_moves. unfold readArchiveIndex. moves. Qed.

Section Parts.
Variable body : list N -> M W unit.
Hypothesis body_moves : forall bytes, moves le (body bytes).

Lemma readParts_moves context reference entries index total out : moves le (readParts context reference body entries index total out).
Proof. revert index total out. induction entries as [|entry entries IH]; intros index total out; cbn [readParts]; moves. Qed.

Lemma readPages_moves context reference fuel after index total out : moves le (readPages context reference body fuel after index total out).
Proof.
  pose proof readIndex_moves. pose proof readParts_moves. revert after index total out. induction fuel as [|fuel IH]; intros after index total out; cbn [readPages]; moves.
Qed.

Lemma forArchiveBytes_moves context reference : moves le (forArchiveBytes body context reference).
Proof. pose proof readPages_moves. unfold forArchiveBytes. moves. Qed.
End Parts.
End Archives.

Section Stores.
Context `{Sha256} {W : Type} `{ArchiveObjectPersistence W} (le : W -> W -> Prop) `{!PreOrder le}.
Hypothesis read_moves : forall key, moves le (persistence_read key).
Hypothesis guard_moves : moves le ensureCurrent.

Lemma objectStore_read_moves partition id maximum : moves le (objectStore_read partition id maximum).
Proof. unfold objectStore_read, keyFor. moves. Qed.

Lemma moves_known {A B} (m : M W unit) (a : A) (f : A -> M W B) : moves le m -> moves le (f a) -> moves le ((m;; mret a) ≫= f).
Proof.
  intros Hm Hf w. specialize (Hm w). unfold mbind, M_bind. destruct (m w) as [[[]|e] w1]; cbn in *; [|done]. etrans; [done|apply Hf].
Qed.

Lemma objectStore_write_moves partition id bytes :
  (forall next, moves le (persistence_compareAndSwap (objectKey partition id) None next)) -> moves le (objectStore_write partition id bytes).
Proof.
  intros Hswap. unfold objectStore_write. do 5 (apply moves_bind; [exact _|moves|intros _]).
  apply moves_known; [done|]. unfold confirm. moves.
Qed.
End Stores.

Section CoverageSets.
Context `{Sha256} {W T : Type} (le : W -> W -> Prop) `{!PreOrder le} (root : list N) (factory : Factory W T).
Hypothesis leaf_moves : forall batch s, moves le (leaf factory batch s).
Hypothesis branch_moves : forall children s, moves le (branch factory children s).

Lemma combine_moves children : moves le (combine root factory children).
Proof. unfold combine. moves. Qed.

Lemma pushNode_moves levels node : moves le (pushNode root factory levels node).
Proof.
  pose proof combine_moves. unfold pushNode. generalize 33%nat. intros fuel. revert levels node. induction fuel as [|fuel IH]; intros levels node; cbn [push]; moves.
Qed.

Lemma flush_moves levels batch : moves le (flush root factory levels batch).
Proof. pose proof pushNode_moves. unfold flush. moves. Qed.

Lemma readEntry_moves r input : moves le (readEntry root factory r input).
Proof. pose proof flush_moves. unfold readEntry. moves. Qed.

Lemma closing_set_moves remaining height levels : moves le (CoverageSet.closing root factory remaining height levels).
Proof.
  pose proof pushNode_moves. pose proof combine_moves. revert height levels. induction remaining as [|remaining IH]; intros height levels; cbn [CoverageSet.closing]; moves.
Qed.

Lemma conclude_moves r : moves le (conclude root factory r).
Proof.
  unfold conclude. apply moves_bind; [exact _| |intros levels; apply moves_bind; [exact _|moves|intros _; apply closing_set_moves]].
  destruct (_ =? _)%nat; [moves|apply flush_moves].
Qed.

Lemma reduceSet_moves source : (forall body r, (forall r input, moves le (body r input)) -> moves le (source body r)) -> moves le (reduceSet root factory source).
Proof. intros Hs. pose proof conclude_moves. unfold reduceSet. moves. apply readEntry_moves. Qed.
End CoverageSets.

Section Confirm.
Context `{Sha256} `{Ed25519} {W : Type} `{ArchiveCoveragePort W} (le : W -> W -> Prop) `{!PreOrder le}.
Hypothesis coverage_moves : forall objects request, moves le (port_coverage objects request).
Hypothesis aggregate_moves : forall root children request, moves le (port_aggregate root children request).
Hypothesis guard_moves : moves le port_ensureCurrent.

Lemma confirmFrom_moves authority root transition source :
  (forall body r, (forall r input, moves le (body r input)) -> moves le (source body r)) -> moves le (confirmFrom authority root transition source).
Proof.
  intros Hs. unfold confirmFrom. moves. apply reduceSet_moves; [exact _| | |done]; cbn [leaf branch]; intros; unfold confirmLeaf, confirmBranch, verified; moves.
Qed.
End Confirm.

(** ** References that are written *)
Section Fit.
Context `{Sha256} {W : Type} {store : ArchiveObjectStore W}.
Abbreviation any := (fun _ : string => True).

Lemma runs_any {A} (m : M W A) w : runs any m w (fun _ _ => True).
Proof. unfold runs. by destruct (m w) as [[]]. Qed.

Lemma plain_root_value id height count first last : units id -> isSafeInteger height -> isSafeInteger count ->
  plain (Archive.nullable first) -> plain (Archive.nullable last) -> plain (Archive.root_value (mkRoot id height count first last)).
Proof. intros. unfold Archive.root_value. plain_record; done. Qed.

Lemma plain_root_range r : plain (Archive.root_value r) -> plain (Archive.nullable (root_first r)) /\ plain (Archive.nullable (root_last r)).
Proof.
  intros Hr. split.
  - destruct (plain_get (js "first") _ Hr) as [Hx|Hx]; [|exact Hx]. change (Archive.nullable (root_first r) = Undefined) in Hx. by destruct (root_first r).
  - destruct (plain_get (js "last") _ Hr) as [Hx|Hx]; [|exact Hx]. change (Archive.nullable (root_last r) = Undefined) in Hx. by destruct (root_last r).
Qed.

Definition page_fit (page : IndexPage) : Prop :=
  match page with
  | LeafPage _ entries => Forall (fun e => units (ent_key e)) entries /\ (length entries <= 64)%nat
  | BranchPage _ height children => 0 <= height /\ Forall (fun r => plain (Archive.root_value r)) children
  end.

Lemma persist_fit page w : page_fit page -> runs any (persist page) w (fun r _ => plain (Archive.root_value r)).
Proof.
  intros Hf. unfold persist. apply runs_bind. unfold runs at 1, requireM, require, liftM. destruct (negb _) eqn:Hh; [|done]. apply negb_true_iff, Z.leb_gt in Hh.
  apply runs_bind. unfold runs at 1, requireM, require, liftM. destruct (negb _); [|done]. apply runs_bind. unfold runs at 1. destruct (store_write _ _ w) as [[] w1]; [|done].
  unfold runs, liftM. set (id := sha256Base64Url _). assert (units id) as Hid by apply digest_units, Is_true_true, sha256Base64Url_pattern.
  unfold MAX_ARCHIVE_DEPTH in Hh. destruct page as [c entries|c height children]; cbn [pageRoot page_height page_fit] in *.
  - destruct Hf as [Hu Hl]. apply plain_root_value; [done|done|apply safe_between; unfold MAX_SAFE_INTEGER; lia|..].
    + destruct entries as [|e entries]; [done|]. by apply Forall_cons in Hu as [? _].
    + destruct (last entries) as [e|] eqn:He; [|done]. rewrite Forall_forall in Hu. apply last_Some_elem_of in He. exact (Hu e He).
  - destruct Hf as [H0 Hp]. destruct (isSafeInteger _) eqn:Hs; cbn [negb]; [|done]. apply plain_root_value; [done|apply safe_between; unfold MAX_SAFE_INTEGER; lia|by rewrite Hs|..].
    + destruct children as [|r children]; [done|]. apply Forall_cons in Hp as [Hr _]. by apply plain_root_range.
    + destruct (last children) as [r|] eqn:Hr; [|done]. rewrite Forall_forall in Hp. apply last_Some_elem_of in Hr. by apply plain_root_range, Hp.
Qed.

Definition bucket_fit (bucket : option (Bucket ArchiveIndexRoot)) : Prop :=
  match bucket with Some b => Forall (fun r => plain (Archive.root_value r)) (items b) | None => True end.

Lemma push_fit context fuel level root upper w : plain (Archive.root_value root) -> Forall bucket_fit upper ->
  runs any (Archive.push context fuel level root upper) w (fun levels _ => Forall bucket_fit levels).
Proof.
  revert level root upper w. induction fuel as [|fuel IH]; intros level root upper w Hr Hu; cbn [Archive.push]; [done|]. destruct (_ <=? _); [done|]. cbv zeta.
  set (bucket := default (emptyLevel context level) (mjoin (head upper))).
  assert (Forall (fun r => plain (Archive.root_value r)) (items bucket)) as Hb by (unfold bucket; destruct Hu as [|[b|] upper Hb Hu]; [constructor|exact Hb|constructor]).
  assert (Forall bucket_fit (tail upper)) as Ht by by destruct Hu.
  assert (forall b above w, Forall (fun r => plain (Archive.root_value r)) (items b) -> Forall bucket_fit above ->
    runs any (root' ← persist (BranchPage context (Z.of_nat level + 1) (items b)); Archive.push context fuel (S level) root' above) w (fun levels _ => Forall bucket_fit levels)) as Hflush.
  { intros b above w' Hitems Habove. apply runs_bind. eapply runs_weaken; [apply persist_fit; split; [lia|done]|]. intros r w1 Hr1. by apply IH. }
  apply runs_bind. eapply runs_weaken with (Q := fun p _ => Forall (fun r => plain (Archive.root_value r)) (items p.1) /\ Forall bucket_fit p.2).
  { destruct (_ && _); [|by apply runs_ret]. apply runs_bind. eapply runs_weaken; [by apply Hflush|]. intros above w1 Ha. apply runs_ret. split; [constructor|done]. }
  intros [b above] w1 [Hb' Ha]. cbn [fst snd] in *. assert (Forall (fun r => plain (Archive.root_value r)) (items (append Archive.root_value b root))) as Happ.
  { apply Forall_app. split; [done|]. by constructor. }
  destruct (_ =? _).
  - apply runs_bind. eapply runs_weaken; [by apply Hflush|]. intros above' w2 Ha'. apply runs_ret. by constructor.
  - apply runs_ret. by constructor.
Qed.

Definition builder_fit (b : Builder) : Prop :=
  Forall (fun e => units (ent_key e)) (items (b_leaf b)) /\ (length (items (b_leaf b)) <= 64)%nat /\ Forall bucket_fit (b_levels b).

Lemma flushLeaf_fit context b w : builder_fit b -> runs any (flushLeaf context b) w (fun b' _ => builder_fit b' /\ items (b_leaf b') = []).
Proof.
  intros (Hu & Hl & Hb). unfold flushLeaf. apply runs_bind. eapply runs_weaken; [by apply persist_fit|]. intros r w1 Hr.
  apply runs_bind. eapply runs_weaken; [by apply push_fit|]. intros levels w2 Hlv. apply runs_ret. split; [|done]. split_and!; [constructor|cbn; lia|done].
Qed.

Lemma feed_fit context b key id w : builder_fit b -> units key -> runs any (feed context b (entry_value (mkIndexEntry key id))) w (fun b' _ => builder_fit b').
Proof.
  intros (Hu & Hl & Hb) Hk. unfold feed. apply runs_bind. unfold runs at 1, liftM. destruct (captureEntry _) as [entry|] eqn:He; [|done].
  assert (ent_key entry = key) as Hkey.
  { unfold captureEntry in He. apply bind_ok in He as (ms & Hms & He). apply bind_ok in He as (k & Hk'%text_inv & He). apply bind_ok in He as (? & _ & [= <-]).
    unfold Archive.exact, entry_value in Hms. destruct (_ && _); [|done]. injection Hms as <-. change (Str key = Str k) in Hk'. by injection Hk' as <-. }
  apply runs_bind. unfold runs at 1, requireM, require, liftM. destruct (match b_previous b with Some _ => _ | None => _ end); [|done]. cbv zeta.
  apply runs_bind. eapply runs_weaken with (Q := fun b' _ => builder_fit b' /\ (length (items (b_leaf b')) < 64)%nat).
  { unfold fits. destruct (Z.of_nat (length (items _)) <? MAX_ARCHIVE_CHILDREN) eqn:Hlt; cbn [andb b_leaf] in *.
    - apply Z.ltb_lt in Hlt. unfold MAX_ARCHIVE_CHILDREN in Hlt. destruct (_ <=? _); [apply runs_ret; split; [by split_and!|cbn [b_leaf]; lia]|].
      eapply runs_weaken; [by apply flushLeaf_fit|]. intros b' w1 [Hf Hi]. rewrite Hi. cbn. split; [done|lia].
    - eapply runs_weaken; [by apply flushLeaf_fit|]. intros b' w1 [Hf Hi]. rewrite Hi. cbn. split; [done|lia]. }
  intros b' w1 [(Hu' & _ & Hb') Hlt]. assert (builder_fit (mkBuilder (append entry_value (b_leaf b') entry) (b_levels b') (b_previous b'))) as Hfit.
  { split_and!; cbn [b_leaf b_levels items append]; [|rewrite length_app; cbn; lia|done]. apply Forall_app. split; [done|]. constructor; [by rewrite Hkey|constructor]. }
  destruct (_ =? _); [|by apply runs_ret]. eapply runs_weaken; [by apply flushLeaf_fit|]. by intros ? ? [? _].
Qed.

Lemma closing_fit context fuel levels w : Forall bucket_fit levels -> runs any (Archive.closing context fuel levels) w (fun r _ => plain (Archive.root_value r)).
Proof.
  revert levels w. induction fuel as [|fuel IH]; intros levels w Hl; cbn [Archive.closing]; [done|]. destruct (findLevel levels) as [level|]; [|done].
  destruct (mjoin (levels !! level)) as [bucket|] eqn:Hb; [|done].
  assert (bucket_fit (Some bucket)) as Hfit by (destruct (levels !! level) as [[b|]|] eqn:Hlv; try done; injection Hb as ->; rewrite Forall_forall in Hl; apply Hl; by eapply list_elem_of_lookup_2).
  assert (runs any (levels' ← flushLevel context level levels; Archive.closing context fuel levels') w (fun r _ => plain (Archive.root_value r))) as Hflush.
  { apply runs_bind. unfold flushLevel. rewrite Hb. apply runs_bind. eapply runs_weaken; [apply persist_fit; split; [lia|exact Hfit]|]. intros r w1 Hr.
    apply runs_bind. eapply runs_weaken; [apply push_fit; [done|by apply Forall_drop]|]. intros upper w2 Hup. apply runs_ret. apply IH.
    apply Forall_app. split; [by apply Forall_take|by constructor]. }
  destruct (items bucket) as [|r [|]] eqn:Hitems; [exact Hflush| |exact Hflush]. destruct (forallb _ _); [|exact Hflush].
  apply runs_ret. cbn in Hfit. rewrite Hitems in Hfit. by apply Forall_cons in Hfit as [? _].
Qed.

Lemma finish_fit context b w : builder_fit b -> runs any (finish context b) w (fun r _ => plain (Archive.root_value r)).
Proof.
  intros Hf. unfold finish. apply runs_bind. eapply runs_weaken with (Q := fun b' _ => builder_fit b').
  - destruct (_ || _); [|by apply runs_ret]. eapply runs_weaken; [by apply flushLeaf_fit|]. by intros ? ? [? _].
  - intros b' w1 (_ & _ & Hl). by apply closing_fit.
Qed.

(** [rest] bytes of a chunk are not taken over yet. *)
Definition writer_fit (rest : nat) (wr : Writer) : Prop :=
  builder_fit (wr_builder wr) /\ 0 <= wr_partCount wr /\ wr_partCount wr + byteLength (wr_buffer wr) + Z.of_nat rest <= wr_byteLength wr /\
  wr_byteLength wr <= MAX_SAFE_INTEGER.

Lemma save_fit context bytes wr rest w : bytes <> [] ->
  writer_fit rest (mkWriter (wr_byteLength wr) (wr_partCount wr) bytes (wr_builder wr)) ->
  runs any (save context bytes wr) w (fun wr' _ => writer_fit rest wr' /\ wr_buffer wr' = []).
Proof.
  intros Hne (Hb & H0 & Hs & Hm). cbn [wr_builder wr_partCount wr_byteLength wr_buffer] in *.
  assert (1 <= byteLength bytes) as Hone by (destruct bytes; [done|unfold byteLength; cbn; lia]).
  unfold save. apply runs_bind. unfold runs at 1. destruct (store_write _ _ w) as [[] w1]; [|done]. apply runs_bind.
  eapply runs_weaken; [apply feed_fit; [done|]|].
  - destruct (part_entry_ok (wr_partCount wr) bytes ltac:(lia)) as [Hk _]. by eapply goodText_units.
  - intros b w2 Hfit. apply runs_ret. split; [|done]. split_and!; cbn [wr_builder wr_partCount wr_byteLength wr_buffer]; [done|lia|unfold byteLength; cbn [length]; unfold byteLength in *; lia|done].
Qed.

Lemma fill_fit context fuel bytes wr w : (length bytes <= fuel)%nat -> writer_fit (length bytes) wr -> byteLength (wr_buffer wr) < MAX_ARCHIVE_PART_BYTES ->
  runs any (fill context fuel bytes wr) w (fun wr' _ => writer_fit 0 wr' /\ byteLength (wr_buffer wr') < MAX_ARCHIVE_PART_BYTES).
Proof.
  revert bytes wr w. induction fuel as [|fuel IH]; intros bytes wr w Hl Hf Hp; cbn [fill].
  { destruct bytes; [|cbn in Hl; lia]. by apply runs_ret. }
  destruct (length bytes =? 0)%nat eqn:H0; [apply Nat.eqb_eq in H0; rewrite H0 in Hf; by apply runs_ret|]. apply Nat.eqb_neq in H0. cbv zeta.
  set (n := Nat.min (length bytes) (Z.to_nat MAX_ARCHIVE_PART_BYTES - length (wr_buffer wr))).
  assert (1 <= n <= length bytes)%nat as Hn by (unfold n, byteLength in *; lia).
  assert (length (wr_buffer wr) + n <= Z.to_nat MAX_ARCHIVE_PART_BYTES)%nat as Hfull by (unfold n, byteLength in *; lia).
  destruct Hf as (Hb & H1 & Hs & Hm). assert (byteLength (wr_buffer wr ++ take n bytes) = byteLength (wr_buffer wr) + Z.of_nat n) as Hlen.
  { unfold byteLength. rewrite length_app, length_take. lia. }
  assert (writer_fit (length (drop n bytes)) (mkWriter (wr_byteLength wr) (wr_partCount wr) (wr_buffer wr ++ take n bytes) (wr_builder wr))) as Hfit.
  { split_and!; cbn [wr_builder wr_partCount wr_byteLength wr_buffer]; [done|done| |done]. rewrite length_drop, Hlen. lia. }
  apply runs_bind. destruct (_ =? _) eqn:He.
  - eapply runs_weaken; [apply (save_fit _ _ _ (length (drop n bytes)))|].
    + intros Hnil. rewrite Hnil in Hlen. unfold byteLength in Hlen. cbn in Hlen. lia.
    + exact Hfit.
    + intros wr' w1 [Hw Hnil]. apply IH; [rewrite length_drop; lia|done|]. by rewrite Hnil.
  - apply runs_ret. apply IH; [rewrite length_drop; lia|exact Hfit|]. cbn [wr_buffer]. apply Z.eqb_neq in He. unfold byteLength in *. lia.
Qed.

Lemma writeChunks_fit context source wr w : writer_fit 0 wr -> byteLength (wr_buffer wr) < MAX_ARCHIVE_PART_BYTES ->
  runs any (writeChunks context source wr) w (fun wr' _ => writer_fit 0 wr').
Proof.
  revert wr w. induction source as [|bytes source IH]; intros wr w Hf Hp; cbn [writeChunks]; [by apply runs_ret|].
  apply runs_bind. unfold runs at 1, requireM, require, liftM. destruct (negb _); [|done]. cbv zeta. apply runs_bind. unfold runs at 1, requireM, require, liftM.
  destruct (isSafeInteger _) eqn:Hs; [|done]. unfold isSafeInteger in Hs. apply andb_true_iff in Hs as [_ Hs%Z.leb_le]. destruct Hf as (Hb & H0 & Hle & Hm).
  apply runs_bind. eapply runs_weaken; [apply fill_fit; [done| |done]|].
  - split_and!; cbn [wr_builder wr_partCount wr_byteLength wr_buffer]; [done|done|unfold byteLength in *; lia|done].
  - intros wr' w1 [Hf' Hp']. by apply IH.
Qed.

(** A reference that was written is plain JSON. *)
Lemma write_plain context source w : runs any (writeArchiveBytes context source) w (fun reference _ => plain (bytes_value reference)).
Proof.
  unfold writeArchiveBytes. apply runs_bind. unfold runs at 1, liftM. destruct (captureContext context) as [c|]; [|done].
  apply runs_bind. eapply runs_weaken; [apply writeChunks_fit; [|done]|].
  { split_and!; cbn [wr_builder wr_partCount wr_byteLength wr_buffer]; [split_and!; [constructor|cbn; lia|constructor]|lia|done|done]. }
  intros wr w1 Hf. apply runs_bind. eapply runs_weaken with (Q := fun wr' _ => writer_fit 0 wr').
  { destruct (length (wr_buffer wr) =? 0)%nat eqn:H0; [by apply runs_ret|]. apply Nat.eqb_neq in H0.
    eapply runs_weaken; [apply (save_fit _ _ _ 0); [by intros Hnil; rewrite Hnil in H0|by destruct wr]|]. by intros ? ? [? _]. }
  intros wr' w2 (Hb & H0 & Hs & Hm). apply runs_bind. eapply runs_weaken; [by apply finish_fit|]. intros r w3 Hr. apply runs_ret.
  unfold bytes_value, byteLength in *. plain_record; [done..|exact Hr| |]; apply safe_between; unfold MAX_SAFE_INTEGER in *; cbn [bytes_byteLength bytes_partCount]; lia.
Qed.
End Fit.
