(* ===== verification/Preparation.v ===== *)
(** * History preparation: records

    [packages/mesh-replication/src/historyPreparationData.ts]: the records of the
    journal that prepares the transition of a workspace to an archived history:
    the identity of a preparation, its state, the objects staged for upload and
    the references that order them; reading them back from their canonical
    JSON, and the receipts of the storage service for them. *)
From stdpp Require Import base numbers list strings sets.
From Stdlib Require Import ZArith NArith Lia.
From S2P Require Import Prelude Unicode Json Base64 Digest Envelope Js ProfileValue Profile Recovery.
From S2P Require Import Archive ArchiveSize ArchiveRead Coverage CoverageSet ArchiveCrypto.
Local Open Scope js_scope.
Local Open Scope Z_scope.

Definition MAX_PREPARED_OBJECTS : Z := 1048576.
Definition invalidJournal : string := "Invalid history preparation journal".

(** ** Data *)
Record PreparationStorage := mkStorage {
  st_origin : list N; st_authority : ArchiveCoverageAuthority; st_keyEpoch : Z; st_keyDigest : list N }.
Record HistoryPreparationIdentity := mkPreparation {
  hp_transitionId : list N; hp_personId : list N; hp_workspaceId : list N; hp_historyEpoch : Z;
  hp_sourceRevision : list N; hp_authorityRevision : list N; hp_privateBinding : list N;
  hp_previousBaselineId : option (list N); hp_storage : PreparationStorage }.
Inductive Phase := Captured | Archived | Covered.
Record PreparedRoot := mkPreparedRoot { root_binding : ArchiveEncryptionBinding; root_ciphertextId : list N }.
Record HistoryPreparationState := mkState {
  s_identity : HistoryPreparationIdentity; s_phase : Phase; s_source : ArchiveBytesReference; s_objectCount : Z;
  s_objectDigest : option (list N); s_root : option PreparedRoot; s_expectedCoverage : option ArchiveCoverageSummary;
  s_coverage : option ArchiveCoverageChild }.
Record HistoryPreparedObject := mkPrepared {
  po_index : Z; po_previousDigest : option (list N); po_binding : ArchiveEncryptionBinding; po_requestId : list N;
  po_sealed : SealedArchiveObject }.
Record PreparedReference := mkReference { ref_ciphertextId : list N; ref_digest : list N }.

#[export] Instance phase_eq_dec : EqDecision Phase.
Proof. solve_decision. Defined.

Definition scopeId_of (identity : HistoryPreparationIdentity) : list N := auth_scopeId (st_authority (hp_storage identity)).
Definition po_ciphertextId (r : HistoryPreparedObject) : list N := sealed_ciphertextId (po_sealed r).

(** Absent fields are [null]. *)
Definition nullable {A} (to_value : A -> value) (a : option A) : value := match a with Some a => to_value a | None => Null end.
Definition phaseText (phase : Phase) : list N :=
  match phase with Captured => js "captured" | Archived => js "archived" | Covered => js "covered" end.

Definition storage_value (s : PreparationStorage) : value :=
  Obj [(js "servicePublicKey", Str (auth_servicePublicKey (st_authority s))); (js "scopeId", Str (auth_scopeId (st_authority s)));
       (js "policyRevision", int (auth_policyRevision (st_authority s))); (js "origin", Str (st_origin s));
       (js "keyEpoch", int (st_keyEpoch s)); (js "keyDigest", Str (st_keyDigest s))].
Definition identity_value (i : HistoryPreparationIdentity) : value :=
  Obj [(js "transitionId", Str (hp_transitionId i)); (js "personId", Str (hp_personId i)); (js "workspaceId", Str (hp_workspaceId i));
       (js "historyEpoch", int (hp_historyEpoch i)); (js "sourceRevision", Str (hp_sourceRevision i));
       (js "authorityRevision", Str (hp_authorityRevision i)); (js "privateBinding", Str (hp_privateBinding i));
       (js "previousBaselineId", nullable Str (hp_previousBaselineId i)); (js "storage", storage_value (hp_storage i))].
Definition root_value (r : PreparedRoot) : value :=
  Obj [(js "binding", binding_value (root_binding r)); (js "ciphertextId", Str (root_ciphertextId r))].
Definition state_value (s : HistoryPreparationState) : value :=
  Obj [(js "kind", Str (js "workspace-history-preparation")); (js "version", int 1); (js "identity", identity_value (s_identity s));
       (js "phase", Str (phaseText (s_phase s))); (js "source", bytes_value (s_source s)); (js "objectCount", int (s_objectCount s));
       (js "objectDigest", nullable Str (s_objectDigest s)); (js "root", nullable root_value (s_root s));
       (js "expectedCoverage", nullable summary_value (s_expectedCoverage s)); (js "coverage", nullable child_value (s_coverage s))].
Definition prepared_value (r : HistoryPreparedObject) : value :=
  Obj [(js "kind", Str (js "workspace-history-prepared-object")); (js "version", int 1); (js "index", int (po_index r));
       (js "previousDigest", nullable Str (po_previousDigest r)); (js "binding", binding_value (po_binding r));
       (js "requestId", Str (po_requestId r)); (js "sealed", sealed_value (po_sealed r))].
Definition reference_value (r : PreparedReference) : value :=
  Obj [(js "ciphertextId", Str (ref_ciphertextId r)); (js "digest", Str (ref_digest r))].

(** ** Checks *)
Definition exact (v : value) (keys : list (list N)) : result unit :=
  require (isRecord v && hasExactKeys v keys) invalidJournal.

Definition positive (v : value) : result Z :=
  match safeInt v with
  | Some z => if z <? 1 then Throw invalidJournal else Ok z
  | None => Throw invalidJournal
  end.

Definition text (v : value) (maximum : Z) : result (list N) :=
  match v with
  | Str s =>
      if (length s =? 0)%nat || (maximum <? Z.of_nat (length s)) || (maximum <? byteLength (TextEncoder_encode s)) || existsb isSurrogate (codePoints s)
      then Throw invalidJournal else Ok s
  | _ => Throw invalidJournal
  end.

(** [/^[A-Za-z0-9_-]{20,64}$/] *)
Definition requestPattern (s : list N) : bool := (20 <=? length s)%nat && (length s <=? 64)%nat && forallb urlChar s.

Definition idOrNull (v : value) : result (option (list N)) :=
  if isNull v then Ok None else id ← validateArchiveObjectId v; Ok (Some id).

Definition secureOrigin (url : URL) : bool :=
  (length (url_username url) =? 0)%nat && (length (url_password url) =? 0)%nat && bool_decide (url_pathname url = js "/") &&
  (length (url_search url) =? 0)%nat && (length (url_hash url) =? 0)%nat &&
  (bool_decide (url_protocol url = js "https:") ||
   bool_decide (url_protocol url = js "http:") && bool_decide (url_hostname url ∈ [js "localhost"; js "127.0.0.1"; js "[::1]"])).

Section Identities.
Context `{Platform}.

Definition captureStorage (input : value) : result PreparationStorage :=
  exact input [js "origin"; js "scopeId"; js "policyRevision"; js "servicePublicKey"; js "keyEpoch"; js "keyDigest"];;
  authority ← captureArchiveCoverageAuthority input;
  keyEpoch ← positive input.["keyEpoch"];
  keyDigest ← validateArchiveObjectId input.["keyDigest"];
  origin ← text input.["origin"] 2048;
  match parseURL origin with
  | None => Throw "Invalid URL"
  | Some url => if negb (secureOrigin url) then Throw invalidJournal else Ok (mkStorage (url_origin url) authority keyEpoch keyDigest)
  end.

Definition capturePreparationIdentity (input : value) : result HistoryPreparationIdentity :=
  exact input [js "transitionId"; js "personId"; js "workspaceId"; js "historyEpoch"; js "sourceRevision"; js "authorityRevision";
    js "privateBinding"; js "previousBaselineId"; js "storage"];;
  transitionId ← text input.["transitionId"] 64;
  require (requestPattern transitionId) invalidJournal;;
  personId ← validateArchiveObjectId input.["personId"];
  workspaceId ← text input.["workspaceId"] 256;
  historyEpoch ← positive input.["historyEpoch"];
  sourceRevision ← validateArchiveObjectId input.["sourceRevision"];
  authorityRevision ← validateArchiveObjectId input.["authorityRevision"];
  privateBinding ← validateArchiveObjectId input.["privateBinding"];
  previousBaselineId ← idOrNull input.["previousBaselineId"];
  storage ← captureStorage input.["storage"];
  Ok (mkPreparation transitionId personId workspaceId historyEpoch sourceRevision authorityRevision privateBinding previousBaselineId storage).

Definition capturePreparationBinding (input : value) (identity : HistoryPreparationIdentity) : result ArchiveEncryptionBinding :=
  binding ← bindingSnapshot input;
  if negb (bool_decide (ctx_workspaceId (eb_context binding) = hp_workspaceId identity)) ||
     negb (ctx_historyEpoch (eb_context binding) =? hp_historyEpoch identity)
  then Throw "History preparation binding changed" else Ok binding.

(** ** Records back from their text *)
Definition parse (raw : list N) (maximum : Z) : result value :=
  if (maximum <? Z.of_nat (length raw)) || (maximum <? byteLength (TextEncoder_encode raw))
  then Throw "History preparation record exceeds size limit" else
  match JSON_parse raw with
  | None => Throw "Unexpected token"
  | Some v =>
      if negb (bool_decide (canonicalizeJson v = Ok (Some raw))) then Throw "Non-canonical history preparation record" else
      if negb (isRecord v) then Throw invalidJournal else Ok v
  end.

(** [canonicalizeJson(a) === canonicalizeJson(b)] of records of the code. *)
Definition sameJson (a b : value) : bool := bool_decide (canonText str_leb a = canonText str_leb b).

Definition isAggregate (c : option ArchiveCoverageChild) : bool :=
  match c with Some (AggregateReceipt _ _ _ _ _) => true | _ => false end.

(** The part of a state that its phase [archived] or [covered] adds. *)
Definition parseFrozen (v : value) (identity : HistoryPreparationIdentity) (source : ArchiveBytesReference) (objectCount : Z)
    (objectDigest : option (list N)) (phase : Phase) : result HistoryPreparationState :=
  exact v.["root"] [js "binding"; js "ciphertextId"];;
  binding ← capturePreparationBinding v.["root"].["binding"] identity;
  require (bool_decide (eb_objectKind binding = KindPage)) invalidJournal;;
  ciphertextId ← validateArchiveObjectId v.["root"].["ciphertextId"];
  expected ← summarySnapshot v.["expectedCoverage"];
  if negb (sum_objectCount expected =? objectCount) || negb (sum_rootCovered expected) || (sum_height expected =? 0) then Throw invalidJournal else
  coverage ← (if isNull v.["coverage"] then Ok None else c ← captureArchiveCoverageChild v.["coverage"]; Ok (Some c));
  if (match phase with Covered => negb (isAggregate coverage) | _ => bool_decide (is_Some coverage) end) then Throw invalidJournal else
  Ok (mkState identity phase source objectCount objectDigest (Some (mkPreparedRoot binding ciphertextId)) (Some expected) coverage).

Definition parsePreparationState (raw : list N) (identity : HistoryPreparationIdentity) : result HistoryPreparationState :=
  v ← parse raw (16 * 1024);
  exact v [js "kind"; js "version"; js "identity"; js "phase"; js "source"; js "objectCount"; js "objectDigest"; js "root"; js "expectedCoverage"; js "coverage"];;
  require (isStr (js "workspace-history-preparation") v.["kind"] && isInt 1 v.["version"]) invalidJournal;;
  captured ← capturePreparationIdentity v.["identity"];
  require (sameJson (identity_value captured) (identity_value identity)) invalidJournal;;
  match safeInt v.["objectCount"] with
  | None => Throw invalidJournal
  | Some objectCount =>
      if (objectCount <? 0) || (MAX_PREPARED_OBJECTS <? objectCount) then Throw invalidJournal else
      source ← captureBytesReference v.["source"];
      require (Bool.eqb (objectCount =? 0) (isNull v.["objectDigest"])) invalidJournal;;
      objectDigest ← idOrNull v.["objectDigest"];
      if isStr (js "captured") v.["phase"] then
        require (isNull v.["root"] && isNull v.["expectedCoverage"] && isNull v.["coverage"]) invalidJournal;;
        Ok (mkState identity Captured source objectCount objectDigest None None None)
      else if isStr (js "archived") v.["phase"] then
        if objectCount =? 0 then Throw invalidJournal else parseFrozen v identity source objectCount objectDigest Archived
      else if isStr (js "covered") v.["phase"] then
        if objectCount =? 0 then Throw invalidJournal else parseFrozen v identity source objectCount objectDigest Covered
      else Throw invalidJournal
  end.

Definition parsePreparedObject (raw : list N) (identity : HistoryPreparationIdentity) : result HistoryPreparedObject :=
  v ← parse raw (360 * 1024);
  exact v [js "kind"; js "version"; js "index"; js "previousDigest"; js "binding"; js "requestId"; js "sealed"];;
  require (isStr (js "workspace-history-prepared-object") v.["kind"] && isInt 1 v.["version"]) invalidJournal;;
  match safeInt v.["index"], v.["requestId"] with
  | Some index, Str requestId =>
      if (index <? 0) || (MAX_PREPARED_OBJECTS <=? index) || negb (Bool.eqb (index =? 0) (isNull v.["previousDigest"])) || negb (requestPattern requestId)
      then Throw invalidJournal else
      previousDigest ← idOrNull v.["previousDigest"];
      binding ← capturePreparationBinding v.["binding"] identity;
      exact v.["sealed"] [js "ciphertextId"; js "object"];;
      ciphertextId ← validateArchiveObjectId v.["sealed"].["ciphertextId"];
      object ← captureEncryptedArchiveObject v.["sealed"].["object"] (scopeId_of identity);
      if negb (enc_keyEpoch object =? st_keyEpoch (hp_storage identity)) then Throw invalidJournal else
      Ok (mkPrepared index previousDigest binding requestId (mkSealed ciphertextId object))
  | _, _ => Throw invalidJournal
  end.

Definition parsePreparedReference (raw : list N) : result PreparedReference :=
  v ← parse raw 256;
  exact v [js "ciphertextId"; js "digest"];;
  ciphertextId ← validateArchiveObjectId v.["ciphertextId"];
  digest ← validateArchiveObjectId v.["digest"];
  Ok (mkReference ciphertextId digest).
End Identities.

(** ** Integrity *)
Section Integrity.
Context `{Sha256} `{Platform}.

Definition digestRecord (raw : list N) : list N := sha256Base64Url (TextEncoder_encode raw).

Definition verifyPreparedObject (raw : list N) (identity : HistoryPreparationIdentity) : result HistoryPreparedObject :=
  object ← parsePreparedObject raw identity;
  if negb (bool_decide (digestRecord (canonText str_leb (encrypted_value (sealed_object (po_sealed object)))) = po_ciphertextId object))
  then Throw "Prepared ciphertext integrity failure" else Ok object.

Definition verifyPreparedCoverage `{Ed25519} (state : HistoryPreparationState) : result unit :=
  match s_phase state with
  | Covered =>
      summary ← verifyArchiveCoverageChild (nullable child_value (s_coverage state)) (storage_value (hp_storage (s_identity state)))
                  (match s_root state with Some root => root_ciphertextId root | None => [] end);
      require (sameJson (summary_value summary) (nullable summary_value (s_expectedCoverage state))) "Prepared archive coverage mismatch"
  | _ => Ok tt
  end.

Definition storageReceiptKind : list N := js "blind-archive-storage-receipt".

(** The payload the service has to have signed for an object. *)
Definition expectedReceipt (serviceId : list N) (identity : HistoryPreparationIdentity) (object : HistoryPreparedObject) : value :=
  Obj [(js "kind", Str storageReceiptKind); (js "version", int 1); (js "serviceId", Str serviceId); (js "scopeId", Str (scopeId_of identity));
       (js "policyRevision", int (auth_policyRevision (st_authority (hp_storage identity)))); (js "requestId", Str (po_requestId object));
       (js "objectId", Str (po_ciphertextId object)); (js "keyEpoch", int (st_keyEpoch (hp_storage identity)))].

Definition verifyPreparedStorageReceipt `{Ed25519} (input : value) (identity : HistoryPreparationIdentity) (object : HistoryPreparedObject) : result unit :=
  exact input [js "payload"; js "signerKeyId"; js "signature"];;
  let payload := input.["payload"] in
  exact payload [js "kind"; js "version"; js "serviceId"; js "scopeId"; js "policyRevision"; js "requestId"; js "objectId"; js "keyEpoch"];;
  require (isStr storageReceiptKind payload.["kind"] && isInt 1 payload.["version"] &&
           match payload.["scopeId"] with Str s => scopePattern s | _ => false end &&
           match payload.["requestId"] with Str s => requestPattern s | _ => false end) invalidJournal;;
  validateArchiveObjectId payload.["serviceId"];;
  validateArchiveObjectId payload.["objectId"];;
  positive payload.["policyRevision"];;
  positive payload.["keyEpoch"];;
  match input.["signature"] with
  | Str signature =>
      if negb (length signature =? 86)%nat then Throw invalidJournal else
      decoded ← fromBase64Url signature;
      require ((length decoded =? 64)%nat && bool_decide (toBase64Url decoded = signature)) invalidJournal;;
      let publicKey := auth_servicePublicKey (st_authority (hp_storage identity)) in
      serviceId ← publicKeyId publicKey;
      let expected := expectedReceipt serviceId identity object in
      require (isStr serviceId input.["signerKeyId"] && sameJson payload expected) "Invalid prepared archive storage receipt";;
      verified ← verifyEnvelope (envelope_value expected serviceId signature) (Str publicKey) (js "RUSTY/2");
      require verified "Invalid prepared archive storage receipt"
  | _ => Throw invalidJournal
  end.
End Integrity.

(** ** What the text of a record is read back as *)
Lemma plain_field key v a : plain v -> getOpt key v = a -> a <> Undefined -> plain a.
Proof. intros Hp <- Hne. by destruct (plain_get key v Hp). Qed.

Lemma parse_canonical raw maximum v v' : plain v -> raw = canonText str_leb v -> parse raw maximum = Ok v' -> v' = normal str_leb v.
Proof.
  intros Hp -> . unfold parse. guard_passed as Hs. rewrite JSON_parse_canonical by done. guard_passed as Hc. guard_passed as Hr. by intros [= <-].
Qed.

Lemma idOrNull_ok v id : idOrNull v = Ok id -> v = nullable Str id /\ (forall d, id = Some d -> digestPattern d = true).
Proof.
  unfold idOrNull. destruct v; try done; cbn [isNull].
  - by intros [= <-].
  - intros (d & [[= <-] Hd]%validate_ok & [= <-])%bind_ok. split; [done|]. by intros ? [= <-].
Qed.

Lemma idOrNull_value id id' : idOrNull (nullable Str id) = Ok id' -> id' = id.
Proof. intros [H _]%idOrNull_ok. destruct id, id'; cbn in H; congruence. Qed.

Lemma binding_inv b b' : bindingSnapshot (normal str_leb (binding_value b)) = Ok b' -> b' = b.
Proof.
  unfold bindingSnapshot. set (v := normal str_leb (binding_value b)).
  change (v.["workspaceId"]) with (Str (ctx_workspaceId (eb_context b))). change (v.["indexId"]) with (Str (ctx_indexId (eb_context b))).
  change (v.["historyEpoch"]) with (int (ctx_historyEpoch (eb_context b))). change (v.["partCount"]) with (int (eb_partCount b)).
  change (v.["objectId"]) with (Str (eb_objectId b)). change (v.["objectKind"]) with (Str (kindText (eb_objectKind b))). change (v.["partIndex"]) with (int (eb_partIndex b)).
  intros (? & _ & H)%bind_ok. apply bind_ok in H as (ws & [= <-]%context_text_inv & H). apply bind_ok in H as (idx & [= <-]%context_text_inv & H).
  apply bind_ok in H as (ep & [[= <-] _]%epoch_ok & H). apply bind_ok in H as (pc & [[= <-] _]%epoch_ok & H). apply bind_ok in H as (id & [[= <-] _]%validate_ok & H).
  rewrite kindOf_text in H. unfold safeInt, int in H. destruct (isSafeInteger (eb_partIndex b)); [|done]. revert H. guard_passed as Hg. intros [= <-]. by destruct b as [[]].
Qed.

Lemma root_inv r r' : captureRoot (normal str_leb (Archive.root_value r)) = Ok r' -> r' = r.
Proof.
  destruct r as [id h c f l]. intros H.
  assert (captureRoot (Archive.root_value (mkRoot id h c f l)) = Ok r') as H' by (destruct f, l; exact H). clear H. revert H'.
  unfold captureRoot. intros (ms & Hms & H)%bind_ok. unfold Archive.exact in Hms. cbn [Archive.root_value] in Hms.
  match type of Hms with (if ?b then _ else _) = _ => destruct b; [injection Hms as <-|done] end.
  apply bind_ok in H as (id' & [[= <-] _]%validate_ok & H). revert H.
  change (member (js "height") _) with (int h). change (member (js "count") _) with (int c). change (member (js "first") _) with (Archive.nullable f).
  change (member (js "last") _) with (Archive.nullable l). cbv beta iota delta [int]. intros (h' & Hh & H)%bind_ok. apply bind_ok in H as (c' & Hc & H).
  revert Hh Hc H. guard_passed as Hh. intros [= <-]. guard_passed as Hc. intros [= <-]. destruct (c =? 0).
  - destruct f, l; cbn [Archive.nullable]; try done. guard_passed as Hz. by intros [= <-].
  - intros (first & Hf%text_inv & H)%bind_ok. apply bind_ok in H as (last & Hl%text_inv & H). revert H. guard_passed as Ho. intros [= <-].
    destruct f, l; cbn in Hf, Hl; congruence.
Qed.

Lemma bytes_inv r r' : captureBytesReference (normal str_leb (bytes_value r)) = Ok r' -> r' = r.
Proof.
  destruct r as [root total count]. unfold captureBytesReference. set (v := normal str_leb _).
  intros (ms & Hms & H)%bind_ok. assert (exists ms', v = Obj ms') as [ms' Hv] by by eexists. rewrite Hv in Hms. unfold Archive.exact in Hms.
  match type of Hms with (if ?b then _ else _) = _ => destruct b; [injection Hms as <-|done] end.
  assert (forall key, member key ms' = getOpt key v) as Hget by by rewrite Hv. rewrite !Hget in H. clear Hget.
  change (getOpt (js "kind") v) with (Str (js "workspace-history-bytes")) in H. change (getOpt (js "version") v) with (int 1) in H.
  change (getOpt (js "byteLength") v) with (int total) in H. change (getOpt (js "partCount") v) with (int count) in H.
  change (getOpt (js "root") v) with (normal str_leb (Archive.root_value root)) in H. revert H. cbv beta iota delta [int]. guard_passed as Hk. guard_passed as Ht.
  intros (root' & Hr%root_inv & H)%bind_ok. revert H. guard_passed as Hn. intros [= <-]. by subst.
Qed.

Lemma summary_inv s s' : summarySnapshot (normal str_leb (summary_value s)) = Ok s' -> s' = s.
Proof.
  change (summarySnapshot (normal str_leb (summary_value s))) with (summarySnapshot (summary_value s)). unfold summarySnapshot.
  set (v := summary_value s). change (v.["height"]) with (Num (Int (sum_height s))). change (v.["objectCount"]) with (int (sum_objectCount s)).
  change (v.["firstObjectId"]) with (Str (sum_firstObjectId s)). change (v.["lastObjectId"]) with (Str (sum_lastObjectId s)).
  change (v.["setDigest"]) with (Str (sum_setDigest s)). change (v.["rootCovered"]) with (Bool (sum_rootCovered s)). cbv beta iota.
  intros (? & _ & H)%bind_ok. apply bind_ok in H as (h & Hh & H). apply bind_ok in H as (c & [[= <-] _]%positive_ok & H).
  apply bind_ok in H as (f & [[= <-] _]%validate_ok & H). apply bind_ok in H as (l & [[= <-] _]%validate_ok & H). apply bind_ok in H as (d & [[= <-] _]%validate_ok & H).
  revert Hh H. guard_passed as Hh. intros [= <-]. guard_passed as Hg. intros [= <-]. by destruct s.
Qed.

Lemma object_inv o o' : captureObject (object_value o) = Ok o' -> o' = o.
Proof.
  unfold captureObject. change ((object_value o).["objectId"]) with (Str (cov_objectId o)). change ((object_value o).["keyEpoch"]) with (int (cov_keyEpoch o)).
  intros (? & _ & H)%bind_ok. apply bind_ok in H as (id & [[= <-] _]%validate_ok & H). apply bind_ok in H as (e & [[= <-] _]%positive_ok & [= <-]). by destruct o.
Qed.

Lemma objects_inv os os' : captureArchiveCoverageObjects (Arr (map object_value os)) = Ok os' -> os' = os.
Proof.
  unfold captureArchiveCoverageObjects. cbn [Js.items isArray]. intros (? & _ & H)%bind_ok. apply bind_ok in H as (os1 & Hm%mapR_ok & H).
  apply bind_ok in H as (? & _ & [= <-]). revert os1 Hm. induction os as [|o os IH]; intros os1 Hm; inversion Hm as [|? o' ? os2 Ho Hos]; subst; [done|].
  apply object_inv in Ho as ->. by rewrite (IH os2).
Qed.

Lemma child_inv c c' : captureArchiveCoverageChild (child_value c) = Ok c' -> c' = c.
Proof.
  unfold captureArchiveCoverageChild. set (v := child_value c). change (v.["signerKeyId"]) with (Str (child_signer c)). change (v.["signature"]) with (Str (child_signature c)).
  change (v.["payload"]) with (child_payload c). cbv beta iota.
  intros (? & _ & H)%bind_ok. apply bind_ok in H as (signer & [[= <-] _]%validate_ok & H). apply bind_ok in H as (signature & Hs & H).
  destruct (_ =? 86)%nat in Hs; [|done]. injection Hs as <-. apply bind_ok in H as (? & _ & H). apply bind_ok in H as (? & _ & H).
  apply bind_ok in H as (? & _ & H). apply bind_ok in H as (? & _ & H). apply bind_ok in H as (? & _ & H).
  set (p := child_payload c) in *.
  assert (p.["serviceId"] = Str (hdr_serviceId (child_header c)) /\ p.["scopeId"] = Str (hdr_scopeId (child_header c)) /\
    p.["policyRevision"] = int (hdr_policyRevision (child_header c)) /\ p.["requestId"] = Str (hdr_requestId (child_header c))) as (H1 & H2 & H3 & H4) by by destruct c.
  rewrite H1, H2, H3, H4 in H. apply bind_ok in H as (service & [[= <-] _]%validate_ok & H). apply bind_ok in H as (scopeId & [[= <-] _]%urlText_ok & H).
  apply bind_ok in H as (revision & [[= <-] _]%positive_ok & H). apply bind_ok in H as (request & [[= <-] _]%urlText_ok & H).
  apply bind_ok in H as (child & Hc & H). apply bind_ok in H as (? & _ & [= <-]). destruct c as [header os signer signature|header root s signer signature].
  - change (isStr batchKind _) with true in Hc. change (p.["objects"]) with (Arr (map object_value os)) in Hc. cbv beta iota in Hc.
    apply bind_ok in Hc as (os' & ->%objects_inv & [= <-]). by destruct header.
  - change (isStr batchKind _) with false in Hc. change (p.["archiveRootId"]) with (Str root) in Hc. cbv beta iota in Hc.
    apply bind_ok in Hc as (root' & [[= <-] _]%validate_ok & Hc). apply bind_ok in Hc as (s' & Hs & Hc). pose proof (summary_inv s s' Hs) as ->. apply bind_ok in Hc as (? & _ & Hc). apply bind_ok in Hc as (? & _ & [= <-]). by destruct header.
Qed.

Lemma child_normal_inv c c' : captureArchiveCoverageChild (normal str_leb (child_value c)) = Ok c' -> isAggregate (Some c') = true -> c' = c.
Proof.
  destruct c as [header os signer signature|header root s signer signature]; [|intros H _; exact (child_inv (AggregateReceipt header root s signer signature) c' H)].
  unfold captureArchiveCoverageChild. set (v := normal str_leb _). change (isStr batchKind (v.["payload"]).["kind"]) with true.
  intros H. do 12 (apply bind_ok in H as (? & _ & H)). apply bind_ok in H as (child & Hc & H). apply bind_ok in H as (? & _ & [= <-]). cbv beta iota in Hc.
  by apply bind_ok in Hc as (? & _ & [= <-]).
Qed.

Lemma parseFrozen_inv v identity source count digest phase s root expected coverage :
  v.["root"] = normal str_leb (nullable root_value root) -> v.["expectedCoverage"] = normal str_leb (nullable summary_value expected) ->
  v.["coverage"] = normal str_leb (nullable child_value coverage) -> phase <> Captured ->
  parseFrozen v identity source count digest phase = Ok s -> s = mkState identity phase source count digest root expected coverage.
Proof.
  intros Hr He Hc Hphase. unfold parseFrozen. rewrite Hr, He, Hc. intros (? & Hx & H)%bind_ok. apply bind_ok in H as (b & Hb & H). apply bind_ok in H as (? & _ & H).
  apply bind_ok in H as (id & [Hid _]%validate_ok & H). apply bind_ok in H as (e & Hs & H). revert H. guard_passed as Hg. intros (c & Hcov & H)%bind_ok. revert H. guard_passed as Hp. intros [= <-].
  destruct root as [root|]; [|done]. apply bind_ok in Hb as (b' & Hb & Hb'). revert Hb'. guard_passed as Hq. intros [= ->].
  change (getOpt (js "ciphertextId") _) with (Str (root_ciphertextId root)) in Hid. injection Hid as <-.
  assert (b = root_binding root) as -> by by apply binding_inv.
  destruct expected as [expected|]; [|done]. apply summary_inv in Hs as ->. do 2 f_equal; [by destruct root|].
  destruct coverage as [cov|].
  - change (isNull _) with false in Hcov. cbv beta iota in Hcov. apply bind_ok in Hcov as (cov' & Hcov & [= <-]).
    destruct phase; [done|done|]. apply negb_false_iff in Hp. f_equal. by apply child_normal_inv.
  - by injection Hcov as <-.
Qed.

Section Inverse.
Context {platform : Platform}.

Lemma parse_state_inv s s' raw : plain (state_value s) -> raw = canonText str_leb (state_value s) ->
  parsePreparationState raw (s_identity s) = Ok s' -> s' = s.
Proof.
  intros Hp Hraw. unfold parsePreparationState. intros (v & Hv & H)%bind_ok. apply (parse_canonical _ _ _ _ Hp Hraw) in Hv.
  destruct s as [identity phase source count digest root expected coverage]. cbn [s_identity] in *.
  assert (v.["phase"] = Str (phaseText phase)) as Hphase by by subst v. assert (v.["source"] = normal str_leb (bytes_value source)) as Hsource by by subst v.
  assert (v.["objectCount"] = int count) as Hcount by by subst v.
  assert (v.["objectDigest"] = nullable Str digest) as Hdigest by (subst v; by destruct digest).
  assert (v.["root"] = normal str_leb (nullable root_value root)) as Hroot by by subst v.
  assert (v.["expectedCoverage"] = normal str_leb (nullable summary_value expected)) as Hexpected by by subst v.
  assert (v.["coverage"] = normal str_leb (nullable child_value coverage)) as Hcoverage by by subst v. clear Hv.
  apply bind_ok in H as (? & _ & H). apply bind_ok in H as (? & _ & H). apply bind_ok in H as (? & _ & H). apply bind_ok in H as (? & _ & H).
  rewrite Hcount in H. unfold safeInt, int in H. destruct (isSafeInteger count); [|done]. revert H. guard_passed as Hg. rewrite Hsource, Hdigest.
  intros (source' & ->%bytes_inv & H)%bind_ok. apply bind_ok in H as (? & _ & H). apply bind_ok in H as (digest' & ->%idOrNull_value & H).
  rewrite Hphase in H. destruct phase.
  - change (isStr (js "captured") _) with true in H. cbv beta iota in H. rewrite Hroot, Hexpected, Hcoverage in H.
    apply bind_ok in H as (? & Hn%require_ok & [= <-]). by destruct root, expected, coverage.
  - change (isStr (js "captured") _) with false in H. change (isStr (js "archived") _) with true in H. cbv beta iota in H. destruct (count =? 0); [done|]. by eapply parseFrozen_inv.
  - change (isStr (js "captured") _) with false in H. change (isStr (js "archived") _) with false in H. change (isStr (js "covered") _) with true in H. cbv beta iota in H.
    destruct (count =? 0); [done|]. by eapply parseFrozen_inv.
Qed.

Lemma encrypted_inv o o' scopeId : captureEncryptedArchiveObject (normal str_leb (encrypted_value o)) scopeId = Ok o' -> o' = o.
Proof.
  unfold captureEncryptedArchiveObject. set (v := normal str_leb _). change (v.["scopeId"]) with (Str (enc_scopeId o)). change (v.["keyEpoch"]) with (int (enc_keyEpoch o)).
  change (v.["nonce"]) with (Str (enc_nonce o)). change (v.["ciphertext"]) with (Str (enc_ciphertext o)).
  intros (? & _ & H)%bind_ok. revert H. guard_passed as Hg. intros (e & [[= <-] _]%epoch_ok & H)%bind_ok. apply bind_ok in H as (? & _ & H). apply bind_ok in H as (? & _ & [= <-]).
  apply orb_false_iff in Hg as [Hg _]. apply orb_false_iff in Hg as [_ Hs%negb_false_iff]. apply isStr_true in Hs as [= <-]. by destruct o.
Qed.

Lemma parse_object_inv r r' raw identity : plain (prepared_value r) -> raw = canonText str_leb (prepared_value r) ->
  parsePreparedObject raw identity = Ok r' -> r' = r.
Proof.
  intros Hp Hraw. unfold parsePreparedObject. intros (v & Hv & H)%bind_ok. apply (parse_canonical _ _ _ _ Hp Hraw) in Hv.
  destruct r as [index previous binding request [id object]].
  assert (v.["index"] = int index) as Hindex by by subst v. assert (v.["requestId"] = Str request) as Hrequest by by subst v.
  assert (v.["previousDigest"] = nullable Str previous) as Hprevious by (subst v; by destruct previous).
  assert (v.["binding"] = normal str_leb (binding_value binding)) as Hbinding by by subst v.
  assert ((v.["sealed"]).["ciphertextId"] = Str id) as Hid by by subst v. assert ((v.["sealed"]).["object"] = normal str_leb (encrypted_value object)) as Hobject by by subst v.
  clear Hv. apply bind_ok in H as (? & _ & H). apply bind_ok in H as (? & _ & H). rewrite Hindex, Hrequest, Hprevious, Hbinding, Hid, Hobject in H.
  unfold safeInt, int in H. destruct (isSafeInteger index); [|done]. revert H. guard_passed as Hg. intros (previous' & ->%idOrNull_value & H)%bind_ok.
  apply bind_ok in H as (b & Hb & H). apply bind_ok in Hb as (b' & ->%binding_inv & Hb'). revert Hb'. guard_passed as Hq. intros [= <-].
  apply bind_ok in H as (? & _ & H). apply bind_ok in H as (id' & [[= <-] _]%validate_ok & H). apply bind_ok in H as (o & ->%encrypted_inv & H). revert H. guard_passed as He. by intros [= <-].
Qed.

Lemma parse_reference_inv r r' raw : plain (reference_value r) -> raw = canonText str_leb (reference_value r) -> parsePreparedReference raw = Ok r' -> r' = r.
Proof.
  intros Hp Hraw. unfold parsePreparedReference. intros (v & Hv & H)%bind_ok. apply (parse_canonical _ _ _ _ Hp Hraw) in Hv.
  assert (v.["ciphertextId"] = Str (ref_ciphertextId r)) as Hid by by subst v. assert (v.["digest"] = Str (ref_digest r)) as Hd by by subst v.
  rewrite Hid, Hd in H. apply bind_ok in H as (? & _ & H). apply bind_ok in H as (? & [[= <-] _]%validate_ok & H). apply bind_ok in H as (? & [[= <-] _]%validate_ok & [= <-]). by destruct r.
Qed.
End Inverse.

(** ** Records that are plain JSON *)
Lemma urlChars_units s : forallb urlChar s = true -> units s.
Proof.
  intros H. apply ascii_units. rewrite forallb_forall in *. intros c Hin. specialize (H c Hin). unfold urlChar in H.
  rewrite !orb_true_iff, !andb_true_iff, !N.leb_le, !N.eqb_eq in H. apply andb_true_iff. rewrite N.leb_le, N.ltb_lt. lia.
Qed.

Lemma binding_plain b : binding_ok b -> units (ctx_workspaceId (eb_context b)) -> units (ctx_indexId (eb_context b)) -> plain (binding_value b).
Proof.
  intros (_ & _ & He & Hid & Hc & Hp & _) Hw Hi. unfold binding_value, binding_members.
  plain_record; [done| |done|by apply digest_units|by destruct (eb_objectKind b)|..]; apply safe_between; unfold MAX_SAFE_INTEGER in *; lia.
Qed.

Lemma decode64_bytes s bytes : decode64 s = Some bytes -> Forall isByte bytes.
Proof.
  assert (forall c x, value64 c = Some x -> (x < 64)%N) as Hv.
  { intros c x. unfold value64. repeat (case_match; [intros [= <-]; bool_to_prop; rewrite ?N.leb_le in *; lia|]). done. }
  revert bytes. induction s as [s IH] using (induction_ltof1 _ (@length N)). unfold ltof in IH.
  assert (forall n : N, (n < 64)%N -> (n / 16 < 4 /\ n / 4 < 16 /\ n mod 16 < 16 /\ n mod 4 < 4)%N) as Hd64.
  { intros n Hn. split_and!; [apply N.Div0.div_lt_upper_bound; lia|apply N.Div0.div_lt_upper_bound; lia|by apply N.mod_lt|by apply N.mod_lt]. }
  assert (forall n : N, (n < 256)%N -> isByte n) as Hb by (intros n Hn; by apply Is_true_true, N.ltb_lt).
  destruct s as [|a [|b [|c [|d rest]]]]; intros bytes; cbn [decode64].
  - by intros [= <-].
  - done.
  - destruct (value64 a) eqn:Ha, (value64 b) eqn:Hbb; try done. apply Hv in Ha, Hbb. intros [= <-]. constructor; [|constructor]. apply Hb. destruct (Hd64 n0 Hbb) as (? & ? & ? & ?). lia.
  - destruct (value64 a) eqn:Ha, (value64 b) eqn:Hbb, (value64 c) eqn:Hc; try done. apply Hv in Ha, Hbb, Hc. intros [= <-].
    destruct (Hd64 n0 Hbb) as (? & ? & ? & ?), (Hd64 n1 Hc) as (? & ? & ? & ?). repeat constructor; apply Hb; lia.
  - destruct (value64 a) eqn:Ha, (value64 b) eqn:Hbb, (value64 c) eqn:Hc, (value64 d) eqn:Hd, (decode64 rest) as [more|] eqn:Hr; try done.
    apply Hv in Ha, Hbb, Hc, Hd. intros [= <-]. assert (Forall isByte more) as Hm by (apply (IH rest); [cbn; lia|done]).
    destruct (Hd64 n0 Hbb) as (? & ? & ? & ?), (Hd64 n1 Hc) as (? & ? & ? & ?).
    do 3 (constructor; [apply Hb; lia|]). done.
Qed.

Lemma canonical64_units s bytes : fromBase64Url s = Ok bytes -> toBase64Url bytes = s -> units s.
Proof.
  unfold fromBase64Url, atob. intros H <-. match type of H with match ?d with _ => _ end = _ => destruct d as [b|] eqn:Hd; [|done] end. injection H as ->.
  apply decode64_bytes, toBase64Url_chars in Hd. apply urlChars_units. rewrite forallb_forall. intros c Hc%list_elem_of_In. rewrite Forall_forall in Hd. by apply Is_true_true, Hd.
Qed.

Lemma child_plain input c : captureArchiveCoverageChild input = Ok c -> plain (child_value c).
Proof.
  intros (Hsigner & (_ & bytes & Hfrom & _ & Hto) & (Hservice & Hscope & Hrevision & Hrequest) & Hc & _)%captureChild_ok.
  apply urlText_ok in Hscope as (_ & _ & Hscope%urlChars_units), Hrequest as (_ & _ & Hrequest%urlChars_units).
  pose proof (canonical64_units _ _ Hfrom Hto) as Hsig. assert (isSafeInteger (hdr_policyRevision (child_header c))) as Hr by (apply safe_between; unfold MAX_SAFE_INTEGER in *; lia).
  unfold child_value, envelope_value. plain_record; [|by apply digest_units|done].
  destruct c as [header os signer signature|header root s signer signature]; cbn [child_payload child_header] in *.
  - unfold header_members. cbn [app]. destruct Hc as (Hos & _ & _). plain_record; [done|by apply digest_units|done|done|done|done|].
    apply plain_items, Forall_map. eapply Forall_impl; [exact Hos|]. apply coverage_object_plain.
  - destruct Hc as (Hroot & (Hh & Hcount & Hf & Hl & Hd & _) & _). unfold header_members, summary_members. cbn [app].
    plain_record; [done|by apply digest_units|done|done|done|done|by apply digest_units|..|done]; first [by apply digest_units|apply safe_between; unfold MAX_SAFE_INTEGER in *; lia].
Qed.

Lemma state_plain identity phase source count digest root expected coverage :
  plain (identity_value identity) -> plain (bytes_value source) -> isSafeInteger count -> plain (nullable Str digest) -> plain (nullable root_value root) ->
  plain (nullable summary_value expected) -> plain (nullable child_value coverage) ->
  plain (state_value (mkState identity phase source count digest root expected coverage)).
Proof. intros. unfold state_value. cbn [s_identity s_phase s_source s_objectCount s_objectDigest s_root s_expectedCoverage s_coverage]. plain_record; [done|done|done|by destruct phase|done..]. Qed.

Lemma plain_state s : plain (state_value s) ->
  plain (identity_value (s_identity s)) /\ plain (bytes_value (s_source s)) /\ plain (nullable Str (s_objectDigest s)) /\ plain (nullable root_value (s_root s)) /\
  plain (nullable summary_value (s_expectedCoverage s)) /\ plain (nullable child_value (s_coverage s)).
Proof.
  intros Hp. split_and!; [apply (plain_field (js "identity") _ _ Hp)|apply (plain_field (js "source") _ _ Hp)|apply (plain_field (js "objectDigest") _ _ Hp)|
    apply (plain_field (js "root") _ _ Hp)|apply (plain_field (js "expectedCoverage") _ _ Hp)|apply (plain_field (js "coverage") _ _ Hp)]; try reflexivity; try done.
  - by destruct (s_objectDigest s).
  - by destruct (s_root s).
  - by destruct (s_expectedCoverage s).
  - by destruct (s_coverage s) as [[]|].
Qed.

Lemma sealed_plain s : digestPattern (sealed_ciphertextId s) = true -> encrypted_ok (sealed_object s) -> plain (sealed_value s).
Proof. intros Hid Ho. unfold sealed_value. plain_record; [by apply digest_units|by apply encrypted_plain]. Qed.

Lemma prepared_plain index previous binding request sealed : isSafeInteger index -> plain (nullable Str previous) -> plain (binding_value binding) -> units request ->
  plain (sealed_value sealed) -> plain (prepared_value (mkPrepared index previous binding request sealed)).
Proof. intros. unfold prepared_value. cbn [po_index po_previousDigest po_binding po_requestId po_sealed]. plain_record; done. Qed.

Lemma reference_plain id digest : digestPattern id = true -> digestPattern digest = true -> plain (reference_value (mkReference id digest)).
Proof. intros. unfold reference_value. plain_record; by apply digest_units. Qed.

(** ** The text of a record determines it *)
Lemma field_eq key v v' a a' : normal str_leb v = normal str_leb v' -> getOpt key (normal str_leb v) = a -> getOpt key (normal str_leb v') = a' -> a = a'.
Proof. congruence. Qed.

(** The field [key] of two equal records. *)
Tactic Notation "field" constr(key) "of" hyp(H) "as" simple_intropattern(p) := pose proof (field_eq (js key) _ _ _ _ H eq_refl eq_refl) as p.

Lemma nullable_inj {A} (f : A -> value) a a' : (forall x, f x <> Null) -> (forall x y, f x = f y -> x = y) -> nullable f a = nullable f a' -> a = a'.
Proof. intros Hn Hf. destruct a as [a|], a' as [a'|]; cbn; intros Heq; [by rewrite (Hf _ _ Heq)| | |done]; [by destruct (Hn a)|by destruct (Hn a')]. Qed.

Lemma normal_nullable {A} (f : A -> value) a : normal str_leb (nullable f a) = nullable (fun x => normal str_leb (f x)) a.
Proof. by destruct a. Qed.

Lemma normal_binding_inj b b' : normal str_leb (binding_value b) = normal str_leb (binding_value b') -> b = b'.
Proof.
  destruct b as [[ws ep idx] id kind pi pc], b' as [[ws' ep' idx'] id' kind' pi' pc']. intros Heq.
  field "workspaceId" of Heq as H1. field "historyEpoch" of Heq as H2. field "indexId" of Heq as H3. field "objectId" of Heq as H4.
  field "objectKind" of Heq as H5. field "partIndex" of Heq as H6. field "partCount" of Heq as H7.
  change (Str ws = Str ws') in H1. change (int ep = int ep') in H2. change (Str idx = Str idx') in H3. change (Str id = Str id') in H4.
  change (Str (kindText kind) = Str (kindText kind')) in H5. change (int pi = int pi') in H6. change (int pc = int pc') in H7.
  assert (kind = kind') as -> by (apply (f_equal kindOf) in H5; rewrite !kindOf_text in H5; by injection H5). unfold int in *. congruence.
Qed.

Lemma normal_encrypted_inj o o' : normal str_leb (encrypted_value o) = normal str_leb (encrypted_value o') -> o = o'.
Proof.
  destruct o as [s e n c], o' as [s' e' n' c']. intros Heq. field "scopeId" of Heq as H1. field "keyEpoch" of Heq as H2. field "nonce" of Heq as H3. field "ciphertext" of Heq as H4.
  change (Str s = Str s') in H1. change (int e = int e') in H2. change (Str n = Str n') in H3. change (Str c = Str c') in H4. unfold int in *. congruence.
Qed.

Lemma Str_inj s s' : Str s = Str s' -> s = s'.
Proof. congruence. Qed.

Lemma normal_prepared_inj r r' : normal str_leb (prepared_value r) = normal str_leb (prepared_value r') -> r = r'.
Proof.
  destruct r as [i p b q [id o]], r' as [i' p' b' q' [id' o']]. intros Heq. field "index" of Heq as H1. field "previousDigest" of Heq as H2. field "binding" of Heq as H3.
  field "requestId" of Heq as H4. field "sealed" of Heq as H5. change (int i = int i') in H1. change (normal str_leb (nullable Str p) = normal str_leb (nullable Str p')) in H2.
  change (Str q = Str q') in H4. change (normal str_leb (sealed_value (mkSealed id o)) = normal str_leb (sealed_value (mkSealed id' o'))) in H5.
  apply normal_binding_inj in H3. cbn [po_binding] in H3. field "ciphertextId" of H5 as H6. field "object" of H5 as H7. change (Str id = Str id') in H6. apply normal_encrypted_inj in H7. cbn [sealed_object] in H7.
  rewrite !normal_nullable in H2. apply nullable_inj in H2; [|done|apply Str_inj]. unfold int in *. congruence.
Qed.

Lemma normal_root_inj r r' : normal str_leb (Archive.root_value r) = normal str_leb (Archive.root_value r') -> r = r'.
Proof.
  destruct r as [i h c f l], r' as [i' h' c' f' l']. intros Heq. field "objectId" of Heq as H1. field "height" of Heq as H2. field "count" of Heq as H3.
  field "first" of Heq as H4. field "last" of Heq as H5. change (Str i = Str i') in H1. change (int h = int h') in H2. change (int c = int c') in H3.
  change (normal str_leb (Archive.nullable f) = normal str_leb (Archive.nullable f')) in H4. change (normal str_leb (Archive.nullable l) = normal str_leb (Archive.nullable l')) in H5.
  unfold int in *. destruct f, f'; cbn in H4; try done; destruct l, l'; cbn in H5; try done; congruence.
Qed.

Lemma normal_bytes_inj r r' : normal str_leb (bytes_value r) = normal str_leb (bytes_value r') -> r = r'.
Proof.
  destruct r as [root t c], r' as [root' t' c']. intros Heq. field "root" of Heq as H1. field "byteLength" of Heq as H2. field "partCount" of Heq as H3.
  apply normal_root_inj in H1. change (int t = int t') in H2. change (int c = int c') in H3. unfold int in *. cbn in H1. congruence.
Qed.

Lemma normal_child_inj c c' : normal str_leb (child_value c) = normal str_leb (child_value c') -> c = c'.
Proof.
  intros Heq. field "signerKeyId" of Heq as Hs. field "signature" of Heq as Hg. field "payload" of Heq as Hp. change (Str (child_signer c) = Str (child_signer c')) in Hs.
  change (Str (child_signature c) = Str (child_signature c')) in Hg. change (normal str_leb (child_payload c) = normal str_leb (child_payload c')) in Hp. clear Heq.
  assert (child_header c = child_header c') as Hh.
  { assert (forall key, getOpt key (normal str_leb (child_payload c)) = getOpt key (normal str_leb (child_payload c'))) as Hget by by rewrite Hp.
    pose proof (Hget (js "serviceId")) as H1. pose proof (Hget (js "scopeId")) as H2. pose proof (Hget (js "policyRevision")) as H3. pose proof (Hget (js "requestId")) as H4. clear Hget Hp Hs Hg.
    assert (forall c, getOpt (js "serviceId") (normal str_leb (child_payload c)) = Str (hdr_serviceId (child_header c)) /\ getOpt (js "scopeId") (normal str_leb (child_payload c)) = Str (hdr_scopeId (child_header c)) /\
      getOpt (js "policyRevision") (normal str_leb (child_payload c)) = int (hdr_policyRevision (child_header c)) /\ getOpt (js "requestId") (normal str_leb (child_payload c)) = Str (hdr_requestId (child_header c))) as Hf by by intros [].
    destruct (Hf c) as (E1 & E2 & E3 & E4), (Hf c') as (F1 & F2 & F3 & F4). rewrite E1, F1 in H1. rewrite E2, F2 in H2. rewrite E3, F3 in H3. rewrite E4, F4 in H4. unfold int in *.
    destruct (child_header c), (child_header c'). cbn in *. congruence. }
  field "kind" of Hp as Hk. destruct c as [h os sg sn|h root s sg sn], c' as [h' os' sg' sn'|h' root' s' sg' sn']; cbn [child_header child_signer child_signature] in *; try done.
  - field "objects" of Hp as Ho. change (normal str_leb (Arr (map object_value os)) = normal str_leb (Arr (map object_value os'))) in Ho. cbn [normal] in Ho. injection Ho as Ho.
    assert (os = os') as -> by (eapply map_normal_inj; [apply normal_object_inj|]; unfold same; cbn [normal]; by rewrite Ho). congruence.
  - field "archiveRootId" of Hp as Hr. field "height" of Hp as H1. field "objectCount" of Hp as H2. field "firstObjectId" of Hp as H3. field "lastObjectId" of Hp as H4.
    field "setDigest" of Hp as H5. field "rootCovered" of Hp as H6. change (Str root = Str root') in Hr. change (int (sum_height s) = int (sum_height s')) in H1.
    change (int (sum_objectCount s) = int (sum_objectCount s')) in H2. change (Str (sum_firstObjectId s) = Str (sum_firstObjectId s')) in H3. change (Str (sum_lastObjectId s) = Str (sum_lastObjectId s')) in H4.
    change (Str (sum_setDigest s) = Str (sum_setDigest s')) in H5. change (Bool (sum_rootCovered s) = Bool (sum_rootCovered s')) in H6. destruct s, s'. cbn in *. unfold int in *. congruence.
Qed.

Lemma normal_prepared_root_inj r r' : normal str_leb (root_value r) = normal str_leb (root_value r') -> r = r'.
Proof.
  destruct r as [b id], r' as [b' id']. intros Heq. field "binding" of Heq as H1. field "ciphertextId" of Heq as H2. apply normal_binding_inj in H1. change (Str id = Str id') in H2. cbn in H1. congruence.
Qed.

Lemma normal_state_inj s s' : normal str_leb (state_value s) = normal str_leb (state_value s') -> s_identity s = s_identity s' -> s = s'.
Proof.
  destruct s as [i ph src n d root e c], s' as [i' ph' src' n' d' root' e' c']. cbn [s_identity]. intros Heq ->.
  field "phase" of Heq as H1. field "source" of Heq as H2. field "objectCount" of Heq as H3. field "objectDigest" of Heq as H4. field "root" of Heq as H5. field "expectedCoverage" of Heq as H6. field "coverage" of Heq as H7.
  change (Str (phaseText ph) = Str (phaseText ph')) in H1. assert (ph = ph') as -> by by destruct ph, ph'. apply normal_bytes_inj in H2. cbn in H2. change (int n = int n') in H3.
  change (normal str_leb (nullable Str d) = normal str_leb (nullable Str d')) in H4. change (normal str_leb (nullable root_value root) = normal str_leb (nullable root_value root')) in H5.
  change (normal str_leb (nullable summary_value e) = normal str_leb (nullable summary_value e')) in H6. change (normal str_leb (nullable child_value c) = normal str_leb (nullable child_value c')) in H7.
  rewrite !(normal_nullable Str) in H4. rewrite !(normal_nullable root_value) in H5. rewrite !(normal_nullable summary_value) in H6. rewrite !(normal_nullable child_value) in H7. apply nullable_inj in H4; [|done|apply Str_inj]. apply nullable_inj in H5; [|done|apply normal_prepared_root_inj].
  apply nullable_inj in H6; [|done|apply normal_summary_inj]. apply nullable_inj in H7; [|by intros []|apply normal_child_inj]. unfold int in *. congruence.
Qed.

Lemma text_same v v' : plain v -> plain v' -> canonText str_leb v = canonText str_leb v' -> normal str_leb v = normal str_leb v'.
Proof. intros. by apply canonText_normal. Qed.
