(* ===== verification/Journal.v ===== *)
(** * History preparation: the journal

    [packages/mesh-replication/src/historyPreparationJournal.ts]: the durable journal
    of the transition of a workspace to an archived history.  It captures the
    source, stages sealed objects under their bindings in an append-only chain,
    freezes the expected coverage of the staged set, and ends with the receipt
    of the storage service for exactly that set.

    The host's persistence, the guard, the random numbers of the platform and the
    storage service are parameters; generators are loops that run the body
    of their consumer at each [yield]. *)
From stdpp Require Import base numbers list gmap strings sets.
From Stdlib Require Import ZArith NArith Lia.
From S2P Require Import Prelude Unicode Json Base64 Digest Envelope Js ProfileValue Profile Recovery.
From S2P Require Import Archive ArchiveSize ArchiveRead ArchiveBytes ArchiveStore Coverage CoverageSet ArchiveCrypto Preparation.
Local Open Scope js_scope.
Local Open Scope Z_scope.

(** ** Ports *)
Record StoragePage := mkStoragePage { sp_entries : list (list N * list N); sp_nextAfter : option (list N) }.

Class HistoryPreparationPersistence (W : Type) := {
  journal_read : list N -> M W (option (list N));
  journal_scan : list N -> option (list N) -> Z -> M W StoragePage;
  journal_compareAndSwap : list (list N * option (list N)) -> list (list N * list N) -> M W unit -> M W bool;
  journal_guard : M W value }.

(** [crypto.randomUUID] and [crypto.getRandomValues] *)
Class Randomness (W : Type) := { randomUUID : M W (list N); randomNonce : M W (list N) }.

Class HistoryPreparationRemote (W : Type) := {
  remote_upload : EncryptedArchiveObject -> list N -> M W value;
  remote_coverage : list ArchiveCoverageObject -> list N -> M W value;
  remote_aggregate : list N -> list ArchiveCoverageChild -> list N -> M W value }.

Record ArchiveLocatorEntry := mkLocator { loc_key : list N; loc_ciphertextId : list N }.

Record Head := mkHead { h_key : list N; h_raw : list N; h_state : HistoryPreparationState }.

(** The messages of the two scans. *)
Record ScanErrors := mkScanErrors { bad_page : string; bad_order : string; extra : string; no_progress : string; unfinished : string }.
Definition objectErrors : ScanErrors := mkScanErrors "Invalid preparation storage page" "Invalid preparation storage order"
  "Prepared archive set has extra objects" "Preparation storage page made no progress" "Prepared archive set changed or incomplete".
Definition locatorErrors : ScanErrors := mkScanErrors "Invalid preparation locator page" "Invalid preparation locator order"
  "Prepared archive locator set has extra objects" "Preparation locator page made no progress" "Prepared archive locator set changed or incomplete".

Definition stateText (s : HistoryPreparationState) : list N := canonText str_leb (state_value s).
Definition recordText (r : HistoryPreparedObject) : list N := canonText str_leb (prepared_value r).
Definition referenceText (r : PreparedReference) : list N := canonText str_leb (reference_value r).

Section Names.
Context `{Sha256}.

Definition partition (identity : HistoryPreparationIdentity) : list N :=
  canonText str_leb (Obj [(js "personId", Str (hp_personId identity)); (js "workspaceId", Str (hp_workspaceId identity));
    (js "transitionId", Str (hp_transitionId identity))]).
Definition prefixText (identity : HistoryPreparationIdentity) : list N :=
  js "meta-mesh.history-preparation.v1." ++ digestRecord (js "MESH-HISTORY/1/preparation" ++ [0%N] ++ partition identity) ++ js ".".
Definition sourcePartition (identity : HistoryPreparationIdentity) : list N := js "preparation-source:" ++ partition identity.
Definition sourceContext (identity : HistoryPreparationIdentity) : ArchiveTreeContext :=
  mkContext (hp_workspaceId identity) (hp_historyEpoch identity) (js "preparation-source").
Definition bindingDigest (b : ArchiveEncryptionBinding) : list N := digestRecord (canonText str_leb (binding_value b)).
Definition recordDigest (r : HistoryPreparedObject) : list N := digestRecord (recordText r).
End Names.

(** The checks of [createHistoryPreparationJournal]; the rest of it are the operations below. *)
Definition createHistoryPreparationJournal `{Platform} (identityInput : value) : result HistoryPreparationIdentity :=
  identity ← capturePreparationIdentity identityInput;
  require (validPartition (sourcePartition identity)) "Invalid archive store partition";;
  Ok identity.

Section Journal.
Context `{Sha256} `{Ed25519} `{Platform} `{!Wrapping} `{!RawKeys} {W : Type} `{HistoryPreparationPersistence W} `{Randomness W} `{HistoryPreparationRemote W}.
Variable identity : HistoryPreparationIdentity.

Definition current : M W unit :=
  result ← journal_guard;
  requireM (match result with Undefined => true | _ => false end) "History preparation guard must be synchronous and return no value".

Definition prefix : M W (list N) := current;; mret (prefixText identity).

#[local] Instance sourcePersistence : ArchiveObjectPersistence W := {|
  persistence_read := journal_read;
  persistence_compareAndSwap key expected next := journal_compareAndSwap [(key, expected)] [(key, next)] current;
  ensureCurrent := current |}.
#[local] Instance sourceStore : ArchiveObjectStore W := createArchiveObjectStore (sourcePartition identity).

Definition headOptional : M W (option Head) :=
  current;;
  p ← prefix;
  let key := p ++ js "head" in
  raw ← journal_read key;
  current;;
  match raw with
  | None => mret None
  | Some raw =>
      state ← liftM (parsePreparationState raw identity);
      liftM (verifyPreparedCoverage state);;
      current;;
      mret (Some (mkHead key raw state))
  end.

Definition head : M W Head :=
  h ← headOptional;
  match h with Some h => mret h | None => throwM "History preparation has not captured its source" end.

Definition bindingKey (b : ArchiveEncryptionBinding) : M W (list N) := p ← prefix; mret (p ++ js "binding." ++ bindingDigest b).
Definition orderKey (index : Z) : M W (list N) := p ← prefix; mret (p ++ js "order." ++ partKey index).
Definition objectKey (id : list N) : M W (list N) := p ← prefix; mret (p ++ js "object." ++ id).

Definition readObject (id : list N) (count : Z) : M W (HistoryPreparedObject * list N) :=
  liftM (validateArchiveObjectId (Str id));;
  key ← objectKey id;
  raw ← journal_read key;
  current;;
  match raw with
  | None => throwM "Prepared archive object unavailable"
  | Some raw =>
      record ← liftM (verifyPreparedObject raw identity);
      requireM (bool_decide (po_ciphertextId record = id) && (po_index record <? count)) "Prepared archive object identity mismatch";;
      key ← orderKey (po_index record);
      ordinal ← journal_read key;
      current;;
      match ordinal with
      | None => throwM "Prepared archive order reference missing"
      | Some ordinal =>
          reference ← liftM (parsePreparedReference ordinal);
          requireM (bool_decide (ref_ciphertextId reference = id) && bool_decide (ref_digest reference = digestRecord raw))
            "Prepared archive reference integrity failure";;
          current;;
          mret (record, ref_digest reference)
      end
  end.

Definition existing (binding : ArchiveEncryptionBinding) (count : Z) : M W (option HistoryPreparedObject) :=
  key ← bindingKey binding;
  id ← journal_read key;
  current;;
  match id with
  | None => mret None
  | Some id =>
      '(item, _) ← readObject id count;
      requireM (sameJson (binding_value (po_binding item)) (binding_value binding)) "Prepared archive binding conflict";;
      mret (Some item)
  end.

Definition save (previous : Head) (state : HistoryPreparationState) : M W HistoryPreparationState :=
  let raw := stateText state in
  liftM (parsePreparationState raw identity);;
  current;;
  swapped ← journal_compareAndSwap [(h_key previous, Some (h_raw previous))] [(h_key previous, raw)] current;
  if (swapped : bool) then current;; mret state else
  winner ← head;
  if bool_decide (h_raw winner = raw) then mret (h_state winner) else throwM "History preparation changed during commit".

(** *** Scans *)
Section Scan.
Context {A B : Type}.
Variables (errors : ScanErrors) (family : list N) (captured : HistoryPreparationState).
(** What a row stands for, by its key after the prefix and its value. *)
Variable rowItem : list N -> list N -> M W B.
(** What the consumer does with an item. *)
Variable body : A -> B -> M W A.

Fixpoint eachRow (rows : list (list N * list N)) (after : option (list N)) (count : Z) (a : A) : M W (option (list N) * Z * A) :=
  match rows with
  | [] => mret (after, count, a)
  | (key, text) :: rest =>
      requireM (startsWith key family && match after with Some after => str_ltb after key | None => true end) (bad_order errors);;
      item ← rowItem (drop (length family) key) text;
      requireM (count + 1 <=? s_objectCount captured) (extra errors);;
      a ← body a item;
      eachRow rest (Some key) (count + 1) a
  end.

(** A round that is not the last visits a row, and no more than [objectCount] rows are visited. *)
Fixpoint eachPage (fuel : nat) (after : option (list N)) (count : Z) (a : A) : M W (Z * A) :=
  match fuel with
  | O => throwM "out of fuel"
  | S fuel =>
      current;;
      page ← journal_scan family after 64;
      current;;
      requireM ((length (sp_entries page) <=? 64)%nat &&
                match sp_nextAfter page with Some next => bool_decide (fst <$> last (sp_entries page) = Some next) | None => true end) (bad_page errors);;
      '(after, count, a) ← eachRow (sp_entries page) after count a;
      match sp_nextAfter page with
      | None => mret (count, a)
      | Some _ =>
          requireM (negb (length (sp_entries page) =? 0)%nat) (no_progress errors);;
          eachPage fuel after count a
      end
  end.

Definition pageFuel : nat := S (Z.to_nat (s_objectCount captured)).

Definition scanAll (key raw : list N) (a : A) : M W A :=
  '(count, a) ← eachPage pageFuel None 0 a;
  (if count =? s_objectCount captured
   then now ← journal_read key; requireM (bool_decide (now = Some raw)) (unfinished errors)
   else throwM (unfinished errors));;
  current;;
  mret a.
End Scan.

Definition objectRow (captured : HistoryPreparationState) (id text : list N) : M W HistoryPreparedObject :=
  '(record, _) ← readObject id (s_objectCount captured);
  requireM (bool_decide (recordText record = text)) "Prepared archive object changed during scan";;
  mret record.

(** [for await (const record of objects())] with the body [body]. *)
Definition objects {A} (body : A -> HistoryPreparedObject -> M W A) (a : A) : M W A :=
  captured ← head;
  p ← prefix;
  scanAll objectErrors (p ++ js "object.") (h_state captured) (objectRow (h_state captured)) body (h_key captured) (h_raw captured) a.

Definition locatorRow (captured : HistoryPreparationState) (key text : list N) : M W ArchiveLocatorEntry :=
  liftM (validateArchiveObjectId (Str key));;
  '(record, _) ← readObject text (s_objectCount captured);
  requireM (bool_decide (key = bindingDigest (po_binding record))) "Prepared archive locator binding mismatch";;
  current;;
  mret (mkLocator key (po_ciphertextId record)).

Definition locators {A} (body : A -> ArchiveLocatorEntry -> M W A) (a : A) : M W A :=
  captured ← head;
  p ← prefix;
  requireM (negb (bool_decide (s_phase (h_state captured) = Captured))) "Archive data must be frozen before portable locator enumeration";;
  scanAll locatorErrors (p ++ js "binding.") (h_state captured) (locatorRow (h_state captured)) body (h_key captured) (h_raw captured) a.

(** *** Operations *)
Definition readPreparedObject (ciphertextId : list N) : M W (option HistoryPreparedObject) :=
  liftM (validateArchiveObjectId (Str ciphertextId));;
  current;;
  saved ← headOptional;
  match saved with
  | None => mret None
  | Some saved =>
      key ← objectKey ciphertextId;
      raw ← journal_read key;
      current;;
      match raw with
      | None => mret None
      | Some raw =>
          '(item, _) ← readObject ciphertextId (s_objectCount (h_state saved));
          requireM (bool_decide (recordText item = raw)) "Prepared archive object changed during lookup";;
          mret (Some item)
      end
  end.

Definition readSource (visit : list N -> M W unit) : M W (list (list N)) :=
  h ← head;
  forArchiveBytes visit (context_value (sourceContext identity)) (bytes_value (s_source (h_state h))).

Definition read : M W (option HistoryPreparationState) :=
  h ← headOptional;
  mret (h_state <$> h).

Definition startState (reference : ArchiveBytesReference) : HistoryPreparationState :=
  mkState identity Captured reference 0 None None None None.

Definition capture (source : list (list N)) : M W HistoryPreparationState :=
  current;;
  reference ← writeArchiveBytes (context_value (sourceContext identity)) source;
  let sameSource (state : HistoryPreparationState) :=
    requireM (sameJson (bytes_value (s_source state)) (bytes_value reference)) "History preparation source is immutable" in
  previous ← headOptional;
  match previous with
  | Some previous => sameSource (h_state previous);; mret (h_state previous)
  | None =>
      let state := startState reference in
      p ← prefix;
      let key := p ++ js "head" in
      let raw := stateText state in
      liftM (parsePreparationState raw identity);;
      current;;
      swapped ← journal_compareAndSwap [(key, None)] [(key, raw)] current;
      if (swapped : bool) then current;; mret state else
      winner ← head;
      sameSource (h_state winner);;
      mret (h_state winner)
  end.

Definition grown (state : HistoryPreparationState) (digest : list N) : HistoryPreparationState :=
  mkState (s_identity state) (s_phase state) (s_source state) (s_objectCount state + 1) (Some digest) (s_root state)
    (s_expectedCoverage state) (s_coverage state).

(** Appends [record] in one transaction. *)
Definition append (previous : Head) (bKey : list N) (record : HistoryPreparedObject) : M W bool :=
  let raw := recordText record in
  let digest := digestRecord raw in
  oKey ← objectKey (po_ciphertextId record);
  ordinal ← orderKey (po_index record);
  let next := grown (h_state previous) digest in
  current;;
  journal_compareAndSwap
    [(h_key previous, Some (h_raw previous)); (bKey, None); (oKey, None); (ordinal, None)]
    [(h_key previous, stateText next); (bKey, po_ciphertextId record); (oKey, raw);
     (ordinal, referenceText (mkReference (po_ciphertextId record) digest))] current.

Definition scopeMatches (scope : ArchiveEncryptionScope) : bool :=
  bool_decide (scope_scopeId scope = scopeId_of identity) && (scope_keyEpoch scope =? st_keyEpoch (hp_storage identity)) &&
  bool_decide (sha256Base64Url (scope_key scope) = st_keyDigest (hp_storage identity)).

Definition contention : string := "History preparation contention; retry from persisted state".

(** [sealed ??= await sealArchiveObject(...)] *)
Definition sealOnce (scope : ArchiveEncryptionScope) (binding : ArchiveEncryptionBinding) (bytes : list N) (sealed : option SealedArchiveObject) : M W SealedArchiveObject :=
  match sealed with
  | Some sealed => mret sealed
  | None => nonce ← randomNonce; liftM (sealArchiveObject scope (binding_value binding) bytes nonce)
  end.

Definition requestOnce (requestId : option (list N)) : M W (list N) :=
  match requestId with Some requestId => mret requestId | None => randomUUID end.

Fixpoint stageAttempts (attempts : nat) (scope : ArchiveEncryptionScope) (binding : ArchiveEncryptionBinding) (bytes bKey : list N)
    (sealed : option SealedArchiveObject) (requestId : option (list N)) : M W HistoryPreparedObject :=
  match attempts with
  | O => throwM contention
  | S attempts =>
      previous ← head;
      let state := h_state previous in
      saved ← existing binding (s_objectCount state);
      match saved with
      | Some saved =>
          liftM (openArchiveObject scope (binding_value binding) (po_ciphertextId saved) (encrypted_value (sealed_object (po_sealed saved))));;
          current;;
          mret saved
      | None =>
          requireM (bool_decide (s_phase state = Captured)) "Prepared archive is frozen";;
          requireM (s_objectCount state <? MAX_PREPARED_OBJECTS) "Prepared archive capacity exceeded";;
          sealed ← sealOnce scope binding bytes sealed;
          requestId ← requestOnce requestId;
          let record := mkPrepared (s_objectCount state) (s_objectDigest state) binding requestId sealed in
          swapped ← append previous bKey record;
          if (swapped : bool) then current;; mret record
          else stageAttempts attempts scope binding bytes bKey (Some sealed) (Some requestId)
      end
  end.

Definition stage (scopeInput : ArchiveEncryptionScope) (bindingInput : value) (bytes : list N) : M W HistoryPreparedObject :=
  scope ← liftM (scopeSnapshot scopeInput);
  binding ← liftM (capturePreparationBinding bindingInput identity);
  requireM (negb ((256 * 1024 <? byteLength bytes) || negb (bool_decide (eb_objectKind binding = KindPart)) && (64 * 1024 <? byteLength bytes)))
    "Prepared archive part exceeds size limit";;
  current;;
  requireM (scopeMatches scope && bool_decide (sha256Base64Url bytes = eb_objectId binding)) "History preparation encryption context changed";;
  bKey ← bindingKey binding;
  stageAttempts 8 scope binding bytes bKey None None.

Fixpoint stageSealedAttempts (attempts : nat) (binding : ArchiveEncryptionBinding) (bKey : list N) (sealed : SealedArchiveObject) : M W HistoryPreparedObject :=
  match attempts with
  | O => throwM contention
  | S attempts =>
      previous ← head;
      let state := h_state previous in
      saved ← existing binding (s_objectCount state);
      match saved with
      | Some saved =>
          requireM (bool_decide (po_ciphertextId saved = sealed_ciphertextId sealed) &&
                    sameJson (encrypted_value (sealed_object (po_sealed saved))) (encrypted_value (sealed_object sealed)))
            "Prepared archive binding already contains different ciphertext";;
          mret saved
      | None =>
          requireM (bool_decide (s_phase state = Captured)) "Prepared archive is frozen";;
          requireM (s_objectCount state <? MAX_PREPARED_OBJECTS) "Prepared archive capacity exceeded";;
          requestId ← randomUUID;
          let record := mkPrepared (s_objectCount state) (s_objectDigest state) binding requestId sealed in
          swapped ← append previous bKey record;
          if (swapped : bool) then current;; mret record
          else stageSealedAttempts attempts binding bKey sealed
      end
  end.

Definition stageSealed (scopeInput : ArchiveEncryptionScope) (bindingInput : value) (sealed : SealedArchiveObject) : M W HistoryPreparedObject :=
  scope ← liftM (scopeSnapshot scopeInput);
  binding ← liftM (capturePreparationBinding bindingInput identity);
  liftM (validateArchiveObjectId (Str (sealed_ciphertextId sealed)));;
  liftM (openArchiveObject scope (binding_value binding) (sealed_ciphertextId sealed) (encrypted_value (sealed_object sealed)));;
  current;;
  requireM (scopeMatches scope) "History preparation encryption context changed";;
  bKey ← bindingKey binding;
  stageSealedAttempts 8 binding bKey sealed.

(** The loop over the append chain: [remaining] objects from [index] on. *)
Fixpoint chain (remaining : nat) (index count : Z) (digest : option (list N)) : M W (option (list N)) :=
  match remaining with
  | O => mret digest
  | S remaining =>
      key ← orderKey index;
      raw ← journal_read key;
      current;;
      match raw with
      | None => throwM "Prepared archive order is incomplete"
      | Some raw =>
          reference ← liftM (parsePreparedReference raw);
          '(record, digest') ← readObject (ref_ciphertextId reference) count;
          requireM ((po_index record =? index) && bool_decide (po_previousDigest record = digest)) "Prepared archive append chain changed";;
          chain remaining (index + 1) count (Some digest')
      end
  end.

(** [{ objectId: item.sealed.ciphertextId, keyEpoch: item.sealed.object.keyEpoch }] *)
Definition coverageObject (r : HistoryPreparedObject) : ArchiveCoverageObject :=
  mkCoverageObject (po_ciphertextId r) (enc_keyEpoch (sealed_object (po_sealed r))).

Definition expected {T} : Iteration (W := W) (T := T) := fun body r => objects (fun r item => body r (object_value (coverageObject item))) r.

Definition frozen (state : HistoryPreparationState) (root : PreparedRoot) (coverage : ArchiveCoverageSummary) : HistoryPreparationState :=
  mkState (s_identity state) Archived (s_source state) (s_objectCount state) (s_objectDigest state) (Some root) (Some coverage) (s_coverage state).

Definition archive (rootInput : value) : M W HistoryPreparationState :=
  binding ← liftM (capturePreparationBinding rootInput identity);
  requireM (bool_decide (eb_objectKind binding = KindPage)) "Archive catalogue root must be an index page";;
  previous ← head;
  let state := h_state previous in
  found ← existing binding (s_objectCount state);
  match found with
  | None => throwM "Prepared archive root unavailable"
  | Some record =>
      let root := mkPreparedRoot binding (po_ciphertextId record) in
      if negb (bool_decide (s_phase state = Captured)) then
        requireM (sameJson (nullable root_value (s_root state)) (root_value root)) "Prepared archive root changed";;
        mret state
      else
        readSource (fun _ => current);;
        digest ← chain (Z.to_nat (s_objectCount state)) 0 (s_objectCount state) None;
        requireM (bool_decide (digest = s_objectDigest state)) "Prepared archive append root changed";;
        coverage ← deriveFrom (po_ciphertextId record) expected;
        save previous (frozen state root coverage)
  end.

#[local] Instance coveragePort : ArchiveCoveragePort W := {|
  port_coverage := remote_coverage; port_aggregate := remote_aggregate; port_ensureCurrent := current |}.

Definition confirmed (state : HistoryPreparationState) (receipt : ArchiveCoverageChild) : HistoryPreparationState :=
  mkState (s_identity state) Covered (s_source state) (s_objectCount state) (s_objectDigest state) (s_root state) (s_expectedCoverage state) (Some receipt).

Definition uploadOne (_ : unit) (record : HistoryPreparedObject) : M W unit :=
  current;;
  receipt ← remote_upload (sealed_object (po_sealed record)) (po_requestId record);
  liftM (verifyPreparedStorageReceipt receipt identity record);;
  current.

Definition cover : M W HistoryPreparationState :=
  previous ← head;
  let state := h_state previous in
  match s_phase state with
  | Covered => mret state
  | Captured => throwM "History preparation is not frozen"
  | Archived =>
      objects uploadOne tt;;
      match s_root state with
      | None => throwM "Cannot read properties of null"
      | Some root =>
          receipt ← confirmFrom (storage_value (hp_storage identity)) (root_ciphertextId root) (hp_transitionId identity) expected;
          let next := confirmed state receipt in
          liftM (verifyPreparedCoverage next);;
          current;;
          save previous next
      end
  end.
End Journal.
