(* ===== verification/JournalSpec.v ===== *)
(** * History preparation: the protocol of the journal

    What the records of a journal may do: its source is captured once, objects
    are only appended, each to a chain of digests and under a binding of its own,
    the set is frozen with the root of the canonical coverage tree of all of it,
    and the frozen set is covered by a receipt that verifies for that root.  The
    records as they lie in the persistence, and what the protocol keeps. *)
From stdpp Require Import base numbers list gmap strings sets sorting.
From Stdlib Require Import ZArith NArith Lia.
From S2P Require Import Prelude Unicode Json Base64 Digest Envelope Js ProfileValue Profile Recovery.
From S2P Require Import Archive ArchiveSize ArchiveRead ArchiveBytes ArchiveStore Coverage CoverageSet ArchiveCrypto Preparation Journal.
Local Open Scope js_scope.
Local Open Scope Z_scope.

Record JournalState := mkJournal { j_head : option HistoryPreparationState; j_objects : list HistoryPreparedObject }.
Definition emptyJournal : JournalState := mkJournal None [].

Abbreviation records := (gmap (list N) (list N)).

Section Protocol.
Context `{Sha256} `{Ed25519}.
Variable identity : HistoryPreparationIdentity.

(** A record that can be read back and whose ciphertext is intact, sealed for the scope of the preparation. *)
Record prepared_ok (r : HistoryPreparedObject) : Prop := {
  prep_plain : plain (prepared_value r);
  prep_object : object_ok (coverageObject r);
  prep_intact : po_ciphertextId r = ciphertextIdOf (sealed_object (po_sealed r));
  prep_scope : enc_scopeId (sealed_object (po_sealed r)) = scopeId_of identity;
  prep_epoch : enc_keyEpoch (sealed_object (po_sealed r)) = st_keyEpoch (hp_storage identity) }.

Definition bindings (rs : list HistoryPreparedObject) : list (list N) := map (fun r => bindingDigest (po_binding r)) rs.

(** [coverage] is the root of the canonical tree of exactly the objects [rs]. *)
Definition covers (root : list N) (rs : list HistoryPreparedObject) (coverage : ArchiveCoverageSummary) : Prop :=
  exists sorted k, sorted ≡ₚ map coverageObject rs /\ ordered sorted /\ topHeight k sorted /\ coverage = canon root k sorted.

Inductive jstep : JournalState -> JournalState -> Prop :=
| step_capture reference :
    plain (bytes_value reference) ->
    jstep emptyJournal (mkJournal (Some (startState identity reference)) [])
| step_append s rs r :
    s_phase s = Captured -> s_objectCount s < MAX_PREPARED_OBJECTS -> prepared_ok r ->
    po_index r = s_objectCount s -> po_previousDigest r = s_objectDigest s ->
    po_ciphertextId r ∉ map po_ciphertextId rs -> bindingDigest (po_binding r) ∉ bindings rs ->
    jstep (mkJournal (Some s) rs) (mkJournal (Some (grown s (recordDigest r))) (rs ++ [r]))
| step_freeze s rs r coverage :
    s_phase s = Captured -> r ∈ rs -> eb_objectKind (po_binding r) = KindPage -> covers (po_ciphertextId r) rs coverage ->
    jstep (mkJournal (Some s) rs) (mkJournal (Some (frozen s (mkPreparedRoot (po_binding r) (po_ciphertextId r)) coverage)) rs)
| step_cover s rs receipt :
    s_phase s = Archived -> verifyPreparedCoverage (confirmed s receipt) = Ok tt ->
    jstep (mkJournal (Some s) rs) (mkJournal (Some (confirmed s receipt)) rs).

(** ** What the protocol keeps *)
Definition phase_ok (s : HistoryPreparationState) (rs : list HistoryPreparedObject) : Prop :=
  match s_phase s with
  | Captured => s_root s = None /\ s_expectedCoverage s = None /\ s_coverage s = None
  | phase =>
      exists r coverage, r ∈ rs /\ eb_objectKind (po_binding r) = KindPage /\ covers (po_ciphertextId r) rs coverage /\
        s_root s = Some (mkPreparedRoot (po_binding r) (po_ciphertextId r)) /\ s_expectedCoverage s = Some coverage /\
        match phase with Covered => verifyPreparedCoverage s = Ok tt | _ => s_coverage s = None end
  end.

Record journal_ok (J : JournalState) : Prop := {
  jok_head : match j_head J with
             | None => j_objects J = []
             | Some s => s_identity s = identity /\ plain (state_value s) /\ s_objectCount s = Z.of_nat (length (j_objects J)) /\
                 s_objectDigest s = recordDigest <$> last (j_objects J) /\ phase_ok s (j_objects J)
             end;
  jok_size : Z.of_nat (length (j_objects J)) <= MAX_PREPARED_OBJECTS;
  jok_objects : Forall prepared_ok (j_objects J);
  jok_ids : NoDup (map po_ciphertextId (j_objects J));
  jok_bindings : NoDup (bindings (j_objects J));
  jok_index n r : j_objects J !! n = Some r -> po_index r = Z.of_nat n;
  jok_chain n r : j_objects J !! n = Some r -> po_previousDigest r = match n with O => None | S n => recordDigest <$> j_objects J !! n end }.

Definition reachable : JournalState -> Prop := rtc jstep emptyJournal.

Hypothesis identity_plain : plain (identity_value identity).

Lemma capture_ok reference : plain (bytes_value reference) -> journal_ok (mkJournal (Some (startState identity reference)) []).
Proof.
  intros Hp. split; cbn [j_head j_objects map bindings]; try done; try by constructor.
  split_and!; try done. by apply state_plain.
Qed.

Lemma appended_ok s rs r : s_phase s = Captured -> s_objectCount s < MAX_PREPARED_OBJECTS -> prepared_ok r ->
  po_index r = s_objectCount s -> po_previousDigest r = s_objectDigest s ->
  po_ciphertextId r ∉ map po_ciphertextId rs -> bindingDigest (po_binding r) ∉ bindings rs ->
  journal_ok (mkJournal (Some s) rs) -> journal_ok (mkJournal (Some (grown s (recordDigest r))) (rs ++ [r])).
Proof.
  intros Hphase Hmax Hr Hi Hd Hid Hb [(Hs & Hp & Hc & Hl & Hph) Hn Ho Hids Hbs Hidx Hch]. cbn [j_head j_objects] in *.
  pose proof (plain_state s Hp) as (Hp1 & Hp2 & Hp3 & Hp4 & Hp5 & Hp6).
  assert (forall (k : nat) x, (rs ++ [r]) !! k = Some x -> rs !! k = Some x \/ k = length rs /\ x = r) as Hsplit.
  { intros k x [?|[? [? <-]%list_lookup_singleton_Some]]%lookup_app_Some; [by left|]. right. split; [lia|done]. }
  split; cbn [j_head j_objects].
  - split_and!; [done| |cbn; rewrite length_app; cbn; lia|by rewrite last_snoc|].
    + unfold grown. apply state_plain; try done; [|].
      * apply safe_between. unfold MAX_PREPARED_OBJECTS, MAX_SAFE_INTEGER in *. lia.
      * apply digest_units, Is_true_true, sha256Base64Url_pattern.
    + unfold phase_ok in *. cbn. by rewrite Hphase in *.
  - rewrite length_app. cbn. lia.
  - apply Forall_app. split; [done|by constructor].
  - rewrite map_app. apply NoDup_app. split_and!; [done|set_solver|apply NoDup_singleton].
  - unfold bindings in *. rewrite map_app. apply NoDup_app. split_and!; [done|set_solver|apply NoDup_singleton].
  - intros k x [?|[-> ->]]%Hsplit; [by apply Hidx|lia].
  - intros k x [Hk|[-> ->]]%Hsplit.
    + rewrite (Hch k x Hk). destruct k as [|k]; [done|]. rewrite lookup_app_l; [done|]. apply lookup_lt_Some in Hk. lia.
    + rewrite Hd, Hl, last_lookup. destruct (length rs) as [|k] eqn:Hlen; [by destruct rs|]. cbn [pred]. rewrite lookup_app_l by lia. done.
Qed.

Lemma covers_ok root rs coverage : digestPattern root = true -> Forall prepared_ok rs -> Z.of_nat (length rs) <= MAX_PREPARED_OBJECTS -> rs <> [] ->
  covers root rs coverage -> summary_ok coverage /\ sum_objectCount coverage = Z.of_nat (length rs).
Proof.
  intros Hroot Ho Hn Hne (sorted & k & Hp & Hord & ([H1 H16] & Hle & _) & ->).
  assert (length sorted = length rs) as Hlen by (rewrite Hp; apply length_map).
  assert (Forall object_ok sorted) as Hok. { rewrite Hp. apply Forall_map. eapply Forall_impl; [exact Ho|]. by intros r []. }
  split.
  - apply canon_ok; [|intros ->; by destruct rs|done|lia]. split_and!; [done|done|]. unfold MAX_PREPARED_OBJECTS, MAX_SAFE_INTEGER in *. lia.
  - unfold canon, describe. cbn. lia.
Qed.

Lemma frozen_plain s r coverage : plain (state_value s) -> isSafeInteger (s_objectCount s) -> prepared_ok r -> summary_ok coverage ->
  plain (state_value (frozen s (mkPreparedRoot (po_binding r) (po_ciphertextId r)) coverage)).
Proof.
  intros Hp Hn [Hrp [Hid _] _ _ _] Hc. pose proof (plain_state s Hp) as (Hp1 & Hp2 & Hp3 & Hp4 & Hp5 & Hp6). unfold frozen. apply state_plain; try done.
  - unfold nullable, root_value. cbn [root_binding root_ciphertextId]. plain_record; [|by apply digest_units]. apply (plain_field (js "binding") _ _ Hrp); done.
  - by apply summary_plain.
Qed.

Lemma freeze_ok s rs r coverage : s_phase s = Captured -> r ∈ rs -> eb_objectKind (po_binding r) = KindPage -> covers (po_ciphertextId r) rs coverage ->
  journal_ok (mkJournal (Some s) rs) -> journal_ok (mkJournal (Some (frozen s (mkPreparedRoot (po_binding r) (po_ciphertextId r)) coverage)) rs).
Proof.
  intros Hphase Hr Hk Hcov [(Hs & Hp & Hc & Hl & Hph) Hn Ho Hids Hbs Hidx Hch]. cbn [j_head j_objects] in *.
  pose proof Ho as Ho'. rewrite Forall_forall in Ho'.
  split; cbn [j_head j_objects]; try done. split_and!; try done.
  - apply frozen_plain; [done| |by apply Ho'|].
    + rewrite Hc. apply safe_between. unfold MAX_PREPARED_OBJECTS, MAX_SAFE_INTEGER in *. lia.
    + eapply covers_ok; [apply (prep_object _ (Ho' r Hr))|done|done| |done]. intros ->. by apply elem_of_nil in Hr.
  - unfold phase_ok in *. rewrite Hphase in Hph. cbn. exists r, coverage. by split_and!; try apply Hph.
Qed.

Lemma cover_ok s rs receipt : s_phase s = Archived -> verifyPreparedCoverage (confirmed s receipt) = Ok tt ->
  journal_ok (mkJournal (Some s) rs) -> journal_ok (mkJournal (Some (confirmed s receipt)) rs).
Proof.
  intros Hphase Hv [(Hs & Hp & Hc & Hl & Hph) Hn Ho Hids Hbs Hidx Hch]. cbn [j_head j_objects] in *.
  pose proof (plain_state s Hp) as (Hp1 & Hp2 & Hp3 & Hp4 & Hp5 & Hp6). split; cbn [j_head j_objects]; try done. split_and!; try done.
  - unfold confirmed. apply state_plain; try done.
    + rewrite Hc. apply safe_between. unfold MAX_PREPARED_OBJECTS, MAX_SAFE_INTEGER in *. lia.
    + cbn [verifyPreparedCoverage confirmed s_phase s_coverage nullable] in Hv. apply bind_ok in Hv as (summary & Hv & _).
      unfold verifyArchiveCoverageChild in Hv. apply bind_ok in Hv as (c & Hcap & _). pose proof (child_inv _ _ Hcap) as ->. cbn [nullable]. by eapply child_plain.
  - unfold phase_ok in *. rewrite Hphase in Hph. cbn. destruct Hph as (r & coverage & ? & ? & ? & ? & ? & _). exists r, coverage. by split_and!.
Qed.

Lemma jstep_ok J J' : journal_ok J -> jstep J J' -> journal_ok J'.
Proof.
  intros Hok Hstep. destruct Hstep; [by apply capture_ok|by apply appended_ok|by apply freeze_ok|by apply cover_ok].
Qed.

Lemma reachable_journal_ok J : reachable J -> journal_ok J.
Proof.
  intros Hr. unfold reachable in Hr. remember emptyJournal as J0 eqn:He. assert (journal_ok J0) as Hok by (subst; split; cbn; try done; by constructor). clear He.
  induction Hr as [|J1 J2 J3 Hstep _ IH]; [done|]. apply IH. by eapply jstep_ok.
Qed.

(** ** Progress

    Every step raises the measure by one, so a journal that was seen twice with
    the same head did not change in between. *)
Definition phaseRank (phase : Phase) : Z := match phase with Captured => 0 | Archived => 1 | Covered => 2 end.
Definition measure (J : JournalState) : Z :=
  match j_head J with None => 0 | Some s => 1 + s_objectCount s + phaseRank (s_phase s) end.

Lemma jstep_measure J J' : jstep J J' -> measure J' = measure J + 1.
Proof. destruct 1; unfold measure; cbn; try lia; rewrite ?H1; cbn; lia. Qed.

Lemma steps_measure J J' : rtc jstep J J' -> measure J <= measure J' /\ (measure J = measure J' -> J = J').
Proof.
  induction 1 as [|J1 J2 J3 Hs _ [Hle _]]; [done|]. apply jstep_measure in Hs. split; [lia|]. intros. lia.
Qed.

Lemma same_head J J' : rtc jstep J J' -> j_head J = j_head J' -> J = J'.
Proof. intros Hs Hh. apply steps_measure in Hs as [_ Hs]. apply Hs. unfold measure. by rewrite Hh. Qed.

Lemma sandwich J J1 : rtc jstep J J1 -> rtc jstep J1 J -> J1 = J.
Proof. intros [H1' Heq]%steps_measure [H2' _]%steps_measure. symmetry. apply Heq. lia. Qed.

Lemma steps_objects J J' : rtc jstep J J' -> j_objects J `prefix_of` j_objects J'.
Proof.
  induction 1 as [|J1 J2 J3 Hs _ IH]; [done|]. etrans; [|exact IH]. destruct Hs; cbn; [done|by apply prefix_app_r|done|done].
Qed.

Lemma steps_source J J' s s' : rtc jstep J J' -> j_head J = Some s -> j_head J' = Some s' -> s_source s = s_source s'.
Proof.
  intros Hs. revert s. induction Hs as [J|J1 J2 J3 Hstep Hs IH]; intros s Hj Hj'; [congruence|].
  destruct Hstep; cbn [j_head] in *; try done; injection Hj as <-; exact (IH _ eq_refl Hj').
Qed.

(** An object whose index was below the count of a head is one of that head. *)
Lemma steps_known J J' s r : reachable J -> rtc jstep J J' -> j_head J = Some s -> r ∈ j_objects J' -> po_index r < s_objectCount s -> r ∈ j_objects J.
Proof.
  intros Hr Hs Hh [n Hn]%list_elem_of_lookup Hi. pose proof (reachable_journal_ok J Hr) as Hok. assert (reachable J') as [_ _ _ _ _ Hidx _]%reachable_journal_ok by (unfold reachable in *; by etrans).
  destruct Hok as [Hhead _ _ _ _ _ _]. rewrite Hh in Hhead. destruct Hhead as (_ & _ & Hc & _ & _). rewrite (Hidx n r Hn), Hc in Hi.
  apply steps_objects in Hs as [more Hm]. rewrite Hm, lookup_app_l in Hn by lia. by eapply list_elem_of_lookup_2.
Qed.

(** ** The records in the persistence *)
Definition headName : list N := prefixText identity ++ js "head".
Definition objectName (id : list N) : list N := prefixText identity ++ js "object." ++ id.
Definition bindingName (digest : list N) : list N := prefixText identity ++ js "binding." ++ digest.
Definition orderName (index : Z) : list N := prefixText identity ++ js "order." ++ partKey index.
Definition referenceOf (r : HistoryPreparedObject) : list N := referenceText (mkReference (po_ciphertextId r) (recordDigest r)).

Definition withId (id : list N) (rs : list HistoryPreparedObject) : option HistoryPreparedObject :=
  List.find (fun r => bool_decide (po_ciphertextId r = id)) rs.
Definition withBinding (digest : list N) (rs : list HistoryPreparedObject) : option HistoryPreparedObject :=
  List.find (fun r => bool_decide (bindingDigest (po_binding r) = digest)) rs.

Record encodes (c : records) (J : JournalState) : Prop := {
  enc_reachable : reachable J;
  enc_head : c !! headName = stateText <$> j_head J;
  enc_object id : c !! objectName id = recordText <$> withId id (j_objects J);
  enc_binding digest : c !! bindingName digest = po_ciphertextId <$> withBinding digest (j_objects J);
  enc_order n : Z.of_nat n <= MAX_PREPARED_OBJECTS -> c !! orderName (Z.of_nat n) = referenceOf <$> j_objects J !! n }.

(** The records evolve by steps of the protocol; what happens under other keys does not matter. *)
Definition evolves (c c' : records) : Prop := forall J, encodes c J -> exists J', rtc jstep J J' /\ encodes c' J'.

#[export] Instance evolves_preorder : PreOrder evolves.
Proof.
  split.
  - intros c J HJ. by exists J.
  - intros c1 c2 c3 H12 H23 J HJ. destruct (H12 J HJ) as (J2 & Hs & HJ2). destruct (H23 J2 HJ2) as (J3 & Hs' & HJ3). exists J3. split; [by etrans|done].
Qed.

Definition inJournal (key : list N) : bool := startsWith key (prefixText identity).

Lemma startsWith_app p s : startsWith (p ++ s) p = true.
Proof. induction p as [|u p IH]; [by destruct s|]. cbn. by rewrite N.eqb_refl. Qed.

Lemma encodes_foreign c c' J : (forall key, inJournal key = true -> c' !! key = c !! key) -> encodes c J -> encodes c' J.
Proof.
  intros Hc [Hr Hh Ho Hb Hn]. split; [done|..]; intros; rewrite Hc by (apply startsWith_app); auto.
Qed.

Lemma evolves_foreign c key v : inJournal key = false -> evolves c (<[key := v]> c).
Proof.
  intros Hk J HJ. exists J. split; [done|]. eapply encodes_foreign; [|done]. intros key' Hk'. apply lookup_insert_ne. intros ->. congruence.
Qed.

(** *** Names are apart *)
Lemma name_apart a b x y : startsWith a b = false -> startsWith b a = false -> prefixText identity ++ a ++ x <> prefixText identity ++ b ++ y.
Proof.
  intros Ha Hb Heq%app_inv_head. revert b Ha Hb Heq. induction a as [|u a IH]; intros [|u' b] Ha Hb Heq; cbn in *; try done.
  injection Heq as -> Heq. rewrite N.eqb_refl in Ha, Hb. by apply (IH b).
Qed.

Lemma head_apart b y : startsWith (js "head") b = false -> startsWith b (js "head") = false -> headName <> prefixText identity ++ b ++ y.
Proof. intros Ha Hb. unfold headName. rewrite <-(app_nil_r (js "head")). by apply name_apart. Qed.

Lemma head_object id : headName <> objectName id.
Proof. by apply head_apart. Qed.
Lemma head_binding digest : headName <> bindingName digest.
Proof. by apply head_apart. Qed.
Lemma head_order index : headName <> orderName index.
Proof. by apply head_apart. Qed.
Lemma object_binding id digest : objectName id <> bindingName digest.
Proof. by apply name_apart. Qed.
Lemma object_order id index : objectName id <> orderName index.
Proof. by apply name_apart. Qed.
Lemma binding_order digest index : bindingName digest <> orderName index.
Proof. by apply name_apart. Qed.
Lemma objectName_inj id id' : objectName id = objectName id' -> id = id'.
Proof. unfold objectName. by intros ?%app_inv_head%app_inv_head. Qed.
Lemma bindingName_inj d d' : bindingName d = bindingName d' -> d = d'.
Proof. unfold bindingName. by intros ?%app_inv_head%app_inv_head. Qed.
Lemma orderName_inj i j : 0 <= i <= MAX_SAFE_INTEGER -> 0 <= j <= MAX_SAFE_INTEGER -> orderName i = orderName j -> i = j.
Proof.
  intros Hi Hj Heq%app_inv_head%app_inv_head. destruct (Z.lt_trichotomy i j) as [Hlt|[->|Hlt]]; [|done|].
  - pose proof (partKey_lt i j ltac:(lia) ltac:(lia)) as Hk. rewrite Heq, str_ltb_irrefl in Hk. done.
  - pose proof (partKey_lt j i ltac:(lia) ltac:(lia)) as Hk. rewrite Heq, str_ltb_irrefl in Hk. done.
Qed.

(** *** Finding records *)
Lemma withId_some id rs r : withId id rs = Some r -> r ∈ rs /\ po_ciphertextId r = id.
Proof. intros [Hin Hb]%List.find_some. split; [by apply list_elem_of_In|by apply bool_decide_eq_true in Hb]. Qed.

Lemma withId_none id rs : withId id rs = None -> id ∉ map po_ciphertextId rs.
Proof.
  intros Hn (r & -> & Hr)%list_elem_of_fmap. apply list_elem_of_In in Hr. apply (List.find_none _ _ Hn) in Hr. by rewrite bool_decide_eq_true_2 in Hr.
Qed.

Lemma withBinding_some digest rs r : withBinding digest rs = Some r -> r ∈ rs /\ bindingDigest (po_binding r) = digest.
Proof. intros [Hin Hb]%List.find_some. split; [by apply list_elem_of_In|by apply bool_decide_eq_true in Hb]. Qed.

Lemma withBinding_none digest rs : withBinding digest rs = None -> digest ∉ bindings rs.
Proof.
  intros Hn (r & -> & Hr)%list_elem_of_fmap. apply list_elem_of_In in Hr. apply (List.find_none _ _ Hn) in Hr. by rewrite bool_decide_eq_true_2 in Hr.
Qed.

Lemma find_snoc {A} (f : A -> bool) l x : List.find f (l ++ [x]) = match List.find f l with Some y => Some y | None => if f x then Some x else None end.
Proof. induction l as [|y l IH]; cbn; [by destruct (f x)|]. destruct (f y); [done|exact IH]. Qed.

(** *** Steps and their writes *)
Lemma encodes_head c s s' rs : encodes c (mkJournal s rs) -> reachable (mkJournal (Some s') rs) -> encodes (<[headName := stateText s']> c) (mkJournal (Some s') rs).
Proof.
  intros [_ _ Ho Hb Hn] Hr. split; cbn [j_head j_objects] in *; [done|..].
  - by rewrite lookup_insert_eq.
  - intros id. rewrite lookup_insert_ne by apply head_object. apply Ho.
  - intros d. rewrite lookup_insert_ne by apply head_binding. apply Hb.
  - intros n Hmax. rewrite lookup_insert_ne by apply head_order. by apply Hn.
Qed.

Lemma encodes_append c s rs r : encodes c (mkJournal (Some s) rs) -> s_phase s = Captured -> s_objectCount s < MAX_PREPARED_OBJECTS -> prepared_ok r ->
  po_index r = s_objectCount s -> po_previousDigest r = s_objectDigest s ->
  c !! objectName (po_ciphertextId r) = None -> c !! bindingName (bindingDigest (po_binding r)) = None ->
  jstep (mkJournal (Some s) rs) (mkJournal (Some (grown s (recordDigest r))) (rs ++ [r])) /\
  encodes (<[orderName (po_index r) := referenceOf r]> (<[objectName (po_ciphertextId r) := recordText r]>
    (<[bindingName (bindingDigest (po_binding r)) := po_ciphertextId r]> (<[headName := stateText (grown s (recordDigest r))]> c))))
    (mkJournal (Some (grown s (recordDigest r))) (rs ++ [r])).
Proof.
  intros Henc Hphase Hmax Hok Hi Hd Hfo Hfb. pose proof Henc as [Hr _ Ho Hb Hn]. cbn [j_head j_objects] in *.
  rewrite Ho in Hfo. apply fmap_None in Hfo. rewrite Hb in Hfb. apply fmap_None in Hfb.
  assert (jstep (mkJournal (Some s) rs) (mkJournal (Some (grown s (recordDigest r))) (rs ++ [r]))) as Hstep.
  { constructor; try done; [by apply withId_none|by apply withBinding_none]. }
  split; [done|]. destruct (reachable_journal_ok _ Hr) as [(_ & _ & Hc & _) Hsize _ _ _ _ _]. cbn [j_head j_objects] in *.
  split; cbn [j_head j_objects].
  - unfold reachable in *. by eapply rtc_r.
  - rewrite !lookup_insert_ne by (apply not_eq_sym; first [apply head_order|apply head_object|apply head_binding]). by rewrite lookup_insert_eq.
  - intros id. rewrite lookup_insert_ne by apply not_eq_sym, object_order. unfold withId. rewrite find_snoc. fold (withId id rs).
    destruct (decide (id = po_ciphertextId r)) as [->|Hne].
    + rewrite lookup_insert_eq, Hfo. by rewrite bool_decide_eq_true_2.
    + rewrite lookup_insert_ne by (intros ?%objectName_inj; congruence). rewrite !lookup_insert_ne by first [apply not_eq_sym, object_binding|apply head_object].
      rewrite Ho. destruct (withId id rs); [done|]. by rewrite bool_decide_eq_false_2.
  - intros d. rewrite !lookup_insert_ne by first [apply not_eq_sym, binding_order|apply object_binding]. unfold withBinding. rewrite find_snoc. fold (withBinding d rs).
    destruct (decide (d = bindingDigest (po_binding r))) as [->|Hne].
    + rewrite lookup_insert_eq, Hfb. by rewrite bool_decide_eq_true_2.
    + rewrite lookup_insert_ne by (intros ?%bindingName_inj; congruence). rewrite lookup_insert_ne by apply head_binding.
      rewrite Hb. destruct (withBinding d rs); [done|]. by rewrite bool_decide_eq_false_2.
  - intros n Hle. destruct (decide (n = length rs)) as [->|Hne].
    + rewrite Hi, Hc, lookup_insert_eq, lookup_app_r, Nat.sub_diag by lia. done.
    + rewrite lookup_insert_ne.
      * rewrite !lookup_insert_ne by first [apply object_order|apply binding_order|apply head_order]. rewrite Hn by done.
        destruct (decide (n < length rs)%nat); [by rewrite lookup_app_l|]. rewrite !lookup_ge_None_2; [done|rewrite length_app; cbn; lia|lia].
      * intros Heq%orderName_inj; unfold MAX_PREPARED_OBJECTS, MAX_SAFE_INTEGER in *; lia.
Qed.

(** *** The records determine the journal *)
Lemma withId_member rs r : NoDup (map po_ciphertextId rs) -> r ∈ rs -> withId (po_ciphertextId r) rs = Some r.
Proof.
  intros Hn Hr. induction rs as [|x rs IH]; [by apply elem_of_nil in Hr|]. cbn [map] in Hn. apply NoDup_cons in Hn as [Hx Hn]. unfold withId in *. cbn [List.find].
  apply elem_of_cons in Hr as [->|Hr]; [by rewrite bool_decide_eq_true_2|]. rewrite bool_decide_eq_false_2; [by apply IH|].
  intros Heq. apply Hx. rewrite Heq. apply list_elem_of_fmap. by exists r.
Qed.

Lemma reference_id r r' : prepared_ok r -> prepared_ok r' -> referenceOf r = referenceOf r' -> po_ciphertextId r = po_ciphertextId r'.
Proof.
  intros [_ [Hid _] _ _ _] [_ [Hid' _] _ _ _] Heq.
  assert (forall x, digestPattern (recordDigest x) = true) as Hd by (intros; apply Is_true_true, sha256Base64Url_pattern).
  apply text_same in Heq; [|by apply reference_plain..]. field "ciphertextId" of Heq as H1. by injection H1.
Qed.

Lemma encodes_unique c J J' : encodes c J -> encodes c J' -> J = J'.
Proof.
  intros [Hr Hh Ho _ Hn] [Hr' Hh' Ho' _ Hn']. destruct (reachable_journal_ok J Hr) as [Hok Hs Hall Hids _ _ _], (reachable_journal_ok J' Hr') as [Hok' Hs' Hall' Hids' _ _ _].
  rewrite Hh in Hh'. destruct J as [[s|] rs], J' as [[s'|] rs']; cbn [j_head j_objects fmap option_fmap option_map] in *; try done; [|by subst].
  apply (inj Some) in Hh' as Ht. destruct Hok as (Hi & Hp & Hc & _), Hok' as (Hi' & Hp' & Hc' & _).
  assert (s = s') as <- by (apply normal_state_inj; [by apply text_same|congruence]). f_equal.
  apply list_eq_same_length with (length rs); [lia|done|]. intros n r r' Hlt Hr1 Hr2.
  assert (Z.of_nat n <= MAX_PREPARED_OBJECTS) as Hmax by (apply lookup_lt_Some in Hr1; lia).
  rewrite Forall_forall in Hall, Hall'. assert (r ∈ rs) as Hin by by eapply list_elem_of_lookup_2. assert (r' ∈ rs') as Hin' by by eapply list_elem_of_lookup_2.
  pose proof (Hn n Hmax) as H1. rewrite (Hn' n Hmax), Hr1, Hr2 in H1. apply (inj Some) in H1. pose proof (reference_id r' r (Hall' r' Hin') (Hall r Hin) H1) as Hid.
  pose proof (Ho (po_ciphertextId r)) as H2. rewrite (Ho' (po_ciphertextId r)), (withId_member rs r Hids Hin), <-Hid, (withId_member rs' r' Hids' Hin') in H2. apply (inj Some) in H2.
  symmetry. apply normal_prepared_inj, text_same; [apply (Hall' r' Hin')|apply (Hall r Hin)|done].
Qed.
End Protocol.
