(* ===== verification/JournalSafe.v ===== *)
(** * History preparation: the journal follows its protocol

    Whatever the ports answer, and whoever else uses the same journal in between, the
    operations of the journal change its records only by steps of the protocol
    of [JournalSpec], and what they return is what those records say. *)
From stdpp Require Import base numbers list gmap strings sets sorting.
From Stdlib Require Import ZArith NArith Lia.
From S2P Require Import Prelude Unicode Json Base64 Digest Envelope Js ProfileValue Profile Recovery.
From S2P Require Import Archive ArchiveSize ArchiveRead ArchiveBytes ArchiveStore Coverage CoverageSet ArchiveCrypto ArchiveFrame Preparation Journal JournalSpec.
Local Open Scope js_scope.
Local Open Scope Z_scope.

(** The host: its persistence is one store of records with atomic reads and
    conditional writes, that others change too, but under the names of
    this journal only by steps of the protocol; anything may fail.  A write whose
    call throws may have happened. *)
Class JournalHost `{Sha256} `{Ed25519} (identity : HistoryPreparationIdentity) (W : Type) `{HistoryPreparationPersistence W} `{Randomness W} `{HistoryPreparationRemote W} := {
  contents : W -> records;
  host_read key w : exists c, evolves identity (contents w) c /\ evolves identity c (contents (journal_read key w).2) /\
    forall v, (journal_read key w).1 = Ok v -> c !! key = v;
  host_scan family after limit w : evolves identity (contents w) (contents (journal_scan family after limit w).2);
  host_swap conditions writes guard w : (forall w, evolves identity (contents w) (contents (guard w).2)) ->
    let called := journal_compareAndSwap conditions writes guard w in
    (called.1 <> Ok true /\ evolves identity (contents w) (contents called.2)) \/
    exists c, evolves identity (contents w) c /\ Forall (fun kv => c !! kv.1 = kv.2) conditions /\
      evolves identity (foldl (fun c kv => <[kv.1 := kv.2]> c) c writes) (contents called.2);
  host_guard w : evolves identity (contents w) (contents (journal_guard w).2);
  host_uuid w : evolves identity (contents w) (contents (randomUUID w).2) /\
    forall u, (randomUUID w).1 = Ok u -> length u = 36%nat /\ forallb urlChar u = true;
  host_nonce w : evolves identity (contents w) (contents (randomNonce w).2) /\
    forall n, (randomNonce w).1 = Ok n -> length n = 12%nat /\ Forall isByte n;
  host_upload object request w : evolves identity (contents w) (contents (remote_upload object request w).2);
  host_coverage objects request w : evolves identity (contents w) (contents (remote_coverage objects request w).2);
  host_aggregate root children request w : evolves identity (contents w) (contents (remote_aggregate root children request w).2) }.

Lemma sameJson_true v v' : plain v -> plain v' -> sameJson v v' = true -> same v v'.
Proof. intros Hp Hp' Heq%bool_decide_eq_true. by apply canonText_normal. Qed.

(** One step over the operation that heads a computation. *)
Ltac sbind tac := eapply safe_bind; [exact _|tac|]; cbv beta.
Ltac sret := apply safe_ret; [exact _|].
Ltac slift := eapply safe_bind; [exact _|apply safe_lift, _|]; cbv beta.
Ltac srequire := eapply safe_bind; [exact _|apply safe_require, _|]; cbv beta.

Section Safe.
Context `{Sha256} `{Ed25519} `{Platform} `{!Wrapping} `{!RawKeys} {W : Type} `{HistoryPreparationPersistence W} `{Randomness W} `{HistoryPreparationRemote W}.
Context (identity : HistoryPreparationIdentity) {host : JournalHost identity W}.
Hypothesis identity_plain : plain (identity_value identity).

Abbreviation step := (jstep identity).
Abbreviation steps := (rtc (jstep identity)).

Definition le (w w' : W) : Prop := evolves identity (contents w) (contents w').

#[local] Instance le_preorder : PreOrder le.
Proof. split; [intros w; unfold le; reflexivity|]. intros w1 w2 w3 H12 H23. unfold le in *. by etrans. Qed.

(** [J] is a state the journal had before now. *)
Definition since (w : W) (J : JournalState) : Prop := exists J', steps J J' /\ encodes identity (contents w) J'.
Definition seen (J : JournalState) (w : W) (J1 : JournalState) : Prop := steps J J1 /\ reachable identity J1 /\ since w J1.

Lemma since_le w w' J : le w w' -> since w J -> since w' J.
Proof. intros Hle (J' & Hs & HJ). destruct (Hle J' HJ) as (J2 & Hs' & HJ2). exists J2. split; [by etrans|done]. Qed.

Lemma seen_le J w w' J1 : le w w' -> seen J w J1 -> seen J w' J1.
Proof. intros Hle (Hs & Hr & Hn). split_and!; [done|done|by eapply since_le]. Qed.

Lemma seen_trans J J1 w w' J2 : seen J w J1 -> seen J1 w' J2 -> seen J w' J2.
Proof. intros (Hs & _) (Hs' & Hr & Hn). split_and!; [by etrans|done|done]. Qed.

(** *** The ports *)
Lemma guard_moves : moves le current.
Proof. unfold current. assert (moves le journal_guard) by exact host_guard. moves. Qed.

Lemma read_moves key : moves le (journal_read key).
Proof. intros w. destruct (host_read key w) as (c & H1' & H2' & _). unfold le. by etrans. Qed.

Lemma scan_moves family after limit : moves le (journal_scan family after limit).
Proof. exact (host_scan family after limit). Qed.

Lemma read_at key J w0 (P : option (list N) -> JournalState -> Prop) : since w0 J ->
  (forall c J', steps J J' -> encodes identity c J' -> P (c !! key) J') ->
  safe le w0 (journal_read key) (fun v w => exists J', seen J w J' /\ P v J').
Proof.
  intros Hn HP w Hw. split; [apply read_moves|]. intros v Hv. destruct (host_read key w) as (c & H1' & H2' & Hc). rewrite <-(Hc v Hv).
  destruct (since_le _ _ _ Hw Hn) as (J0 & Hs0 & HJ0). destruct (H1' J0 HJ0) as (J1 & Hs1 & HJ1). exists J1. split.
  - split_and!; [by etrans|by destruct HJ1|]. destruct (H2' J1 HJ1) as (J2 & Hs2 & HJ2). by exists J2.
  - apply HP; [by etrans|done].
Qed.

Lemma current_safe w0 : safe le w0 current (fun _ _ => True).
Proof. apply moves_safe, guard_moves. Qed.

Lemma prefix_safe w0 : safe le w0 (prefix identity) (fun p _ => p = prefixText identity).
Proof. unfold prefix. eapply safe_bind; [exact _|apply current_safe|]. intros ? w _ _. apply safe_ret; [exact _|done]. Qed.

Lemma bindingKey_safe b w0 : safe le w0 (bindingKey identity b) (fun key _ => key = bindingName identity (bindingDigest b)).
Proof. unfold bindingKey. eapply safe_bind; [exact _|apply prefix_safe|]. intros ? w _ ->. apply safe_ret; [exact _|done]. Qed.
Lemma orderKey_safe i w0 : safe le w0 (orderKey identity i) (fun key _ => key = orderName identity i).
Proof. unfold orderKey. eapply safe_bind; [exact _|apply prefix_safe|]. intros ? w _ ->. apply safe_ret; [exact _|done]. Qed.
Lemma objectKey_safe id w0 : safe le w0 (objectKey identity id) (fun key _ => key = objectName identity id).
Proof. unfold objectKey. eapply safe_bind; [exact _|apply prefix_safe|]. intros ? w _ ->. apply safe_ret; [exact _|done]. Qed.

(** *** Reading *)
Definition isHead (h : Head) (J : JournalState) : Prop :=
  j_head J = Some (h_state h) /\ h_key h = headName identity /\ h_raw h = stateText (h_state h) /\ parsePreparationState (h_raw h) identity = Ok (h_state h).

(** A state with the text of a head is the state of that head. *)
Lemma head_unique h s J : parsePreparationState (h_raw h) identity = Ok (h_state h) -> reachable identity J -> j_head J = Some s -> stateText s = h_raw h -> s = h_state h.
Proof.
  intros Hp Hr Hj Ht. destruct (reachable_journal_ok identity identity_plain J Hr) as [Hok _ _ _ _ _ _]. rewrite Hj in Hok. destruct Hok as (Hi & Hpl & _).
  symmetry. apply (parse_state_inv s (h_state h) (h_raw h) Hpl); [done|]. by rewrite Hi.
Qed.

Lemma headOptional_safe J w0 : since w0 J ->
  safe le w0 (headOptional identity) (fun h w => exists J1, seen J w J1 /\ match h with None => j_head J1 = None | Some h => isHead h J1 end).
Proof.
  intros Hn. unfold headOptional. sbind ltac:(apply current_safe). intros _ w1 Hw1 _. sbind ltac:(apply prefix_safe). intros p w2 Hw2 ->. cbv zeta.
  sbind ltac:(eapply (read_at _ J _ (fun v J1 => v = stateText <$> j_head J1)); [eapply since_le; [|eapply since_le]; done|]).
  { intros c J' _ HJ. apply (enc_head _ _ _ HJ). }
  intros raw w3 Hw3 (J1 & HJ1 & ->). sbind ltac:(apply current_safe). intros _ w4 Hw4 _. destruct (j_head J1) as [s|] eqn:Hj; cbn [fmap option_fmap option_map].
  - slift. intros state w5 Hw5 Hp. slift. intros ? w6 Hw6 _. sbind ltac:(apply current_safe). intros _ w7 Hw7 _. sret. intros w8 Hw8.
    assert (le w3 w8) as Hle by (do 5 (etrans; [eassumption|]); reflexivity). exists J1. split; [by eapply seen_le|].
    assert (s = state) as <- by (apply (head_unique (mkHead (headName identity) (stateText s) state) s J1); [done|apply HJ1|done|done]). done.
  - sret. intros w5 Hw5. exists J1. split; [|done]. eapply seen_le; [|done]. by etrans.
Qed.

Lemma head_safe J w0 : since w0 J -> safe le w0 (head identity) (fun h w => exists J1, seen J w J1 /\ isHead h J1).
Proof.
  intros Hn. unfold head. sbind ltac:(by apply headOptional_safe). intros [h|] w1 Hw1 (J1 & HJ1 & Hh); [|apply safe_throw, _]. sret. intros w2 Hw2.
  exists J1. split; [by eapply seen_le|done].
Qed.

Lemma record_unique raw r r' J id : reachable identity J -> withId id (j_objects J) = Some r -> raw = recordText r -> verifyPreparedObject raw identity = Ok r' -> r' = r.
Proof.
  intros Hr [Hin _]%withId_some -> (o & Ho & Hi)%bind_ok. revert Hi. guard_passed as Hg. intros [= <-].
  destruct (reachable_journal_ok identity identity_plain J Hr) as [_ _ Hall _ _ _ _]. rewrite Forall_forall in Hall. destruct (Hall r Hin) as [Hp _ _ _ _]. by eapply parse_object_inv.
Qed.

Lemma readObject_safe J id count w0 : since w0 J ->
  safe le w0 (readObject identity id count) (fun p w => exists J1, seen J w J1 /\ p.1 ∈ j_objects J1 /\ po_ciphertextId p.1 = id /\ po_index p.1 < count /\ p.2 = recordDigest p.1).
Proof.
  intros Hn. unfold readObject. slift. intros ? w1 Hw1 _. sbind ltac:(apply objectKey_safe). intros ? w2 Hw2 ->.
  sbind ltac:(eapply (read_at _ J _ (fun v J1 => v = recordText <$> withId id (j_objects J1))); [eapply since_le; [|eapply since_le]; done|]).
  { intros c J' _ HJ. apply (enc_object _ _ _ HJ). }
  intros raw w3 Hw3 (J1 & HJ1 & ->). sbind ltac:(apply current_safe). intros _ w4 Hw4 _.
  destruct (withId id (j_objects J1)) as [r|] eqn:Hr; cbn [fmap option_fmap option_map]; [|apply safe_throw, _].
  slift. intros record w5 Hw5 Hrec. assert (record = r) as -> by (eapply record_unique; [apply HJ1|exact Hr|reflexivity|exact Hrec]).
  apply withId_some in Hr as [Hin Hid]. srequire. intros _ w6 Hw6 [_ Hi%Z.ltb_lt]%andb_true_iff. sbind ltac:(apply orderKey_safe). intros ? w7 Hw7 ->.
  sbind ltac:(apply moves_safe, read_moves). intros ordinal w8 Hw8 _. sbind ltac:(apply current_safe). intros _ w9 Hw9 _. destruct ordinal as [ordinal|]; [|apply safe_throw, _].
  slift. intros reference w10 Hw10 _. srequire. intros _ w11 Hw11 [_ Hd%bool_decide_eq_true]%andb_true_iff. sbind ltac:(apply current_safe). intros _ w12 Hw12 _. sret. intros w13 Hw13.
  exists J1. split_and!; try done. eapply seen_le; [|exact HJ1]. do 10 (etrans; [eassumption|]). reflexivity.
Qed.

Lemma existing_safe J b count w0 : plain (binding_value b) -> since w0 J ->
  safe le w0 (existing identity b count) (fun o w => exists J1, seen J w J1 /\ forall r, o = Some r -> r ∈ j_objects J1 /\ po_index r < count /\ po_binding r = b).
Proof.
  intros Hb Hn. unfold existing. sbind ltac:(apply bindingKey_safe). intros ? w1 Hw1 ->.
  sbind ltac:(eapply (read_at _ J _ (fun _ _ => True)); [by eapply since_le|done]). intros id w2 Hw2 (J1 & HJ1 & _).
  sbind ltac:(apply current_safe). intros _ w3 Hw3 _. destruct id as [id|].
  2: { sret. intros w4 Hw4. exists J1. split; [|done]. eapply seen_le; [|done]. by etrans. }
  assert (since w3 J1) as Hn1 by (eapply since_le; [done|apply HJ1]). sbind ltac:(apply (readObject_safe J1); exact Hn1).
  intros [item digest] w4 Hw4 (J2 & HJ2 & Hin & _ & Hi & _). cbn [fst] in *. srequire. intros _ w5 Hw5 Hs. sret. intros w6 Hw6.
  exists J2. split; [eapply seen_trans; [exact HJ1|]; eapply seen_le; [|exact HJ2]; by etrans|]. intros r [= <-]. split_and!; [done|done|].
  destruct (reachable_journal_ok identity identity_plain J2 (proj1 (proj2 HJ2))) as [_ _ Hall _ _ _ _]. rewrite Forall_forall in Hall. destruct (Hall item Hin) as [Hp _ _ _ _].
  apply normal_binding_inj, sameJson_true; [|done|done]. apply (plain_field (js "binding") _ _ Hp); done.
Qed.

(** *** Conditional writes *)
Definition applied (c : records) (writes : list (list N * list N)) : records := foldl (fun c kv => <[kv.1 := kv.2]> c) c writes.

Lemma swap_step J conditions writes w0 (P : JournalState -> Prop) : since w0 J ->
  (forall c J2, steps J J2 -> encodes identity c J2 -> Forall (fun kv => c !! kv.1 = kv.2) conditions ->
    exists J', steps J2 J' /\ encodes identity (applied c writes) J' /\ P J') ->
  safe le w0 (journal_compareAndSwap conditions writes current) (fun swapped w => swapped = true -> exists J', seen J w J' /\ P J').
Proof.
  intros Hn Hstep w Hw. pose proof (host_swap conditions writes current w guard_moves) as Hswap. cbv zeta in Hswap.
  destruct (since_le _ _ _ Hw Hn) as (J2 & Hs2 & HJ2).
  destruct Hswap as [[Hno Hle]|(c & Hc & Hcond & Hle)]; [split; [exact Hle|congruence]|].
  destruct (Hc J2 HJ2) as (J3 & Hs3 & HJ3). destruct (Hstep c J3 ltac:(by etrans) HJ3 Hcond) as (J' & Hst & Henc & HP).
  destruct (Hle J' Henc) as (J4 & Hs4 & HJ4). split.
  - intros Jx HJx. assert (Jx = J2) as -> by by eapply encodes_unique. exists J4. split; [|done]. etrans; [exact Hs3|]. by etrans.
  - intros ? _ _. exists J'. split; [|done]. split_and!; [etrans; [exact Hs2|]; by etrans|apply Henc|by exists J4].
Qed.

Lemma head_again h J J2 c : isHead h J -> steps J J2 -> encodes identity c J2 -> c !! h_key h = Some (h_raw h) -> J2 = J.
Proof.
  intros (Hj & Hk & Hr & Hp) Hs HJ Hc. rewrite Hk, (enc_head _ _ _ HJ) in Hc. destruct (j_head J2) as [s|] eqn:Hj2; [|done]. apply (inj Some) in Hc.
  symmetry. eapply same_head; [exact Hs|]. rewrite Hj, Hj2. f_equal. symmetry. apply (head_unique h s J2); [done|apply HJ|done|done].
Qed.

Lemma save_safe h state J J1 w0 : isHead h J -> reachable identity J -> seen J w0 J1 -> plain (state_value state) -> s_identity state = identity ->
  (J1 = J -> step J (mkJournal (Some state) (j_objects J))) ->
  safe le w0 (save identity h state) (fun st w => st = state /\ exists J', seen J w J' /\ j_head J' = Some state).
Proof.
  intros Hh HrJ Hseen Hp Hi Hstep. unfold save. cbv zeta. slift. intros parsed w1 Hw1 _. sbind ltac:(apply current_safe). intros _ w2 Hw2 _.
  assert (seen J w2 J1) as (Hs1 & Hr1 & Hn1) by (eapply seen_le; [|exact Hseen]; by etrans).
  sbind ltac:(eapply (swap_step J1 _ _ _ (fun J' => j_head J' = Some state)); [exact Hn1|]).
  { intros c J2 Hs2 HJ2 [Hc _]%Forall_cons. cbn [fst snd] in Hc. assert (J2 = J) as -> by (eapply head_again; [exact Hh|by etrans|exact HJ2|exact Hc]).
    assert (J1 = J) as -> by by eapply sandwich. exists (mkJournal (Some state) (j_objects J)). specialize (Hstep eq_refl). split_and!; [by apply rtc_once| |done].
    cbn [applied foldl fst snd]. destruct Hh as (_ & -> & _). destruct J as [s rs]. eapply encodes_head; [exact HJ2|]. unfold reachable in *. by eapply rtc_r. }
  intros swapped w3 Hw3 Hsw. destruct swapped.
  - destruct (Hsw eq_refl) as (J' & HJ' & Hj'). sbind ltac:(apply current_safe). intros _ w4 Hw4 _. sret. intros w5 Hw5. split; [done|]. exists J'. split; [|done].
    eapply (seen_le _ w3); [by etrans|]. by eapply (seen_trans _ _ w2); [|exact HJ'].
  - sbind ltac:(apply (head_safe J1); by eapply since_le). intros winner w4 Hw4 (J2 & HJ2 & Hw & _ & Hraw & _). case_bool_decide as Hsame; [|apply safe_throw, _].
    sret. intros w5 Hw5. pose proof (reachable_journal_ok identity identity_plain J2 (proj1 (proj2 HJ2))) as [Hok _ _ _ _ _ _]. rewrite Hw in Hok. destruct Hok as (Hi2 & Hp2 & _).
    assert (h_state winner = state) as Heq by (apply normal_state_inj; [apply text_same; [done|done|]; unfold stateText in *; congruence|congruence]).
    split; [done|]. exists J2. split; [|by rewrite Hw, Heq]. eapply seen_le; [exact Hw5|]. by eapply (seen_trans _ _ w2); [|exact HJ2].
Qed.

Lemma append_safe h J record w0 : isHead h J -> reachable identity J -> since w0 J -> s_phase (h_state h) = Captured -> s_objectCount (h_state h) < MAX_PREPARED_OBJECTS ->
  prepared_ok identity record -> po_index record = s_objectCount (h_state h) -> po_previousDigest record = s_objectDigest (h_state h) ->
  safe le w0 (append identity h (bindingName identity (bindingDigest (po_binding record))) record)
    (fun swapped w => swapped = true -> exists J', seen J w J' /\ record ∈ j_objects J').
Proof.
  intros Hh HrJ Hn Hphase Hmax Hok Hi Hd. unfold append. cbv zeta. sbind ltac:(apply objectKey_safe). intros ? w1 Hw1 ->. sbind ltac:(apply orderKey_safe). intros ? w2 Hw2 ->.
  sbind ltac:(apply current_safe). intros _ w3 Hw3 _.
  eapply (swap_step J _ _ _ (fun J' => record ∈ j_objects J')); [eapply since_le; [|exact Hn]; etrans; [exact Hw1|]; by etrans|].
  intros c J2 Hs2 HJ2 Hcond. apply Forall_cons in Hcond as [Hc Hcond]. apply Forall_cons in Hcond as [Hb Hcond]. apply Forall_cons in Hcond as [Ho _]. cbn [fst snd] in *.
  assert (J2 = J) as -> by by eapply head_again. destruct Hh as (Hj & Hk & _ & _). destruct J as [s rs]. cbn [j_head] in Hj. subst s.
  destruct (encodes_append identity identity_plain c (h_state h) rs record HJ2 Hphase Hmax Hok Hi Hd Ho Hb) as [Hst Henc].
  exists (mkJournal (Some (grown (h_state h) (recordDigest record))) (rs ++ [record])). split_and!; [by apply rtc_once| |cbn; set_solver].
  cbn [applied foldl fst snd]. rewrite Hk. exact Henc.
Qed.

(** *** Staging *)
Lemma binding_captured input b : plain input -> capturePreparationBinding input identity = Ok b -> binding_ok b /\ plain (binding_value b).
Proof.
  intros Hp (b' & Hb & H')%bind_ok. revert H'. guard_passed as Hg. intros [= <-]. pose proof (bindingSnapshot_ok _ _ Hb) as Hok. split; [done|].
  unfold bindingSnapshot in Hb. apply bind_ok in Hb as (? & _ & Hb). apply bind_ok in Hb as (ws & Hws%context_text_inv & Hb). apply bind_ok in Hb as (idx & Hidx%context_text_inv & Hb).
  apply bind_ok in Hb as (ep & _ & Hb). apply bind_ok in Hb as (pc & _ & Hb). apply bind_ok in Hb as (id & _ & Hb). destruct (kindOf _); [|done]. destruct (safeInt _); [|done].
  revert Hb. guard_passed as Hx. intros [= <-]. apply binding_plain; [done|..]; cbn.
  - exact (plain_field (js "workspaceId") _ _ Hp Hws ltac:(done)).
  - exact (plain_field (js "indexId") _ _ Hp Hidx ltac:(done)).
Qed.

(** A ciphertext for the scope of the preparation. *)
Definition sealed_ok (sealed : SealedArchiveObject) : Prop :=
  encrypted_ok (sealed_object sealed) /\ sealed_ciphertextId sealed = ciphertextIdOf (sealed_object sealed) /\
  enc_scopeId (sealed_object sealed) = scopeId_of identity /\ enc_keyEpoch (sealed_object sealed) = st_keyEpoch (hp_storage identity).

Lemma new_record_ok h J binding request sealed : isHead h J -> reachable identity J -> plain (binding_value binding) -> units request -> sealed_ok sealed ->
  prepared_ok identity (mkPrepared (s_objectCount (h_state h)) (s_objectDigest (h_state h)) binding request sealed).
Proof.
  intros (Hj & _) Hr Hb Hu (Ho & Hid & Hs & He). destruct (reachable_journal_ok identity identity_plain J Hr) as [Hok Hsize _ _ _ _ _]. rewrite Hj in Hok. destruct Hok as (_ & Hp & Hc & _ & _).
  assert (digestPattern (sealed_ciphertextId sealed) = true) as Hpat by (rewrite Hid; apply Is_true_true, sha256Base64Url_pattern).
  split; cbn [po_sealed]; try done.
  - apply prepared_plain; [|apply (plain_state _ Hp)|done|done|by apply sealed_plain]. rewrite Hc. apply safe_between. unfold MAX_PREPARED_OBJECTS, MAX_SAFE_INTEGER in *. lia.
  - split; [done|]. apply Ho.
Qed.

(** The ciphertext of [r] opens for its binding. *)
Definition opens (scope : ArchiveEncryptionScope) (binding : ArchiveEncryptionBinding) (r : HistoryPreparedObject) : Prop :=
  exists plaintext, openArchiveObject scope (binding_value binding) (po_ciphertextId r) (encrypted_value (sealed_object (po_sealed r))) = Ok plaintext /\
    sha256Base64Url plaintext = eb_objectId binding.

Lemma opened scope binding r plaintext : binding_ok binding ->
  openArchiveObject scope (binding_value binding) (po_ciphertextId r) (encrypted_value (sealed_object (po_sealed r))) = Ok plaintext -> opens scope binding r.
Proof.
  intros Hb Ho. exists plaintext. split; [done|]. apply openArchive_ok in Ho as (b & o & Hb' & _ & _ & Hh & _). rewrite bindingSnapshot_value in Hb' by done. by injection Hb' as <-.
Qed.

(** A record of the journal under [binding]. *)
Definition staged (J : JournalState) (binding : ArchiveEncryptionBinding) (r : HistoryPreparedObject) (w : W) : Prop :=
  exists J', seen J w J' /\ r ∈ j_objects J' /\ po_binding r = binding.

Lemma staged_le J b r w w' : le w w' -> staged J b r w -> staged J b r w'.
Proof. intros Hle (J' & HJ & Hr). exists J'. split; [by eapply seen_le|done]. Qed.

Lemma staged_seen J J1 w b r w' : seen J w J1 -> staged J1 b r w' -> staged J b r w'.
Proof. intros Hs (J' & HJ & Hr). exists J'. split; [by eapply seen_trans|done]. Qed.

Lemma nonce_safe w0 : safe le w0 randomNonce (fun n _ => length n = 12%nat /\ Forall isByte n).
Proof. intros w _. apply host_nonce. Qed.

Section Stage.
Variables (scope : ArchiveEncryptionScope) (binding : ArchiveEncryptionBinding) (bytes : list N).
Hypothesis scope_fits : scope_ok scope.
Hypothesis scope_is : scopeMatches identity scope = true.
Hypothesis binding_fits : binding_ok binding.
Hypothesis binding_json : plain (binding_value binding).

Definition sealed_here (sealed : SealedArchiveObject) : Prop :=
  sealed_ok sealed /\ openArchiveObject scope (binding_value binding) (sealed_ciphertextId sealed) (encrypted_value (sealed_object sealed)) = Ok bytes.

Lemma sealOnce_safe sealed w0 : Forall isByte bytes -> byteLength bytes <= maximum binding -> sha256Base64Url bytes = eb_objectId binding ->
  (forall s, sealed = Some s -> sealed_here s) -> safe le w0 (sealOnce scope binding bytes sealed) (fun s _ => sealed_here s).
Proof.
  intros Hb Hmax Hid Hs. destruct sealed as [s|]; cbn [sealOnce]; [sret; intros; by apply Hs|].
  sbind ltac:(apply nonce_safe). intros nonce w1 Hw1 [Hl Hn].
  destruct (seal_total scope binding bytes nonce) as (s & Hseal & Hok & Hscope & Hepoch & Hcid & Hopen); try done. rewrite Hseal.
  intros w Hw. split; [reflexivity|]. intros ? [= <-]. split; [|done]. unfold scopeMatches in scope_is. bool_to_prop. split_and!; [done|done|congruence|congruence].
Qed.

Lemma requestOnce_safe request w0 : (forall u, request = Some u -> units u) -> safe le w0 (requestOnce request) (fun u _ => units u).
Proof.
  intros Hu. destruct request as [u|]; cbn [requestOnce]; [sret; intros; by apply Hu|]. intros w Hw. destruct (host_uuid w) as [Hle Hu']. split; [exact Hle|].
  intros u Hr. apply urlChars_units. by apply Hu'.
Qed.

Lemma stageAttempts_safe attempts sealed request J w0 : Forall isByte bytes -> byteLength bytes <= maximum binding -> sha256Base64Url bytes = eb_objectId binding ->
  (forall s, sealed = Some s -> sealed_here s) -> (forall u, request = Some u -> units u) -> since w0 J ->
  safe le w0 (stageAttempts identity attempts scope binding bytes (bindingName identity (bindingDigest binding)) sealed request)
    (fun r w => staged J binding r w /\ opens scope binding r).
Proof.
  intros Hb Hmax Hid. revert sealed request J w0. induction attempts as [|attempts IH]; intros sealed request J w0 Hs Hu Hn; cbn [stageAttempts]; [apply safe_throw, _|].
  sbind ltac:(by apply head_safe). intros h w1 Hw1 (J1 & HJ1 & Hh). cbv zeta. sbind ltac:(apply (existing_safe J1); [done|apply HJ1]). intros found w2 Hw2 (J2 & HJ2 & Hfound).
  destruct found as [saved|].
  - destruct (Hfound saved eq_refl) as (Hin & _ & Hbind). slift. intros plaintext w3 Hw3 Ho. sbind ltac:(apply current_safe). intros _ w4 Hw4 _. sret. intros w5 Hw5.
    split; [|by eapply opened]. eapply staged_seen; [exact HJ1|]. eapply (staged_le _ _ _ w2); [etrans; [exact Hw3|]; by etrans|]. by exists J2.
  - srequire. intros _ w3 Hw3 Hphase%bool_decide_eq_true. srequire. intros _ w4 Hw4 Hcount%Z.ltb_lt. sbind ltac:(by apply sealOnce_safe). intros s w5 Hw5 Hs5.
    sbind ltac:(by apply requestOnce_safe). intros u w6 Hw6 Hu6. assert (since w6 J1) as Hn6.
    { eapply since_le; [|apply HJ1]. do 4 (etrans; [eassumption|]). done. }
    set (record := mkPrepared _ _ _ _ _). assert (prepared_ok identity record) as Hrec by (eapply new_record_ok; [done|apply HJ1|done|done|apply Hs5]).
    sbind ltac:(by apply (append_safe h J1 record); [|apply HJ1|..]). intros swapped w7 Hw7 Hsw. destruct swapped.
    + destruct (Hsw eq_refl) as (J3 & HJ3 & Hin). sbind ltac:(apply current_safe). intros _ w8 Hw8 _. sret. intros w9 Hw9.
      split; [|destruct Hs5 as [_ Ho]; by apply (opened _ _ record bytes)]. eapply staged_seen; [exact HJ1|]. eapply (staged_le _ _ _ w7); [by etrans|]. by exists J3.
    + eapply safe_weaken; [exact _|apply (IH (Some s) (Some u) J1); [by intros ? [= <-]|by intros ? [= <-]|by eapply since_le]|]. cbv beta. intros r w8 Hw8 [Hr Ho]. split; [by eapply staged_seen|done].
Qed.

Lemma stageSealedAttempts_safe attempts sealed J w0 : sealed_ok sealed -> since w0 J ->
  safe le w0 (stageSealedAttempts identity attempts binding (bindingName identity (bindingDigest binding)) sealed) (fun r w => staged J binding r w /\ po_sealed r = sealed).
Proof.
  intros Hs. revert J w0. induction attempts as [|attempts IH]; intros J w0 Hn; cbn [stageSealedAttempts]; [apply safe_throw, _|].
  sbind ltac:(by apply head_safe). intros h w1 Hw1 (J1 & HJ1 & Hh). cbv zeta. sbind ltac:(apply (existing_safe J1); [done|apply HJ1]). intros found w2 Hw2 (J2 & HJ2 & Hfound).
  destruct found as [saved|].
  - destruct (Hfound saved eq_refl) as (Hin & _ & Hbind). srequire. intros _ w3 Hw3 [Hid%bool_decide_eq_true Hsame]%andb_true_iff. sret. intros w4 Hw4. split.
    + eapply staged_seen; [exact HJ1|]. eapply (staged_le _ _ _ w2); [by etrans|]. by exists J2.
    + destruct (reachable_journal_ok identity identity_plain J2 (proj1 (proj2 HJ2))) as [_ _ Hall _ _ _ _]. rewrite Forall_forall in Hall. destruct (Hall saved Hin) as [Hp _ _ _ _].
      pose proof (plain_field (js "sealed") _ _ Hp eq_refl ltac:(done)) as Hps. change (getOpt _ _) with (sealed_value (po_sealed saved)) in Hps.
      pose proof (plain_field (js "object") _ _ Hps eq_refl ltac:(done)) as Hpo. change (getOpt _ _) with (encrypted_value (sealed_object (po_sealed saved))) in Hpo.
      apply sameJson_true in Hsame; [|done|apply encrypted_plain, Hs]. apply normal_encrypted_inj in Hsame. unfold po_ciphertextId in Hid. destruct (po_sealed saved), sealed. cbn in *. congruence.
  - srequire. intros _ w3 Hw3 Hphase%bool_decide_eq_true. srequire. intros _ w4 Hw4 Hcount%Z.ltb_lt.
    sbind ltac:(apply (requestOnce_safe None); done). intros u w6 Hw6 Hu6. assert (since w6 J1) as Hn6.
    { eapply since_le; [|apply HJ1]. do 3 (etrans; [eassumption|]). done. }
    set (record := mkPrepared _ _ _ _ _). assert (prepared_ok identity record) as Hrec by (eapply new_record_ok; [done|apply HJ1|done|done|done]).
    sbind ltac:(by apply (append_safe h J1 record); [|apply HJ1|..]). intros swapped w7 Hw7 Hsw. destruct swapped.
    + destruct (Hsw eq_refl) as (J3 & HJ3 & Hin). sbind ltac:(apply current_safe). intros _ w8 Hw8 _. sret. intros w9 Hw9.
      split; [|done]. eapply staged_seen; [exact HJ1|]. eapply (staged_le _ _ _ w7); [by etrans|]. by exists J3.
    + eapply safe_weaken; [exact _|apply (IH J1); by eapply since_le|]. cbv beta. intros r w8 Hw8 [Hr Ho]. split; [by eapply staged_seen|done].
Qed.
End Stage.

Lemma stage_safe scopeInput bindingInput bytes J w0 : plain bindingInput -> Forall isByte bytes -> since w0 J ->
  safe le w0 (stage identity scopeInput bindingInput bytes) (fun r w => exists b, capturePreparationBinding bindingInput identity = Ok b /\ staged J b r w /\ opens scopeInput b r).
Proof.
  intros Hp Hb Hn. unfold stage. slift. intros scope w1 Hw1 [-> Hs]%scopeSnapshot_ok. slift. intros b w2 Hw2 Hcap. destruct (binding_captured _ _ Hp Hcap) as [Hok Hpb].
  srequire. intros _ w3 Hw3 Hsize%negb_true_iff. sbind ltac:(apply current_safe). intros _ w4 Hw4 _. srequire. intros _ w5 Hw5 [Hm Hid%bool_decide_eq_true]%andb_true_iff.
  sbind ltac:(apply bindingKey_safe). intros ? w6 Hw6 ->. eapply safe_weaken; [exact _|apply (stageAttempts_safe scopeInput b bytes Hs Hm Hok Hpb _ _ _ J); try done|].
  - unfold maximum, MAX_ARCHIVE_PART_BYTES, MAX_ARCHIVE_PAGE_BYTES. apply orb_false_iff in Hsize as [H1'%Z.ltb_ge H2']. destruct (eb_objectKind b); cbn in H2'; [apply Z.ltb_ge in H2'|apply Z.ltb_ge in H2'|]; lia.
  - eapply since_le; [|exact Hn]. do 5 (etrans; [eassumption|]). done.
  - cbv beta. intros r w7 _ [Hr Ho]. by exists b.
Qed.

Lemma stageSealed_safe scopeInput bindingInput sealed J w0 : plain bindingInput -> since w0 J ->
  safe le w0 (stageSealed identity scopeInput bindingInput sealed) (fun r w => exists b, capturePreparationBinding bindingInput identity = Ok b /\ staged J b r w /\ po_sealed r = sealed).
Proof.
  intros Hp Hn. unfold stageSealed. slift. intros scope w1 Hw1 [-> Hs]%scopeSnapshot_ok. slift. intros b w2 Hw2 Hcap. destruct (binding_captured _ _ Hp Hcap) as [Hok Hpb].
  slift. intros ? w3 Hw3 _. slift. intros plaintext w4 Hw4 Ho. sbind ltac:(apply current_safe). intros _ w5 Hw5 _. srequire. intros _ w6 Hw6 Hm.
  sbind ltac:(apply bindingKey_safe). intros ? w7 Hw7 ->. eapply safe_weaken; [exact _|apply (stageSealedAttempts_safe b Hpb _ sealed J)|].
  - apply openArchive_ok in Ho as (b' & o & _ & Hcapture & Hepoch & _ & Hid). pose proof (captureEncrypted_ok _ _ _ Hcapture) as [Hscope Heok].
    assert (o = sealed_object sealed) as -> by (apply (encrypted_inv (sealed_object sealed) o (scope_scopeId scopeInput)); exact Hcapture).
    unfold scopeMatches in Hm. bool_to_prop. split_and!; [done|congruence|congruence|congruence].
  - eapply since_le; [|exact Hn]. do 6 (etrans; [eassumption|]). done.
  - cbv beta. intros r w8 _ [Hr Hsl]. by exists b.
Qed.

(** *** Scans *)
Lemma startsWith_split key family : startsWith key family = true -> key = family ++ drop (length family) key.
Proof.
  revert key. induction family as [|u family IH]; intros [|x key]; cbn [startsWith length drop app]; try done. intros [->%N.eqb_eq H']%andb_true_iff. by rewrite <-IH.
Qed.

Lemma sorted_snoc {A} (R : A -> A -> Prop) l y : (forall a b c, R a b -> R b c -> R a c) -> StronglySorted R l -> (forall z, last l = Some z -> R z y) -> StronglySorted R (l ++ [y]).
Proof.
  intros Htrans. induction 1 as [|x l Hl IH Hx]; intros Hlast; cbn [app]; [repeat constructor|]. constructor.
  - apply IH. intros z Hz. apply Hlast. by destruct l.
  - apply Forall_app. split; [done|]. constructor; [|constructor]. destruct (last l) as [z|] eqn:Hz.
    + apply (Htrans x z); [|apply Hlast; by destruct l]. rewrite Forall_forall in Hx. by apply Hx, last_Some_elem_of.
    + apply last_None in Hz as ->. by apply Hlast.
Qed.

Section Scanned.
Context {A B : Type}.
Variables (errors : ScanErrors) (family : list N) (captured : HistoryPreparationState) (J : JournalState).
Variables (rowItem : list N -> list N -> M W B) (body : A -> B -> M W A).
Variables (R : list N -> B -> Prop) (P : A -> list (list N * B) -> Prop).
Hypothesis row_safe : forall suffix text w0, since w0 J -> safe le w0 (rowItem suffix text) (fun b _ => R suffix b).
Hypothesis body_safe : forall a items k b w0, since w0 J -> P a items -> R k b -> Z.of_nat (length items) < s_objectCount captured ->
  safe le w0 (body a b) (fun a' _ => P a' (items ++ [(k, b)])).

(** The rows visited so far, in order of their keys. *)
Definition visited (after : option (list N)) (count : Z) (a : A) (items : list (list N * B)) : Prop :=
  P a items /\ Forall (fun kb => R kb.1 kb.2) items /\ count = Z.of_nat (length items) /\ count <= s_objectCount captured /\
  StronglySorted (fun k k' => Is_true (str_ltb (family ++ k) (family ++ k'))) (map fst items) /\ after = (fun kb => family ++ kb.1) <$> last items.

Lemma eachRow_safe rows after count a items w0 : since w0 J -> visited after count a items ->
  safe le w0 (eachRow errors family captured rowItem body rows after count a)
    (fun r _ => exists items', visited r.1.1 r.1.2 r.2 items').
Proof.
  revert after count a items w0. induction rows as [|[key text] rows IH]; intros after count a items w0 Hn Hv; cbn [eachRow]; [sret; intros; by exists items|].
  srequire. intros _ w1 Hw1 [Hkey Hord]%andb_true_iff. apply startsWith_split in Hkey. set (k := drop (length family) key) in *.
  assert (since w1 J) as Hn1 by by eapply since_le. sbind ltac:(by apply row_safe). intros b w2 Hw2 HR. srequire. intros _ w3 Hw3 Hc%Z.leb_le.
  destruct Hv as (HP & HRs & Hcount & Hle & Hsort & Hafter).
  assert (since w3 J) as Hn3 by (eapply since_le; [|exact Hn1]; by etrans). sbind ltac:(apply (body_safe a items k b); [done|done|done|lia]). intros a' w4 Hw4 HP'.
  apply (IH (Some key) (count + 1) a' (items ++ [(k, b)])); [by eapply since_le|]. split_and!; [done| |rewrite length_app; cbn; lia|lia| |by rewrite last_snoc, Hkey].
  - apply Forall_app. split; [done|by constructor].
  - rewrite map_app. apply sorted_snoc; [intros x y z; apply str_ltb_trans|done|]. intros z Hz. rewrite Hafter in Hord. change (map fst items) with (fst <$> items) in Hz. rewrite fmap_last in Hz.
    destruct (last items) as [[k' b']|]; [|done]. cbn in Hz, Hord. injection Hz as <-. cbn [fst]. rewrite <-Hkey. by apply Is_true_true.
Qed.

Lemma eachPage_safe fuel after count a items w0 : since w0 J -> visited after count a items ->
  safe le w0 (eachPage errors family captured rowItem body fuel after count a) (fun r _ => exists after' items', visited after' r.1 r.2 items').
Proof.
  revert after count a items w0. induction fuel as [|fuel IH]; intros after count a items w0 Hn Hv; cbn [eachPage]; [apply safe_throw, _|].
  sbind ltac:(apply current_safe). intros _ w1 Hw1 _. sbind ltac:(apply moves_safe, scan_moves). intros page w2 Hw2 _. sbind ltac:(apply current_safe). intros _ w3 Hw3 _.
  srequire. intros _ w4 Hw4 _. assert (since w4 J) as Hn4 by (eapply since_le; [|exact Hn]; do 3 (etrans; [eassumption|]); done).
  sbind ltac:(by eapply eachRow_safe). intros [[after' count'] a'] w5 Hw5 (items' & Hv'). cbn [fst snd] in *. destruct (sp_nextAfter page).
  - srequire. intros _ w6 Hw6 _. eapply IH; [eapply since_le; [|exact Hn4]; by etrans|done].
  - sret. intros w6 Hw6. cbn [fst snd]. by exists after', items'.
Qed.

Lemma scanAll_safe key raw a w0 : since w0 J -> P a [] -> 0 <= s_objectCount captured ->
  safe le w0 (scanAll errors family captured rowItem body key raw a) (fun a' _ => exists items, P a' items /\ Forall (fun kb => R kb.1 kb.2) items /\
    Z.of_nat (length items) = s_objectCount captured /\ StronglySorted (fun k k' => Is_true (str_ltb (family ++ k) (family ++ k'))) (map fst items)).
Proof.
  intros Hn HP H0'. unfold scanAll. sbind ltac:(eapply eachPage_safe; [done|]; split_and!; [exact HP|constructor|done|done|constructor|done]).
  intros [count a'] w1 Hw1 (after & items & HP' & HR & Hc & Hle & Hsort & _). cbn [fst snd] in *. destruct (count =? s_objectCount captured) eqn:Heq; [|sbind ltac:(apply safe_throw, _); by instantiate (1 := fun _ _ => False)].
  apply Z.eqb_eq in Heq. sbind ltac:(apply moves_safe; pose proof read_moves; moves). intros _ w2 Hw2 _.
  sbind ltac:(apply current_safe). intros _ w3 Hw3 _. sret. intros w4 Hw4. exists items. split_and!; [done|done|lia|done].
Qed.
End Scanned.

Lemma head_count h J : isHead h J -> reachable identity J -> s_objectCount (h_state h) = Z.of_nat (length (j_objects J)) /\ Z.of_nat (length (j_objects J)) <= MAX_PREPARED_OBJECTS.
Proof. intros (Hj & _) Hr. destruct (reachable_journal_ok identity identity_plain J Hr) as [Hok Hs _ _ _ _ _]. rewrite Hj in Hok. destruct Hok as (_ & _ & Hc & _). done. Qed.

Lemma objectRow_safe h J id text w0 : isHead h J -> reachable identity J -> since w0 J ->
  safe le w0 (objectRow identity (h_state h) id text) (fun r _ => r ∈ j_objects J /\ po_ciphertextId r = id).
Proof.
  intros Hh Hr Hn. unfold objectRow. sbind ltac:(by apply (readObject_safe J)). intros [r d] w1 Hw1 (J1 & HJ1 & Hin & Hid & Hi & _). cbn [fst] in *.
  srequire. intros _ w2 Hw2 _. sret. intros w3 Hw3. split; [|done]. destruct Hh as (Hj & _). eapply (steps_known identity identity_plain); [done|apply HJ1|done|done|done].
Qed.

Section Objects.
Context {A : Type}.
Variables (body : A -> HistoryPreparedObject -> M W A) (P : A -> list HistoryPreparedObject -> Prop).
Hypothesis body_safe : forall a items r w0, P a items -> prepared_ok identity r -> Z.of_nat (length items) < MAX_PREPARED_OBJECTS ->
  safe le w0 (body a r) (fun a' _ => P a' (items ++ [r])).

(** A loop over the objects visits exactly those of the journal, once each. *)
Lemma objects_safe a J w0 : since w0 J -> P a [] ->
  safe le w0 (objects identity body a) (fun a' w => exists J1 items, seen J w J1 /\ P a' items /\ items ≡ₚ j_objects J1).
Proof.
  intros Hn HP. unfold objects. sbind ltac:(by apply head_safe). intros h w1 Hw1 (J1 & HJ1 & Hh). sbind ltac:(apply prefix_safe). intros ? w2 Hw2 ->.
  pose proof HJ1 as (_ & Hr1 & Hn1). destruct (head_count h J1 Hh Hr1) as [Hc Hmax].
  destruct (reachable_journal_ok identity identity_plain J1 Hr1) as [_ _ Hall Hids _ _ _]. rewrite Forall_forall in Hall.
  eapply safe_weaken; [exact _|apply (scanAll_safe _ _ (h_state h) J1 _ _ (fun id r => r ∈ j_objects J1 /\ po_ciphertextId r = id) (fun a items => P a (map snd items)))|].
  - intros suffix text w3 Hn3. by apply objectRow_safe.
  - intros a' items k r w3 _ HP' [Hin _] Hlt. eapply safe_weaken; [exact _|apply (body_safe a' (map snd items) r); [done|by apply Hall|rewrite length_map; lia]|].
    cbv beta. intros a'' w4 _ HP''. by rewrite map_app.
  - by eapply since_le.
  - done.
  - lia.
  - cbv beta. intros a' w3 Hw3 (items & HP' & HR & Hlen & Hsort). exists J1, (map snd items). split_and!; [eapply seen_le; [|exact HJ1]; by etrans|done|].
    assert (map po_ciphertextId (map snd items) = map fst items) as Hfst.
    { clear -HR. induction HR as [|[k r] items [_ Hk] _ IH]; [done|]. cbn in *. by rewrite Hk, IH. }
    assert (NoDup (map fst items)) as Hnd.
    { clear -Hsort. induction Hsort as [|k ks _ IH Hk]; constructor; [|done]. intros Hin. rewrite Forall_forall in Hk. specialize (Hk k Hin). by rewrite str_ltb_irrefl in Hk. }
    apply submseteq_length_Permutation; [|rewrite length_map; lia]. apply NoDup_submseteq; [|].
    + apply (NoDup_fmap_1 po_ciphertextId). change (fmap po_ciphertextId) with (map po_ciphertextId). by rewrite Hfst.
    + intros r (kb & -> & Hkb)%list_elem_of_fmap. rewrite Forall_forall in HR. by apply (HR kb Hkb).
Qed.
End Objects.

(** *** The expected coverage *)
Lemma runs_moves_safe {A} (m : M W A) (Q : A -> Prop) w0 : moves le m -> (forall w, runs (fun _ => True) m w (fun a _ => Q a)) -> safe le w0 m (fun a _ => Q a).
Proof. intros Hm Hr w _. split; [apply Hm|]. intros a Ha. specialize (Hr w). unfold runs in Hr. destruct (m w) as [[b|] w1]; [|done]. cbn in Ha. by injection Ha as ->. Qed.

Section Derive.
Variable root : list N.
Hypothesis root_pattern : digestPattern root = true.
Abbreviation noFactory := (noEvidence (W := W)).
Abbreviation free := (fun _ _ => True).

Definition readSoFar (r : Reading (T := unit)) (items : list HistoryPreparedObject) : Prop :=
  reading root free r (map coverageObject items) /\ countable (map coverageObject items).

Lemma noEvidence_leaf batch s : moves le (leaf noFactory batch s).
Proof. cbn [leaf noEvidence]. moves. Qed.
Lemma noEvidence_branch children s : moves le (branch noFactory children s).
Proof. cbn [branch noEvidence]. moves. Qed.

Lemma readEntry_safe r items x w0 : readSoFar r items -> prepared_ok identity x -> Z.of_nat (length items) < MAX_PREPARED_OBJECTS ->
  safe le w0 (readEntry root noFactory r (object_value (coverageObject x))) (fun r' _ => readSoFar r' (items ++ [x])).
Proof.
  intros [Hr Hc] [_ Hok _ _ _] Hmax w _. split; [by apply readEntry_moves; [exact _|apply noEvidence_leaf|apply noEvidence_branch]|]. intros r' Hres.
  destruct (readEntry root noFactory r (object_value (coverageObject x)) w) as [res w'] eqn:Hread. cbn in Hres. subst res.
  pose proof (captureObject_value _ Hok) as Hcap. destruct (readEntry_valid root noFactory r r' _ w w' Hread) as (o & Hcap' & _ & Hlt).
  rewrite Hcap in Hcap'. injection Hcap' as <-. assert (countable (map coverageObject (items ++ [x]))) as Hc'.
  { destruct Hc as (Ho & Hord & Hlen). rewrite map_app. cbn [map]. split_and!.
    - apply Forall_app. split; [done|by constructor].
    - apply sorted_snoc; [intros a b c; apply str_ltb_trans|done|]. intros z Hz. destruct Hr as (pre & _ & _ & _ & Hprev). rewrite Hprev, Hz in Hlt. exact Hlt.
    - rewrite length_app, length_map. cbn. unfold MAX_PREPARED_OBJECTS, MAX_SAFE_INTEGER in *. lia. }
  split; [|done]. rewrite map_app in *. cbn [map] in *.
  pose proof (readEntry_runs root root_pattern noFactory free (fun _ => False) ltac:(intros; by apply runs_ret) ltac:(intros; by apply runs_ret) r (map coverageObject items) _ _ w Hr Hcap Hc') as Hruns.
  unfold runs in Hruns. by rewrite Hread in Hruns.
Qed.

Lemma conclude_safe r items w0 : readSoFar r items ->
  safe le w0 (conclude root noFactory r) (fun node _ => exists k, topHeight k (map coverageObject items) /\ summary node = canon root k (map coverageObject items)).
Proof.
  intros [Hr Hc]. apply runs_moves_safe; [by apply conclude_moves; [exact _|apply noEvidence_leaf|apply noEvidence_branch]|]. intros w. destruct items as [|x items].
  - destruct Hr as (pre & Heq & _ & _ & Hprev). cbn in Heq, Hprev. symmetry in Heq. apply app_eq_nil in Heq as [_ Hnil]. unfold conclude. rewrite Hnil. cbn [length Nat.eqb].
    apply runs_bind, runs_ret, runs_bind. by rewrite Hprev.
  - eapply runs_weaken; [apply (conclude_runs root root_pattern noFactory free (fun _ => True) ltac:(intros; by apply runs_ret) ltac:(intros; by apply runs_ret) r (map coverageObject (x :: items)) w Hr Hc); done|].
    intros node _ (k & Hk & Hs & _). by exists k.
Qed.
End Derive.

Lemma derive_safe root J w0 : digestPattern root = true -> since w0 J ->
  safe le w0 (deriveFrom root (expected identity)) (fun s w => exists J1, seen J w J1 /\ covers root (j_objects J1) s).
Proof.
  intros Hroot Hn. unfold deriveFrom, reduceSet, expected.
  sbind ltac:(eapply (safe_weaken _ _ _ (fun node w => exists J1, seen J w J1 /\ covers root (j_objects J1) (summary node))); [|intros ? ? _ Hx; exact Hx]).
  2: { intros node w1 Hw1 (J1 & HJ1 & Hc). sret. intros w2 Hw2. exists J1. split; [by eapply seen_le|done]. }
  slift. intros ? w1 Hw1 _. sbind ltac:(apply (objects_safe _ (readSoFar root)); [|by eapply since_le|]).
  - intros r items x w2 Hr Hok Hmax. by apply readEntry_safe.
  - split; [apply reading_start|]. split_and!; [constructor|constructor|done].
  - intros r w2 Hw2 (J1 & items & HJ1 & Hr & Hperm). eapply safe_weaken; [exact _|by eapply conclude_safe|]. cbv beta. intros node w3 Hw3 (k & Hk & Hs).
    exists J1. split; [by eapply seen_le|]. exists (map coverageObject items), k. split_and!; [by apply Permutation_map|apply Hr|done|done].
Qed.

(** *** The stored source *)
#[local] Existing Instance sourcePersistence.
#[local] Existing Instance sourceStore.
#[local] Existing Instance coveragePort.

Lemma source_foreign id : inJournal identity (ArchiveStore.objectKey (sourcePartition identity) id) = false.
Proof. reflexivity. Qed.

Lemma source_write_moves id bytes : moves le (store_write (ArchiveObjectStore := sourceStore identity) id bytes).
Proof.
  apply objectStore_write_moves; [exact _|exact read_moves|exact guard_moves|]. intros next w. cbn [persistence_compareAndSwap sourcePersistence].
  pose proof (host_swap [(ArchiveStore.objectKey (sourcePartition identity) id, None)] [(ArchiveStore.objectKey (sourcePartition identity) id, next)] current w guard_moves) as Hs. cbv zeta in Hs.
  destruct Hs as [[_ Hle]|(c & Hc & _ & Hle)]; [exact Hle|]. unfold le. etrans; [exact Hc|]. etrans; [|exact Hle]. cbn [foldl fst snd]. apply evolves_foreign, source_foreign.
Qed.

Lemma source_read_moves id maximum binding : moves le (store_read (ArchiveObjectStore := sourceStore identity) id maximum binding).
Proof. cbn [store_read sourceStore createArchiveObjectStore]. exact (objectStore_read_moves le read_moves guard_moves (sourcePartition identity) id maximum). Qed.

Lemma readSource_moves visit : moves le (head identity) -> (forall part, moves le (visit part)) -> moves le (readSource identity visit).
Proof.
  intros Hh Hv. unfold readSource. apply moves_bind; [exact _|done|intros h]. apply forArchiveBytes_moves; [exact _|exact source_read_moves|done].
Qed.

(** *** Everything that only reads *)
Lemma prefix_moves : moves le (prefix identity).
Proof. pose proof guard_moves. unfold prefix. moves. Qed.

Lemma headOptional_moves : moves le (headOptional identity).
Proof. pose proof guard_moves. pose proof prefix_moves. pose proof read_moves. unfold headOptional. moves. Qed.

Lemma head_moves : moves le (head identity).
Proof. pose proof headOptional_moves. unfold head. moves. Qed.

Lemma readObject_moves id count : moves le (readObject identity id count).
Proof. pose proof guard_moves. pose proof prefix_moves. pose proof read_moves. unfold readObject, objectKey, orderKey. moves. Qed.

Lemma chain_moves remaining index count digest : moves le (chain identity remaining index count digest).
Proof.
  pose proof guard_moves. pose proof prefix_moves. pose proof read_moves. pose proof readObject_moves.
  revert index digest. induction remaining as [|remaining IH]; intros index digest; cbn [chain]; unfold orderKey; moves.
Qed.

Section ScanMoves.
Context {A B : Type} (errors : ScanErrors) (family : list N) (captured : HistoryPreparationState) (rowItem : list N -> list N -> M W B) (body : A -> B -> M W A).
Hypothesis row_moves : forall suffix text, moves le (rowItem suffix text).
Hypothesis body_moves : forall a b, moves le (body a b).

Lemma eachRow_moves rows after count a : moves le (eachRow errors family captured rowItem body rows after count a).
Proof. revert after count a. induction rows as [|[key text] rows IH]; intros after count a; cbn [eachRow]; moves. Qed.

Lemma eachPage_moves fuel after count a : moves le (eachPage errors family captured rowItem body fuel after count a).
Proof.
  pose proof guard_moves. pose proof scan_moves. pose proof eachRow_moves. revert after count a. induction fuel as [|fuel IH]; intros after count a; cbn [eachPage]; moves.
Qed.

Lemma scanAll_moves key raw a : moves le (scanAll errors family captured rowItem body key raw a).
Proof.
  pose proof guard_moves. pose proof read_moves. unfold scanAll. apply moves_bind; [exact _|apply eachPage_moves|intros [count a']]. moves.
Qed.
End ScanMoves.

Lemma objects_moves {A} (body : A -> HistoryPreparedObject -> M W A) a : (forall a r, moves le (body a r)) -> moves le (objects identity body a).
Proof.
  intros Hb. pose proof head_moves. pose proof prefix_moves. unfold objects. apply moves_bind; [exact _|done|intros h]. apply moves_bind; [exact _|done|intros p].
  apply scanAll_moves; [|done]. intros suffix text. pose proof readObject_moves. unfold objectRow. moves.
Qed.

Lemma locators_moves {A} (body : A -> ArchiveLocatorEntry -> M W A) a : (forall a r, moves le (body a r)) -> moves le (locators identity body a).
Proof.
  intros Hb. pose proof head_moves. pose proof prefix_moves. unfold locators. apply moves_bind; [exact _|done|intros h]. apply moves_bind; [exact _|done|intros p]. apply moves_bind; [exact _|moves|intros _].
  apply scanAll_moves; [|done]. intros suffix text. pose proof readObject_moves. pose proof guard_moves. unfold locatorRow. moves.
Qed.

Lemma readPrepared_moves id : moves le (readPreparedObject identity id).
Proof. pose proof guard_moves. pose proof headOptional_moves. pose proof prefix_moves. pose proof read_moves. pose proof readObject_moves. unfold readPreparedObject, objectKey. moves. Qed.

Lemma upload_moves u r : moves le (uploadOne identity u r).
Proof. pose proof guard_moves. assert (forall o q, moves le (remote_upload o q)) by exact host_upload. unfold uploadOne. moves. Qed.

Lemma confirm_moves authority root transition : moves le (confirmFrom authority root transition (expected identity)).
Proof.
  apply confirmFrom_moves; [exact _|exact host_coverage|exact host_aggregate|exact guard_moves|]. intros body r Hb. unfold expected. by apply objects_moves.
Qed.
End Safe.
