(* ===== verification/JournalClaims.v ===== *)
(** * History preparation: what the journal guarantees

    The whole operations of the journal against its protocol: the records follow the
    protocol whatever is called and whatever fails, what was staged is kept and
    reused, and a journal that is covered holds the receipt for exactly
    its objects. *)
From stdpp Require Import base numbers list gmap strings sets sorting.
From Stdlib Require Import ZArith NArith Lia.
From S2P Require Import Prelude Unicode Json Base64 Digest Envelope Js ProfileValue Profile Recovery.
From S2P Require Import Archive ArchiveSize ArchiveRead ArchiveBytes ArchiveStore Coverage CoverageSet ArchiveCrypto ArchiveFrame Preparation Journal JournalSpec JournalSafe.
Local Open Scope js_scope.
Local Open Scope Z_scope.

(** ** The rounds of a scan

    Every round but the last visits a row, and more than [objectCount] rows are
    refused, so [pageFuel] rounds are enough for any source of pages. *)
Section Rounds.
Context {W : Type} `{HistoryPreparationPersistence W} {A B : Type}.
Variables (errors : ScanErrors) (family : list N) (captured : HistoryPreparationState).
Variables (rowItem : list N -> list N -> M W B) (body : A -> B -> M W A).

Lemma eachRow_counts rows after count a after' count' a' w w' : eachRow errors family captured rowItem body rows after count a w = (Ok (after', count', a'), w') ->
  count' = count + Z.of_nat (length rows) /\ (rows <> [] -> count' <= s_objectCount captured).
Proof.
  revert after count a w. induction rows as [|[key text] rows IH]; intros after count a w; cbn [eachRow].
  { intros [= _ <- _ _]. cbn. split; [lia|done]. }
  unfold mbind, M_bind, requireM, require, liftM. destruct (_ && _); [|done]. destruct (rowItem _ _ _) as [[item|] w1]; [|done].
  destruct (count + 1 <=? s_objectCount captured) eqn:Hc; [|done]. destruct (body _ _ _) as [[a1|] w2]; [|done]. intros [-> Hle]%IH. apply Z.leb_le in Hc. cbn [length].
  split; [lia|]. intros _. destruct rows; [cbn in *; lia|by apply Hle].
Qed.

Lemma eachPage_enough fuel after count a w : (Z.to_nat (s_objectCount captured - count) < fuel)%nat ->
  eachPage errors family captured rowItem body (S fuel) after count a w = eachPage errors family captured rowItem body fuel after count a w.
Proof.
  revert after count a w. induction fuel as [|fuel IH]; intros after count a w Hfuel; [lia|].
  remember (S fuel) as more eqn:Hmore. rewrite Hmore at 2. cbn [eachPage]. subst more. unfold mbind, M_bind, requireM, liftM.
  destruct (current w) as [[] w1]; [|done]. destruct (journal_scan _ _ _ w1) as [[page|] w2]; [|done]. destruct (current w2) as [[] w3]; [|done].
  destruct (require (_ && _) _); [|done]. destruct (eachRow _ _ _ _ _ _ _ _ _ w3) as [[[[after' count'] a']|] w4] eqn:Hrow; [|done].
  destruct (sp_nextAfter page); [|done]. unfold require. destruct (length (sp_entries page) =? 0)%nat eqn:H0; cbn [negb]; [done|]. apply Nat.eqb_neq in H0.
  apply eachRow_counts in Hrow as [-> Hle]. rewrite IH; [done|]. destruct (sp_entries page) as [|row rows]; [done|]. specialize (Hle ltac:(done)). cbn [length] in *. lia.
Qed.

(** More rounds than [pageFuel] change nothing. *)
Lemma scan_rounds more a w : (pageFuel captured <= more)%nat ->
  eachPage errors family captured rowItem body more None 0 a w = eachPage errors family captured rowItem body (pageFuel captured) None 0 a w.
Proof.
  intros Hmore. induction Hmore as [|more Hmore IH]; [done|]. rewrite <-IH. apply eachPage_enough. unfold pageFuel in Hmore. rewrite Z.sub_0_r. lia.
Qed.
End Rounds.

Section Operations.
Context `{Sha256} `{Ed25519} `{Platform} `{!Wrapping} `{!RawKeys} {W : Type} `{HistoryPreparationPersistence W} `{Randomness W} `{HistoryPreparationRemote W}.
Context (identity : HistoryPreparationIdentity) {host : JournalHost identity W}.
Hypothesis identity_plain : plain (identity_value identity).
Abbreviation le := (le identity).
Abbreviation since := (since identity).
Abbreviation seen := (seen identity).

#[local] Existing Instance le_preorder.

(** The state of a journal that was seen. *)
Definition shows (J : JournalState) (st : HistoryPreparationState) (w : W) : Prop := exists J', seen J w J' /\ j_head J' = Some st.

Lemma shows_le J st w w' : le w w' -> shows J st w -> shows J st w'.
Proof. intros Hle (J' & HJ & Hj). exists J'. split; [by eapply seen_le|done]. Qed.

Lemma shows_seen J J1 w st w' : seen J w J1 -> shows J1 st w' -> shows J st w'.
Proof. intros Hs (J' & HJ & Hj). exists J'. split; [by eapply seen_trans|done]. Qed.

(** What the head of a journal that was seen says. *)
Lemma head_facts h J : isHead identity h J -> reachable identity J ->
  j_head J = Some (h_state h) /\ s_identity (h_state h) = identity /\ plain (state_value (h_state h)) /\ isSafeInteger (s_objectCount (h_state h)) /\ phase_ok (h_state h) (j_objects J).
Proof.
  intros (Hj & _) Hr. pose proof (reachable_journal_ok identity identity_plain J Hr) as [Hok Hn _ _ _ _ _]. rewrite Hj in Hok. destruct Hok as (Hi & Hp & Hc & _ & Hph). split_and!; try done.
  rewrite Hc. apply safe_between. unfold MAX_PREPARED_OBJECTS, MAX_SAFE_INTEGER in *. lia.
Qed.

Lemma member_ok J r : reachable identity J -> r ∈ j_objects J -> prepared_ok identity r.
Proof. intros Hr Hin. pose proof (reachable_journal_ok identity identity_plain J Hr) as [_ _ Ho _ _ _ _]. rewrite Forall_forall in Ho. by apply Ho. Qed.

Lemma root_same s root : plain (state_value s) -> plain (root_value root) -> sameJson (nullable root_value (s_root s)) (root_value root) = true -> s_root s = Some root.
Proof.
  intros Hp Hr Hs. pose proof (plain_state s Hp) as (_ & _ & _ & Hp4 & _). apply sameJson_true in Hs; [|done|done]. unfold same in Hs.
  destruct (s_root s) as [r|]; cbn [nullable] in Hs; [|discriminate Hs]. by rewrite (normal_prepared_root_inj _ _ Hs).
Qed.

(** Freezing: the coverage was derived of all the objects of some later journal, and the journal is still the one of the head when the state is replaced. *)
Lemma freeze_safe h J record w0 : isHead identity h J -> reachable identity J -> since w0 J -> s_phase (h_state h) = Captured -> record ∈ j_objects J ->
  eb_objectKind (po_binding record) = KindPage ->
  safe le w0 (coverage ← deriveFrom (po_ciphertextId record) (expected identity); save identity h (frozen (h_state h) (mkPreparedRoot (po_binding record) (po_ciphertextId record)) coverage))
    (fun st w => shows J st w /\ s_phase st = Archived /\ s_root st = Some (mkPreparedRoot (po_binding record) (po_ciphertextId record))).
Proof.
  intros Hh Hr Hn Hphase Hin Hkind. pose proof (member_ok _ _ Hr Hin) as Hok. destruct (head_facts h J Hh Hr) as (Hj & Hi & Hp & Hc & _).
  sbind ltac:(apply (derive_safe identity identity_plain (po_ciphertextId record) J); [apply (prep_object _ _ Hok)|done]). intros coverage w1 Hw1 (J1 & HJ1 & Hcov).
  pose proof (reachable_journal_ok identity identity_plain J1 (proj1 (proj2 HJ1))) as [_ Hn1 Ho1 _ _ _ _].
  eapply safe_weaken; [exact _|apply (save_safe identity identity_plain h _ J J1 w1 Hh Hr HJ1)|].
  - eapply frozen_plain; [done|done|exact Hok|]. eapply covers_ok; [apply (prep_object _ _ Hok)|exact Ho1|exact Hn1| |exact Hcov].
    intros Hnil. destruct (steps_objects identity J J1 (proj1 HJ1)) as [k Hk]. rewrite Hnil in Hk. symmetry in Hk. apply app_eq_nil in Hk as [Hk _]. rewrite Hk in Hin. by apply elem_of_nil in Hin.
  - exact Hi.
  - intros ->. destruct J as [s rs]. cbn [j_head j_objects] in *. subst s. by apply step_freeze.
  - cbv beta. intros st w2 _ [-> HJ2]. split_and!; [exact HJ2|done|done].
Qed.

Lemma archive_safe rootInput J w0 : plain rootInput -> since w0 J ->
  safe le w0 (archive identity rootInput) (fun st w => shows J st w /\ s_phase st <> Captured /\
    exists b id, capturePreparationBinding rootInput identity = Ok b /\ s_root st = Some (mkPreparedRoot b id)).
Proof.
  intros Hp Hn. unfold archive. slift. intros b w1 Hw1 Hcap. destruct (binding_captured identity _ _ Hp Hcap) as [Hok Hpb]. srequire. intros _ w2 Hw2 Hkind%bool_decide_eq_true.
  sbind ltac:(apply (head_safe identity identity_plain J); eapply since_le; [|exact Hn]; by etrans). intros h w3 Hw3 (J1 & HJ1 & Hh). cbv zeta. pose proof HJ1 as (_ & Hr1 & Hn1).
  sbind ltac:(by apply (existing_safe identity identity_plain J1)). intros found w4 Hw4 (J2 & HJ2 & Hfound). destruct found as [record|]; [|apply safe_throw, _].
  destruct (Hfound record eq_refl) as (Hin2 & Hi & Hbind). pose proof Hh as (Hj & _).
  assert (record ∈ j_objects J1) as Hin by (eapply (steps_known identity identity_plain); [done|apply HJ2|done|done|done]). subst b.
  assert (since w4 J1) as Hn4 by by eapply since_le. pose proof (head_facts h J1 Hh Hr1) as (_ & _ & Hps & _). pose proof (member_ok _ _ Hr1 Hin) as [Hrp [Hid _] _ _ _]. case_bool_decide as Hphase; cbn [negb].
  - sbind ltac:(apply moves_safe, readSource_moves; [apply head_moves|intros; apply guard_moves]). intros _ w5 Hw5 _. sbind ltac:(apply moves_safe, chain_moves). intros digest w6 Hw6 _. srequire. intros _ w7 Hw7 _.
    eapply safe_weaken; [exact _|apply (freeze_safe h J1 record w7 Hh Hr1); try done|].
    + eapply since_le; [|exact Hn4]. do 2 (etrans; [eassumption|]). done.
    + cbv beta. intros st w8 _ (Hst & -> & Hroot). split_and!; [by eapply shows_seen|done|]. by exists (po_binding record), (po_ciphertextId record).
  - srequire. intros _ w5 Hw5 Hroot. apply root_same in Hroot; [|done|]. 2: { unfold root_value. cbn [root_binding root_ciphertextId]. plain_record; [exact Hpb|by apply digest_units]. }
    sret. intros w6 Hw6. split_and!; [|done|by exists (po_binding record), (po_ciphertextId record)]. exists J1. split; [|done]. eapply seen_le; [|exact HJ1]. do 2 (etrans; [eassumption|]). done.
Qed.
Lemma cover_safe J w0 : since w0 J -> safe le w0 (cover identity) (fun st w => shows J st w /\ s_phase st = Covered).
Proof.
  intros Hn. unfold cover. sbind ltac:(by apply (head_safe identity identity_plain J)). intros h w1 Hw1 (J1 & HJ1 & Hh). cbv zeta. pose proof HJ1 as (_ & Hr1 & Hn1). pose proof (head_facts h J1 Hh Hr1) as (Hj & Hi & _).
  destruct (s_phase (h_state h)) eqn:Hphase; [apply safe_throw, _| |].
  - sbind ltac:(apply moves_safe, objects_moves; intros; apply upload_moves). intros _ w2 Hw2 _. destruct (s_root (h_state h)) as [root|]; [|apply safe_throw, _].
    sbind ltac:(apply moves_safe, confirm_moves). intros receipt w3 Hw3 _. slift. intros [] w4 Hw4 Hv. sbind ltac:(apply current_safe). intros _ w5 Hw5 _.
    eapply safe_weaken; [exact _|apply (save_safe identity identity_plain h (confirmed (h_state h) receipt) J1 J1 w5 Hh Hr1)|].
    + split_and!; [done|done|]. eapply since_le; [|exact Hn1]. do 3 (etrans; [eassumption|]). done.
    + pose proof (reachable_journal_ok identity identity_plain J1 Hr1) as Hok. destruct J1 as [s rs]. cbn [j_head] in Hj. subst s. destruct (cover_ok identity _ _ _ Hphase Hv Hok) as [(_ & Hp & _) _ _ _ _ _ _]. exact Hp.
    + exact Hi.
    + intros _. destruct J1 as [s rs]. cbn [j_head j_objects] in *. subst s. by apply step_cover.
    + cbv beta. intros st w6 _ [-> HJ2]. split; [|done]. by eapply shows_seen.
  - sret. intros w2 Hw2. split; [|done]. exists J1. split; [by eapply seen_le|done].
Qed.

(** A journal without a head is empty, and a head starts it. *)
Lemma start_encodes c J reference : encodes identity c J -> c !! headName identity = None -> plain (bytes_value reference) ->
  exists J', rtc (jstep identity) J J' /\ encodes identity (applied c [(headName identity, stateText (startState identity reference))]) J' /\ j_head J' = Some (startState identity reference).
Proof.
  intros HJ Hc Hp. pose proof (enc_reachable _ _ _ HJ) as Hr. pose proof (reachable_journal_ok identity identity_plain J Hr) as [Hok _ _ _ _ _ _].
  rewrite (enc_head _ _ _ HJ) in Hc. destruct J as [[s|] rs]; [discriminate Hc|]. cbn [j_head j_objects] in Hok. subst rs.
  exists (mkJournal (Some (startState identity reference)) []). split_and!; [by apply rtc_once, step_capture| |done].
  cbn [applied foldl fst snd]. eapply encodes_head; [exact HJ|]. unfold reachable in *. eapply rtc_r; [exact Hr|]. by apply step_capture.
Qed.

Lemma capture_safe source J w0 : since w0 J -> safe le w0 (capture identity source) (fun st w => shows J st w).
Proof.
  intros Hn. unfold capture. sbind ltac:(apply current_safe). intros _ w1 Hw1 _.
  sbind ltac:(apply (runs_moves_safe identity _ (fun reference => plain (bytes_value reference))); [|intros w; apply write_plain]).
  { apply writeArchiveBytes_moves; [exact _|]. intros id bytes. apply source_write_moves. }
  intros reference w2 Hw2 Hp. cbv zeta. sbind ltac:(apply (headOptional_safe identity identity_plain J); eapply since_le; [|exact Hn]; by etrans). intros [h|] w3 Hw3 (J1 & HJ1 & Hh); pose proof HJ1 as (_ & Hr1 & Hn1).
  - srequire. intros _ w4 Hw4 _. sret. intros w5 Hw5. exists J1. split; [|by apply Hh]. eapply seen_le; [|exact HJ1]. by etrans.
  - sbind ltac:(apply prefix_safe). intros ? w4 Hw4 ->. slift. intros ? w5 Hw5 _. sbind ltac:(apply current_safe). intros _ w6 Hw6 _.
    assert (since w6 J1) as Hn6 by (eapply since_le; [|exact Hn1]; do 2 (etrans; [eassumption|]); done).
    sbind ltac:(apply (swap_step identity identity_plain J1 _ _ _ (fun J' => j_head J' = Some (startState identity reference)) Hn6)).
    { intros c J2 Hs2 HJ2 [Hc _]%Forall_cons. cbn [fst snd] in Hc. apply (start_encodes c J2); [done|done|done]. }
    intros swapped w7 Hw7 Hsw. destruct swapped.
    + destruct (Hsw eq_refl) as (J2 & HJ2 & Hj). sbind ltac:(apply current_safe). intros _ w8 Hw8 _. sret. intros w9 Hw9. eapply shows_seen; [exact HJ1|]. exists J2. split; [|done]. eapply seen_le; [|exact HJ2]. by etrans.
    + sbind ltac:(apply (head_safe identity identity_plain J1); by eapply since_le). intros winner w8 Hw8 (J2 & HJ2 & Hw). srequire. intros _ w9 Hw9 _. sret. intros w10 Hw10.
      eapply shows_seen; [exact HJ1|]. exists J2. split; [|by apply Hw]. eapply seen_le; [|exact HJ2]. by etrans.
Qed.
(** *** Calls *)
Inductive JournalCall :=
| CallCapture (source : list (list N))
| CallRead
| CallReadSource
| CallStage (scope : ArchiveEncryptionScope) (binding : value) (bytes : list N)
| CallStageSealed (scope : ArchiveEncryptionScope) (binding : value) (sealed : SealedArchiveObject)
| CallReadObject (ciphertextId : list N)
| CallObjects
| CallLocators
| CallArchive (root : value)
| CallCover.

(** A call as a client makes it; what the client does between the items of an iteration is not part of it. *)
Definition runCall (call : JournalCall) : M W unit :=
  match call with
  | CallCapture source => capture identity source;; mret tt
  | CallRead => read identity;; mret tt
  | CallReadSource => readSource identity (fun _ => mret tt);; mret tt
  | CallStage scope binding bytes => stage identity scope binding bytes;; mret tt
  | CallStageSealed scope binding sealed => stageSealed identity scope binding sealed;; mret tt
  | CallReadObject ciphertextId => readPreparedObject identity ciphertextId;; mret tt
  | CallObjects => objects identity (fun _ _ => mret tt) tt;; mret tt
  | CallLocators => locators identity (fun _ _ => mret tt) tt;; mret tt
  | CallArchive root => archive identity root;; mret tt
  | CallCover => cover identity;; mret tt
  end.

(** The arguments are JSON data and bytes. *)
Definition callable (call : JournalCall) : Prop :=
  match call with
  | CallStage _ binding bytes => plain binding /\ Forall isByte bytes
  | CallStageSealed _ binding _ => plain binding
  | CallArchive root => plain root
  | _ => True
  end.

(** One call after the other, whether it returns or throws. *)
Definition runCalls (calls : list JournalCall) (w : W) : W := foldl (fun w call => (runCall call w).2) w calls.

Lemma safe_moves {A} (m : M W A) Q w : safe le w m Q -> le w (m w).2.
Proof. intros Hs. by apply (Hs w). Qed.

Lemma since_self w J : encodes identity (contents w) J -> since w J.
Proof. intros HJ. exists J. by split. Qed.

Lemma then_unit {A} (m : M W A) w : ((m;; mret tt) w).2 = (m w).2.
Proof. unfold mbind, M_bind. by destruct (m w) as [[]]. Qed.

Lemma call_le call w J : callable call -> encodes identity (contents w) J -> le w (runCall call w).2.
Proof.
  intros Hc HJ%since_self. destruct call; cbn [callable] in Hc; cbn [runCall]; rewrite then_unit.
  - eapply safe_moves. by apply (capture_safe _ J).
  - revert w HJ. intros w _. unfold read. apply moves_bind; [exact _|apply headOptional_moves|intros; apply moves_ret, _].
  - apply readSource_moves; [apply head_moves|intros; apply moves_ret, _].
  - eapply safe_moves. apply (stage_safe identity identity_plain _ _ _ J); [apply Hc|apply Hc|done].
  - eapply safe_moves. by apply (stageSealed_safe identity identity_plain _ _ _ J).
  - apply readPrepared_moves.
  - apply objects_moves. intros. apply moves_ret, _.
  - apply locators_moves. intros. apply moves_ret, _.
  - eapply safe_moves. by apply (archive_safe _ J).
  - eapply safe_moves. by apply (cover_safe J).
Qed.

Lemma calls_le calls w J : Forall callable calls -> encodes identity (contents w) J -> le w (runCalls calls w).
Proof.
  intros Hc. revert w J. induction Hc as [|call calls Hcall _ IH]; intros w J HJ; [reflexivity|]. pose proof (call_le call w J Hcall HJ) as Hle.
  destruct (Hle J HJ) as (J1 & _ & HJ1). etrans; [exact Hle|]. exact (IH _ J1 HJ1).
Qed.

Lemma safe_result {A} (m : M W A) Q w a w' : safe le w m Q -> m w = (Ok a, w') -> le w w' /\ Q a w'.
Proof. intros Hs Hm. destruct (Hs w ltac:(reflexivity)) as [Hle HQ]. rewrite Hm in *. split; [exact Hle|by apply HQ]. Qed.

(** *** One record for a binding *)
Lemma one_record J r r' : reachable identity J -> r ∈ j_objects J -> r' ∈ j_objects J -> po_binding r = po_binding r' -> r = r'.
Proof.
  intros Hr [i Hi]%list_elem_of_lookup [j Hj]%list_elem_of_lookup Hb. pose proof (reachable_journal_ok identity identity_plain J Hr) as [_ _ _ _ Hnd _ _].
  assert (i = j) as ->; [|congruence]. eapply (NoDup_lookup _ i j (bindingDigest (po_binding r)) Hnd); unfold bindings.
  - by rewrite list_lookup_fmap, Hi.
  - by rewrite list_lookup_fmap, Hj, Hb.
Qed.

Lemma steps_member J J' r : rtc (jstep identity) J J' -> r ∈ j_objects J -> r ∈ j_objects J'.
Proof. intros Hs Hin. destruct (steps_objects identity J J' Hs) as [k ->]. apply elem_of_app. by left. Qed.

Lemma staged_now J b r w : staged identity J b r w -> exists J', rtc (jstep identity) J J' /\ encodes identity (contents w) J' /\ r ∈ j_objects J' /\ po_binding r = b.
Proof. intros (J1 & (Hs & _ & J2 & Hs2 & HJ2) & Hin & Hb). exists J2. split_and!; [by etrans|done|by eapply steps_member|done]. Qed.

Lemma staged_again J b r r' w : encodes identity (contents w) J -> r ∈ j_objects J -> po_binding r = b -> forall w', staged identity J b r' w' -> r' = r.
Proof.
  intros HJ Hin Hb w' (J1 & Hs & HJ1 & Hin' & Hb')%staged_now. eapply one_record; [apply (enc_reachable _ _ _ HJ1)|done|by eapply steps_member|congruence].
Qed.

(** An operation that stages an object under [binding]. *)
Definition stagesUnder (binding : ArchiveEncryptionBinding) (m : M W HistoryPreparedObject) : Prop :=
  exists input, plain input /\ capturePreparationBinding input identity = Ok binding /\
    ((exists scope bytes, Forall isByte bytes /\ m = stage identity scope input bytes) \/ exists scope sealed, m = stageSealed identity scope input sealed).

Lemma stages_safe binding m J w0 : stagesUnder binding m -> since w0 J -> safe le w0 m (fun r w => staged identity J binding r w).
Proof.
  intros (input & Hp & Hcap & [(scope & bytes & Hb & ->)|(scope & sealed & ->)]) Hn.
  - eapply safe_weaken; [exact _|by apply (stage_safe identity identity_plain _ _ _ J)|]. cbv beta. intros r w _ (b & Hb' & Hs & _). rewrite Hcap in Hb'. by injection Hb' as <-.
  - eapply safe_weaken; [exact _|by apply (stageSealed_safe identity identity_plain _ _ _ J)|]. cbv beta. intros r w _ (b & Hb' & Hs & _). rewrite Hcap in Hb'. by injection Hb' as <-.
Qed.

(** *** Covered journals *)
Lemma covered_final J J' st : j_head J = Some st -> s_phase st = Covered -> rtc (jstep identity) J J' -> J' = J.
Proof. intros Hj Hp Hs. destruct Hs as [|J1 J2 J3 Hstep _]; [done|]. destruct Hstep; cbn in Hj; congruence. Qed.

Lemma batch_height input authority root s header os signer signature :
  captureArchiveCoverageChild input = Ok (BatchReceipt header os signer signature) -> verifyArchiveCoverageChild input authority root = Ok s -> sum_height s = 0.
Proof.
  intros Hcap. unfold verifyArchiveCoverageChild. rewrite Hcap. cbn [mbind result_bind]. intros (? & _ & Hv)%bind_ok. apply bind_ok in Hv as (? & _ & Hv). apply bind_ok in Hv as (? & _ & Hv).
  revert Hv. guard_passed as Hg. intros (verified & _ & Hv)%bind_ok. revert Hv. guard_passed as Hg'. unfold archiveCoverageLeaf.
  intros (? & _ & Hv)%bind_ok. apply bind_ok in Hv as (? & _ & Hv). by injection Hv as <-.
Qed.

(** The receipt of a covered state is accepted, for the objects of the journal in their order, by the check of complete sets. *)
Lemma covered_verifies J st : journal_ok identity J -> j_head J = Some st -> s_phase st = Covered ->
  exists receipt root expected sorted, s_coverage st = Some receipt /\ s_root st = Some root /\ s_expectedCoverage st = Some expected /\
    sorted ≡ₚ map coverageObject (j_objects J) /\
    verifyCompleteArchiveCoverage (child_value receipt) (storage_value (hp_storage identity)) (root_ciphertextId root) (map object_value sorted, Ok tt) = Ok expected.
Proof.
  intros [Hhead Hn Ho _ _ _ _] Hj Hp. rewrite Hj in Hhead. destruct Hhead as (Hi & Hpl & _ & _ & Hph). unfold phase_ok in Hph. rewrite Hp in Hph.
  destruct Hph as (r & coverage & Hin & _ & Hcov & Hroot & Hexp & Hv). assert (j_objects J <> []) as Hne by (intros Hnil; rewrite Hnil in Hin; by apply elem_of_nil in Hin).
  assert (prepared_ok identity r) as [_ Hr _ _ _] by (rewrite Forall_forall in Ho; by apply Ho). destruct (covers_ok identity _ _ _ (proj1 Hr) Ho Hn Hne Hcov) as [Hsum _].
  unfold verifyPreparedCoverage in Hv. rewrite Hp, Hroot, Hexp, Hi in Hv. cbn [nullable root_ciphertextId] in Hv. apply bind_ok in Hv as (summary & Hv & Hs).
  destruct (s_coverage st) as [receipt|] eqn:Hc; cbn [nullable] in Hv; [|discriminate Hv].
  apply require_ok in Hs. change (sameSummary summary coverage = true) in Hs. apply sameSummary_true in Hs as ->; [|by eapply verifyChild_ok|done].
  destruct Hcov as (sorted & k & Hperm & Hord & Hk & ->). assert (length sorted = length (j_objects J)) as Hlen by (rewrite Hperm; apply length_map).
  exists receipt, (mkPreparedRoot (po_binding r) (po_ciphertextId r)), (canon (po_ciphertextId r) k sorted), sorted. split_and!; try done. cbn [root_ciphertextId].
  assert (exists c, captureArchiveCoverageChild (child_value receipt) = Ok c) as [c Hcap] by (unfold verifyArchiveCoverageChild in Hv; by apply bind_ok in Hv as (c & Hcap & _); exists c).
  pose proof (child_inv _ _ Hcap) as ->. assert (Z.of_nat (length (map object_value sorted)) <= MAX_SAFE_INTEGER) as Hmax by (rewrite length_map, Hlen; unfold MAX_PREPARED_OBJECTS, MAX_SAFE_INTEGER in *; lia).
  apply complete_ok; [exact Hmax|]. exists receipt. split_and!; [done| |done| |].
  - destruct receipt as [header os signer signature|]; [|done]. pose proof (batch_height _ _ _ _ _ _ _ _ Hcap Hv) as Hh. unfold canon, describe in Hh. cbn [sum_height] in Hh. destruct Hk as [Hk _]. lia.
  - apply derive_exact; [exact Hmax|]. split; [apply Hr|]. exists sorted, k. split_and!; try done; [|intros ->; destruct (j_objects J); done].
    split; [done|]. cbn [fst]. apply Forall2_fmap_l, Forall_Forall2_diag. rewrite Hperm. apply Forall_map. eapply Forall_impl; [exact Ho|]. intros x []. by apply captureObject_value.
  - unfold canon, describe. cbn [sum_rootCovered]. apply existsb_exists. exists (coverageObject r). split; [|by apply bool_decide_eq_true].
    apply list_elem_of_In. rewrite Hperm. by apply list_elem_of_fmap_2.
Qed.

Lemma shows_now J st w : shows J st w -> s_phase st = Covered -> exists J', rtc (jstep identity) J J' /\ encodes identity (contents w) J' /\ j_head J' = Some st.
Proof. intros (J' & (Hs & _ & J2 & Hs2 & HJ2) & Hj) Hp. pose proof (covered_final _ _ _ Hj Hp Hs2) as ->. by exists J'. Qed.
End Operations.

(** C3. The journal implements its protocol: whatever operations are
    called with JSON data and bytes, in any order, whether they return or throw, and
    whatever the storage service answers, the records start from those of a journal
    and end as those of a journal that steps of the protocol lead to, which has all
    objects it had before.  Other writers may change the records at any call of a
    port, by the same protocol. *)
Theorem journal_refines `{Sha256} `{Ed25519} `{Platform} `{!Wrapping} `{!RawKeys} {W} `{HistoryPreparationPersistence W} `{Randomness W} `{HistoryPreparationRemote W}
    (identity : HistoryPreparationIdentity) {host : JournalHost identity W} (calls : list JournalCall) (w : W) (J : JournalState) :
  plain (identity_value identity) -> Forall callable calls -> encodes identity (contents w) J ->
  exists J', rtc (jstep identity) J J' /\ encodes identity (contents (runCalls identity calls w)) J' /\ j_objects J `prefix_of` j_objects J'.
Proof.
  intros Hp Hc HJ. destruct (calls_le identity Hp calls w J Hc HJ J HJ) as (J' & Hs & HJ'). exists J'. split_and!; [done|done|]. by apply (steps_objects identity).
Qed.

(** C4. What was staged is durable and unique: a record that [stage] returns is in
    the journal under its binding, and it opens to bytes with the hash that the binding names;
    after any further calls, and whatever other writers do, staging the same binding
    again, under any scope and bytes, returns the same record or throws, so an object is
    never sealed or requested twice. *)
Theorem journal_stage_durable `{Sha256} `{Ed25519} `{Platform} `{!Wrapping} `{!RawKeys} {W} `{HistoryPreparationPersistence W} `{Randomness W} `{HistoryPreparationRemote W}
    (identity : HistoryPreparationIdentity) {host : JournalHost identity W} scope bindingInput bytes (w w1 : W) (J : JournalState) r :
  plain (identity_value identity) -> plain bindingInput -> Forall isByte bytes -> encodes identity (contents w) J ->
  stage identity scope bindingInput bytes w = (Ok r, w1) ->
  exists J1, rtc (jstep identity) J J1 /\ encodes identity (contents w1) J1 /\ r ∈ j_objects J1 /\
    capturePreparationBinding bindingInput identity = Ok (po_binding r) /\ opens scope (po_binding r) r /\
    forall calls again r' w2, Forall callable calls -> stagesUnder identity (po_binding r) again -> again (runCalls identity calls w1) = (Ok r', w2) -> r' = r.
Proof.
  intros Hp Hb Hbytes HJ Hrun. destruct (safe_result identity _ _ _ _ _ (stage_safe identity Hp _ _ _ J w Hb Hbytes (since_self identity w J HJ)) Hrun) as (_ & b & Hcap & Hst & Hopens).
  apply staged_now in Hst as (J1 & Hs1 & HJ1 & Hin & <-). exists J1. split_and!; try done. intros calls again r' w2 Hcalls Hagain Hrun2.
  destruct (calls_le identity Hp calls w1 J1 Hcalls HJ1 J1 HJ1) as (J2 & Hs2 & HJ2).
  destruct (safe_result identity _ _ _ _ _ (stages_safe identity Hp _ _ J2 _ Hagain (since_self identity _ J2 HJ2)) Hrun2) as [_ Hst].
  eapply (staged_again identity Hp J2 (po_binding r) r r'); [exact HJ2| |done|exact Hst]. by eapply steps_member.
Qed.

(** C5. A covered preparation is complete and final: if [cover] returns, the state is
    covered, and its receipt passes [verifyCompleteArchiveCoverage] for the storage of
    the preparation, its root and exactly the objects of the journal, with the summary that
    the freeze recorded; and no further call or writer changes the journal. *)
Theorem journal_covered_complete `{Sha256} `{Ed25519} `{Platform} `{!Wrapping} `{!RawKeys} {W} `{HistoryPreparationPersistence W} `{Randomness W} `{HistoryPreparationRemote W}
    (identity : HistoryPreparationIdentity) {host : JournalHost identity W} (w w1 : W) (J : JournalState) st :
  plain (identity_value identity) -> encodes identity (contents w) J -> cover identity w = (Ok st, w1) ->
  exists J1, rtc (jstep identity) J J1 /\ encodes identity (contents w1) J1 /\ j_head J1 = Some st /\ s_phase st = Covered /\
    (exists receipt root expected sorted, s_coverage st = Some receipt /\ s_root st = Some root /\ s_expectedCoverage st = Some expected /\
      sorted ≡ₚ map coverageObject (j_objects J1) /\
      verifyCompleteArchiveCoverage (child_value receipt) (storage_value (hp_storage identity)) (root_ciphertextId root) (map object_value sorted, Ok tt) = Ok expected) /\
    forall calls, Forall callable calls -> encodes identity (contents (runCalls identity calls w1)) J1.
Proof.
  intros Hp HJ Hrun. destruct (safe_result identity _ _ _ _ _ (cover_safe identity Hp J w (since_self identity w J HJ)) Hrun) as (_ & Hst & Hcov).
  destruct (shows_now identity J st w1 Hst Hcov) as (J1 & Hs1 & HJ1 & Hj). exists J1. split_and!; try done.
  - apply covered_verifies; [|done|done]. by apply reachable_journal_ok, (enc_reachable _ _ _ HJ1).
  - intros calls Hcalls. destruct (calls_le identity Hp calls w1 J1 Hcalls HJ1 J1 HJ1) as (J2 & Hs2 & HJ2). by rewrite <-(covered_final identity J1 J2 st Hj Hcov Hs2).
Qed.

(** ** The journal over a memory *)
Lemma empty_encodes `{Sha256} `{Ed25519} identity : encodes identity ∅ emptyJournal.
Proof. split; [apply rtc_refl|..]; cbn [j_head j_objects emptyJournal]; intros; by rewrite lookup_empty. Qed.

Module JournalSample.
#[local] Existing Instance CoverageSample.sampleSha.
#[local] Existing Instance CoverageSample.wideEd25519.
#[local] Existing Instance Recovery.toyWrapping.
#[local] Instance sampleKeys : RawKeys := fun key => key.
#[local] Instance samplePlatform : Platform := {| nfkc := fun text => text;
  parseURL := fun text => Some (mkURL text [] [] (js "/") [] [] (js "https:") (js "archive.example")) |}.

Abbreviation memory := (gmap (list N) (list N)).

Definition rowsAfter (family : list N) (after : option (list N)) (c : memory) : list (list N * list N) :=
  sortBy (fun a b => str_leb a.1 b.1)
    (List.filter (fun kv => startsWith kv.1 family && match after with Some after => str_ltb after kv.1 | None => true end) (map_to_list c)).

Definition holds (c : memory) (conditions : list (list N * option (list N))) : bool := forallb (fun kv => bool_decide (c !! kv.1 = kv.2)) conditions.

(** The records themselves: conditions and writes are one step, after the guard. *)
#[local] Instance memoryPersistence : HistoryPreparationPersistence memory := {|
  journal_read key := fun c => (Ok (c !! key), c);
  journal_scan family after limit := fun c =>
    let rows := rowsAfter family after c in
    let page := take (Z.to_nat limit) rows in
    (Ok (mkStoragePage page (if (length page <? length rows)%nat then fst <$> last page else None)), c);
  journal_compareAndSwap conditions writes guard := fun c =>
    match guard c with
    | (Ok _, c) => if holds c conditions then (Ok true, foldl (fun c kv => <[kv.1 := kv.2]> c) c writes) else (Ok false, c)
    | (Throw message, c) => (Throw message, c)
    end;
  journal_guard := mret Undefined |}.

#[local] Instance fixedRandomness : Randomness memory := {| randomUUID := mret (replicate 36 65%N); randomNonce := mret (replicate 12 7%N) |}.

Definition serviceKey : list N := CoverageSample.serviceKey.
Definition serviceId : list N := CoverageSample.serviceId.
Definition scopeKey : list N := replicate 32 5%N.
Definition storage : PreparationStorage := mkStorage (js "https://archive.example") (mkCoverageAuthority serviceKey (js "scope") 3) 1 (sha256Base64Url scopeKey).
Definition someId : list N := CoverageSample.root.
Definition identity : HistoryPreparationIdentity :=
  mkPreparation (js "transition-of-the-sample") someId (js "workspace") 1 someId someId someId None storage.

Definition sign (payload : value) : result value := signEnvelope (9%N : CryptoKey) payload serviceId (js "RUSTY/2").

(** A service that signs what it is asked for. *)
#[local] Instance signingService : HistoryPreparationRemote memory := {|
  remote_upload object request := liftM (
    let record := mkPrepared 0 None (mkEncryptionBinding (mkContext [] 1 []) [] KindPage 0 1) request (mkSealed (ciphertextIdOf object) object) in
    sign (expectedReceipt serviceId identity record));
  remote_coverage objects request := liftM (sign (child_payload (BatchReceipt (mkReceiptHeader serviceId (js "scope") 3 request) objects [] [])));
  remote_aggregate root children request := liftM (
    summaries ← mapR (fun child => verifyArchiveCoverageChild (child_value child) (storage_value storage) root) children;
    s ← archiveCoverageBranch root (map summary_value summaries);
    sign (child_payload (AggregateReceipt (mkReceiptHeader serviceId (js "scope") 3 request) root s [] []))) |}.

#[local] Instance memoryHost : JournalHost identity memory.
Proof.
  refine {| contents := fun c => c |}; cbn [journal_read journal_scan journal_guard journal_compareAndSwap randomUUID randomNonce remote_upload remote_coverage remote_aggregate
    memoryPersistence fixedRandomness signingService]; try done.
  - intros key c. exists c. split_and!; [done|done|]. by intros v [= <-].
  - intros conditions writes guard c Hg. cbv zeta. specialize (Hg c). destruct (guard c) as [[u|] c1]; cbn [snd] in Hg; [|by left].
    destruct (holds c1 conditions) eqn:Hc; [|by left]. right. exists c1. split_and!; [done| |done]. apply Forall_forall. intros kv Hkv%list_elem_of_In. unfold holds in Hc. rewrite forallb_forall in Hc.
    exact (proj1 (bool_decide_eq_true _) (Hc kv Hkv)).
  - intros c. split; [done|]. intros u [= <-]. done.
  - intros c. split; [done|]. intros n [= <-]. split; [done|]. by repeat constructor.
Defined.

Definition scope : ArchiveEncryptionScope := mkScope (js "scope") 1 scopeKey.
Definition bindingOf (bytes : list N) (kind : ObjectKind) : value := binding_value (mkEncryptionBinding (mkContext (js "workspace") 1 (js "index")) (sha256Base64Url bytes) kind 0 1).
Definition page : list N := js "page".
Definition part : list N := js "part".
Definition startCalls : list JournalCall := [CallCapture [[1; 2; 3]%N]; CallStage scope (bindingOf part KindPart) part].
Definition start : memory := runCalls identity startCalls ∅.
Definition frozenCalls : list JournalCall := startCalls ++ [CallStage scope (bindingOf page KindPage) page; CallArchive (bindingOf page KindPage)].
Definition frozenJournal : memory := runCalls identity frozenCalls ∅.

Lemma startCalls_callable : Forall callable startCalls.
Proof. constructor; [done|]. constructor; [|by constructor]. split; [by vm_compute|by repeat constructor]. Qed.

Lemma frozenCalls_callable : Forall callable frozenCalls.
Proof.
  apply Forall_app. split; [apply startCalls_callable|]. constructor; [split; [by vm_compute|by repeat constructor]|]. constructor; [by vm_compute|by constructor].
Qed.

Lemma identity_is_plain : plain (identity_value identity).
Proof. by vm_compute. Qed.
End JournalSample.

#[local] Existing Instances CoverageSample.sampleSha CoverageSample.wideEd25519 Recovery.toyWrapping.
#[local] Existing Instances JournalSample.sampleKeys JournalSample.samplePlatform JournalSample.memoryPersistence JournalSample.fixedRandomness JournalSample.signingService JournalSample.memoryHost.

Lemma journal_refines_witness : exists J', rtc (jstep JournalSample.identity) emptyJournal J' /\
  encodes JournalSample.identity (contents (runCalls JournalSample.identity JournalSample.frozenCalls ∅)) J'.
Proof.
  destruct (journal_refines JournalSample.identity JournalSample.frozenCalls ∅ emptyJournal) as (J' & Hs & HJ & _);
    [apply JournalSample.identity_is_plain|apply JournalSample.frozenCalls_callable|by apply empty_encodes|by exists J'].
Defined.

(** A journal of the sample. *)
Lemma sample_journal calls : Forall callable calls -> exists J, encodes JournalSample.identity (contents (runCalls JournalSample.identity calls ∅)) J.
Proof.
  intros Hc. assert (encodes JournalSample.identity (contents (∅ : JournalSample.memory)) emptyJournal) as He by apply empty_encodes.
  destruct (calls_le JournalSample.identity JournalSample.identity_is_plain calls ∅ emptyJournal Hc He _ He) as (J & _ & HJ). by exists J.
Qed.

Lemma start_journal : exists J, encodes JournalSample.identity (contents JournalSample.start) J.
Proof. exact (sample_journal JournalSample.startCalls JournalSample.startCalls_callable). Qed.

Lemma frozen_journal : exists J, encodes JournalSample.identity (contents JournalSample.frozenJournal) J.
Proof. exact (sample_journal JournalSample.frozenCalls JournalSample.frozenCalls_callable). Qed.

Lemma journal_stage_durable_witness :
  match stage JournalSample.identity JournalSample.scope (JournalSample.bindingOf JournalSample.page KindPage) JournalSample.page JournalSample.start with
  | (Ok r, w1) => exists J, encodes JournalSample.identity (contents w1) J /\ r ∈ j_objects J
  | _ => False
  end.
Proof.
  assert (match (stage JournalSample.identity JournalSample.scope (JournalSample.bindingOf JournalSample.page KindPage) JournalSample.page JournalSample.start).1 with Ok _ => true | _ => false end = true) as Hok by by vm_compute.
  assert (plain (JournalSample.bindingOf JournalSample.page KindPage)) as Hb by by vm_compute. assert (Forall isByte JournalSample.page) as Hp by by repeat constructor.
  destruct start_journal as [J HJ]. destruct (stage _ _ _ _ _) as [[r|] w1] eqn:Hrun; [|discriminate Hok].
  destruct (journal_stage_durable JournalSample.identity JournalSample.scope _ _ JournalSample.start w1 J r JournalSample.identity_is_plain Hb Hp HJ Hrun) as (J1 & _ & HJ1 & Hin & _). exact (ex_intro _ J1 (conj HJ1 Hin)).
Defined.

Lemma journal_covered_complete_witness :
  match cover JournalSample.identity JournalSample.frozenJournal with
  | (Ok st, w1) => s_phase st = Covered
  | _ => False
  end.
Proof.
  assert (match (cover JournalSample.identity JournalSample.frozenJournal).1 with Ok _ => true | _ => false end = true) as Hok by by vm_compute.
  destruct frozen_journal as [J HJ]. destruct (cover _ _) as [[st|] w1] eqn:Hrun; [|discriminate Hok].
  destruct (journal_covered_complete JournalSample.identity JournalSample.frozenJournal w1 J st JournalSample.identity_is_plain HJ Hrun) as (J1 & _ & _ & _ & Hc & _). exact Hc.
Defined.
